(* ===== verification/_CoqProject ===== *)
-Q . S2P
Prelude.v
Defines.v
Interaction.v
AttributesImpl.v
Attributes.v
ServiceTypes.v
Platform.v
IpcCommon.v
RemoteMsg.v
RemoteMsgThm.v
WidgetJson.v
UserIdmDatabase.v
NodeCommands.v
EngineTalk.v
Recognition.v
EventListeners.v
Caches.v
CachesThm.v
CallerWatch.v
ListenerManager.v
SoftBus.v
SoftBusThm.v
SoftBusTalk.v
LoadMode.v
LoadModeThm.v
Contexts.v
ContextsThm.v
ContextLife.v
ContextResults.v
RemoteExecutor.v
ContextFactory.v
AuthWidgetHelper.v
SudoContext.v
ExecutorSide.v
AsyncCommand.v
FrameworkCallback.v
AsyncCommandThm.v
Driver.v
WidgetCommands.v
UserAuthService.v
RemoteService.v
RemoteContexts.v
RemoteThm.v
Gate.v
UserAuthGate.v
UserAuthAnswers.v
WidgetRequest.v
UserAuthStart.v
UserAuthParams.v
UserIdmService.v
UserIdmGate.v
UserIdmThm.v
Fsm.v
ResourceNode.v
ResourceNodePool.v
LoadModeHandler.v
CoAuthService.v
CoAuthThm.v
CoAuthReady.v
ScheduleNode.v
ScheduleNodeThm.v
ScheduleNodeBuilder.v
ContextPool.v
ContextPoolThm.v
WidgetScheduleNode.v
WidgetClient.v
WidgetScheduleThm.v
WidgetContext.v
WidgetContextThm.v
WidgetSystem.v
