(* ===== verification/Prelude.v ===== *)
(** * User authentication framework: verification library (root file)

    This library models the services of the user identity and access management
    subsystem (src/services and the attribute store of src/frameworks/native)
    and proves what makes them correct. The definitions keep the names of the
    code; a comment above a definition names the source file and the lines or
    the function that it translates.

    ** The program

    Applications and system services call two system abilities: the
    authentication service (services/ipc/src/user_auth_service.cpp), which
    starts and cancels authentications and answers queries, and the identity
    management service (user_idm_service.cpp), which adds, updates and deletes
    credentials. Both check the permissions of the caller (IpcCommon), make a
    context for what is to be done (ContextFactory) and give it to the context
    pool. The pool admits contexts, makes them wait or stops them for others.
    A running context asks the engine, a trusted application behind a driver,
    for a schedule; the schedule node runs it as a state machine over executors
    (PIN, face, fingerprint), which registered with the resource node pool. An
    authentication with a user interface runs as a widget context, which has a
    schedule of its own and one child context per authentication type. Messages
    between all parts are attribute stores in a type-length-value format.

    Executors live in processes of their own. There the executor framework
    (src/frameworks/native/executors) forwards commands to a driver and
    registers the driver's executors with the registration service
    (co_auth_service.cpp) while the services are ready. A device can have
    another one verify a user, or verify with the executor of another: contexts
    and the remote authentication service exchange messages over connections of
    the soft bus. Where the system can do without the services, the load mode
    starts the engine and stops the services on demand.

    ** Files

    - Prelude: machine integers, bytes, early returns ([WHEN .. RETURN ..;;],
      [CHECK .. ELSE ..;;]), list and map lemmas, tactics.
    - Defines: result codes, roles, types, attribute keys.
    - Attributes: AttributesImpl models the store of
      frameworks/native/common/attributes/src/attributes.cpp (encoders,
      decoders, setters, getters, parser, serializer), Attributes the handle
      and nested arrays. RemoteMsg models the messages between devices
      (services/core/src/remote_msg_util.cpp, soft_bus_message.cpp), RemoteMsgThm
      shows that they arrive as they were sent.
    - Services as programs: Interaction has programs over calls to the outside,
      their runs in any environment and a weakest precondition for them;
      ServiceTypes the records of the interfaces; Platform one constructor per
      call that leaves the services and the type of its answer; IpcCommon the
      permission checks; UserIdmDatabase the credential queries; ContextFactory
      the contexts; AuthWidgetHelper the preparation of a widget
      authentication; UserAuthService and UserIdmService the two services.
      Theorems: Gate, UserAuthGate and UserIdmGate (who may do what),
      UserAuthAnswers (who is answered), UserAuthStart and WidgetRequest (what
      is started), UserAuthParams (texts, configuration), UserIdmThm (what is
      done and what follows a deletion).
    - Fsm: the state machine of services/base/src (builder, queue, posted
      tasks, the scheduling loop), over an interface of queues.
    - Executors: ResourceNode (a node and its executor, with the driver as a
      logged world) and ResourceNodePool (the counted pool, its listeners, the
      commands to executors), over the interface [ResourceNodeOps].
    - Schedules: ScheduleNode (states, handlers, timer, callbacks) and
      ScheduleNodeThm; ScheduleNodeBuilder builds them from orders of the
      driver.
    - Contexts: ContextPool (pool, admission policy, base context) and
      ContextPoolThm; WidgetScheduleNode and WidgetScheduleThm; WidgetContext
      (phases, children, result, timer) and WidgetContextThm; WidgetSystem puts
      a widget context and its schedule together. WidgetJson (documents of the
      JSON library, notices, commands, configuration), WidgetClient (what the
      dialog says and is told, the connection to it) and WidgetCommands (how the
      dialog is started). CallerWatch cancels contexts whose caller is gone.
      EngineTalk is what a context says to the engine, Contexts the contexts
      without a user interface over the interface [ContextKind]; ContextsThm, ContextLife and ContextResults
      show what they promise. SudoContext is the context of a privileged
      command.
    - Other devices: ListenerManager, SoftBus, SoftBusThm and SoftBusTalk
      (connections and what travels over them; services/remote_connect);
      RemoteExecutor (proxy and stub of an executor elsewhere), RemoteService,
      RemoteContexts and RemoteThm.
    - The executor framework: ExecutorSide (its calls), AsyncCommand (an executor
      and its commands), FrameworkCallback, Driver (drivers and their manager);
      AsyncCommandThm interleaves the threads of an executor.
    - Readiness: LoadMode (system parameters, the managers that load the engine
      and stop the service) and LoadModeThm; LoadModeHandler the two load modes
      behind one interface; CoAuthService the registration of executors and the
      start of the services, proved in CoAuthThm against the laws of the
      interface, and CoAuthReady.
    - Listeners and caches: Recognition (the result of user recognition and its
      listeners), EventListeners (listeners of events, the update of a PIN,
      subscriptions), NodeCommands, Caches and CachesThm (the templates that
      executors keep, risk events).

    A later file of the list in _CoqProject may use an earlier one. Components
    meet in four places. The services, contexts, the remote service and the
    caches are programs over the calls of Platform, so one trace shows what they
    do together. The pool of resource nodes is used by the schedule builder and
    the registration service through [ResourceNodeOps]. The registration service
    uses [LoadModeHandler], of which there are two instances. The two ends of the
    soft bus are two copies of one model.

    ** Conventions

    Numbers are [Z] with the wrap-around of their C++ type written out; vectors
    of bytes and strings are [list byte]; an [unordered_map] or [map] is a
    [gmap]; a null pointer or empty optional is [None]; a shared pointer to an
    object that is shared is a handle into a table of objects. Out parameters
    are results. Stateful components are records with one function per
    operation, which returns the new state and the calls it made; posted tasks,
    timers and callbacks are separate steps, so every interleaving that the
    locks allow is a run. The services have no state of their own but the
    session: their functions are programs [service A], and every theorem about
    them holds for every environment, that is for every behaviour of the engine,
    the executors, the token kit, the pool and the allocator.

    ** What is shown

    - The store: serialization and parsing are inverse within the limits, the
      parser accepts exactly the well formed buffers and never reads outside
      them, setters and getters of all types are inverse, array reading ends.
    - The state machine: a run is an execution of its table, takes events in
      order, loses none, and refines the machine over an abstract queue.
    - Schedules: each interleaving is an execution of the abstract schedule
      protocol; the verdict is determined by the history; success is honest;
      nothing is stranded; a stop ends the schedule. The one exception, a
      collector that refuses to start, is a theorem too.
    - Executors: pool and driver always agree; schedules are built from live
      nodes exactly as ordered. No command of an executor is lost when its
      driver breaks, and each index that the services gave is held or returned.
    - Context pool: bounded, work conserving, exclusive where it must be, and a
      cancellation is never lost.
    - Contexts: whatever the pool, cancellations and schedules do, a caller is
      answered at most once, and with the code that schedule and engine decide.
    - Widget contexts: at most one result, always an end, an honest success in
      the composed system; the schedule keeps its protocol. Sudo contexts: one
      answer, which the first event decides.
    - Services: nothing is touched or told before the permissions of the request
      are confirmed; each request starts, cancels and deletes just what it
      names; each caller is answered; deletions are followed up. Where the code
      answers twice or tells an unprivileged caller something, that is stated.
    - Other devices: the maps of the soft bus agree with its sockets; a request
      and its reply arrive once; a device tells its caller what its engine found
      in the signed result; no remote execution is left behind.
    - Readiness: executors of the pool and of the driver agree in both load modes
      and there are none without an engine; readiness is announced only when it
      is reached; a retry is pending whenever the engine is not where it should
      be; an unused service is stopped.
    - The dialog: a notice that is not accepted does nothing, another acts only
      on the context that it names; every schedule is cleared once. Callers that
      are gone lose their contexts, and no others do.
    - Listeners and caches: a listener ends with the stored result if callers do
      not overlap; the update of a PIN is announced once; executors are told
      only templates that the engine named for them.

    Examples at the ends of files evaluate the definitions where the code does
    something unexpected.

    ** Bounds and fuel

    The parser and the array reader recur with the length of the buffer as fuel;
    every record consumes at least its header, and [parse_no_ub] and
    [array_read_total] show that the fuel is enough. [ScheduleInner] has the
    limit MAX_SCHEDULE_TIMES of the code (100 events per task). A new context id
    is drawn at most ten times, as in the code. [utf8_count] has the length of
    the text as fuel; each character takes at least one byte.

    ** Not modelled

    Language bindings (src/frameworks/js, ets, cj), IPC proxies and stubs, the
    client library, the adapter of the device manager and the adapter of the
    engine (services/engine, types generated from the driver interface) convert
    and forward; tracing and logging report. The text of JSON is written and
    read by a library: WidgetJson starts from its documents. WidgetContext takes
    the answers of the widget client as they come. Threads and timers are the steps of the models that use them: a posted task
    is in a queue, a timer may fire. Death recipients are modelled where they
    change state (executors, listeners, callers of contexts). The driver, the token kit, the account
    and application managers, the screen lock, the JSON library and the soft bus
    library are not part of the program: their answers are arbitrary. Allocation
    failure is an answer too where the code checks for it. *)

From stdpp Require Export prelude gmap strings list sorting fin_maps.
From coqutil Require Export Byte Word.LittleEndianList.

#[export] Set Default Proof Using "Type".
#[export] Set Warnings "-clear-no-such-hyp".
Open Scope Z_scope.

(** ** Machine integers

    A w-bit integer of the source is a [Z]; a conversion to a w-bit type
    wraps around as the language says. *)

Definition u8_max : Z := 2 ^ 8.
Definition u16_max : Z := 2 ^ 16.
Definition u32_max : Z := 2 ^ 32.
Definition u64_max : Z := 2 ^ 64.

Definition wrapU (w z : Z) : Z := z `mod` 2 ^ w.
Definition wrapS (w z : Z) : Z :=
  let u := wrapU w z in if decide (u < 2 ^ (w - 1)) then u else u - 2 ^ w.

Definition in_u (w z : Z) : Prop := 0 ≤ z < 2 ^ w.
Definition in_s (w z : Z) : Prop := - 2 ^ (w - 1) ≤ z < 2 ^ (w - 1).

#[export] Instance in_u_dec w z : Decision (in_u w z).
Proof. unfold in_u. apply _. Defined.
#[export] Instance in_s_dec w z : Decision (in_s w z).
Proof. unfold in_s. apply _. Defined.

Lemma wrapU_id w z : in_u w z → wrapU w z = z.
Proof. intros H. apply Z.mod_small, H. Qed.

Lemma wrapU_in_u w z : 0 ≤ w → in_u w (wrapU w z).
Proof. intros H. apply Z.mod_pos_bound. lia. Qed.

Lemma wrapS_wrapU w z : 0 < w → in_s w z → wrapS w (wrapU w z) = z.
Proof.
  unfold wrapS, wrapU, in_s. intros Hw Hz.
  assert (2 ^ w = 2 * 2 ^ (w - 1)) by (rewrite <- Z.pow_succ_r by lia; f_equal; lia).
  rewrite Z.mod_mod by lia.
  destruct (decide (0 ≤ z)).
  - rewrite Z.mod_small by lia. case_decide; lia.
  - rewrite <- (Z.mod_unique z (2 ^ w) (-1) (z + 2 ^ w)) by lia. case_decide; lia.
Qed.

(** ** Bytes: [std::vector<uint8_t>] and [std::string] *)

Abbreviation bytes := (list Init.Byte.byte).

#[export] Instance byte_eq_dec : EqDecision Init.Byte.byte := Byte.byte_eq_dec.
#[export] Instance byte_countable : Countable Init.Byte.byte :=
  inj_countable Stdlib.Strings.Byte.to_N Stdlib.Strings.Byte.of_N Stdlib.Strings.Byte.of_to_N.

(** [s] as the bytes of a C++ string literal. *)
Definition str (s : string) : bytes :=
  map byte.of_Z (map (λ a, Z.of_N (Ascii.N_of_ascii a)) (String.list_ascii_of_string s)).

(** A vector of [n] value-initialised bytes. *)
Definition zeros (n : nat) : bytes := replicate n Byte.x00.

(** [memcpy_s(dst.data(), dst.size(), src, count)]: the new contents of [dst],
    or [None] when the call does not return [EOK] (the destination of an empty
    vector is a null pointer, and no more than [dst.size()] bytes fit). *)
Definition memcpy_s (dst src : bytes) (count : nat) : option bytes :=
  if decide (dst = [] ∨ (length dst < count)%nat) then None
  else Some (take count src ++ drop count dst).

(** The little-endian words of [w] bytes in a buffer: [k] reads of
    [leNNtoh] from consecutive positions. *)
Fixpoint le_words (w k : nat) (bs : bytes) : list Z :=
  match k with
  | O => []
  | S k' => le_combine (take w bs) :: le_words w k' (drop w bs)
  end.

(** The memory of an array whose elements went through [htoleNN]. *)
Definition le_memory (w : nat) (src : list Z) : bytes := mjoin (le_split w <$> src).

#[global] Arguments le_split : simpl never.
#[global] Arguments le_combine : simpl never.

(** ** Early returns *)

Declare Scope iam_scope.
Delimit Scope iam_scope with iam.
Open Scope iam_scope.

(** [IF_FALSE_LOGE_AND_RETURN_VAL(c, r)] followed by [k]. *)
Notation "'CHECK' c 'ELSE' r ';;' k" := (if decide c then k else r)
  (at level 10, c at level 99, r at level 99, k at level 200,
   format "'[v' 'CHECK'  c  'ELSE'  r  ';;' '/' k ']'") : iam_scope.

(** [if (c) return r;] followed by [k]. *)
Notation "'WHEN' c 'RETURN' r ';;' k" := (if decide c then r else k)
  (at level 10, c at level 99, r at level 99, k at level 200,
   format "'[v' 'WHEN'  c  'RETURN'  r  ';;' '/' k ']'") : iam_scope.

(** ** Lemmas on buffers *)

Lemma length_zeros n : length (zeros n) = n.
Proof. apply length_replicate. Qed.

Lemma memcpy_s_full (dst src : bytes) :
  dst ≠ [] → length dst = length src → memcpy_s dst src (length src) = Some src.
Proof.
  intros Hne Hlen. unfold memcpy_s. rewrite decide_False by (intros [?|?]; [done|lia]).
  by rewrite take_ge, drop_ge, app_nil_r by lia.
Qed.

Lemma memcpy_s_zeros (n : nat) (src : bytes) :
  (0 < n)%nat → length src = n → memcpy_s (zeros n) src n = Some src.
Proof.
  intros Hn <-. apply memcpy_s_full; [|by rewrite length_zeros].
  intros H%(f_equal length). rewrite length_zeros in H. simpl in H. lia.
Qed.

Lemma le_combine_split_u (n : nat) z :
  in_u (Z.of_nat n * 8) z → le_combine (le_split n z) = z.
Proof. intros H. rewrite le_combine_split. by apply Z.mod_small. Qed.

Lemma le_combine_in_u (bs : bytes) : in_u (Z.of_nat (length bs) * 8) (le_combine bs).
Proof. unfold in_u. rewrite Z.mul_comm. apply le_combine_bound. Qed.

Lemma mjoin_cons {A} (x : list A) (xs : list (list A)) : mjoin (x :: xs) = x ++ mjoin xs.
Proof. done. Qed.

(** ** Texts *)

(** A C string ends at the first zero. *)
Fixpoint c_str (s : bytes) : bytes :=
  match s with
  | [] => []
  | c :: s => if decide (c = Byte.x00) then [] else c :: c_str s
  end.


Definition hex_digit (d : Z) : byte := default Byte.x00 (str "0123456789abcdef" !! Z.to_nat d).

(** The low [n] hexadecimal digits. *)
Fixpoint hex_digits (n : nat) (z : Z) : bytes :=
  match n with O => [] | S n => hex_digits n (z `div` 16) ++ [hex_digit (z `mod` 16)] end.

Lemma hex_digit_inj a b : 0 ≤ a < 16 → 0 ≤ b < 16 → hex_digit a = hex_digit b → a = b.
Proof.
  intros Ha Hb.
  assert (∀ x y, (x < 16)%nat → (y < 16)%nat → hex_digit (Z.of_nat x) = hex_digit (Z.of_nat y) → x = y) as H.
  { intros x y Hx Hy. do 16 (destruct x as [|x]; [do 16 (destruct y as [|y]; [done|]); lia|]). lia. }
  intros E. rewrite <-(Z2Nat.id a), <-(Z2Nat.id b) in E |- * by lia. f_equal. apply H; [lia|lia|done].
Qed.

Lemma hex_digits_inj n a b :
  hex_digits n a = hex_digits n b ↔ a `mod` 16 ^ Z.of_nat n = b `mod` 16 ^ Z.of_nat n.
Proof.
  revert a b. induction n as [|n IH]; intros a b; [by rewrite !Z.mod_1_r|].
  rewrite Nat2Z.inj_succ, Z.pow_succ_r by lia. simpl.
  assert (∀ z, z `mod` (16 * 16 ^ Z.of_nat n) = z `mod` 16 + 16 * ((z `div` 16) `mod` 16 ^ Z.of_nat n)) as Hm.
  { intros z. apply Z.rem_mul_r; lia. }
  rewrite !Hm. pose proof (Z.mod_pos_bound a 16 ltac:(lia)). pose proof (Z.mod_pos_bound b 16 ltac:(lia)).
  split.
  - intros [E1 E2]%app_inj_2; [|done]. apply IH in E1. injection E2 as E2. apply hex_digit_inj in E2; [|done|done]. lia.
  - intros E. assert (a `mod` 16 = b `mod` 16) as E2 by lia. rewrite E2. f_equal. apply IH. lia.
Qed.

Lemma le_memory_cons w z src : le_memory w (z :: src) = le_split w z ++ le_memory w src.
Proof. done. Qed.

Lemma length_le_memory w src : length (le_memory w src) = (length src * w)%nat.
Proof.
  induction src as [|z src IH]; [done|].
  rewrite le_memory_cons, length_app, length_le_split, IH. simpl. lia.
Qed.

Lemma length_le_words w k bs : length (le_words w k bs) = k.
Proof. revert bs. induction k; simpl; auto. Qed.

Lemma le_words_memory w src :
  Forall (in_u (Z.of_nat w * 8)) src → le_words w (length src) (le_memory w src) = src.
Proof.
  induction 1 as [|z src Hz _ IH]; [done|].
  simpl. rewrite le_memory_cons, take_app_length', drop_app_length'
    by (by rewrite length_le_split).
  by rewrite le_combine_split_u, IH.
Qed.

Lemma le_memory_words w k bs :
  length bs = (k * w)%nat → le_memory w (le_words w k bs) = bs.
Proof.
  revert bs. induction k as [|k IH]; intros bs Hbs; simpl in *.
  { by apply nil_length_inv in Hbs as ->. }
  rewrite le_memory_cons, IH by (rewrite length_drop; lia).
  rewrite split_le_combine' by (rewrite length_take; lia). apply take_drop.
Qed.
