(* ===== verification/Defines.v ===== *)
(** * Enumerations and constants of the inner API

    The enumerators of [iam_common_defines.h] and the attribute keys of
    [attributes.h]. A C++ enumeration with a fixed underlying type holds every
    value of that type (the code casts unchecked integers to them), so an
    enumerator is a [Z] and an enumeration is the range of its type. *)

From S2P Require Import Prelude.

(* @file D = src/interfaces/inner_api/iam_common_defines.h *)
(* @file K = src/interfaces/inner_api/attributes.h *)


(** ** [AuthType] *)

(* @src D:50-50 INVALID_AUTH_TYPE *)
Definition INVALID_AUTH_TYPE : Z := (-1).
(* @src D:52-52 ALL *)
Definition ALL : Z := 0.
(* @src D:54-54 PIN *)
Definition PIN : Z := 1.
(* @src D:56-56 FACE *)
Definition FACE : Z := 2.
(* @src D:58-58 FINGERPRINT *)
Definition FINGERPRINT : Z := 4.
(* @src D:60-60 RECOVERY_KEY *)
Definition RECOVERY_KEY : Z := 8.
(* @src D:62-62 PRIVATE_PIN *)
Definition PRIVATE_PIN : Z := 16.
(* @src D:64-64 TUI_PIN *)
Definition TUI_PIN : Z := 32.
(* @src D:66-66 COMPANION_DEVICE *)
Definition COMPANION_DEVICE : Z := 64.
(* @src D:68-68 CUSTOM_AUTH *)
Definition CUSTOM_AUTH : Z := 128.
(* @src D:70-70 ENTERPRISE_ACCOUNT *)
Definition ENTERPRISE_ACCOUNT : Z := 1024.

(** ** [PinSubType] *)

(* @src D:88-88 DEFAULT_PIN_SUB_TYPE *)
Definition DEFAULT_PIN_SUB_TYPE : Z := 0.
(* @src D:90-90 PIN_SIX *)
Definition PIN_SIX : Z := 10000.
(* @src D:92-92 PIN_NUMBER *)
Definition PIN_NUMBER : Z := 10001.
(* @src D:94-94 PIN_MIXED *)
Definition PIN_MIXED : Z := 10002.
(* @src D:96-96 PIN_FOUR *)
Definition PIN_FOUR : Z := 10003.
(* @src D:98-98 PIN_PATTERN *)
Definition PIN_PATTERN : Z := 10004.
(* @src D:100-100 PIN_QUESTION *)
Definition PIN_QUESTION : Z := 10005.
(* @src D:102-102 PIN_MAX *)
Definition PIN_MAX : Z := 10006.

(** ** [ExecutorRole] *)

(* @src D:110-110 SCHEDULER *)
Definition SCHEDULER : Z := 0.
(* @src D:112-112 COLLECTOR *)
Definition COLLECTOR : Z := 1.
(* @src D:114-114 VERIFIER *)
Definition VERIFIER : Z := 2.
(* @src D:116-116 ALL_IN_ONE *)
Definition ALL_IN_ONE : Z := 3.

(** ** [ExecutorSecureLevel] *)

(* @src D:124-124 ESL0 *)
Definition ESL0 : Z := 0.
(* @src D:126-126 ESL1 *)
Definition ESL1 : Z := 1.
(* @src D:128-128 ESL2 *)
Definition ESL2 : Z := 2.
(* @src D:130-130 ESL3 *)
Definition ESL3 : Z := 3.

(** ** [AuthTrustLevel] *)

(* @src D:138-138 ATL1 *)
Definition ATL1 : Z := 10000.
(* @src D:140-140 ATL2 *)
Definition ATL2 : Z := 20000.
(* @src D:142-142 ATL3 *)
Definition ATL3 : Z := 30000.
(* @src D:144-144 ATL4 *)
Definition ATL4 : Z := 40000.

(** ** [ScheduleMode] *)

(* @src D:152-152 ENROLL *)
Definition ENROLL : Z := 0.
(* @src D:154-154 AUTH *)
Definition AUTH : Z := 1.
(* @src D:156-156 IDENTIFY *)
Definition IDENTIFY : Z := 2.
(* @src D:158-158 ABANDON *)
Definition ABANDON : Z := 4.

(** ** [PropertyMode] *)

(* @src D:166-166 PROPERTY_INIT_ALGORITHM *)
Definition PROPERTY_INIT_ALGORITHM : Z := 1.
(* @src D:168-168 PROPERTY_MODE_DEL *)
Definition PROPERTY_MODE_DEL : Z := 2.
(* @src D:170-170 PROPERTY_MODE_GET *)
Definition PROPERTY_MODE_GET : Z := 3.
(* @src D:172-172 PROPERTY_MODE_SET *)
Definition PROPERTY_MODE_SET : Z := 4.
(* @src D:174-174 PROPERTY_MODE_FREEZE *)
Definition PROPERTY_MODE_FREEZE : Z := 5.
(* @src D:176-176 PROPERTY_MODE_UNFREEZE *)
Definition PROPERTY_MODE_UNFREEZE : Z := 6.
(* @src D:178-178 PROPERTY_MODE_SET_CACHED_TEMPLATES *)
Definition PROPERTY_MODE_SET_CACHED_TEMPLATES : Z := 7.
(* @src D:180-180 PROPERTY_MODE_NOTIFY_COLLECTOR_READY *)
Definition PROPERTY_MODE_NOTIFY_COLLECTOR_READY : Z := 8.
(* @src D:182-182 PROPERTY_MODE_RISK_EVENT *)
Definition PROPERTY_MODE_RISK_EVENT : Z := 9.

(** ** [ResultCode] *)

(* @src D:202-202 SUCCESS *)
Definition SUCCESS : Z := 0.
(* @src D:204-204 FAIL *)
Definition FAIL : Z := 1.
(* @src D:206-206 GENERAL_ERROR *)
Definition GENERAL_ERROR : Z := 2.
(* @src D:208-208 CANCELED *)
Definition CANCELED : Z := 3.
(* @src D:210-210 TIMEOUT *)
Definition TIMEOUT : Z := 4.
(* @src D:212-212 TYPE_NOT_SUPPORT *)
Definition TYPE_NOT_SUPPORT : Z := 5.
(* @src D:214-214 TRUST_LEVEL_NOT_SUPPORT *)
Definition TRUST_LEVEL_NOT_SUPPORT : Z := 6.
(* @src D:216-216 BUSY *)
Definition BUSY : Z := 7.
(* @src D:218-218 INVALID_PARAMETERS *)
Definition INVALID_PARAMETERS : Z := 8.
(* @src D:220-220 LOCKED *)
Definition LOCKED : Z := 9.
(* @src D:222-222 NOT_ENROLLED *)
Definition NOT_ENROLLED : Z := 10.
(* @src D:224-224 CANCELED_FROM_WIDGET *)
Definition CANCELED_FROM_WIDGET : Z := 11.
(* @src D:226-226 HARDWARE_NOT_SUPPORTED *)
Definition HARDWARE_NOT_SUPPORTED : Z := 12.
(* @src D:228-228 PIN_EXPIRED *)
Definition PIN_EXPIRED : Z := 13.
(* @src D:230-230 COMPLEXITY_CHECK_FAILED *)
Definition COMPLEXITY_CHECK_FAILED : Z := 14.
(* @src D:232-232 AUTH_TOKEN_CHECK_FAILED *)
Definition AUTH_TOKEN_CHECK_FAILED : Z := 15.
(* @src D:234-234 AUTH_TOKEN_EXPIRED *)
Definition AUTH_TOKEN_EXPIRED : Z := 16.
(* @src D:237-237 REUSE_AUTH_RESULT_FAILED *)
Definition REUSE_AUTH_RESULT_FAILED : Z := 17.
(* @src D:239-239 NO_VALID_CREDENTIAL *)
Definition NO_VALID_CREDENTIAL : Z := 18.
(* @src D:241-241 CAPABILITY_NOT_SUPPORTED *)
Definition CAPABILITY_NOT_SUPPORTED : Z := 19.
(* @src D:243-243 SYSTEM_ERROR_CODE_BEGIN *)
Definition SYSTEM_ERROR_CODE_BEGIN : Z := 1000.
(* @src D:245-245 IPC_ERROR *)
Definition IPC_ERROR : Z := 1001.
(* @src D:247-247 INVALID_CONTEXT_ID *)
Definition INVALID_CONTEXT_ID : Z := 1002.
(* @src D:249-249 READ_PARCEL_ERROR *)
Definition READ_PARCEL_ERROR : Z := 1003.
(* @src D:251-251 WRITE_PARCEL_ERROR *)
Definition WRITE_PARCEL_ERROR : Z := 1004.
(* @src D:253-253 CHECK_PERMISSION_FAILED *)
Definition CHECK_PERMISSION_FAILED : Z := 1005.
(* @src D:255-255 ENGINE_UNAVAILABLE *)
Definition ENGINE_UNAVAILABLE : Z := 1006.
(* @src D:257-257 CHECK_SYSTEM_APP_FAILED *)
Definition CHECK_SYSTEM_APP_FAILED : Z := 1007.
(* @src D:259-259 REMOTE_DEVICE_CONNECTION_FAIL *)
Definition REMOTE_DEVICE_CONNECTION_FAIL : Z := 1008.
(* @src D:261-261 DEVICE_CAPABILITY_NOT_SUPPORT *)
Definition DEVICE_CAPABILITY_NOT_SUPPORT : Z := 1009.
(* @src D:263-263 NOT_TRUSTED_ENV *)
Definition NOT_TRUSTED_ENV : Z := 1010.
(* @src D:265-265 VENDOR_ERROR_CODE_BEGIN *)
Definition VENDOR_ERROR_CODE_BEGIN : Z := 10000.

(** ** [AuthIntent] *)

(* @src D:273-273 DEFAULT *)
Definition DEFAULT : Z := 0.
(* @src D:275-275 UNLOCK *)
Definition UNLOCK : Z := 1.
(* @src D:277-277 SILENT_AUTH *)
Definition SILENT_AUTH : Z := 2.
(* @src D:279-279 QUESTION_AUTH *)
Definition QUESTION_AUTH : Z := 3.
(* @src D:281-281 ABANDONED_PIN_AUTH *)
Definition ABANDONED_PIN_AUTH : Z := 4.
(* @src D:283-283 SUDO_PIN_AUTH *)
Definition SUDO_PIN_AUTH : Z := 5.

(** ** [AuthScene] *)

(* @src D:291-291 AUTH_SCENE_DEFAULT *)
Definition AUTH_SCENE_DEFAULT : Z := 0.
(* @src D:293-293 AUTH_SCENE_WIDGET_AUTH_NO_DISTURB *)
Definition AUTH_SCENE_WIDGET_AUTH_NO_DISTURB : Z := 1.


(** ** [AttributeKey] *)

(* @src K:43-43 ATTR_RESULT_CODE *)
Definition ATTR_RESULT_CODE : Z := 100001.
(* @src K:49-49 ATTR_TEMPLATE_ID *)
Definition ATTR_TEMPLATE_ID : Z := 100006.
(* @src K:51-51 ATTR_TEMPLATE_ID_LIST *)
Definition ATTR_TEMPLATE_ID_LIST : Z := 100007.
(* @src K:67-67 ATTR_SCHEDULE_ID *)
Definition ATTR_SCHEDULE_ID : Z := 100017.
(* @src K:75-75 ATTR_PIN_SUB_TYPE *)
Definition ATTR_PIN_SUB_TYPE : Z := 100021.
(* @src K:77-77 ATTR_SCHEDULE_MODE *)
Definition ATTR_SCHEDULE_MODE : Z := 100022.
(* @src K:79-79 ATTR_PROPERTY_MODE *)
Definition ATTR_PROPERTY_MODE : Z := 100023.
(* @src K:81-81 ATTR_AUTH_TYPE *)
Definition ATTR_AUTH_TYPE : Z := 100024.
(* @src K:107-107 ATTR_END_AFTER_FIRST_FAIL *)
Definition ATTR_END_AFTER_FIRST_FAIL : Z := 100038.
(* @src K:109-109 ATTR_TIP_INFO *)
Definition ATTR_TIP_INFO : Z := 100039.
(* @src K:115-115 ATTR_SRC_ROLE *)
Definition ATTR_SRC_ROLE : Z := 100042.
(* @src K:117-117 ATTR_USER_ID *)
Definition ATTR_USER_ID : Z := 100043.
(* @src K:119-119 ATTR_EXTRA_INFO *)
Definition ATTR_EXTRA_INFO : Z := 100044.
(* @src K:123-123 ATTR_EXECUTOR_SENSOR_HINT *)
Definition ATTR_EXECUTOR_SENSOR_HINT : Z := 100046.
(* @src K:125-125 ATTR_EXECUTOR_MATCHER *)
Definition ATTR_EXECUTOR_MATCHER : Z := 100047.
(* @src K:127-127 ATTR_ACCESS_TOKEN_ID *)
Definition ATTR_ACCESS_TOKEN_ID : Z := 100048.
(* @src K:135-135 ATTR_MSG_SEQ_NUM *)
Definition ATTR_MSG_SEQ_NUM : Z := 100052.
(* @src K:137-137 ATTR_MSG_ACK *)
Definition ATTR_MSG_ACK : Z := 100053.
(* @src K:139-139 ATTR_MSG_SRC_UDID *)
Definition ATTR_MSG_SRC_UDID : Z := 100054.
(* @src K:141-141 ATTR_MSG_SRC_END_POINT *)
Definition ATTR_MSG_SRC_END_POINT : Z := 100055.
(* @src K:143-143 ATTR_MSG_DEST_END_POINT *)
Definition ATTR_MSG_DEST_END_POINT : Z := 100056.
(* @src K:145-145 ATTR_CONNECTION_NAME *)
Definition ATTR_CONNECTION_NAME : Z := 100057.
(* @src K:147-147 ATTR_MSG_VERSION *)
Definition ATTR_MSG_VERSION : Z := 100058.
(* @src K:149-149 ATTR_MSG_TYPE *)
Definition ATTR_MSG_TYPE : Z := 100059.
(* @src K:157-157 ATTR_EXECUTOR_ROLE *)
Definition ATTR_EXECUTOR_ROLE : Z := 100063.
(* @src K:169-169 ATTR_PUBLIC_KEY *)
Definition ATTR_PUBLIC_KEY : Z := 100069.
(* @src K:171-171 ATTR_EXECUTOR_REGISTER_INFO_LIST *)
Definition ATTR_EXECUTOR_REGISTER_INFO_LIST : Z := 100070.
(* @src K:173-173 ATTR_ESL *)
Definition ATTR_ESL : Z := 100071.
(* @src K:175-175 ATTR_CHALLENGE *)
Definition ATTR_CHALLENGE : Z := 100072.
(* @src K:177-177 ATTR_REMOTE_EXECUTOR_INFO *)
Definition ATTR_REMOTE_EXECUTOR_INFO : Z := 100073.
(* @src K:181-181 ATTR_AUTH_TRUST_LEVEL *)
Definition ATTR_AUTH_TRUST_LEVEL : Z := 100075.
(* @src K:183-183 ATTR_DEVICE_UDID *)
Definition ATTR_DEVICE_UDID : Z := 100080.
(* @src K:187-187 ATTR_COLLECTOR_TOKEN_ID *)
Definition ATTR_COLLECTOR_TOKEN_ID : Z := 100082.
(* @src K:189-189 ATTR_PIN_EXPIRED_INFO *)
Definition ATTR_PIN_EXPIRED_INFO : Z := 100083.
(* @src K:195-195 ATTR_AUTH_INTENTION *)
Definition ATTR_AUTH_INTENTION : Z := 100086.
(* @src K:214-214 ATTR_ADDITIONAL_INFO *)
Definition ATTR_ADDITIONAL_INFO : Z := 100094.
(* @src K:216-216 ATTR_AUTH_SCENE *)
Definition ATTR_AUTH_SCENE : Z := 100095.
(* @src K:218-218 ATTR_WIDGET_TITLE *)
Definition ATTR_WIDGET_TITLE : Z := 100096.
(* @src K:41-41 ATTR_ROOT *)
Definition ATTR_ROOT : Z := 100000.
(* @src K:45-45 ATTR_SIGNATURE *)
Definition ATTR_SIGNATURE : Z := 100004.
(* @src K:47-47 ATTR_IDENTIFY_MODE *)
Definition ATTR_IDENTIFY_MODE : Z := 100005.
(* @src K:53-53 ATTR_ERROR_COUNT *)
Definition ATTR_ERROR_COUNT : Z := 100008.
(* @src K:55-55 ATTR_REMAIN_TIMES *)
Definition ATTR_REMAIN_TIMES : Z := 100009.
(* @src K:58-58 ATTR_FREEZING_TIME *)
Definition ATTR_FREEZING_TIME : Z := 100010.
(* @src K:61-61 ATTR_SESSION_ID *)
Definition ATTR_SESSION_ID : Z := 100014.
(* @src K:63-63 ATTR_CALLER_NAME *)
Definition ATTR_CALLER_NAME : Z := 100015.
(* @src K:65-65 ATTR_SCHEDULE_VERSION *)
Definition ATTR_SCHEDULE_VERSION : Z := 100016.
(* @src K:69-69 ATTR_LOCKED_TEMPLATES *)
Definition ATTR_LOCKED_TEMPLATES : Z := 100018.
(* @src K:71-71 ATTR_UNLOCKED_TEMPLATES *)
Definition ATTR_UNLOCKED_TEMPLATES : Z := 100019.
(* @src K:73-73 ATTR_DATA *)
Definition ATTR_DATA : Z := 100020.
(* @src K:83-83 ATTR_CREDENTIAL_ID *)
Definition ATTR_CREDENTIAL_ID : Z := 100025.
(* @src K:85-85 ATTR_CALLER_UID *)
Definition ATTR_CALLER_UID : Z := 100027.
(* @src K:87-87 ATTR_RESULT *)
Definition ATTR_RESULT : Z := 100028.
(* @src K:89-89 ATTR_CAPABILITY_LEVEL *)
Definition ATTR_CAPABILITY_LEVEL : Z := 100029.
(* @src K:91-91 ATTR_ALGORITHM_INFO *)
Definition ATTR_ALGORITHM_INFO : Z := 100030.
(* @src K:93-93 ATTR_TIME_STAMP *)
Definition ATTR_TIME_STAMP : Z := 100031.
(* @src K:95-95 ATTR_ROOT_SECRET *)
Definition ATTR_ROOT_SECRET : Z := 100032.
(* @src K:97-97 ATTR_AUTH_TOKEN *)
Definition ATTR_AUTH_TOKEN : Z := 100033.
(* @src K:99-99 ATTR_SEC_USER_ID *)
Definition ATTR_SEC_USER_ID : Z := 100034.
(* @src K:101-101 ATTR_ENROLL_PROGRESS *)
Definition ATTR_ENROLL_PROGRESS : Z := 100035.
(* @src K:103-103 ATTR_SENSOR_INFO *)
Definition ATTR_SENSOR_INFO : Z := 100036.
(* @src K:105-105 ATTR_KEY_LIST *)
Definition ATTR_KEY_LIST : Z := 100037.
(* @src K:111-111 ATTR_OLD_ROOT_SECRET *)
Definition ATTR_OLD_ROOT_SECRET : Z := 100040.
(* @src K:113-113 ATTR_OLD_CREDENTIAL_ID *)
Definition ATTR_OLD_CREDENTIAL_ID : Z := 100041.
(* @src K:121-121 ATTR_EXECUTOR_INDEX *)
Definition ATTR_EXECUTOR_INDEX : Z := 100045.
(* @src K:129-129 ATTR_TEMPLATE_CHANGE_REASON *)
Definition ATTR_TEMPLATE_CHANGE_REASON : Z := 100049.
(* @src K:131-131 ATTR_CREDENTIAL_DIGEST *)
Definition ATTR_CREDENTIAL_DIGEST : Z := 100050.
(* @src K:133-133 ATTR_CREDENTIAL_COUNT *)
Definition ATTR_CREDENTIAL_COUNT : Z := 100051.
(* @src K:151-151 ATTR_MSG_REPLY_SEQ_NUM *)
Definition ATTR_MSG_REPLY_SEQ_NUM : Z := 100060.
(* @src K:153-153 ATTR_CONTEXT_ID *)
Definition ATTR_CONTEXT_ID : Z := 100061.
(* @src K:155-155 ATTR_COLLECTOR_INFO *)
Definition ATTR_COLLECTOR_INFO : Z := 100062.
(* @src K:159-159 ATTR_SCHEDULE_DATA *)
Definition ATTR_SCHEDULE_DATA : Z := 100064.
(* @src K:161-161 ATTR_SIGNED_AUTH_RESULT *)
Definition ATTR_SIGNED_AUTH_RESULT : Z := 100065.
(* @src K:163-163 ATTR_DEST_ROLE *)
Definition ATTR_DEST_ROLE : Z := 100066.
(* @src K:165-165 ATTR_LOCAL_UDID *)
Definition ATTR_LOCAL_UDID : Z := 100067.
(* @src K:167-167 ATTR_PEER_UDID *)
Definition ATTR_PEER_UDID : Z := 100068.
(* @src K:179-179 ATTR_AUTH_TYPES *)
Definition ATTR_AUTH_TYPES : Z := 100074.
(* @src K:185-185 ATTR_COLLECTOR_NETWORK_ID *)
Definition ATTR_COLLECTOR_NETWORK_ID : Z := 100081.
(* @src K:191-191 ATTR_NEXT_FAIL_LOCKOUT_DURATION *)
Definition ATTR_NEXT_FAIL_LOCKOUT_DURATION : Z := 100084.
(* @src K:193-193 ATTR_CALLER_TYPE *)
Definition ATTR_CALLER_TYPE : Z := 100085.
(* @src K:197-197 ATTR_SUPPORTED_MSG_VERSION *)
Definition ATTR_SUPPORTED_MSG_VERSION : Z := 100087.
(* @src K:199-199 ATTR_RE_ENROLL_FLAG *)
Definition ATTR_RE_ENROLL_FLAG : Z := 100088.
(* @src K:201-201 ATTR_TOKEN_VERSION *)
Definition ATTR_TOKEN_VERSION : Z := 100089.
(* @src K:203-203 ATTR_TOKEN_TYPE *)
Definition ATTR_TOKEN_TYPE : Z := 100090.
(* @src K:205-205 ATTR_TOKEN_TIME_INTERVAL *)
Definition ATTR_TOKEN_TIME_INTERVAL : Z := 100091.
(* @src K:207-207 ATTR_CREDENTIAL_LENGTH *)
Definition ATTR_CREDENTIAL_LENGTH : Z := 100092.
(* @src K:212-212 ATTR_TOKEN_FROM_REMOTE_DEVICE *)
Definition ATTR_TOKEN_FROM_REMOTE_DEVICE : Z := 100093.
(* @src K:220-220 ATTR_CAMERA_STATUS *)
Definition ATTR_CAMERA_STATUS : Z := 100097.

(** ** Other constants *)

(* @src D:38-38 INVALID_USER_ID *)
Definition INVALID_USER_ID : Z := -1.
