(* ===== verification/Interaction.v ===== *)
(** * Programs that call the outside

    The services are straight-line programs over calls to other processes, to
    the driver and to the other components. [prog R A] is such a program: it
    either returns or makes a call [q] and goes on with the answer of type
    [R q]. Nothing is assumed about answers; an environment is any function
    from the calls made so far and the next call to its answer ([run]).

    [wp P m t Φ] says that, whatever the answers are, every call [m] makes
    after the trace [t] satisfies [P] when it is made, and [Φ] holds of the
    result and the final trace. Properties are proved with [wp], one lemma per
    function of the code, and carried over to every run by [wp_run]. *)

From S2P Require Import Prelude.

Inductive prog {Q : Type} (R : Q → Type) (A : Type) :=
  | Ret (a : A)
  | Call (q : Q) (k : R q → prog R A).
Arguments Ret {Q R A} a.
Arguments Call {Q R A} q k.

Section Programs.
Context {Q : Type} {R : Q → Type}.

#[export] Instance prog_ret : MRet (prog R) := λ A a, Ret a.

Fixpoint prog_bind_go {A B} (f : A → prog R B) (m : prog R A) : prog R B :=
  match m with
  | Ret a => f a
  | Call q k => Call q (λ r, prog_bind_go f (k r))
  end.
#[export] Instance prog_bind : MBind (prog R) := λ A B f m, prog_bind_go f m.

(** One call, whose answer is the result. *)
Definition call (q : Q) : prog R (R q) := Call q (λ r, Ret r).

(** A call that was made, and its answer. *)
Definition event : Type := { q : Q & R q }.
Definition asked (e : event) : Q := projT1 e.

(** [for] loops over a vector. *)
Fixpoint for_each {A S} (f : S → A → prog R S) (s : S) (l : list A) : prog R S :=
  match l with
  | [] => mret s
  | x :: l => s ← f s x; for_each f s l
  end.

(** A loop that an early [return] leaves with [inl]. *)
Fixpoint for_until {A S E} (f : S → A → prog R (E + S)) (s : S) (l : list A) : prog R (E + S) :=
  match l with
  | [] => mret (inr s)
  | x :: l =>
    r ← f s x;
    match r with
    | inl e => mret (inl e)
    | inr s => for_until f s l
    end
  end.

(** ** Runs *)

Definition env : Type := list event → ∀ q, R q.

Fixpoint run {A} (o : env) (m : prog R A) (t : list event) : A * list event :=
  match m with
  | Ret a => (a, t)
  | Call q k => run o (k (o t q)) (t ++ [existT q (o t q)])
  end.

(** Runs step by step, for examples with a known environment. *)
Lemma run_ret {A} (o : env) (a : A) t : run o (mret a) t = (a, t).
Proof. done. Qed.

Lemma run_bind {A B} (o : env) (m : prog R A) (f : A → prog R B) t :
  run o (m ≫= f) t = let '(a, t') := run o m t in run o (f a) t'.
Proof. revert t. induction m as [a|q k IH]; intros t; [done|]. apply IH. Qed.

Lemma run_call (o : env) q t : run o (call q) t = (o t q, t ++ [existT q (o t q)]).
Proof. done. Qed.

(** ** Weakest preconditions *)

Fixpoint wp (P : list event → Q → Prop) {A} (m : prog R A) (t : list event)
    (Φ : A → list event → Prop) : Prop :=
  match m with
  | Ret a => Φ a t
  | Call q k => P t q ∧ ∀ r, wp P (k r) (t ++ [existT q r]) Φ
  end.

(** Every call of the trace was made when [P] held. *)
Definition guarded (P : list event → Q → Prop) (t : list event) : Prop :=
  ∀ t1 e t2, t = t1 ++ e :: t2 → P t1 (asked e).

Lemma wp_ret P {A} (a : A) t Φ : Φ a t → wp P (mret a) t Φ.
Proof. done. Qed.

Lemma wp_call P q t Φ : P t q → (∀ r, Φ r (t ++ [existT q r])) → wp P (call q) t Φ.
Proof. done. Qed.

Lemma wp_bind P {A B} (f : A → prog R B) m t Φ :
  wp P m t (λ a t', wp P (f a) t' Φ) → wp P (m ≫= f) t Φ.
Proof.
  revert t. induction m as [a|q k IH]; intros t; [done|]. intros [H1 H2]. split; [done|].
  intros r. apply IH, H2.
Qed.

Lemma wp_mono P P' {A} (m : prog R A) t (Φ Φ' : A → list event → Prop) :
  (∀ t q, P t q → P' t q) → (∀ a t', Φ a t' → Φ' a t') → wp P m t Φ → wp P' m t Φ'.
Proof.
  intros HP HΦ. revert t. induction m as [a|q k IH]; intros t; [apply HΦ|]. intros [H1 H2].
  split; [by apply HP|]. intros r. apply IH, H2.
Qed.

Lemma wp_wand P {A} (m : prog R A) t (Φ Φ' : A → list event → Prop) :
  wp P m t Φ → (∀ a t', Φ a t' → Φ' a t') → wp P m t Φ'.
Proof. intros Hm H. eapply wp_mono; [|exact H|exact Hm]. auto. Qed.

Lemma wp_and P {A} (m : prog R A) t (Φ Φ' : A → list event → Prop) :
  wp P m t Φ → wp P m t Φ' → wp P m t (λ a t', Φ a t' ∧ Φ' a t').
Proof.
  revert t. induction m as [a|q k IH]; intros t; [done|]. intros [H1 H2] [_ H3].
  split; [done|]. intros r. by apply IH.
Qed.

(** A program only appends to its trace. *)
Lemma wp_suffix {A} (m : prog R A) t : wp (λ _ _, True) m t (λ _ t', ∃ u, t' = t ++ u).
Proof.
  revert t. induction m as [a|q k IH]; intros t; simpl; [exists []; by rewrite app_nil_r|].
  split; [done|]. intros r. eapply wp_wand; [apply IH|]. intros _ t' [u ->].
  exists (existT q r :: u). by rewrite <- app_assoc.
Qed.

Lemma wp_for_each P {A S} (f : S → A → prog R S) (Inv : S → list event → Prop) s l t :
  (∀ s x t, x ∈ l → Inv s t → wp P (f s x) t Inv) → Inv s t → wp P (for_each f s l) t Inv.
Proof.
  revert s t. induction l as [|x l IH]; intros s t Hf Hs; simpl; [done|].
  apply wp_bind. eapply wp_wand; [apply Hf; [by left|done]|]. intros s' t' Hs'.
  apply IH; [|done]. intros s2 x2 t2 Hx. apply Hf. by right.
Qed.

Lemma wp_for_until P {A S E} (f : S → A → prog R (E + S)) (Inv : S → list event → Prop)
    (Out : E → list event → Prop) s l t :
  (∀ s x t, x ∈ l → Inv s t → wp P (f s x) t (λ r t', match r with inl e => Out e t' | inr s => Inv s t' end)) →
  Inv s t →
  wp P (for_until f s l) t (λ r t', match r with inl e => Out e t' | inr s => Inv s t' end).
Proof.
  revert s t. induction l as [|x l IH]; intros s t Hf Hs; simpl; [done|].
  apply wp_bind. eapply wp_wand; [apply Hf; [by left|done]|]. intros [e|s'] t' Hs'; [done|].
  apply IH; [|done]. intros s2 x2 t2 Hx. apply Hf. by right.
Qed.

Lemma guarded_snoc P t e : guarded P t → P t (asked e) → guarded P (t ++ [e]).
Proof.
  intros Ht He t1 e1 t2. revert e1. induction t2 as [|e2 t2 _] using rev_ind; intros e1 Heq.
  - apply app_inj_tail in Heq as [<- <-]. done.
  - rewrite app_comm_cons, app_assoc in Heq. apply app_inj_tail in Heq as [-> _]. by eapply Ht.
Qed.

(** What [wp] promises holds in every run. *)
Lemma wp_run P {A} (o : env) (m : prog R A) t Φ :
  wp P m t Φ → guarded P t → guarded P (run o m t).2 ∧ Φ (run o m t).1 (run o m t).2.
Proof.
  revert t. induction m as [a|q k IH]; intros t; [done|]. intros [H1 H2] Ht. simpl.
  apply IH; [apply H2|]. by apply guarded_snoc.
Qed.

Lemma wp_run_nil P {A} (o : env) (m : prog R A) Φ :
  wp P m [] Φ → guarded P (run o m []).2 ∧ Φ (run o m []).1 (run o m []).2.
Proof. intros H. apply wp_run; [done|]. intros t1 e t2 H0. by destruct t1. Qed.

(** The postcondition, whatever the guard. *)
Lemma wp_post {A} (o : env) P (m : prog R A) t Φ : wp P m t Φ → Φ (run o m t).1 (run o m t).2.
Proof. revert t. induction m as [a|q k IH]; intros t; [done|]. intros [_ H]. apply IH, H. Qed.

(** Every answer of a run comes from the environment. *)
Lemma run_answers {A} (o : env) (m : prog R A) t e :
  e ∈ (run o m t).2 → e ∈ t ∨ ∃ u, projT2 e = o u (projT1 e).
Proof.
  revert t. induction m as [a|q k IH]; intros t; simpl; [by left|]. intros [He|He]%IH; [|by right].
  apply elem_of_app in He as [He|He]; [by left|]. apply list_elem_of_singleton in He as ->. right. by exists t.
Qed.

(** ** Programs that make only some calls *)

Fixpoint only (C : Q → bool) {A} (m : prog R A) : Prop :=
  match m with
  | Ret _ => True
  | Call q k => C q = true ∧ ∀ r, only C (k r)
  end.

Lemma only_ret C {A} (a : A) : only C (mret a).
Proof. done. Qed.

Lemma only_call C q : C q = true → only C (call q).
Proof. done. Qed.

Lemma only_bind C {A B} (f : A → prog R B) m : only C m → (∀ a, only C (f a)) → only C (m ≫= f).
Proof. intros Hm Hf. induction m as [a|q k IH]; [apply Hf|]. destruct Hm as [H1 H2]. split; [done|]. intros r. apply IH, H2. Qed.

Lemma only_mono (C C' : Q → bool) {A} (m : prog R A) :
  (∀ q, C q = true → C' q = true) → only C m → only C' m.
Proof. intros HC. induction m as [a|q k IH]; [done|]. intros [H1 H2]. split; [by apply HC|]. intros r. apply IH, H2. Qed.

Lemma only_for_each C {A S} (f : S → A → prog R S) s l : (∀ s x, only C (f s x)) → only C (for_each f s l).
Proof. intros Hf. revert s. induction l as [|x l IH]; intros s; [done|]. simpl. apply only_bind; auto. Qed.

Lemma only_for_until C {A S E} (f : S → A → prog R (E + S)) s l :
  (∀ s x, only C (f s x)) → only C (for_until f s l).
Proof. intros Hf. revert s. induction l as [|x l IH]; intros s; [done|]. simpl. apply only_bind; [done|]. intros [e|s']; [done|apply IH]. Qed.

(** [t'] goes on from [t] with such calls. *)
Definition extends (C : Q → bool) (t t' : list event) : Prop :=
  ∃ u, t' = t ++ u ∧ Forall (λ e, C (asked e) = true) u.

Lemma extends_refl C t : extends C t t.
Proof. exists []. by rewrite app_nil_r. Qed.

Lemma extends_trans C t1 t2 t3 : extends C t1 t2 → extends C t2 t3 → extends C t1 t3.
Proof.
  intros (u1 & -> & H1) (u2 & -> & H2). exists (u1 ++ u2). split; [by rewrite app_assoc|by apply Forall_app].
Qed.

Lemma extends_snoc C t t' q (r : R q) : C q = true → extends C t t' → extends C t (t' ++ [existT q r]).
Proof. intros Hq Ht. eapply extends_trans; [done|]. exists [existT q r]. split; [done|]. by constructor. Qed.

(** The trace of such a program consists of such calls. *)
Lemma wp_only P C {A} (m : prog R A) t (Φ : A → list event → Prop) :
  only C m → (∀ t q, C q = true → P t q) → (∀ a t', extends C t t' → Φ a t') → wp P m t Φ.
Proof.
  intros Hm HP. revert t. induction m as [a|q k IH]; intros t HΦ; simpl; [apply HΦ, extends_refl|].
  destruct Hm as [H1 H2]. split; [by apply HP|]. intros r. apply IH; [apply H2|]. intros a t' Ht'.
  apply HΦ. eapply extends_trans; [|exact Ht']. by apply extends_snoc, extends_refl.
Qed.

(** A guard that a trace satisfies for good lets everything pass. *)
Lemma wp_granted (P : list event → Q → Prop) {A} (m : prog R A) t :
  (∀ u q, P (t ++ u) q) → wp P m t (λ _ _, True).
Proof.
  revert t. induction m as [a|q k IH]; intros t HP; simpl; [done|]. split.
  - rewrite <- (app_nil_r t). apply HP.
  - intros r. apply IH. intros u q'. rewrite <- app_assoc. apply HP.
Qed.

(** Something that stays true and allows every call. *)
Lemma wp_stable (P : list event → Q → Prop) (I : list event → Prop) {A} (m : prog R A) t Φ :
  (∀ t e, I t → I (t ++ [e])) → (∀ t q, I t → P t q) → I t → (∀ a t', I t' → Φ a t') → wp P m t Φ.
Proof.
  intros HI HP Ht HΦ. revert t Ht. induction m as [a|q k IH]; intros t Ht; simpl; [auto|].
  split; [auto|]. intros r. apply IH; auto.
Qed.
End Programs.

Arguments event {Q} R.
Arguments env {Q} R.

(** ** Counting

    [tallies f g m P]: from any trace, [m] makes [r] calls that [f] counts and
    [s] calls that [g] counts, as [P] says of its result. *)

Section Tally.
Context {Q : Type} {R : Q → Type} (f g : event R → bool).

Definition tally (h : event R → bool) (t : list (event R)) : nat := length (filter (λ e, h e = true) t).

Lemma tally_app h t u : tally h (t ++ u) = (tally h t + tally h u)%nat.
Proof. unfold tally. by rewrite filter_app, length_app. Qed.

Lemma tally_one h e : tally h [e] = if h e then 1%nat else 0%nat.
Proof. unfold tally. rewrite filter_cons, filter_nil. by destruct (h e). Qed.

Lemma tally_extends h (C : Q → bool) t t' :
  (∀ e, C (asked e) = true → h e = false) → extends C t t' → tally h t' = tally h t.
Proof.
  intros HC (u & -> & Hu). rewrite tally_app. assert (tally h u = 0%nat) as ->; [|lia]. unfold tally.
  induction Hu as [|e u He _ IH]; [done|]. rewrite filter_cons. by rewrite (HC e He).
Qed.

Definition tallies {A} (m : prog R A) (P : A → nat → nat → Prop) : Prop :=
  ∀ t, wp (λ _ _, True) m t (λ a t', ∃ r s,
    tally f t' = (tally f t + r)%nat ∧ tally g t' = (tally g t + s)%nat ∧ P a r s).

Lemma tallies_only C {A} (m : prog R A) (P : A → nat → nat → Prop) :
  (∀ e, C (asked e) = true → f e = false ∧ g e = false) → only C m → (∀ a, P a 0 0)%nat → tallies m P.
Proof.
  intros HC Hm HP t. eapply wp_only; [exact Hm|done|]. intros a t' E. exists 0%nat, 0%nat. rewrite !Nat.add_0_r.
  split; [|split; [|done]]; eapply tally_extends; try exact E; intros e He; by apply HC.
Qed.

Lemma tallies_ret {A} (a : A) (P : A → nat → nat → Prop) : P a 0%nat 0%nat → tallies (mret a) P.
Proof. intros H t. apply wp_ret. exists 0%nat, 0%nat. rewrite !Nat.add_0_r. auto. Qed.

Lemma tallies_call q (P : R q → nat → nat → Prop) :
  (∀ r, P r (if f (existT q r) then 1 else 0) (if g (existT q r) then 1 else 0))%nat → tallies (call q) P.
Proof.
  intros H t. apply (@wp_call Q R _ q); [done|]. intros r. eexists _, _. split; [|split; [|apply H]];
    rewrite tally_app; f_equal; unfold tally; rewrite filter_cons; simpl; by repeat case_decide; repeat case_match.
Qed.

Lemma tallies_mono {A} (m : prog R A) (P P' : A → nat → nat → Prop) :
  tallies m P → (∀ a r s, P a r s → P' a r s) → tallies m P'.
Proof.
  intros Hm H t. eapply wp_wand; [apply Hm|]. intros a t' (r & s & ? & ? & ?). exists r, s. auto.
Qed.

Lemma tallies_bind {A B} (m : prog R A) (k : A → prog R B) (P : A → nat → nat → Prop) P' :
  tallies m P → (∀ a r s, P a r s → tallies (k a) (λ b r' s', P' b (r + r')%nat (s + s')%nat)) → tallies (m ≫= k) P'.
Proof.
  intros Hm Hk t. apply wp_bind. eapply wp_wand; [apply Hm|]. intros a t1 (r & s & Hr & Hs & Ha).
  eapply wp_wand; [apply (Hk a r s Ha)|]. intros b t2 (r' & s' & Hr' & Hs' & Hb).
  exists (r + r')%nat, (s + s')%nat. repeat split; [lia|lia|done].
Qed.

Lemma tallies_only_bind C {A B} (m : prog R A) (k : A → prog R B) P :
  (∀ e, C (asked e) = true → f e = false ∧ g e = false) → only C m → (∀ a, tallies (k a) P) → tallies (m ≫= k) P.
Proof.
  intros HC Hm Hk. eapply (tallies_bind _ _ (λ _ r s, r = 0 ∧ s = 0)%nat); [by eapply tallies_only|].
  intros a r s [-> ->]. apply Hk.
Qed.

(** What is counted over a run. *)
Lemma tallies_run {A} (o : env R) (m : prog R A) (P : A → nat → nat → Prop) t :
  tallies m P → let '(a, t') := run o m t in
  ∃ r s, tally f t' = (tally f t + r)%nat ∧ tally g t' = (tally g t + s)%nat ∧ P a r s.
Proof.
  intros Hm. pose proof (Hm t) as H. destruct (run o m t) as [a t'] eqn:E.
  pose proof (wp_post o _ m t _ H) as K. by rewrite E in K.
Qed.
End Tally.

(** ** What a program adds to its trace

    [leaves m P]: from any trace, [m] appends a trace [u] with [P a u] for its
    result [a]. *)

Section Leaves.
Context {Q : Type} {R : Q → Type}.

Definition leaves {A} (m : prog R A) (P : A → list (event R) → Prop) : Prop :=
  ∀ t, wp (λ _ _, True) m t (λ a t', ∃ u, t' = t ++ u ∧ P a u).

Lemma leaves_ret {A} (a : A) (P : A → list (event R) → Prop) : P a [] → leaves (mret a) P.
Proof. intros H t. apply wp_ret. exists []. by rewrite app_nil_r. Qed.

Lemma leaves_call q (P : R q → list (event R) → Prop) : (∀ r, P r [existT q r]) → leaves (call q) P.
Proof. intros H t. apply (@wp_call Q R _ q); [done|]. intros r. eauto. Qed.

Lemma leaves_mono {A} (m : prog R A) (P P' : A → list (event R) → Prop) :
  leaves m P → (∀ a u, P a u → P' a u) → leaves m P'.
Proof. intros Hm H t. eapply wp_wand; [apply Hm|]. intros a t' (u & -> & ?). eauto. Qed.

Lemma leaves_bind {A B} (m : prog R A) (k : A → prog R B) (P : A → list (event R) → Prop) P' :
  leaves m P → (∀ a u, P a u → leaves (k a) (λ b v, P' b (u ++ v))) → leaves (m ≫= k) P'.
Proof.
  intros Hm Hk t. apply wp_bind. eapply wp_wand; [apply Hm|]. intros a t1 (u & -> & Ha).
  eapply wp_wand; [by apply Hk|]. intros b t2 (v & -> & Hb). exists (u ++ v). by rewrite <- app_assoc.
Qed.

Lemma leaves_only C {A} (m : prog R A) (P : A → list (event R) → Prop) :
  only C m → (∀ a u, Forall (λ e, C (asked e) = true) u → P a u) → leaves m P.
Proof. intros Hm HP t. eapply wp_only; [exact Hm|done|]. intros a t' (u & -> & Hu). eauto. Qed.

Lemma leaves_run {A} (o : env R) (m : prog R A) P t a t' :
  leaves m P → run o m t = (a, t') → ∃ u, t' = t ++ u ∧ P a u.
Proof. intros Hm E. pose proof (wp_post o _ m t _ (Hm t)) as K. by rewrite E in K. Qed.

Lemma leaves_any {A} (m : prog R A) : leaves m (λ _ _, True).
Proof. intros t. eapply wp_wand; [apply wp_suffix|]. intros a t' [u ->]. eauto. Qed.

(** A program that makes only calls that satisfy [C]. *)
Lemma leaves_guarded (C : Q → Prop) {A} (m : prog R A) (P : A → Prop) :
  (∀ t, wp (λ _ q, C q) m t (λ a _, P a)) → leaves m (λ a u, P a ∧ Forall (λ e, C (asked e)) u).
Proof.
  intros Hm. assert (∀ t, wp (λ _ q, C q) m t (λ a _, P a) → wp (λ _ _, True) m t
    (λ a t', ∃ u, t' = t ++ u ∧ P a ∧ Forall (λ e, C (asked e)) u)) as K; [|by intros t; apply K].
  clear Hm. induction m as [a|q k IH]; intros t; simpl; [exists []; by rewrite app_nil_r|].
  intros [Hq Hk]. split; [done|]. intros r. eapply wp_wand; [by apply IH|].
  intros a t' (u & -> & Ha & Hu). exists (existT q r :: u). rewrite <- app_assoc. by split_and!; [..|constructor].
Qed.
End Leaves.

(** ** What a program gives

    [gives m P]: whatever the answers are, the result of [m] satisfies [P]. *)

Section Gives.
Context {Q : Type} {R : Q → Type}.

Fixpoint gives {A} (m : prog R A) (P : A → Prop) : Prop :=
  match m with
  | Ret a => P a
  | Call q k => ∀ r, gives (k r) P
  end.

Lemma gives_ret {A} (a : A) (P : A → Prop) : P a → gives (mret a) P.
Proof. done. Qed.

Lemma gives_call q (P : R q → Prop) : (∀ r, P r) → gives (call q) P.
Proof. done. Qed.

Lemma gives_mono {A} (m : prog R A) (P P' : A → Prop) : gives m P → (∀ a, P a → P' a) → gives m P'.
Proof. intros Hm HP. induction m as [a|q k IH]; simpl in *; auto. Qed.

Lemma gives_bind {A B} (m : prog R A) (k : A → prog R B) (P : A → Prop) P' :
  gives m P → (∀ a, P a → gives (k a) P') → gives (m ≫= k) P'.
Proof. intros Hm Hk. induction m as [a|q k' IH]; simpl in *; [by apply Hk|]. intros r. by apply IH. Qed.

Lemma gives_and {A} (m : prog R A) (P P' : A → Prop) : gives m P → gives m P' → gives m (λ a, P a ∧ P' a).
Proof. induction m as [a|q k IH]; simpl; auto. Qed.

Lemma gives_any {A} (m : prog R A) : gives m (λ _, True).
Proof. induction m; simpl; auto. Qed.

(** The result does not matter. *)
Lemma gives_skip {A B} (m : prog R A) (k : A → prog R B) P : (∀ a, gives (k a) P) → gives (m ≫= k) P.
Proof. intros Hk. eapply gives_bind; [apply gives_any|]. intros a _. apply Hk. Qed.

Lemma gives_for_each {A S} (f : S → A → prog R S) (P : S → Prop) l s :
  P s → (∀ s x, x ∈ l → P s → gives (f s x) P) → gives (for_each f s l) P.
Proof.
  revert s. induction l as [|x l IH]; intros s Hs Hf; simpl; [done|].
  eapply gives_bind; [apply Hf; [by left|done]|]. intros s' Hs'. apply IH; [done|]. intros s0 y Hy. apply Hf. by right.
Qed.

Lemma gives_run {A} (o : env R) (m : prog R A) P t : gives m P → P (run o m t).1.
Proof. revert t. induction m as [a|q k IH]; intros t H; simpl in *; auto. Qed.

(** What is called and what is given, together. *)
Lemma leaves_only_gives (C : Q → bool) {A} (m : prog R A) (P : A → Prop) :
  only C m → gives m P → leaves m (λ a u, P a ∧ Forall (λ e, C (asked e) = true) u).
Proof.
  induction m as [a|q k IH]; simpl.
  - intros _ Ha. apply leaves_ret. by split; [|constructor].
  - intros [Hq Hk] Hg t. simpl. split; [done|]. intros r. eapply wp_wand; [by apply IH|].
    intros a t' (u & -> & Ha & Hu). exists (existT q r :: u). rewrite <- app_assoc. by split_and!; [..|constructor].
Qed.

Lemma leaves_gives {A} (m : prog R A) (P : A → Prop) : gives m P → leaves m (λ a _, P a).
Proof.
  induction m as [a|q k IH]; simpl; [intros H; by apply leaves_ret|].
  intros Hg t. simpl. split; [done|]. intros r. eapply wp_wand; [by apply IH|].
  intros a t' (u & -> & Ha). exists (existT q r :: u). by rewrite <- app_assoc.
Qed.

(** What is shown from one trace holds of what is added to it. *)
Lemma leaves_after {A} (m : prog R A) t (Φ : A → list (event R) → Prop) :
  wp (λ _ _, True) m t Φ → leaves m (λ a u, Φ a (t ++ u)).
Proof.
  assert (∀ v T, wp (λ _ _, True) m (t ++ v) Φ →
    wp (λ _ _, True) m (T ++ v) (λ a t', ∃ u, t' = T ++ u ∧ Φ a (t ++ u))) as K.
  { induction m as [a|q k IH]; intros v T; simpl; [by exists v|]. intros [_ H]. split; [done|]. intros r.
    rewrite <- app_assoc. apply IH. rewrite app_assoc. apply H. }
  intros H T. specialize (K [] T). rewrite !app_nil_r in K. by apply K.
Qed.

Lemma leaves_and {A} (m : prog R A) (P P' : A → list (event R) → Prop) :
  leaves m P → leaves m P' → leaves m (λ a u, P a u ∧ P' a u).
Proof.
  intros H1 H2 t. eapply wp_wand; [apply wp_and; [apply H1|apply H2]|].
  intros a t' [(u & -> & Hu) (v & E & Hv)]. apply app_inv_head in E as ->. eauto.
Qed.
End Gives.

#[global] Arguments wp : simpl never.
#[global] Arguments only : simpl never.
#[global] Arguments call : simpl never.
#[global] Opaque wp only call.

(** Facts about single functions: what they call, what they promise. *)
Create HintDb service discriminated.

(** One step through a program: a call, a branch or a function that the hints
    know. *)
Ltac branch_on x :=
  lazymatch x with
  | decide _ => destruct x
  | context [match ?y with _ => _ end] => branch_on y
  | _ => destruct x eqn:?
  end.
Ltac step :=
  cbv zeta;
  lazymatch goal with
  | |- wp _ ?m _ _ =>
    lazymatch m with
    | mret _ => apply wp_ret
    | Ret _ => apply wp_ret
    | _ ≫= _ => apply wp_bind
    | @call ?Q ?R ?q => apply (@wp_call Q R _ q); [|intros ?]
    | match ?x with _ => _ end => branch_on x
    end
  | |- only _ ?m =>
    lazymatch m with
    | mret _ => apply only_ret
    | _ ≫= _ => apply only_bind; [|intros ?]
    | @call ?Q ?R ?q => apply (@only_call Q R _ q)
    | for_each _ _ _ => apply only_for_each; intros ? ?
    | for_until _ _ _ => apply only_for_until; intros ? ?
    | match ?x with _ => _ end => branch_on x
    end
  end.

(** Shows that a program makes only some calls. *)
Ltac only_steps := repeat first [solve [eauto 6 with service] | step]; try done.
#[global] Arguments gives : simpl never.
