(* ===== verification/AttributesImpl.v ===== *)
(** * [Attributes::Impl]: the type-length-value store

    Models [class Attributes::Impl] of
    frameworks/native/common/attributes/src/attributes.cpp: the encoders and
    decoders of each value type, the setters and getters over [map_], the
    parser of a raw buffer and [Serialize]. Every key-value message of the
    framework (schedule parameters, executor results, remote messages) is such
    a store.

    [std::map<AttributeKey, std::vector<uint8_t>>] is a [gmap Z bytes]; its
    iteration in ascending key order is [map_entries]. A setter returns the
    new map and its [bool]; a getter returns [None] where the code returns
    [false] and leaves the out parameter alone. Log lines are dropped. *)

From S2P Require Import Prelude Defines.

(* @file A = src/frameworks/native/common/attributes/src/attributes.cpp *)

(** ** Data *)

Abbreviation Impl := (gmap Z bytes).

(* @src A:const MAX_ATTR_LENGTH *)
Definition MAX_ATTR_LENGTH : Z := 81920.
(* @src A:const MAX_ATTR_COUNT *)
Definition MAX_ATTR_COUNT : Z := 512.

Definition key_le : relation (Z * bytes) := λ x y, x.1 ≤ y.1.

#[export] Instance key_le_dec x y : Decision (key_le x y).
Proof. unfold key_le. apply _. Defined.

(** The entries in the iteration order of [std::map]. *)
Definition map_entries (m : Impl) : list (Z * bytes) := merge_sort key_le (map_to_list m).

(** ** Encoders *)

(* @src A Attributes::Impl::EncodeBoolValue *)
Definition EncodeBoolValue (src : bool) : option bytes :=
  Some [if src then Byte.x01 else Byte.x00].

(* @src A Attributes::Impl::EncodeUint64Value *)
Definition EncodeUint64Value (src : Z) : option bytes :=
  memcpy_s (zeros 8) (le_split 8 src) 8.

(* @src A Attributes::Impl::EncodeUint32Value *)
Definition EncodeUint32Value (src : Z) : option bytes :=
  memcpy_s (zeros 4) (le_split 4 src) 4.

(* @src A Attributes::Impl::EncodeUint16Value *)
Definition EncodeUint16Value (src : Z) : option bytes :=
  memcpy_s (zeros 2) (le_split 2 src) 2.

(* @src A Attributes::Impl::EncodeUint8Value *)
Definition EncodeUint8Value (src : Z) : option bytes := Some [byte.of_Z src].

(* @src A Attributes::Impl::EncodeInt32Value *)
Definition EncodeInt32Value (src : Z) : option bytes :=
  memcpy_s (zeros 4) (le_split 4 (wrapU 32 src)) 4.

(* @src A Attributes::Impl::EncodeInt64Value *)
Definition EncodeInt64Value (src : Z) : option bytes :=
  memcpy_s (zeros 8) (le_split 8 (wrapU 64 src)) 8.

(* @src A Attributes::Impl::EncodeStringValue *)
Definition EncodeStringValue (src : bytes) : option bytes :=
  WHEN MAX_ATTR_LENGTH < Z.of_nat (length src) RETURN None ;;
  Some (src ++ [Byte.x00]).

(** The body the array encoders share: [w] is the element size, [cast] the
    conversion to the unsigned type of that width. *)
Definition encode_array (w : nat) (cast : Z → Z) (src : list Z) : option bytes :=
  let outSize := (length src * w)%nat in
  WHEN MAX_ATTR_LENGTH < Z.of_nat outSize RETURN None ;;
  let out := zeros outSize in
  let srcLe := le_memory w (cast <$> src) in
  match src with
  | [] => Some out
  | _ => memcpy_s out srcLe (length src * w)
  end.

(* @src A Attributes::Impl::EncodeUint64ArrayValue *)
Definition EncodeUint64ArrayValue (src : list Z) : option bytes := encode_array 8 id src.

(* @src A Attributes::Impl::EncodeUint32ArrayValue *)
Definition EncodeUint32ArrayValue (src : list Z) : option bytes := encode_array 4 id src.

(* @src A Attributes::Impl::EncodeUint16ArrayValue *)
Definition EncodeUint16ArrayValue (src : list Z) : option bytes := encode_array 2 id src.

(* @src A Attributes::Impl::EncodeInt32ArrayValue *)
Definition EncodeInt32ArrayValue (src : list Z) : option bytes := encode_array 4 (wrapU 32) src.

(* @src A Attributes::Impl::EncodeUint8ArrayValue *)
Definition EncodeUint8ArrayValue (src : bytes) : option bytes :=
  WHEN MAX_ATTR_LENGTH < Z.of_nat (length src) RETURN None ;;
  Some src.

(** ** Decoders *)

(** The body the integer decoders share: a size check, then the copy into a
    [w]-byte integer and [leNNtoh]. *)
Definition decode_uint (w : nat) (src : bytes) : option Z :=
  CHECK length src = w ELSE None ;;
  dstLe ← memcpy_s (zeros w) src (length src);
  Some (le_combine dstLe).

(* @src A Attributes::Impl::DecodeBoolValue *)
Definition DecodeBoolValue (src : bytes) : option bool :=
  match src with
  | [b] => Some (bool_decide (b = Byte.x01))
  | _ => None
  end.

(* @src A Attributes::Impl::DecodeUint64Value *)
Definition DecodeUint64Value (src : bytes) : option Z := decode_uint 8 src.

(* @src A Attributes::Impl::DecodeUint32Value *)
Definition DecodeUint32Value (src : bytes) : option Z := decode_uint 4 src.

(* @src A Attributes::Impl::DecodeUint16Value *)
Definition DecodeUint16Value (src : bytes) : option Z := decode_uint 2 src.

(* @src A Attributes::Impl::DecodeUint8Value *)
Definition DecodeUint8Value (src : bytes) : option Z :=
  match src with
  | [b] => Some (byte.unsigned b)
  | _ => None
  end.

(* @src A Attributes::Impl::DecodeInt32Value *)
Definition DecodeInt32Value (src : bytes) : option Z := wrapS 32 <$> decode_uint 4 src.

(* @src A Attributes::Impl::DecodeInt64Value *)
Definition DecodeInt64Value (src : bytes) : option Z := wrapS 64 <$> decode_uint 8 src.

(* @src A Attributes::Impl::DecodeStringValue *)
Definition DecodeStringValue (src : bytes) : option bytes :=
  match last src with
  | None => None
  | Some b =>
      WHEN b ≠ Byte.x00 RETURN None ;;
      Some (take (length src - 1) src)
  end.

(** The body the array decoders share; [m] is the divisor of the size check. *)
Definition decode_array (w m : nat) (src : bytes) : option (list Z) :=
  WHEN (length src `mod` m ≠ 0)%nat RETURN None ;;
  let count := (length src `div` w)%nat in
  out ← (if decide (count = 0%nat) then Some []
         else memcpy_s (zeros (count * w)) src (length src));
  Some (le_words w count out).

(* @src A Attributes::Impl::DecodeUint64ArrayValue *)
Definition DecodeUint64ArrayValue (src : bytes) : option (list Z) := decode_array 8 8 src.

(* @src A Attributes::Impl::DecodeUint32ArrayValue *)
Definition DecodeUint32ArrayValue (src : bytes) : option (list Z) := decode_array 4 4 src.

(** The divisor is written [sizeof(uint32_t) / sizeof(uint16_t)] in the code. *)
(* @src A Attributes::Impl::DecodeUint16ArrayValue *)
Definition DecodeUint16ArrayValue (src : bytes) : option (list Z) := decode_array 2 (4 / 2) src.

(* @src A Attributes::Impl::DecodeInt32ArrayValue *)
Definition DecodeInt32ArrayValue (src : bytes) : option (list Z) :=
  map (wrapS 32) <$> decode_array 4 4 src.

(* @src A Attributes::Impl::DecodeUint8ArrayValue *)
Definition DecodeUint8ArrayValue (src : bytes) : option bytes := Some src.

(** ** The parser of a raw buffer

    [curr] is the part of the buffer from the cursor to [end]. Reading past
    [end] is undefined behaviour in the code and an outcome of its own here. *)

Inductive parse_step :=
  | StepOk (curr : bytes) (out : Impl)
  | StepFail
  | StepOutOfBounds.

Inductive parse_outcome :=
  | Parsed (out : Impl)
  | ParseFailed
  | ParseOutOfBounds
  | ParseOutOfFuel.

Definition read_n (n : nat) (curr : bytes) : option bytes :=
  CHECK (n ≤ length curr)%nat ELSE None ;;
  Some (take n curr).

(* @src A Attributes::Impl::CheckAttributeLength *)
Definition CheckAttributeLength (curr : bytes) (len : Z) : bool :=
  WHEN len `mod` 1 ≠ 0 ∨ MAX_ATTR_LENGTH < len RETURN false ;;
  WHEN Z.of_nat (length curr) < len RETURN false ;;
  true.

(* @src A Attributes::Impl::ParseAttributes *)
Definition ParseAttributes (curr : bytes) (out : Impl) : parse_step :=
  match read_n 4 curr with
  | None => StepOutOfBounds
  | Some raw_type =>
    let type := le_combine raw_type in
    let curr := drop 4 curr in
    match read_n 4 curr with
    | None => StepOutOfBounds
    | Some raw_length =>
      let len := le_combine raw_length in
      let curr := drop 4 curr in
      CHECK CheckAttributeLength curr len = true ELSE StepFail ;;
      match read_n (Z.to_nat len) curr with
      | None => StepOutOfBounds
      | Some value =>
        let inserted := bool_decide (out !! type = None) in
        let out := <[type := value]> out in
        WHEN inserted = false RETURN StepFail ;;
        WHEN MAX_ATTR_COUNT < Z.of_nat (size out) RETURN StepFail ;;
        StepOk (drop (Z.to_nat len) curr) out
      end
    end
  end.

(** The [while (curr < end)] loop of the constructor. *)
(* @src A:126-137 Attributes::Impl::Impl *)
Fixpoint parse_loop (fuel : nat) (curr : bytes) (out : Impl) : parse_outcome :=
  match curr with
  | [] => Parsed out
  | _ =>
    match fuel with
    | O => ParseOutOfFuel
    | S fuel =>
      WHEN (length curr < 4 + 4)%nat RETURN ParseFailed ;;
      match ParseAttributes curr out with
      | StepOk curr out => parse_loop fuel curr out
      | StepFail => ParseFailed
      | StepOutOfBounds => ParseOutOfBounds
      end
    end
  end.

(** Each round consumes at least the header, so the size of the buffer is
    enough fuel ([parse_no_ub] below). *)
Definition parse (raw : bytes) : parse_outcome := parse_loop (length raw) raw ∅.

(** The constructor: [map_] stays empty when the buffer is empty or a step
    fails, and takes the parsed entries otherwise. *)
(* @src A:115-140 Attributes::Impl::Impl *)
Definition Impl_of_raw (raw : bytes) : Impl :=
  match raw with
  | [] => ∅
  | _ => match parse raw with Parsed out => out | _ => ∅ end
  end.

(** ** Serialization *)

(* @src A:663-679 Attributes::Impl::Serialize *)
Fixpoint serialize_loop (entries : list (Z * bytes)) (buffer : bytes) : bytes :=
  match entries with
  | [] => buffer
  | (key, value) :: entries =>
    match EncodeUint32Value key with
    | None => []
    | Some type =>
      match EncodeUint32Value (wrapU 32 (Z.of_nat (length value))) with
      | None => []
      | Some len => serialize_loop entries (buffer ++ type ++ len ++ value)
      end
    end
  end.

(* @src A Attributes::Impl::Serialize *)
Definition Serialize (m : Impl) : bytes := serialize_loop (map_entries m) [].

(* @src A Attributes::Impl::GetKeys *)
Definition GetKeys (m : Impl) : list Z := (map_entries m).*1.

(* @src A Attributes::Impl::HasAttribute *)
Definition HasAttribute (m : Impl) (key : Z) : bool := bool_decide (is_Some (m !! key)).

(** ** Setters *)

(** The tail the setters share: the result of the encoder, the limit on the
    number of attributes, then [insert_or_assign]. *)
Definition set_encoded (m : Impl) (key : Z) (encoded : option bytes) : Impl * bool :=
  match encoded with
  | None => (m, false)
  | Some dest =>
      WHEN MAX_ATTR_COUNT < Z.of_nat (size m) RETURN (m, false) ;;
      (<[key := dest]> m, true)
  end.

(* @src A Attributes::Impl::SetBoolValue *)
Definition SetBoolValue (m : Impl) (key : Z) (value : bool) : Impl * bool :=
  set_encoded m key (EncodeBoolValue value).

(* @src A Attributes::Impl::SetUint64Value *)
Definition SetUint64Value (m : Impl) (key : Z) (value : Z) : Impl * bool :=
  set_encoded m key (EncodeUint64Value value).

(* @src A Attributes::Impl::SetUint32Value *)
Definition SetUint32Value (m : Impl) (key : Z) (value : Z) : Impl * bool :=
  set_encoded m key (EncodeUint32Value value).

(* @src A Attributes::Impl::SetUint16Value *)
Definition SetUint16Value (m : Impl) (key : Z) (value : Z) : Impl * bool :=
  set_encoded m key (EncodeUint16Value value).

(* @src A Attributes::Impl::SetUint8Value *)
Definition SetUint8Value (m : Impl) (key : Z) (value : Z) : Impl * bool :=
  set_encoded m key (EncodeUint8Value value).

(* @src A Attributes::Impl::SetInt32Value *)
Definition SetInt32Value (m : Impl) (key : Z) (value : Z) : Impl * bool :=
  set_encoded m key (EncodeInt32Value value).

(* @src A Attributes::Impl::SetInt64Value *)
Definition SetInt64Value (m : Impl) (key : Z) (value : Z) : Impl * bool :=
  match EncodeInt64Value value with
  | None => (m, false)
  | Some dest =>
      WHEN MAX_ATTR_COUNT < Z.of_nat (size m) RETURN (m, false) ;;
      match m !! key with
      | Some _ => (m, false)                (* try_emplace: nothing is inserted *)
      | None => (<[key := dest]> m, true)
      end
  end.

(* @src A Attributes::Impl::SetStringValue *)
Definition SetStringValue (m : Impl) (key : Z) (value : bytes) : Impl * bool :=
  set_encoded m key (EncodeStringValue value).

(* @src A Attributes::Impl::SetUint64ArrayValue *)
Definition SetUint64ArrayValue (m : Impl) (key : Z) (value : list Z) : Impl * bool :=
  set_encoded m key (EncodeUint64ArrayValue value).

(* @src A Attributes::Impl::SetUint32ArrayValue *)
Definition SetUint32ArrayValue (m : Impl) (key : Z) (value : list Z) : Impl * bool :=
  set_encoded m key (EncodeUint32ArrayValue value).

(* @src A Attributes::Impl::SetInt32ArrayValue *)
Definition SetInt32ArrayValue (m : Impl) (key : Z) (value : list Z) : Impl * bool :=
  set_encoded m key (EncodeInt32ArrayValue value).

(* @src A Attributes::Impl::SetUint16ArrayValue *)
Definition SetUint16ArrayValue (m : Impl) (key : Z) (value : list Z) : Impl * bool :=
  set_encoded m key (EncodeUint16ArrayValue value).

(* @src A Attributes::Impl::SetUint8ArrayValue *)
Definition SetUint8ArrayValue (m : Impl) (key : Z) (value : bytes) : Impl * bool :=
  set_encoded m key (EncodeUint8ArrayValue value).

(* @src A Attributes::Impl::SetAttributesValue *)
Definition SetAttributesValue (m : Impl) (key : Z) (value : Impl) : Impl * bool :=
  let dest := Serialize value in
  WHEN dest = [] RETURN (m, false) ;;
  WHEN MAX_ATTR_COUNT < Z.of_nat (size m) RETURN (m, false) ;;
  (<[key := dest]> m, true).

(** ** Getters *)

(* @src A Attributes::Impl::GetBoolValue *)
Definition GetBoolValue (m : Impl) (key : Z) : option bool :=
  value ← m !! key; DecodeBoolValue value.

(* @src A Attributes::Impl::GetUint64Value *)
Definition GetUint64Value (m : Impl) (key : Z) : option Z :=
  value ← m !! key; DecodeUint64Value value.

(* @src A Attributes::Impl::GetUint32Value *)
Definition GetUint32Value (m : Impl) (key : Z) : option Z :=
  value ← m !! key; DecodeUint32Value value.

(* @src A Attributes::Impl::GetUint16Value *)
Definition GetUint16Value (m : Impl) (key : Z) : option Z :=
  value ← m !! key; DecodeUint16Value value.

(* @src A Attributes::Impl::GetUint8Value *)
Definition GetUint8Value (m : Impl) (key : Z) : option Z :=
  value ← m !! key; DecodeUint8Value value.

(* @src A Attributes::Impl::GetInt32Value *)
Definition GetInt32Value (m : Impl) (key : Z) : option Z :=
  value ← m !! key; DecodeInt32Value value.

(* @src A Attributes::Impl::GetInt64Value *)
Definition GetInt64Value (m : Impl) (key : Z) : option Z :=
  value ← m !! key; DecodeInt64Value value.

(* @src A Attributes::Impl::GetStringValue *)
Definition GetStringValue (m : Impl) (key : Z) : option bytes :=
  value ← m !! key; DecodeStringValue value.

(* @src A Attributes::Impl::GetUint64ArrayValue *)
Definition GetUint64ArrayValue (m : Impl) (key : Z) : option (list Z) :=
  value ← m !! key; DecodeUint64ArrayValue value.

(* @src A Attributes::Impl::GetUint32ArrayValue *)
Definition GetUint32ArrayValue (m : Impl) (key : Z) : option (list Z) :=
  value ← m !! key; DecodeUint32ArrayValue value.

(* @src A Attributes::Impl::GetInt32ArrayValue *)
Definition GetInt32ArrayValue (m : Impl) (key : Z) : option (list Z) :=
  value ← m !! key; DecodeInt32ArrayValue value.

(* @src A Attributes::Impl::GetUint16ArrayValue *)
Definition GetUint16ArrayValue (m : Impl) (key : Z) : option (list Z) :=
  value ← m !! key; DecodeUint16ArrayValue value.

(* @src A Attributes::Impl::GetUint8ArrayValue *)
Definition GetUint8ArrayValue (m : Impl) (key : Z) : option bytes :=
  value ← m !! key; DecodeUint8ArrayValue value.

(* @src A Attributes::Impl::GetAttributesValue *)
Definition GetAttributesValue (m : Impl) (key : Z) : option Impl :=
  value ← m !! key; Some (Impl_of_raw value).

(** * Properties *)

(** ** Codecs: what an encoder and its decoder promise to the store *)

(** [enc] succeeds on the [valid] values and [dec] gives the value back. *)
Class AttrCodec {T : Type} (enc : T → option bytes) (dec : bytes → option T)
    (valid : T → Prop) : Prop :=
  codec_ok : ∀ v, valid v → ∃ bs, enc v = Some bs ∧ dec bs = Some v.

Lemma encode_le (n : nat) (z : Z) :
  (0 < n)%nat → memcpy_s (zeros n) (le_split n z) n = Some (le_split n z).
Proof. intros Hn. apply memcpy_s_zeros; [done|apply length_le_split]. Qed.

Lemma decode_uint_le (n : nat) (bs : bytes) :
  (0 < n)%nat → length bs = n → decode_uint n bs = Some (le_combine bs).
Proof.
  intros Hn Hlen. unfold decode_uint. rewrite decide_True by done.
  by rewrite Hlen, (memcpy_s_zeros n bs) by done.
Qed.

Lemma EncodeUint32Value_eq z : EncodeUint32Value z = Some (le_split 4 z).
Proof. apply encode_le. lia. Qed.

Lemma encode_array_eq w cast src :
  (0 < w)%nat → Z.of_nat (length src * w) ≤ MAX_ATTR_LENGTH →
  encode_array w cast src = Some (le_memory w (cast <$> src)).
Proof.
  intros Hw Hlen. unfold encode_array. rewrite decide_False by lia.
  destruct src as [|z src]; [done|].
  apply memcpy_s_zeros; [simpl; lia|]. by rewrite length_le_memory, length_fmap.
Qed.

Lemma decode_array_eq w m bs (k : nat) :
  (0 < w)%nat → length bs = (k * w)%nat → (length bs `mod` m = 0)%nat →
  decode_array w m bs = Some (le_words w k bs).
Proof.
  intros Hw Hlen Hm. unfold decode_array.
  rewrite decide_False by lia. rewrite Hlen, Nat.div_mul by lia.
  case_decide as Hk; [by subst|].
  rewrite <- Hlen at 2. rewrite Hlen, memcpy_s_zeros by lia. done.
Qed.

Lemma array_codec (w m : nat) (cast uncast : Z → Z) (elt : Z → Prop) :
  (0 < w)%nat → (∀ n : nat, (n * w) `mod` m = 0)%nat →
  (∀ z, elt z → in_u (Z.of_nat w * 8) (cast z) ∧ uncast (cast z) = z) →
  AttrCodec (encode_array w cast) (λ bs, map uncast <$> decode_array w m bs)
    (λ l, Forall elt l ∧ Z.of_nat (length l * w) ≤ MAX_ATTR_LENGTH).
Proof.
  intros Hw Hm Hcast l [Helt Hlen].
  exists (le_memory w (cast <$> l)). split; [by apply encode_array_eq|].
  assert (length (le_memory w (cast <$> l)) = (length l * w)%nat) as Hl
    by (by rewrite length_le_memory, length_fmap).
  rewrite (decode_array_eq w m _ (length l)) by (rewrite ?Hl; done). simpl. f_equal.
  rewrite <- (length_fmap cast l), le_words_memory.
  - rewrite <- list_fmap_compose. rewrite <- (list_fmap_id l) at 2.
    apply list_fmap_ext. intros i x Hx. simpl.
    apply Hcast. by eapply Forall_lookup_1 in Helt.
  - apply Forall_fmap. eapply Forall_impl; [done|]. intros z Hz. apply Hcast, Hz.
Qed.

#[export] Instance bool_codec : AttrCodec EncodeBoolValue DecodeBoolValue (λ _, True).
Proof. intros [] _; eexists; split; reflexivity. Qed.

Lemma uint_codec (n : nat) :
  (0 < n)%nat →
  AttrCodec (λ z, memcpy_s (zeros n) (le_split n z) n) (decode_uint n) (in_u (Z.of_nat n * 8)).
Proof.
  intros Hn v Hv. exists (le_split n v). split; [by apply encode_le|].
  rewrite decode_uint_le by (by rewrite ?length_le_split). f_equal. by apply le_combine_split_u.
Qed.

Lemma int_codec (n : nat) :
  (0 < n)%nat →
  AttrCodec (λ z, memcpy_s (zeros n) (le_split n (wrapU (Z.of_nat n * 8) z)) n)
    (λ bs, wrapS (Z.of_nat n * 8) <$> decode_uint n bs) (in_s (Z.of_nat n * 8)).
Proof.
  intros Hn v Hv.
  destruct (uint_codec n Hn (wrapU (Z.of_nat n * 8) v)) as (bs & He & Hd).
  { apply wrapU_in_u. lia. }
  exists bs. rewrite He, Hd. split; [done|]. simpl. f_equal. apply wrapS_wrapU; [lia|done].
Qed.

#[export] Instance u64_codec : AttrCodec EncodeUint64Value DecodeUint64Value (in_u 64).
Proof. apply (uint_codec 8). lia. Qed.
#[export] Instance u32_codec : AttrCodec EncodeUint32Value DecodeUint32Value (in_u 32).
Proof. apply (uint_codec 4). lia. Qed.
#[export] Instance u16_codec : AttrCodec EncodeUint16Value DecodeUint16Value (in_u 16).
Proof. apply (uint_codec 2). lia. Qed.
#[export] Instance i32_codec : AttrCodec EncodeInt32Value DecodeInt32Value (in_s 32).
Proof. apply (int_codec 4). lia. Qed.
#[export] Instance i64_codec : AttrCodec EncodeInt64Value DecodeInt64Value (in_s 64).
Proof. apply (int_codec 8). lia. Qed.

#[export] Instance u8_codec : AttrCodec EncodeUint8Value DecodeUint8Value (in_u 8).
Proof.
  intros v Hv. eexists. split; [done|]. simpl. f_equal.
  rewrite byte.unsigned_of_Z. by apply Z.mod_small.
Qed.

#[export] Instance string_codec :
  AttrCodec EncodeStringValue DecodeStringValue (λ s, Z.of_nat (length s) ≤ MAX_ATTR_LENGTH).
Proof.
  intros s Hs. exists (s ++ [Byte.x00]). unfold EncodeStringValue, DecodeStringValue.
  rewrite decide_False by lia. split; [done|].
  rewrite last_snoc, decide_False by auto. rewrite length_app. simpl.
  f_equal. rewrite Nat.add_sub. by apply take_app_length.
Qed.

#[export] Instance bytes_codec :
  AttrCodec EncodeUint8ArrayValue DecodeUint8ArrayValue
    (λ s, Z.of_nat (length s) ≤ MAX_ATTR_LENGTH).
Proof.
  intros s Hs. exists s. unfold EncodeUint8ArrayValue. by rewrite decide_False by lia.
Qed.

Definition array_valid (w : nat) (elt : Z → Prop) (l : list Z) : Prop :=
  Forall elt l ∧ Z.of_nat (length l * w) ≤ MAX_ATTR_LENGTH.

Lemma uint_array_codec (w m : nat) :
  (0 < w)%nat → (∀ n : nat, (n * w) `mod` m = 0)%nat →
  AttrCodec (encode_array w id) (decode_array w m) (array_valid w (in_u (Z.of_nat w * 8))).
Proof.
  intros Hw Hm l Hl. destruct (array_codec w m id id _ Hw Hm (λ z H, conj H eq_refl) l Hl)
    as (bs & He & Hd).
  exists bs. split; [done|]. destruct (decode_array w m bs) as [x|]; [|done].
  simpl in Hd. by rewrite map_id in Hd.
Qed.

#[export] Instance u64s_codec :
  AttrCodec EncodeUint64ArrayValue DecodeUint64ArrayValue (array_valid 8 (in_u 64)).
Proof. apply (uint_array_codec 8 8); [lia|]. intros n. apply Nat.Div0.mod_mul. Qed.
#[export] Instance u32s_codec :
  AttrCodec EncodeUint32ArrayValue DecodeUint32ArrayValue (array_valid 4 (in_u 32)).
Proof. apply (uint_array_codec 4 4); [lia|]. intros n. apply Nat.Div0.mod_mul. Qed.
#[export] Instance u16s_codec :
  AttrCodec EncodeUint16ArrayValue DecodeUint16ArrayValue (array_valid 2 (in_u 16)).
Proof. apply (uint_array_codec 2 2); [lia|]. intros n. apply Nat.Div0.mod_mul. Qed.
#[export] Instance i32s_codec :
  AttrCodec EncodeInt32ArrayValue DecodeInt32ArrayValue (array_valid 4 (in_s 32)).
Proof.
  apply (array_codec 4 4); [lia| |]. { intros n. apply Nat.Div0.mod_mul. }
  intros z Hz. split; [apply wrapU_in_u; lia|]. apply wrapS_wrapU; [lia|done].
Qed.

(** ** Setters and getters *)

(** The result of a setter on a store with room: the value is there, every
    other key is as before, and a getter for the same type reads it back. *)
Definition stored {T} (get : Impl → Z → option T) (m : Impl) (key : Z) (v : T)
    (r : Impl * bool) : Prop :=
  r.2 = true ∧ get r.1 key = Some v ∧ (∀ k, k ≠ key → r.1 !! k = m !! k).

Lemma set_encoded_stored {T} (enc : T → option bytes) dec valid m key v :
  AttrCodec enc dec valid → Z.of_nat (size m) ≤ MAX_ATTR_COUNT → valid v →
  stored (λ m k, value ← m !! k; dec value) m key v (set_encoded m key (enc v)).
Proof.
  intros Hc Hsz Hv. destruct (codec_ok v Hv) as (bs & He & Hd).
  unfold stored, set_encoded. rewrite He, decide_False by lia. split_and!; [done| |].
  - simpl. rewrite lookup_insert_eq. done.
  - intros k Hk. simpl. by rewrite lookup_insert_ne.
Qed.

(** ** The wire format *)

(** One record of the wire format: key, length, value. *)
Definition entry_bytes (kv : Z * bytes) : bytes :=
  le_split 4 kv.1 ++ le_split 4 (Z.of_nat (length kv.2)) ++ kv.2.

Definition wire (es : list (Z * bytes)) : bytes := mjoin (entry_bytes <$> es).

(** What the four-byte fields of a record can carry. *)
Definition entry_ok (kv : Z * bytes) : Prop :=
  in_u 32 kv.1 ∧ in_u 32 (Z.of_nat (length kv.2)).

Definition short (kv : Z * bytes) : Prop := Z.of_nat (length kv.2) ≤ MAX_ATTR_LENGTH.

#[export] Instance short_dec kv : Decision (short kv).
Proof. unfold short. apply _. Defined.

Lemma wire_cons kv es : wire (kv :: es) = entry_bytes kv ++ wire es.
Proof. done. Qed.

Lemma wire_app es1 es2 : wire (es1 ++ es2) = wire es1 ++ wire es2.
Proof. unfold wire. by rewrite fmap_app, join_app. Qed.

Lemma length_entry_bytes kv : length (entry_bytes kv) = (8 + length kv.2)%nat.
Proof. unfold entry_bytes. rewrite !length_app, !length_le_split. lia. Qed.

Lemma serialize_loop_wire es buffer : serialize_loop es buffer = buffer ++ wire es.
Proof.
  revert buffer. induction es as [|[k v] es IH]; intros buffer; cbn [serialize_loop].
  { by rewrite app_nil_r. }
  rewrite !EncodeUint32Value_eq, IH, wire_cons. unfold entry_bytes, wrapU. cbn [fst snd].
  change (2 ^ 32) with (2 ^ (Z.of_nat 4 * 8)). rewrite <- (le_split_mod (Z.of_nat (length v)) 4). by rewrite <- !app_assoc.
Qed.

Lemma Serialize_wire m : Serialize m = wire (map_entries m).
Proof. apply serialize_loop_wire. Qed.

#[export] Instance key_le_trans : Transitive key_le.
Proof. intros x y z. unfold key_le. lia. Qed.

#[export] Instance key_le_total : Total key_le.
Proof. intros x y. unfold key_le. lia. Qed.

Lemma map_entries_perm m : map_entries m ≡ₚ map_to_list m.
Proof. apply merge_sort_Permutation. Qed.

Lemma list_to_map_entries m : list_to_map (map_entries m) = m.
Proof. symmetry. apply list_to_map_flip. symmetry. apply map_entries_perm. Qed.

Lemma NoDup_map_entries m : NoDup (map_entries m).*1.
Proof. rewrite map_entries_perm. apply NoDup_fst_map_to_list. Qed.

Lemma length_map_entries m : length (map_entries m) = size m.
Proof. by rewrite map_entries_perm, length_map_to_list. Qed.

Lemma Forall_map_entries (P : Z * bytes → Prop) m :
  Forall P (map_entries m) ↔ map_Forall (λ k v, P (k, v)) m.
Proof.
  rewrite map_entries_perm, map_Forall_to_list.
  apply Forall_iff. by intros [].
Qed.

(** ** Parsing a record *)

Lemma read_n_app (a b : bytes) n : length a = n → read_n n (a ++ b) = Some a.
Proof.
  intros <-. unfold read_n. rewrite decide_True by (rewrite length_app; lia).
  by rewrite take_app_length.
Qed.

Lemma read_n_Some n curr bs : read_n n curr = Some bs → curr = bs ++ drop n curr ∧ length bs = n.
Proof.
  unfold read_n. case_decide as H; [|done]. intros [= <-].
  rewrite take_drop, length_take. split; [done|lia].
Qed.

Lemma CheckAttributeLength_spec curr len :
  CheckAttributeLength curr len = true ↔
  len ≤ MAX_ATTR_LENGTH ∧ len ≤ Z.of_nat (length curr).
Proof.
  unfold CheckAttributeLength. rewrite Z.mod_1_r. repeat case_decide; split; intros; try done; lia.
Qed.

(** The step of the parser on a well-formed record. *)
Lemma ParseAttributes_entry kv rest out :
  entry_ok kv →
  ParseAttributes (entry_bytes kv ++ rest) out =
  if decide (short kv ∧ out !! kv.1 = None ∧ Z.of_nat (S (size out)) ≤ MAX_ATTR_COUNT)
  then StepOk rest (<[kv.1 := kv.2]> out) else StepFail.
Proof.
  destruct kv as [k v]. unfold entry_ok, short, entry_bytes. cbn [fst snd]. intros [Hk Hlen].
  unfold ParseAttributes. rewrite <- !app_assoc.
  rewrite (read_n_app (le_split 4 k)), (drop_app_length' (le_split 4 k)) by done.
  rewrite (read_n_app (le_split 4 _)), (drop_app_length' (le_split 4 _)) by done.
  rewrite !le_combine_split_u by done.
  destruct (decide (CheckAttributeLength (v ++ rest) (Z.of_nat (length v)) = true)) as [Hc|Hc];
    rewrite CheckAttributeLength_spec, length_app in Hc; [|rewrite decide_False by lia; done].
  rewrite Nat2Z.id, read_n_app, drop_app_length by done.
  destruct (decide (out !! k = None)) as [Hn|Hn].
  - rewrite bool_decide_eq_true_2 by done.
    rewrite decide_False by done. rewrite map_size_insert_None by done.
    destruct (decide (MAX_ATTR_COUNT < Z.of_nat (S (size out)))) as [Hs|Hs].
    + by rewrite decide_False by (intros (_ & _ & ?); lia).
    + by rewrite decide_True by (split_and!; [lia|done|lia]).
  - rewrite bool_decide_eq_false_2 by done.
    rewrite decide_True by done. rewrite decide_False by naive_solver. done.
Qed.

(** Every successful step consumed one well-formed record. *)
Lemma ParseAttributes_Ok curr out curr' out' :
  ParseAttributes curr out = StepOk curr' out' →
  ∃ kv, curr = entry_bytes kv ++ curr' ∧ entry_ok kv.
Proof.
  unfold ParseAttributes.
  destruct (read_n 4 curr) as [t|] eqn:Ht; [|done].
  destruct (read_n 4 (drop 4 curr)) as [l|] eqn:Hl; [|done].
  apply read_n_Some in Ht as [Ht Ht4], Hl as [Hl Hl4].
  case_decide as Hc; [|done].
  destruct (read_n (Z.to_nat (le_combine l)) _) as [v|] eqn:Hv; [|done].
  apply read_n_Some in Hv as [Hv Hvl].
  repeat (case_decide; try done). intros [= <- <-].
  pose proof (le_combine_in_u t) as Bt. pose proof (le_combine_in_u l) as Bl.
  rewrite Ht4 in Bt. rewrite Hl4 in Bl.
  assert (Z.of_nat (length v) = le_combine l) as Ev by (unfold in_u in Bl; lia).
  exists (le_combine t, v). split; [|split; [exact Bt|simpl; rewrite Ev; exact Bl]].
  unfold entry_bytes. cbn [fst snd].
  rewrite Ev, (split_le_combine' t), (split_le_combine' l) by done.
  rewrite <- !app_assoc, <- Hv, <- Hl. done.
Qed.

(** With a whole header left, a step never reads past the end. *)
Lemma ParseAttributes_in_bounds curr out :
  (8 ≤ length curr)%nat → ParseAttributes curr out ≠ StepOutOfBounds.
Proof.
  intros Hlen. unfold ParseAttributes, read_n at 1.
  rewrite decide_True by lia. unfold read_n at 1.
  rewrite decide_True by (rewrite length_drop; lia).
  case_decide as Hc; [|done]. apply CheckAttributeLength_spec in Hc as [_ Hc].
  unfold read_n. rewrite decide_True by lia. repeat case_decide; done.
Qed.

(** ** Parsing a buffer *)

(** What the parser accepts: distinct keys that are not in the store yet,
    short values and at most [MAX_ATTR_COUNT] attributes. *)
Definition acceptable (es : list (Z * bytes)) (out : Impl) : Prop :=
  NoDup es.*1 ∧ Forall (λ k, out !! k = None) es.*1 ∧ Forall short es ∧
  Z.of_nat (size out + length es) ≤ Z.max MAX_ATTR_COUNT (Z.of_nat (size out)).

#[export] Instance acceptable_dec es out : Decision (acceptable es out).
Proof. unfold acceptable. apply _. Defined.

Lemma acceptable_cons kv es out :
  acceptable (kv :: es) out ↔
  (short kv ∧ out !! kv.1 = None ∧ Z.of_nat (S (size out)) ≤ MAX_ATTR_COUNT) ∧
  acceptable es (<[kv.1 := kv.2]> out).
Proof.
  unfold acceptable. rewrite fmap_cons, NoDup_cons, !Forall_cons. cbn [length].
  assert (∀ l, (Forall (λ k, <[kv.1 := kv.2]> out !! k = None) l) ↔
    ((kv.1 ∉ l) ∧ Forall (λ k, out !! k = None) l)) as Hf.
  { intros l. induction l as [|k l IH]; [rewrite !Forall_nil; set_solver|].
    rewrite !Forall_cons, IH, not_elem_of_cons.
    destruct (decide (k = kv.1)) as [->|Hk].
    - rewrite lookup_insert_eq. naive_solver.
    - rewrite lookup_insert_ne by done. naive_solver. }
  rewrite Hf. unfold MAX_ATTR_COUNT. split.
  - intros ((Hni & Hnd) & (Hn & Hns) & (Hs & Hss) & Hc).
    rewrite map_size_insert_None by done. split_and!; try done; lia.
  - intros ((Hs & Hn & Hc1) & Hnd & (Hni & Hns) & Hss & Hc).
    rewrite map_size_insert_None in Hc by done. split_and!; try done; lia.
Qed.

(** The parser on the wire form of a list of records: all or nothing. *)
Lemma parse_loop_wire es fuel out :
  Forall entry_ok es → (length (wire es) ≤ fuel)%nat →
  parse_loop fuel (wire es) out =
  if decide (acceptable es out) then Parsed (list_to_map es ∪ out) else ParseFailed.
Proof.
  intros Hes. revert fuel out. induction Hes as [|kv es Hkv Hes IH]; intros fuel out Hfuel.
  { rewrite decide_True by (split_and!; try constructor; simpl; lia).
    destruct fuel; simpl; by rewrite map_empty_union. }
  rewrite wire_cons in *. rewrite length_app, length_entry_bytes in Hfuel.
  destruct fuel as [|fuel]; [lia|].
  assert (parse_loop (S fuel) (entry_bytes kv ++ wire es) out =
    match ParseAttributes (entry_bytes kv ++ wire es) out with
    | StepOk curr out => parse_loop fuel curr out
    | StepFail => ParseFailed | StepOutOfBounds => ParseOutOfBounds end) as ->.
  { assert (8 ≤ length (entry_bytes kv ++ wire es))%nat as Hl
      by (rewrite length_app, length_entry_bytes; lia).
    destruct (entry_bytes kv ++ wire es); [simpl in Hl; lia|].
    cbn [parse_loop]. by rewrite decide_False by lia. }
  rewrite (ParseAttributes_entry kv) by done.
  destruct (decide (short kv ∧ _)) as [H1|H1].
  - rewrite IH by lia. destruct (decide (acceptable es _)) as [H2|H2].
    + rewrite decide_True by (by apply acceptable_cons). f_equal.
      destruct kv as [k v]. rewrite list_to_map_cons. cbn [fst snd] in *.
      rewrite <- insert_union_l. symmetry. apply insert_union_r, not_elem_of_list_to_map_1.
      destruct H2 as (_ & H2 & _). intros Hin. rewrite Forall_forall in H2.
      specialize (H2 _ Hin). by rewrite lookup_insert_eq in H2.
    + rewrite decide_False by (rewrite acceptable_cons; naive_solver). done.
  - rewrite decide_False by (rewrite acceptable_cons; naive_solver). done.
Qed.

(** Conversely, whatever the parser accepts is the wire form of records. *)
Lemma parse_loop_Parsed fuel curr out m :
  parse_loop fuel curr out = Parsed m → ∃ es, curr = wire es ∧ Forall entry_ok es.
Proof.
  revert curr out. induction fuel as [|fuel IH]; intros [|b curr] out; simpl; try done.
  1,2: intros _; by exists [].
  case_decide; [done|].
  destruct (ParseAttributes _ out) as [curr' out'| |] eqn:Hp; try done.
  apply ParseAttributes_Ok in Hp as (kv & -> & Hkv). intros Hm.
  destruct (IH _ _ Hm) as (es & -> & Hes).
  exists (kv :: es). split; [done|by constructor].
Qed.

Lemma parse_loop_total fuel curr out :
  (length curr ≤ fuel)%nat →
  (∃ m, parse_loop fuel curr out = Parsed m) ∨ parse_loop fuel curr out = ParseFailed.
Proof.
  revert curr out. induction fuel as [|fuel IH]; intros [|b curr] out Hfuel; simpl in Hfuel.
  1,3: left; by eexists.
  { lia. }
  cbn [parse_loop]. case_decide as Hlen; [by right|].
  destruct (ParseAttributes (b :: curr) out) as [curr' out'| |] eqn:Hp.
  - apply IH. apply ParseAttributes_Ok in Hp as (kv & Heq & _).
    apply (f_equal length) in Heq. rewrite length_app, length_entry_bytes in Heq. simpl in Heq. lia.
  - by right.
  - by apply ParseAttributes_in_bounds in Hp; [|simpl in *; lia].
Qed.

Lemma Impl_of_raw_parse raw : Impl_of_raw raw = match parse raw with Parsed m => m | _ => ∅ end.
Proof. by destruct raw. Qed.

Lemma parse_wire es :
  Forall entry_ok es →
  parse (wire es) = if decide (acceptable es ∅) then Parsed (list_to_map es) else ParseFailed.
Proof.
  intros Hes. unfold parse. rewrite parse_loop_wire by done. by rewrite map_union_empty.
Qed.

(** A store whose serialization the parser accepts. *)
Definition transportable (m : Impl) : Prop :=
  Z.of_nat (size m) ≤ MAX_ATTR_COUNT ∧
  map_Forall (λ _ v, Z.of_nat (length v) ≤ MAX_ATTR_LENGTH) m.

#[export] Instance transportable_dec m : Decision (transportable m).
Proof. unfold transportable. apply _. Defined.

(** Keys and lengths that fit the four-byte fields of the wire format. *)
Definition wire_ok (m : Impl) : Prop := map_Forall (λ k v, entry_ok (k, v)) m.

Lemma acceptable_entries m : acceptable (map_entries m) ∅ ↔ transportable m.
Proof.
  unfold acceptable, transportable. rewrite length_map_entries, map_size_empty.
  rewrite Forall_map_entries. unfold MAX_ATTR_COUNT. split.
  - intros (_ & _ & Hs & Hc). split; [lia|exact Hs].
  - intros [Hc Hs]. split_and!; [apply NoDup_map_entries| |exact Hs|lia].
    apply Forall_true. intros k. apply lookup_empty.
Qed.

Lemma transportable_wire_ok m :
  transportable m → map_Forall (λ k _, in_u 32 k) m → wire_ok m.
Proof.
  intros [_ Hs] Hk k v Hkv. split; [by apply (Hk k v)|].
  specialize (Hs k v Hkv). unfold MAX_ATTR_LENGTH, in_u in *. simpl in *. lia.
Qed.

(** What the wire format carries comes back. *)
Lemma Impl_of_Serialize m : wire_ok m → transportable m → Impl_of_raw (Serialize m) = m.
Proof.
  intros Hw Ht. rewrite Impl_of_raw_parse, Serialize_wire, parse_wire by (by apply Forall_map_entries).
  rewrite decide_True by (by apply acceptable_entries). apply list_to_map_entries.
Qed.

(** ** The properties *)

(** Reading back what a setter stored. On a store with at most
    [MAX_ATTR_COUNT] attributes, each setter with a value in the range of its
    type (and, for strings and arrays, of at most [MAX_ATTR_LENGTH] bytes)
    succeeds, the getter of that type returns the value, and the other keys
    keep theirs. [SetInt64Value] does so for a key that is not set yet. *)
Theorem set_get_roundtrip (m : Impl) (key : Z) :
  Z.of_nat (size m) ≤ MAX_ATTR_COUNT →
  (∀ v, stored GetBoolValue m key v (SetBoolValue m key v)) ∧
  (∀ v, in_u 64 v → stored GetUint64Value m key v (SetUint64Value m key v)) ∧
  (∀ v, in_u 32 v → stored GetUint32Value m key v (SetUint32Value m key v)) ∧
  (∀ v, in_u 16 v → stored GetUint16Value m key v (SetUint16Value m key v)) ∧
  (∀ v, in_u 8 v → stored GetUint8Value m key v (SetUint8Value m key v)) ∧
  (∀ v, in_s 32 v → stored GetInt32Value m key v (SetInt32Value m key v)) ∧
  (∀ v, in_s 64 v → m !! key = None →
    stored GetInt64Value m key v (SetInt64Value m key v)) ∧
  (∀ v, Z.of_nat (length v) ≤ MAX_ATTR_LENGTH →
    stored GetStringValue m key v (SetStringValue m key v) ∧
    stored GetUint8ArrayValue m key v (SetUint8ArrayValue m key v)) ∧
  (∀ v, array_valid 8 (in_u 64) v → stored GetUint64ArrayValue m key v (SetUint64ArrayValue m key v)) ∧
  (∀ v, array_valid 4 (in_u 32) v → stored GetUint32ArrayValue m key v (SetUint32ArrayValue m key v)) ∧
  (∀ v, array_valid 2 (in_u 16) v → stored GetUint16ArrayValue m key v (SetUint16ArrayValue m key v)) ∧
  (∀ v, array_valid 4 (in_s 32) v → stored GetInt32ArrayValue m key v (SetInt32ArrayValue m key v)).
Proof.
  intros Hsz. split_and!; intros v; try intros Hv;
    lazymatch goal with |- _ ∧ _ => split | _ => idtac end;
    try (by apply (set_encoded_stored _ _ _ m key v _ Hsz)).
  intros Hn. destruct (set_encoded_stored _ _ _ m key v i64_codec Hsz Hv) as (H1 & H2 & H3).
  unfold stored, SetInt64Value. unfold set_encoded in H1, H2, H3.
  destruct (EncodeInt64Value v); [|done].
  case_decide; [lia|]. by rewrite Hn.
Qed.

Lemma set_get_roundtrip_witness :
  (SetInt32Value ∅ ATTR_USER_ID (-7)).2 = true ∧
  GetInt32Value (SetInt32Value ∅ ATTR_USER_ID (-7)).1 ATTR_USER_ID = Some (-7).
Proof.
  destruct (set_get_roundtrip ∅ ATTR_USER_ID) as (_ & _ & _ & _ & _ & H & _).
  - vm_compute. discriminate.
  - destruct (H (-7)) as (H1 & H2 & _); [vm_compute; split; [discriminate|reflexivity]|].
    split; [exact H1|exact H2].
Defined.

(** C19: [Serialize] then parse. For a store whose keys and lengths fit the
    four-byte fields, the parser gives the store back exactly when it has at
    most [MAX_ATTR_COUNT] attributes of at most [MAX_ATTR_LENGTH] bytes each,
    and an empty store otherwise. *)
Theorem deserialize_serialize (m : Impl) :
  wire_ok m →
  Impl_of_raw (Serialize m) = if decide (transportable m) then m else ∅.
Proof.
  intros Hm. rewrite Impl_of_raw_parse, Serialize_wire, parse_wire
    by (by apply Forall_map_entries).
  destruct (decide (acceptable _ _)) as [H|H]; rewrite acceptable_entries in H.
  - by rewrite decide_True, list_to_map_entries.
  - by rewrite decide_False.
Qed.

Definition example_store : Impl :=
  (SetStringValue (SetUint64Value ∅ ATTR_SCHEDULE_ID 1234567890123).1 ATTR_DEVICE_UDID (str "udid")).1.

Lemma deserialize_serialize_witness :
  wire_ok example_store ∧ Impl_of_raw (Serialize example_store) = example_store.
Proof.
  assert (wire_ok example_store) as H.
  { apply (bool_decide_unpack _). vm_compute. exact I. }
  split; [exact H|]. rewrite (deserialize_serialize _ H).
  rewrite decide_True; [reflexivity|]. apply (bool_decide_unpack _). vm_compute. exact I.
Defined.

(** C20: the parser implements its grammar. A buffer parses to [m] exactly when
    it is a sequence of records with distinct keys, at most [MAX_ATTR_LENGTH]
    bytes each and at most [MAX_ATTR_COUNT] of them, and [m] is their map. *)
Theorem parse_iff_wire (raw : bytes) (m : Impl) :
  parse raw = Parsed m ↔
  ∃ es, raw = wire es ∧ Forall entry_ok es ∧ NoDup es.*1 ∧ Forall short es ∧
    Z.of_nat (length es) ≤ MAX_ATTR_COUNT ∧ m = list_to_map es.
Proof.
  assert (∀ es, acceptable es ∅ ↔
    (NoDup es.*1 ∧ Forall short es ∧ Z.of_nat (length es) ≤ MAX_ATTR_COUNT)) as Ha.
  { intros es. unfold acceptable. rewrite map_size_empty. unfold MAX_ATTR_COUNT.
    assert (Forall (λ k, (∅ : Impl) !! k = None) es.*1)
      by (apply Forall_true; intros; apply lookup_empty).
    split; intros; destruct_and!; split_and!; try done; lia. }
  split.
  - intros Hp. destruct (parse_loop_Parsed _ _ _ _ Hp) as (es & -> & Hes).
    rewrite parse_wire in Hp by done. case_decide as Hacc; [|done].
    injection Hp as <-. apply Ha in Hacc as (? & ? & ?). by exists es.
  - intros (es & -> & Hes & Hnd & Hs & Hc & ->).
    rewrite parse_wire by done. by rewrite decide_True by (by apply Ha).
Qed.

(** The parser is total and memory safe. On every buffer, whatever its
    length fields say, the constructor's loop ends and no read goes past the
    end of the buffer. *)
Theorem parse_no_ub (raw : bytes) :
  parse raw ≠ ParseOutOfBounds ∧ parse raw ≠ ParseOutOfFuel.
Proof.
  destruct (parse_loop_total (length raw) raw ∅) as [[m H]|H]; [lia| |];
    unfold parse; rewrite H; done.
Qed.

(** [Serialize] writes the attributes in ascending key order, each once:
    the buffer is the wire form of [GetKeys], strictly increasing, with the
    value of each key. *)
Theorem Serialize_sorted (m : Impl) :
  ∃ es, Serialize m = wire es ∧ es.*1 = GetKeys m ∧
    StronglySorted Z.lt (GetKeys m) ∧ (∀ k v, (k, v) ∈ es ↔ m !! k = Some v).
Proof.
  exists (map_entries m). split_and!; [apply Serialize_wire|done| |].
  - unfold GetKeys. assert (StronglySorted key_le (map_entries m)) as Hs
      by apply (StronglySorted_merge_sort key_le _).
    pose proof (NoDup_map_entries m) as Hnd.
    induction Hs as [|x es Hs IH Hx]; [constructor|].
    rewrite fmap_cons in *. apply NoDup_cons in Hnd as [Hni Hnd].
    constructor; [by apply IH|]. apply Forall_fmap, Forall_forall. intros y Hy.
    rewrite Forall_forall in Hx. specialize (Hx y Hy). unfold key_le in Hx. simpl.
    assert (y.1 ≠ x.1) by (intros E; apply Hni; rewrite <- E; by apply list_elem_of_fmap_2).
    lia.
  - intros k v. by rewrite map_entries_perm, elem_of_map_to_list.
Qed.

(** ** Sequences of setters *)

(** A call of one of the setters, with its arguments. *)
Inductive set_op :=
  | OpBool (key : Z) (v : bool)
  | OpUint64 (key : Z) (v : Z)
  | OpUint32 (key : Z) (v : Z)
  | OpUint16 (key : Z) (v : Z)
  | OpUint8 (key : Z) (v : Z)
  | OpInt32 (key : Z) (v : Z)
  | OpInt64 (key : Z) (v : Z)
  | OpString (key : Z) (v : bytes)
  | OpUint64Array (key : Z) (v : list Z)
  | OpUint32Array (key : Z) (v : list Z)
  | OpUint16Array (key : Z) (v : list Z)
  | OpInt32Array (key : Z) (v : list Z)
  | OpUint8Array (key : Z) (v : bytes)
  | OpAttributes (key : Z) (v : Impl).

Definition run_op (m : Impl) (op : set_op) : Impl * bool :=
  match op with
  | OpBool k v => SetBoolValue m k v
  | OpUint64 k v => SetUint64Value m k v
  | OpUint32 k v => SetUint32Value m k v
  | OpUint16 k v => SetUint16Value m k v
  | OpUint8 k v => SetUint8Value m k v
  | OpInt32 k v => SetInt32Value m k v
  | OpInt64 k v => SetInt64Value m k v
  | OpString k v => SetStringValue m k v
  | OpUint64Array k v => SetUint64ArrayValue m k v
  | OpUint32Array k v => SetUint32ArrayValue m k v
  | OpUint16Array k v => SetUint16ArrayValue m k v
  | OpInt32Array k v => SetInt32ArrayValue m k v
  | OpUint8Array k v => SetUint8ArrayValue m k v
  | OpAttributes k v => SetAttributesValue m k v
  end.

Definition op_key (op : set_op) : Z :=
  match op with
  | OpBool k _ | OpUint64 k _ | OpUint32 k _ | OpUint16 k _ | OpUint8 k _ | OpInt32 k _
  | OpInt64 k _ | OpString k _ | OpUint64Array k _ | OpUint32Array k _ | OpUint16Array k _
  | OpInt32Array k _ | OpUint8Array k _ | OpAttributes k _ => k
  end.

Definition run_ops (m : Impl) (ops : list set_op) : Impl :=
  foldl (λ m op, (run_op m op).1) m ops.

(** Every setter either fails and changes nothing, or writes its key into a
    store that had room. *)
Lemma run_op_cases m op :
  (run_op m op).2 = false ∧ (run_op m op).1 = m ∨
  (run_op m op).2 = true ∧ Z.of_nat (size m) ≤ MAX_ATTR_COUNT ∧
    ∃ dest, (run_op m op).1 = <[op_key op := dest]> m.
Proof.
  assert (∀ k enc, (set_encoded m k enc).2 = false ∧ (set_encoded m k enc).1 = m ∨
    (set_encoded m k enc).2 = true ∧ Z.of_nat (size m) ≤ MAX_ATTR_COUNT ∧
      ∃ dest, (set_encoded m k enc).1 = <[k := dest]> m) as Hs.
  { intros k [dest|]; unfold set_encoded; [|by left].
    case_decide; [by left|right]. split_and!; [done|lia|by eexists]. }
  destruct op; simpl; try apply Hs.
  - unfold SetInt64Value. destruct (EncodeInt64Value v); [|by left].
    case_decide; [by left|]. destruct (m !! key); [by left|right].
    split_and!; [done|lia|by eexists].
  - unfold SetAttributesValue. repeat (case_decide; [by left|]).
    right. split_and!; [done|lia|by eexists].
Qed.

Lemma run_ops_size m ops :
  Z.of_nat (size m) ≤ MAX_ATTR_COUNT + 1 →
  Z.of_nat (size (run_ops m ops)) ≤ MAX_ATTR_COUNT + 1.
Proof.
  revert m. induction ops as [|op ops IH]; intros m Hm; [done|]. simpl. apply IH.
  destruct (run_op_cases m op) as [[_ ->]|(_ & Hsz & dest & ->)]; [done|].
  rewrite map_size_insert. destruct (m !! op_key op); simpl; lia.
Qed.

Lemma Impl_of_raw_transportable raw : transportable (Impl_of_raw raw).
Proof.
  rewrite Impl_of_raw_parse. destruct (parse raw) as [m| | |] eqn:Hp;
    try (split; [by vm_compute|apply map_Forall_empty]).
  destruct (parse_loop_Parsed _ _ _ _ Hp) as (es & -> & Hes).
  rewrite parse_wire in Hp by done. case_decide as Hacc; [|done]. injection Hp as <-.
  destruct Hacc as (Hnd & _ & Hs & Hc). rewrite map_size_empty in Hc.
  split.
  - rewrite map_size_list_to_map by done. unfold MAX_ATTR_COUNT in *. lia.
  - intros k v Hkv. apply elem_of_list_to_map in Hkv; [|done].
    rewrite Forall_forall in Hs. apply (Hs _ Hkv).
Qed.

(** What a sequence of setters can do to a parsed store. However many
    setters run, with whatever arguments, a call that returns [false] left the
    store as it was, a call that returns [true] changed its own key only, and
    the store never has more than [MAX_ATTR_COUNT + 1] attributes. *)
Theorem setters_safe (raw : bytes) (ops : list set_op) (op : set_op) :
  let m := run_ops (Impl_of_raw raw) ops in
  let r := run_op m op in
  Z.of_nat (size r.1) ≤ MAX_ATTR_COUNT + 1 ∧
  (if r.2 then is_Some (r.1 !! op_key op) ∧ ∀ k, k ≠ op_key op → r.1 !! k = m !! k
   else r.1 = m).
Proof.
  intros m r. split.
  - apply (run_ops_size m [op]), run_ops_size.
    destruct (Impl_of_raw_transportable raw) as [H _]. unfold MAX_ATTR_COUNT in *. lia.
  - unfold r. destruct (run_op_cases m op) as [[-> ->]|(-> & _ & dest & ->)]; [done|].
    split; [rewrite lookup_insert_eq; by eexists|]. intros k Hk. by rewrite lookup_insert_ne.
Qed.

(** The setters admit one attribute more than the parser. A store that
    already has [MAX_ATTR_COUNT] attributes accepts one more, and its
    serialization then parses to the empty store. *)
Theorem attr_count_off_by_one (m : Impl) (key : Z) (v : bool) :
  wire_ok m → in_u 32 key → m !! key = None → Z.of_nat (size m) = MAX_ATTR_COUNT →
  (SetBoolValue m key v).2 = true ∧
  Impl_of_raw (Serialize (SetBoolValue m key v).1) = ∅.
Proof.
  intros Hm Hkey Hn Hsz. unfold SetBoolValue, set_encoded, EncodeBoolValue.
  rewrite decide_False by lia. split; [done|]. cbn [fst].
  rewrite Impl_of_raw_parse, Serialize_wire, parse_wire.
  - rewrite decide_False; [done|]. rewrite acceptable_entries. intros [Hc _].
    rewrite map_size_insert_None in Hc by done. lia.
  - apply Forall_map_entries, map_Forall_insert_2; [|done]. by split.
Qed.

Definition full_store : Impl := run_ops ∅ ((λ k, OpBool k true) <$> seqZ 0 512).

Lemma attr_count_off_by_one_witness :
  Z.of_nat (size full_store) = MAX_ATTR_COUNT ∧
  (SetBoolValue full_store 512 true).2 = true ∧
  Impl_of_raw (Serialize (SetBoolValue full_store 512 true).1) = ∅.
Proof.
  split; [vm_compute; reflexivity|]. apply attr_count_off_by_one.
  - apply (bool_decide_unpack _). vm_compute. exact I.
  - apply (bool_decide_unpack _). vm_compute. exact I.
  - vm_compute. reflexivity.
  - vm_compute. reflexivity.
Defined.

(** The longest string a setter accepts is longer, with its terminator,
    than the parser allows: a store with a string of exactly
    [MAX_ATTR_LENGTH] characters parses to the empty store. *)
Theorem max_string_lost (m : Impl) (key : Z) (s : bytes) :
  wire_ok m → in_u 32 key → Z.of_nat (size m) ≤ MAX_ATTR_COUNT →
  Z.of_nat (length s) = MAX_ATTR_LENGTH →
  (SetStringValue m key s).2 = true ∧
  GetStringValue (SetStringValue m key s).1 key = Some s ∧
  Impl_of_raw (Serialize (SetStringValue m key s).1) = ∅.
Proof.
  intros Hm Hkey Hsz Hs.
  destruct (set_encoded_stored _ _ _ m key s string_codec Hsz) as (H1 & H2 & _); [lia|].
  split; [exact H1|]. split; [exact H2|].
  unfold SetStringValue, set_encoded, EncodeStringValue.
  rewrite !decide_False by lia. cbn [fst].
  assert (Z.of_nat (length (s ++ [Byte.x00])) = MAX_ATTR_LENGTH + 1) as Hl
    by (rewrite length_app; simpl; lia).
  rewrite Impl_of_raw_parse, Serialize_wire, parse_wire.
  - rewrite decide_False; [done|]. rewrite acceptable_entries. intros [_ Hc].
    specialize (Hc key _ (lookup_insert_eq _ _ _)). simpl in Hc. lia.
  - apply Forall_map_entries, map_Forall_insert_2; [|done]. split; [done|].
    cbn [snd]. rewrite Hl. done.
Qed.

Definition max_string : bytes := replicate (Z.to_nat MAX_ATTR_LENGTH) Byte.x61.

Lemma max_string_lost_witness :
  (SetStringValue ∅ ATTR_DEVICE_UDID max_string).2 = true ∧
  Impl_of_raw (Serialize (SetStringValue ∅ ATTR_DEVICE_UDID max_string).1) = ∅.
Proof.
  destruct (max_string_lost ∅ ATTR_DEVICE_UDID max_string) as (H1 & _ & H2).
  - apply map_Forall_empty.
  - apply (bool_decide_unpack _). vm_compute. exact I.
  - apply (bool_decide_unpack _). vm_compute. exact I.
  - vm_compute. reflexivity.
  - split; [exact H1|exact H2].
Defined.
