(* ===== verification/Attributes.v ===== *)
(** * [Attributes]: the public handle

    Models [class Attributes] of
    frameworks/native/common/attributes/src/attributes.cpp: a [unique_ptr] to
    an [Impl] that is null after the object was moved from. Every member checks
    the pointer and forwards to [AttributesImpl]; the array members add a
    length-prefixed list of serialized stores on top. The allocation of the
    [Impl] in the constructors is taken to succeed. *)

From S2P Require Import Prelude Defines AttributesImpl.

(* @file A = src/frameworks/native/common/attributes/src/attributes.cpp *)

(** [impl_]. *)
Abbreviation Attributes := (option Impl).

(* @src A:1074-1076 Attributes::Attributes *)
Definition Attributes_new : Attributes := Some ∅.

(* @src A:1078-1080 Attributes::Attributes *)
Definition Attributes_of_raw (raw : bytes) : Attributes := Some (Impl_of_raw raw).

(** The move constructor and assignment: the new handle and what is left of [other]. *)
(* @src A:1087-1091 Attributes::operator= *)
Definition Attributes_move (other : Attributes) : Attributes * Attributes := (other, None).

Definition with_impl (a : Attributes) (f : Impl → Impl * bool) : Attributes * bool :=
  match a with
  | None => (None, false)
  | Some impl => let '(impl, ret) := f impl in (Some impl, ret)
  end.

(** ** Setters *)

(* @src A Attributes::SetBoolValue *)
Definition SetBoolValue (a : Attributes) (key : Z) (value : bool) : Attributes * bool :=
  with_impl a (λ impl, AttributesImpl.SetBoolValue impl key value).

(* @src A Attributes::SetUint64Value *)
Definition SetUint64Value (a : Attributes) (key : Z) (value : Z) : Attributes * bool :=
  with_impl a (λ impl, AttributesImpl.SetUint64Value impl key value).

(* @src A Attributes::SetUint32Value *)
Definition SetUint32Value (a : Attributes) (key : Z) (value : Z) : Attributes * bool :=
  with_impl a (λ impl, AttributesImpl.SetUint32Value impl key value).

(* @src A Attributes::SetUint16Value *)
Definition SetUint16Value (a : Attributes) (key : Z) (value : Z) : Attributes * bool :=
  with_impl a (λ impl, AttributesImpl.SetUint16Value impl key value).

(* @src A Attributes::SetUint8Value *)
Definition SetUint8Value (a : Attributes) (key : Z) (value : Z) : Attributes * bool :=
  with_impl a (λ impl, AttributesImpl.SetUint8Value impl key value).

(* @src A Attributes::SetInt32Value *)
Definition SetInt32Value (a : Attributes) (key : Z) (value : Z) : Attributes * bool :=
  with_impl a (λ impl, AttributesImpl.SetInt32Value impl key value).

(* @src A Attributes::SetInt64Value *)
Definition SetInt64Value (a : Attributes) (key : Z) (value : Z) : Attributes * bool :=
  with_impl a (λ impl, AttributesImpl.SetInt64Value impl key value).

(* @src A Attributes::SetStringValue *)
Definition SetStringValue (a : Attributes) (key : Z) (value : bytes) : Attributes * bool :=
  with_impl a (λ impl, AttributesImpl.SetStringValue impl key value).

(* @src A Attributes::SetUint64ArrayValue *)
Definition SetUint64ArrayValue (a : Attributes) (key : Z) (value : list Z) : Attributes * bool :=
  with_impl a (λ impl, AttributesImpl.SetUint64ArrayValue impl key value).

(* @src A Attributes::SetUint32ArrayValue *)
Definition SetUint32ArrayValue (a : Attributes) (key : Z) (value : list Z) : Attributes * bool :=
  with_impl a (λ impl, AttributesImpl.SetUint32ArrayValue impl key value).

(* @src A Attributes::SetUint16ArrayValue *)
Definition SetUint16ArrayValue (a : Attributes) (key : Z) (value : list Z) : Attributes * bool :=
  with_impl a (λ impl, AttributesImpl.SetUint16ArrayValue impl key value).

(* @src A Attributes::SetUint8ArrayValue *)
Definition SetUint8ArrayValue (a : Attributes) (key : Z) (value : bytes) : Attributes * bool :=
  with_impl a (λ impl, AttributesImpl.SetUint8ArrayValue impl key value).

(* @src A Attributes::SetInt32ArrayValue *)
Definition SetInt32ArrayValue (a : Attributes) (key : Z) (value : list Z) : Attributes * bool :=
  with_impl a (λ impl, AttributesImpl.SetInt32ArrayValue impl key value).

(* @src A Attributes::SetAttributesValue *)
Definition SetAttributesValue (a : Attributes) (key : Z) (value : Attributes) : Attributes * bool :=
  match value with
  | None => (a, false)
  | Some value_impl => with_impl a (λ impl, AttributesImpl.SetAttributesValue impl key value_impl)
  end.

(** ** Getters *)

(* @src A Attributes::GetBoolValue *)
Definition GetBoolValue (a : Attributes) (key : Z) : option bool :=
  impl ← a; AttributesImpl.GetBoolValue impl key.

(* @src A Attributes::GetUint64Value *)
Definition GetUint64Value (a : Attributes) (key : Z) : option Z :=
  impl ← a; AttributesImpl.GetUint64Value impl key.

(* @src A Attributes::GetUint32Value *)
Definition GetUint32Value (a : Attributes) (key : Z) : option Z :=
  impl ← a; AttributesImpl.GetUint32Value impl key.

(* @src A Attributes::GetUint16Value *)
Definition GetUint16Value (a : Attributes) (key : Z) : option Z :=
  impl ← a; AttributesImpl.GetUint16Value impl key.

(* @src A Attributes::GetUint8Value *)
Definition GetUint8Value (a : Attributes) (key : Z) : option Z :=
  impl ← a; AttributesImpl.GetUint8Value impl key.

(* @src A Attributes::GetInt32Value *)
Definition GetInt32Value (a : Attributes) (key : Z) : option Z :=
  impl ← a; AttributesImpl.GetInt32Value impl key.

(* @src A Attributes::GetInt64Value *)
Definition GetInt64Value (a : Attributes) (key : Z) : option Z :=
  impl ← a; AttributesImpl.GetInt64Value impl key.

(* @src A Attributes::GetStringValue *)
Definition GetStringValue (a : Attributes) (key : Z) : option bytes :=
  impl ← a; AttributesImpl.GetStringValue impl key.

(* @src A Attributes::GetUint64ArrayValue *)
Definition GetUint64ArrayValue (a : Attributes) (key : Z) : option (list Z) :=
  impl ← a; AttributesImpl.GetUint64ArrayValue impl key.

(* @src A Attributes::GetUint32ArrayValue *)
Definition GetUint32ArrayValue (a : Attributes) (key : Z) : option (list Z) :=
  impl ← a; AttributesImpl.GetUint32ArrayValue impl key.

(* @src A Attributes::GetUint16ArrayValue *)
Definition GetUint16ArrayValue (a : Attributes) (key : Z) : option (list Z) :=
  impl ← a; AttributesImpl.GetUint16ArrayValue impl key.

(* @src A Attributes::GetUint8ArrayValue *)
Definition GetUint8ArrayValue (a : Attributes) (key : Z) : option bytes :=
  impl ← a; AttributesImpl.GetUint8ArrayValue impl key.

(* @src A Attributes::GetInt32ArrayValue *)
Definition GetInt32ArrayValue (a : Attributes) (key : Z) : option (list Z) :=
  impl ← a; AttributesImpl.GetInt32ArrayValue impl key.

(** The out parameter [value] is moved into, unless its own pointer is null. *)
(* @src A Attributes::GetAttributesValue *)
Definition GetAttributesValue (a : Attributes) (key : Z) (value : Attributes) : Attributes * bool :=
  match a, value with
  | Some impl, Some _ =>
      match AttributesImpl.GetAttributesValue impl key with
      | Some out => (Some out, true)
      | None => (value, false)
      end
  | _, _ => (value, false)
  end.

(* @src A Attributes::Serialize *)
Definition Serialize (a : Attributes) : bytes :=
  match a with Some impl => AttributesImpl.Serialize impl | None => [] end.

(* @src A Attributes::GetKeys *)
Definition GetKeys (a : Attributes) : list Z :=
  match a with Some impl => AttributesImpl.GetKeys impl | None => [] end.

(* @src A Attributes::HasAttribute *)
Definition HasAttribute (a : Attributes) (key : Z) : bool :=
  match a with Some impl => AttributesImpl.HasAttribute impl key | None => false end.

(** ** Arrays of stores *)

(** The first loop of [SetAttributesArrayValue]: every item serialized, or
    [None] when one has a null pointer. *)
(* @src A:1215-1221 Attributes::SetAttributesArrayValue *)
Fixpoint serialize_items (array : list Attributes) : option (list bytes) :=
  match array with
  | [] => Some []
  | None :: _ => None
  | (Some _ as item) :: array =>
      rest ← serialize_items array; Some (Serialize item :: rest)
  end.

(** The second loop: each serialization behind its 32-bit length. *)
(* @src A:1229-1238 Attributes::SetAttributesArrayValue *)
Fixpoint append_items (serializedArray : list bytes) (data : bytes) : option bytes :=
  match serializedArray with
  | [] => Some data
  | array :: serializedArray =>
      arrayLen ← EncodeUint32Value (wrapU 32 (Z.of_nat (length array)));
      append_items serializedArray (data ++ arrayLen ++ array)
  end.

(* @src A Attributes::SetAttributesArrayValue *)
Definition SetAttributesArrayValue (a : Attributes) (key : Z) (array : list Attributes) :
    Attributes * bool :=
  match a with
  | None => (a, false)
  | Some _ =>
    match serialize_items array with
    | None => (a, false)
    | Some serializedArray =>
      match append_items serializedArray [] with
      | None => (a, false)
      | Some data => with_impl a (λ impl, AttributesImpl.SetUint8ArrayValue impl key data)
      end
    end
  end.

(** The loop of [GetAttributesArrayValue]. [i] is a [uint32_t]; the result is
    the return value and the array filled so far, [None] when the fuel ends. *)
(* @src A:1256-1278 Attributes::GetAttributesArrayValue *)
Fixpoint get_items (fuel : nat) (data : bytes) (i : Z) (array : list Attributes) :
    option (bool * list Attributes) :=
  match fuel with
  | O => None
  | S fuel =>
    CHECK i < Z.of_nat (length data) ELSE Some (true, array) ;;
    WHEN Z.of_nat (length data) - i < 4 RETURN Some (false, array) ;;
    let arrayLenData := take 4 (drop (Z.to_nat i) data) in
    match DecodeUint32Value arrayLenData with
    | None => Some (false, array)
    | Some arrayLen =>
      let i := wrapU 32 (i + 4) in
      WHEN Z.of_nat (length data) - i < arrayLen RETURN Some (false, array) ;;
      let array := array ++ [Attributes_of_raw (take (Z.to_nat arrayLen) (drop (Z.to_nat i) data))] in
      get_items fuel data (wrapU 32 (i + arrayLen)) array
    end
  end.

(** [array] is the out parameter: it keeps its contents when there is no
    such attribute and is cleared and refilled otherwise. *)
(* @src A Attributes::GetAttributesArrayValue *)
Definition GetAttributesArrayValue (a : Attributes) (key : Z) (array : list Attributes) :
    option (bool * list Attributes) :=
  match a with
  | None => Some (false, array)
  | Some impl =>
    match AttributesImpl.GetUint8ArrayValue impl key with
    | None => Some (false, array)
    | Some data => get_items (S (length data)) data 0 []
    end
  end.

(** The setters in order, until one fails. *)
Fixpoint set_all (attr : Attributes) (setters : list (Attributes → Attributes * bool)) : Attributes * bool :=
  match setters with
  | [] => (attr, true)
  | set :: setters =>
    let '(attr, ok) := set attr in
    CHECK ok = true ELSE (attr, false) ;;
    set_all attr setters
  end.

(** * Properties *)

Definition item_bytes (s : bytes) : bytes := le_split 4 (Z.of_nat (length s)) ++ s.

Lemma length_item_bytes s : length (item_bytes s) = (4 + length s)%nat.
Proof. unfold item_bytes. rewrite length_app, length_le_split. lia. Qed.

Lemma append_items_eq ss data :
  append_items ss data = Some (data ++ mjoin (item_bytes <$> ss)).
Proof.
  revert data. induction ss as [|s ss IH]; intros data; [simpl; by rewrite app_nil_r|].
  cbn [append_items]. rewrite EncodeUint32Value_eq. cbn [mbind option_bind].
  rewrite IH. unfold wrapU. change (2 ^ 32) with (2 ^ (Z.of_nat 4 * 8)).
  rewrite <- (le_split_mod (Z.of_nat (length s)) 4).
  rewrite fmap_cons, mjoin_cons. unfold item_bytes. by rewrite <- !app_assoc.
Qed.

Lemma serialize_items_Some impls :
  serialize_items (Some <$> impls) = Some (AttributesImpl.Serialize <$> impls).
Proof.
  induction impls as [|m impls IH]; [done|].
  rewrite !fmap_cons. cbn [serialize_items]. by rewrite IH.
Qed.

(** One round of the loop on a well-formed item after a prefix [pre]. *)
Lemma get_items_step fuel (pre s rest : bytes) array :
  Z.of_nat (length (pre ++ item_bytes s ++ rest)) < u32_max →
  get_items (S fuel) (pre ++ item_bytes s ++ rest) (Z.of_nat (length pre)) array =
  get_items fuel (pre ++ item_bytes s ++ rest) (Z.of_nat (length (pre ++ item_bytes s)))
    (array ++ [Attributes_of_raw s]).
Proof.
  unfold u32_max. intros Hlen. rewrite !length_app, length_item_bytes in Hlen.
  assert (length (pre ++ item_bytes s ++ rest) = length pre + (4 + length s) + length rest)%nat
    as Hl by (rewrite !length_app, length_item_bytes; lia).
  cbn [get_items]. rewrite Hl, decide_True, decide_False by lia.
  rewrite Nat2Z.id, drop_app_length. unfold item_bytes at 1. rewrite <- app_assoc.
  rewrite (take_app_length' (le_split 4 _)) by done.
  unfold DecodeUint32Value. rewrite decode_uint_le, le_combine_split_u
    by (unfold in_u; rewrite ?length_le_split; lia).
  rewrite (wrapU_id 32 (Z.of_nat (length pre) + 4)) by (unfold in_u; lia).
  rewrite decide_False by lia.
  rewrite (wrapU_id 32 (_ + _)) by (unfold in_u; lia).
  replace (Z.of_nat (length pre) + 4 + Z.of_nat (length s))
    with (Z.of_nat (length (pre ++ item_bytes s))) by (rewrite length_app, length_item_bytes; lia).
  replace (Z.to_nat (Z.of_nat (length pre) + 4)) with (length pre + 4)%nat by lia.
  rewrite <- drop_drop, drop_app_length. unfold item_bytes at 3. rewrite <- app_assoc.
  rewrite (drop_app_length' (le_split 4 _)), Nat2Z.id, take_app_length by done. done.
Qed.

Lemma get_items_list ss fuel (pre : bytes) array :
  let data := pre ++ mjoin (item_bytes <$> ss) in
  Z.of_nat (length data) < u32_max → (length ss < fuel)%nat →
  get_items fuel data (Z.of_nat (length pre)) array =
  Some (true, array ++ (Attributes_of_raw <$> ss)).
Proof.
  revert fuel pre array. induction ss as [|s ss IH]; intros [|fuel] pre array; try (simpl; lia).
  - simpl. intros _ _. rewrite !app_nil_r. by rewrite decide_False by lia.
  - cbn zeta. rewrite fmap_cons, mjoin_cons. intros Hlen Hfuel. simpl in Hfuel.
    rewrite get_items_step by done. rewrite app_assoc in *.
    rewrite IH by (first [done|lia]). by rewrite <- app_assoc.
Qed.

Lemma length_items_le (ss : list bytes) : (length ss ≤ length (mjoin (item_bytes <$> ss)))%nat.
Proof.
  induction ss as [|s ss IH]; [done|].
  rewrite fmap_cons, mjoin_cons, length_app, length_item_bytes. simpl. lia.
Qed.

Lemma get_items_total fuel data i array :
  Z.of_nat (length data) < u32_max → 0 ≤ i ≤ Z.of_nat (length data) →
  Z.of_nat (length data) - i < Z.of_nat fuel → is_Some (get_items fuel data i array).
Proof.
  unfold u32_max. revert i array. induction fuel as [|fuel IH]; intros i array Hd Hi Hf; [lia|].
  cbn [get_items]. case_decide as H1; [|by eexists]. case_decide as H2; [by eexists|].
  destruct (DecodeUint32Value _) as [len|] eqn:Hdec; [|by eexists].
  assert (0 ≤ len) as Hlen.
  { unfold DecodeUint32Value, decode_uint in Hdec. case_decide; [|done].
    destruct (memcpy_s _ _ _) as [x|]; [|done]. injection Hdec as <-. apply le_combine_in_u. }
  rewrite (wrapU_id 32 (i + 4)) by (unfold in_u; lia).
  case_decide as H3; [by eexists|].
  rewrite wrapU_id by (unfold in_u; lia). apply IH; lia.
Qed.

(** The bytes of an array attribute. *)
Definition array_bytes (impls : list Impl) : bytes := mjoin (item_bytes <$> (AttributesImpl.Serialize <$> impls)).

Lemma set_array_eq m key impls :
  Z.of_nat (size m) ≤ MAX_ATTR_COUNT → Z.of_nat (length (array_bytes impls)) ≤ MAX_ATTR_LENGTH →
  SetAttributesArrayValue (Some m) key (Some <$> impls) = (Some (<[key := array_bytes impls]> m), true).
Proof.
  intros Hsz Hlen. unfold SetAttributesArrayValue. rewrite serialize_items_Some, append_items_eq, app_nil_l.
  fold (array_bytes impls). unfold with_impl, AttributesImpl.SetUint8ArrayValue, set_encoded, EncodeUint8ArrayValue.
  by rewrite !decide_False by lia.
Qed.

Lemma get_array_eq m key impls array :
  m !! key = Some (array_bytes impls) → Forall (λ i, wire_ok i ∧ transportable i) impls →
  Z.of_nat (length (array_bytes impls)) < u32_max →
  GetAttributesArrayValue (Some m) key array = Some (true, Some <$> impls).
Proof.
  intros Hk Hok Hlen. unfold GetAttributesArrayValue, AttributesImpl.GetUint8ArrayValue. rewrite Hk.
  cbn [mbind option_bind DecodeUint8ArrayValue].
  assert (get_items (S (length (array_bytes impls))) (array_bytes impls) 0 [] =
    Some (true, Attributes_of_raw <$> (AttributesImpl.Serialize <$> impls))) as ->.
  { apply (get_items_list _ _ [] []); simpl; [exact Hlen|].
    pose proof (length_items_le (AttributesImpl.Serialize <$> impls)). unfold array_bytes. lia. }
  do 2 f_equal. rewrite <- list_fmap_compose.
  apply list_fmap_ext. intros i x Hx. simpl. unfold Attributes_of_raw. f_equal.
  destruct (Forall_lookup_1 _ _ _ _ Hok Hx) as [Hw Ht]. by apply Impl_of_Serialize.
Qed.

(** Arrays of stores survive the round trip. Storing an array of stores
    that the wire format carries, of at most [MAX_ATTR_LENGTH] bytes together,
    succeeds, and reading the key gives the same array. *)
Theorem attributes_array_roundtrip (m : Impl) (key : Z) (impls : list Impl) (array : list Attributes) :
  Z.of_nat (size m) ≤ MAX_ATTR_COUNT →
  Forall (λ i, wire_ok i ∧ transportable i) impls →
  Z.of_nat (length (mjoin (item_bytes <$> (AttributesImpl.Serialize <$> impls)))) ≤ MAX_ATTR_LENGTH →
  let r := SetAttributesArrayValue (Some m) key (Some <$> impls) in
  r.2 = true ∧ GetAttributesArrayValue r.1 key array = Some (true, Some <$> impls).
Proof.
  intros Hsz Hok Hlen r. unfold r. rewrite set_array_eq by done. split; [done|].
  apply get_array_eq; [apply lookup_insert_eq|done|]. fold (array_bytes impls) in Hlen.
  unfold MAX_ATTR_LENGTH, u32_max in *. lia.
Qed.

Definition example_items : list Impl := [example_store; ∅; (AttributesImpl.SetBoolValue ∅ 1 true).1].

Lemma attributes_array_roundtrip_witness :
  GetAttributesArrayValue
    (SetAttributesArrayValue (Some ∅) ATTR_EXECUTOR_REGISTER_INFO_LIST (Some <$> example_items)).1
    ATTR_EXECUTOR_REGISTER_INFO_LIST [] = Some (true, Some <$> example_items).
Proof.
  apply (attributes_array_roundtrip ∅ ATTR_EXECUTOR_REGISTER_INFO_LIST example_items []).
  - vm_compute. discriminate.
  - apply (bool_decide_unpack _). vm_compute. exact I.
  - vm_compute. discriminate.
Defined.

(** Reading an array attribute always ends. Whatever bytes another device
    put under the key, shorter than 4 GiB, the loop stops after at most one
    round per byte, and a missing key leaves the caller's array untouched. *)
Theorem array_read_total (m : Impl) (key : Z) (array : list Attributes) :
  map_Forall (λ _ v, Z.of_nat (length v) < u32_max) m →
  ∃ ret array', GetAttributesArrayValue (Some m) key array = Some (ret, array') ∧
    (m !! key = None → ret = false ∧ array' = array).
Proof.
  intros Hm. unfold GetAttributesArrayValue, AttributesImpl.GetUint8ArrayValue.
  destruct (m !! key) as [data|] eqn:Hk; simpl; [|by exists false, array].
  destruct (get_items_total (S (length data)) data 0 []) as [[ret array'] H]; try lia.
  - apply (Hm key data Hk).
  - exists ret, array'. split; [exact H|done].
Qed.

Definition hostile_store : Impl := <[7 := le_split 4 (2 ^ 32 - 1) ++ [Byte.x01]]> ∅.

Lemma array_read_total_witness :
  ∃ ret array', GetAttributesArrayValue (Some hostile_store) 7 [] = Some (ret, array') ∧
    (hostile_store !! 7 = None → ret = false ∧ array' = []).
Proof.
  apply (array_read_total hostile_store 7 []).
  apply (bool_decide_unpack _). vm_compute. exact I.
Defined.

(** ** Setters as insertions

    What a setter does on a store with room, for the clients that fill in
    several attributes. *)

Definition encoded {T} (enc : T → option bytes) (v : T) : bytes := default [] (enc v).

Lemma encoded_ok {T} (enc : T → option bytes) dec valid v :
  AttrCodec enc dec valid → valid v → enc v = Some (encoded enc v) ∧ dec (encoded enc v) = Some v.
Proof. intros Hc Hv. destruct (codec_ok v Hv) as (bs & He & Hd). unfold encoded. by rewrite He. Qed.

(** Room for [n] more attributes. *)
Definition room (n : nat) (m : Impl) : Prop := Z.of_nat (size m + n) ≤ MAX_ATTR_COUNT.

Lemma room_insert n m k b : room (S n) m → room n (<[k := b]> m).
Proof.
  unfold room. intros H.
  destruct (m !! k) as [x|] eqn:E; [rewrite map_size_insert_Some by eauto|rewrite map_size_insert_None by done]; lia.
Qed.

Lemma room_size n m : room n m → Z.of_nat (size m) ≤ MAX_ATTR_COUNT.
Proof. unfold room. lia. Qed.

Lemma with_impl_set {T} (enc : T → option bytes) dec valid n (m : Impl) key v :
  AttrCodec enc dec valid → valid v → room n m →
  with_impl (Some m) (λ impl, set_encoded impl key (enc v)) = (Some (<[key := encoded enc v]> m), true).
Proof.
  intros Hc Hv Hr%room_size. destruct (encoded_ok enc dec valid v Hc Hv) as [He _]. unfold with_impl, set_encoded.
  rewrite He. by rewrite decide_False by lia.
Qed.

Section Setters.
Context (n : nat) (m : Impl) (key : Z).
Hypothesis Hroom : room n m.

Lemma set_bool v : SetBoolValue (Some m) key v = (Some (<[key := encoded EncodeBoolValue v]> m), true).
Proof using Hroom. intros. by apply (with_impl_set _ _ _ n m key v bool_codec). Qed.
Lemma set_u32 v : in_u 32 v → SetUint32Value (Some m) key v = (Some (<[key := encoded EncodeUint32Value v]> m), true).
Proof using Hroom. intros. by apply (with_impl_set _ _ _ n m key v u32_codec). Qed.
Lemma set_u64 v : in_u 64 v → SetUint64Value (Some m) key v = (Some (<[key := encoded EncodeUint64Value v]> m), true).
Proof using Hroom. intros. by apply (with_impl_set _ _ _ n m key v u64_codec). Qed.
Lemma set_i32 v : in_s 32 v → SetInt32Value (Some m) key v = (Some (<[key := encoded EncodeInt32Value v]> m), true).
Proof using Hroom. intros. by apply (with_impl_set _ _ _ n m key v i32_codec). Qed.
Lemma set_string v : Z.of_nat (length v) ≤ MAX_ATTR_LENGTH →
  SetStringValue (Some m) key v = (Some (<[key := encoded EncodeStringValue v]> m), true).
Proof using Hroom. intros H. by apply (with_impl_set _ _ _ n m key v string_codec). Qed.
Lemma set_bytes v : Z.of_nat (length v) ≤ MAX_ATTR_LENGTH →
  SetUint8ArrayValue (Some m) key v = (Some (<[key := encoded EncodeUint8ArrayValue v]> m), true).
Proof using Hroom. intros H. by apply (with_impl_set _ _ _ n m key v bytes_codec). Qed.
End Setters.

(** ** Setters that cannot fail

    A setter fails because its value is too long or the store is full, and for
    no other reason. [settable s] says that [s] sets its attribute in every store
    that has room for one more. *)

Definition settable (s : Attributes → Attributes * bool) : Prop :=
  ∀ n m, room (S n) m → ∃ m', s (Some m) = (Some m', true) ∧ room n m'.

Lemma settable_encoded (key : Z) (e : option bytes) :
  is_Some e → settable (λ a, with_impl a (λ impl, set_encoded impl key e)).
Proof.
  intros [d ->] n m Hr. unfold with_impl, set_encoded. rewrite decide_False by (apply room_size in Hr; lia).
  eexists. split; [done|]. by apply room_insert.
Qed.

Lemma settable_bool key v : settable (λ a, SetBoolValue a key v).
Proof. apply settable_encoded. done. Qed.
Lemma settable_u64 key v : settable (λ a, SetUint64Value a key v).
Proof. apply settable_encoded. unfold EncodeUint64Value. rewrite encode_le by lia. done. Qed.
Lemma settable_u32 key v : settable (λ a, SetUint32Value a key v).
Proof. apply settable_encoded. unfold EncodeUint32Value. rewrite encode_le by lia. done. Qed.
Lemma settable_u16 key v : settable (λ a, SetUint16Value a key v).
Proof. apply settable_encoded. unfold EncodeUint16Value. rewrite encode_le by lia. done. Qed.
Lemma settable_i32 key v : settable (λ a, SetInt32Value a key v).
Proof. apply settable_encoded. unfold EncodeInt32Value. rewrite encode_le by lia. done. Qed.
Lemma settable_bytes key v : Z.of_nat (length v) ≤ MAX_ATTR_LENGTH → settable (λ a, SetUint8ArrayValue a key v).
Proof. intros Hv. apply settable_encoded. unfold EncodeUint8ArrayValue. rewrite decide_False by lia. done. Qed.
Create HintDb attributes discriminated.
#[export] Hint Resolve settable_bool settable_u64 settable_u32 settable_u16 settable_i32 settable_bytes : attributes.

Lemma set_all_ok l n m : Forall settable l → room (length l + n) m →
  ∃ m', set_all (Some m) l = (Some m', true) ∧ room n m'.
Proof.
  intros Hl. revert m. induction Hl as [|s l Hs _ IH]; intros m Hr; [by exists m|].
  destruct (Hs _ _ Hr) as (m' & E & Hr'). simpl. rewrite E. by apply IH.
Qed.

Lemma set_all_new l : Forall settable l → Z.of_nat (length l) ≤ MAX_ATTR_COUNT → (set_all Attributes_new l).2 = true.
Proof.
  intros Hl Hn. destruct (set_all_ok l 0 ∅ Hl) as (m' & E & _).
  - unfold room. rewrite map_size_empty. lia.
  - unfold Attributes_new. by rewrite E.
Qed.

Lemma set_all_app l1 l2 a a' : set_all a l1 = (a', true) → set_all a (l1 ++ l2) = set_all a' l2.
Proof.
  revert a. induction l1 as [|s l1 IH]; intros a; simpl; [congruence|]. destruct (s a) as [b ok].
  case_decide; [apply IH|congruence].
Qed.
