(* ===== verification/ServiceTypes.v ===== *)
(** * Data of the service interfaces

    The parameters that reach the services over IPC (UserAuthTypes.idl), the
    records the services turn them into, and the records of the engine
    interface. Numbers are [Z], strings and byte vectors are [bytes]. *)

From S2P Require Import Prelude Defines.

(* @file I = src/frameworks/native/ipc/idl/UserAuthTypes.idl *)
(* @file UD = src/frameworks/native/ipc/common_defines/user_auth_common_defines.h *)
(* @file CD = src/interfaces/inner_api/user_auth_client_defines.h *)
(* @file ID = src/interfaces/inner_api/user_idm_client_defines.h *)
(* @file D = src/interfaces/inner_api/iam_common_defines.h *)
(* @file CF = src/services/context/inc/context_factory.h *)
(* @file AU = src/services/core/inc/authentication.h *)
(* @file EN = src/services/core/inc/enrollment.h *)
(* @file DE = src/services/core/inc/deletion.h *)
(* @file IN = src/services/core/inc/identification.h *)
(* @file RA = src/services/context/inc/remote_auth_context.h *)
(* @file RI = src/services/context/inc/remote_auth_invoker_context.h *)
(* @file LR = src/services/context/inc/local_remote_auth_context.h *)
(* @file ET = src/services/engine/pub_inc/user_auth_engine_types.h *)
(* @file EH = src/services/engine/pub_inc/user_auth_engine.h *)
(* @file IC = src/services/core/inc/ipc_common.h *)
(* @file CX = src/services/context/inc/context.h *)
(* @file AC = src/frameworks/common/inc/auth_common.h *)
(* @file SA = src/services/context/inc/simple_auth_context.h *)
(* @file X = src/common/utils/iam_defines.h *)
(* @file SH = src/services/core/inc/schedule_node_helper.h *)
(* @file CC = src/interfaces/inner_api/co_auth_client_defines.h *)

(** ** Constants *)

(* @src UD:const BAD_CONTEXT_ID *)
Definition BAD_CONTEXT_ID : Z := 0.
(* @src CX:const REUSE_AUTH_RESULT_CONTEXT_ID *)
Definition REUSE_AUTH_RESULT_CONTEXT_ID : Z := 1.
(* @src D:const MAX_USER *)
Definition MAX_USER : Z := 5.
(* @src D:const TITLE_MAX *)
Definition TITLE_MAX : Z := 500.
(* @src D:const MAX_USER_CREDENTIAL_SIZE *)
Definition MAX_USER_CREDENTIAL_SIZE : Z := 100.
(* @src D:const MAX_AUTH_TYPE_SIZE *)
Definition MAX_AUTH_TYPE_SIZE : Z := 8.
(* @src D:const CAMERA_NOT_AVAILABLE *)
Definition CAMERA_NOT_AVAILABLE : Z := 1.
(* @src CD:const MAX_ALLOWABLE_REUSE_DURATION *)
Definition MAX_ALLOWABLE_REUSE_DURATION : Z := 5 * 60 * 1000.
(* @src X:const INNER_API_VERSION_10000 *)
Definition INNER_API_VERSION_10000 : Z := 10000.
(* @src AC:const API_VERSION_8 *)
Definition API_VERSION_8 : Z := 8.
(* @src AC:const API_VERSION_12 *)
Definition API_VERSION_12 : Z := 12.
(* @src SA:const FIRST_LOCKOUT_DURATION_EXCEPT_PIN *)
Definition FIRST_LOCKOUT_DURATION_EXCEPT_PIN : Z := 30 * 1000.
Definition UINT16_MAX : Z := 65535.

(* @src CD:const DIALOG_BOX *)
Definition DIALOG_BOX : Z := 1.
(* @src CD:const FULLSCREEN *)
Definition FULLSCREEN : Z := 2.
(* @src CD:const UNKNOWN_WINDOW_MODE *)
Definition UNKNOWN_WINDOW_MODE : Z := 3.
(* @src CD:const NONE_INTERRUPTION_DIALOG_BOX *)
Definition NONE_INTERRUPTION_DIALOG_BOX : Z := 4.

(* @src CD:const AUTH_TYPE_RELEVANT *)
Definition AUTH_TYPE_RELEVANT : Z := 1.
(* @src CD:const AUTH_TYPE_IRRELEVANT *)
Definition AUTH_TYPE_IRRELEVANT : Z := 2.
(* @src CD:const CALLER_IRRELEVANT_AUTH_TYPE_RELEVANT *)
Definition CALLER_IRRELEVANT_AUTH_TYPE_RELEVANT : Z := 3.
(* @src CD:const CALLER_IRRELEVANT_AUTH_TYPE_IRRELEVANT *)
Definition CALLER_IRRELEVANT_AUTH_TYPE_IRRELEVANT : Z := 4.

(* @src UD:const MODAL_CREATE_ERROR *)
Definition MODAL_CREATE_ERROR : Z := 1.
(* @src UD:const MODAL_RUN_ERROR *)
Definition MODAL_RUN_ERROR : Z := 2.

(* @src D:const MAIN_USER_ID *)
Definition MAIN_USER_ID : Z := 100.
(* @src ET:const MAIN *)
Definition ENG_USER_MAIN : Z := 0.
(* @src ET:const SUB *)
Definition ENG_USER_SUB : Z := 1.
(* @src ET:const PRIVATE *)
Definition ENG_USER_PRIVATE : Z := 2.
(* @src ET:const ENG_CALLER_TYPE_HAP *)
Definition ENG_CALLER_TYPE_HAP : Z := 0.
(* @src ET:const ENG_CALLER_TYPE_NATIVE *)
Definition ENG_CALLER_TYPE_NATIVE : Z := 1.
(* @src ID:const ADD_CRED *)
Definition ADD_CRED : Z := 1.
(* @src ID:const UPDATE_CRED *)
Definition UPDATE_CRED : Z := 2.
(* @src ID:const DEL_CRED *)
Definition DEL_CRED : Z := 3.
(* @src ID:const DEL_USER *)
Definition DEL_USER : Z := 4.
(* @src ID:const ENFORCE_DEL_USER *)
Definition ENFORCE_DEL_USER : Z := 5.

(* @src ET:const ENG_CALLER_PERM_ENTERPRISE_MANAGE_SECURITY *)
Definition ENG_CALLER_PERM_ENTERPRISE_MANAGE_SECURITY : Z := 1.
(* @src EH:const SUPPORT_USER_RECOGNITION *)
Definition SUPPORT_USER_RECOGNITION : Z := Z.shiftl 1 0.

(** [ATokenTypeEnum] of the access token kit, as far as the code names it. *)
Inductive TokenType := TOKEN_INVALID | TOKEN_HAP | TOKEN_NATIVE | TOKEN_OTHER.
#[export] Instance TokenType_eq : EqDecision TokenType.
Proof. solve_decision. Defined.

(* @src IC:struct Permission *)
Inductive Permission :=
  | MANAGE_USER_IDM_PERMISSION
  | USE_USER_IDM_PERMISSION
  | ACCESS_USER_AUTH_INTERNAL_PERMISSION
  | ACCESS_BIOMETRIC_PERMISSION
  | ACCESS_USER_PASSIVE_RECOGNITION_PERMISSION
  | ACCESS_AUTH_RESPOOL
  | ENFORCE_USER_IDM
  | SUPPORT_USER_AUTH
  | IS_SYSTEM_APP
  | CLEAR_REDUNDANCY_PERMISSION
  | USE_USER_ACCESS_MANAGER
  | USER_AUTH_FROM_BACKGROUND
  | ENTERPRISE_DEVICE_MGR
  | ENTERPRISE_MANAGE_SECURITY.
#[export] Instance Permission_eq : EqDecision Permission.
Proof. solve_decision. Defined.

(** ** What arrives over IPC *)

(* @src I:struct IpcRemoteAuthParam *)
Record IpcRemoteAuthParam := mkIpcRemoteAuthParam {
  ir_isHasRemoteAuthParam : bool;
  ir_isHasVerifierNetworkId : bool;
  ir_verifierNetworkId : bytes;
  ir_isHasCollectorNetworkId : bool;
  ir_collectorNetworkId : bytes;
  ir_isHasCollectorTokenId : bool;
  ir_collectorTokenId : Z;
}.

(* @src I:struct IpcReuseUnlockResult *)
Record IpcReuseUnlockResult := mkIpcReuse {
  iu_isReuse : bool;
  iu_reuseMode : Z;
  iu_reuseDuration : Z;
}.

(* @src I:struct IpcAuthParamInner *)
Record IpcAuthParamInner := mkIpcAuthParam {
  ia_userId : Z;
  ia_isUserIdSpecified : bool;
  ia_challenge : bytes;
  ia_authType : Z;
  ia_authTypes : list Z;
  ia_authTrustLevel : Z;
  ia_reuseUnlockResult : IpcReuseUnlockResult;
  ia_authIntent : Z;
  ia_skipLockedBiometricAuth : bool;
  ia_credentialIdList : list Z;
  ia_isHasRemoteTokenId : bool;
  ia_remoteTokenId : Z;
  ia_additionalInfo : bytes;
}.

(* @src I:struct IpcWidgetParamInner *)
Record IpcWidgetParamInner := mkIpcWidgetParam {
  iw_title : bytes;
  iw_navigationButtonText : bytes;
  iw_windowMode : Z;
  iw_hasContext : bool;
}.

(* @src I:struct IpcCredentialPara *)
Record IpcCredentialPara := mkIpcCredentialPara {
  ic_authType : Z;
  ic_pinType : Z;
  ic_token : bytes;
  ic_additionalInfo : bytes;
}.

(* @src I:struct IpcCredentialInfo *)
Record IpcCredentialInfo := mkIpcCredentialInfo {
  ii_authType : Z;
  ii_pinType : Z;
  ii_credentialId : Z;
  ii_templateId : Z;
  ii_isAbandoned : bool;
  ii_validityPeriod : Z;
}.

(* @src I:struct IpcGlobalConfigValue *)
Record IpcGlobalConfigValue := mkIpcGlobalConfigValue {
  ig_pinExpiredPeriod : Z;
  ig_enableStatus : bool;
  ig_pinAlgoType : Z;
  ig_disablePinDeletion : bool;
}.

(* @src I:struct IpcGlobalConfigParam *)
Record IpcGlobalConfigParam := mkIpcGlobalConfigParam {
  ig_type : Z;
  ig_value : IpcGlobalConfigValue;
  ig_userIds : list Z;
  ig_authTypes : list Z;
}.

(** ** The services' own records *)

(* @src CD:struct ReuseUnlockResult *)
Record ReuseUnlockResult := mkReuse { isReuse : bool; reuseMode : Z; reuseDuration : Z }.

(* @src UD:struct AuthParamInner *)
Record AuthParamInner := mkAuthParam {
  ap_userId : Z;
  ap_isUserIdSpecified : bool;
  ap_challenge : bytes;
  ap_authType : Z;
  ap_authTypes : list Z;
  ap_authTrustLevel : Z;
  ap_reuseUnlockResult : ReuseUnlockResult;
  ap_authIntent : Z;
  ap_skipLockedBiometricAuth : bool;
  ap_credentialIdList : list Z;
  ap_remoteTokenId : option Z;
  ap_additionalInfo : bytes;
}.

(* @src UD:struct WidgetParamInner *)
Record WidgetParamInner := mkWidgetParam {
  wi_title : bytes;
  wi_navigationButtonText : bytes;
  wi_windowMode : Z;
  wi_hasContext : bool;
}.

(* @src CD:struct RemoteAuthParam *)
Record RemoteAuthParam := mkRemoteAuthParam {
  rp_verifierNetworkId : option bytes;
  rp_collectorNetworkId : option bytes;
  rp_collectorTokenId : option Z;
}.

(* @src AU:struct Authentication::AuthenticationPara *)
Record AuthenticationPara := mkAuthPara {
  pa_userId : Z;
  pa_authType : Z;
  pa_atl : Z;
  pa_tokenId : Z;
  pa_collectorTokenId : Z;
  pa_challenge : bytes;
  pa_endAfterFirstFail : bool;
  pa_callerName : bytes;
  pa_sdkVersion : Z;
  pa_callerType : TokenType;
  pa_authIntent : Z;
  pa_isOsAccountVerified : bool;
  pa_skipLockedBiometricAuth : bool;
  pa_credentialIdList : list Z;
  pa_title : bytes;
  pa_authScene : Z;
  pa_callerPermissions : Z;
}.

(* @src CF:struct ContextFactory::AuthProfile *)
Record AuthProfile := mkAuthProfile {
  pinSubType : Z;
  sensorInfo : bytes;
  remainTimes : Z;
  freezingTime : Z;
  nextPhaseFreezingTime : Z;
  cameraStatus : Z;
}.
Definition AuthProfile_new : AuthProfile := mkAuthProfile 0 [] 0 0 (-1) 0.

(* @src CF:struct ContextFactory::AuthWidgetContextPara *)
Record AuthWidgetContextPara := mkWidgetPara {
  wc_userId : Z;
  wc_sdkVersion : Z;
  wc_tokenId : Z;
  wc_callerName : bytes;
  wc_challenge : bytes;
  wc_authTypeList : list Z;
  wc_atl : Z;
  wc_widgetParam : WidgetParamInner;
  wc_authProfileMap : gmap Z AuthProfile;
  wc_callerType : TokenType;
  wc_callingAppID : bytes;
  wc_callingAppIdentifier : bytes;
  wc_isPinExpired : bool;
  wc_isOsAccountVerified : bool;
  wc_isBackgroundApplication : bool;
  wc_skipLockedBiometricAuth : bool;
  wc_credentialIdList : list Z;
  wc_remoteCallerName : bytes;
  wc_callerPermissions : Z;
}.

(* @src CF:struct ContextFactory::SudoAuthContextPara *)
Record SudoAuthContextPara := mkSudoPara {
  su_userId : Z;
  su_tokenId : Z;
  su_sdkVersion : Z;
  su_callerType : TokenType;
  su_callerName : bytes;
  su_challenge : bytes;
  su_atl : Z;
  su_additionalInfo : bytes;
  su_isOsAccountVerified : bool;
  su_needSubscribeAppState : bool;
}.

(* @src RA:struct RemoteAuthContextParam *)
Record RemoteAuthContextParam := mkRemoteContext {
  rc_authType : Z;
  rc_connectionName : bytes;
  rc_collectorNetworkId : bytes;
  rc_executorInfoMsg : bytes;
}.

(* @src RI:struct RemoteAuthInvokerContextParam *)
Record RemoteAuthInvokerContextParam := mkRemoteInvoker {
  ri_connectionName : bytes;
  ri_verifierNetworkId : bytes;
  ri_collectorNetworkId : bytes;
  ri_tokenId : Z;
  ri_collectorTokenId : Z;
  ri_callerName : bytes;
  ri_callerType : TokenType;
}.

(* @src LR:struct LocalRemoteAuthContextParam *)
Record LocalRemoteAuthContextParam := mkLocalRemote { lr_collectorNetworkId : bytes }.

(* @src IN:struct Identification::IdentificationPara *)
Record IdentificationPara := mkIdentify { id_authType : Z; id_tokenId : Z; id_challenge : bytes }.

(* @src EN:struct Enrollment::EnrollmentPara *)
Record EnrollmentPara := mkEnroll {
  en_userId : Z;
  en_authType : Z;
  en_pinType : Z;
  en_isUpdate : bool;
  en_tokenId : Z;
  en_token : bytes;
  en_callerName : bytes;
  en_sdkVersion : Z;
  en_callerType : TokenType;
  en_additionalInfo : bytes;
}.

(* @src DE:struct Deletion::DeleteParam *)
Record DeleteParam := mkDelete {
  de_userId : Z;
  de_credentialId : Z;
  de_tokenId : Z;
  de_callerName : bytes;
  de_callerType : TokenType;
  de_token : bytes;
}.

(* @src ID:struct CredentialInfo *)
Record CredentialInfo := mkCredentialInfo {
  ci_authType : Z;
  ci_pinType : option Z;
  ci_credentialId : Z;
  ci_templateId : Z;
  ci_isAbandoned : bool;
  ci_validityPeriod : Z;
}.

(* @src D:struct EnrolledInfo *)
Record EnrolledInfo := mkEnrolledInfo { ei_authType : Z; ei_enrolledId : Z }.

(* @src ID:struct SecUserInfo *)
Record SecUserInfo := mkSecUserInfo { si_secureUid : Z; si_enrolledInfo : list EnrolledInfo }.

(* @src ID:struct CredChangeEventInfo *)
Record CredChangeEventInfo := mkCredChange {
  cc_callerName : bytes;
  cc_callerType : TokenType;
  cc_credentialId : Z;
  cc_lastCredentialId : Z;
  cc_isSilentCredChange : bool;
}.

(** ** The engine's records *)

(* @src ET:struct EngCredentialInfo *)
Record EngCredentialInfo := mkEngCredential {
  ec_credentialId : Z;
  ec_executorIndex : Z;
  ec_templateId : Z;
  ec_authType : Z;
  ec_executorMatcher : Z;
  ec_executorSensorHint : Z;
  ec_authSubType : Z;
  ec_isAbandoned : bool;
  ec_validityPeriod : Z;
}.

(* @src ET:struct EngEnrolledState *)
Record EngEnrolledState := mkEnrolledState { es_credentialDigest : Z; es_credentialCount : Z }.

(* @src ET:struct EngReuseUnlockInfo *)
Record EngReuseUnlockInfo := mkReuseInfo {
  er_authType : Z;
  er_token : bytes;
  er_enrolledState : EngEnrolledState;
}.

(** What [QueryReusableAuthResult] fills in. *)
(* @src ET:struct EngReuseUnlockParam *)
Record EngReuseUnlockParam := mkReuseParam {
  eu_userId : Z;
  eu_authTrustLevel : Z;
  eu_challenge : bytes;
  eu_authTypes : list Z;
  eu_reuseUnlockResultDuration : Z;
  eu_reuseUnlockResultMode : Z;
}.

(** The union, by the member that is written. *)
(* @src ET:struct EngGlobalConfigValue *)
Inductive EngGlobalConfigValue :=
  | pinExpiredPeriod (v : Z)
  | enableStatus (v : bool)
  | pinAlgoType (v : Z)
  | disablePinDeletion (v : bool).

(* @src ET:struct EngGlobalConfigParam *)
Record EngGlobalConfigParam := mkEngGlobalConfig {
  gc_type : Z;
  gc_value : EngGlobalConfigValue;
  gc_userIds : list Z;
  gc_authTypes : list Z;
}.

(** The fields that [GetAuthTokenAttr] reads. *)
(* @src ET:struct EngUserAuthTokenPlain *)
Record EngUserAuthTokenPlain := mkTokenPlain {
  tp_version : Z;
  tp_userId : Z;
  tp_challenge : bytes;
  tp_timeInterval : Z;
  tp_authTrustLevel : Z;
  tp_authType : Z;
  tp_tokenType : Z;
  tp_secureUid : Z;
  tp_enrolledId : Z;
  tp_credentialId : Z;
}.

(* @src ET:struct EngUserInfo *)
Record EngUserInfo := mkEngUserInfo {
  ui_secureUid : Z;
  ui_pinSubType : Z;
  ui_enrolledInfos : list EnrolledInfo;
}.

(* @src ET:struct EngExtUserInfo *)
Record EngExtUserInfo := mkExtUserInfo { xu_userId : Z; xu_userInfo : EngUserInfo }.

(* @src ET:struct EngExecutorSendMsg *)
Record EngExecutorSendMsg := mkSendMsg { em_executorIndex : Z; em_commandId : Z; em_msg : bytes }.

(* @src ET:struct EngAuthResultInfo *)
Record EngAuthResultInfo := mkEngAuthResult {
  ea_result : Z;
  ea_authTrustLevel : option Z;
  ea_lockoutDuration : Z;
  ea_remainAttempts : Z;
  ea_msgs : list EngExecutorSendMsg;
  ea_token : bytes;
  ea_rootSecret : bytes;
  ea_userId : Z;
  ea_credentialId : Z;
  ea_pinExpiredInfo : Z;
  ea_remoteAuthResultMsg : bytes;
  ea_reEnrollFlag : bool;
}.

(* @src ET:struct EngIdentifyResultInfo *)
Record EngIdentifyResultInfo := mkEngIdentifyResult { eq_result : Z; eq_userId : Z; eq_token : bytes }.

(* @src ET:struct EngEnrollResultInfo *)
Record EngEnrollResultInfo := mkEngEnrollResult {
  el_credentialId : Z;
  el_oldInfo : EngCredentialInfo;
  el_rootSecret : bytes;
  el_oldRootSecret : bytes;
  el_authToken : bytes;
}.

(* @src ET:struct EngScheduleInfo *)
Record EngScheduleInfo := mkEngScheduleInfo {
  e_scheduleId : Z;
  e_templateIds : list Z;
  e_authType : Z;
  e_executorMatcher : Z;
  e_scheduleMode : Z;
  e_executorIndexes : list Z;
  e_executorMessages : list bytes;
}.

(* @src ET:struct EngAuthParamBase *)
Record EngAuthParamBase := mkAuthParamBase {
  eb_userId : Z;
  eb_authTrustLevel : Z;
  eb_executorSensorHint : Z;
  eb_challenge : bytes;
  eb_callerName : bytes;
  eb_callerType : Z;
  eb_apiVersion : Z;
  eb_callerPermissions : Z;
}.

(* @src ET:struct EngAuthParamExt *)
Record EngAuthParamExt := mkAuthParamExt {
  ex_baseParam : EngAuthParamBase;
  ex_authType : Z;
  ex_authIntent : Z;
  ex_isOsAccountVerified : bool;
  ex_collectorUdid : bytes;
  ex_credentialIdList : list Z;
}.

(* @src ET:struct EngEnrollParamExt *)
Record EngEnrollParamExt := mkEnrollParamExt {
  ee_authType : Z;
  ee_executorSensorHint : Z;
  ee_callerName : bytes;
  ee_callerType : Z;
  ee_apiVersion : Z;
  ee_userId : Z;
  ee_userType : Z;
  ee_authSubType : Z;
  ee_additionalInfo : bytes;
}.

(* @src ET:const CREDENTIAL_DELETE *)
Definition CREDENTIAL_DELETE : Z := 1.
(* @src ET:const CREDENTIAL_ABANDON *)
Definition CREDENTIAL_ABANDON : Z := 2.
(* @src ET:const PIN_UPDATE *)
Definition PIN_UPDATE : Z := 3.

(* @src ET:struct EngCredentialOperateResult *)
Record EngCredentialOperateResult := mkOperateResult {
  eo_operateType : Z;
  eo_scheduleInfo : EngScheduleInfo;
  eo_credentialInfos : list EngCredentialInfo;
}.

(* @src SH:32-43 ScheduleNodeHelper::NodeOptionalPara *)
Record NodeOptionalPara := mkPara {
  p_expire : option Z;
  p_tokenId : option Z;
  p_collectorTokenId : Z;
  p_pinSubType : option Z;
  p_endAfterFirstFail : option bool;
  p_authIntent : Z;
  p_userId : Z;
  p_additionalInfo : bytes;
  p_title : bytes;
  p_authScene : Z;
}.

(** A schedule node as a context sees it: what its getters return. *)
Record Schedule := mkSchedule {
  sc_id : Z;
  sc_authType : Z;
  sc_templateIdList : list Z;
  sc_authIntent : Z;
}.

(** ** Executors *)

(* @src CC:struct ExecutorInfo *)
Record ExecutorInfo := mkExecutorInfo {
  xi_authType : Z;
  xi_executorRole : Z;
  xi_executorSensorHint : Z;
  xi_executorMatcher : Z;
  xi_esl : Z;
  xi_maxTemplateAcl : Z;
  xi_publicKey : bytes;
  xi_deviceUdid : bytes;
  xi_signedRemoteExecutorInfo : bytes;
}.
(* @src D:306-306 INVALID_EXECUTOR_INDEX *)
Definition INVALID_EXECUTOR_INDEX : Z := 0.
