(* ===== verification/Platform.v ===== *)
(** * Calls that leave the services

    One constructor per call that the service code makes to something outside
    itself: the access token kit and the system abilities, the engine, the
    resource nodes, the context pool and the other managers, the callback of
    the caller, and the allocator ([MakeShared]). [answer] gives the type of
    what comes back. Trace calls ([SetTrace...]) and log lines are dropped. *)

From S2P Require Import Prelude Defines Interaction ServiceTypes Attributes.

(** The contexts that [ContextFactory] makes. *)
Inductive NewContext :=
  | SimpleAuthContext (para : AuthenticationPara) (needSubscribeAppState isPrimaryContext : bool)
  | RemoteAuthContext (para : AuthenticationPara) (param : RemoteAuthContextParam) (isPrimaryContext : bool)
  | RemoteAuthInvokerContext (authParam : AuthParamInner) (param : RemoteAuthInvokerContextParam)
  | LocalRemoteAuthContext (para : AuthenticationPara) (param : LocalRemoteAuthContextParam) (isPrimaryContext : bool)
  | IdentifyContext (para : IdentificationPara)
  | WidgetContext (para : AuthWidgetContextPara) (isPrimaryContext hasModalCallback hasRemoteAuthCallback : bool)
  | SudoAuthContext (para : SudoAuthContextPara)
  | EnrollContext (para : EnrollmentPara) (needSubscribeAppState : bool)
  | DeleteContext (para : DeleteParam)
  | ScheduleHolderContext (scheduleId : Z).

(** The tasks that the services post to other threads. *)
Inductive ServiceTask :=
  | TaskGetProperty (userId authType : Z) (keys : list Z)
  | TaskGetPropertyById (credentialId : Z) (keys : list Z)
  | TaskSetProperty (authType : Z) (attributes : bytes)
  | TaskPrepareRemoteAuth (networkId : bytes)
  | TaskDeleteTemplates (infos : list (Z * Z))
  | TaskSendExecutorMsg (executorIndex commandId : Z) (msg : bytes)
  | TaskStartAuthDelayed.

Inductive sys :=
  (* access token kit, IPC, application and account managers *)
  | VerifyAccessToken (tokenId : Z) (permission : string)
  | GetTokenTypeFlag (tokenId : Z)
  | GetHapTokenInfo (tokenId : Z)
  | GetNativeTokenInfo (tokenId : Z)
  | GetHapTokenInfoExtension (tokenId : Z)
  | IsSystemAppByFullTokenID (fullTokenId : Z)
  | GetForegroundApplications
  | GetSignatureInfoByUid (uid : Z)
  | GetForegroundOsAccountLocalId
  | QueryAllCreatedOsAccounts
  | QueryOsAccountVerified (userId : Z)
  | MakeShared (what : string)
  (* the engine *)
  | EngGetAvailableStatus (userId authType authTrustLevel : Z)
  | EngGetCredential (userId authType : Z)
  | EngGetCredentialById (credentialId : Z)
  | EngGetUserInfo (userId : Z)
  | EngDeleteUser (userId : Z) (authToken : bytes)
  | EngEnforceDeleteUser (userId : Z)
  | EngGetAllExtUserInfo
  | EngClearUnavailableCredential (userIds : list Z)
  | EngDeleteSubProfile (userId subProfileId : Z)
  | EngGetLatestEnrollmentTime (userId authType : Z)
  | EngOpenSession (userId : Z)
  | EngCloseSession (userId : Z)
  | EngGetEnrolledState (userId authType : Z)
  | EngGetValidSolution (userId : Z) (authTypes : list Z) (authTrustLevel : Z)
  | EngCheckReuseUnlockResult (param : EngReuseUnlockParam)
  | EngVerifyAuthToken (tokenIn : bytes) (allowableDuration : Z)
  | EngPrepareRemoteAuth (udid : bytes)
  | EngSetGlobalConfigParam (param : EngGlobalConfigParam)
  | EngSetUserConfigParam (param : EngGlobalConfigParam)
  | EngGetUserConfigParam (userId authType type : Z)
  | EngGetCapability
  (* resource nodes *)
  | EnumerateNodes
  | LockNode (node : Z)
  | SelectNode (executorIndex : Z)
  | NodeGetProperty (node : Z) (condition : Attributes)
  | NodeSetProperty (node : Z) (properties : Attributes)
  (* contexts and their pool *)
  | GetNewContextId
  | GetConnectionName (contextId : Z)
  | PoolSchedule (contextId : Z) (context : NewContext)
  | PoolSelect (contextId : Z)
  | PoolSelectEnroll
  | PoolCancel (contextId : Z)
  | ContextLatestError (contextId : Z)
  (* the caller's callbacks; [OnResult] of a context callback or of the raw one *)
  | OnResult (viaContext : bool) (resultCode : Z) (extraInfo : Attributes)
  | SetCleaner (contextId : Z)
  | OnGetExecutorPropertyResult (resultCode : Z) (values : bytes)
  | OnSetExecutorPropertyResult (resultCode : Z)
  | OnVerifyTokenResult (resultCode : Z) (extraInfo : bytes)
  | OnCredentialInfos (resultCode : Z) (infos : list IpcCredentialInfo)
  | OnSecureUserInfo (resultCode secureUid : Z) (infos : list EnrolledInfo)
  (* other components and libraries *)
  | GetSingleThreadInstance
  | PostTask (task : ServiceTask)
  | GetUdidByNetworkId (networkId : bytes)
  | GetLocalDeviceNetWorkId
  | AddRemoteAuthCallback (tokenId : Z)
  | DelRemoteAuthCallback (tokenId : Z)
  | GetRemoteAuthCallback (tokenId : Z)
  | WidgetOnNotice (noticeType : Z) (eventData : bytes)
  | SetWidgetCallback
  | SetAuthTokenId (tokenId : Z)
  | RegistEventListener (credChange : bool)
  | UnRegistEventListener (credChange : bool)
  | GetCachedUserRecognitionResult
  | RegisterRecognitionListener
  | UnregisterRecognitionListener
  | ReportAuthWidgetFault
  | SetSessionInfo (sessionInfo : bytes)
  | ParseJsonBool (text : bytes) (key : string)
  | PublishDeletedEvent (userId : Z)
  | OnNotifyCredChangeEvent (userId authType eventType : Z) (changeInfo : CredChangeEventInfo)
  | ProcessUserDeleted (userId : Z)
  (* the work of a context: the engine, schedules, events *)
  | EngBeginAuthenticationExt (contextId : Z) (param : EngAuthParamExt)
  | EngUpdateAuthenticationResult (contextId : Z) (scheduleResult : bytes)
  | EngCancelAuthentication (contextId : Z)
  | EngBeginIdentification (contextId authType : Z) (challenge : bytes) (executorSensorHint : Z)
  | EngUpdateIdentificationResult (contextId : Z) (scheduleResult : bytes)
  | EngCancelIdentification (contextId : Z)
  | EngBeginEnrollmentExt (authToken : bytes) (param : EngEnrollParamExt)
  | EngUpdateEnrollmentResult (userId : Z) (scheduleResult : bytes)
  | EngCancelEnrollment (userId : Z)
  | EngDeleteCredential (userId credentialId : Z) (authToken : bytes)
  | EngUpdateAbandonResult (userId : Z) (scheduleResult : bytes)
  | EngGetAuthResultFromMessage (udid msg : bytes)
  | GetOsAccountType (userId : Z)
  | BuildFromHdi (infos : list EngScheduleInfo) (para : NodeOptionalPara)
  | StartSchedule (scheduleId : Z)
  | StopSchedule (scheduleId : Z)
  | LockVerifier (scheduleId : Z)
  | OnAcquireInfo (src moduleType : Z) (acquireMsg : bytes)
  | PostEvent (eventId : Z) (data : Attributes)
  | PublishCredentialUpdatedEvent (userId authType credentialCount : Z)
  | PublishCreatedEvent (userId scheduleId : Z)
  | PublishUpdatedEvent (userId credentialId : Z)
  | CachePinUpdateParam (userId scheduleId : Z) (changeInfo : CredChangeEventInfo)
  | CacheReEnrollFlag (reEnrollFlag : bool)
  | SaveCredentialUpdatedEvent (userId authType credentialCount : Z)
  | NotifyPreemptStateChanged
  (* other devices *)
  | GetLocalDeviceUdid
  | RegisterTimer (milliseconds : Z)
  | UnregisterTimer (timerId : Z)
  | CreateThreadHandler (name : bytes)
  | DestroyThreadHandler (name : bytes)
  | RegisterConnectionListener (connectionName endPointName : bytes)
  | UnregisterConnectionListener (connectionName endPointName : bytes)
  | OpenConnection (connectionName networkId : bytes) (tokenId : Z)
  | CloseConnection (connectionName : bytes)
  | SendMessage (connectionName srcEndPoint destEndPoint : bytes) (attributes : Attributes)
  | RegisterEndPointListener (endPointName : bytes)
  | RegisterExecutor (executorInfo : ExecutorInfo)
  | UnregisterExecutor (executorIndex : Z)
  | MessengerSendData (scheduleId dstRole : Z) (msg : bytes)
  | MessengerFinish (scheduleId resultCode : Z) (finalResult : Attributes)
  | EngGetSignedExecutorInfo (authTypes : list Z) (executorRole : Z) (remoteUdid : bytes)
  | EngGetLocalScheduleFromMessage (remoteUdid message : bytes)
  | EnumerateExecutors
  | NodeBeginExecute (node scheduleId : Z) (publicKey : bytes) (command : Attributes)
  | NodeSendData (node scheduleId : Z) (command : Attributes)
  | RegisterResourceNodePoolListener
  | DeregisterResourceNodePoolListener
  | PoolDelete (contextId : Z)
  | QueryActiveOsAccountIds
  (* a variable that the code reads without having set it *)
  | Uninitialized (what : string).

(** What comes back. A result code comes with the out parameters, whatever the
    code is; [None] stands for a failed query whose out parameters are not read. *)
Definition answer (q : sys) : Type :=
  match q with
  | VerifyAccessToken _ _ | IsSystemAppByFullTokenID _ | MakeShared _ | LockNode _ => bool
  | PoolSchedule _ _ | GetSingleThreadInstance | GetRemoteAuthCallback _ => bool
  | GetTokenTypeFlag _ => TokenType
  | GetHapTokenInfo _ => option (Z * bytes)
  | GetNativeTokenInfo _ | GetHapTokenInfoExtension _ => option bytes
  | GetForegroundApplications => option (list bytes)
  | GetSignatureInfoByUid _ => option (bytes * bytes)
  | GetForegroundOsAccountLocalId | SelectNode _ => option Z
  | QueryAllCreatedOsAccounts => option (list Z)
  | QueryOsAccountVerified _ | ParseJsonBool _ _ => option bool
  | EngGetAvailableStatus _ _ _ | EngGetLatestEnrollmentTime _ _ => Z * Z
  | EngGetCredential _ _ | EngEnforceDeleteUser _ | EngClearUnavailableCredential _ | EngDeleteSubProfile _ _ =>
      Z * list EngCredentialInfo
  | EngGetCredentialById _ => Z * EngCredentialInfo
  | EngGetUserInfo _ => Z * EngUserInfo
  | EngDeleteUser _ _ => Z * list EngCredentialInfo * bytes
  | EngGetAllExtUserInfo => Z * list EngExtUserInfo
  | EngOpenSession _ => Z * bytes
  | EngGetEnrolledState _ _ => Z * EngEnrolledState
  | EngGetValidSolution _ _ _ => Z * list Z
  | EngCheckReuseUnlockResult _ => Z * EngReuseUnlockInfo
  | EngVerifyAuthToken _ _ => Z * EngUserAuthTokenPlain * bytes
  | EngGetUserConfigParam _ _ _ => Z * Z * bool
  | EngCloseSession _ | EngPrepareRemoteAuth _ | EngSetGlobalConfigParam _ | EngSetUserConfigParam _ => Z
  | EngGetCapability | GetNewContextId | NodeSetProperty _ _ | ContextLatestError _ => Z
  | EnumerateNodes => list (Z * Z * Z)
  | NodeGetProperty _ _ => Z * Attributes
  | GetConnectionName _ | GetUdidByNetworkId _ | GetLocalDeviceNetWorkId => option bytes
  | PoolSelect _ => option Z
  | PoolSelectEnroll => list (option (Z * Z))
  | OnCredentialInfos _ _ | OnSecureUserInfo _ _ _ => Z
  | AddRemoteAuthCallback _ | WidgetOnNotice _ _ => Z
  | RegistEventListener _ | UnRegistEventListener _ | GetCachedUserRecognitionResult => Z
  | RegisterRecognitionListener | UnregisterRecognitionListener => Z
  | OnResult _ _ _ | SetCleaner _ | OnGetExecutorPropertyResult _ _ | OnSetExecutorPropertyResult _ => unit
  | OnVerifyTokenResult _ _ | PoolCancel _ | PostTask _ | DelRemoteAuthCallback _ | SetWidgetCallback => unit
  | SetAuthTokenId _ | ReportAuthWidgetFault | SetSessionInfo _ | PublishDeletedEvent _ => unit
  | OnNotifyCredChangeEvent _ _ _ _ | ProcessUserDeleted _ => unit
  | EngBeginAuthenticationExt _ _ => Z * list EngScheduleInfo
  | EngUpdateAuthenticationResult _ _ => Z * EngAuthResultInfo * EngEnrolledState
  | EngBeginIdentification _ _ _ _ | EngBeginEnrollmentExt _ _ => Z * EngScheduleInfo
  | EngUpdateIdentificationResult _ _ => Z * EngIdentifyResultInfo
  | EngUpdateEnrollmentResult _ _ => Z * EngEnrollResultInfo
  | EngDeleteCredential _ _ _ => Z * EngCredentialOperateResult
  | EngUpdateAbandonResult _ _ => Z * list EngCredentialInfo
  | EngGetAuthResultFromMessage _ _ => Z * EngAuthResultInfo
  | EngCancelAuthentication _ | EngCancelIdentification _ | EngCancelEnrollment _ => Z
  | GetOsAccountType _ => option bool
  | BuildFromHdi _ _ => option (list Schedule)
  | StartSchedule _ | StopSchedule _ => bool
  | LockVerifier _ => option Z
  | OnAcquireInfo _ _ _ | PostEvent _ _ | PublishCredentialUpdatedEvent _ _ _ | PublishCreatedEvent _ _ => unit
  | PublishUpdatedEvent _ _ | CachePinUpdateParam _ _ _ | CacheReEnrollFlag _ => unit
  | SaveCredentialUpdatedEvent _ _ _ | NotifyPreemptStateChanged => unit
  | GetLocalDeviceUdid => option bytes
  | RegisterTimer _ => Z
  | UnregisterTimer _ | CreateThreadHandler _ | DestroyThreadHandler _ => unit
  | UnregisterConnectionListener _ _ | CloseConnection _ => unit
  | RegisterConnectionListener _ _ | OpenConnection _ _ _ | SendMessage _ _ _ _ => Z
  | RegisterEndPointListener _ | RegisterExecutor _ | MessengerSendData _ _ _ | MessengerFinish _ _ _ => Z
  | NodeBeginExecute _ _ _ _ | NodeSendData _ _ _ => Z
  | UnregisterExecutor _ | DeregisterResourceNodePoolListener | PoolDelete _ => unit
  | EngGetSignedExecutorInfo _ _ _ => Z * bytes
  | EngGetLocalScheduleFromMessage _ _ => Z * EngScheduleInfo
  | EnumerateExecutors => list ExecutorInfo
  | RegisterResourceNodePoolListener => bool
  | QueryActiveOsAccountIds => option (list Z)
  | Uninitialized _ => Z
  end.

Abbreviation service := (prog answer).
Abbreviation trace := (list (event answer)).

(** The IPC state of the request that is being served. *)
Record Caller := mkCaller {
  firstTokenId : Z;
  callingTokenId : Z;
  callingUid : Z;
  callingFullTokenId : Z;
}.

(** ** The caller's side of a trace *)

Definition is_result (e : event answer) : bool :=
  match asked e with OnResult _ _ _ => true | _ => false end.

(** The pool took a context. *)
Definition is_scheduled (e : event answer) : bool :=
  match e with existT q r =>
    match q return answer q → bool with PoolSchedule _ _ => λ b, b | _ => λ _, false end r
  end.

Definition results (t : trace) : nat := tally is_result t.
Definition scheduled (t : trace) : nat := tally is_scheduled t.

Lemma results_app t u : results (t ++ u) = (results t + results u)%nat.
Proof. apply tally_app. Qed.

Lemma scheduled_app t u : scheduled (t ++ u) = (scheduled t + scheduled u)%nat.
Proof. apply tally_app. Qed.

(** ** A world for the examples

    The caller is a system service with every permission, allocations succeed,
    the engine and the executors agree to everything with empty results; the
    pool takes contexts or not. *)
Definition no_credential : EngCredentialInfo := mkEngCredential 0 0 0 0 0 0 0 false 0.
Definition no_schedule : EngScheduleInfo := mkEngScheduleInfo 0 [] 0 0 0 [] [].
Definition accepted : EngAuthResultInfo := mkEngAuthResult SUCCESS None 0 0 [] [] [] 0 0 0 [] false.
Definition world (pool : bool) : env answer := λ _ q,
  match q return answer q with
  | VerifyAccessToken _ _ | IsSystemAppByFullTokenID _ | MakeShared _ | LockNode _ => true
  | GetSingleThreadInstance | GetRemoteAuthCallback _ => true
  | PoolSchedule _ _ => pool
  | GetTokenTypeFlag _ => TOKEN_NATIVE
  | GetHapTokenInfo _ => Some (100, str "app")
  | GetNativeTokenInfo _ | GetHapTokenInfoExtension _ => Some (str "accountmgr")
  | GetForegroundApplications => Some [str "app"]
  | GetSignatureInfoByUid _ => Some (str "id", str "identifier")
  | GetForegroundOsAccountLocalId | SelectNode _ => Some 100
  | QueryAllCreatedOsAccounts => Some [100]
  | QueryOsAccountVerified _ | ParseJsonBool _ _ => Some true
  | EngGetAvailableStatus _ _ _ | EngGetLatestEnrollmentTime _ _ => (SUCCESS, 0)
  | EngGetCredential _ _ | EngEnforceDeleteUser _ | EngClearUnavailableCredential _ | EngDeleteSubProfile _ _ =>
      (SUCCESS, [])
  | EngGetCredentialById _ => (SUCCESS, no_credential)
  | EngGetUserInfo _ => (SUCCESS, mkEngUserInfo 0 0 [])
  | EngDeleteUser _ _ => (SUCCESS, [], [])
  | EngGetAllExtUserInfo => (SUCCESS, [])
  | EngOpenSession _ => (SUCCESS, [])
  | EngGetEnrolledState _ _ => (SUCCESS, mkEnrolledState 0 0)
  | EngGetValidSolution _ types _ => (SUCCESS, types)
  | EngCheckReuseUnlockResult _ => (FAIL, mkReuseInfo 0 [] (mkEnrolledState 0 0))
  | EngVerifyAuthToken _ _ => (SUCCESS, mkTokenPlain 0 0 [] 0 0 0 0 0 0 0, [])
  | EngGetUserConfigParam _ _ _ => (SUCCESS, 0, false)
  | EngCloseSession _ | EngPrepareRemoteAuth _ | EngSetGlobalConfigParam _ | EngSetUserConfigParam _ => SUCCESS
  | EngGetCapability => SUPPORT_USER_RECOGNITION
  | GetNewContextId => 7
  | NodeSetProperty _ _ => SUCCESS
  | ContextLatestError _ => GENERAL_ERROR
  | EnumerateNodes => []
  | NodeGetProperty _ _ => (SUCCESS, Attributes_new)
  | GetConnectionName _ | GetUdidByNetworkId _ | GetLocalDeviceNetWorkId => Some (replicate 64 Byte.x61)
  | PoolSelect _ => Some 0
  | PoolSelectEnroll => []
  | OnCredentialInfos _ _ | OnSecureUserInfo _ _ _ => SUCCESS
  | AddRemoteAuthCallback _ | WidgetOnNotice _ _ => SUCCESS
  | RegistEventListener _ | UnRegistEventListener _ | GetCachedUserRecognitionResult => SUCCESS
  | RegisterRecognitionListener | UnregisterRecognitionListener => SUCCESS
  | OnResult _ _ _ | SetCleaner _ | OnGetExecutorPropertyResult _ _ | OnSetExecutorPropertyResult _ => tt
  | OnVerifyTokenResult _ _ | PoolCancel _ | PostTask _ | DelRemoteAuthCallback _ | SetWidgetCallback => tt
  | SetAuthTokenId _ | ReportAuthWidgetFault | SetSessionInfo _ | PublishDeletedEvent _ => tt
  | OnNotifyCredChangeEvent _ _ _ _ | ProcessUserDeleted _ => tt
  | EngBeginAuthenticationExt _ _ => (SUCCESS, [no_schedule])
  | EngUpdateAuthenticationResult _ _ => (SUCCESS, accepted, mkEnrolledState 0 0)
  | EngBeginIdentification _ _ _ _ | EngBeginEnrollmentExt _ _ => (SUCCESS, no_schedule)
  | EngUpdateIdentificationResult _ _ => (SUCCESS, mkEngIdentifyResult 0 0 [])
  | EngUpdateEnrollmentResult _ _ => (SUCCESS, mkEngEnrollResult 0 no_credential [] [] [])
  | EngDeleteCredential _ _ _ => (SUCCESS, mkOperateResult CREDENTIAL_DELETE no_schedule [])
  | EngUpdateAbandonResult _ _ => (SUCCESS, [])
  | EngGetAuthResultFromMessage _ _ => (SUCCESS, accepted)
  | EngCancelAuthentication _ | EngCancelIdentification _ | EngCancelEnrollment _ => SUCCESS
  | GetOsAccountType _ => Some false
  | BuildFromHdi infos _ => Some (map (λ i, mkSchedule (e_scheduleId i) (e_authType i) (e_templateIds i) 0) infos)
  | StartSchedule _ | StopSchedule _ => true
  | LockVerifier _ => Some 0
  | OnAcquireInfo _ _ _ | PostEvent _ _ | PublishCredentialUpdatedEvent _ _ _ | PublishCreatedEvent _ _ => tt
  | PublishUpdatedEvent _ _ | CachePinUpdateParam _ _ _ | CacheReEnrollFlag _ => tt
  | SaveCredentialUpdatedEvent _ _ _ | NotifyPreemptStateChanged => tt
  | GetLocalDeviceUdid => Some (replicate 64 Byte.x61)
  | RegisterTimer _ => 1
  | UnregisterTimer _ | CreateThreadHandler _ | DestroyThreadHandler _ => tt
  | UnregisterConnectionListener _ _ | CloseConnection _ => tt
  | RegisterConnectionListener _ _ | OpenConnection _ _ _ | SendMessage _ _ _ _ => SUCCESS
  | RegisterEndPointListener _ | MessengerSendData _ _ _ | MessengerFinish _ _ _ => SUCCESS
  | RegisterExecutor _ => 5
  | NodeBeginExecute _ _ _ _ | NodeSendData _ _ _ => SUCCESS
  | UnregisterExecutor _ | DeregisterResourceNodePoolListener | PoolDelete _ => tt
  | EngGetSignedExecutorInfo _ _ _ => (SUCCESS, str "signed")
  | EngGetLocalScheduleFromMessage _ _ => (SUCCESS, no_schedule)
  | EnumerateExecutors => []
  | RegisterResourceNodePoolListener => true
  | QueryActiveOsAccountIds => Some [100]
  | Uninitialized _ => 0
  end.
