(* ===== verification/IpcCommon.v ===== *)
(** * Who is calling: IpcCommon

    Models services/core/src/ipc_common.cpp: the permission table and the
    queries about the caller of an IPC request. The build has the account part
    ([HAS_OS_ACCOUNT_PART]). The second half of the file states what a
    permission check proves about the trace ([granted]) and the lemma through
    which all clients use it. *)

From S2P Require Import Prelude Defines Interaction ServiceTypes Attributes Platform.

(* @file I = src/services/core/src/ipc_common.cpp *)

(** ** The caller *)

(* @src I IpcCommon::GetAccessTokenId *)
Definition GetAccessTokenId (c : Caller) : Z :=
  if decide (firstTokenId c = 0) then callingTokenId c else firstTokenId c.

(* @src I IpcCommon::GetTokenId *)
Definition GetTokenId (c : Caller) : Z := callingTokenId c.

(** The result code and the user, if there is one. *)
(* @src I IpcCommon::GetActiveUserId *)
Definition GetActiveUserId (userId : option Z) : service (Z * option Z) :=
  WHEN default 0 userId ≠ 0 RETURN mret (SUCCESS, userId) ;;
  ids ← call QueryActiveOsAccountIds;
  match ids with
  | Some (id :: _) => mret (SUCCESS, Some id)
  | _ => mret (GENERAL_ERROR, userId)
  end.

(** The result code, and the out parameter, which keeps its value on failure. *)
(* @src I IpcCommon::GetCallingUserId *)
Definition GetCallingUserId (c : Caller) (userId : Z) : service (Z * Z) :=
  let tokenId := GetAccessTokenId c in
  callingType ← call (GetTokenTypeFlag tokenId);
  CHECK callingType = TOKEN_HAP ELSE mret (TYPE_NOT_SUPPORT, userId) ;;
  result ← call (GetHapTokenInfo tokenId);
  match result with
  | None => mret (TYPE_NOT_SUPPORT, userId)
  | Some (hapUserId, _) =>
    WHEN hapUserId ≠ 0 RETURN mret (SUCCESS, hapUserId) ;;
    foreground ← call GetForegroundOsAccountLocalId;
    match foreground with
    | None => mret (TYPE_NOT_SUPPORT, userId)
    | Some userId => mret (SUCCESS, userId)
    end
  end.

(* @src I IpcCommon::GetAllUserId *)
Definition GetAllUserId (userIds : list Z) : service (Z * list Z) :=
  accountInfos ← call QueryAllCreatedOsAccounts;
  match accountInfos with
  | None => mret (GENERAL_ERROR, userIds)
  | Some [] => mret (SUCCESS, userIds)
  | Some ids => mret (SUCCESS, userIds ++ ids)
  end.

(* @src I IpcCommon::CheckForegroundApplication *)
Definition CheckForegroundApplication (bundleName : bytes) : service bool :=
  foregroundAppList ← call GetForegroundApplications;
  match foregroundAppList with
  | None => mret false
  | Some apps => mret (bool_decide (bundleName ∈ apps))
  end.

(** [callerType], [callerName] and whether both were found. *)
(* @src I IpcCommon::GetCallerNameByTokenId *)
Definition GetCallerNameByTokenId (tokenId : Z) (callerName : bytes) : service (bool * bytes * TokenType) :=
  callerType ← call (GetTokenTypeFlag tokenId);
  match callerType with
  | TOKEN_HAP =>
    info ← call (GetHapTokenInfo tokenId);
    match info with
    | None => mret (false, callerName, callerType)
    | Some (_, bundleName) => mret (true, bundleName, callerType)
    end
  | TOKEN_NATIVE =>
    info ← call (GetNativeTokenInfo tokenId);
    match info with
    | None => mret (false, callerName, callerType)
    | Some processName => mret (true, processName, callerType)
    end
  | _ => mret (false, callerName, callerType)
  end.

(* @src I IpcCommon::GetCallerName *)
Definition GetCallerName (c : Caller) (callerName : bytes) : service (bool * bytes * TokenType) :=
  GetCallerNameByTokenId (GetAccessTokenId c) callerName.

(* @src I GetAppIDAndIdentifierByUid *)
Definition GetAppIDAndIdentifierByUid (callingUid : Z) (callingAppID callingAppIdentifier : bytes) :
    service (bool * bytes * bytes) :=
  info ← call (GetSignatureInfoByUid callingUid);
  match info with
  | None => mret (false, callingAppID, callingAppIdentifier)
  | Some (appId, appIdentifier) =>
    WHEN appId = [] RETURN mret (false, callingAppID, callingAppIdentifier) ;;
    mret (true, appId, appIdentifier)
  end.

(* @src I IpcCommon::GetCallingAppID *)
Definition GetCallingAppID (c : Caller) : service (bool * bytes * bytes) :=
  let tokenId := GetAccessTokenId c in
  callerTypeTemp ← call (GetTokenTypeFlag tokenId);
  CHECK callerTypeTemp = TOKEN_HAP ELSE mret (false, [], []) ;;
  WHEN firstTokenId c = 0 RETURN GetAppIDAndIdentifierByUid (callingUid c) [] [] ;;
  info ← call (GetHapTokenInfoExtension tokenId);
  match info with
  | None => mret (false, [], [])
  | Some appID => mret (true, appID, [])
  end.

(* @src I IpcCommon::GetDirectCallerType *)
Definition GetDirectCallerType (c : Caller) : service TokenType := call (GetTokenTypeFlag (GetTokenId c)).

(* @src I IpcCommon::IsOsAccountVerified *)
Definition IsOsAccountVerified (userId : Z) : service bool :=
  verified ← call (QueryOsAccountVerified userId);
  match verified with
  | None => mret false
  | Some isOsAccountVerified => mret isOsAccountVerified
  end.

(** [osAccountType] is whether the account is a private one. *)
(* @src I:142-151 MapOsAccountTypeToUserType *)
Definition MapOsAccountTypeToUserType (userId : Z) (isPrivate : bool) : Z :=
  if isPrivate then ENG_USER_PRIVATE else if decide (userId = MAIN_USER_ID) then ENG_USER_MAIN else ENG_USER_SUB.

(* @src I IpcCommon::GetUserTypeByUserId *)
Definition GetUserTypeByUserId (userId : Z) : service (option Z) :=
  osAccountType ← call (GetOsAccountType userId);
  match osAccountType with
  | None => mret None
  | Some isPrivate => mret (Some (MapOsAccountTypeToUserType userId isPrivate))
  end.

(* @src I IpcCommon::GetEngCallerType *)
Definition GetEngCallerType (callerType : TokenType) : option Z :=
  match callerType with
  | TOKEN_HAP => Some ENG_CALLER_TYPE_HAP
  | TOKEN_NATIVE => Some ENG_CALLER_TYPE_NATIVE
  | _ => None
  end.

(** ** Permissions *)

(* @src I IpcCommon::CheckDirectCallerAndFirstCallerIfSet *)
Definition CheckDirectCallerAndFirstCallerIfSet (c : Caller) (permission : string) : service bool :=
  let checkCalling := call (VerifyAccessToken (GetTokenId c) permission) in
  WHEN firstTokenId c = 0 RETURN checkCalling ;;
  first ← call (VerifyAccessToken (firstTokenId c) permission);
  if (first : bool) then checkCalling else mret false.

(* @src I IpcCommon::CheckDirectCaller *)
Definition CheckDirectCaller (c : Caller) (permission : string) : service bool :=
  call (VerifyAccessToken (GetTokenId c) permission).

(* @src I IpcCommon::CheckCallerIsSystemApp *)
Definition CheckCallerIsSystemApp (c : Caller) : service bool :=
  checkRet ← call (IsSystemAppByFullTokenID (callingFullTokenId c));
  callingType ← call (GetTokenTypeFlag (GetTokenId c));
  mret (checkRet && bool_decide (callingType = TOKEN_HAP)).

(* @src I:59-61 enforceUserIdmWhiteLists *)
Definition enforceUserIdmWhiteLists : list (Z * bytes) := [(3058, str "accountmgr")].

(* @src I IpcCommon::GetWhiteLists *)
Definition GetWhiteLists (permission : Permission) : list (Z * bytes) :=
  match permission with ENFORCE_USER_IDM => enforceUserIdmWhiteLists | _ => [] end.

(* @src I IpcCommon::CheckNativeCallingProcessWhiteList *)
Definition CheckNativeCallingProcessWhiteList (c : Caller) (permission : Permission) : service bool :=
  let tokenId := GetTokenId c in
  callingType ← call (GetTokenTypeFlag tokenId);
  CHECK callingType = TOKEN_NATIVE ELSE mret false ;;
  info ← call (GetNativeTokenInfo tokenId);
  match info with
  | None => mret false
  | Some processName => mret (bool_decide ((callingUid c, processName) ∈ GetWhiteLists permission))
  end.

(** The strings of [PermissionString]. *)
(* @src I:43-56 PermissionString *)
Definition permission_string (permission : Permission) : string :=
  match permission with
  | MANAGE_USER_IDM_PERMISSION => "ohos.permission.MANAGE_USER_IDM"
  | USE_USER_IDM_PERMISSION => "ohos.permission.USE_USER_IDM"
  | ACCESS_USER_AUTH_INTERNAL_PERMISSION => "ohos.permission.ACCESS_USER_AUTH_INTERNAL"
  | ACCESS_BIOMETRIC_PERMISSION => "ohos.permission.ACCESS_BIOMETRIC"
  | ACCESS_USER_PASSIVE_RECOGNITION_PERMISSION => "ohos.permission.ACCESS_USER_PASSIVE_RECOGNITION"
  | ACCESS_AUTH_RESPOOL => "ohos.permission.ACCESS_AUTH_RESPOOL"
  | ENFORCE_USER_IDM | CLEAR_REDUNDANCY_PERMISSION => "ohos.permission.ENFORCE_USER_IDM"
  | SUPPORT_USER_AUTH => "ohos.permission.SUPPORT_USER_AUTH"
  | IS_SYSTEM_APP => ""
  | USE_USER_ACCESS_MANAGER => "ohos.permission.USE_USER_ACCESS_MANAGER"
  | USER_AUTH_FROM_BACKGROUND => "ohos.permission.USER_AUTH_FROM_BACKGROUND"
  | ENTERPRISE_DEVICE_MGR => "ohos.permission.MANAGE_EDM_POLICY"
  | ENTERPRISE_MANAGE_SECURITY => "ohos.permission.ENTERPRISE_MANAGE_SECURITY"
  end%string.

(* @src I IpcCommon::CheckPermission *)
Definition CheckPermission (c : Caller) (permission : Permission) : service bool :=
  let name := permission_string permission in
  match permission with
  | MANAGE_USER_IDM_PERMISSION | USE_USER_IDM_PERMISSION | ACCESS_USER_AUTH_INTERNAL_PERMISSION
  | ACCESS_BIOMETRIC_PERMISSION | ACCESS_USER_PASSIVE_RECOGNITION_PERMISSION | SUPPORT_USER_AUTH
  | USER_AUTH_FROM_BACKGROUND => CheckDirectCallerAndFirstCallerIfSet c name
  | ACCESS_AUTH_RESPOOL | CLEAR_REDUNDANCY_PERMISSION | USE_USER_ACCESS_MANAGER
  | ENTERPRISE_DEVICE_MGR | ENTERPRISE_MANAGE_SECURITY => CheckDirectCaller c name
  | ENFORCE_USER_IDM =>
    ok ← CheckDirectCaller c name;
    if (ok : bool) then CheckNativeCallingProcessWhiteList c permission else mret false
  | IS_SYSTEM_APP => CheckCallerIsSystemApp c
  end.

(** ** What a check proves *)

(** Calls that only look at the caller, the accounts or the heap. *)
Definition kit (q : sys) : bool :=
  match q with
  | VerifyAccessToken _ _ | GetTokenTypeFlag _ | GetHapTokenInfo _ | GetNativeTokenInfo _
  | GetHapTokenInfoExtension _ | IsSystemAppByFullTokenID _ | GetForegroundApplications
  | GetSignatureInfoByUid _ | GetForegroundOsAccountLocalId | QueryAllCreatedOsAccounts
  | QueryOsAccountVerified _ | MakeShared _ => true
  | _ => false
  end.

Definition answered (t : trace) (q : sys) (r : answer q) : Prop := existT q r ∈ t.

Definition holds (c : Caller) (permission : string) (t : trace) : Prop :=
  answered t (VerifyAccessToken (callingTokenId c) permission) true.

(** The request carries the permission: the kit confirmed it in this trace. *)
Definition granted (c : Caller) (permission : Permission) (t : trace) : Prop :=
  let name := permission_string permission in
  match permission with
  | MANAGE_USER_IDM_PERMISSION | USE_USER_IDM_PERMISSION | ACCESS_USER_AUTH_INTERNAL_PERMISSION
  | ACCESS_BIOMETRIC_PERMISSION | ACCESS_USER_PASSIVE_RECOGNITION_PERMISSION | SUPPORT_USER_AUTH
  | USER_AUTH_FROM_BACKGROUND =>
    holds c name t ∧ (firstTokenId c ≠ 0 → answered t (VerifyAccessToken (firstTokenId c) name) true)
  | ACCESS_AUTH_RESPOOL | CLEAR_REDUNDANCY_PERMISSION | USE_USER_ACCESS_MANAGER
  | ENTERPRISE_DEVICE_MGR | ENTERPRISE_MANAGE_SECURITY => holds c name t
  | ENFORCE_USER_IDM =>
    holds c name t ∧ answered t (GetTokenTypeFlag (callingTokenId c)) TOKEN_NATIVE ∧
    callingUid c = 3058 ∧ answered t (GetNativeTokenInfo (callingTokenId c)) (Some (str "accountmgr"))
  | IS_SYSTEM_APP =>
    answered t (IsSystemAppByFullTokenID (callingFullTokenId c)) true ∧
    answered t (GetTokenTypeFlag (callingTokenId c)) TOKEN_HAP
  end.

Lemma answered_app t u q r : answered t q r → answered (t ++ u) q r.
Proof. unfold answered. rewrite elem_of_app. by left. Qed.

Lemma granted_app c p t u : granted c p t → granted c p (t ++ u).
Proof. destruct p; unfold granted, holds; simpl; intuition eauto using answered_app. Qed.

Lemma answered_snoc t q (r : answer q) : answered (t ++ [existT q r]) q r.
Proof. unfold answered. rewrite elem_of_app. right. by left. Qed.

Lemma granted_extends C c p t t' : extends C t t' → granted c p t → granted c p t'.
Proof. intros (u & -> & _). apply granted_app. Qed.

Lemma only_CheckPermission c p : only kit (CheckPermission c p).
Proof. destruct p; unfold CheckPermission, CheckDirectCallerAndFirstCallerIfSet, CheckDirectCaller,
  CheckCallerIsSystemApp, CheckNativeCallingProcessWhiteList; only_steps. Qed.
#[export] Hint Resolve only_CheckPermission : service.

Lemma only_GetCallingUserId c u : only kit (GetCallingUserId c u).
Proof. unfold GetCallingUserId. only_steps. Qed.
Lemma only_GetAllUserId ids : only kit (GetAllUserId ids).
Proof. unfold GetAllUserId. only_steps. Qed.
Lemma only_CheckForegroundApplication b : only kit (CheckForegroundApplication b).
Proof. unfold CheckForegroundApplication. only_steps. Qed.
Lemma only_GetCallerNameByTokenId tok n : only kit (GetCallerNameByTokenId tok n).
Proof. unfold GetCallerNameByTokenId. only_steps. Qed.
Lemma only_GetCallerName c n : only kit (GetCallerName c n).
Proof. apply only_GetCallerNameByTokenId. Qed.
Lemma only_GetCallingAppID c : only kit (GetCallingAppID c).
Proof. unfold GetCallingAppID, GetAppIDAndIdentifierByUid. only_steps. Qed.
Lemma only_GetDirectCallerType c : only kit (GetDirectCallerType c).
Proof. unfold GetDirectCallerType. only_steps. Qed.
Lemma only_IsOsAccountVerified u : only kit (IsOsAccountVerified u).
Proof. unfold IsOsAccountVerified. only_steps. Qed.
#[export] Hint Resolve only_GetCallingUserId only_GetAllUserId only_CheckForegroundApplication
  only_GetCallerNameByTokenId only_GetCallerName only_GetCallingAppID only_GetDirectCallerType
  only_IsOsAccountVerified : service.

Lemma extends_kit_snoc t t' q (r : answer q) : kit q = true → extends kit t t' → extends kit t (t' ++ [existT q r]).
Proof. apply extends_snoc. Qed.
#[export] Hint Resolve extends_refl extends_kit_snoc answered_app answered_snoc : service.

(** A check only looks, and what it answers is backed by the trace. *)
Lemma wp_CheckPermission P c p t (Φ : bool → trace → Prop) :
  (∀ t q, kit q = true → P t q) →
  (∀ b t', extends kit t t' → (b = true → granted c p t') → Φ b t') →
  wp P (CheckPermission c p) t Φ.
Proof.
  intros HP HΦ.
  destruct p; unfold CheckPermission, CheckDirectCallerAndFirstCallerIfSet, CheckDirectCaller,
    CheckCallerIsSystemApp, CheckNativeCallingProcessWhiteList; repeat step; try (by apply HP);
    (apply HΦ; [by auto 6 with service|]); try done; intros Hb; simpl in *; subst;
    try match goal with H : andb _ _ = true |- _ => apply andb_prop in H as [-> ->%bool_decide_eq_true] end;
    try match goal with H : bool_decide (_ ∈ enforceUserIdmWhiteLists) = true |- _ =>
      apply bool_decide_eq_true, list_elem_of_singleton in H; injection H as H ->; rewrite H end;
    unfold granted, holds, GetTokenId in *; repeat split; intros; auto with service; try congruence.
Qed.

#[global] Arguments granted : simpl never.

(** The two outcomes of a check, for the proofs of the callers. *)
Lemma wp_check P c p t (Φ : bool → trace → Prop) :
  (∀ t q, kit q = true → P t q) →
  (∀ t', extends kit t t' → granted c p t' → Φ true t') →
  (∀ t', extends kit t t' → Φ false t') →
  wp P (CheckPermission c p) t Φ.
Proof. intros HP HT HF. apply wp_CheckPermission; [done|]. intros [] t' Ht Hg; auto. Qed.

(** A query about the caller that needs no other result. *)
Lemma wp_kit P {A} (m : service A) t (Φ : A → trace → Prop) :
  only kit m → (∀ t q, kit q = true → P t q) → (∀ a t', extends kit t t' → Φ a t') → wp P m t Φ.
Proof. apply wp_only. Qed.

Lemma answered_extends C t t' q r : extends C t t' → answered t q r → answered t' q r.
Proof. intros (u & -> & _). apply answered_app. Qed.

(** ** Who the caller is *)

(** The bundle name of the calling application. *)
Definition bundle (c : Caller) (name : bytes) (t : trace) : Prop :=
  ∃ userId, answered t (GetHapTokenInfo (GetAccessTokenId c)) (Some (userId, name)).

(** The user of the calling application, as [GetCallingUserId] finds it. *)
Definition calling_user (c : Caller) (userId : Z) (t : trace) : Prop :=
  answered t (GetTokenTypeFlag (GetAccessTokenId c)) TOKEN_HAP ∧
  ((∃ name, answered t (GetHapTokenInfo (GetAccessTokenId c)) (Some (userId, name)) ∧ userId ≠ 0) ∨
   (∃ name, answered t (GetHapTokenInfo (GetAccessTokenId c)) (Some (0, name)) ∧
     answered t GetForegroundOsAccountLocalId (Some userId))).

Lemma bundle_extends C c name t t' : extends C t t' → bundle c name t → bundle c name t'.
Proof. intros E (u & H). exists u. by eapply answered_extends. Qed.

Lemma calling_user_extends C c u t t' : extends C t t' → calling_user c u t → calling_user c u t'.
Proof.
  intros E (H1 & H2). split; [by eapply answered_extends|].
  destruct H2 as [(n & H2 & ?)|(n & H2 & H3)]; [left|right]; exists n; split; try done; by eapply answered_extends.
Qed.

Lemma wp_GetCallingUserId P c u t (Φ : Z * Z → trace → Prop) :
  (∀ t q, kit q = true → P t q) →
  (∀ ret userId t', extends kit t t' → (ret = SUCCESS → calling_user c userId t') → Φ (ret, userId) t') →
  wp P (GetCallingUserId c u) t Φ.
Proof.
  intros HP HΦ. unfold GetCallingUserId. repeat step; try (by apply HP);
    (apply HΦ; [by auto 6 with service|]); try done; intros _; subst.
  - split; [auto with service|]. left. eauto 6 with service.
  - apply dec_stable in n. subst. split; [auto with service|]. right. eauto 6 with service.
Qed.

Lemma wp_GetCallerName P c t (Φ : bool * bytes * TokenType → trace → Prop) :
  (∀ t q, kit q = true → P t q) →
  (∀ found name ty t', extends kit t t' → answered t' (GetTokenTypeFlag (GetAccessTokenId c)) ty →
    (ty = TOKEN_HAP → found = true ∧ bundle c name t' ∨ found = false ∧ name = []) → Φ (found, name, ty) t') →
  wp P (GetCallerName c []) t Φ.
Proof.
  intros HP HΦ. unfold GetCallerName, GetCallerNameByTokenId. repeat step; try (by apply HP);
    (apply HΦ; [by auto 6 with service|by auto with service|]); try done; intros _; subst; auto.
  left. split; [done|]. eexists. auto with service.
Qed.

Lemma wp_CheckForegroundApplication P name t (Φ : bool → trace → Prop) :
  (∀ t q, kit q = true → P t q) →
  (∀ b t', extends kit t t' →
    (b = true → ∃ apps, answered t' GetForegroundApplications (Some apps) ∧ name ∈ apps) → Φ b t') →
  wp P (CheckForegroundApplication name) t Φ.
Proof.
  intros HP HΦ. unfold CheckForegroundApplication. repeat step; try (by apply HP);
    (apply HΦ; [by auto 6 with service|]); try done; subst.
  intros H%bool_decide_eq_true. eauto with service.
Qed.
