(* ===== verification/RemoteMsg.v ===== *)
(** * Messages between devices

    Models services/core/src/remote_msg_util.cpp (what the messages carry) and
    services/remote_connect/default/src/soft_bus_message.cpp (the envelope).
    The id of this device, [udid], is the answer of the device manager; [alloc]
    tells whether an allocation succeeds. *)

From S2P Require Import Prelude Defines AttributesImpl Attributes ServiceTypes.

(* @file M = src/services/core/src/remote_msg_util.cpp *)
(* @file B = src/services/remote_connect/default/src/soft_bus_message.cpp *)
(* @file BH = src/services/remote_connect/default/inc/soft_bus_message.h *)
(* @file RM = src/services/remote_connect/inc/remote_message.h *)
(* @file DM = src/services/remote_connect/inc/device_manager_util.h *)

(** ** The name of a connection

    It is made of the head of this device's network id and the low bits of the
    context's id. *)

(* @src M:const TRUCKED_NETWORK_ID_PRINT_LEN *)
Definition TRUCKED_NETWORK_ID_PRINT_LEN : nat := 4.
(* @src M:const TRUCKED_CONTEXT_ID_PRINT_LEN *)
Definition TRUCKED_CONTEXT_ID_PRINT_LEN : nat := 4.

(** [std::setw] pads with zeros, and a number of 16 bits has at most four digits. *)
(* @src M RemoteMsgUtil::GetConnectionName *)
Definition GetConnectionName (contextId : Z) (networkId : option bytes) : option bytes :=
  networkId ← networkId;
  Some (take TRUCKED_NETWORK_ID_PRINT_LEN networkId ++ str ":" ++
    hex_digits TRUCKED_CONTEXT_ID_PRINT_LEN (wrapU 16 contextId)).

(* @src DM:const DEFAULT_MESSAGE_VERSION *)
Definition DEFAULT_MESSAGE_VERSION : Z := 0.
(* @src RM:const START_REMOTE_AUTH *)
Definition START_REMOTE_AUTH : Z := 1.
(* @src RM:const QUERY_EXECUTOR_INFO *)
Definition QUERY_EXECUTOR_INFO : Z := 4.
(* @src RM:const BEGIN_EXECUTE *)
Definition BEGIN_EXECUTE : Z := 5.
(* @src RM:const END_EXECUTE *)
Definition END_EXECUTE : Z := 6.
(* @src RM:const KEEP_ALIVE *)
Definition KEEP_ALIVE : Z := 10.
(* @src RM:const SEND_REMOTE_AUTH_TIP *)
Definition SEND_REMOTE_AUTH_TIP : Z := 2.
(* @src RM:const SEND_REMOTE_AUTH_RESULT *)
Definition SEND_REMOTE_AUTH_RESULT : Z := 3.
(* @src RM:const SEND_DATA_TO_EXECUTOR *)
Definition SEND_DATA_TO_EXECUTOR : Z := 7.
(* @src RM:const EXECUTOR_FINISH *)
Definition EXECUTOR_FINISH : Z := 8.
(* @src RM:const EXECUTOR_SEND_DATA *)
Definition EXECUTOR_SEND_DATA : Z := 9.
(* @src RM:48-48 EXECUTOR_PROXY_ENDPOINT_NAME *)
Definition EXECUTOR_PROXY_ENDPOINT_NAME : bytes := str "RemoteExecutorProxy".
(* @src RM:49-49 EXECUTOR_STUB_ENDPOINT_NAME *)
Definition EXECUTOR_STUB_ENDPOINT_NAME : bytes := str "RemoteExecutorStub".
(* @src RM:50-50 REMOTE_SERVICE_ENDPOINT_NAME *)
Definition REMOTE_SERVICE_ENDPOINT_NAME : bytes := str "RemoteService".
(* @src RM:51-51 REMOTE_CALLBACK_ENDPOINT_NAME *)
Definition REMOTE_CALLBACK_ENDPOINT_NAME : bytes := str "RemoteCallback".
(* @src RM:52-52 REMOTE_AUTH_CONTEXT_ENDPOINT_NAME *)
Definition REMOTE_AUTH_CONTEXT_ENDPOINT_NAME : bytes := str "RemoteAuthContext".
(* @src RM:53-53 REMOTE_AUTH_INVOKER_CONTEXT_ENDPOINT_NAME *)
Definition REMOTE_AUTH_INVOKER_CONTEXT_ENDPOINT_NAME : bytes := str "RemoteAuthInvokerContext".

(** ** The information about an executor *)

(* @src M RemoteMsgUtil::SetExecutorInfoToAttributes *)
Definition SetExecutorInfoToAttributes (e : ExecutorInfo) (attr : Attributes) : Attributes * bool :=
  set_all attr [
    (λ a, SetInt32Value a ATTR_AUTH_TYPE (xi_authType e));
    (λ a, SetInt32Value a ATTR_EXECUTOR_ROLE (xi_executorRole e));
    (λ a, SetUint32Value a ATTR_EXECUTOR_SENSOR_HINT (xi_executorSensorHint e));
    (λ a, SetUint32Value a ATTR_EXECUTOR_MATCHER (xi_executorMatcher e));
    (λ a, SetInt32Value a ATTR_ESL (xi_esl e));
    (λ a, SetUint8ArrayValue a ATTR_PUBLIC_KEY (xi_publicKey e));
    (λ a, SetStringValue a ATTR_DEVICE_UDID (xi_deviceUdid e))].

(** The information is a local variable of the caller, dropped on failure. *)
(* @src M RemoteMsgUtil::GetExecutorInfoFromAttributes *)
Definition GetExecutorInfoFromAttributes (attr : Attributes) (signedRemoteExecutorInfo : bytes) : option ExecutorInfo :=
  authType ← GetInt32Value attr ATTR_AUTH_TYPE;
  executorRole ← GetInt32Value attr ATTR_EXECUTOR_ROLE;
  executorSensorHint ← GetUint32Value attr ATTR_EXECUTOR_SENSOR_HINT;
  executorMatcher ← GetUint32Value attr ATTR_EXECUTOR_MATCHER;
  esl ← GetInt32Value attr ATTR_ESL;
  publicKey ← GetUint8ArrayValue attr ATTR_PUBLIC_KEY;
  deviceUdid ← GetStringValue attr ATTR_DEVICE_UDID;
  Some (mkExecutorInfo authType executorRole executorSensorHint executorMatcher esl 0 publicKey deviceUdid
    signedRemoteExecutorInfo).

(** The loop over the executors: each as a store of its own, which is
    serialized and parsed again. *)
Fixpoint executor_items (executorInfoArray : list ExecutorInfo) : option (list Attributes) :=
  match executorInfoArray with
  | [] => Some []
  | e :: executorInfoArray =>
    let '(item, ok) := SetExecutorInfoToAttributes e Attributes_new in
    CHECK ok = true ELSE None ;;
    rest ← executor_items executorInfoArray;
    Some (Attributes_of_raw (Serialize item) :: rest)
  end.

(* @src M RemoteMsgUtil::SetExecutorInfoArrayToAttributes *)
Definition SetExecutorInfoArrayToAttributes (executorInfoArray : list ExecutorInfo) (attr : Attributes) :
    Attributes * bool :=
  match executor_items executorInfoArray with
  | None => (attr, false)
  | Some attributeArray => SetAttributesArrayValue attr ATTR_EXECUTOR_REGISTER_INFO_LIST attributeArray
  end.

(** The loop over the items: the out parameter keeps what was read. *)
Fixpoint read_executors (signed : bytes) (items : list Attributes) (out : list ExecutorInfo) :
    bool * list ExecutorInfo :=
  match items with
  | [] => (true, out)
  | item :: items =>
    match GetExecutorInfoFromAttributes item signed with
    | None => (false, out)
    | Some executorInfo => read_executors signed items (out ++ [executorInfo])
    end
  end.

(** [None] when the array reader runs out of fuel, which does not happen. *)
(* @src M RemoteMsgUtil::GetExecutorInfoArrayFromAttributes *)
Definition GetExecutorInfoArrayFromAttributes (attr : Attributes) (signed : bytes) (out : list ExecutorInfo) :
    option (bool * list ExecutorInfo) :=
  '(ret, attributeArray) ← GetAttributesArrayValue attr ATTR_EXECUTOR_REGISTER_INFO_LIST [];
  CHECK ret = true ELSE Some (false, out) ;;
  Some (read_executors signed attributeArray out).

(* @src M RemoteMsgUtil::EncodeQueryExecutorInfoReply *)
Definition EncodeQueryExecutorInfoReply (executorInfoArray : list ExecutorInfo) (signedRemoteExecutorInfo : bytes)
    (attr : Attributes) : Attributes * bool :=
  CHECK executorInfoArray ≠ [] ELSE (attr, false) ;;
  let '(attr, ok) := SetUint8ArrayValue attr ATTR_REMOTE_EXECUTOR_INFO signedRemoteExecutorInfo in
  CHECK ok = true ELSE (attr, false) ;;
  SetExecutorInfoArrayToAttributes executorInfoArray attr.

(* @src M RemoteMsgUtil::DecodeQueryExecutorInfoReply *)
Definition DecodeQueryExecutorInfoReply (attr : Attributes) (out : list ExecutorInfo) :
    option (bool * list ExecutorInfo) :=
  match GetUint8ArrayValue attr ATTR_REMOTE_EXECUTOR_INFO with
  | None => Some (false, out)
  | Some signedRemoteExecutorInfo => GetExecutorInfoArrayFromAttributes attr signedRemoteExecutorInfo out
  end.

(** ** The parameters of an authentication *)

(** Four fields of [AuthParamInner]; the enumerations are read back by a cast
    to their underlying type. *)
(* @src M RemoteMsgUtil::EncodeAuthParam *)
Definition EncodeAuthParam (p : AuthParamInner) (attr : Attributes) : Attributes * bool :=
  set_all attr [
    (λ a, SetInt32Value a ATTR_USER_ID (ap_userId p));
    (λ a, SetUint8ArrayValue a ATTR_CHALLENGE (ap_challenge p));
    (λ a, SetInt32Value a ATTR_AUTH_TYPE (ap_authType p));
    (λ a, SetInt32Value a ATTR_AUTH_TRUST_LEVEL (wrapS 32 (ap_authTrustLevel p)))].

Definition AuthParam_new : AuthParamInner :=
  mkAuthParam 0 false [] 0 [] 0 (mkReuse false 0 0) 0 false [] None [].

Definition set_remote_fields (p : AuthParamInner) (userId : Z) (challenge : bytes) (authType atl : Z) : AuthParamInner :=
  mkAuthParam userId (ap_isUserIdSpecified p) challenge authType (ap_authTypes p) atl (ap_reuseUnlockResult p)
    (ap_authIntent p) (ap_skipLockedBiometricAuth p) (ap_credentialIdList p) (ap_remoteTokenId p) (ap_additionalInfo p).

(** What was read before a failure stays in the out parameter. *)
(* @src M RemoteMsgUtil::DecodeAuthParam *)
Definition DecodeAuthParam (attr : Attributes) (p : AuthParamInner) : AuthParamInner * bool :=
  let with_ u c ty atl := set_remote_fields p u c ty atl in
  match GetInt32Value attr ATTR_USER_ID with
  | None => (p, false)
  | Some u =>
    match GetUint8ArrayValue attr ATTR_CHALLENGE with
    | None => (with_ u (ap_challenge p) (ap_authType p) (ap_authTrustLevel p), false)
    | Some c =>
      match GetInt32Value attr ATTR_AUTH_TYPE with
      | None => (with_ u c (ap_authType p) (ap_authTrustLevel p), false)
      | Some ty =>
        match GetInt32Value attr ATTR_AUTH_TRUST_LEVEL with
        | None => (with_ u c ty (ap_authTrustLevel p), false)
        | Some atl => (with_ u c ty (wrapU 32 atl), true)
        end
      end
    end
  end.

(** ** The envelope *)

(* @src BH:51-57 SoftBusMessage *)
Record SoftBusMessage := mkMessage {
  messageSeq_ : Z;
  messageVersion_ : Z;
  connectionName_ : bytes;
  srcEndPoint_ : bytes;
  destEndPoint_ : bytes;
  attributes_ : option Attributes;
  isAck_ : bool;
}.

(* @src B SoftBusMessage::SoftBusMessage *)
Definition SoftBusMessage_new (messageSeq : Z) (connectionName srcEndPoint destEndPoint : bytes)
    (attributes : option Attributes) : SoftBusMessage :=
  mkMessage (wrapU 32 messageSeq) 0 connectionName srcEndPoint destEndPoint attributes false.

(* @src B SoftBusMessage::CreateMessage *)
Definition CreateMessage (m : SoftBusMessage) (isAck alloc : bool) (udid : option bytes) : option Attributes :=
  attributes ← attributes_ m;
  CHECK alloc = true ELSE None ;;
  let '(attributes, ret) := set_all (Attributes_of_raw (Serialize attributes)) [
    (λ a, SetInt32Value a ATTR_MSG_SEQ_NUM (wrapS 32 (messageSeq_ m)));
    (λ a, SetBoolValue a ATTR_MSG_ACK isAck);
    (λ a, SetStringValue a ATTR_MSG_SRC_END_POINT (srcEndPoint_ m));
    (λ a, SetStringValue a ATTR_MSG_DEST_END_POINT (destEndPoint_ m));
    (λ a, SetStringValue a ATTR_CONNECTION_NAME (connectionName_ m));
    (λ a, SetUint32Value a ATTR_MSG_VERSION DEFAULT_MESSAGE_VERSION)] in
  CHECK ret = true ELSE None ;;
  udid ← udid;
  let '(attributes, ret) := SetStringValue attributes ATTR_MSG_SRC_UDID udid in
  CHECK ret = true ELSE None ;;
  Some attributes.

(** One field after the other; a missing one leaves the rest as it was. *)
Definition read_header (attr : Attributes) (m : SoftBusMessage) : SoftBusMessage * bool :=
  match GetUint32Value attr ATTR_MSG_SEQ_NUM with
  | None => (m, false)
  | Some seq =>
    let m := mkMessage seq (messageVersion_ m) (connectionName_ m) (srcEndPoint_ m) (destEndPoint_ m) (attributes_ m) (isAck_ m) in
    match GetBoolValue attr ATTR_MSG_ACK with
    | None => (m, false)
    | Some ack =>
      let m := mkMessage seq (messageVersion_ m) (connectionName_ m) (srcEndPoint_ m) (destEndPoint_ m) (attributes_ m) ack in
      match GetStringValue attr ATTR_MSG_SRC_END_POINT with
      | None => (m, false)
      | Some src =>
        let m := mkMessage seq (messageVersion_ m) (connectionName_ m) src (destEndPoint_ m) (attributes_ m) ack in
        match GetStringValue attr ATTR_MSG_DEST_END_POINT with
        | None => (m, false)
        | Some dest =>
          let m := mkMessage seq (messageVersion_ m) (connectionName_ m) src dest (attributes_ m) ack in
          match GetStringValue attr ATTR_CONNECTION_NAME with
          | None => (m, false)
          | Some name =>
            let m := mkMessage seq (messageVersion_ m) name src dest (attributes_ m) ack in
            match GetUint32Value attr ATTR_MSG_VERSION with
            | None => (m, false)
            | Some version => (mkMessage seq version name src dest (attributes_ m) ack, true)
            end
          end
        end
      end
    end
  end.

(** [message] is not null. *)
(* @src B SoftBusMessage::ParseMessage *)
Definition ParseMessage (m : SoftBusMessage) (message : bytes) (alloc : bool) : SoftBusMessage * option Attributes :=
  WHEN message = [] RETURN (m, None) ;;
  CHECK alloc = true ELSE (m, None) ;;
  let attributes := Attributes_of_raw message in
  let '(m, ret) := read_header attributes m in
  CHECK ret = true ELSE (m, None) ;;
  (mkMessage (messageSeq_ m) (messageVersion_ m) (connectionName_ m) (srcEndPoint_ m) (destEndPoint_ m)
    (Some attributes) (isAck_ m), Some attributes).
