(* ===== verification/RemoteMsgThm.v ===== *)
(** * Messages between devices: what arrives

    A message that is built on one device, serialized, and parsed on another
    says there what it said here. *)

From S2P Require Import Prelude Defines AttributesImpl Attributes ServiceTypes RemoteMsg.

(** ** Stores that can be sent *)

Definition sendable (m : Impl) : Prop := wire_ok m ∧ transportable m.

Definition fits (b : bytes) : Prop := Z.of_nat (length b) ≤ MAX_ATTR_LENGTH.

Lemma sendable_empty : sendable ∅.
Proof. split; [apply map_Forall_empty|]. split; [done|apply map_Forall_empty]. Qed.

Lemma sendable_insert n m k b : sendable m → room (S n) m → in_u 32 k → fits b → sendable (<[k := b]> m).
Proof.
  intros [Hw [Hs Hl]] Hr Hk Hb.
  assert (map_Forall (λ _ v, Z.of_nat (length v) ≤ MAX_ATTR_LENGTH) (<[k := b]> m)) as Hl'
    by (by apply map_Forall_insert_2).
  split.
  - apply map_Forall_insert_2; [|done]. split; [done|]. unfold fits, MAX_ATTR_LENGTH, in_u in *. simpl. lia.
  - split; [|done]. apply (room_size n), room_insert, Hr.
Qed.

Lemma received m : sendable m → Attributes_of_raw (Serialize (Some m)) = Some m.
Proof. intros [Hw Ht]. unfold Attributes_of_raw. f_equal. by apply Impl_of_Serialize. Qed.

(** The encodings of numbers and of short texts fit. *)
Lemma encoded_i32 v : encoded EncodeInt32Value v = le_split 4 (wrapU 32 v).
Proof. unfold encoded, EncodeInt32Value. by rewrite encode_le by lia. Qed.
Lemma encoded_u32 v : encoded EncodeUint32Value v = le_split 4 v.
Proof. unfold encoded. by rewrite EncodeUint32Value_eq. Qed.
Lemma fits_split n z : (n ≤ 8)%nat → fits (le_split n z).
Proof. intros H. unfold fits. rewrite length_le_split. change MAX_ATTR_LENGTH with 81920. lia. Qed.
Lemma fits_i32 v : fits (encoded EncodeInt32Value v).
Proof. rewrite encoded_i32. apply fits_split. lia. Qed.
Lemma fits_u32 v : fits (encoded EncodeUint32Value v).
Proof. rewrite encoded_u32. apply fits_split. lia. Qed.
Lemma fits_bool v : fits (encoded EncodeBoolValue v).
Proof. unfold fits. by destruct v. Qed.
Lemma fits_bytes v : fits v → fits (encoded EncodeUint8ArrayValue v).
Proof. intros H. unfold encoded, EncodeUint8ArrayValue. by rewrite decide_False by (unfold fits in H; lia). Qed.
Lemma fits_string v : Z.of_nat (length v) < MAX_ATTR_LENGTH → fits (encoded EncodeStringValue v).
Proof.
  intros H. unfold encoded, EncodeStringValue. rewrite decide_False by lia. unfold fits. simpl. rewrite length_app. simpl. lia.
Qed.
Create HintDb remote discriminated.
#[export] Hint Resolve fits_i32 fits_u32 fits_bool fits_bytes fits_string room_insert : remote.

(** What a getter finds at a key that was set. *)
Lemma got_i32 m k v : in_s 32 v → m !! k = Some (encoded EncodeInt32Value v) → GetInt32Value (Some m) k = Some v.
Proof. intros Hv Hk. cbn. unfold AttributesImpl.GetInt32Value. rewrite Hk. apply (encoded_ok _ _ _ v i32_codec Hv). Qed.
Lemma got_u32 m k v : in_u 32 v → m !! k = Some (encoded EncodeUint32Value v) → GetUint32Value (Some m) k = Some v.
Proof. intros Hv Hk. cbn. unfold AttributesImpl.GetUint32Value. rewrite Hk. apply (encoded_ok _ _ _ v u32_codec Hv). Qed.
Lemma got_bool m k v : m !! k = Some (encoded EncodeBoolValue v) → GetBoolValue (Some m) k = Some v.
Proof. intros Hk. cbn. unfold AttributesImpl.GetBoolValue. rewrite Hk. by apply (encoded_ok _ _ _ v bool_codec). Qed.
Lemma got_bytes m k v : fits v → m !! k = Some (encoded EncodeUint8ArrayValue v) → GetUint8ArrayValue (Some m) k = Some v.
Proof. intros Hv Hk. cbn. unfold AttributesImpl.GetUint8ArrayValue. rewrite Hk. apply (encoded_ok _ _ _ v bytes_codec Hv). Qed.
Lemma got_string m k v : fits v → m !! k = Some (encoded EncodeStringValue v) → GetStringValue (Some m) k = Some v.
Proof. intros Hv Hk. cbn. unfold AttributesImpl.GetStringValue. rewrite Hk. apply (encoded_ok _ _ _ v string_codec Hv). Qed.

(** A sequence number is sent as a signed number and read as an unsigned one. *)
Lemma wrap_back v : in_u 32 v → wrapU 32 (wrapS 32 v) = v.
Proof.
  intros Hv. unfold wrapS. rewrite (wrapU_id 32 v) by done. cbv zeta. case_decide; [by apply wrapU_id|].
  unfold wrapU. replace (v - 2 ^ 32) with (v + (-1) * 2 ^ 32) by lia. rewrite Z.mod_add by lia. by apply Z.mod_small.
Qed.

Lemma got_seq m k v : in_u 32 v → m !! k = Some (encoded EncodeInt32Value (wrapS 32 v)) → GetUint32Value (Some m) k = Some v.
Proof. intros Hv Hk. apply got_u32; [done|]. by rewrite Hk, encoded_i32, encoded_u32, wrap_back. Qed.

(** Looks a key up among insertions of other keys. *)
Ltac find_key := repeat first [rewrite lookup_insert_eq; reflexivity | rewrite lookup_insert_ne by (vm_compute; discriminate)].

(** ** Executors *)

Definition executor_ok (e : ExecutorInfo) : Prop :=
  in_s 32 (xi_authType e) ∧ in_s 32 (xi_executorRole e) ∧ in_u 32 (xi_executorSensorHint e) ∧
  in_u 32 (xi_executorMatcher e) ∧ in_s 32 (xi_esl e) ∧ fits (xi_publicKey e) ∧
  Z.of_nat (length (xi_deviceUdid e)) < MAX_ATTR_LENGTH.

(** The store that stands for an executor. *)
Definition executor_store (e : ExecutorInfo) : Impl :=
  <[ATTR_DEVICE_UDID := encoded EncodeStringValue (xi_deviceUdid e)]>
  (<[ATTR_PUBLIC_KEY := encoded EncodeUint8ArrayValue (xi_publicKey e)]>
  (<[ATTR_ESL := encoded EncodeInt32Value (xi_esl e)]>
  (<[ATTR_EXECUTOR_MATCHER := encoded EncodeUint32Value (xi_executorMatcher e)]>
  (<[ATTR_EXECUTOR_SENSOR_HINT := encoded EncodeUint32Value (xi_executorSensorHint e)]>
  (<[ATTR_EXECUTOR_ROLE := encoded EncodeInt32Value (xi_executorRole e)]>
  (<[ATTR_AUTH_TYPE := encoded EncodeInt32Value (xi_authType e)]> ∅)))))).

(** What the other device makes of it: the limit of templates is not sent. *)
Definition remote_executor (signed : bytes) (e : ExecutorInfo) : ExecutorInfo :=
  mkExecutorInfo (xi_authType e) (xi_executorRole e) (xi_executorSensorHint e) (xi_executorMatcher e) (xi_esl e) 0
    (xi_publicKey e) (xi_deviceUdid e) signed.

(** One setter after the other, while there is room. *)
Ltac set_step :=
  first [erewrite set_bool by (eauto 12 with remote) | erewrite set_i32 by (eauto 12 with remote)
        |erewrite set_u32 by (eauto 12 with remote) | erewrite set_string by (eauto 12 with remote)
        |erewrite set_bytes by (eauto 12 with remote)]; cbn [set_all]; rewrite ?decide_True by done.

Lemma set_executor e : executor_ok e → SetExecutorInfoToAttributes e (Some ∅) = (Some (executor_store e), true).
Proof.
  intros (H1 & H2 & H3 & H4 & H5 & H6 & H7). assert (room 7 ∅) as Hr by done.
  assert (Z.of_nat (length (xi_deviceUdid e)) ≤ MAX_ATTR_LENGTH) by lia.
  unfold SetExecutorInfoToAttributes. cbn [set_all]. repeat set_step. reflexivity.
Qed.

(** The key and the size of everything that is inserted. *)
Ltac send_step :=
  eapply sendable_insert; [|by eauto 12 with remote|by vm_compute|by eauto with remote].

Lemma sendable_executor e : executor_ok e → sendable (executor_store e).
Proof.
  intros (H1 & H2 & H3 & H4 & H5 & H6 & H7). assert (room 7 ∅) as Hr by done.
  unfold executor_store. repeat send_step. apply sendable_empty.
Qed.

Lemma get_executor e signed :
  executor_ok e → GetExecutorInfoFromAttributes (Some (executor_store e)) signed = Some (remote_executor signed e).
Proof.
  intros (H1 & H2 & H3 & H4 & H5 & H6 & H7). unfold GetExecutorInfoFromAttributes, executor_store.
  rewrite (got_i32 _ ATTR_AUTH_TYPE (xi_authType e)) by (done || find_key). cbn [mbind option_bind].
  rewrite (got_i32 _ ATTR_EXECUTOR_ROLE (xi_executorRole e)) by (done || find_key). cbn [mbind option_bind].
  rewrite (got_u32 _ ATTR_EXECUTOR_SENSOR_HINT (xi_executorSensorHint e)) by (done || find_key). cbn [mbind option_bind].
  rewrite (got_u32 _ ATTR_EXECUTOR_MATCHER (xi_executorMatcher e)) by (done || find_key). cbn [mbind option_bind].
  rewrite (got_i32 _ ATTR_ESL (xi_esl e)) by (done || find_key). cbn [mbind option_bind].
  rewrite (got_bytes _ ATTR_PUBLIC_KEY (xi_publicKey e)) by (done || find_key). cbn [mbind option_bind].
  rewrite (got_string _ ATTR_DEVICE_UDID (xi_deviceUdid e)) by ((unfold fits; lia) || find_key). done.
Qed.

Lemma executor_items_eq infos :
  Forall executor_ok infos → executor_items infos = Some (Some <$> (executor_store <$> infos)).
Proof.
  induction 1 as [|e infos He _ IH]; [done|]. cbn [executor_items]. unfold Attributes_new.
  rewrite set_executor by done. rewrite decide_True by done. rewrite IH. cbn [mbind option_bind].
  by rewrite received by (by apply sendable_executor).
Qed.

Lemma read_executors_eq signed infos out :
  Forall executor_ok infos →
  read_executors signed (Some <$> (executor_store <$> infos)) out = (true, out ++ (remote_executor signed <$> infos)).
Proof.
  intros H. revert out. induction H as [|e infos He _ IH]; intros out; [by rewrite app_nil_r|].
  rewrite !fmap_cons. cbn [read_executors].
  rewrite get_executor by done. rewrite IH. by rewrite <- app_assoc.
Qed.

(** What a device answers about its executors arrives. For executors whose
    fields are in range and fit together into one attribute, the reply can be
    built in any store with room, and the device that parses its serialization
    reads the same executors in the same order, each with the signature of the
    reply and without the limit of templates, which is not sent. *)
Theorem executor_reply_roundtrip (m : Impl) infos signed out :
  infos ≠ [] → Forall executor_ok infos → fits (array_bytes (executor_store <$> infos)) → fits signed →
  sendable m → room 2 m →
  let '(attr, ok) := EncodeQueryExecutorInfoReply infos signed (Some m) in
  ok = true ∧
  DecodeQueryExecutorInfoReply (Attributes_of_raw (Serialize attr)) out =
    Some (true, out ++ (remote_executor signed <$> infos)).
Proof.
  intros Hne Hok Hfit Hs Hm Hr. unfold EncodeQueryExecutorInfoReply. rewrite decide_True by done.
  rewrite (set_bytes 2) by done. rewrite decide_True by done.
  unfold SetExecutorInfoArrayToAttributes. rewrite executor_items_eq by done.
  rewrite set_array_eq by (done || by apply (room_size 1), room_insert). split; [done|].
  rewrite received.
  2: { apply (sendable_insert 0); [|by apply room_insert|by vm_compute|exact Hfit].
       apply (sendable_insert 1); [exact Hm|exact Hr|by vm_compute|by apply fits_bytes]. }
  unfold DecodeQueryExecutorInfoReply. rewrite (got_bytes _ ATTR_REMOTE_EXECUTOR_INFO signed) by (done || find_key).
  unfold GetExecutorInfoArrayFromAttributes.
  rewrite (get_array_eq _ _ (executor_store <$> infos)).
  - cbn [mbind option_bind]. rewrite decide_True by done. by rewrite read_executors_eq.
  - find_key.
  - apply Forall_fmap. eapply Forall_impl; [exact Hok|]. intros e He. by apply sendable_executor.
  - unfold fits, MAX_ATTR_LENGTH, u32_max in *. lia.
Qed.

Definition demo_executor : ExecutorInfo := mkExecutorInfo PIN COLLECTOR 3 4 2 5 [Byte.x01] (str "udid") [].

Lemma executor_reply_roundtrip_witness :
  let '(attr, ok) := EncodeQueryExecutorInfoReply [demo_executor] [Byte.x07] (Some ∅) in
  ok = true ∧
  DecodeQueryExecutorInfoReply (Attributes_of_raw (Serialize attr)) [] =
    Some (true, [remote_executor [Byte.x07] demo_executor]).
Proof.
  apply (executor_reply_roundtrip ∅ [demo_executor] [Byte.x07] []).
  - discriminate.
  - apply Forall_singleton. apply (bool_decide_unpack _). vm_compute. exact I.
  - vm_compute. discriminate.
  - vm_compute. discriminate.
  - apply sendable_empty.
  - vm_compute. discriminate.
Defined.

(** ** Envelopes *)

Definition short_text (s : bytes) : Prop := Z.of_nat (length s) < MAX_ATTR_LENGTH.

Definition message_ok (m : SoftBusMessage) (payload : Impl) (udid : bytes) : Prop :=
  attributes_ m = Some (Some payload) ∧ sendable payload ∧ room 7 payload ∧ in_u 32 (messageSeq_ m) ∧
  short_text (srcEndPoint_ m) ∧ short_text (destEndPoint_ m) ∧ short_text (connectionName_ m) ∧ short_text udid.

Definition header_keys : list Z :=
  [ATTR_MSG_SEQ_NUM; ATTR_MSG_ACK; ATTR_MSG_SRC_END_POINT; ATTR_MSG_DEST_END_POINT; ATTR_CONNECTION_NAME;
   ATTR_MSG_VERSION; ATTR_MSG_SRC_UDID].

(** The store that is sent. *)
Definition message_store (m : SoftBusMessage) (ack : bool) (payload : Impl) (udid : bytes) : Impl :=
  <[ATTR_MSG_SRC_UDID := encoded EncodeStringValue udid]>
  (<[ATTR_MSG_VERSION := encoded EncodeUint32Value DEFAULT_MESSAGE_VERSION]>
  (<[ATTR_CONNECTION_NAME := encoded EncodeStringValue (connectionName_ m)]>
  (<[ATTR_MSG_DEST_END_POINT := encoded EncodeStringValue (destEndPoint_ m)]>
  (<[ATTR_MSG_SRC_END_POINT := encoded EncodeStringValue (srcEndPoint_ m)]>
  (<[ATTR_MSG_ACK := encoded EncodeBoolValue ack]>
  (<[ATTR_MSG_SEQ_NUM := encoded EncodeInt32Value (wrapS 32 (messageSeq_ m))]> payload)))))).

Lemma wrapS_in_s v : in_u 32 v → in_s 32 (wrapS 32 v).
Proof.
  intros Hv. unfold wrapS. rewrite (wrapU_id 32 v) by done. cbv zeta. unfold in_u, in_s in *. simpl Z.pow in *.
  case_decide; lia.
Qed.

Lemma short_text_le s : short_text s → Z.of_nat (length s) ≤ MAX_ATTR_LENGTH.
Proof. unfold short_text. lia. Qed.
Lemma fits_text s : short_text s → fits (encoded EncodeStringValue s).
Proof. apply fits_string. Qed.
#[export] Hint Resolve wrapS_in_s short_text_le fits_text : remote.

Lemma create_message m ack payload udid :
  message_ok m payload udid → CreateMessage m ack true (Some udid) = Some (Some (message_store m ack payload udid)).
Proof.
  intros (Ha & Hp & Hr & H1 & H2 & H3 & H4 & H5). unfold CreateMessage. rewrite Ha. cbn [mbind option_bind].
  rewrite decide_True by done. rewrite received by done. assert (in_u 32 DEFAULT_MESSAGE_VERSION) by done.
  cbn [set_all]. do 6 set_step. cbn [mbind option_bind]. set_step. reflexivity.
Qed.

Lemma sendable_message m ack payload udid : message_ok m payload udid → sendable (message_store m ack payload udid).
Proof.
  intros (Ha & Hp & Hr & H1 & H2 & H3 & H4 & H5). unfold message_store. repeat send_step. exact Hp.
Qed.

Lemma read_message m ack payload udid m0 :
  message_ok m payload udid →
  read_header (Some (message_store m ack payload udid)) m0 =
    (mkMessage (messageSeq_ m) DEFAULT_MESSAGE_VERSION (connectionName_ m) (srcEndPoint_ m) (destEndPoint_ m)
      (attributes_ m0) ack, true).
Proof.
  intros (Ha & Hp & Hr & H1 & H2%short_text_le & H3%short_text_le & H4%short_text_le & H5). unfold read_header, message_store.
  rewrite (got_seq _ ATTR_MSG_SEQ_NUM (messageSeq_ m)) by (done || find_key).
  rewrite (got_bool _ ATTR_MSG_ACK ack) by find_key.
  rewrite (got_string _ ATTR_MSG_SRC_END_POINT (srcEndPoint_ m)) by (done || find_key).
  rewrite (got_string _ ATTR_MSG_DEST_END_POINT (destEndPoint_ m)) by (done || find_key).
  rewrite (got_string _ ATTR_CONNECTION_NAME (connectionName_ m)) by (done || find_key).
  by rewrite (got_u32 _ ATTR_MSG_VERSION DEFAULT_MESSAGE_VERSION) by (done || find_key).
Qed.

Lemma message_payload m ack payload udid k :
  k ∉ header_keys → message_store m ack payload udid !! k = payload !! k.
Proof.
  intros Hk. unfold message_store, header_keys in *. rewrite !not_elem_of_cons in Hk.
  destruct Hk as (H1 & H2 & H3 & H4 & H5 & H6 & H7 & _). by rewrite !lookup_insert_ne by done.
Qed.

Lemma serialize_message_ne m ack payload udid : Serialize (Some (message_store m ack payload udid)) ≠ [].
Proof.
  cbn. rewrite Serialize_wire. pose proof (length_map_entries (message_store m ack payload udid)) as Hl.
  destruct (map_entries _) as [|e es].
  - symmetry in Hl. apply map_size_empty_inv in Hl. apply (f_equal (lookup ATTR_MSG_SRC_UDID)) in Hl.
    unfold message_store in Hl. by rewrite lookup_insert_eq, lookup_empty in Hl.
  - rewrite wire_cons. intros [H _]%app_nil. apply (f_equal length) in H. rewrite length_entry_bytes in H. simpl in H. lia.
Qed.

(** A message that can be sent arrives as it was built: whatever message
    object the receiver fills in, it gets the sequence number, the
    acknowledgement flag, the end points, the name of the connection and the
    version of the sender, and every attribute of the payload. *)
Theorem message_roundtrip m ack payload udid m0 :
  message_ok m payload udid →
  ∃ attr, CreateMessage m ack true (Some udid) = Some attr ∧
    ParseMessage m0 (Serialize attr) true =
      (mkMessage (messageSeq_ m) DEFAULT_MESSAGE_VERSION (connectionName_ m) (srcEndPoint_ m) (destEndPoint_ m)
        (Some attr) ack, Some attr) ∧
    ∀ store k, attr = Some store → k ∉ header_keys → store !! k = payload !! k.
Proof.
  intros Hm. exists (Some (message_store m ack payload udid)). split; [by apply create_message|]. split.
  - unfold ParseMessage. rewrite decide_False by apply serialize_message_ne. rewrite decide_True by done.
    rewrite received by (by apply sendable_message). rewrite read_message by done. by rewrite decide_True.
  - intros store k [= <-] Hk. by apply message_payload.
Qed.

Definition demo_message : SoftBusMessage :=
  SoftBusMessage_new (-1) (str "c") (str "centralAuth") (str "remote") (Some (Some example_store)).

Lemma message_roundtrip_witness :
  ∃ attr, CreateMessage demo_message true true (Some (str "udid")) = Some attr ∧
    ParseMessage demo_message (Serialize attr) true =
      (mkMessage (2 ^ 32 - 1) 0 (str "c") (str "centralAuth") (str "remote") (Some attr) true, Some attr) ∧
    ∀ store k, attr = Some store → k ∉ header_keys → store !! k = example_store !! k.
Proof.
  apply (message_roundtrip demo_message true example_store (str "udid") demo_message).
  split; [reflexivity|]. split; [split; [|split]|].
  - apply (bool_decide_unpack _). vm_compute. exact I.
  - vm_compute. discriminate.
  - apply (bool_decide_unpack _). vm_compute. exact I.
  - split; [vm_compute; discriminate|]. split; [apply (bool_decide_unpack _); vm_compute; exact I|].
    repeat split; vm_compute; discriminate.
Defined.

(** ** Parameters of an authentication *)

Definition param_ok (p : AuthParamInner) : Prop :=
  in_s 32 (ap_userId p) ∧ in_s 32 (ap_authType p) ∧ in_u 32 (ap_authTrustLevel p) ∧ fits (ap_challenge p).

Definition param_store (p : AuthParamInner) (m : Impl) : Impl :=
  <[ATTR_AUTH_TRUST_LEVEL := encoded EncodeInt32Value (wrapS 32 (ap_authTrustLevel p))]>
  (<[ATTR_AUTH_TYPE := encoded EncodeInt32Value (ap_authType p)]>
  (<[ATTR_CHALLENGE := encoded EncodeUint8ArrayValue (ap_challenge p)]>
  (<[ATTR_USER_ID := encoded EncodeInt32Value (ap_userId p)]> m))).

Lemma encode_param p n m : param_ok p → room (4 + n) m → EncodeAuthParam p (Some m) = (Some (param_store p m), true).
Proof.
  intros (H1 & H2 & H3 & H4) Hr. unfold EncodeAuthParam. cbn [Nat.add] in Hr. cbn [set_all].
  assert (Z.of_nat (length (ap_challenge p)) ≤ MAX_ATTR_LENGTH) by done. repeat set_step. reflexivity.
Qed.

Lemma sendable_param p n m : param_ok p → sendable m → room (4 + n) m → sendable (param_store p m) ∧ room n (param_store p m).
Proof.
  intros (H1 & H2 & H3 & H4) Hm Hr. cbn [Nat.add] in Hr. unfold param_store.
  split; [repeat send_step; exact Hm|by eauto 6 with remote].
Qed.

Lemma decode_param p m q :
  param_ok p → (∀ k, k ∉ header_keys → m !! k = param_store p ∅ !! k ∨ param_store p ∅ !! k = None) →
  DecodeAuthParam (Some m) q =
    (set_remote_fields q (ap_userId p) (ap_challenge p) (ap_authType p) (ap_authTrustLevel p), true).
Proof.
  intros (H1 & H2 & H3 & H4) Hk. unfold DecodeAuthParam.
  assert (∀ k v, k ∉ header_keys → param_store p ∅ !! k = Some v → m !! k = Some v) as Hget.
  { intros k v Hh Hv. destruct (Hk k Hh) as [E|E]; congruence. }
  rewrite (got_i32 _ ATTR_USER_ID (ap_userId p)) by (done || (apply Hget; [by apply (bool_decide_unpack _)|unfold param_store; find_key])).
  rewrite (got_bytes _ ATTR_CHALLENGE (ap_challenge p)) by (done || (apply Hget; [by apply (bool_decide_unpack _)|unfold param_store; find_key])).
  rewrite (got_i32 _ ATTR_AUTH_TYPE (ap_authType p)) by (done || (apply Hget; [by apply (bool_decide_unpack _)|unfold param_store; find_key])).
  rewrite (got_i32 _ ATTR_AUTH_TRUST_LEVEL (wrapS 32 (ap_authTrustLevel p)))
    by ((by apply wrapS_in_s) || (apply Hget; [by apply (bool_decide_unpack _)|unfold param_store; find_key])).
  by rewrite wrap_back.
Qed.

(** The parameters of an authentication travel unchanged: encoded into a
    store, sent in a message, parsed and decoded on the other device, they give
    the same user, challenge, type and trust level, whatever else the store
    holds and whatever the receiver had before. *)
Theorem auth_param_roundtrip p base m udid ack m0 q :
  param_ok p → sendable base → room 11 base → in_u 32 (messageSeq_ m) →
  short_text (srcEndPoint_ m) → short_text (destEndPoint_ m) → short_text (connectionName_ m) → short_text udid →
  let '(payload, ok) := EncodeAuthParam p (Some base) in
  ok = true ∧
  (attributes_ m = Some payload → ∃ attr received,
    CreateMessage m ack true (Some udid) = Some attr ∧
    (ParseMessage m0 (Serialize attr) true).2 = Some received ∧
    DecodeAuthParam received q =
      (set_remote_fields q (ap_userId p) (ap_challenge p) (ap_authType p) (ap_authTrustLevel p), true)).
Proof.
  intros Hp Hb Hr H1 H2 H3 H4 H5. rewrite (encode_param p 7) by done. split; [done|]. intros Ha.
  destruct (sendable_param p 7 base Hp Hb Hr) as [Hs Hroom].
  assert (message_ok m (param_store p base) udid) as Hm by (by split_and!).
  exists (Some (message_store m ack (param_store p base) udid)), (Some (message_store m ack (param_store p base) udid)).
  split; [by apply create_message|]. split.
  - unfold ParseMessage. rewrite decide_False by apply serialize_message_ne. rewrite decide_True by done.
    rewrite RemoteMsgThm.received by (by apply sendable_message). rewrite read_message by done. by rewrite decide_True.
  - apply decode_param; [done|]. intros k Hk. rewrite message_payload by done.
    unfold param_store. rewrite !lookup_insert. repeat case_decide; auto.
Qed.

Definition demo_param : AuthParamInner := set_remote_fields AuthParam_new 100 [Byte.x05] PIN 10000.
Definition demo_request : SoftBusMessage :=
  SoftBusMessage_new 9 (str "c") (str "a") (str "b") (Some (EncodeAuthParam demo_param (Some ∅)).1).

Lemma auth_param_roundtrip_witness :
  ∃ attr received, CreateMessage demo_request false true (Some (str "udid")) = Some attr ∧
    (ParseMessage demo_message (Serialize attr) true).2 = Some received ∧
    DecodeAuthParam received AuthParam_new = (demo_param, true).
Proof.
  assert (param_ok demo_param) as Hp by (apply (bool_decide_unpack _); vm_compute; exact I).
  assert (in_u 32 (messageSeq_ demo_request)) as Hs by (apply (bool_decide_unpack _); vm_compute; exact I).
  pose proof (auth_param_roundtrip demo_param ∅ demo_request (str "udid") false demo_message AuthParam_new Hp
    sendable_empty ltac:(vm_compute; discriminate) Hs eq_refl eq_refl eq_refl eq_refl) as H.
  exact (proj2 H eq_refl).
Defined.

(** ** Names of connections

    Connections of one device are told apart only by 16 bits of the number of
    their context. *)
Lemma connection_names networkId id id' :
  GetConnectionName id (Some networkId) = GetConnectionName id' (Some networkId) ↔ wrapU 16 id = wrapU 16 id'.
Proof.
  unfold GetConnectionName. cbn [mbind option_bind]. split; [|by intros ->].
  intros E%(inj Some). do 2 apply app_inv_head in E. apply hex_digits_inj in E.
  unfold TRUCKED_CONTEXT_ID_PRINT_LEN, wrapU in *. change (16 ^ Z.of_nat 4) with (2 ^ 16) in E.
  by rewrite !Z.mod_mod in E by lia.
Qed.

Example connection_name :
  GetConnectionName 0x12345678000ab12 (Some (str "a1b2c3d4")) = Some (str "a1b2:ab12").
Proof. by vm_compute. Qed.
Example connection_names_collide :
  GetConnectionName 1 (Some (str "a1b2")) = GetConnectionName 0x10001 (Some (str "a1b2")).
Proof. by vm_compute. Qed.
