(* ===== verification/WidgetJson.v ===== *)
(** * The JSON of the authentication widget

    Models services/context/src/widget_json.cpp: the notices that the dialog
    sends, the commands that it gets, and the configuration of the dialog. The
    JSON library is not part of the program: [json] is its type of documents, of
    which [parse] and [dump] read and write the text; how a double is converted
    to an integer is [float_to]. The objects of the library are ordered by their
    keys, which [obj_set] keeps. *)

From S2P Require Import Prelude Defines ServiceTypes.

(* @file J = src/services/context/src/widget_json.cpp *)
(* @file JH = src/services/context/inc/widget_json.h *)
(* @file CD = src/frameworks/native/ipc/common_defines/user_auth_common_defines.h *)

(** ** [nlohmann::json] *)

(** A floating point number is its 64 bits. *)
#[warnings="-register-all"] Inductive json :=
  | JNull
  | JBool (b : bool)
  | JInt (z : Z)
  | JUint (z : Z)
  | JFloat (bits : Z)
  | JString (s : bytes)
  | JArray (l : list json)
  | JObject (o : list (bytes * json)).

(** The order of [std::string]. *)
Fixpoint bytes_lt (a b : bytes) : bool :=
  match a, b with
  | _, [] => false
  | [], _ :: _ => true
  | x :: a, y :: b =>
    let x := byte.unsigned x in let y := byte.unsigned y in
    if decide (x = y) then bytes_lt a b else bool_decide (x < y)
  end.

(** [o[k] = v] on a map that is ordered by its keys. *)
Fixpoint obj_set (o : list (bytes * json)) (k : bytes) (v : json) : list (bytes * json) :=
  match o with
  | [] => [(k, v)]
  | (k', v') :: o' =>
    if decide (k = k') then (k, v) :: o'
    else if bytes_lt k k' then (k, v) :: o else (k', v') :: obj_set o' k v
  end.

Fixpoint obj_get (o : list (bytes * json)) (k : bytes) : option json :=
  match o with
  | [] => None
  | (k', v) :: o => if decide (k' = k) then Some v else obj_get o k
  end.

(** An object from an initializer list. *)
Definition jobject (l : list (bytes * json)) : json := JObject (foldl (λ o '(k, v), obj_set o k v) [] l).

(** [j[k] = v], which makes an object of a null document. *)
Definition jset (j : json) (k : bytes) (v : json) : json :=
  match j with
  | JNull => JObject [(k, v)]
  | JObject o => JObject (obj_set o k v)
  | _ => j
  end.

(** [j.find(k)]: [None] is [j.end()], also when [j] is no object. *)
Definition jfind (j : json) (k : bytes) : option json :=
  match j with JObject o => obj_get o k | _ => None end.

Definition is_null (j : json) : bool := match j with JNull => true | _ => false end.
Definition is_object (j : json) : bool := match j with JObject _ => true | _ => false end.
Definition is_array (j : json) : bool := match j with JArray _ => true | _ => false end.
Definition is_string (j : json) : bool := match j with JString _ => true | _ => false end.
Definition is_boolean (j : json) : bool := match j with JBool _ => true | _ => false end.
Definition is_number (j : json) : bool := match j with JInt _ | JUint _ | JFloat _ => true | _ => false end.

Definition jstrings (l : list bytes) : json := JArray (map JString l).
Definition jbytes (l : bytes) : json := JArray (map (λ b, JUint (byte.unsigned b)) l).

(** [get<std::vector<std::string>>()]: [None] is an exception. *)
Definition get_strings (j : json) : option (list bytes) :=
  match j with
  | JArray l => mapM (λ x, match x with JString s => Some s | _ => None end) l
  | _ => None
  end.

(** The number types that documents are converted to. *)
Inductive Number := U8 | U32 | I32 | U64.
Definition cast (t : Number) (z : Z) : Z :=
  match t with U8 => wrapU 8 z | U32 => wrapU 32 z | I32 => wrapS 32 z | U64 => wrapU 64 z end.

(** ** Names and keys *)

(* @src J:const AUTH_TYPE_PIN *)
Definition AUTH_TYPE_PIN : bytes := str "pin".
(* @src J:const AUTH_TYPE_FACE *)
Definition AUTH_TYPE_FACE : bytes := str "face".
(* @src J:const AUTH_TYPE_FINGER_PRINT *)
Definition AUTH_TYPE_FINGER_PRINT : bytes := str "fingerprint".
(* @src J:const AUTH_TYPE_ALL *)
Definition AUTH_TYPE_ALL : bytes := str "all".
(* @src J:const AUTH_TYPE_PRIVATE_PIN *)
Definition AUTH_TYPE_PRIVATE_PIN : bytes := str "privatePin".
(* @src J:const AUTH_TYPE_COMPANION_DEVICE *)
Definition AUTH_TYPE_COMPANION_DEVICE : bytes := str "companionDevice".
(* @src J:const AUTH_TYPE_ENTERPRISE_ACCOUNT *)
Definition AUTH_TYPE_ENTERPRISE_ACCOUNT : bytes := str "enterpriseAccount".
(* @src J:const WINDOW_MODE_DIALOG *)
Definition WINDOW_MODE_DIALOG : bytes := str "DIALOG_BOX".
(* @src J:const WINDOW_MODE_FULLSCREEN *)
Definition WINDOW_MODE_FULLSCREEN : bytes := str "FULLSCREEN".
(* @src J:const WINDOW_MODE_NONE_INTERRUPTION_DIALOG_BOX *)
Definition WINDOW_MODE_NONE_INTERRUPTION_DIALOG_BOX : bytes := str "NONE_INTERRUPTION_DIALOG_BOX".
(* @src J:const PIN_SUB_TYPE_SIX *)
Definition PIN_SUB_TYPE_SIX : bytes := str "PIN_SIX".
(* @src J:const PIN_SUB_TYPE_NUM *)
Definition PIN_SUB_TYPE_NUM : bytes := str "PIN_NUMBER".
(* @src J:const PIN_SUB_TYPE_MIX *)
Definition PIN_SUB_TYPE_MIX : bytes := str "PIN_MIXED".
(* @src J:const PIN_SUB_TYPE_FOUR *)
Definition PIN_SUB_TYPE_FOUR : bytes := str "PIN_FOUR".
(* @src J:const PIN_SUB_TYPE_PATTERN *)
Definition PIN_SUB_TYPE_PATTERN : bytes := str "PIN_PATTERN".
(* @src J:const PIN_SUB_TYPE_MAX *)
Definition PIN_SUB_TYPE_MAX : bytes := str "PIN_MAX".
(* @src J:const JSON_AUTH_TYPE *)
Definition JSON_AUTH_TYPE : bytes := str "type".
(* @src J:const JSON_WIDGET_CTX_ID *)
Definition JSON_WIDGET_CTX_ID : bytes := str "widgetContextId".
(* @src J:const JSON_WIDGET_CTX_ID_STR *)
Definition JSON_WIDGET_CTX_ID_STR : bytes := str "widgetContextIdStr".
(* @src J:const JSON_AUTH_EVENT *)
Definition JSON_AUTH_EVENT : bytes := str "event".
(* @src J:const JSON_AUTH_VERSION *)
Definition JSON_AUTH_VERSION : bytes := str "version".
(* @src J:const JSON_AUTH_PAYLOAD *)
Definition JSON_AUTH_PAYLOAD : bytes := str "payload".
(* @src J:const JSON_AUTH_END_AFTER_FIRST_FAIL *)
Definition JSON_AUTH_END_AFTER_FIRST_FAIL : bytes := str "endAfterFirstFail".
(* @src J:const JSON_AUTH_PURPOSE *)
Definition JSON_AUTH_PURPOSE : bytes := str "authIntent".
(* @src J:const JSON_AUTH_TIP_CODE *)
Definition JSON_AUTH_TIP_CODE : bytes := str "tipCode".
(* @src J:const JSON_AUTH_TOKEN *)
Definition JSON_AUTH_TOKEN : bytes := str "authToken".
(* @src J:const JSON_RESULT_CODE *)
Definition JSON_RESULT_CODE : bytes := str "resultCode".
(* @src J:const JSON_ORIENTATION *)
Definition JSON_ORIENTATION : bytes := str "orientation".
(* @src J:const JSON_NEED_ROTATE *)
Definition JSON_NEED_ROTATE : bytes := str "needRotate".
(* @src J:const JSON_ALREADY_LOAD *)
Definition JSON_ALREADY_LOAD : bytes := str "alreadyLoad".
(* @src J:const JSON_LOCKOUT_DURATION *)
Definition JSON_LOCKOUT_DURATION : bytes := str "lockoutDuration".
(* @src J:const JSON_REMAIN_ATTEMPTS *)
Definition JSON_REMAIN_ATTEMPTS : bytes := str "remainAttempts".
(* @src J:const JSON_AUTH_RESULT *)
Definition JSON_AUTH_RESULT : bytes := str "result".
(* @src J:const JSON_SENSOR_INFO *)
Definition JSON_SENSOR_INFO : bytes := str "sensorInfo".
(* @src J:const JSON_AUTH_TIP_TYPE *)
Definition JSON_AUTH_TIP_TYPE : bytes := str "tipType".
(* @src J:const JSON_AUTH_TIP_INFO *)
Definition JSON_AUTH_TIP_INFO : bytes := str "tipInfo".
(* @src J:const JSON_AUTH_TITLE *)
Definition JSON_AUTH_TITLE : bytes := str "title".
(* @src J:const JSON_AUTH_CMD *)
Definition JSON_AUTH_CMD : bytes := str "cmd".
(* @src J:const JSON_AUTH_PIN_SUB_TYPE *)
Definition JSON_AUTH_PIN_SUB_TYPE : bytes := str "pinSubType".
(* @src J:const JSON_AUTH_WINDOW_MODE *)
Definition JSON_AUTH_WINDOW_MODE : bytes := str "windowModeType".
(* @src J:const JSON_AUTH_NAVI_BTN_TEXT *)
Definition JSON_AUTH_NAVI_BTN_TEXT : bytes := str "navigationButtonText".
(* @src J:const JSON_WIDGET_IS_RELOAD *)
Definition JSON_WIDGET_IS_RELOAD : bytes := str "isReload".
(* @src J:const JSON_WIDGET_ROTATE_AUTH_TYPE *)
Definition JSON_WIDGET_ROTATE_AUTH_TYPE : bytes := str "rotateAuthType".
(* @src J:const JSON_WIDGET_CALLING_PROCESS_NAME *)
Definition JSON_WIDGET_CALLING_PROCESS_NAME : bytes := str "callingProcessName".
(* @src J:const JSON_WIDGET_CALLING_APP_ID *)
Definition JSON_WIDGET_CALLING_APP_ID : bytes := str "callingAppID".
(* @src J:const JSON_WIDGET_USER_ID *)
Definition JSON_WIDGET_USER_ID : bytes := str "userId".
(* @src J:const JSON_WIDGET_SKIP_LOCKED_BIOMETRIC_AUTH *)
Definition JSON_WIDGET_SKIP_LOCKED_BIOMETRIC_AUTH : bytes := str "skipLockedBiometricAuth".
(* @src J:const JSON_UI_EXTENSION_TYPE *)
Definition JSON_UI_EXTENSION_TYPE : bytes := str "ability.want.params.uiExtensionType".
(* @src J:const JSON_UI_EXT_NODE_ANGLE *)
Definition JSON_UI_EXT_NODE_ANGLE : bytes := str "ability.want.params.uiExtNodeAngle".
(* @src J:const JSON_USER_IAM_CMD_DATA *)
Definition JSON_USER_IAM_CMD_DATA : bytes := str "useriamCmdData".
(* @src J:const JSON_SYS_DIALOG_ZORDER *)
Definition JSON_SYS_DIALOG_ZORDER : bytes := str "sysDialogZOrder".
(* @src J:const JSON_IS_ENABLE_ROTATE *)
Definition JSON_IS_ENABLE_ROTATE : bytes := str "isEnableRotate".
(* @src J:const JSON_FOCUS_STATE *)
Definition JSON_FOCUS_STATE : bytes := str "focusState".
(* @src J:const JSON_CHALLENGE *)
Definition JSON_CHALLENGE : bytes := str "challenge".
(* @src J:const JSON_CALLER_BUNDLE_NAME *)
Definition JSON_CALLER_BUNDLE_NAME : bytes := str "callingBundleName".
(* @src J:const JSON_CMD_EXTRA_INFO *)
Definition JSON_CMD_EXTRA_INFO : bytes := str "extraInfo".
(* @src J:const AUTH_WIDGE_CONFIG_SUFFIX *)
Definition AUTH_WIDGE_CONFIG_SUFFIX : bytes := str "etc/auth_widget/auth_widget_config.json".
(* @src J:const SHWO_WITH_LEVEL_2_WINDOW *)
Definition SHWO_WITH_LEVEL_2_WINDOW : bytes := str "show_with_level_2_window".
(* @src J:const FOLLOW_CALLER_WINDOW_WHEN_FOLDED *)
Definition FOLLOW_CALLER_WINDOW_WHEN_FOLDED : bytes := str "follow_caller_window_when_folded".
(* @src J:const SCENEBOARD_BUNDLE_NAME *)
Definition SCENEBOARD_BUNDLE_NAME : bytes := str "sceneboard_bundle_name".
(* @src J:const SCENEBOARD_ABILITY_NAME *)
Definition SCENEBOARD_ABILITY_NAME : bytes := str "sceneboard_ability_name".
(* @src J:const ALWAYS_SUPPORT_FOLLOW_CALLER_UI *)
Definition ALWAYS_SUPPORT_FOLLOW_CALLER_UI : bytes := str "always_support_follow_caller_ui".

(* @src J:const DISABLE_ROTATE *)
Definition DISABLE_ROTATE : Z := 0.

(* @src CD:const NOTICE_VERSION_STR *)
Definition NOTICE_VERSION_STR : bytes := str "1".
(* @src CD:const CMD_NOTIFY_AUTH_START *)
Definition CMD_NOTIFY_AUTH_START : bytes := str "CMD_NOTIFY_AUTH_START".
(* @src CD:const CMD_NOTIFY_AUTH_RESULT *)
Definition CMD_NOTIFY_AUTH_RESULT : bytes := str "CMD_NOTIFY_AUTH_RESULT".
(* @src CD:const CMD_NOTIFY_AUTH_TIP *)
Definition CMD_NOTIFY_AUTH_TIP : bytes := str "CMD_NOTIFY_AUTH_TIP".

(** ** Types and modes as text *)

(* @src J Str2AuthType *)
Definition Str2AuthType (strAuthType : bytes) : Z :=
  if decide (strAuthType = AUTH_TYPE_ALL) then ALL
  else if decide (strAuthType = AUTH_TYPE_PIN) then PIN
  else if decide (strAuthType = AUTH_TYPE_FACE) then FACE
  else if decide (strAuthType = AUTH_TYPE_FINGER_PRINT) then FINGERPRINT
  else if decide (strAuthType = AUTH_TYPE_PRIVATE_PIN) then PRIVATE_PIN
  else if decide (strAuthType = AUTH_TYPE_COMPANION_DEVICE) then COMPANION_DEVICE
  else if decide (strAuthType = AUTH_TYPE_ENTERPRISE_ACCOUNT) then PIN
  else INVALID_AUTH_TYPE.

(* @src J AuthType2Str *)
Definition AuthType2Str (authType : Z) : bytes :=
  if decide (authType = ALL) then AUTH_TYPE_ALL
  else if decide (authType = PIN) then AUTH_TYPE_PIN
  else if decide (authType = FACE) then AUTH_TYPE_FACE
  else if decide (authType = FINGERPRINT) then AUTH_TYPE_FINGER_PRINT
  else if decide (authType = PRIVATE_PIN) then AUTH_TYPE_PRIVATE_PIN
  else if decide (authType = COMPANION_DEVICE) then AUTH_TYPE_COMPANION_DEVICE
  else if decide (authType = ENTERPRISE_ACCOUNT) then AUTH_TYPE_ENTERPRISE_ACCOUNT
  else [].

(* @src J WinModeType2Str *)
Definition WinModeType2Str (winModeType : Z) : bytes :=
  if decide (winModeType = DIALOG_BOX) then WINDOW_MODE_DIALOG
  else if decide (winModeType = FULLSCREEN) then WINDOW_MODE_FULLSCREEN
  else if decide (winModeType = NONE_INTERRUPTION_DIALOG_BOX) then WINDOW_MODE_NONE_INTERRUPTION_DIALOG_BOX
  else [].

(* @src J PinSubType2Str *)
Definition PinSubType2Str (subType : Z) : bytes :=
  if decide (subType = PIN_SIX) then PIN_SUB_TYPE_SIX
  else if decide (subType = PIN_NUMBER) then PIN_SUB_TYPE_NUM
  else if decide (subType = PIN_MIXED) then PIN_SUB_TYPE_MIX
  else if decide (subType = PIN_FOUR) then PIN_SUB_TYPE_FOUR
  else if decide (subType = PIN_PATTERN) then PIN_SUB_TYPE_PATTERN
  else if decide (subType = PIN_MAX) then PIN_SUB_TYPE_MAX
  else [].

(** ** Notices *)

(* @src JH:struct WidgetNotice *)
Record WidgetNotice := mkNotice {
  no_widgetContextId : Z;
  no_event : bytes;
  no_orientation : Z;
  no_needRotate : Z;
  no_alreadyLoad : Z;
  no_version : bytes;
  no_typeList : list bytes;
  no_endAfterFirstFail : bool;
  no_authIntent : Z;
  no_tipCode : Z;
  no_resultCode : Z;
  no_authToken : bytes;
}.

(* @src J WidgetNotice::AuthTypeList *)
Definition AuthTypeList (n : WidgetNotice) : list Z := map Str2AuthType (no_typeList n).

(* @src J:395-408 to_json *)
Definition notice_to_json (n : WidgetNotice) : json :=
  let type := jobject [(JSON_AUTH_TYPE, jstrings (no_typeList n));
    (JSON_AUTH_END_AFTER_FIRST_FAIL, JBool (no_endAfterFirstFail n));
    (JSON_AUTH_PURPOSE, JInt (no_authIntent n));
    (JSON_AUTH_TIP_CODE, JInt (no_tipCode n))] in
  jobject [(JSON_WIDGET_CTX_ID, JUint (no_widgetContextId n));
    (JSON_AUTH_EVENT, JString (no_event n));
    (JSON_ORIENTATION, JUint (no_orientation n));
    (JSON_NEED_ROTATE, JUint (no_needRotate n));
    (JSON_ALREADY_LOAD, JUint (no_alreadyLoad n));
    (JSON_AUTH_VERSION, JString (no_version n));
    (JSON_AUTH_PAYLOAD, type)].

(* @src J isNumberItem *)
Definition isNumberItem (jsonNotice : json) (item : bytes) : bool :=
  match jfind jsonNotice item with Some v => is_number v | None => false end.

Section Notices.
(** The conversion of a double, undefined when it does not fit. *)
Context (float_to : Number → Z → Z).

Definition get_number (t : Number) (j : json) : option Z :=
  match j with
  | JInt z | JUint z => Some (cast t z)
  | JFloat f => Some (cast t (float_to t f))
  | _ => None
  end.

(** [get<uint8_t>()], for which a boolean is a number; [None] is an exception. *)
Definition get_uint8 (j : json) : option byte :=
  match j with
  | JBool b => Some (byte.of_Z (Z.b2z b))
  | _ => byte.of_Z <$> get_number U8 j
  end.

(** [get_to] a member with value [old], if the item is a number or a string. *)
Definition number_item (j : json) (item : bytes) (t : Number) (old : Z) : Z :=
  if isNumberItem j item then default old (jfind j item ≫= get_number t) else old.
Definition string_item (j : json) (item : bytes) (old : bytes) : bytes :=
  match jfind j item with Some (JString s) => s | _ => old end.

(** The loop over the types: one that is no string drops all. *)
Fixpoint type_strings (l : list json) (typeList : list bytes) : list bytes :=
  match l with
  | [] => typeList
  | JString s :: l => type_strings l (typeList ++ [s])
  | _ :: _ => []
  end.

Definition set_payload (n : WidgetNotice) (typeList : list bytes) (first : bool) (authIntent tipCode : Z) : WidgetNotice :=
  mkNotice (no_widgetContextId n) (no_event n) (no_orientation n) (no_needRotate n) (no_alreadyLoad n) (no_version n)
    typeList first authIntent tipCode (no_resultCode n) (no_authToken n).

(* @src J getPayloadFromJson *)
Definition getPayloadFromJson (jsonNotice : json) (n : WidgetNotice) : WidgetNotice :=
  match jfind jsonNotice JSON_AUTH_PAYLOAD with
  | None => n
  | Some payload =>
    CHECK is_object payload = true ELSE n ;;
    let types := match jfind payload JSON_AUTH_TYPE with Some (JArray l) => Some l | _ => None end in
    WHEN MAX_AUTH_TYPE_SIZE < Z.of_nat (length (default [] types)) RETURN n ;;
    let typeList := match types with Some l => type_strings l (no_typeList n) | None => no_typeList n end in
    let first := match jfind payload JSON_AUTH_END_AFTER_FIRST_FAIL with
                 | Some (JBool b) => b | _ => no_endAfterFirstFail n end in
    set_payload n typeList first (number_item payload JSON_AUTH_PURPOSE I32 (no_authIntent n))
      (number_item payload JSON_AUTH_TIP_CODE I32 (no_tipCode n))
  end.

(** Into a new notice; [None] is an exception. *)
(* @src J from_json *)
Definition from_json (j : json) : option WidgetNotice :=
  token ← match jfind j JSON_AUTH_TOKEN with
          | Some (JObject items) => mapM (λ item, get_uint8 item.2) items
          | _ => Some []
          end;
  Some (getPayloadFromJson j
    (mkNotice (number_item j JSON_WIDGET_CTX_ID U64 0) (string_item j JSON_AUTH_EVENT [])
      (number_item j JSON_ORIENTATION U32 0) (number_item j JSON_NEED_ROTATE U32 0)
      (number_item j JSON_ALREADY_LOAD U32 0) (string_item j JSON_AUTH_VERSION [])
      [] false 0 0 (number_item j JSON_RESULT_CODE I32 GENERAL_ERROR) token)).

End Notices.

(** ** Commands *)

(* @src JH:struct ExtraInfo *)
Record ExtraInfo := mkExtra { ex_callingBundleName : bytes; ex_challenge : bytes }.

(* @src JH:struct Cmd *)
Record Cmd := mkCmd {
  cmd_event : bytes;
  cmd_version : bytes;
  cmd_type : bytes;
  cmd_result : Z;
  cmd_lockoutDuration : Z;
  cmd_remainAttempts : Z;
  cmd_sensorInfo : bytes;
  cmd_tipType : Z;
  cmd_tipInfo : bytes;
  cmd_extraInfo : ExtraInfo;
}.

(* @src JH:struct WidgetCommand *)
Record WidgetCommand := mkCommand {
  wd_widgetContextId : Z;
  wd_typeList : list bytes;
  wd_title : bytes;
  wd_pinSubType : bytes;
  wd_windowModeType : bytes;
  wd_navigationButtonText : bytes;
  wd_cmdList : list Cmd;
  wd_isReload : Z;
  wd_rotateAuthType : bytes;
  wd_callingAppID : bytes;
  wd_callingProcessName : bytes;
  wd_widgetContextIdStr : bytes;
  wd_userId : Z;
  wd_skipLockedBiometricAuth : bool;
}.

(* @src JH:struct WidgetCmdParameters *)
Record WidgetCmdParameters := mkCmdParameters {
  wp_uiExtensionType : bytes;
  wp_useriamCmdData : WidgetCommand;
  wp_uiExtNodeAngle : bytes;
  wp_sysDialogZOrder : Z;
  wp_focusState : Z;
}.

(** [if (c) j[k] = v;] *)
Definition jset_if (c : bool) (j : json) (k : bytes) (v : json) : json := if c then jset j k v else j.

(* @src J GetJsonPayload *)
Definition GetJsonPayload (jsonPayload : json) (cmd : Cmd) : json :=
  let p := jset jsonPayload JSON_AUTH_TYPE (JString (cmd_type cmd)) in
  let p := jset_if (bool_decide (cmd_lockoutDuration cmd ≠ -1)) p JSON_LOCKOUT_DURATION (JInt (cmd_lockoutDuration cmd)) in
  let p := jset_if (bool_decide (cmd_remainAttempts cmd ≠ -1)) p JSON_REMAIN_ATTEMPTS (JInt (cmd_remainAttempts cmd)) in
  let p := jset_if (bool_decide (cmd_event cmd = CMD_NOTIFY_AUTH_RESULT ∨ cmd_result cmd = PIN_EXPIRED)) p
             JSON_AUTH_RESULT (JInt (cmd_result cmd)) in
  let tip := bool_decide (cmd_event cmd = CMD_NOTIFY_AUTH_TIP) in
  let p := jset_if tip p JSON_AUTH_TIP_TYPE (JInt (cmd_tipType cmd)) in
  let p := jset_if tip p JSON_AUTH_TIP_INFO (jbytes (cmd_tipInfo cmd)) in
  let p := jset_if (bool_decide (cmd_sensorInfo cmd ≠ [])) p JSON_SENSOR_INFO (JString (cmd_sensorInfo cmd)) in
  jset p JSON_CMD_EXTRA_INFO
    (jobject [(JSON_CHALLENGE, jbytes (ex_challenge (cmd_extraInfo cmd)));
      (JSON_CALLER_BUNDLE_NAME, JString (ex_callingBundleName (cmd_extraInfo cmd)))]).

(** The body of the loop over the commands. *)
Definition json_cmd (cmd : Cmd) : json :=
  let jsonCmd := jobject [(JSON_AUTH_EVENT, JString (cmd_event cmd)); (JSON_AUTH_VERSION, JString (cmd_version cmd))] in
  jset jsonCmd JSON_AUTH_PAYLOAD (GetJsonPayload JNull cmd).

(* @src J GetJsonCmd *)
Definition GetJsonCmd (c : WidgetCommand) : json :=
  let j := jobject [(JSON_WIDGET_CTX_ID, JUint (wd_widgetContextId c));
    (JSON_AUTH_TYPE, jstrings (wd_typeList c));
    (JSON_AUTH_TITLE, JString (wd_title c));
    (JSON_AUTH_CMD, JArray (map json_cmd (wd_cmdList c)));
    (JSON_WIDGET_CTX_ID_STR, JString (wd_widgetContextIdStr c))] in
  let j := jset_if (bool_decide (wd_pinSubType c ≠ [])) j JSON_AUTH_PIN_SUB_TYPE (JString (wd_pinSubType c)) in
  let j := jset_if (bool_decide (wd_windowModeType c ≠ [])) j JSON_AUTH_WINDOW_MODE (JString (wd_windowModeType c)) in
  let j := jset_if (bool_decide (wd_navigationButtonText c ≠ [])) j
             JSON_AUTH_NAVI_BTN_TEXT (JString (wd_navigationButtonText c)) in
  let j := jset j JSON_WIDGET_IS_RELOAD (JInt (wd_isReload c)) in
  let j := jset j JSON_WIDGET_ROTATE_AUTH_TYPE (JString (wd_rotateAuthType c)) in
  let j := jset j JSON_WIDGET_CALLING_APP_ID (JString (wd_callingAppID c)) in
  let j := jset j JSON_WIDGET_CALLING_PROCESS_NAME (JString (wd_callingProcessName c)) in
  let j := jset j JSON_WIDGET_USER_ID (JInt (wd_userId c)) in
  jset j JSON_WIDGET_SKIP_LOCKED_BIOMETRIC_AUTH (JBool (wd_skipLockedBiometricAuth c)).

(* @src J:556-559 to_json *)
Definition command_to_json (c : WidgetCommand) : json := GetJsonCmd c.

(* @src J:562-575 to_json *)
Definition parameters_to_json (p : WidgetCmdParameters) : json :=
  jobject [(JSON_UI_EXTENSION_TYPE, JString (wp_uiExtensionType p));
    (JSON_SYS_DIALOG_ZORDER, JUint (wp_sysDialogZOrder p));
    (JSON_UI_EXT_NODE_ANGLE, JString (wp_uiExtNodeAngle p));
    (JSON_FOCUS_STATE, JUint (wp_focusState p));
    (JSON_IS_ENABLE_ROTATE, JUint DISABLE_ROTATE);
    (JSON_USER_IAM_CMD_DATA, GetJsonCmd (wp_useriamCmdData p))].

(** ** The configuration of the dialog *)

Section Config.

(** The first object that has an array under the key; what comes before must be
    an object. The result and the list, which is kept when nothing is read. *)
Fixpoint strings_in (l : list json) (out : list bytes) (key : bytes) : bool * list bytes :=
  match l with
  | [] => (true, out)
  | object :: l =>
    CHECK is_object object = true ELSE (false, out) ;;
    match jfind object key with
    | Some (JArray _ as value) => match get_strings value with Some strings => (true, strings) | None => (false, out) end
    | _ => strings_in l out key
    end
  end.

(* @src J GetStringArrayFromJson *)
Definition GetStringArrayFromJson (jsonObject : json) (out : list bytes) (key : bytes) : bool * list bytes :=
  match jsonObject with JArray l => strings_in l out key | _ => (false, out) end.

Fixpoint string_in (l : list json) (out : bytes) (key : bytes) : bool * bytes :=
  match l with
  | [] => (false, out)
  | object :: l =>
    CHECK is_object object = true ELSE (false, out) ;;
    match jfind object key with Some (JString s) => (true, s) | _ => string_in l out key end
  end.

(* @src J GetStringFromJson *)
Definition GetStringFromJson (jsonObject : json) (out : bytes) (key : bytes) : bool * bytes :=
  match jsonObject with JArray l => string_in l out key | _ => (false, out) end.

(* @src J GetSceneboardBundleName *)
Definition GetSceneboardBundleName (jsonBuf : json) (processName : bytes) : bool * bytes :=
  GetStringFromJson jsonBuf processName SCENEBOARD_BUNDLE_NAME.
(* @src J GetSceneboardAbilityName *)
Definition GetSceneboardAbilityName (jsonBuf : json) (processName : bytes) : bool * bytes :=
  GetStringFromJson jsonBuf processName SCENEBOARD_ABILITY_NAME.
(* @src J GetProcessName *)
Definition GetProcessName (jsonBuf : json) (processName : list bytes) : bool * list bytes :=
  GetStringArrayFromJson jsonBuf processName SHWO_WITH_LEVEL_2_WINDOW.
(* @src J GetFollowCallerList *)
Definition GetFollowCallerList (jsonBuf : json) (processName : list bytes) : bool * list bytes :=
  GetStringArrayFromJson jsonBuf processName FOLLOW_CALLER_WINDOW_WHEN_FOLDED.
(* @src J GetAlwaysSupportFollowCallerUi *)
Definition GetAlwaysSupportFollowCallerUi (jsonBuf : json) (processName : list bytes) : bool * list bytes :=
  GetStringArrayFromJson jsonBuf processName ALWAYS_SUPPORT_FOLLOW_CALLER_UI.

(** The files of the device, the policy library and the JSON library. *)
Context (PathToRealPath : bytes → option bytes) (contents : bytes → option bytes)
  (GetOneCfgFile : bytes → option bytes) (MAX_PATH_LEN : Z) (parse : bytes → option json).

(** [accept] tells whether [parse] succeeds. *)
(* @src J ReadFileIntoJson *)
Definition ReadFileIntoJson (filePath : bytes) (jsonBuf : json) : bool * json :=
  match PathToRealPath filePath with
  | None => (false, jsonBuf)
  | Some realPath =>
    match contents realPath with
    | None => (false, jsonBuf)
    | Some content =>
      WHEN content = [] RETURN (false, jsonBuf) ;;
      match parse content with None => (false, jsonBuf) | Some j => (true, j) end
    end
  end.

(* @src J GetConfigRealPath *)
Definition GetConfigRealPath : bytes :=
  match GetOneCfgFile AUTH_WIDGE_CONFIG_SUFFIX with
  | None => AUTH_WIDGE_CONFIG_SUFFIX
  | Some configPath =>
    WHEN configPath = [] ∨ MAX_PATH_LEN < Z.of_nat (length configPath) RETURN AUTH_WIDGE_CONFIG_SUFFIX ;;
    configPath
  end.

(* @src J LoadConfigJsonBuffer *)
Definition LoadConfigJsonBuffer (jsonBuf : json) : json := (ReadFileIntoJson GetConfigRealPath jsonBuf).2.

End Config.

(** * Theorems *)

Section JsonLemmas.

Lemma obj_get_set o k v k' : obj_get (obj_set o k v) k' = if decide (k = k') then Some v else obj_get o k'.
Proof.
  induction o as [|[k1 v1] o IH]; simpl; [done|].
  destruct (decide (k = k1)) as [<-|Hne]; simpl; [by destruct (decide (k = k'))|].
  destruct (bytes_lt k k1); simpl; [done|]. rewrite IH.
  destruct (decide (k1 = k')) as [<-|]; [|done]. by rewrite decide_False.
Qed.

Lemma jfind_jset o k v k' : jfind (jset (JObject o) k v) k' = if decide (k = k') then Some v else jfind (JObject o) k'.
Proof. apply obj_get_set. Qed.

(** The text of a document: a number that is not negative is read back as an
    unsigned one. *)
Fixpoint reparsed (j : json) : json :=
  match j with
  | JInt z => if decide (0 ≤ z) then JUint z else j
  | JArray l => JArray (map reparsed l)
  | JObject o => JObject (map (λ '(k, v), (k, reparsed v)) o)
  | _ => j
  end.

Lemma reparsed_strings l : reparsed (jstrings l) = jstrings l.
Proof. unfold jstrings. simpl. f_equal. by rewrite map_map. Qed.

Lemma type_strings_all l acc : type_strings (map JString l) acc = acc ++ l.
Proof. revert acc. induction l as [|x l IH]; intros acc; simpl; [by rewrite app_nil_r|]. by rewrite IH, <-app_assoc. Qed.

Lemma get_strings_all l : get_strings (jstrings l) = Some l.
Proof. simpl. induction l as [|x l IH]; [done|]. simpl. by rewrite IH. Qed.

End JsonLemmas.

(** The names of types are read back, except that of an enterprise account. *)
Lemma Str2AuthType_AuthType2Str ty :
  ty ∈ [ALL; PIN; FACE; FINGERPRINT; PRIVATE_PIN; COMPANION_DEVICE] → Str2AuthType (AuthType2Str ty) = ty.
Proof. intros H. repeat (apply elem_of_cons in H as [->|H]; [by vm_compute|]). by apply not_elem_of_nil in H. Qed.

Example enterprise_account_read_as_pin : Str2AuthType (AuthType2Str ENTERPRISE_ACCOUNT) = PIN.
Proof. by vm_compute. Qed.

(** ** The round trip of a notice *)

Definition notice_ok (n : WidgetNotice) : Prop :=
  in_u 64 (no_widgetContextId n) ∧ in_u 32 (no_orientation n) ∧ in_u 32 (no_needRotate n) ∧ in_u 32 (no_alreadyLoad n) ∧
  in_s 32 (no_authIntent n) ∧ in_s 32 (no_tipCode n) ∧ Z.of_nat (length (no_typeList n)) ≤ MAX_AUTH_TYPE_SIZE.

(** [to_json] leaves out the token and the result. *)
Definition sent (n : WidgetNotice) : WidgetNotice :=
  mkNotice (no_widgetContextId n) (no_event n) (no_orientation n) (no_needRotate n) (no_alreadyLoad n) (no_version n)
    (no_typeList n) (no_endAfterFirstFail n) (no_authIntent n) (no_tipCode n) GENERAL_ERROR [].

Section RoundTrip.
Context (float_to : Number → Z → Z).

Lemma number_int (t : Number) z : get_number float_to t (reparsed (JInt z)) = Some (cast t z) ∧ is_number (reparsed (JInt z)) = true.
Proof. simpl. by destruct (decide (0 ≤ z)). Qed.

Lemma number_item_int p item t z old :
  jfind p item = Some (reparsed (JInt z)) → number_item float_to p item t old = cast t z.
Proof. intros E. unfold number_item, isNumberItem. rewrite E. destruct (number_int t z) as [E1 ->]. simpl in *. by rewrite E1. Qed.

Lemma number_item_uint p item t z old : jfind p item = Some (JUint z) → number_item float_to p item t old = cast t z.
Proof. intros E. unfold number_item, isNumberItem. by rewrite E. Qed.

Lemma cast_id t z :
  match t with U8 => in_u 8 z | U32 => in_u 32 z | I32 => in_s 32 z | U64 => in_u 64 z end → cast t z = z.
Proof.
  destruct t; simpl; intros H; try by apply wrapU_id.
  rewrite <-(wrapS_wrapU 32 z) at 2 by done. unfold wrapS, wrapU. by rewrite Z.mod_mod by lia.
Qed.

(** A notice that is written and read back is the same, whatever its types
    and strings, but for the token and the result, which are not written. *)
Theorem notice_roundtrip n :
  notice_ok n → from_json float_to (reparsed (notice_to_json n)) = Some (sent n).
Proof.
  intros (H1 & H2 & H3 & H4 & H5 & H6 & H7).
  set (j := reparsed (notice_to_json n)).
  assert (∃ payload, jfind j JSON_AUTH_PAYLOAD = Some payload ∧ is_object payload = true ∧
    jfind payload JSON_AUTH_TYPE = Some (reparsed (jstrings (no_typeList n))) ∧
    jfind payload JSON_AUTH_END_AFTER_FIRST_FAIL = Some (JBool (no_endAfterFirstFail n)) ∧
    jfind payload JSON_AUTH_PURPOSE = Some (reparsed (JInt (no_authIntent n))) ∧
    jfind payload JSON_AUTH_TIP_CODE = Some (reparsed (JInt (no_tipCode n)))) as (p & Ep & Ho & Et & Ef & Ei & Ec)
    by (by eexists).
  unfold from_json. change (jfind j JSON_AUTH_TOKEN) with (@None json). simpl mbind.
  rewrite (number_item_uint j JSON_WIDGET_CTX_ID U64 (no_widgetContextId n)) by done.
  rewrite (number_item_uint j JSON_ORIENTATION U32 (no_orientation n)) by done.
  rewrite (number_item_uint j JSON_NEED_ROTATE U32 (no_needRotate n)) by done.
  rewrite (number_item_uint j JSON_ALREADY_LOAD U32 (no_alreadyLoad n)) by done.
  change (string_item j JSON_AUTH_EVENT []) with (no_event n).
  change (string_item j JSON_AUTH_VERSION []) with (no_version n).
  change (number_item float_to j JSON_RESULT_CODE I32 GENERAL_ERROR) with GENERAL_ERROR.
  unfold getPayloadFromJson. rewrite Ep, Ho, Et, Ef, reparsed_strings. unfold jstrings.
  rewrite decide_True by done. rewrite decide_False by (simpl; rewrite length_map; lia).
  rewrite (number_item_int p _ _ _ _ Ei), (number_item_int p _ _ _ _ Ec), !cast_id by done.
  unfold set_payload. simpl. by rewrite type_strings_all.
Qed.

End RoundTrip.

Definition ex_float_to (_ : Number) (_ : Z) : Z := 0.
Definition ex_notice : WidgetNotice :=
  mkNotice 12 (str "EVENT_AUTH_TYPE_READY") 2 1 0 (str "1") [AUTH_TYPE_PIN; AUTH_TYPE_FACE] true 1 (-3) SUCCESS [Byte.x05].

Lemma notice_roundtrip_witness : from_json ex_float_to (reparsed (notice_to_json ex_notice)) = Some (sent ex_notice).
Proof. apply (notice_roundtrip ex_float_to ex_notice), (bool_decide_unpack _). by vm_compute. Defined.

(** ** Examples *)

(** A [Uint8Array] of a script becomes an object with the keys 0, 1, ..., of
    which the library keeps 10 between 1 and 2: a token of more than ten bytes
    arrives in another order. *)
Definition ex_token : json :=
  jobject (imap (λ i b, ((if decide (i < 10)%nat then [hex_digit (Z.of_nat i)] else str "1" ++ [hex_digit (Z.of_nat i - 10)]),
    JUint b)) [100; 101; 102; 103; 104; 105; 106; 107; 108; 109; 110; 111]).
Example token_reordered :
  (map byte.unsigned ∘ no_authToken) <$> from_json ex_float_to (jobject [(JSON_AUTH_TOKEN, ex_token)]) =
  Some [100; 101; 110; 111; 102; 103; 104; 105; 106; 107; 108; 109].
Proof. by vm_compute. Qed.

(** A token with an item that is no number is an exception; too many types drop
    the whole payload; a type that is no string drops all types. *)
Example token_exception :
  from_json ex_float_to (jobject [(JSON_AUTH_TOKEN, jobject [(str "0", JNull)])]) = None.
Proof. by vm_compute. Qed.
Example too_many_types :
  (λ n, (no_typeList n, no_tipCode n)) <$> from_json ex_float_to (jobject [(JSON_AUTH_PAYLOAD,
    jobject [(JSON_AUTH_TYPE, jstrings (replicate 9 AUTH_TYPE_PIN)); (JSON_AUTH_TIP_CODE, JUint 5)])]) = Some ([], 0).
Proof. by vm_compute. Qed.
Example type_no_string :
  (λ n, (no_typeList n, no_tipCode n)) <$> from_json ex_float_to (jobject [(JSON_AUTH_PAYLOAD,
    jobject [(JSON_AUTH_TYPE, JArray [JString AUTH_TYPE_PIN; JNull]); (JSON_AUTH_TIP_CODE, JUint 5)])]) = Some ([], 5).
Proof. by vm_compute. Qed.
