(* ===== verification/UserIdmDatabase.v ===== *)
(** * The credential database of the services

    Models services/core/src/user_idm_database_impl.cpp: the queries of the
    engine that return objects. A shared pointer to such an object is the
    record; every allocation may fail. Out parameters are part of the result,
    also when the function fails half way. *)

From S2P Require Import Prelude Defines Interaction ServiceTypes Attributes Platform IpcCommon.

(* @file U = src/services/core/src/user_idm_database_impl.cpp *)
(* @file CI = src/services/core/src/credential_info_impl.cpp *)

(** [CredentialInfoImpl], and what its getters return. *)
Record CredentialInfoImpl := mkCredImpl { userId_ : Z; info_ : EngCredentialInfo }.

(* @src CI CredentialInfoImpl::GetCredentialId *)
Definition GetCredentialId (c : CredentialInfoImpl) : Z := ec_credentialId (info_ c).
(* @src CI CredentialInfoImpl::GetExecutorIndex *)
Definition GetExecutorIndex (c : CredentialInfoImpl) : Z := ec_executorIndex (info_ c).
(* @src CI CredentialInfoImpl::GetTemplateId *)
Definition GetTemplateId (c : CredentialInfoImpl) : Z := ec_templateId (info_ c).
(* @src CI CredentialInfoImpl::GetAuthType *)
Definition GetAuthType (c : CredentialInfoImpl) : Z := ec_authType (info_ c).
(* @src CI CredentialInfoImpl::GetAuthSubType *)
Definition GetAuthSubType (c : CredentialInfoImpl) : Z := ec_authSubType (info_ c).
(* @src CI CredentialInfoImpl::GetAbandonFlag *)
Definition GetAbandonFlag (c : CredentialInfoImpl) : bool := ec_isAbandoned (info_ c).
(* @src CI CredentialInfoImpl::GetValidPeriod *)
Definition GetValidPeriod (c : CredentialInfoImpl) : Z := ec_validityPeriod (info_ c).

Record SecureUserInfoImpl := mkSecureUser { su_secUserId : Z; su_enrolledInfo : list EnrolledInfo }.

(** The loops that wrap a vector of engine records, one allocation each. *)
Definition wrap_each {A B} (what : string) (wrap : A → B) (infos : list A) (out : list B) : service (Z * list B) :=
  r ← for_until (λ out info,
      ok ← call (MakeShared what);
      if (ok : bool) then mret (inr (out ++ [wrap info])) else mret (inl out)) out infos;
  match r with
  | inl out => mret (GENERAL_ERROR, out)
  | inr out => mret (SUCCESS, out)
  end.

Definition wrap_credentials (userId : Z) (hdiInfos : list EngCredentialInfo) (credInfos : list CredentialInfoImpl) :
    service (Z * list CredentialInfoImpl) :=
  wrap_each "CredentialInfoImpl" (mkCredImpl userId) hdiInfos credInfos.

(* @src U UserIdmDatabaseImpl::GetSecUserInfo *)
Definition GetSecUserInfo (userId : Z) : service (Z * option SecureUserInfoImpl) :=
  '(ret, info) ← call (EngGetUserInfo userId);
  CHECK ret = SUCCESS ELSE mret (GENERAL_ERROR, None) ;;
  WHEN ui_enrolledInfos info = [] RETURN mret (NOT_ENROLLED, None) ;;
  '(ret, infoRet) ← wrap_each "EnrolledInfoImpl" id (ui_enrolledInfos info) [];
  CHECK ret = SUCCESS ELSE mret (ret, None) ;;
  ok ← call (MakeShared "SecureUserInfoImpl");
  if (ok : bool) then mret (SUCCESS, Some (mkSecureUser (ui_secureUid info) infoRet)) else mret (GENERAL_ERROR, None).

(* @src U UserIdmDatabaseImpl::GetCredentialInfo *)
Definition GetCredentialInfo (userId authType : Z) : service (Z * list CredentialInfoImpl) :=
  '(ret, hdiInfos) ← call (EngGetCredential userId authType);
  CHECK ret = SUCCESS ELSE mret (ret, []) ;;
  wrap_credentials userId hdiInfos [].

(* @src U UserIdmDatabaseImpl::DeleteUser *)
Definition DeleteUser (userId : Z) (authToken : bytes) : service (Z * list CredentialInfoImpl * bytes) :=
  '(ret, hdiInfos, rootSecret) ← call (EngDeleteUser userId authToken);
  CHECK ret = SUCCESS ELSE mret (ret, [], rootSecret) ;;
  '(ret, credInfos) ← wrap_credentials userId hdiInfos [];
  mret (ret, credInfos, rootSecret).

(* @src U UserIdmDatabaseImpl::DeleteUserEnforce *)
Definition DeleteUserEnforce (userId : Z) : service (Z * list CredentialInfoImpl) :=
  '(ret, hdiInfos) ← call (EngEnforceDeleteUser userId);
  CHECK ret = SUCCESS ELSE mret (ret, []) ;;
  wrap_credentials userId hdiInfos [].

(** Of the user records only the ids are read. *)
(* @src U UserIdmDatabaseImpl::GetAllExtUserInfo *)
Definition GetAllExtUserInfo : service (Z * list Z) :=
  '(ret, hdiUserInfos) ← call EngGetAllExtUserInfo;
  CHECK ret = SUCCESS ELSE mret (ret, []) ;;
  wrap_each "UserInfoImpl" xu_userId hdiUserInfos [].

(* @src U UserIdmDatabaseImpl::GetCredentialInfoById *)
Definition GetCredentialInfoById (credentialId : Z) : service (Z * option CredentialInfoImpl) :=
  '(ret, hdiInfo) ← call (EngGetCredentialById credentialId);
  CHECK ret = SUCCESS ELSE mret (ret, None) ;;
  ok ← call (MakeShared "CredentialInfoImpl");
  if (ok : bool) then mret (SUCCESS, Some (mkCredImpl 0 hdiInfo)) else mret (GENERAL_ERROR, None).

(* @src U UserIdmDatabaseImpl::ClearUnavailableCredential *)
Definition ClearUnavailableCredential (userId : Z) : service (Z * list CredentialInfoImpl) :=
  '(ret, hdiInfos) ← call (EngClearUnavailableCredential [userId]);
  CHECK ret = SUCCESS ELSE mret (ret, []) ;;
  wrap_credentials userId hdiInfos [].

(* @src U UserIdmDatabaseImpl::GetLatestEnrollmentTime *)
Definition GetLatestEnrollmentTime (userId authType : Z) : service (Z * Z) :=
  '(ret, latestEnrollmentTime) ← call (EngGetLatestEnrollmentTime userId authType);
  CHECK ret = SUCCESS ELSE mret (ret, latestEnrollmentTime) ;;
  mret (SUCCESS, latestEnrollmentTime).

(** ** What these functions call *)

(** The caller is not answered, no context and no schedule is started. *)
Definition silent (q : sys) : bool :=
  match q with OnResult _ _ _ | PoolSchedule _ _ | StartSchedule _ => false | _ => true end.

Lemma kit_silent q : kit q = true → silent q = true.
Proof. by destruct q. Qed.

Lemma only_silent {A} (m : service A) : only kit m → only silent m.
Proof. apply only_mono, kit_silent. Qed.
#[export] Hint Resolve only_silent : service.

Lemma only_wrap_each {A B} what (wrap : A → B) infos out : only kit (wrap_each what wrap infos out).
Proof. unfold wrap_each. only_steps. Qed.
#[export] Hint Resolve only_wrap_each : service.
Lemma only_wrap_credentials u infos out : only kit (wrap_credentials u infos out).
Proof. apply only_wrap_each. Qed.
#[export] Hint Resolve only_wrap_credentials : service.

Lemma only_GetSecUserInfo u : only silent (GetSecUserInfo u).
Proof. unfold GetSecUserInfo. only_steps. Qed.
Lemma only_GetCredentialInfo u ty : only silent (GetCredentialInfo u ty).
Proof. unfold GetCredentialInfo. only_steps. Qed.
Lemma only_DeleteUser u tok : only silent (DeleteUser u tok).
Proof. unfold DeleteUser. only_steps. Qed.
Lemma only_DeleteUserEnforce u : only silent (DeleteUserEnforce u).
Proof. unfold DeleteUserEnforce. only_steps. Qed.
Lemma only_GetAllExtUserInfo : only silent GetAllExtUserInfo.
Proof. unfold GetAllExtUserInfo. only_steps. Qed.
Lemma only_GetCredentialInfoById i : only silent (GetCredentialInfoById i).
Proof. unfold GetCredentialInfoById. only_steps. Qed.
Lemma only_ClearUnavailableCredential u : only silent (ClearUnavailableCredential u).
Proof. unfold ClearUnavailableCredential. only_steps. Qed.
Lemma only_GetLatestEnrollmentTime u ty : only silent (GetLatestEnrollmentTime u ty).
Proof. unfold GetLatestEnrollmentTime. only_steps. Qed.
#[export] Hint Resolve only_GetSecUserInfo only_GetCredentialInfo only_DeleteUser only_DeleteUserEnforce
  only_GetAllExtUserInfo only_GetCredentialInfoById only_ClearUnavailableCredential
  only_GetLatestEnrollmentTime : service.

(** A loop that wraps all records, or meets a failing allocation. *)
Lemma wp_wrap_each {A B} P what (wrap : A → B) infos out t (Φ : Z * list B → trace → Prop) :
  (∀ t q, kit q = true → P t q) →
  (∀ t', extends kit t t' → Φ (SUCCESS, out ++ map wrap infos) t') →
  (∀ res t', extends kit t t' → answered t' (MakeShared what) false → Φ (GENERAL_ERROR, res) t') →
  wp P (wrap_each what wrap infos out) t Φ.
Proof.
  intros HP HS HE. unfold wrap_each. apply wp_bind.
  revert out t HS HE. induction infos as [|info infos IH]; intros out t HS HE; cbn [for_until].
  - step. cbn beta iota. step. rewrite app_nil_r in HS. apply HS, extends_refl.
  - do 2 apply wp_bind. step; [by apply HP|].
    assert (extends kit t (t ++ [existT (MakeShared what) r])) as E by auto with service. destruct r; step; cbn beta iota.
    + apply IH.
      * intros t' E'. rewrite <- app_assoc. apply HS. by eapply extends_trans.
      * intros res t' E'. apply HE. by eapply extends_trans.
    + step. step. apply HE; [done|]. apply answered_snoc.
Qed.

Lemma wp_IsOsAccountVerified P u t (Φ : bool → trace → Prop) :
  (∀ t q, silent q = true → P t q) →
  (∀ b t', extends silent t t' → (b = true → answered t' (QueryOsAccountVerified u) (Some true)) → Φ b t') →
  wp P (IsOsAccountVerified u) t Φ.
Proof.
  intros HP HΦ. unfold IsOsAccountVerified. repeat step; try (by apply HP); subst;
    (apply HΦ; [apply extends_snoc; [done|apply extends_refl]|]); [|done]. intros ->. apply answered_snoc.
Qed.
