(* ===== verification/NodeCommands.v ===== *)
(** * Commands to executors

    Models services/core/src/resource_node_utils.cpp for its clients, which
    reach the nodes of the resource node pool through calls (ResourceNodePool.v
    has the same functions over the pool itself). *)

From S2P Require Import Prelude Defines Interaction ServiceTypes Attributes Platform IpcCommon UserIdmDatabase.

(* @file U = src/services/core/src/resource_node_utils.cpp *)

(** The property that asks an executor to delete a template. *)
Definition delete_template (templateId : Z) (changeReasonTrace : bytes) : Attributes :=
  let properties := (SetUint32Value Attributes_new ATTR_PROPERTY_MODE PROPERTY_MODE_DEL).1 in
  let properties := (SetUint64Value properties ATTR_TEMPLATE_ID templateId).1 in
  (SetStringValue properties ATTR_TEMPLATE_CHANGE_REASON changeReasonTrace).1.

(* @src U ResourceNodeUtils::NotifyExecutorToDeleteTemplates *)
Definition NotifyExecutorToDeleteTemplates (infos : list CredentialInfoImpl) (changeReasonTrace : bytes) : service Z :=
  WHEN infos = [] RETURN mret INVALID_PARAMETERS ;;
  for_each (λ _ info,
    resourceNode ← call (SelectNode (GetExecutorIndex info));
    match resourceNode with
    | None => mret ()
    | Some node => call (NodeSetProperty node (delete_template (GetTemplateId info) changeReasonTrace));; mret ()
    end) () infos;;
  mret SUCCESS.

(** What an executor is sent with a command. *)
Definition executor_msg (commandId : Z) (msg : bytes) : Attributes * bool :=
  set_all Attributes_new [
    (λ a, SetInt32Value a ATTR_PROPERTY_MODE commandId);
    (λ a, SetUint8ArrayValue a ATTR_EXTRA_INFO msg)].

(* @src U ResourceNodeUtils::SendMsgToExecutor *)
Definition SendMsgToExecutor (executorIndex commandId : Z) (msg : bytes) : service () :=
  resourceNode ← call (SelectNode executorIndex);
  match resourceNode with
  | None => mret ()
  | Some node =>
    let '(properties, ok) := executor_msg commandId msg in
    CHECK ok = true ELSE mret () ;;
    call (NodeSetProperty node properties);;
    mret ()
  end.

(** The property that tells an executor which templates to keep at hand. *)
Definition cached_templates (templateIds : list Z) : Attributes :=
  let attr := (SetUint32Value Attributes_new ATTR_PROPERTY_MODE PROPERTY_MODE_SET_CACHED_TEMPLATES).1 in
  (SetUint64ArrayValue attr ATTR_TEMPLATE_ID_LIST templateIds).1.

(* @src U ResourceNodeUtils::SetCachedTemplates *)
Definition SetCachedTemplates (executorIndex : Z) (infos : list CredentialInfoImpl) : service () :=
  resourceNode ← call (SelectNode executorIndex);
  match resourceNode with
  | None => mret ()
  | Some node =>
    call (NodeSetProperty node (cached_templates (GetTemplateId <$> infos)));;
    mret ()
  end.

Lemma only_Notify infos why : only silent (NotifyExecutorToDeleteTemplates infos why).
Proof. unfold NotifyExecutorToDeleteTemplates. only_steps. Qed.
#[export] Hint Resolve only_Notify : service.
