(* ===== verification/EngineTalk.v ===== *)
(** * Conversations with the engine

    Models the objects behind the contexts, which begin a piece of work with
    the engine, give it the result of the schedule, and cancel it:
    services/core/src/authentication_impl.cpp, enrollment_impl.cpp,
    identification_impl.cpp, delete_impl.cpp, update_pin_param_impl.cpp, and
    credential_updated_manager.cpp, which tells the listeners what happened to
    the credentials. One Module per class; [t] is the state of its object.

    The engine may report tips through the callback it is given while it begins
    or updates an authentication; they go straight to the caller and are not
    modelled. A destructor calls [Cancel]. *)

From S2P Require Import Prelude Defines Interaction ServiceTypes Attributes Platform IpcCommon UserIdmDatabase.
From S2P Require Import NodeCommands.

(* @file A = src/services/core/src/authentication_impl.cpp *)
(* @file AH = src/services/core/src/authentication_impl.h *)
(* @file AI = src/services/core/inc/authentication.h *)
(* @file E = src/services/core/src/enrollment_impl.cpp *)
(* @file EH = src/services/core/src/enrollment_impl.h *)
(* @file I = src/services/core/src/identification_impl.cpp *)
(* @file IH = src/services/core/src/identification_impl.h *)
(* @file IN = src/services/core/inc/identification.h *)
(* @file D = src/services/core/src/delete_impl.cpp *)
(* @file DH = src/services/core/src/delete_impl.h *)
(* @file U = src/services/core/src/update_pin_param_impl.cpp *)
(* @file C = src/services/core/src/credential_updated_manager.cpp *)

(** [SetLatestError] of all the classes: a success is not recorded. *)
(* @src A AuthenticationImpl::SetLatestError *)
Definition latest (old error : Z) : Z := if decide (error ≠ SUCCESS) then error else old.

Lemma latest_failed old error : old ≠ SUCCESS → latest old error ≠ SUCCESS.
Proof. unfold latest. by case_decide. Qed.

(** ** CredentialUpdatedManager *)

Section CredentialUpdated.

(** Every update of the credentials is published and saved for later readers. *)
Definition announce (userId authType : Z) (credentials : list CredentialInfoImpl) : service () :=
  let credentialCount := wrapU 32 (Z.of_nat (length credentials)) in
  call (PublishCredentialUpdatedEvent userId authType credentialCount);;
  call (SaveCredentialUpdatedEvent userId authType credentialCount).

(* @src C CredentialUpdatedManager::ProcessCredentialDeleted *)
Definition ProcessCredentialDeleted (deletePara : DeleteParam) (credentialId authType : Z) : service () :=
  '(ret, credentialInfos) ← GetCredentialInfo (de_userId deletePara) authType;
  CHECK ret = SUCCESS ELSE mret () ;;
  announce (de_userId deletePara) authType credentialInfos;;
  call (PublishUpdatedEvent (de_userId deletePara) credentialId);;
  let changeInfo := mkCredChange (de_callerName deletePara) (de_callerType deletePara) 0 credentialId false in
  WHEN authType ≠ PIN RETURN call (OnNotifyCredChangeEvent (de_userId deletePara) authType DEL_CRED changeInfo) ;;
  mret ().

Definition with_last (changeInfo : CredChangeEventInfo) (lastCredentialId : Z) : CredChangeEventInfo :=
  mkCredChange (cc_callerName changeInfo) (cc_callerType changeInfo) (cc_credentialId changeInfo) lastCredentialId
    (cc_isSilentCredChange changeInfo).

(* @src C CredentialUpdatedManager::ProcessCredentialEnrolled *)
Definition ProcessCredentialEnrolled (enrollPara : EnrollmentPara) (resultInfo : EngEnrollResultInfo)
    (isUpdate : bool) (scheduleId : Z) : service () :=
  let userId := en_userId enrollPara in
  let authType := en_authType enrollPara in
  let changeInfo := mkCredChange (en_callerName enrollPara) (en_callerType enrollPara) (el_credentialId resultInfo) 0 false in
  let updated := with_last changeInfo (ec_credentialId (el_oldInfo resultInfo)) in
  WHEN isUpdate = true ∧ authType = PIN RETURN call (CachePinUpdateParam userId scheduleId updated) ;;
  '(ret, credentialInfos) ← GetCredentialInfo userId authType;
  CHECK ret = SUCCESS ELSE mret () ;;
  announce userId authType credentialInfos;;
  WHEN isUpdate = true ∧ authType ≠ PIN RETURN call (OnNotifyCredChangeEvent userId authType UPDATE_CRED updated) ;;
  WHEN isUpdate = false ∧ authType ≠ PIN RETURN call (OnNotifyCredChangeEvent userId authType ADD_CRED changeInfo) ;;
  call (PublishCreatedEvent userId scheduleId);;
  call (OnNotifyCredChangeEvent userId authType ADD_CRED changeInfo).

End CredentialUpdated.

(** [NodeOptionalPara para;] followed by assignments: the members without an
    initializer that are not assigned keep whatever is in memory. *)
Definition indeterminate_para (collectorTokenId authIntent userId : Z) (tokenId : Z) (additionalInfo : bytes) :
    NodeOptionalPara :=
  mkPara None (Some tokenId) collectorTokenId None None authIntent userId additionalInfo [] AUTH_SCENE_DEFAULT.

(** ** AuthenticationImpl *)

(* @src AI:struct Authentication::AuthResultInfo *)
Record AuthResultInfo := mkAuthResult {
  ar_result : Z;
  ar_authTrustLevel : Z;
  ar_freezingTime : Z;
  ar_remainTimes : Z;
  ar_token : bytes;
  ar_rootSecret : bytes;
  ar_credentialDigest : Z;
  ar_credentialCount : Z;
  ar_sdkVersion : Z;
  ar_userId : Z;
  ar_nextFailLockoutDuration : Z;
  ar_pinExpiredInfo : Z;
  ar_remoteAuthResultMsg : bytes;
  ar_credentialId : Z;
  ar_reEnrollFlag : bool;
}.
Definition AuthResultInfo_new : AuthResultInfo := mkAuthResult 0 0 0 0 [] [] 0 0 0 0 0 0 [] 0 false.

Module Authentication.

(** [executorSensorHint_] is never assigned. *)
(* @src AH:58-71 AuthenticationImpl *)
Record t := mk {
  contextId_ : Z;
  authPara_ : AuthenticationPara;
  endAfterFirstFail_ : bool;
  executorSensorHint_ : Z;
  executorIndex_ : Z;
  challenge_ : bytes;
  tokenId_ : Z;
  running_ : bool;
  latestError_ : Z;
  authExecutorMsgs_ : list EngExecutorSendMsg;
  collectorUdid_ : bytes;
}.

(* @src A AuthenticationImpl::AuthenticationImpl *)
Definition new (contextId : Z) (authPara : AuthenticationPara) : t :=
  mk contextId authPara false 0 0 [] 0 false GENERAL_ERROR [] [].

(* @src A AuthenticationImpl::SetExecutor *)
Definition SetExecutor (a : t) (executorIndex : Z) : t :=
  mk (contextId_ a) (authPara_ a) (endAfterFirstFail_ a) (executorSensorHint_ a) executorIndex (challenge_ a)
    (tokenId_ a) (running_ a) (latestError_ a) (authExecutorMsgs_ a) (collectorUdid_ a).
(* @src A AuthenticationImpl::SetChallenge *)
Definition SetChallenge (a : t) (challenge : bytes) : t :=
  mk (contextId_ a) (authPara_ a) (endAfterFirstFail_ a) (executorSensorHint_ a) (executorIndex_ a) challenge
    (tokenId_ a) (running_ a) (latestError_ a) (authExecutorMsgs_ a) (collectorUdid_ a).
(* @src A AuthenticationImpl::SetAccessTokenId *)
Definition SetAccessTokenId (a : t) (tokenId : Z) : t :=
  mk (contextId_ a) (authPara_ a) (endAfterFirstFail_ a) (executorSensorHint_ a) (executorIndex_ a) (challenge_ a)
    tokenId (running_ a) (latestError_ a) (authExecutorMsgs_ a) (collectorUdid_ a).
(* @src A AuthenticationImpl::SetEndAfterFirstFail *)
Definition SetEndAfterFirstFail (a : t) (endAfterFirstFail : bool) : t :=
  mk (contextId_ a) (authPara_ a) endAfterFirstFail (executorSensorHint_ a) (executorIndex_ a) (challenge_ a)
    (tokenId_ a) (running_ a) (latestError_ a) (authExecutorMsgs_ a) (collectorUdid_ a).
(* @src A AuthenticationImpl::SetCollectorUdid *)
Definition SetCollectorUdid (a : t) (collectorUdid : bytes) : t :=
  mk (contextId_ a) (authPara_ a) (endAfterFirstFail_ a) (executorSensorHint_ a) (executorIndex_ a) (challenge_ a)
    (tokenId_ a) (running_ a) (latestError_ a) (authExecutorMsgs_ a) collectorUdid.
Definition SetLatestError (a : t) (error : Z) : t :=
  mk (contextId_ a) (authPara_ a) (endAfterFirstFail_ a) (executorSensorHint_ a) (executorIndex_ a) (challenge_ a)
    (tokenId_ a) (running_ a) (latest (latestError_ a) error) (authExecutorMsgs_ a) (collectorUdid_ a).
Definition set_running (a : t) (running : bool) : t :=
  mk (contextId_ a) (authPara_ a) (endAfterFirstFail_ a) (executorSensorHint_ a) (executorIndex_ a) (challenge_ a)
    (tokenId_ a) running (latestError_ a) (authExecutorMsgs_ a) (collectorUdid_ a).
Definition add_msgs (a : t) (msgs : list EngExecutorSendMsg) : t :=
  mk (contextId_ a) (authPara_ a) (endAfterFirstFail_ a) (executorSensorHint_ a) (executorIndex_ a) (challenge_ a)
    (tokenId_ a) (running_ a) (latestError_ a) (authExecutorMsgs_ a ++ msgs) (collectorUdid_ a).

(* @src A AuthenticationImpl::GetAccessTokenId *)
Definition GetAccessTokenId (a : t) : Z := tokenId_ a.
(* @src A AuthenticationImpl::GetUserId *)
Definition GetUserId (a : t) : Z := pa_userId (authPara_ a).
(* @src A AuthenticationImpl::GetAuthType *)
Definition GetAuthType (a : t) : Z := pa_authType (authPara_ a).
(* @src A AuthenticationImpl::GetLatestError *)
Definition GetLatestError (a : t) : Z := latestError_ a.
(* @src A AuthenticationImpl::GetAuthExecutorMsgs *)
Definition GetAuthExecutorMsgs (a : t) : list EngExecutorSendMsg := authExecutorMsgs_ a.

(* @src A AuthenticationImpl::GetAuthParam *)
Definition GetAuthParam (a : t) : option EngAuthParamExt :=
  let p := authPara_ a in
  callerType ← GetEngCallerType (pa_callerType p);
  Some (mkAuthParamExt
    (mkAuthParamBase (pa_userId p) (pa_atl p) (executorSensorHint_ a) (challenge_ a) (pa_callerName p) callerType
      (pa_sdkVersion p) (pa_callerPermissions p))
    (pa_authType p) (pa_authIntent p) (pa_isOsAccountVerified p) (collectorUdid_ a) (pa_credentialIdList p)).

(** What the schedules are told. *)
Definition schedule_para (a : t) : NodeOptionalPara :=
  let p := authPara_ a in
  mkPara None (Some (tokenId_ a)) (pa_collectorTokenId p) None (Some (endAfterFirstFail_ a)) (pa_authIntent p)
    (pa_userId p) [] (pa_title p) (pa_authScene p).

(** The schedules, if it started. *)
(* @src A AuthenticationImpl::Start *)
Definition Start (a : t) : service (t * option (list Schedule)) :=
  match GetAuthParam a with
  | None => mret (a, None)
  | Some param =>
    '(result, infos) ← call (EngBeginAuthenticationExt (contextId_ a) param);
    CHECK result = SUCCESS ELSE mret (SetLatestError a result, None) ;;
    WHEN infos = [] RETURN mret (a, None) ;;
    scheduleList ← call (BuildFromHdi infos (schedule_para a));
    match scheduleList with
    | None => mret (a, None)
    | Some scheduleList => mret (set_running a true, Some scheduleList)
    end
  end.

(** The out parameter of [Update]. *)
Definition result_info (a : t) (resultInfo : AuthResultInfo) (info : EngAuthResultInfo) (state : EngEnrolledState) :
    AuthResultInfo :=
  mkAuthResult (ea_result info)
    (if decide (ea_result info = SUCCESS) then default (wrapU 32 (pa_atl (authPara_ a))) (ea_authTrustLevel info)
     else ar_authTrustLevel resultInfo)
    (ea_lockoutDuration info) (ea_remainAttempts info) (ea_token info) (ea_rootSecret info)
    (es_credentialDigest state) (es_credentialCount state) (pa_sdkVersion (authPara_ a)) (ea_userId info)
    (ar_nextFailLockoutDuration resultInfo) (ea_pinExpiredInfo info) (ea_remoteAuthResultMsg info)
    (ea_credentialId info) (ea_reEnrollFlag info).

(* @src A AuthenticationImpl::Update *)
Definition Update (a : t) (scheduleResult : bytes) (resultInfo : AuthResultInfo) :
    service (t * AuthResultInfo * bool) :=
  '(result, info, enrolledState) ← call (EngUpdateAuthenticationResult (contextId_ a) scheduleResult);
  let a := SetLatestError a result in
  let a := add_msgs a (ea_msgs info) in
  let resultInfo := result_info a resultInfo info enrolledState in
  let a := SetLatestError a (ar_result resultInfo) in
  mret (a, resultInfo, bool_decide (result = SUCCESS ∧ ar_result resultInfo = SUCCESS)).

(* @src A AuthenticationImpl::Cancel *)
Definition Cancel (a : t) : service (t * bool) :=
  WHEN running_ a = false RETURN mret (a, false) ;;
  let a := set_running a false in
  result ← call (EngCancelAuthentication (contextId_ a));
  CHECK result = SUCCESS ELSE mret (SetLatestError a result, false) ;;
  mret (a, true).

(* @src A AuthenticationImpl::~AuthenticationImpl *)
Definition destroy (a : t) : service () := '(_, _) ← Cancel a; mret ().

End Authentication.

(** ** UpdatePinParamImpl *)

(* @src U UpdatePinParamImpl::UpdatePinParamImpl *)
Record UpdatePinParamImpl := mkUpdatePin {
  oldCredentialId_ : Z;
  oldRootSecret_ : bytes;
  rootSecret_ : bytes;
  authToken_ : bytes;
}.
(* @src U UpdatePinParamImpl::GetOldCredentialId *)
Definition GetOldCredentialId (p : UpdatePinParamImpl) : Z := oldCredentialId_ p.
(* @src U UpdatePinParamImpl::GetOldRootSecret *)
Definition GetOldRootSecret (p : UpdatePinParamImpl) : bytes := oldRootSecret_ p.
(* @src U UpdatePinParamImpl::GetRootSecret *)
Definition GetRootSecret (p : UpdatePinParamImpl) : bytes := rootSecret_ p.
(* @src U UpdatePinParamImpl::GetAuthToken *)
Definition GetAuthToken (p : UpdatePinParamImpl) : bytes := authToken_ p.

(** ** EnrollmentImpl *)

(** The out parameters of [EnrollmentImpl::Update]. *)
Record EnrollOut := mkEnrollOut {
  eo_credentialId : Z;
  eo_info : option CredentialInfoImpl;
  eo_pinInfo : option UpdatePinParamImpl;
  eo_secUserId : option Z;
}.
Definition EnrollOut_new : EnrollOut := mkEnrollOut 0 None None None.

Module Enrollment.

(* @src EH:58-68 EnrollmentImpl *)
Record t := mk {
  enrollPara_ : EnrollmentPara;
  authToken_ : bytes;
  secUserId_ : option Z;
  executorSensorHint_ : Z;
  tokenId_ : Z;
  scheduleId_ : Z;
  pinSubType_ : Z;
  isUpdate_ : bool;
  running_ : bool;
  latestError_ : Z;
}.

(* @src E EnrollmentImpl::EnrollmentImpl *)
Definition new (enrollPara : EnrollmentPara) : t :=
  mk enrollPara [] None 0 0 0 PIN_MAX false false GENERAL_ERROR.

(* @src E EnrollmentImpl::SetExecutorSensorHint *)
Definition SetExecutorSensorHint (e : t) (executorSensorHint : Z) : t :=
  mk (enrollPara_ e) (authToken_ e) (secUserId_ e) executorSensorHint (tokenId_ e) (scheduleId_ e) (pinSubType_ e)
    (isUpdate_ e) (running_ e) (latestError_ e).
(* @src E EnrollmentImpl::SetAuthToken *)
Definition SetAuthToken (e : t) (authToken : bytes) : t :=
  mk (enrollPara_ e) authToken (secUserId_ e) (executorSensorHint_ e) (tokenId_ e) (scheduleId_ e) (pinSubType_ e)
    (isUpdate_ e) (running_ e) (latestError_ e).
(* @src E EnrollmentImpl::SetAccessTokenId *)
Definition SetAccessTokenId (e : t) (tokenId : Z) : t :=
  mk (enrollPara_ e) (authToken_ e) (secUserId_ e) (executorSensorHint_ e) tokenId (scheduleId_ e) (pinSubType_ e)
    (isUpdate_ e) (running_ e) (latestError_ e).
(* @src E EnrollmentImpl::SetPinSubType *)
Definition SetPinSubType (e : t) (pinSubType : Z) : t :=
  mk (enrollPara_ e) (authToken_ e) (secUserId_ e) (executorSensorHint_ e) (tokenId_ e) (scheduleId_ e) pinSubType
    (isUpdate_ e) (running_ e) (latestError_ e).
(* @src E EnrollmentImpl::SetIsUpdate *)
Definition SetIsUpdate (e : t) (isUpdate : bool) : t :=
  mk (enrollPara_ e) (authToken_ e) (secUserId_ e) (executorSensorHint_ e) (tokenId_ e) (scheduleId_ e) (pinSubType_ e)
    isUpdate (running_ e) (latestError_ e).
Definition SetLatestError (e : t) (error : Z) : t :=
  mk (enrollPara_ e) (authToken_ e) (secUserId_ e) (executorSensorHint_ e) (tokenId_ e) (scheduleId_ e) (pinSubType_ e)
    (isUpdate_ e) (running_ e) (latest (latestError_ e) error).
Definition set_secUserId (e : t) (secUserId : option Z) : t :=
  mk (enrollPara_ e) (authToken_ e) secUserId (executorSensorHint_ e) (tokenId_ e) (scheduleId_ e) (pinSubType_ e)
    (isUpdate_ e) (running_ e) (latestError_ e).
Definition set_running (e : t) (running : bool) : t :=
  mk (enrollPara_ e) (authToken_ e) (secUserId_ e) (executorSensorHint_ e) (tokenId_ e) (scheduleId_ e) (pinSubType_ e)
    (isUpdate_ e) running (latestError_ e).
Definition set_scheduleId (e : t) (scheduleId : Z) : t :=
  mk (enrollPara_ e) (authToken_ e) (secUserId_ e) (executorSensorHint_ e) (tokenId_ e) scheduleId (pinSubType_ e)
    (isUpdate_ e) (running_ e) (latestError_ e).

(* @src E EnrollmentImpl::GetAccessTokenId *)
Definition GetAccessTokenId (e : t) : Z := tokenId_ e.
(* @src E EnrollmentImpl::GetUserId *)
Definition GetUserId (e : t) : Z := en_userId (enrollPara_ e).
(* @src E EnrollmentImpl::GetLatestError *)
Definition GetLatestError (e : t) : Z := latestError_ e.

(** The out parameter and whether it succeeded. *)
(* @src E EnrollmentImpl::GetSecUserId *)
Definition GetSecUserId (e : t) : service (option Z * bool) :=
  WHEN en_authType (enrollPara_ e) ≠ PIN RETURN mret (None, true) ;;
  '(ret, userInfo) ← GetSecUserInfo (en_userId (enrollPara_ e));
  CHECK ret = SUCCESS ELSE mret (None, false) ;;
  match userInfo with
  | Some userInfo => mret (Some (su_secUserId userInfo), true)
  | None =>
    WHEN isUpdate_ e = true RETURN mret (None, false) ;;
    DeleteUserEnforce (en_userId (enrollPara_ e));;
    mret (None, false)
  end.

(** [collectorTokenId] and [authIntent] of [para] are not set. *)
(* @src E EnrollmentImpl::StartSchedule *)
Definition StartSchedule (e : t) (userId : Z) (info : EngScheduleInfo) : service (t * option (list Schedule)) :=
  collectorTokenId ← call (Uninitialized "collectorTokenId");
  authIntent ← call (Uninitialized "authIntent");
  let para := indeterminate_para collectorTokenId authIntent userId (tokenId_ e) (en_additionalInfo (enrollPara_ e)) in
  scheduleList ← call (BuildFromHdi [info] para);
  match scheduleList with
  | Some (schedule :: rest) =>
    mret (set_running (set_scheduleId e (sc_id schedule)) true, Some (schedule :: rest))
  | _ => mret (e, None)
  end.

Definition enroll_param (e : t) (callerType userType : Z) : EngEnrollParamExt :=
  let p := enrollPara_ e in
  mkEnrollParamExt (en_authType p) (executorSensorHint_ e) (en_callerName p) callerType (en_sdkVersion p)
    (en_userId p) userType (en_pinType p) (en_additionalInfo p).

(* @src E EnrollmentImpl::Start *)
Definition Start (e : t) : service (t * option (list Schedule)) :=
  match GetEngCallerType (en_callerType (enrollPara_ e)) with
  | None => mret (e, None)
  | Some callerType =>
    '(e, cached) ← (if isUpdate_ e then
        '(secUserId, ok) ← GetSecUserId e;
        mret (set_secUserId e secUserId, ok)
      else mret (e, true));
    CHECK cached = true ELSE mret (e, None) ;;
    userType ← GetUserTypeByUserId (en_userId (enrollPara_ e));
    match userType with
    | None => mret (e, None)
    | Some userType =>
      '(result, info) ← call (EngBeginEnrollmentExt (authToken_ e) (enroll_param e callerType userType));
      CHECK result = SUCCESS ELSE mret (SetLatestError e result, None) ;;
      StartSchedule e (en_userId (enrollPara_ e)) info
    end
  end.

(** [secUserId] is the caller's variable, which [Update] only changes where it
    assigns it. *)
(* @src E EnrollmentImpl::Update *)
Definition Update (e : t) (scheduleResult : bytes) : service (t * EnrollOut * bool) :=
  '(result, resultInfo) ← call (EngUpdateEnrollmentResult (en_userId (enrollPara_ e)) scheduleResult);
  CHECK result = SUCCESS ELSE mret (SetLatestError e result, EnrollOut_new, false) ;;
  let credentialId := el_credentialId resultInfo in
  ok ← call (MakeShared "UpdatePinParamImpl");
  CHECK ok = true ELSE mret (e, mkEnrollOut credentialId None None None, false) ;;
  let pinInfo := mkUpdatePin (ec_credentialId (el_oldInfo resultInfo)) (el_oldRootSecret resultInfo)
    (el_rootSecret resultInfo) (el_authToken resultInfo) in
  '(out, ok) ← (if isUpdate_ e then
      ok ← call (MakeShared "CredentialInfoImpl");
      let info := if (ok : bool) then Some (mkCredImpl (en_userId (enrollPara_ e)) (el_oldInfo resultInfo)) else None in
      mret (mkEnrollOut credentialId info (Some pinInfo) (secUserId_ e), ok)
    else
      '(secUserId, ok) ← GetSecUserId e;
      mret (mkEnrollOut credentialId None (Some pinInfo) secUserId, ok));
  CHECK ok = true ELSE mret (e, out, false) ;;
  ProcessCredentialEnrolled (enrollPara_ e) resultInfo (isUpdate_ e) (scheduleId_ e);;
  mret (e, out, true).

(* @src E EnrollmentImpl::Cancel *)
Definition Cancel (e : t) : service (t * bool) :=
  WHEN running_ e = false RETURN mret (e, false) ;;
  let e := set_running e false in
  result ← call (EngCancelEnrollment (en_userId (enrollPara_ e)));
  CHECK result = SUCCESS ELSE mret (SetLatestError e result, false) ;;
  mret (e, true).

(* @src E EnrollmentImpl::~EnrollmentImpl *)
Definition destroy (e : t) : service () := '(_, _) ← Cancel e; mret ().

End Enrollment.

(** ** IdentificationImpl *)

(* @src IN:struct Identification::IdentifyResultInfo *)
Record IdentifyResultInfo := mkIdentifyResult { ir_result : Z; ir_userId : Z; ir_token : bytes }.
Definition IdentifyResultInfo_new : IdentifyResultInfo := mkIdentifyResult 0 0 [].

Module Identification.

(* @src IH:49-57 IdentificationImpl *)
Record t := mk {
  contextId_ : Z;
  authType_ : Z;
  executorIndex_ : Z;
  challenge_ : bytes;
  tokenId_ : Z;
  running_ : bool;
  latestError_ : Z;
}.

(* @src I IdentificationImpl::IdentificationImpl *)
Definition new (contextId authType : Z) : t := mk contextId authType 0 [] 0 false GENERAL_ERROR.
(* @src I IdentificationImpl::SetExecutor *)
Definition SetExecutor (i : t) (executorIndex : Z) : t :=
  mk (contextId_ i) (authType_ i) executorIndex (challenge_ i) (tokenId_ i) (running_ i) (latestError_ i).
(* @src I IdentificationImpl::SetChallenge *)
Definition SetChallenge (i : t) (challenge : bytes) : t :=
  mk (contextId_ i) (authType_ i) (executorIndex_ i) challenge (tokenId_ i) (running_ i) (latestError_ i).
(* @src I IdentificationImpl::SetAccessTokenId *)
Definition SetAccessTokenId (i : t) (tokenId : Z) : t :=
  mk (contextId_ i) (authType_ i) (executorIndex_ i) (challenge_ i) tokenId (running_ i) (latestError_ i).
(* @src I IdentificationImpl::SetLatestError *)
Definition SetLatestError (i : t) (error : Z) : t :=
  mk (contextId_ i) (authType_ i) (executorIndex_ i) (challenge_ i) (tokenId_ i) (running_ i)
    (latest (latestError_ i) error).
Definition set_running (i : t) (running : bool) : t :=
  mk (contextId_ i) (authType_ i) (executorIndex_ i) (challenge_ i) (tokenId_ i) running (latestError_ i).
(* @src I IdentificationImpl::GetAccessTokenId *)
Definition GetAccessTokenId (i : t) : Z := tokenId_ i.
(* @src I IdentificationImpl::GetLatestError *)
Definition GetLatestError (i : t) : Z := latestError_ i.

(** Three members of [para] are not set. *)
(* @src I IdentificationImpl::Start *)
Definition Start (i : t) : service (t * option (list Schedule)) :=
  '(result, info) ← call (EngBeginIdentification (contextId_ i) (authType_ i) (challenge_ i) (executorIndex_ i));
  CHECK result = SUCCESS ELSE mret (SetLatestError i result, None) ;;
  collectorTokenId ← call (Uninitialized "collectorTokenId");
  authIntent ← call (Uninitialized "authIntent");
  userId ← call (Uninitialized "userId");
  scheduleList ← call (BuildFromHdi [info] (indeterminate_para collectorTokenId authIntent userId (tokenId_ i) []));
  match scheduleList with
  | None => mret (i, None)
  | Some scheduleList => mret (set_running i true, Some scheduleList)
  end.

(* @src I IdentificationImpl::Update *)
Definition Update (i : t) (scheduleResult : bytes) (resultInfo : IdentifyResultInfo) :
    service (t * IdentifyResultInfo * bool) :=
  '(result, info) ← call (EngUpdateIdentificationResult (contextId_ i) scheduleResult);
  CHECK result = SUCCESS ELSE mret (SetLatestError i result, resultInfo, false) ;;
  mret (i, mkIdentifyResult (eq_result info) (eq_userId info) (eq_token info), true).

(* @src I IdentificationImpl::Cancel *)
Definition Cancel (i : t) : service (t * bool) :=
  WHEN running_ i = false RETURN mret (i, false) ;;
  let i := set_running i false in
  result ← call (EngCancelIdentification (contextId_ i));
  CHECK result = SUCCESS ELSE mret (SetLatestError i result, false) ;;
  mret (i, true).

(* @src I IdentificationImpl::~IdentificationImpl *)
Definition destroy (i : t) : service () := '(_, _) ← Cancel i; mret ().

End Identification.

(** ** DeleteImpl *)

(** What [Start] gives back: the schedule, if it built one, whether it has to
    be started, and the credentials. *)
Record DeleteOut := mkDeleteOut {
  do_scheduleList : list Schedule;
  do_isStartSchedule : bool;
  do_credentialInfos : list EngCredentialInfo;
}.

Module Deletion.

(* @src DH:53-57 DeleteImpl *)
Record t := mk {
  deletePara_ : DeleteParam;
  tokenId_ : Z;
  scheduleId_ : Z;
  latestError_ : Z;
}.

(* @src D DeleteImpl::DeleteImpl *)
Definition new (deletePara : DeleteParam) : t := mk deletePara 0 0 GENERAL_ERROR.
(* @src D DeleteImpl::SetAccessTokenId *)
Definition SetAccessTokenId (d : t) (tokenId : Z) : t := mk (deletePara_ d) tokenId (scheduleId_ d) (latestError_ d).
(* @src D DeleteImpl::SetLatestError *)
Definition SetLatestError (d : t) (error : Z) : t :=
  mk (deletePara_ d) (tokenId_ d) (scheduleId_ d) (latest (latestError_ d) error).
Definition set_scheduleId (d : t) (scheduleId : Z) : t := mk (deletePara_ d) (tokenId_ d) scheduleId (latestError_ d).
(* @src D DeleteImpl::GetAccessTokenId *)
Definition GetAccessTokenId (d : t) : Z := tokenId_ d.
(* @src D DeleteImpl::GetUserId *)
Definition GetUserId (d : t) : Z := de_userId (deletePara_ d).
(* @src D DeleteImpl::GetLatestError *)
Definition GetLatestError (d : t) : Z := latestError_ d.

(* @src D DeleteImpl::StartSchedule *)
Definition StartSchedule (d : t) (userId : Z) (info : EngScheduleInfo) : service (t * option (list Schedule)) :=
  collectorTokenId ← call (Uninitialized "collectorTokenId");
  authIntent ← call (Uninitialized "authIntent");
  scheduleList ← call (BuildFromHdi [info] (indeterminate_para collectorTokenId authIntent userId (tokenId_ d) []));
  match scheduleList with
  | Some (schedule :: rest) => mret (set_scheduleId d (sc_id schedule), Some (schedule :: rest))
  | _ => mret (d, None)
  end.

(** The templates are deleted by a task on a thread of its own. *)
(* @src D DeleteImpl::DeleteCredential *)
Definition DeleteCredential (d : t) (userId : Z) (credentialInfos : list EngCredentialInfo) : service bool :=
  '(ret, list) ← wrap_credentials userId credentialInfos [];
  CHECK ret = SUCCESS ELSE mret false ;;
  call (PostTask (TaskDeleteTemplates (map (λ info, (GetExecutorIndex info, GetTemplateId info)) list)));;
  for_each (λ _ info, ProcessCredentialDeleted (deletePara_ d) (GetCredentialId info) (GetAuthType info)) () list;;
  mret true.

(* @src D DeleteImpl::Start *)
Definition Start (d : t) : service (t * DeleteOut * bool) :=
  let p := deletePara_ d in
  '(ret, hdiResult) ← call (EngDeleteCredential (de_userId p) (de_credentialId p) (de_token p));
  CHECK ret = SUCCESS ELSE mret (SetLatestError d ret, mkDeleteOut [] false [], false) ;;
  let infos := eo_credentialInfos hdiResult in
  if decide (eo_operateType hdiResult = CREDENTIAL_ABANDON) then
    '(d, scheduleList) ← StartSchedule d (de_userId p) (eo_scheduleInfo hdiResult);
    match scheduleList with
    | None => mret (d, mkDeleteOut [] true infos, false)
    | Some scheduleList => mret (d, mkDeleteOut scheduleList true infos, true)
    end
  else if decide (eo_operateType hdiResult = CREDENTIAL_DELETE ∨ eo_operateType hdiResult = PIN_UPDATE) then
    ok ← DeleteCredential d (de_userId p) infos;
    mret (d, mkDeleteOut [] false infos, ok)
  else mret (d, mkDeleteOut [] false infos, false).

(** [info] stays empty when there is nothing to delete. *)
(* @src D DeleteImpl::Update *)
Definition Update (d : t) (scheduleResult : bytes) : service (t * option CredentialInfoImpl * bool) :=
  let p := deletePara_ d in
  '(result, credentialInfos) ← call (EngUpdateAbandonResult (de_userId p) scheduleResult);
  CHECK result = SUCCESS ELSE mret (SetLatestError d result, None, false) ;;
  '(info, ok) ← (match credentialInfos with
    | [] => mret (None, true)
    | credentialInfo :: _ =>
      ok ← call (MakeShared "CredentialInfoImpl");
      mret (if (ok : bool) then Some (mkCredImpl (de_userId p) credentialInfo) else None, ok)
    end);
  CHECK ok = true ELSE mret (d, info, false) ;;
  ProcessCredentialDeleted p (de_credentialId p) PIN;;
  mret (d, info, true).

(* @src D DeleteImpl::Cancel *)
Definition Cancel (d : t) : service (t * bool) := mret (d, true).

End Deletion.
