(* ===== verification/Recognition.v ===== *)
(** * The state of user recognition and its listeners

    Models user_recognition_state_manager.cpp: the last recognition result, the
    listeners and the events that the single thread delivers to them.

    Callers of the manager run on their own threads. The lock is not held
    during all of [SetUserRecognitionResult]: a caller stores its result
    ([store_result]), reads the listeners ([collect_listeners]) and posts the
    event ([post_event]) in three pieces, between which anything can happen; a
    caller between two pieces is a [Setter]. Listeners and the objects behind
    them are named by numbers, the map is keyed by the object. The instance is
    replaced by nobody but the tests. Traces are left out. *)

From S2P Require Import Prelude Defines.

(* @file U = src/services/core/src/user_recognition_state_manager.cpp *)
(* @file UH = src/services/core/inc/user_recognition_state_manager_impl.h *)
(* @file CD = src/services/base/src/callback_death_recipient.cpp *)
(* @file IT = src/frameworks/native/ipc/idl/UserAuthTypes.idl *)
(* @file DE = src/interfaces/inner_api/user_auth_client_defines.h *)

(** [UserRecognitionStatus] *)
(* @src DE:238-238 UNCERTAIN *)
Definition UNCERTAIN : Z := 0.
(* @src DE:239-239 MISMATCH *)
Definition MISMATCH : Z := 1.
(* @src DE:240-240 MATCH *)
Definition MATCH : Z := 2.

(* @src IT:239-250 IpcUserRecognitionResult *)
Record RecognitionResult := mkRecognition {
  status : Z;
  userId : Z;
  userInfo : bytes;
  hasAuthTrustLevel : bool;
  authTrustLevel : Z;
}.
#[export] Instance RecognitionResult_eq_dec : EqDecision RecognitionResult.
Proof. solve_decision. Defined.

(** A callback, the object it leads to and whether that is in another process. *)
Record Listener := mkListener {
  callbackId : Z;
  object : option Z;
  isProxyObject : bool;
}.
#[export] Instance Listener_eq_dec : EqDecision Listener.
Proof. solve_decision. Defined.

(* @src UH:46-49 ListenerEntry *)
Record ListenerEntry := mkEntry { callback : option Listener; deathRecipient : bool }.

(** The tasks of the single thread: an event for a snapshot of the listeners, the
    catch-up event of a new listener, and the clean-up after a death. *)
Inductive Task :=
  | Notify (snapshot : list ListenerEntry) (result : RecognitionResult)
  | Sync (listener : Listener) (result : RecognitionResult)
  | Cleanup (listener : Listener).

(** A caller between two pieces of [SetUserRecognitionResult]. *)
Inductive Setter :=
  | Stored (result : RecognitionResult)
  | Collected (snapshot : list ListenerEntry) (result : RecognitionResult).

Record Manager := mkManager {
  listenerMap_ : gmap Z ListenerEntry;
  cachedResult_ : RecognitionResult;
  tasks : list Task;
  setters : gmap nat Setter;
  heard : list (Listener * RecognitionResult);
}.
Implicit Types s : Manager.

Definition set_map s (m : gmap Z ListenerEntry) : Manager := mkManager m (cachedResult_ s) (tasks s) (setters s) (heard s).
Definition set_setters s (m : gmap nat Setter) : Manager :=
  mkManager (listenerMap_ s) (cachedResult_ s) (tasks s) m (heard s).
Definition post s (t : Task) : Manager :=
  mkManager (listenerMap_ s) (cachedResult_ s) (tasks s ++ [t]) (setters s) (heard s).

(* @src UH:51-53 UserRecognitionStateManager *)
Definition Manager_new : Manager := mkManager ∅ (mkRecognition UNCERTAIN 0 [] false 0) [] ∅ [].

(** [handler] says whether the single thread exists, [alive] whether the object
    still accepts a death recipient. *)
(* @src U UserRecognitionStateManager::RegisterListener *)
Definition RegisterListener s (listener : option Listener) (handler alive : bool) : Manager * Z :=
  match listener with
  | None => (s, GENERAL_ERROR)
  | Some listener =>
    match object listener with
    | None => (s, GENERAL_ERROR)
    | Some obj =>
      CHECK handler = true ELSE (s, GENERAL_ERROR) ;;
      WHEN is_Some (listenerMap_ s !! obj) RETURN (s, SUCCESS) ;;
      WHEN isProxyObject listener = true ∧ alive = false RETURN (s, GENERAL_ERROR) ;;
      let entry := mkEntry (Some listener) (isProxyObject listener) in
      let s := set_map s (<[obj := entry]> (listenerMap_ s)) in
      (post s (Sync listener (cachedResult_ s)), SUCCESS)
    end
  end.

(* @src U UserRecognitionStateManager::UnregisterListener *)
Definition UnregisterListener s (listener : option Listener) : Manager * Z :=
  match listener with
  | None => (s, GENERAL_ERROR)
  | Some listener =>
    match object listener with
    | None => (s, GENERAL_ERROR)
    | Some obj =>
      CHECK is_Some (listenerMap_ s !! obj) ELSE (s, SUCCESS) ;;
      (set_map s (delete obj (listenerMap_ s)), SUCCESS)
    end
  end.

(* @src U UserRecognitionStateManager::GetCachedUserRecognitionResult *)
Definition GetCachedUserRecognitionResult s : RecognitionResult := cachedResult_ s.

(* @src U UserRecognitionStateManager::IsSameRecognitionResult *)
Definition IsSameRecognitionResult (a b : RecognitionResult) : bool :=
  bool_decide (status a = status b) && bool_decide (userId a = userId b) && bool_decide (userInfo a = userInfo b) &&
  bool_decide (hasAuthTrustLevel a = hasAuthTrustLevel b) && bool_decide (authTrustLevel a = authTrustLevel b).

(** Only a match carries a trust level. *)
(* @src U:181-184 UserRecognitionStateManager::SetUserRecognitionResult *)
Definition gate_trust_level (result : RecognitionResult) : RecognitionResult :=
  WHEN status result ≠ MATCH RETURN mkRecognition (status result) (userId result) (userInfo result) false 0 ;;
  result.

(** The first piece of [SetUserRecognitionResult]. *)
(* @src U:186-206 UserRecognitionStateManager::SetUserRecognitionResult *)
Definition store_result s (thread : nat) (result : RecognitionResult) : Manager :=
  let result := gate_trust_level result in
  WHEN IsSameRecognitionResult (cachedResult_ s) result = true RETURN s ;;
  mkManager (listenerMap_ s) result (tasks s) (<[thread := Stored result]> (setters s)) (heard s).

(** [OnUserRecognitionEvent], with which [SetUserRecognitionResult] ends, is the
    other two pieces. The map is ordered by address: the order of the snapshot
    is some order. *)
(* @src U:154-163 UserRecognitionStateManager::OnUserRecognitionEvent *)
Definition collect_listeners s (thread : nat) : Manager :=
  match setters s !! thread with
  | Some (Stored result) =>
    let snapshot := filter (λ e, is_Some (callback e)) (snd <$> map_to_list (listenerMap_ s)) in
    set_setters s (<[thread := Collected snapshot result]> (setters s))
  | _ => s
  end.

(* @src U:164-173 UserRecognitionStateManager::OnUserRecognitionEvent *)
Definition post_event s (thread : nat) (handler : bool) : Manager :=
  match setters s !! thread with
  | Some (Collected snapshot result) =>
    let s := set_setters s (delete thread (setters s)) in
    CHECK handler = true ELSE s ;;
    post s (Notify snapshot result)
  | _ => s
  end.

(** What a task tells whom. *)
(* @src U:166-173 UserRecognitionStateManager::OnUserRecognitionEvent *)
Definition task_events (t : Task) : list (Listener * RecognitionResult) :=
  match t with
  | Notify snapshot result => (λ l, (l, result)) <$> omap callback snapshot
  | Sync listener result => [(listener, result)]
  | Cleanup _ => []
  end.

Definition run_task s : Manager :=
  match tasks s with
  | [] => s
  | t :: ts =>
    let s := mkManager (listenerMap_ s) (cachedResult_ s) ts (setters s) (heard s ++ task_events t) in
    match t with Cleanup l => (UnregisterListener s (Some l)).1 | _ => s end
  end.

(** The object dies: its recipient posts the clean-up that it was made with. *)
(* @src CD CallbackDeathRecipient::OnRemoteDied *)
Definition OnRemoteDied s (obj : Z) (handler : bool) : Manager :=
  match listenerMap_ s !! obj with
  | Some (mkEntry (Some l) true) => CHECK handler = true ELSE s ;; post s (Cleanup l)
  | _ => s
  end.

(** ** Histories *)

Inductive Happening :=
  | Registers (listener : option Listener) (handler alive : bool)
  | Unregisters (listener : option Listener)
  | Sets (thread : nat) (result : RecognitionResult)
  | Collects (thread : nat)
  | Posts (thread : nat) (handler : bool)
  | Runs
  | Dies (obj : Z) (handler : bool).

(** A thread that is in the middle of a call does not start another. *)
Definition happens s (h : Happening) : Manager :=
  match h with
  | Registers l handler alive => (RegisterListener s l handler alive).1
  | Unregisters l => (UnregisterListener s l).1
  | Sets thread result => match setters s !! thread with None => store_result s thread result | Some _ => s end
  | Collects thread => collect_listeners s thread
  | Posts thread handler => post_event s thread handler
  | Runs => run_task s
  | Dies obj handler => OnRemoteDied s obj handler
  end.

Definition runs (s : Manager) (hs : list Happening) : Manager := foldl happens s hs.

(** Callers wait for each other, and the single thread takes their events. *)
Definition in_turn s (h : Happening) : Prop :=
  match h with
  | Sets _ _ => setters s = ∅
  | Posts _ handler => handler = true
  | _ => True
  end.
Fixpoint all_in_turn s (hs : list Happening) : Prop :=
  match hs with
  | [] => True
  | h :: hs => in_turn s h ∧ all_in_turn (happens s h) hs
  end.

(** Nobody is inside the manager and nothing is posted. *)
Definition quiet s : Prop := setters s = ∅ ∧ tasks s = [].

(** All that the listeners behind an object have been and will be told. *)
Definition about (obj : Z) (es : list (Listener * RecognitionResult)) : list RecognitionResult :=
  snd <$> filter (λ e, object e.1 = Some obj) es.
Definition told s (obj : Z) : list RecognitionResult := about obj (heard s ++ (tasks s ≫= task_events)).

Definition trusted (r : RecognitionResult) : Prop := status r ≠ MATCH → hasAuthTrustLevel r = false ∧ authTrustLevel r = 0.

(** ** Steps *)

Section Steps.

Lemma same_result a b : IsSameRecognitionResult a b = true ↔ a = b.
Proof.
  unfold IsSameRecognitionResult. rewrite !andb_true_iff, !bool_decide_eq_true. destruct a, b; simpl.
  split; [naive_solver|]. by intros [= -> -> -> -> ->].
Qed.

Lemma gate_trusted r : trusted (gate_trust_level r).
Proof. unfold trusted, gate_trust_level. case_decide; simpl; [done|]. naive_solver. Qed.

Lemma about_app obj es es' : about obj (es ++ es') = about obj es ++ about obj es'.
Proof. unfold about. by rewrite filter_app, fmap_app. Qed.

Lemma told_post s t obj : told (post s t) obj = told s obj ++ about obj (task_events t).
Proof. unfold told. cbn [heard tasks post]. by rewrite bind_app, bind_singleton, app_assoc, about_app. Qed.

Lemma told_set_map s m obj : told (set_map s m) obj = told s obj.
Proof. done. Qed.

(** The only things that running a task changes: it hands over events that were
    due, and a clean-up removes a listener. *)
Lemma unregister_same s l obj :
  told (UnregisterListener s l).1 obj = told s obj ∧ heard (UnregisterListener s l).1 = heard s ∧
  setters (UnregisterListener s l).1 = setters s ∧ cachedResult_ (UnregisterListener s l).1 = cachedResult_ s ∧
  listenerMap_ (UnregisterListener s l).1 ⊆ listenerMap_ s ∧ tasks (UnregisterListener s l).1 = tasks s.
Proof.
  destruct l as [[? [o|] ?]|]; simpl; try done. case_decide; simpl; [|done].
  split_and!; try done. apply delete_subseteq.
Qed.

Lemma run_task_same s obj :
  told (run_task s) obj = told s obj ∧ setters (run_task s) = setters s ∧
  cachedResult_ (run_task s) = cachedResult_ s ∧ listenerMap_ (run_task s) ⊆ listenerMap_ s ∧
  tasks (run_task s) = tail (tasks s).
Proof.
  unfold run_task. destruct (tasks s) as [|t ts] eqn:E; [done|].
  set (s' := mkManager _ _ ts _ _).
  assert (told s' obj = told s obj) as Ht by (unfold told, s'; simpl; by rewrite E, bind_cons, app_assoc).
  destruct t as [es r|l r|l]; try (by rewrite Ht).
  destruct (unregister_same s' (Some l) obj) as (-> & _ & -> & -> & Hm & ->). by rewrite Ht.
Qed.

Lemma about_filter obj l r : about obj [(l, r)] = if decide (object l = Some obj) then [r] else [].
Proof. unfold about. by rewrite filter_cons; simpl; case_decide. Qed.

End Steps.

(** ** Every caller in turn *)

(** The entry leads to the object that it is filed under. *)
Definition entry_ok (obj : Z) (e : ListenerEntry) : Prop := ∃ l, callback e = Some l ∧ object l = Some obj.

(** What a registered listener hears last is or will be the stored result, once
    the caller that is inside the manager, if any, has posted its event. *)
Definition up_to_date s (obj : Z) (e : ListenerEntry) : Prop := last (told s obj) = Some (cachedResult_ s).
Definition caught_up s : Prop :=
  map_Forall entry_ok (listenerMap_ s) ∧
  (setters s = ∅ ∧ map_Forall (up_to_date s) (listenerMap_ s) ∨
   (∃ thread, setters s = {[thread := Stored (cachedResult_ s)]}) ∨
   (∃ thread snapshot, setters s = {[thread := Collected snapshot (cachedResult_ s)]} ∧
      map_Forall (λ obj e, e ∈ snapshot ∨ up_to_date s obj e) (listenerMap_ s))).

Section InTurn.

Lemma about_notify obj e snapshot r :
  entry_ok obj e → e ∈ snapshot → last (about obj ((λ l, (l, r)) <$> omap callback snapshot)) = Some r.
Proof.
  intros (l & Hl & Ho) He.
  assert (r ∈ about obj ((λ l, (l, r)) <$> omap callback snapshot)) as Hr.
  { unfold about. apply list_elem_of_fmap. exists (l, r). split; [done|]. apply list_elem_of_filter. split; [done|].
    apply list_elem_of_fmap. exists l. split; [done|]. apply list_elem_of_omap. by exists e. }
  destruct (last _) as [r'|] eqn:El; [|by apply last_None in El; rewrite El in Hr; apply not_elem_of_nil in Hr].
  apply last_Some_elem_of in El. unfold about in El. apply list_elem_of_fmap in El as ([l' r''] & -> & El).
  apply list_elem_of_filter in El as [_ El]. apply list_elem_of_fmap in El as (l'' & [= -> ->] & _). done.
Qed.

Lemma about_notify_any obj snapshot r r0 :
  let es := about obj ((λ l, (l, r)) <$> omap callback snapshot) in
  last r0 = Some r → last (r0 ++ es) = Some r.
Proof.
  simpl. intros Hl. rewrite last_app. destruct (last (about _ _)) as [r'|] eqn:El; [|done].
  apply last_Some_elem_of in El. unfold about in El. apply list_elem_of_fmap in El as ([l' r''] & -> & El).
  apply list_elem_of_filter in El as [_ El]. by apply list_elem_of_fmap in El as (l'' & [= -> ->] & _).
Qed.

(** A new listener is up to date, the others are as they were. *)
Lemma register_up_to_date s l obj entry obj' e' :
  object l = Some obj →
  up_to_date s obj' e' ∨ obj' = obj → up_to_date (post (set_map s (<[obj := entry]> (listenerMap_ s))) (Sync l (cachedResult_ s))) obj' e'.
Proof.
  unfold up_to_date. rewrite told_post, told_set_map. cbn [task_events post set_map cachedResult_]. rewrite about_filter.
  intros Ho [H| ->].
  - case_decide; [by rewrite last_snoc|by rewrite app_nil_r].
  - rewrite decide_True by done. by rewrite last_snoc.
Qed.

Lemma caught_up_shrinks s s' :
  (∀ obj, told s' obj = told s obj) → setters s' = setters s → cachedResult_ s' = cachedResult_ s →
  listenerMap_ s' ⊆ listenerMap_ s → caught_up s → caught_up s'.
Proof.
  intros Ht Hs Hc Hm [Hok H]. unfold caught_up, up_to_date in *. rewrite Hs, Hc.
  assert (∀ P : Z → ListenerEntry → Prop, map_Forall P (listenerMap_ s) → map_Forall P (listenerMap_ s')) as Hsub
    by (intros P HP o e He; apply HP; eapply lookup_weaken; done).
  split; [auto|]. destruct H as [[H1 H2]|[H|(thread & snapshot & H1 & H2)]].
  - left. split; [done|]. intros o e He. rewrite Ht. by apply (Hsub _ H2 o e).
  - by right; left.
  - right; right. exists thread, snapshot. split; [done|]. intros o e He. rewrite Ht. by apply (Hsub _ H2 o e).
Qed.

Lemma caught_up_registers s l handler alive : caught_up s → caught_up (RegisterListener s l handler alive).1.
Proof.
  intros [Hok H]. unfold RegisterListener. destruct l as [l|]; [|done]. destruct (object l) as [obj|] eqn:Ho; [|done].
  repeat (case_decide; [|done]) || (case_decide; [done|]). simpl. split.
  { apply map_Forall_insert_2; [|done]. by exists l. }
  destruct H as [[Hs Hu]|[H|(thread & snapshot & Hs & Hu)]].
  - left. split; [done|]. intros o e He. apply register_up_to_date; [done|].
    cbn in He; apply lookup_insert_Some in He as [[<- _]|[_ He]]; [by right|left; by apply (Hu o e)].
  - by right; left.
  - right; right. exists thread, snapshot. split; [done|]. intros o e He.
    cbn in He; apply lookup_insert_Some in He as [[<- _]|[_ He]].
    + right. apply register_up_to_date; auto.
    + destruct (Hu o e He) as [H|H]; [by left|right]. apply register_up_to_date; auto.
Qed.

Lemma caught_up_happens s h : caught_up s → in_turn s h → caught_up (happens s h).
Proof.
  intros Hc Hin. destruct h as [l handler alive|l|thread r|thread|thread handler| |obj handler]; simpl in *.
  - by apply caught_up_registers.
  - destruct (unregister_same s l 0) as (_ & _ & Hs & Hr & Hm & _). apply (caught_up_shrinks s); try done.
    intros obj. by apply unregister_same.
  - rewrite Hin, lookup_empty. unfold store_result. case_decide; [done|]. split; [apply Hc|].
    right; left. exists thread. cbn. by rewrite Hin, insert_empty.
  - unfold collect_listeners. destruct (id Hc) as [Hok [[Hs Hu]|[[th Hs]|(th & snap & Hs & Hu)]]].
    + by rewrite Hs, lookup_empty.
    + destruct (setters s !! thread) as [[r|]|] eqn:E; try exact Hc.
      rewrite Hs in E. apply lookup_singleton_Some in E as [<- [= <-]]. split; [done|]. right; right.
      eexists th, _. split; [cbn [setters set_setters cachedResult_]; rewrite Hs; by rewrite insert_singleton, decide_True|]. intros o e He. left.
      apply list_elem_of_filter. split; [destruct (Hok _ _ He) as (l & -> & _); by eexists|].
      apply list_elem_of_fmap. exists (o, e). split; [done|]. by apply elem_of_map_to_list.
    + destruct (setters s !! thread) as [[r|]|] eqn:E; try exact Hc.
      rewrite Hs in E. apply lookup_singleton_Some in E as [_ [=]].
  - subst handler. unfold post_event. destruct (id Hc) as [Hok [[Hs Hu]|[[th Hs]|(th & snap & Hs & Hu)]]].
    + by rewrite Hs, lookup_empty.
    + destruct (setters s !! thread) as [[|? r]|] eqn:E; try exact Hc.
      rewrite Hs in E. apply lookup_singleton_Some in E as [_ [=]].
    + destruct (setters s !! thread) as [[|snap' r]|] eqn:E; try exact Hc.
      rewrite Hs in E. apply lookup_singleton_Some in E as [<- [= <- <-]]. rewrite decide_True by done.
      split; [done|]. left. split; [cbn [setters set_setters post]; rewrite Hs, delete_singleton; by rewrite decide_True|]. intros o e He.
      unfold up_to_date. rewrite told_post. cbn [task_events].
      destruct (Hu o e He) as [H|H]; [|by apply about_notify_any].
      rewrite last_app, (about_notify o e snap _ (Hok _ _ He) H). done.
  - destruct (run_task_same s 0) as (_ & Hs & Hr & Hm & _). apply (caught_up_shrinks s); try done.
    intros obj. by apply run_task_same.
  - unfold OnRemoteDied. destruct (listenerMap_ s !! obj) as [[[l|] []]|]; try done. case_decide; [|done].
    apply (caught_up_shrinks s); try done. intros o. rewrite told_post. by rewrite app_nil_r.
Qed.

Lemma caught_up_run hs s : caught_up s → all_in_turn s hs → caught_up (runs s hs).
Proof.
  revert s. induction hs as [|h hs IH]; intros s Hc; [done|]. intros [Hh Hhs]. apply IH; [|done].
  by apply caught_up_happens.
Qed.

End InTurn.

(** ** Any interleaving *)

Definition setter_trusted (c : Setter) : Prop := match c with Stored r | Collected _ r => trusted r end.
Definition task_trusted (t : Task) : Prop := match t with Notify _ r | Sync _ r => trusted r | Cleanup _ => True end.
Definition all_trusted s : Prop :=
  trusted (cachedResult_ s) ∧ map_Forall (λ _, setter_trusted) (setters s) ∧ Forall task_trusted (tasks s) ∧
  Forall (λ e, trusted e.2) (heard s).

(** Callers and the single thread go on. *)
Definition finishing (h : Happening) : Prop :=
  match h with Collects _ | Posts _ true | Runs => True | _ => False end.

Section AnyInterleaving.

Lemma task_events_trusted t : task_trusted t → Forall (λ e, trusted e.2) (task_events t).
Proof. destruct t; simpl; intros H; [|by constructor|constructor]. by apply Forall_fmap, Forall_true. Qed.

Lemma trusted_post s t : all_trusted s → task_trusted t → all_trusted (post s t).
Proof. intros (? & ? & ? & ?) Ht. split_and!; try done. apply Forall_app. by split; [|constructor]. Qed.

Lemma trusted_run_task s : all_trusted s → all_trusted (run_task s).
Proof.
  intros (Hr & Hs & Ht & Hh). unfold run_task. destruct (tasks s) as [|t ts] eqn:E.
  { split_and!; try done. by rewrite E. }
  apply Forall_cons in Ht as [Ht Hts]. set (s' := mkManager _ _ ts _ _).
  assert (all_trusted s') as Hs'.
  { split_and!; try done. apply Forall_app. split; [done|by apply task_events_trusted]. }
  destruct t as [| |l]; try done. destruct (unregister_same s' (Some l) 0) as (_ & Eh & Es & Er & _ & Et).
  unfold all_trusted. by rewrite Er, Es, Et, Eh.
Qed.

Lemma trusted_happens s h : all_trusted s → all_trusted (happens s h).
Proof.
  intros Ha. pose proof Ha as (Hr & Hs & Ht & Hh). destruct h as [l handler alive|l|thread r|thread|thread handler| |obj handler]; simpl.
  - unfold RegisterListener. destruct l as [l|]; [|done]. destruct (object l); [|done].
    repeat (case_decide; try done). by apply trusted_post.
  - destruct (unregister_same s l 0) as (_ & Eh & Es & Er & _ & Et). unfold all_trusted. by rewrite Er, Es, Et, Eh.
  - destruct (setters s !! thread); [done|]. unfold store_result. case_decide; [done|].
    pose proof (gate_trusted r). split_and!; try done. by apply map_Forall_insert_2.
  - unfold collect_listeners. destruct (setters s !! thread) as [[r|]|] eqn:E; try done.
    split_and!; try done. apply map_Forall_insert_2; [|done]. exact (Hs _ _ E).
  - unfold post_event. destruct (setters s !! thread) as [[|snap r]|] eqn:E; try done.
    assert (all_trusted (set_setters s (delete thread (setters s)))) by (split_and!; try done; by apply map_Forall_delete).
    case_decide; [|done]. apply trusted_post; [done|]. exact (Hs _ _ E).
  - by apply trusted_run_task.
  - unfold OnRemoteDied. destruct (listenerMap_ s !! obj) as [[[l|] []]|]; try done. case_decide; [|done].
    by apply trusted_post.
Qed.

Lemma trusted_run hs s : all_trusted s → all_trusted (runs s hs).
Proof. revert s. induction hs as [|h hs IH]; intros s Ha; [done|]. by apply IH, trusted_happens. Qed.

Lemma finish_thread s thread c :
  setters s !! thread = Some c →
  setters (runs s [Collects thread; Posts thread true]) = delete thread (setters s).
Proof.
  intros E. cbn. unfold collect_listeners. rewrite E. destruct c as [r|snap r].
  - unfold post_event. cbn [setters set_setters]. rewrite lookup_insert, decide_True by done. cbn [post setters set_setters].
    apply delete_insert_eq.
  - unfold post_event. by rewrite E.
Qed.

Lemma finish_threads s : ∃ hs, Forall finishing hs ∧ setters (runs s hs) = ∅.
Proof.
  remember (size (setters s)) as n eqn:En. revert s En. induction n as [|n IH]; intros s En.
  { exists []. split; [done|]. by apply map_size_empty_inv. }
  destruct (map_choose (setters s)) as (th & c & E); [by intros Es; rewrite Es, map_size_empty in En|].
  destruct (IH (runs s [Collects th; Posts th true])) as (hs & Hf & Hs).
  { rewrite (finish_thread _ _ _ E), map_size_delete, E. simpl. lia. }
  exists ([Collects th; Posts th true] ++ hs). split; [by apply Forall_app; repeat constructor|].
  unfold runs in *. by rewrite foldl_app.
Qed.

Lemma finish_tasks s : setters s = ∅ → ∃ hs, Forall finishing hs ∧ quiet (runs s hs).
Proof.
  remember (tasks s) as ts eqn:Et. revert s Et. induction ts as [|t ts IH]; intros s Et Hs.
  { by exists []. }
  destruct (run_task_same s 0) as (_ & Es & _ & _ & Ets). rewrite <- Et in Ets.
  destruct (IH (run_task s)) as (hs & Hf & Hq); [done|by rewrite Es|].
  exists (Runs :: hs). split; [by constructor|done].
Qed.

Lemma finish s : ∃ hs, Forall finishing hs ∧ quiet (runs s hs).
Proof.
  destruct (finish_threads s) as (hs & Hf & Hs). destruct (finish_tasks _ Hs) as (hs' & Hf' & Hq).
  exists (hs ++ hs'). split; [by apply Forall_app|]. unfold runs in *. by rewrite foldl_app.
Qed.

Lemma finishing_in_turn s hs : Forall finishing hs → all_in_turn s hs.
Proof.
  revert s. induction hs as [|h hs IH]; intros s; [done|]. intros [Hh Hhs]%Forall_cons. split; [|by apply IH].
  by destruct h as [| | | |? []| |].
Qed.

End AnyInterleaving.

(** ** What listeners know *)

(** C33: When every caller has posted its event and every task has run, each
    registered listener was last told the stored result, provided the callers
    of [SetUserRecognitionResult] came one after the other; letting the callers
    and the single thread go on always leads to such a state. In every
    interleaving no listener is told a trust level without a match. *)
Theorem listeners_know_result hs :
  let s := runs Manager_new hs in
  Forall (λ e, trusted e.2) (heard s) ∧
  (∃ hs', Forall finishing hs' ∧ quiet (runs s hs')) ∧
  (all_in_turn Manager_new hs → quiet s → ∀ obj e, listenerMap_ s !! obj = Some e →
    last (about obj (heard s)) = Some (GetCachedUserRecognitionResult s)).
Proof.
  intros s. split_and!.
  - apply (trusted_run hs Manager_new). by repeat constructor.
  - apply finish.
  - intros Hin [Hs Ht] obj e He.
    destruct (caught_up_run hs Manager_new) as [Hok H]; [|done|].
    { split; [apply map_Forall_empty|]. left. split; [done|apply map_Forall_empty]. }
    fold s in Hok, H. rewrite Hs in H. destruct H as [[_ Hu]|[[th H]|(th & snap & H & _)]].
    + specialize (Hu _ _ He). unfold up_to_date, told in Hu. by rewrite Ht, app_nil_r in Hu.
    + by apply (f_equal (lookup th)) in H; rewrite lookup_singleton, decide_True, lookup_empty in H.
    + by apply (f_equal (lookup th)) in H; rewrite lookup_singleton, decide_True, lookup_empty in H.
Qed.

Definition ex_listener (n : Z) : Listener := mkListener n (Some n) true.
Definition ex_match (user : Z) : RecognitionResult := mkRecognition MATCH user (str "owner") true 30000.
Definition ex_unknown : RecognitionResult := mkRecognition MISMATCH 0 [] true 40000.

(** One listener before, one between storing and posting a match, then a mismatch. *)
Definition ex_history : list Happening :=
  [Registers (Some (ex_listener 1)) true true; Sets 0 (ex_match 100); Registers (Some (ex_listener 2)) true true;
   Collects 0; Posts 0 true; Runs; Sets 0 ex_unknown; Collects 0; Runs; Posts 0 true; Runs; Runs].

Lemma listeners_know_result_witness :
  (let s := runs Manager_new ex_history in
   Forall (λ e, trusted e.2) (heard s) ∧
   (∃ hs', Forall finishing hs' ∧ quiet (runs s hs')) ∧
   (all_in_turn Manager_new ex_history → quiet s → ∀ obj e, listenerMap_ s !! obj = Some e →
     last (about obj (heard s)) = Some (GetCachedUserRecognitionResult s))) ∧
  all_in_turn Manager_new ex_history ∧ quiet (runs Manager_new ex_history) ∧
  about 1 (heard (runs Manager_new ex_history)) =
    [mkRecognition UNCERTAIN 0 [] false 0; ex_match 100; mkRecognition MISMATCH 0 [] false 0].
Proof. split; [exact (listeners_know_result ex_history)|]. by repeat split. Defined.

(** Two callers that overlap: the older result is posted last, so the listener
    ends with a match while the manager has stored the mismatch after it. A
    listener that registers in between is even told the older result after its
    catch-up event. *)
Definition ex_overlap : list Happening :=
  [Sets 0 (ex_match 100); Sets 1 ex_unknown; Registers (Some (ex_listener 1)) true true; Collects 0; Collects 1;
   Posts 1 true; Posts 0 true; Runs; Runs; Runs].

Example overlapping_setters :
  let s := runs Manager_new ex_overlap in
  quiet s ∧ GetCachedUserRecognitionResult s = mkRecognition MISMATCH 0 [] false 0 ∧
  last (about 1 (heard s)) = Some (ex_match 100).
Proof. by vm_compute. Qed.
