(* ===== verification/EventListeners.v ===== *)
(** * Who hears of authentications and of changed credentials

    Models event_listener_manager.cpp (the listeners of the two kinds of
    events, [AuthEventListenerManager] and [CredChangeEventListenerManager]),
    publish_event_adapter.cpp (the common events about credentials, and the
    PIN update that is announced only when the old PIN is deleted) and
    iam_event_dispatcher.cpp (subscriptions inside the services).

    The managers are called under their locks, so their operations are whole
    steps. A callback is named by its number and knows the object behind it
    ([Recognition.Listener]). *)

From S2P Require Import Prelude Defines Interaction ServiceTypes Attributes Platform UserIdmDatabase EngineTalk Recognition.

(* @file E = src/services/core/src/event_listener_manager.cpp *)
(* @file EH = src/services/core/inc/event_listener_manager.h *)
(* @file P = src/services/core/src/publish_event_adapter.cpp *)
(* @file PH = src/services/core/inc/publish_event_adapter.h *)
(* @file CU = src/services/core/src/credential_updated_manager.cpp *)
(* @file D = src/services/base/src/iam_event_dispatcher.cpp *)

#[export] Instance Listener_countable : Countable Listener.
Proof.
  apply (inj_countable' (λ l, (callbackId l, object l, isProxyObject l)) (λ '(i, o, p), mkListener i o p)). by intros [].
Defined.

(** ** The listeners of events *)

Module EventListenerManager.

(** The map from callbacks to their death recipients. *)
Abbreviation Listeners := (gmap Listener bool).
Implicit Types m : Listeners.

(* @src EH:57-66 EventListenerManager::FinderMap *)
Definition has_object (obj : Z) (p : Listener * bool) : Prop := object p.1 = Some obj.
#[export] Instance has_object_dec obj p : Decision (has_object obj p).
Proof. unfold has_object. apply _. Defined.

Definition find_if m (obj : Z) : option Listener := head (filter (has_object obj) (map_to_list m)).*1.

(** [emplace] keeps an entry that is there. *)
Definition emplace m (l : Listener) (recipient : bool) : Listeners :=
  match m !! l with Some _ => m | None => <[l := recipient]> m end.

(** [alive] says whether the object accepts a death recipient. *)
(* @src E EventListenerManager::AddDeathRecipient *)
Definition AddDeathRecipient m (listener : Listener) (alive : bool) : Listeners * Z :=
  match object listener with
  | None => (m, GENERAL_ERROR)
  | Some obj =>
    match find_if m obj with
    | Some _ => (m, SUCCESS)
    | None =>
      if isProxyObject listener then
        CHECK alive = true ELSE (m, GENERAL_ERROR) ;;
        (emplace m listener true, SUCCESS)
      else (emplace m listener false, SUCCESS)
    end
  end.

(* @src E EventListenerManager::RemoveDeathRecipient *)
Definition RemoveDeathRecipient m (listener : Listener) : Listeners * Z :=
  match object listener with
  | None => (m, GENERAL_ERROR)
  | Some obj =>
    match find_if m obj with
    | None => (m, SUCCESS)
    | Some found => (delete found m, SUCCESS)
    end
  end.

(* @src E EventListenerManager::RegistEventListener *)
Definition RegistEventListener m (listener : option Listener) (alive : bool) : Listeners * Z :=
  match listener with None => (m, GENERAL_ERROR) | Some l => AddDeathRecipient m l alive end.

(* @src E EventListenerManager::UnRegistEventListener *)
Definition UnRegistEventListener m (listener : option Listener) : Listeners * Z :=
  match listener with None => (m, GENERAL_ERROR) | Some l => RemoveDeathRecipient m l end.

(** The recipient goes through a copy of the map. *)
(* @src E EventListenerManager::EventListenerDeathRecipient::OnRemoteDied *)
Fixpoint unregister_object m (obj : Z) (copy : list Listener) : Listeners :=
  match copy with
  | [] => m
  | l :: copy =>
    if decide (object l = Some obj) then
      let '(m, result) := UnRegistEventListener m (Some l) in
      CHECK result = SUCCESS ELSE m ;;
      unregister_object m obj copy
    else unregister_object m obj copy
  end.
(* @src E EventListenerManager::EventListenerDeathRecipient::OnRemoteDied *)
Definition OnRemoteDied m (obj : Z) : Listeners := unregister_object m obj (map_to_list m).*1.

(** What the two kinds of listeners are told, one after the other. *)
Definition notify {A} m (eventInfo : A) : list (Listener * A) := (λ l, (l, eventInfo)) <$> (map_to_list m).*1.
(* @src E AuthEventListenerManager::OnNotifyAuthSuccessEvent *)
Definition OnNotifyAuthSuccessEvent m (userId authType : Z) (callerName : bytes) (callerType : TokenType)
    (isWidgetAuth : bool) : list (Listener * (Z * Z * bytes * TokenType * bool)) :=
  notify m (userId, authType, callerName, callerType, isWidgetAuth).
(* @src E CredChangeEventListenerManager::OnNotifyCredChangeEvent *)
Definition OnNotifyCredChangeEvent m (userId authType eventType : Z) (changeInfo : CredChangeEventInfo) :
    list (Listener * (Z * Z * Z * CredChangeEventInfo)) :=
  notify m (userId, authType, eventType, changeInfo).

(** ** The set of objects that hear of events *)

Definition objects m : gset Z := list_to_set (omap object (map_to_list m).*1).

(** Each object is registered once. *)
Definition one_each m : Prop :=
  ∀ l, l ∈ dom m → ∃ obj, object l = Some obj ∧ ∀ l', l' ∈ dom m → object l' = Some obj → l' = l.

Section Listeners.

Lemma elem_of_keys m l : l ∈ (map_to_list m).*1 ↔ l ∈ dom m.
Proof.
  rewrite list_elem_of_fmap, elem_of_dom. split.
  - intros ([l' b] & -> & H). apply elem_of_map_to_list in H. by eexists.
  - intros [b H]. exists (l, b). split; [done|]. by apply elem_of_map_to_list.
Qed.

Lemma elem_of_objects m obj : obj ∈ objects m ↔ ∃ l, l ∈ dom m ∧ object l = Some obj.
Proof. unfold objects. rewrite elem_of_list_to_set, list_elem_of_omap. by setoid_rewrite elem_of_keys. Qed.

Lemma find_if_Some m obj l : find_if m obj = Some l → l ∈ dom m ∧ object l = Some obj.
Proof.
  unfold find_if. intros H. apply head_Some_elem_of in H. apply list_elem_of_fmap in H as ([l' b] & -> & H).
  apply list_elem_of_filter in H as [Ho H]. split; [|done]. apply elem_of_map_to_list in H. by apply elem_of_dom_2 in H.
Qed.

Lemma find_if_None m obj : find_if m obj = None ↔ obj ∉ objects m.
Proof.
  unfold find_if. rewrite elem_of_objects. split.
  - intros H (l & Hl & Ho). apply head_None, fmap_nil_inv in H. apply elem_of_dom in Hl as [b Hl]. apply elem_of_map_to_list in Hl.
    assert ((l, b) ∈ filter (has_object obj) (map_to_list m)) as Hf by (by apply list_elem_of_filter). rewrite H in Hf. by apply not_elem_of_nil in Hf.
  - intros H. destruct (filter _ _) as [|[l b] r] eqn:E; [done|]. exfalso. apply H.
    assert ((l, b) ∈ filter (has_object obj) (map_to_list m)) as [Ho Hl]%list_elem_of_filter by (rewrite E; by left).
    exists l. split; [|done]. apply elem_of_map_to_list in Hl. by apply elem_of_dom_2 in Hl.
Qed.

End Listeners.

Section OneEach.
Context (m : Listeners) (Hone : one_each m).

Lemma objects_emplace l b obj : object l = Some obj → objects (emplace m l b) = objects m ∪ {[obj]}.
Proof.
  clear Hone. intros Ho. apply set_eq. intros o. rewrite elem_of_union, elem_of_singleton, !elem_of_objects. unfold emplace.
  destruct (m !! l) eqn:E.
  - split; [by left|]. intros [H| ->]; [done|]. exists l. split; [by apply elem_of_dom_2 in E|done].
  - setoid_rewrite dom_insert. set_solver.
Qed.

Lemma one_each_emplace l b obj : object l = Some obj → obj ∉ objects m → one_each (emplace m l b).
Proof using Hone.
  intros Ho Hn. unfold emplace. destruct (m !! l); [done|]. intros l1. rewrite dom_insert. intros Hl1.
  rewrite elem_of_objects in Hn. apply elem_of_union in Hl1 as [->%elem_of_singleton|Hl1].
  - exists obj. split; [done|]. intros l2. rewrite dom_insert. set_solver.
  - destruct (Hone _ Hl1) as (o & Ho1 & Hu). exists o. split; [done|]. intros l2. rewrite dom_insert.
    intros [->%elem_of_singleton|Hl2]%elem_of_union Ho2; [|by apply Hu].
    destruct Hn. exists l1. split; [done|]. congruence.
Qed.

Lemma one_each_delete l : one_each (delete l m).
Proof using Hone.
  intros l1. rewrite dom_delete. intros [Hl1 _]%elem_of_difference. destruct (Hone _ Hl1) as (o & Ho & Hu).
  exists o. split; [done|]. intros l2. rewrite dom_delete. set_solver.
Qed.

Lemma objects_delete l obj : l ∈ dom m → object l = Some obj → objects (delete l m) = objects m ∖ {[obj]}.
Proof using Hone.
  intros Hl Ho. apply set_eq. intros o. rewrite elem_of_difference, elem_of_singleton, !elem_of_objects.
  setoid_rewrite dom_delete. split.
  - intros (l1 & [Hl1 Hne]%elem_of_difference & Ho1). split; [by exists l1|]. intros ->.
    destruct (Hone _ Hl) as (o' & Ho' & Hu). apply Hne, elem_of_singleton. apply Hu; [done|]. congruence.
  - intros [(l1 & Hl1 & Ho1) Hne]. exists l1. split; [|done]. apply elem_of_difference. split; [done|].
    intros ->%elem_of_singleton. congruence.
Qed.

Lemma remove_one l : 
  one_each (RemoveDeathRecipient m l).1 ∧
  objects (RemoveDeathRecipient m l).1 = match object l with Some obj => objects m ∖ {[obj]} | None => objects m end ∧
  ((RemoveDeathRecipient m l).2 = SUCCESS ↔ object l ≠ None).
Proof using Hone.
  unfold RemoveDeathRecipient. destruct (object l) as [obj|]; [|by split_and!]. destruct (find_if m obj) as [l'|] eqn:E; simpl.
  - apply find_if_Some in E as [Hl' Ho']. split_and!; [by apply one_each_delete|by apply objects_delete|done].
  - apply find_if_None in E. split_and!; [done|set_solver|done].
Qed.

Lemma add_one l alive :
  one_each (AddDeathRecipient m l alive).1 ∧
  objects (AddDeathRecipient m l alive).1 =
    match object l with
    | Some obj => if decide ((AddDeathRecipient m l alive).2 = SUCCESS) then objects m ∪ {[obj]} else objects m
    | None => objects m
    end.
Proof using Hone.
  unfold AddDeathRecipient. destruct (object l) as [obj|] eqn:Ho; [|done].
  destruct (find_if m obj) as [l'|] eqn:E; simpl.
  - split; [done|]. apply find_if_Some in E as [Hl' Ho'].
    assert (obj ∈ objects m) by (apply elem_of_objects; by exists l'). set_solver.
  - apply find_if_None in E. destruct (isProxyObject l); [case_decide|]; simpl.
    all: try (split; [by apply (one_each_emplace l _ obj)|by apply objects_emplace]).
    done.
Qed.

End OneEach.

(** ** Histories *)

Inductive Happening :=
  | Regist (listener : option Listener) (alive : bool)
  | UnRegist (listener : option Listener)
  | Died (obj : Z).

Definition happens m (h : Happening) : Listeners :=
  match h with
  | Regist l alive => (RegistEventListener m l alive).1
  | UnRegist l => (UnRegistEventListener m l).1
  | Died obj => OnRemoteDied m obj
  end.

(** What clients are promised: a set of objects. A registration counts unless
    the object is in another process that is gone. *)
Definition promised (objs : gset Z) (h : Happening) : gset Z :=
  match h with
  | Regist (Some l) alive =>
    match object l with
    | Some obj => if isProxyObject l && negb alive then objs else objs ∪ {[obj]}
    | None => objs
    end
  | UnRegist (Some l) => match object l with Some obj => objs ∖ {[obj]} | None => objs end
  | Died obj => objs ∖ {[obj]}
  | _ => objs
  end.

Section Histories.

Lemma unregister_object_spec m obj copy :
  one_each m → one_each (unregister_object m obj copy) ∧
  objects (unregister_object m obj copy) =
    if decide (Exists (λ l, object l = Some obj) copy) then objects m ∖ {[obj]} else objects m.
Proof.
  revert m. induction copy as [|l copy IH]; intros m Hm; simpl.
  { done. }
  destruct (decide (object l = Some obj)) as [Ho|Ho].
  - destruct (remove_one m Hm l) as (Hone & Hobj & Hres). rewrite Ho in Hobj.
    assert ((RemoveDeathRecipient m l).2 = SUCCESS) as Hok by (apply Hres; congruence).
    destruct (RemoveDeathRecipient m l) as [m' r]. simpl in *. rewrite (decide_True (P := r = SUCCESS)) by done.
    destruct (IH m' Hone) as [? ->]. split; [done|]. rewrite Hobj.
    rewrite (decide_True (P := Exists _ (l :: copy))) by (by left). case_decide; set_solver.
  - destruct (IH m Hm) as [? ->]. split; [done|]. apply decide_ext. rewrite Exists_cons. naive_solver.
Qed.

Lemma happens_spec m h :
  one_each m → one_each (happens m h) ∧ objects (happens m h) = promised (objects m) h.
Proof.
  intros Hm. destruct h as [[l|] alive|[l|]|obj]; simpl; try done.
  - destruct (add_one m Hm l alive) as [? ->]. split; [done|]. revert Hm. unfold AddDeathRecipient.
    destruct (object l) as [obj|]; [|done]. intros _. destruct (find_if m obj) as [l'|] eqn:E; simpl.
    + apply find_if_Some in E as [Hl' Ho']. assert (obj ∈ objects m) by (apply elem_of_objects; by exists l').
      destruct (isProxyObject l && negb alive); set_solver.
    + by destruct (isProxyObject l), alive.
  - by destruct (remove_one m Hm l) as (? & ? & _).
  - unfold OnRemoteDied. destruct (unregister_object_spec m obj (map_to_list m).*1 Hm) as [? ->]. split; [done|]. case_decide as Hd; [done|].
    assert (obj ∉ objects m); [|set_solver]. rewrite elem_of_objects. intros (l & Hl & Ho). apply Hd, Exists_exists.
    exists l. by rewrite elem_of_keys.
Qed.

(** The listeners refine the promised set: an event reaches each object of the
    set exactly once, and no other. *)
Theorem event_listeners_refine hs userId authType eventType changeInfo :
  let m := foldl happens ∅ hs in
  let reached := omap (λ e, object e.1) (OnNotifyCredChangeEvent m userId authType eventType changeInfo) in
  NoDup reached ∧ ∀ obj, obj ∈ reached ↔ obj ∈ foldl promised ∅ hs.
Proof.
  intros m reached.
  assert (one_each m ∧ objects m = foldl promised ∅ hs) as [Hm <-].
  { subst m. clear reached. induction hs as [|h hs [IH1 IH2]] using rev_ind; [done|]. rewrite !foldl_app. simpl.
    rewrite <- IH2. by apply happens_spec. }
  assert (reached = omap object (map_to_list m).*1) as ->.
  { subst reached. unfold OnNotifyCredChangeEvent, notify. induction (map_to_list m).*1 as [|l r IH]; [done|]. csimpl. by rewrite IH. }
  split; [|intros obj; unfold objects; by rewrite elem_of_list_to_set].
  assert (∀ l, l ∈ (map_to_list m).*1 → l ∈ dom m) as Hdom by (intros l; apply elem_of_keys).
  pose proof (NoDup_fst_map_to_list m) as Hnd. revert Hdom Hnd. induction (map_to_list m).*1 as [|l r IH]; [constructor|].
  intros Hdom [Hl Hnd]%NoDup_cons. csimpl. destruct (Hm l) as (obj & Ho & Hu); [apply Hdom; by left|]. rewrite Ho.
  apply NoDup_cons. split; [|apply IH; [|done]; intros l' ?; apply Hdom; by right].
  rewrite list_elem_of_omap. intros (l' & Hl' & Ho'). apply Hl. rewrite <- (Hu l'); [done|apply Hdom; by right|done].
Qed.

End Histories.

End EventListenerManager.

(** ** Common events about credentials *)

Module PublishEventAdapter.

(* @src PH:41-45 PublishEventAdapter *)
Record Adapter := mkAdapter {
  userId_ : Z;
  scheduleId_ : Z;
  credChangeEventInfo_ : CredChangeEventInfo;
  reEnrollFlag_ : bool;
}.
Implicit Types a : Adapter.

(** [CredChangeEventInfo {}]: type 0 is that of an application. *)
Definition no_change : CredChangeEventInfo := mkCredChange [] TOKEN_HAP 0 0 false.
Definition Adapter_new : Adapter := mkAdapter 0 0 no_change false.
Definition set_silent (i : CredChangeEventInfo) (silent : bool) : CredChangeEventInfo :=
  mkCredChange (cc_callerName i) (cc_callerType i) (cc_credentialId i) (cc_lastCredentialId i) silent.

(** What is published, with the parameters of the event as numbers, and what the
    listeners of changed credentials are told. *)
Inductive Publication :=
  | USER_PIN_DELETED_EVENT (userId : Z)
  | USER_PIN_CREATED_EVENT (userId scheduleId : Z)
  | USER_PIN_UPDATED_EVENT (userId scheduleId : Z) (isSilentCredChange : bool)
  | USER_CREDENTIAL_UPDATED_EVENT (userId authType credentialCount : Z) (isSilentCredChange : bool)
  | CredChangeEvent (userId authType eventType : Z) (changeInfo : CredChangeEventInfo).

(* @src P PublishEventAdapter::PublishDeletedEvent *)
Definition PublishDeletedEvent (userId : Z) : list Publication := [USER_PIN_DELETED_EVENT userId].

(* @src P PublishEventAdapter::PublishCreatedEvent *)
Definition PublishCreatedEvent (userId scheduleId : Z) : list Publication :=
  WHEN scheduleId = 0 RETURN [] ;;
  [USER_PIN_CREATED_EVENT userId scheduleId].

(* @src P PublishEventAdapter::ClearPinUpdateCacheInfo *)
Definition ClearPinUpdateCacheInfo a : Adapter := mkAdapter (userId_ a) (scheduleId_ a) no_change false.

(* @src P PublishEventAdapter::PublishUpdatedEvent *)
Definition PublishUpdatedEvent a (userId credentialId : Z) : Adapter * list Publication :=
  WHEN userId ≠ userId_ a ∨ credentialId ≠ cc_lastCredentialId (credChangeEventInfo_ a) RETURN (a, []) ;;
  (ClearPinUpdateCacheInfo a,
   [CredChangeEvent userId PIN UPDATE_CRED (credChangeEventInfo_ a);
    USER_PIN_UPDATED_EVENT userId (scheduleId_ a) (cc_isSilentCredChange (credChangeEventInfo_ a))]).

(* @src P:105-113 PublishEventAdapter::CachePinUpdateParam *)
Definition CachePinUpdateParam a (userId scheduleId : Z) (changeInfo : CredChangeEventInfo) : Adapter :=
  mkAdapter userId scheduleId (set_silent changeInfo (reEnrollFlag_ a)) (reEnrollFlag_ a).

(* @src P:115-119 PublishEventAdapter::CachePinUpdateParam *)
Definition CacheReEnrollFlag a (reEnrollFlag : bool) : Adapter :=
  mkAdapter (userId_ a) (scheduleId_ a) (credChangeEventInfo_ a) reEnrollFlag.

(* @src P PublishEventAdapter::PublishCredentialUpdatedEvent *)
Definition PublishCredentialUpdatedEvent a (userId authType credentialCount : Z) : list Publication :=
  [USER_CREDENTIAL_UPDATED_EVENT userId authType credentialCount
    (if decide (authType = PIN) then cc_isSilentCredChange (credChangeEventInfo_ a) else false)].

(* @src CU CredentialUpdatedManager::ProcessUserDeleted *)
Definition ProcessUserDeleted (userId : Z) : service () :=
  call (Platform.PublishCredentialUpdatedEvent userId PIN 0);;
  call (SaveCredentialUpdatedEvent userId PIN 0).

(** What the services' calls do to the adapter, each under its lock. *)
Definition adapter_call a (q : sys) : Adapter * list Publication :=
  match q with
  | Platform.PublishDeletedEvent u => (a, PublishDeletedEvent u)
  | Platform.PublishCreatedEvent u s => (a, PublishCreatedEvent u s)
  | Platform.PublishUpdatedEvent u c => PublishUpdatedEvent a u c
  | Platform.CachePinUpdateParam u s i => (CachePinUpdateParam a u s i, [])
  | Platform.CacheReEnrollFlag f => (CacheReEnrollFlag a f, [])
  | Platform.PublishCredentialUpdatedEvent u ty n => (a, PublishCredentialUpdatedEvent a u ty n)
  | Platform.ProcessUserDeleted u => (a, PublishCredentialUpdatedEvent a u PIN 0)
  | Platform.OnNotifyCredChangeEvent u ty e i => (a, [CredChangeEvent u ty e i])
  | _ => (a, [])
  end.

(** The calls of all threads in the order in which they get the lock. *)
Fixpoint published {S} (call : S → sys → S * list Publication) (s : S) (qs : list sys) : S * list Publication :=
  match qs with
  | [] => (s, [])
  | q :: qs => let '(s, out) := call s q in let '(s, outs) := published call s qs in (s, out ++ outs)
  end.

(** ** What clients are promised

    At most one update of a PIN is pending: that of a user, from an old
    credential, in a schedule. It is announced once, when the old credential is
    deleted, and a later update replaces it. *)
Record Pending := mkPending { pd_update : option (Z * Z * CredChangeEventInfo); pd_silent : bool }.
Definition Pending_new : Pending := mkPending None false.

Definition pending_silent (p : Pending) : bool :=
  match pd_update p with Some (_, _, i) => cc_isSilentCredChange i | None => false end.

Definition promised (p : Pending) (q : sys) : Pending * list Publication :=
  match q with
  | Platform.CachePinUpdateParam u s i => (mkPending (Some (u, s, set_silent i (pd_silent p))) (pd_silent p), [])
  | Platform.CacheReEnrollFlag f => (mkPending (pd_update p) f, [])
  | Platform.PublishUpdatedEvent u c =>
    match pd_update p with
    | Some (u', s, i) =>
      if decide (u = u' ∧ c = cc_lastCredentialId i)
      then (Pending_new, [CredChangeEvent u PIN UPDATE_CRED i; USER_PIN_UPDATED_EVENT u s (cc_isSilentCredChange i)])
      else (p, [])
    | None => (p, [])
    end
  | Platform.PublishCredentialUpdatedEvent u ty n =>
    (p, [USER_CREDENTIAL_UPDATED_EVENT u ty n (if decide (ty = PIN) then pending_silent p else false)])
  | Platform.ProcessUserDeleted u => (p, [USER_CREDENTIAL_UPDATED_EVENT u PIN 0 (pending_silent p)])
  | Platform.PublishDeletedEvent u => (p, [USER_PIN_DELETED_EVENT u])
  | Platform.PublishCreatedEvent u s => (p, if decide (s = 0) then [] else [USER_PIN_CREATED_EVENT u s])
  | Platform.OnNotifyCredChangeEvent u ty e i => (p, [CredChangeEvent u ty e i])
  | _ => (p, [])
  end.

(** The engine gives every credential a number other than 0. *)
Definition numbered (q : sys) : Prop :=
  match q with
  | Platform.PublishUpdatedEvent _ c => c ≠ 0
  | Platform.CachePinUpdateParam _ _ i => cc_lastCredentialId i ≠ 0
  | _ => True
  end.

Definition agrees (p : Pending) a : Prop :=
  reEnrollFlag_ a = pd_silent p ∧
  match pd_update p with
  | Some (u, s, i) => userId_ a = u ∧ scheduleId_ a = s ∧ credChangeEventInfo_ a = i ∧ cc_lastCredentialId i ≠ 0
  | None => credChangeEventInfo_ a = no_change
  end.

Section Promise.

Lemma agrees_silent p a : agrees p a → cc_isSilentCredChange (credChangeEventInfo_ a) = pending_silent p.
Proof.
  intros [_ Hu]. unfold pending_silent. destruct (pd_update p) as [[[u s] i]|]; [by destruct Hu as (_ & _ & -> & _)|by rewrite Hu].
Qed.

Lemma agrees_call p a q :
  agrees p a → numbered q →
  agrees (promised p q).1 (adapter_call a q).1 ∧ (adapter_call a q).2 = (promised p q).2.
Proof.
  intros Ha Hn. pose proof (agrees_silent p a Ha) as Hs. destruct Ha as [Hf Hu].
  destruct q; try (by split_and!); simpl in *; unfold PublishCredentialUpdatedEvent; try (by rewrite Hs).
  - unfold PublishUpdatedEvent. destruct (pd_update p) as [[[u s] i]|] eqn:E.
    + destruct Hu as (Hu1 & Hu2 & Hu3 & Hi). rewrite Hu1, Hu2, Hu3.
      destruct (decide (_ ∧ _)) as [[-> ->]|Hne].
      * rewrite decide_False by naive_solver. done.
      * rewrite decide_True by (by apply not_and_l in Hne). split; [|done]. unfold agrees. simpl. by rewrite E.
    + rewrite Hu. simpl. rewrite decide_True by (by right). split; [|done]. unfold agrees. by rewrite E.
  - unfold agrees. simpl. by rewrite Hf.
Qed.

(** C34: The adapter publishes what is promised: a PIN update is announced to
    listeners and subscribers exactly once, with its schedule and whether it was
    silent, when the credential that it replaces is deleted. *)
Theorem pin_update_announced_once qs :
  Forall numbered qs → (published adapter_call Adapter_new qs).2 = (published promised Pending_new qs).2.
Proof.
  assert (∀ p a, agrees p a → Forall numbered qs →
    (published adapter_call a qs).2 = (published promised p qs).2) as H; [|by apply H].
  induction qs as [|q qs IH]; intros p a Ha; [done|]. intros [Hq Hqs]%Forall_cons. simpl.
  destruct (agrees_call p a q Ha Hq) as [Ha' Ho].
  destruct (adapter_call a q) as [a' out], (promised p q) as [p' out']. simpl in *. subst out'.
  specialize (IH p' a' Ha' Hqs). destruct (published adapter_call a' qs), (published promised p' qs). simpl in *. by rewrite IH.
Qed.

Definition ex_update : CredChangeEventInfo := mkCredChange (str "settings") TOKEN_HAP 12 11 false.
Definition ex_calls : list sys :=
  [Platform.CacheReEnrollFlag true; Platform.CachePinUpdateParam 100 7 ex_update;
   Platform.PublishUpdatedEvent 100 10; Platform.PublishCredentialUpdatedEvent 100 PIN 1;
   Platform.PublishUpdatedEvent 100 11; Platform.PublishUpdatedEvent 100 11].

Lemma pin_update_announced_once_witness :
  (published adapter_call Adapter_new ex_calls).2 = (published promised Pending_new ex_calls).2 ∧
  (published promised Pending_new ex_calls).2 =
    [USER_CREDENTIAL_UPDATED_EVENT 100 PIN 1 true; CredChangeEvent 100 PIN UPDATE_CRED (set_silent ex_update true);
     USER_PIN_UPDATED_EVENT 100 7 true].
Proof.
  split; [|by vm_compute]. apply (pin_update_announced_once ex_calls). by repeat (constructor; [done|]).
Defined.

(** Credential 0 matches a cleared cache, so a second event follows with the
    schedule of the first. *)
Example stale_update :
  (published adapter_call Adapter_new
     [Platform.CachePinUpdateParam 100 7 ex_update; Platform.PublishUpdatedEvent 100 11; Platform.PublishUpdatedEvent 100 0]).2 =
  [CredChangeEvent 100 PIN UPDATE_CRED ex_update; USER_PIN_UPDATED_EVENT 100 7 false;
   CredChangeEvent 100 PIN UPDATE_CRED no_change; USER_PIN_UPDATED_EVENT 100 7 false].
Proof. by vm_compute. Qed.

End Promise.

(** ** The update of a PIN, from the enrollment to the deletion of the old one *)

Section Flow.

(** What [ProcessUserDeleted] does is its call of [Platform]: the adapter
    publishes the same. *)
Lemma user_deleted_published a userId o t :
  let '(_, t') := run o (ProcessUserDeleted userId) t in
  ∃ u, t' = t ++ u ∧
    published adapter_call a (asked <$> u) = published adapter_call a [Platform.ProcessUserDeleted userId].
Proof. unfold ProcessUserDeleted. simpl. eexists. rewrite <-app_assoc. split; [done|]. by vm_compute. Qed.

Definition unpublished (q : sys) : bool :=
  match q with EngGetCredential _ _ | MakeShared _ | SaveCredentialUpdatedEvent _ _ _ => true | _ => false end.

Lemma published_app {S} (call : S → sys → S * list Publication) s qs qs' :
  published call s (qs ++ qs') =
  let '(s1, out) := published call s qs in let '(s2, out') := published call s1 qs' in (s2, out ++ out').
Proof.
  revert s. induction qs as [|q qs IH]; intros s; simpl; [by destruct (published call s qs')|].
  destruct (call s q) as [s1 out1]. rewrite IH. destruct (published call s1 qs) as [s2 out2].
  destruct (published call s2 qs') as [s3 out3]. by rewrite app_assoc.
Qed.

Lemma published_nothing a qs : Forall (λ q, unpublished q = true) qs → published adapter_call a qs = (a, []).
Proof. induction 1 as [|q qs Hq _ IH]; [done|]. simpl. destruct q; try done; simpl; by rewrite IH. Qed.

Lemma unpublished_GetCredentialInfo u ty : only unpublished (GetCredentialInfo u ty).
Proof.
  unfold GetCredentialInfo, wrap_credentials, wrap_each. only_steps.
Qed.

Lemma enrolled_caches p r s :
  en_authType p = PIN →
  leaves (ProcessCredentialEnrolled p r true s) (λ _ u, ∃ i, cc_lastCredentialId i = ec_credentialId (el_oldInfo r) ∧
    cc_credentialId i = el_credentialId r ∧ asked <$> u = [Platform.CachePinUpdateParam (en_userId p) s i]).
Proof.
  intros Hp. unfold ProcessCredentialEnrolled. rewrite decide_True by done.
  apply (@leaves_call sys answer (Platform.CachePinUpdateParam _ _ _)). intros [].
  by exists (with_last (mkCredChange (en_callerName p) (en_callerType p) (el_credentialId r) 0 false)
    (ec_credentialId (el_oldInfo r))).
Qed.

Lemma deleted_publishes d c :
  leaves (ProcessCredentialDeleted d c PIN) (λ _ u, Forall (λ q, unpublished q = true) (asked <$> u) ∨
    ∃ pre n, Forall (λ q, unpublished q = true) pre ∧
      asked <$> u = pre ++ [Platform.PublishCredentialUpdatedEvent (de_userId d) PIN n;
        SaveCredentialUpdatedEvent (de_userId d) PIN n; Platform.PublishUpdatedEvent (de_userId d) c]).
Proof.
  unfold ProcessCredentialDeleted. apply (leaves_bind _ _ (λ _ u, Forall (λ e, unpublished (asked e) = true) u)).
  { by apply (leaves_only unpublished); [apply unpublished_GetCredentialInfo|]. }
  intros [ret infos] pre Hpre. assert (Forall (λ q, unpublished q = true) (asked <$> pre)) as Hpre' by by apply Forall_fmap.
  case_decide.
  - intros t. simpl. split; [done|]. intros []. split; [done|]. intros []. split; [done|]. intros [].
    eexists. split; [by rewrite <- !app_assoc|]. right.
    eexists (asked <$> pre), _. split; [done|]. by rewrite fmap_app.
  - apply leaves_ret. left. by rewrite app_nil_r.
Qed.

(** An update of a PIN publishes nothing; deleting the credential that it
    replaced publishes it, whatever the adapter had cached before. *)
Theorem pin_update_flow o1 o2 a p r s d c :
  en_authType p = PIN → de_userId d = en_userId p → c = ec_credentialId (el_oldInfo r) →
  let t1 := (run o1 (ProcessCredentialEnrolled p r true s) []).2 in
  let t2 := (run o2 (ProcessCredentialDeleted d c PIN) []).2 in
  let silent := reEnrollFlag_ a in
  let out := (published adapter_call a (asked <$> t1 ++ t2)).2 in
  out = [] ∨ ∃ n i,
    cc_credentialId i = el_credentialId r ∧ cc_lastCredentialId i = c ∧ cc_isSilentCredChange i = silent ∧
    out = [USER_CREDENTIAL_UPDATED_EVENT (en_userId p) PIN n silent; CredChangeEvent (en_userId p) PIN UPDATE_CRED i;
           USER_PIN_UPDATED_EVENT (en_userId p) s silent].
Proof.
  intros Hp Hd Hc t1 t2 silent out.
  destruct (run o1 (ProcessCredentialEnrolled p r true s) []) as [x1 u1] eqn:E1.
  destruct (leaves_run _ _ _ _ _ _ (enrolled_caches p r s Hp) E1) as (u & -> & i & Hi & Hi' & Hu).
  destruct (run o2 (ProcessCredentialDeleted d c PIN) []) as [x2 u2] eqn:E2.
  destruct (leaves_run _ _ _ _ _ _ (deleted_publishes d c) E2) as (v & -> & Hv).
  subst t1 t2 out. simpl. rewrite fmap_app, Hu. simpl.
  destruct Hv as [Hv|(pre & n & Hpre & Hv)]; [left; by rewrite published_nothing|right].
  rewrite Hv, published_app, published_nothing by done. simpl.
  unfold PublishUpdatedEvent, PublishCredentialUpdatedEvent. simpl. rewrite Hd, Hi, Hc.
  rewrite decide_False by (by intros [?|?]). simpl. exists n, (set_silent i silent). split_and!; try done.
Qed.

End Flow.

End PublishEventAdapter.

(** ** Events inside the services *)

Module IamEventDispatcher.

(** Callbacks are named by numbers. *)
(* @src D:127-129 IamEventDispatcherImpl *)
Record Dispatcher := mkDispatcher {
  subscribers_ : gmap Z (gmap Z Z);
  nextSubscribeId_ : Z;
}.
Implicit Types d : Dispatcher.

Definition Dispatcher_new : Dispatcher := mkDispatcher ∅ 1.

(** The callbacks of the task that is posted, if one is. *)
(* @src D:59-83 IamEventDispatcherImpl::Post *)
Definition Post d (eventId : Z) (handler : bool) : option (list Z) :=
  match subscribers_ d !! eventId with
  | None => None
  | Some m => CHECK handler = true ELSE None ;; Some (map_to_list m).*2
  end.

(* @src D:115-126 IamEventDispatcherImpl::Unsubscribe *)
Definition Unsubscribe d (eventId id : Z) : Dispatcher :=
  match subscribers_ d !! eventId with
  | None => d
  | Some m =>
    let m := delete id m in
    mkDispatcher (if decide (m = ∅) then delete eventId (subscribers_ d) else <[eventId := m]> (subscribers_ d))
      (nextSubscribeId_ d)
  end.

(** The result is the id that the handle of the subscription carries; [made]
    says whether the handle could be allocated. *)
(* @src D:85-111 IamEventDispatcherImpl::Subscribe *)
Definition Subscribe d (eventId : Z) (callback : option Z) (made : bool) : Dispatcher * option Z :=
  match callback with
  | None => (d, None)
  | Some callback =>
    let id := nextSubscribeId_ d in
    let m := default ∅ (subscribers_ d !! eventId) in
    let d := mkDispatcher (<[eventId := <[id := callback]> m]> (subscribers_ d)) (id + 1) in
    CHECK made = true ELSE (Unsubscribe d eventId id, None) ;;
    (d, Some id)
  end.

Inductive Happening :=
  | Subscribes (eventId : Z) (callback : option Z) (made : bool)
  | Destroys (eventId id : Z).

Definition happens d (h : Happening) : Dispatcher :=
  match h with
  | Subscribes e cb made => (Subscribe d e cb made).1
  | Destroys e id => Unsubscribe d e id
  end.

(** What clients are promised: the subscriptions whose handles are alive, by
    their ids, which are never used again. *)
Record Live := mkLive { subscriptions : gmap Z (Z * Z); next : Z }.
Definition promised (s : Live) (h : Happening) : Live :=
  match h with
  | Subscribes e (Some cb) made =>
    mkLive (if made then <[next s := (e, cb)]> (subscriptions s) else subscriptions s) (next s + 1)
  | Subscribes _ None _ => s
  | Destroys e id =>
    match subscriptions s !! id with
    | Some (e', _) => if decide (e' = e) then mkLive (delete id (subscriptions s)) (next s) else s
    | None => s
    end
  end.

Definition subscribed d (e id : Z) : option Z := subscribers_ d !! e ≫= lookup id.
Definition agrees (s : Live) d : Prop :=
  nextSubscribeId_ d = next s ∧
  (∀ e id cb, subscribed d e id = Some cb ↔ subscriptions s !! id = Some (e, cb)) ∧
  (∀ id v, subscriptions s !! id = Some v → id < next s) ∧
  map_Forall (λ _ m, m ≠ ∅) (subscribers_ d).

Section Promise.

Lemma subscribed_insert d e m n e' id :
  subscribed (mkDispatcher (<[e := m]> (subscribers_ d)) n) e' id = if decide (e = e') then m !! id else subscribed d e' id.
Proof. unfold subscribed. simpl. rewrite lookup_insert. by case_decide. Qed.

Lemma subscribed_unsubscribe d e id e' id' :
  subscribed (Unsubscribe d e id) e' id' = if decide (e = e' ∧ id = id') then None else subscribed d e' id'.
Proof.
  unfold Unsubscribe. destruct (subscribers_ d !! e) as [m|] eqn:E.
  - case_decide as Hm.
    + unfold subscribed. simpl. rewrite lookup_delete. destruct (decide (e = e')) as [<-|]; simpl.
      * rewrite E. simpl. assert (delete id m !! id' = None) as H by (by rewrite Hm, lookup_empty).
        rewrite lookup_delete in H. case_decide; case_decide; naive_solver.
      * by rewrite decide_False by naive_solver.
    + rewrite subscribed_insert. destruct (decide (e = e')) as [<-|]; [|by rewrite decide_False by naive_solver].
      rewrite lookup_delete. unfold subscribed. rewrite E. simpl. case_decide; case_decide; naive_solver.
  - unfold subscribed. case_decide as H; [|done]. destruct H as [<- <-]. by rewrite E.
Qed.

Lemma nonempty_unsubscribe d e id :
  map_Forall (λ _ m, m ≠ ∅) (subscribers_ d) → map_Forall (λ _ m, m ≠ ∅) (subscribers_ (Unsubscribe d e id)).
Proof.
  intros H. unfold Unsubscribe. destruct (subscribers_ d !! e); [|done]. simpl. case_decide.
  - by apply map_Forall_delete.
  - by apply map_Forall_insert_2.
Qed.

Lemma agrees_happens s d h : agrees s d → agrees (promised s h) (happens d h).
Proof.
  intros (Hn & Ha & Hid & He). destruct h as [e [cb|] made|e id]; simpl; [| |].
  - assert (∀ v, subscriptions s !! next s = Some v → False) as Hfresh by (intros v Hv; apply Hid in Hv; lia).
    assert (∀ e', subscribed d e' (next s) = None) as Hnone.
    { intros e'. destruct (subscribed d e' (next s)) as [cb'|] eqn:E; [|done]. apply Ha in E. by apply Hfresh in E. }
    set (m := default ∅ (subscribers_ d !! e)).
    assert (∀ id, m !! id = subscribed d e id) as Hm.
    { intros id. unfold m, subscribed. by destruct (subscribers_ d !! e); simpl; [|rewrite lookup_empty]. }
    set (d' := mkDispatcher (<[e := <[nextSubscribeId_ d := cb]> m]> (subscribers_ d)) (nextSubscribeId_ d + 1)).
    assert (map_Forall (λ _ m, m ≠ ∅) (subscribers_ d')) as He'
      by (apply map_Forall_insert_2; [apply insert_non_empty|done]).
    assert (∀ e' id, subscribed d' e' id = if decide (e' = e ∧ id = next s) then Some cb else subscribed d e' id) as Hs.
    { intros e' id. unfold d'. rewrite subscribed_insert, Hn, lookup_insert, Hm. repeat case_decide; naive_solver. }
    destruct made; simpl.
    + split_and!; simpl; [by rewrite Hn| | |done].
      * intros e' id cb'. rewrite Hs, lookup_insert. destruct (decide (next s = id)) as [<-|Hne].
        -- case_decide; [naive_solver|]. rewrite Hnone. naive_solver.
        -- rewrite decide_False by naive_solver. apply Ha.
      * intros id v. rewrite lookup_insert. case_decide; [lia|]. intros Hv. apply Hid in Hv. lia.
    + split_and!; simpl.
      * unfold Unsubscribe. destruct (subscribers_ d' !! e); simpl; by rewrite Hn.
      * intros e' id cb'. rewrite subscribed_unsubscribe, Hs, Hn, <- Ha.
        destruct (decide (e = e' ∧ next s = id)) as [[<- <-]|]; [by rewrite Hnone|]. rewrite decide_False; [done|naive_solver].
      * intros id v Hv. apply Hid in Hv. lia.
      * by apply nonempty_unsubscribe.
  - done.
  - assert (nextSubscribeId_ (Unsubscribe d e id) = next s) as Hn'
      by (unfold Unsubscribe; by destruct (subscribers_ d !! e)).
    assert (∀ e' id' cb, subscribed (Unsubscribe d e id) e' id' = Some cb ↔
      subscriptions s !! id' = Some (e', cb) ∧ ¬ (e = e' ∧ id = id')) as Hs.
    { intros e' id' cb. rewrite subscribed_unsubscribe, <- Ha. case_decide; naive_solver. }
    destruct (subscriptions s !! id) as [[e0 cb0]|] eqn:E; [case_decide as H0; [subst e0|]|].
    + split_and!; simpl; [done| | |by apply nonempty_unsubscribe].
      * intros e' id' cb. rewrite Hs, lookup_delete. case_decide; naive_solver.
      * intros id' v [? Hv]%lookup_delete_Some. by apply Hid in Hv.
    + split_and!; try done; [|by apply nonempty_unsubscribe]. intros e' id' cb. rewrite Hs. naive_solver.
    + split_and!; try done; [|by apply nonempty_unsubscribe]. intros e' id' cb. rewrite Hs. naive_solver.
Qed.

(** The callbacks of subscriptions to an event that are alive. *)
Definition callbacks (s : Live) (e : Z) : list (Z * Z) :=
  omap (λ '(id, (e', cb)), if decide (e' = e) then Some (id, cb) else None) (map_to_list (subscriptions s)).

Lemma elem_of_callbacks s e id cb : (id, cb) ∈ callbacks s e ↔ subscriptions s !! id = Some (e, cb).
Proof.
  unfold callbacks. rewrite list_elem_of_omap. split.
  - intros ([id' [e' cb']] & H & Hd). apply elem_of_map_to_list in H. case_decide; naive_solver.
  - intros H. exists (id, (e, cb)). split; [by apply elem_of_map_to_list|]. by rewrite decide_True.
Qed.

Lemma NoDup_callbacks s e : NoDup (callbacks s e).
Proof.
  apply (NoDup_fmap_1 fst). pose proof (NoDup_fst_map_to_list (subscriptions s)) as H.
  unfold callbacks. induction (map_to_list (subscriptions s)) as [|[id [e' cb]] l IH]; [constructor|].
  csimpl in *. apply NoDup_cons in H as [Hn H]. specialize (IH H). case_decide; csimpl; [|done]. apply NoDup_cons. split; [|done].
  intros Hin. apply Hn. apply list_elem_of_fmap in Hin as ([i c] & -> & Hin).
  apply list_elem_of_omap in Hin as ([i' [e2 c2]] & Hin & Hc). apply list_elem_of_fmap. exists (i', (e2, c2)).
  split; [|done]. case_decide; naive_solver.
Qed.

(** A posted event reaches the callbacks of the living subscriptions to it, each
    as often as it is subscribed; without one no task is posted. *)
Theorem dispatcher_refines hs e :
  let d := foldl happens Dispatcher_new hs in
  let s := foldl promised (mkLive ∅ 1) hs in
  default [] (Post d e true) ≡ₚ (callbacks s e).*2 ∧ (Post d e true = None ↔ callbacks s e = []).
Proof.
  intros d s. assert (agrees s d) as (_ & Ha & _ & Hne).
  { subst d s. induction hs as [|h hs IH] using rev_ind; [|rewrite !foldl_app; by apply agrees_happens].
    by split_and!. }
  unfold Post. destruct (subscribers_ d !! e) as [m|] eqn:E; simpl.
  - assert (map_to_list m ≡ₚ callbacks s e) as Hp.
    { apply NoDup_Permutation; [apply NoDup_map_to_list|apply NoDup_callbacks|]. intros [id cb].
      rewrite elem_of_callbacks, elem_of_map_to_list, <- Ha. unfold subscribed. by rewrite E. }
    split; [by rewrite Hp|]. split; [done|]. intros H. rewrite H in Hp. apply Permutation_nil_r, map_to_list_empty_iff in Hp.
    by apply Hne in E.
  - assert (callbacks s e = []) as ->; [|done]. destruct (callbacks s e) as [|[id cb] l] eqn:El; [done|]. exfalso.
    assert ((id, cb) ∈ callbacks s e) as Hin by (rewrite El; by left). apply elem_of_callbacks, Ha in Hin.
    unfold subscribed in Hin. by rewrite E in Hin.
Qed.

End Promise.

End IamEventDispatcher.
