(* ===== verification/Caches.v ===== *)
(** * Templates that executors keep, and strong authentication

    Models template_cache_manager.cpp (the executors keep the templates of the
    current user at hand), os_accounts_manager_impl.cpp (who the current user
    is), risk_event_manager.cpp, strong_auth_status_manager_impl.cpp and
    screenlock_status_listener.cpp (the executors learn that the screen is
    locked and strong authentication is required).

    [Cares] is the state of these singletons with the tasks they posted; each
    operation is a program over the calls of the services and a few of its own.
    The singletons do not share a lock, but their operations only meet in the
    single thread that runs the tasks and in [currUserId_], which is read once. *)

From S2P Require Import Prelude Defines Interaction ServiceTypes AttributesImpl Attributes Platform IpcCommon UserIdmDatabase NodeCommands.

(* @file T = src/services/ipc/src/template_cache_manager.cpp *)
(* @file TH = src/services/ipc/inc/template_cache_manager.h *)
(* @file O = src/services/core/src/os_accounts_manager_impl.cpp *)
(* @file R = src/services/core/src/risk_event_manager.cpp *)
(* @file RH = src/services/core/inc/risk_event_manager.h *)
(* @file S = src/services/core/src/strong_auth_status_manager_impl.cpp *)
(* @file L = src/services/core/src/screenlock_status_listener.cpp *)
(* @file U = src/services/core/src/resource_node_utils.cpp *)
(* @file C = src/services/context/src/context_appstate_observer.cpp *)

(** ** Calls *)

Inductive CareAbility := OsAccountService | ScreenLockService | CommonEventService.

Inductive care :=
  | Service (q : sys)
  (* the screen lock *)
  | GetScreenLockManager
  | ScreenLocked
  | GetStrongAuth (userId : Z)
  | RegisterStrongAuth
  | UnRegisterStrongAuth
  (* subscriptions *)
  | SubscribeAbility (ability : CareAbility)
  | SubscribeScreenLocked
  | UnSubscribeScreenLocked
  | SubscribeOsAccount
  | UnsubscribeOsAccount
  (* nodes whose weak pointer could be locked, as (type, executor index) *)
  | EnumerateIndices
  | NodesByTypeAndRole (authType role : Z)
  | ReportScreenLockStrongAuth (userId strongAuthReason : Z).

(** [GetStrongAuth] leaves the flag [NONE] in the variable when it fails. *)
Definition care_answer (q : care) : Type :=
  match q with
  | Service q => answer q
  | GetScreenLockManager | ScreenLocked | SubscribeAbility _ => bool
  | SubscribeScreenLocked | UnSubscribeScreenLocked => bool
  | GetStrongAuth _ | UnRegisterStrongAuth | SubscribeOsAccount | UnsubscribeOsAccount => Z
  | RegisterStrongAuth | ReportScreenLockStrongAuth _ _ => unit
  | EnumerateIndices => list (Z * Z)
  | NodesByTypeAndRole _ _ => list Z
  end.

Abbreviation carek := (prog care_answer).
Abbreviation care_trace := (list (event care_answer)).

Fixpoint lift {A} (m : service A) : carek A :=
  match m with
  | Ret a => Ret a
  | Call q k => Call (Service q : care) (λ r, lift (k r))
  end.
Definition lift_event (e : event answer) : event care_answer :=
  match e with existT q r => existT (Service q : care) r end.

(** ** State *)

Inductive CareTask :=
  | UserIdChange (newUserId : Z)
  | StrongAuthChanged (userId strongAuthStatus : Z)
  | RiskEvents.

Record Cares := mkCares {
  currUserId_ : Z;
  accountSaStatusListener_ : bool;
  accountSubscriber_ : bool;
  screenLockSaStatusListener_ : bool;
  strongAuthListener_ : bool;
  commonEventSaStatusListener_ : bool;
  screenLockedSubscriber_ : bool;
  careTasks : list CareTask;
}.
Implicit Types c : Cares.

(* @src TH:38-38 TemplateCacheManager *)
Definition Cares_new : Cares := mkCares INVALID_USER_ID false false false false false false [].

Section Updates.
Context (c : Cares).
Definition set_user (u : Z) : Cares :=
  mkCares u (accountSaStatusListener_ c) (accountSubscriber_ c) (screenLockSaStatusListener_ c) (strongAuthListener_ c)
    (commonEventSaStatusListener_ c) (screenLockedSubscriber_ c) (careTasks c).
Definition set_account (listener subscriber : bool) : Cares :=
  mkCares (currUserId_ c) listener subscriber (screenLockSaStatusListener_ c) (strongAuthListener_ c)
    (commonEventSaStatusListener_ c) (screenLockedSubscriber_ c) (careTasks c).
Definition set_strong (listener strong : bool) : Cares :=
  mkCares (currUserId_ c) (accountSaStatusListener_ c) (accountSubscriber_ c) listener strong
    (commonEventSaStatusListener_ c) (screenLockedSubscriber_ c) (careTasks c).
Definition set_screen (listener subscriber : bool) : Cares :=
  mkCares (currUserId_ c) (accountSaStatusListener_ c) (accountSubscriber_ c) (screenLockSaStatusListener_ c)
    (strongAuthListener_ c) listener subscriber (careTasks c).
Definition set_tasks (ts : list CareTask) : Cares :=
  mkCares (currUserId_ c) (accountSaStatusListener_ c) (accountSubscriber_ c) (screenLockSaStatusListener_ c)
    (strongAuthListener_ c) (commonEventSaStatusListener_ c) (screenLockedSubscriber_ c) ts.
End Updates.

(** A task for the single thread, if there is one. *)
Definition post c (t : CareTask) : carek Cares :=
  handler ← call (Service GetSingleThreadInstance) : carek bool;
  CHECK (handler : bool) = true ELSE mret c ;;
  mret (set_tasks c (careTasks c ++ [t])).

(** ** The template cache *)

(** A [std::map] from executors to their credentials, in the order of its keys. *)
Abbreviation Classified := (list (Z * list CredentialInfoImpl)).

Fixpoint push_back (executorIndex : Z) (cred : CredentialInfoImpl) (out : Classified) : Classified :=
  match out with
  | [] => [(executorIndex, [cred])]
  | (i, creds) :: out' =>
    if decide (executorIndex = i) then (i, creds ++ [cred]) :: out'
    else if decide (executorIndex < i) then (executorIndex, [cred]) :: out
    else (i, creds) :: push_back executorIndex cred out'
  end.

(** No credential is null here, so this succeeds. *)
(* @src U ResourceNodeUtils::ClassifyCredInfoByExecutor *)
Definition ClassifyCredInfoByExecutor (in_ : list CredentialInfoImpl) : Classified :=
  foldl (λ out cred, push_back (GetExecutorIndex cred) cred out) [] in_.

(* @src T TemplateCacheManager::UpdateTemplateCache *)
Definition UpdateTemplateCache c (authType : Z) : carek () :=
  let currUserId := currUserId_ c in
  CHECK currUserId ≠ INVALID_USER_ID ELSE mret () ;;
  WHEN authType ≠ FACE ∧ authType ≠ FINGERPRINT RETURN mret () ;;
  '(ret, credentialInfos) ← lift (GetCredentialInfo currUserId authType);
  CHECK ret = SUCCESS ELSE mret () ;;
  match credentialInfos with
  | [] =>
    nodes ← call EnumerateIndices : carek (list (Z * Z));
    for_each (λ _ '(ty, executorIndex),
      WHEN ty ≠ authType RETURN mret () ;;
      lift (SetCachedTemplates executorIndex [])) () (nodes : list (Z * Z))
  | _ =>
    for_each (λ _ '(executorIndex, infos), lift (SetCachedTemplates executorIndex infos)) ()
      (ClassifyCredInfoByExecutor credentialInfos)
  end.

(* @src T TemplateCacheManager::ProcessUserIdChange *)
Definition ProcessUserIdChange c (newUserId : Z) : carek Cares :=
  WHEN newUserId = currUserId_ c RETURN mret c ;;
  let c := set_user c newUserId in
  UpdateTemplateCache c FACE;;
  UpdateTemplateCache c FINGERPRINT;;
  mret c.

(** ** The current user *)

(* @src O HandleAccountsChanged *)
Definition HandleAccountsChanged c (id : Z) : carek Cares := post c (UserIdChange id).

(* @src O SyncOsAccountIdStatus *)
Definition SyncOsAccountIdStatus c : carek Cares :=
  '(ret, userIdOpt) ← lift (GetActiveUserId None);
  match (userIdOpt : option Z) with
  | Some userId =>
    WHEN ret ≠ SUCCESS RETURN mret c ;;
    WHEN userId = INVALID_USER_ID RETURN mret c ;;
    HandleAccountsChanged c userId
  | None => mret c
  end.

(* @src O OsAccountsManagerImpl::StartSubscribe *)
Definition OsAccounts_StartSubscribe c : carek Cares :=
  WHEN accountSaStatusListener_ c = true RETURN mret c ;;
  listener ← call (SubscribeAbility OsAccountService) : carek bool;
  mret (set_account c listener (accountSubscriber_ c)).

(* @src O OsAccountsManagerImpl::OnOsAccountSaAdd *)
Definition OnOsAccountSaAdd c : carek Cares :=
  WHEN accountSubscriber_ c = true RETURN mret c ;;
  subscriber ← call (Service (MakeShared "UserIamOsAccountSubscriber")) : carek bool;
  CHECK (subscriber : bool) = true ELSE mret c ;;
  errCode ← call SubscribeOsAccount : carek Z;
  CHECK (errCode : Z) = 0 ELSE mret c ;;
  SyncOsAccountIdStatus (set_account c (accountSaStatusListener_ c) true).

(* @src O OsAccountsManagerImpl::OnOsAccountSaRemove *)
Definition OnOsAccountSaRemove c : carek Cares :=
  CHECK accountSubscriber_ c = true ELSE mret c ;;
  errCode ← call UnsubscribeOsAccount : carek Z;
  CHECK (errCode : Z) = 0 ELSE mret c ;;
  mret (set_account c (accountSaStatusListener_ c) false).

(** ** Risk events *)

(* @src RH:40-40 SCREENLOCK_STRONG_AUTH *)
Definition SCREENLOCK_STRONG_AUTH : Z := 1.

(* @src R RiskEventManager::GetTemplateIdList *)
Definition GetTemplateIdList (userId authType : Z) : service (Z * list Z) :=
  '(getCredInfoRet, credentialInfos) ← GetCredentialInfo userId authType;
  WHEN getCredInfoRet = NOT_ENROLLED RETURN mret (NOT_ENROLLED, []) ;;
  CHECK getCredInfoRet = SUCCESS ELSE mret (GENERAL_ERROR, []) ;;
  mret (SUCCESS, GetTemplateId <$> credentialInfos).

(** What the extra information of the event holds. *)
Definition strong_auth_info (authType : Z) (templateIds : list Z) : Attributes * bool :=
  set_all Attributes_new [
    (λ a, SetUint64ArrayValue a ATTR_TEMPLATE_ID_LIST templateIds);
    (λ a, SetInt32Value a ATTR_AUTH_TYPE authType)].

(* @src R RiskEventManager::GetStrongAuthExtraInfo *)
Definition GetStrongAuthExtraInfo (userId authType : Z) : service (Z * bytes) :=
  '(ret, templateIds) ← GetTemplateIdList userId authType;
  CHECK ret = SUCCESS ELSE mret (GENERAL_ERROR, []) ;;
  let '(extraInfoAttr, ok) := strong_auth_info authType templateIds in
  CHECK ok = true ELSE mret (GENERAL_ERROR, []) ;;
  mret (SUCCESS, Serialize extraInfoAttr).

(* @src R RiskEventManager::SetAttributes *)
Definition SetAttributes (userId authType event : Z) : service (Z * Attributes) :=
  CHECK event = SCREENLOCK_STRONG_AUTH ELSE mret (GENERAL_ERROR, Attributes_new) ;;
  let '(attributes, setModeRet) := SetUint32Value Attributes_new ATTR_PROPERTY_MODE PROPERTY_MODE_RISK_EVENT in
  CHECK setModeRet = true ELSE mret (GENERAL_ERROR, attributes) ;;
  '(ret, extraInfo) ← GetStrongAuthExtraInfo userId authType;
  CHECK ret = SUCCESS ELSE mret (GENERAL_ERROR, attributes) ;;
  let '(attributes, setExtraInfoRet) := SetUint8ArrayValue attributes ATTR_EXTRA_INFO extraInfo in
  CHECK setExtraInfoRet = true ELSE mret (GENERAL_ERROR, attributes) ;;
  mret (SUCCESS, attributes).

(* @src R RiskEventManager::SetRiskEventPropertyForAuthType *)
Definition SetRiskEventPropertyForAuthType (userId authType event : Z) : carek () :=
  '(ret, attributes) ← lift (SetAttributes userId authType event);
  CHECK ret = SUCCESS ELSE mret () ;;
  authTypeNodes ← call (NodesByTypeAndRole authType ALL_IN_ONE) : carek (list Z);
  for_each (λ _ node,
    alive ← call (Service (LockNode node)) : carek bool;
    CHECK (alive : bool) = true ELSE mret () ;;
    call (Service (NodeSetProperty node attributes));; mret ()) () (authTypeNodes : list Z).

(** Built with the client of the screen lock. *)
(* @src C ContextAppStateObserverManager::IsScreenLocked *)
Definition IsScreenLocked : carek bool :=
  screenLockInstance ← call GetScreenLockManager : carek bool;
  CHECK (screenLockInstance : bool) = true ELSE mret false ;;
  call ScreenLocked : carek bool.

(* @src R RiskEventManager::HandleStrongAuthEvent *)
Definition HandleStrongAuthEvent (userId : Z) : carek () :=
  screenLockState ← IsScreenLocked;
  CHECK screenLockState = true ELSE mret () ;;
  SetRiskEventPropertyForAuthType userId FACE SCREENLOCK_STRONG_AUTH;;
  SetRiskEventPropertyForAuthType userId FINGERPRINT SCREENLOCK_STRONG_AUTH.

(* @src R RiskEventManager::OnScreenLock *)
Definition OnScreenLock c : carek Cares := post c RiskEvents.

Section StrongAuth.
(** The reasons of the screen lock service. *)
Context (NONE AFTER_BOOT SECURITY_ENHANCEMENT : Z).

(* @src S StrongAuthStatusManagerImpl::IsScreenLockStrongAuth *)
Definition IsScreenLockStrongAuth (userId : Z) : carek bool :=
  screenLockManager ← call GetScreenLockManager : carek bool;
  CHECK (screenLockManager : bool) = true ELSE mret false ;;
  reasonFlag ← call (GetStrongAuth userId) : carek Z;
  mret (bool_decide ((reasonFlag : Z) = SECURITY_ENHANCEMENT)).

(* @src R RiskEventManager::SyncRiskEvents *)
Definition SyncRiskEvents : carek () :=
  '(_, userIdList) ← lift (GetAllUserId []);
  for_each (λ _ userId,
    isScreenLockStrongAuth ← IsScreenLockStrongAuth userId;
    if (isScreenLockStrongAuth : bool) then HandleStrongAuthEvent userId else mret ()) () userIdList.

(** ** The status of strong authentication *)

(* @src S:72-76 UserIamStrongAuthListener::OnStrongAuthChanged *)
Definition OnStrongAuthChanged c (userId strongAuthStatus : Z) : carek Cares :=
  post c (StrongAuthChanged userId strongAuthStatus).

(** The task that it posts. *)
(* @src S:78-95 UserIamStrongAuthListener::OnStrongAuthChanged *)
Definition strong_auth_changed (userId strongAuthStatus : Z) : carek () :=
  (if decide (strongAuthStatus ≠ AFTER_BOOT ∧ strongAuthStatus ≠ NONE)
   then call (ReportScreenLockStrongAuth userId strongAuthStatus) : carek () else mret ());;
  screenLockManager ← call GetScreenLockManager : carek bool;
  CHECK (screenLockManager : bool) = true ELSE mret () ;;
  reasonFlag ← call (GetStrongAuth userId) : carek Z;
  CHECK (reasonFlag : Z) = SECURITY_ENHANCEMENT ELSE mret () ;;
  HandleStrongAuthEvent userId.

(* @src S StrongAuthStatusManagerImpl::SyncStrongAuthStatusForAllAccounts *)
Definition SyncStrongAuthStatusForAllAccounts c : carek Cares :=
  screenLockManager ← call GetScreenLockManager : carek bool;
  CHECK (screenLockManager : bool) = true ELSE mret c ;;
  CHECK strongAuthListener_ c = true ELSE mret c ;;
  '(_, userIdList) ← lift (GetAllUserId []);
  for_each (λ c userId,
    reasonFlag ← call (GetStrongAuth userId) : carek Z;
    OnStrongAuthChanged c userId reasonFlag) c userIdList.

(* @src S StrongAuthStatusManagerImpl::RegisterStrongAuthListener *)
Definition RegisterStrongAuthListener c : carek Cares :=
  WHEN strongAuthListener_ c = true RETURN mret c ;;
  listener ← call (Service (MakeShared "UserIamStrongAuthListener")) : carek bool;
  let c := set_strong c (screenLockSaStatusListener_ c) listener in
  CHECK (listener : bool) = true ELSE mret c ;;
  screenLockManager ← call GetScreenLockManager : carek bool;
  CHECK (screenLockManager : bool) = true ELSE mret c ;;
  call RegisterStrongAuth;;
  SyncStrongAuthStatusForAllAccounts c.

(* @src S StrongAuthStatusManagerImpl::UnRegisterStrongAuthListener *)
Definition UnRegisterStrongAuthListener c : carek Cares :=
  CHECK strongAuthListener_ c = true ELSE mret c ;;
  screenLockManager ← call GetScreenLockManager : carek bool;
  CHECK (screenLockManager : bool) = true ELSE mret c ;;
  call UnRegisterStrongAuth;;
  mret (set_strong c (screenLockSaStatusListener_ c) false).

(* @src S StrongAuthStatusManagerImpl::StartSubscribe *)
Definition StrongAuth_StartSubscribe c : carek Cares :=
  WHEN screenLockSaStatusListener_ c = true RETURN mret c ;;
  listener ← call (SubscribeAbility ScreenLockService) : carek bool;
  mret (set_strong c listener (strongAuthListener_ c)).

(** ** The screen *)

(* @src L ScreenlockStatusListenerManager::RegisterCommonEventListener *)
Definition RegisterCommonEventListener c : carek (Cares * Z) :=
  WHEN commonEventSaStatusListener_ c = true RETURN mret (c, SUCCESS) ;;
  listener ← call (SubscribeAbility CommonEventService) : carek bool;
  let c := set_screen c listener (screenLockedSubscriber_ c) in
  CHECK (listener : bool) = true ELSE mret (c, GENERAL_ERROR) ;;
  mret (c, SUCCESS).

(* @src L ScreenlockStatusListenerManager::SyncScreenlockStatus *)
Definition SyncScreenlockStatus c : carek Cares :=
  screenLockState ← IsScreenLocked;
  CHECK screenLockState = true ELSE mret c ;;
  OnScreenLock c.

(* @src L ScreenlockStatusListenerManager::RegisterScreenLockedCallback *)
Definition RegisterScreenLockedCallback c : carek Cares :=
  WHEN screenLockedSubscriber_ c = true RETURN mret c ;;
  subscriber ← call (Service (MakeShared "ScreenlockStatusListener")) : carek bool;
  CHECK (subscriber : bool) = true ELSE mret c ;;
  subscribed ← call SubscribeScreenLocked : carek bool;
  CHECK (subscribed : bool) = true ELSE mret c ;;
  SyncScreenlockStatus (set_screen c (commonEventSaStatusListener_ c) true).

(* @src L ScreenlockStatusListenerManager::UnRegisterScreenLockedCallback *)
Definition UnRegisterScreenLockedCallback c : carek Cares :=
  CHECK screenLockedSubscriber_ c = true ELSE mret c ;;
  call UnSubscribeScreenLocked;;
  mret (set_screen c (commonEventSaStatusListener_ c) false).

(** [locked] says whether the event is that of a locked screen. *)
(* @src L ScreenlockStatusListener::OnReceiveEvent *)
Definition OnReceiveEvent c (locked : bool) (userId : Z) : carek Cares :=
  WHEN userId = INVALID_USER_ID RETURN mret c ;;
  if locked then OnScreenLock c else mret c.

(** ** Everything that can happen *)

Inductive CareHappening :=
  | StartsAccounts
  | AccountSaAdded
  | AccountSaRemoved
  | AccountsChanged (id : Z)
  | StartsStrongAuth
  | ScreenLockSaAdded
  | ScreenLockSaRemoved
  | StrongAuthChanges (userId strongAuthStatus : Z)
  | CommonEventSaAdded
  | CommonEventSaRemoved
  | EventReceived (locked : bool) (userId : Z)
  | CacheUpdated (authType : Z)
  | Synced
  | TaskRuns.

Definition run_care_task c (t : CareTask) : carek Cares :=
  match t with
  | UserIdChange id => ProcessUserIdChange c id
  | StrongAuthChanged userId status => strong_auth_changed userId status;; mret c
  | RiskEvents => SyncRiskEvents;; mret c
  end.

(** The functions that the system ability listeners call are those of the code. *)
(* @src S:167-172 StrongAuthStatusManagerImpl::StartSubscribe *)
Definition cares_happens c (h : CareHappening) : carek Cares :=
  match h with
  | StartsAccounts => OsAccounts_StartSubscribe c
  | AccountSaAdded => OnOsAccountSaAdd c
  | AccountSaRemoved => OnOsAccountSaRemove c
  | AccountsChanged id => HandleAccountsChanged c id
  | StartsStrongAuth => StrongAuth_StartSubscribe c
  | ScreenLockSaAdded => c ← RegisterStrongAuthListener c; '(c, _) ← RegisterCommonEventListener c; mret c
  | ScreenLockSaRemoved => UnRegisterStrongAuthListener c
  | StrongAuthChanges userId status => OnStrongAuthChanged c userId status
  | CommonEventSaAdded => RegisterScreenLockedCallback c
  | CommonEventSaRemoved => UnRegisterScreenLockedCallback c
  | EventReceived locked userId => OnReceiveEvent c locked userId
  | CacheUpdated authType => UpdateTemplateCache c authType;; mret c
  | Synced => SyncRiskEvents;; mret c
  | TaskRuns =>
    match careTasks c with
    | [] => mret c
    | t :: ts => run_care_task (set_tasks c ts) t
    end
  end.

Definition cares_run (c : Cares) (hs : list CareHappening) : carek Cares := for_each cares_happens c hs.

End StrongAuth.
