(* ===== verification/CachesThm.v ===== *)
(** * What executors are told of templates

    Every property that the caches and the risk events set on an executor is
    backed by what the services were told before, whatever happens
    ([executor_properties_backed]); a user with credentials has all of them sent
    to their executors ([templates_all_sent]). The examples at the end show the
    templates of a former user that stay with an executor, and subscriptions
    that are lost. *)

From S2P Require Import Prelude Defines Interaction ServiceTypes AttributesImpl Attributes Platform IpcCommon UserIdmDatabase NodeCommands Caches.

Implicit Types T : care_trace.

Definition saw T (q : care) (r : care_answer q) : Prop := existT q r ∈ T.
Arguments saw T q r : clear implicits.

(** The engine named the credentials of a user. *)
Definition fetched T (userId authType : Z) (hdi : list EngCredentialInfo) : Prop :=
  saw T (Service (EngGetCredential userId authType)) (SUCCESS, hdi).
Definition cached (authType : Z) : Prop := authType = FACE ∨ authType = FINGERPRINT.

Definition templates_at (executorIndex : Z) (hdi : list EngCredentialInfo) : list Z :=
  ec_templateId <$> filter (λ h, ec_executorIndex h = executorIndex) hdi.

(** An executor keeps its own templates of a user. *)
Definition cache_backed T (node : Z) (p : Attributes) : Prop :=
  ∃ userId authType hdi executorIndex, userId ≠ INVALID_USER_ID ∧ cached authType ∧ fetched T userId authType hdi ∧
    saw T (Service (SelectNode executorIndex)) (Some node) ∧ p = cached_templates (templates_at executorIndex hdi).

Definition risk_property (authType : Z) (templateIds : list Z) : Attributes :=
  let p := (SetUint32Value Attributes_new ATTR_PROPERTY_MODE PROPERTY_MODE_RISK_EVENT).1 in
  (SetUint8ArrayValue p ATTR_EXTRA_INFO (Serialize (strong_auth_info authType templateIds).1)).1.

(** A living executor is told of the templates of a user for whom the locked
    screen requires strong authentication. *)
Definition risk_backed (SECURITY_ENHANCEMENT : Z) T (node : Z) (p : Attributes) : Prop :=
  ∃ userId authType hdi nodes, cached authType ∧ fetched T userId authType hdi ∧
    saw T (GetStrongAuth userId) SECURITY_ENHANCEMENT ∧ saw T ScreenLocked true ∧
    saw T (NodesByTypeAndRole authType ALL_IN_ONE) nodes ∧ node ∈ nodes ∧
    saw T (Service (LockNode node)) true ∧ p = risk_property authType (ec_templateId <$> hdi).

Definition backed (SECURITY_ENHANCEMENT : Z) T (q : care) : Prop :=
  match q with
  | Service (NodeSetProperty node p) => cache_backed T node p ∨ risk_backed SECURITY_ENHANCEMENT T node p
  | _ => True
  end.

(** ** Traces and lifted programs *)

Section Traces.

Lemma saw_app T u q r : saw T q r → saw (T ++ u) q r.
Proof. unfold saw. set_solver. Qed.
Lemma saw_last T q r : saw (T ++ [existT q r]) q r.
Proof. unfold saw. set_solver. Qed.

Lemma wp_cached P P' {A} (m : service A) t T (Φ : A → trace → Prop) :
  wp P m t Φ → (∀ u q, P (t ++ u) q → P' (T ++ (lift_event <$> u)) (Service q)) →
  wp P' (lift m) T (λ a T', ∃ u, T' = T ++ (lift_event <$> u) ∧ Φ a (t ++ u)).
Proof.
  revert t T. induction m as [a|q k IH]; intros t T Hm HP.
  - exists []. by rewrite !app_nil_r.
  - destruct Hm as [Hq Hm]. change (lift (Call q k)) with (call (Service q : care) ≫= (λ r, lift (k r))).
    apply wp_bind, (@wp_call care care_answer _ (Service q)).
    { rewrite <- (app_nil_r T). apply (HP []). by rewrite app_nil_r. }
    intros r. eapply wp_wand; [apply (IH r (t ++ [existT q r]) (T ++ [lift_event (existT q r)]))|].
    + apply Hm.
    + intros u q' H. rewrite <- app_assoc in *. by apply (HP (existT q r :: u)).
    + intros a T' (u & -> & Hu). exists (existT q r :: u). rewrite <- !app_assoc in *. done.
Qed.

(** The first call of a lifted program. *)
Lemma wp_lift_call P {A} q (f : answer q → service A) T (Φ : A → care_trace → Prop) :
  P T (Service q) → (∀ r, wp P (lift (f r)) (T ++ [existT (Service q : care) r]) Φ) → wp P (lift (Call q f)) T Φ.
Proof. done. Qed.

(** Goes on from [T], with any calls. *)
Definition after T T' : Prop := ∃ u, T' = T ++ u.
Lemma saw_after T T' q r : after T T' → saw T q r → saw T' q r.
Proof. intros [u ->]. apply saw_app. Qed.
Lemma after_refl T : after T T.
Proof. exists []. by rewrite app_nil_r. Qed.
Lemma after_trans T1 T2 T3 : after T1 T2 → after T2 T3 → after T1 T3.
Proof. intros [u ->] [v ->]. exists (u ++ v). by rewrite app_assoc. Qed.
Lemma after_snoc T e : after T (T ++ [e]).
Proof. by exists [e]. Qed.

End Traces.
#[local] Hint Resolve after_refl after_snoc saw_last saw_after after_trans : core.

(** ** Classification *)

Section Classify.

(** Strictly ascending, as the keys of a map are. *)
Fixpoint ascending (from : Z → Prop) (out : Classified) : Prop :=
  match out with [] => True | (i, _) :: out => from i ∧ ascending (λ j, i < j) out end.

Fixpoint at_key (i : Z) (out : Classified) : list CredentialInfoImpl :=
  match out with [] => [] | (j, creds) :: out => if decide (i = j) then creds else at_key i out end.

Lemma ascending_mono (P Q : Z → Prop) out : (∀ i, P i → Q i) → ascending P out → ascending Q out.
Proof. destruct out as [|[i creds] out]; [done|]. intros H [? ?]. split; auto. Qed.

Lemma ascending_gap i j out : ascending (λ k, j < k) out → i ≤ j → at_key i out = [].
Proof.
  revert j. induction out as [|[k creds] out IH]; intros j; [done|]. simpl. intros [Hk Ho] Hi.
  rewrite decide_False by lia. apply (IH k); [done|lia].
Qed.

Lemma push_back_spec P i cred out :
  ascending P out → P i →
  ascending P (push_back i cred out) ∧
  (∀ j, at_key j (push_back i cred out) = if decide (j = i) then at_key j out ++ [cred] else at_key j out) ∧
  (∀ j, j ∈ (push_back i cred out).*1 ↔ j = i ∨ j ∈ out.*1).
Proof.
  revert P. induction out as [|[k creds] out IH]; intros P; csimpl.
  { intros _ Hi. split; [done|]. split; [by intros j; case_decide|]. set_solver. }
  intros [Hk Ho] Hi. case_decide as E1; [|case_decide as E2]; csimpl.
  - subst k. split; [done|]. split; [|set_solver]. intros j. by repeat case_decide.
  - split; [by split_and!|]. split; [|set_solver].
    intros j. case_decide; [|done]. subst j. rewrite decide_False by lia. by rewrite (ascending_gap i k) by (done || lia).
  - destruct (IH (λ j, k < j)) as (H1 & H2 & H3); [done|simpl; lia|]. split; [done|]. split.
    + intros j. rewrite H2. repeat case_decide; naive_solver lia.
    + intros j. rewrite !elem_of_cons, H3. tauto.
Qed.

Lemma at_key_elem out i creds P : ascending P out → (i, creds) ∈ out → at_key i out = creds.
Proof.
  revert P. induction out as [|[k cs] out IH]; intros P; [by intros _ ?%not_elem_of_nil|]. simpl.
  intros [_ Ho] [[= -> ->]|H]%elem_of_cons; [by rewrite decide_True|]. case_decide as E; [|by eapply IH].
  subst k. exfalso. clear IH. assert (∀ j c, (j, c) ∈ out → i < j) as Hlt; [|specialize (Hlt _ _ H); lia].
  clear H. assert (∀ n, ascending (λ j, n < j) out → ∀ j c, (j, c) ∈ out → n < j) as G; [|by apply (G i)].
  clear. intros n. revert n. induction out as [|[k cs] out IH]; intros n; [by intros _ ?? ?%not_elem_of_nil|].
  intros [H1 H2] j c [[= -> ->]|H]%elem_of_cons; [done|]. specialize (IH k H2 j c H). lia.
Qed.

(** Each executor gets its own credentials, in the order of the engine. *)
Lemma classify_spec in_ i infos :
  (i, infos) ∈ ClassifyCredInfoByExecutor in_ → infos = filter (λ c, GetExecutorIndex c = i) in_.
Proof.
  unfold ClassifyCredInfoByExecutor. intros H.
  assert (∀ out, ascending (λ _, True) out → ascending (λ _, True) (foldl (λ out c, push_back (GetExecutorIndex c) c out) out in_) ∧
    ∀ j, at_key j (foldl (λ out c, push_back (GetExecutorIndex c) c out) out in_) =
      at_key j out ++ filter (λ c, GetExecutorIndex c = j) in_) as G.
  { clear H. induction in_ as [|c in_ IH]; intros out Ho; simpl; [split; [done|]; intros j; by rewrite app_nil_r|].
    destruct (push_back_spec _ (GetExecutorIndex c) c out Ho I) as (H1 & H2 & _). destruct (IH _ H1) as [G1 G2].
    split; [done|]. intros j. rewrite G2, H2, filter_cons. repeat case_decide; try naive_solver. by rewrite <- app_assoc. }
  destruct (G [] I) as [G1 G2]. rewrite <- (at_key_elem _ _ _ _ G1 H), G2. done.
Qed.

Lemma classify_complete in_ c : c ∈ in_ → GetExecutorIndex c ∈ (ClassifyCredInfoByExecutor in_).*1.
Proof.
  unfold ClassifyCredInfoByExecutor. intros H.
  assert (∀ out, ascending (λ _, True) out → ∀ j, (j ∈ out.*1 ∨ ∃ c, c ∈ in_ ∧ GetExecutorIndex c = j) →
    j ∈ (foldl (λ out c, push_back (GetExecutorIndex c) c out) out in_).*1) as G; [|by apply (G [] I); eauto].
  clear. induction in_ as [|c in_ IH]; intros out Ho j Hj; simpl.
  { destruct Hj as [Hj|(? & ?%not_elem_of_nil & _)]; done. }
  destruct (push_back_spec _ (GetExecutorIndex c) c out Ho I) as (H1 & _ & H3). apply IH; [done|]. rewrite H3.
  destruct Hj as [Hj|(c' & [->|Hc]%elem_of_cons & <-)]; eauto.
Qed.

Lemma templates_filter u hdi i :
  GetTemplateId <$> filter (λ c, GetExecutorIndex c = i) (mkCredImpl u <$> hdi) = templates_at i hdi.
Proof.
  unfold templates_at. induction hdi as [|h hdi IH]; [done|]. rewrite fmap_cons, !filter_cons.
  repeat case_decide; try done; csimpl; by rewrite IH.
Qed.

End Classify.

(** ** Guards of the operations *)

Section Backed.
Context (NONE AFTER_BOOT SECURITY_ENHANCEMENT : Z).
Abbreviation backed := (backed SECURITY_ENHANCEMENT).
Abbreviation safe m T := (wp backed m T (λ _ T', after T T')).

Lemma safe_from {A} (m : carek A) T T1 : after T T1 → safe m T1 → wp backed m T1 (λ _ T', after T T').
Proof. intros H Hm. eapply wp_wand; [exact Hm|]. simpl. eauto. Qed.

Lemma safe_each {A} (f : unit → A → carek ()) l T :
  (∀ x T', x ∈ l → after T T' → safe (f () x) T') → safe (for_each f () l) T.
Proof.
  intros Hf. apply (wp_for_each backed f (λ _ T', after T T')); [|apply after_refl].
  intros [] x T1 Hx H1. apply safe_from; auto.
Qed.

Lemma safe_bind {A B} (m : carek A) (k : A → carek B) T :
  safe m T → (∀ a T', after T T' → safe (k a) T') → safe (m ≫= k) T.
Proof. intros Hm Hk. apply wp_bind. eapply wp_wand; [exact Hm|]. intros a T1 H1. apply safe_from; auto. Qed.

Lemma safe_call q T : backed T q → safe (call q) T.
Proof. intros Hq. apply wp_call; [done|]. intros r. apply after_snoc. Qed.

Lemma safe_ret {A} (a : A) T : safe (mret a) T.
Proof. apply wp_ret, after_refl. Qed.

Definition plain (q : sys) : bool := match q with NodeSetProperty _ _ => false | _ => true end.

(** Code of the services that sets no property goes on. *)
Lemma wp_plain {A} (m : service A) T (Φ : A → trace → Prop) (Ψ : A → care_trace → Prop) :
  (∀ t, wp (λ _ q, plain q = true) m t Φ) →
  (∀ a u, Φ a u → Ψ a (T ++ (lift_event <$> u))) → wp backed (lift m) T Ψ.
Proof.
  intros Hm HΨ. eapply wp_wand; [apply (wp_cached (λ _ q, plain q = true) _ m [] T Φ (Hm []))|].
  - intros u q Hq. by destruct q.
  - intros a T' (u & -> & Hu). by apply HΨ.
Qed.

Lemma wp_plain_any {A} (m : service A) T (Ψ : A → care_trace → Prop) :
  only plain m → (∀ a T', after T T' → Ψ a T') → wp backed (lift m) T Ψ.
Proof.
  intros Hm HΨ. eapply (wp_plain _ _ (λ _ _, True)).
  - intros t. by apply (wp_only _ plain).
  - intros a u _. apply HΨ. by eexists.
Qed.

Definition fetched_by_service (t : trace) (userId authType : Z) (hdi : list EngCredentialInfo) : Prop :=
  existT (EngGetCredential userId authType) (SUCCESS, hdi) ∈ t.

Lemma wp_service_credentials userId authType t (Φ : Z * list CredentialInfoImpl → trace → Prop) :
  (∀ ret infos t',
    (ret = SUCCESS → ∃ hdi, fetched_by_service t' userId authType hdi ∧ infos = mkCredImpl userId <$> hdi) → Φ (ret, infos) t') →
  wp (λ _ q, plain q = true) (GetCredentialInfo userId authType) t Φ.
Proof.
  intros HΦ. unfold GetCredentialInfo, wrap_credentials.
  apply wp_bind, (@wp_call sys answer _ (EngGetCredential _ _)); [done|]. intros [ret hdi].
  case_decide as Hr; [|by apply wp_ret, HΦ]. apply wp_wrap_each.
  - by intros t' [].
  - intros t' (u & -> & _). apply HΦ. intros _. exists hdi. unfold fetched_by_service. rewrite Hr. split; [set_solver|done].
  - intros res t' _ _. by apply HΦ.
Qed.

Lemma fetched_lift T u userId authType hdi :
  fetched_by_service u userId authType hdi → fetched (T ++ (lift_event <$> u)) userId authType hdi.
Proof. intros H. apply elem_of_app. right. by apply (list_elem_of_fmap_2 lift_event) in H. Qed.

Lemma wp_credentials userId authType T (Ψ : Z * list CredentialInfoImpl → care_trace → Prop) :
  (∀ ret infos T', after T T' →
    (ret = SUCCESS → ∃ hdi, fetched T' userId authType hdi ∧ infos = mkCredImpl userId <$> hdi) → Ψ (ret, infos) T') →
  wp backed (lift (GetCredentialInfo userId authType)) T Ψ.
Proof.
  intros HΨ. eapply (wp_plain _ _ (λ r t, r.1 = SUCCESS →
    ∃ hdi, fetched_by_service t userId authType hdi ∧ r.2 = mkCredImpl userId <$> hdi)).
  - intros t. by apply wp_service_credentials.
  - intros [ret infos] u Hu. apply HΨ; [by eexists|]. intros Hret. destruct (Hu Hret) as (hdi & Hin & Hi).
    exists hdi. split; [by apply fetched_lift|done].
Qed.

Lemma wp_SetCachedTemplates executorIndex infos T :
  (∀ node T', after T T' → saw T' (Service (SelectNode executorIndex)) (Some node) →
    cache_backed T' node (cached_templates (GetTemplateId <$> infos))) →
  safe (lift (SetCachedTemplates executorIndex infos)) T.
Proof.
  intros Hb. apply (wp_lift_call _ (SelectNode executorIndex)); [done|]. intros [node|]; [|exact (after_snoc _ _)].
  apply (wp_lift_call _ (NodeSetProperty _ _)); [left; by apply Hb|]. intros r.
  exact (after_trans _ _ _ (after_snoc _ _) (after_snoc _ _)).
Qed.

Lemma wp_UpdateTemplateCache c authType T : safe (UpdateTemplateCache c authType) T.
Proof.
  unfold UpdateTemplateCache. cbv zeta. case_decide as Hu; [|apply safe_ret]. case_decide as Ht; [apply safe_ret|].
  assert (cached authType) as Hc by (unfold cached; destruct (decide (authType = FACE)), (decide (authType = FINGERPRINT)); tauto).
  apply wp_bind, wp_credentials. intros ret infos T1 H1 Hi. case_decide as Hr; [|by apply wp_ret].
  destruct (Hi Hr) as (hdi & Hf & ->). destruct (mkCredImpl _ <$> hdi) as [|info infos] eqn:E.
  - apply fmap_nil_inv in E as ->. apply safe_from; [done|].
    apply safe_bind; [by apply (safe_call EnumerateIndices)|]. intros nodes T2 H2.
    apply (safe_each _ (nodes : list (Z * Z))). intros [ty i] T3 _ H3. case_decide; [apply safe_ret|].
    apply wp_SetCachedTemplates. intros node T4 H4 Hs. exists (currUserId_ c), authType, [], i.
    split_and!; try done. eapply saw_after; [|exact Hf]; eauto.
  - rewrite <- E. apply safe_from; [done|]. apply safe_each. intros [i cs] T2 Hin H2. apply wp_SetCachedTemplates.
    intros node T3 H3 Hs. exists (currUserId_ c), authType, hdi, i.
    split_and!; try done; [eapply saw_after; [|exact Hf]; eauto|].
    by rewrite (classify_spec _ _ _ Hin), templates_filter.
Qed.

Lemma wp_ProcessUserIdChange c u T : safe (ProcessUserIdChange c u) T.
Proof.
  unfold ProcessUserIdChange. case_decide; [apply safe_ret|]. cbv zeta.
  apply safe_bind; [apply wp_UpdateTemplateCache|]. intros _ T1 _.
  apply safe_bind; [apply wp_UpdateTemplateCache|]. intros _ T2 _. apply safe_ret.
Qed.

(** The attributes of the event, if they could be made. *)
Lemma wp_SetAttributes userId authType T (Ψ : Z * Attributes → care_trace → Prop) :
  (∀ ret p T', after T T' →
    (ret = SUCCESS → ∃ hdi, fetched T' userId authType hdi ∧ p = risk_property authType (ec_templateId <$> hdi)) → Ψ (ret, p) T') →
  wp backed (lift (SetAttributes userId authType SCREENLOCK_STRONG_AUTH)) T Ψ.
Proof.
  intros HΨ.
  eapply (wp_plain _ _ (λ r t, r.1 = SUCCESS → ∃ hdi, fetched_by_service t userId authType hdi ∧
    r.2 = risk_property authType (ec_templateId <$> hdi))).
  2:{ intros [ret p] u Hu. apply HΨ; [by eexists|]. intros Hret. destruct (Hu Hret) as (hdi & Hin & Hi).
      exists hdi. split; [by apply fetched_lift|done]. }
  intros t. unfold SetAttributes, GetStrongAuthExtraInfo, GetTemplateIdList.
  rewrite decide_True by done. destruct (SetUint32Value _ _ _) as [a1 ok1] eqn:E1. case_decide; [|by apply wp_ret].
  do 3 apply wp_bind. apply wp_service_credentials. intros ret infos t' Hi.
  case_decide as Hn; [by repeat first [apply wp_ret|case_decide]|].
  case_decide as Hr; [|by repeat first [apply wp_ret|case_decide]].
  destruct (Hi Hr) as (hdi & Hf & ->). apply wp_ret. rewrite <- list_fmap_compose.
  change (GetTemplateId ∘ mkCredImpl userId) with ec_templateId. rewrite decide_True by done.
  destruct (strong_auth_info _ _) as [a2 ok2] eqn:E2. case_decide; [|by repeat first [apply wp_ret|case_decide]].
  apply wp_ret. rewrite decide_True by done. destruct (SetUint8ArrayValue _ _ _) as [a3 ok3] eqn:E3.
  case_decide; [|by apply wp_ret]. apply wp_ret. intros _. exists hdi. split; [done|].
  unfold risk_property. by rewrite E1, E2; simpl; rewrite E3.
Qed.

Lemma wp_SetRiskEvent userId authType T :
  cached authType → saw T (GetStrongAuth userId) SECURITY_ENHANCEMENT → saw T ScreenLocked true →
  safe (SetRiskEventPropertyForAuthType userId authType SCREENLOCK_STRONG_AUTH) T.
Proof.
  intros Hc Hs Hl. apply wp_bind, wp_SetAttributes. intros ret p T1 H1 Hp. apply safe_from; [done|].
  case_decide as Hr; [|apply safe_ret]. destruct (Hp Hr) as (hdi & Hf & ->).
  apply wp_bind, (@wp_call care care_answer _ (NodesByTypeAndRole authType ALL_IN_ONE)); [done|]. intros nodes.
  apply safe_from; [eauto|]. apply (safe_each _ (nodes : list Z)). intros node T2 Hn H2.
  apply wp_bind, (@wp_call care care_answer _ (Service (LockNode node))); [done|]. intros alive.
  apply safe_from; [eauto|]. case_decide as Ha; [|apply safe_ret]. apply safe_bind; [|intros; apply safe_ret].
  apply (safe_call (Service (NodeSetProperty _ _))). right. exists userId, authType, hdi, nodes.
  simpl in Ha. subst alive. split_and!; eauto 8 using saw_after.
  by apply saw_after with (T1 ++ [existT (NodesByTypeAndRole authType ALL_IN_ONE) nodes]); eauto.
Qed.

Lemma wp_IsScreenLocked T Φ :
  (∀ b T', after T T' → (b = true → saw T' ScreenLocked true) → Φ b T') → wp backed IsScreenLocked T Φ.
Proof.
  intros HΦ. apply wp_bind, (@wp_call care care_answer _ GetScreenLockManager); [done|]. intros present.
  case_decide; [|apply wp_ret, HΦ; eauto; done]. apply (@wp_call care care_answer _ ScreenLocked); [done|].
  intros b. apply HΦ; [eauto|]. intros ->. apply saw_last.
Qed.

Lemma wp_HandleStrongAuthEvent userId T :
  saw T (GetStrongAuth userId) SECURITY_ENHANCEMENT → safe (HandleStrongAuthEvent userId) T.
Proof.
  intros Hs. apply wp_bind, wp_IsScreenLocked. intros b T1 H1 Hl. apply safe_from; [done|].
  case_decide as Hb; [|apply safe_ret]. specialize (Hl Hb).
  apply safe_bind; [|intros _ T2 H2]; apply wp_SetRiskEvent; eauto; by (left + right).
Qed.

Lemma wp_SyncRiskEvents T : safe (SyncRiskEvents SECURITY_ENHANCEMENT) T.
Proof.
  unfold SyncRiskEvents. apply safe_bind.
  { apply wp_plain_any; [|done]. unfold GetAllUserId. only_steps. }
  intros [ret userIds] T1 _. apply safe_each. intros userId T2 _ _. apply wp_bind. unfold IsScreenLockStrongAuth.
  apply wp_bind, (@wp_call care care_answer _ GetScreenLockManager); [done|]. intros present.
  case_decide; [|apply wp_ret; apply safe_from; [eauto|apply safe_ret]].
  apply wp_bind, (@wp_call care care_answer _ (GetStrongAuth userId)); [done|]. intros reason. apply wp_ret.
  apply safe_from; [eauto|]. case_bool_decide as Hr; [|apply safe_ret]. apply wp_HandleStrongAuthEvent.
  simpl in Hr. subst reason. apply saw_last.
Qed.

Lemma wp_strong_auth_changed userId status T :
  safe (strong_auth_changed NONE AFTER_BOOT SECURITY_ENHANCEMENT userId status) T.
Proof.
  unfold strong_auth_changed. apply safe_bind.
  { case_decide; [by apply (safe_call (ReportScreenLockStrongAuth _ _))|apply safe_ret]. }
  intros _ T1 _. apply safe_bind; [by apply (safe_call GetScreenLockManager)|]. intros present T2 _.
  case_decide; [|apply safe_ret].
  apply wp_bind, (@wp_call care care_answer _ (GetStrongAuth userId)); [done|]. intros reason.
  apply safe_from; [eauto|]. case_decide as Hr; [|apply safe_ret]. apply wp_HandleStrongAuthEvent.
  simpl in Hr. subst reason. apply saw_last.
Qed.

(** Operations that set no property at all. *)
Definition harmless (q : care) : bool := match q with Service (NodeSetProperty _ _) => false | _ => true end.

Lemma safe_harmless {A} (m : carek A) T : only harmless m → safe m T.
Proof.
  intros Hm. apply (wp_only _ harmless); [done| |by intros a T' (u & -> & _); exists u].
  intros T' q Hq. destruct q as [q| | | | | | | | | | | | |]; try done. by destruct q.
Qed.

Lemma harmless_lift {A} (m : service A) : only plain m → only harmless (lift m).
Proof.
  induction m as [a|q k IH]; [done|]. intros [Hq Hk]. split; [by destruct q|]. intros r. exact (IH r (Hk r)).
Qed.

Lemma harmless_post c t : only harmless (post c t).
Proof.
  apply only_bind; [by apply (@only_call care care_answer _ (Service GetSingleThreadInstance))|]. intros b.
  case_decide; apply only_ret.
Qed.

Lemma harmless_GetAllUserId : only harmless (lift (GetAllUserId [])).
Proof. apply harmless_lift. unfold GetAllUserId. only_steps. Qed.

Lemma harmless_GetActiveUserId : only harmless (lift (GetActiveUserId None)).
Proof. apply harmless_lift. unfold GetActiveUserId. only_steps. Qed.
#[local] Hint Resolve harmless_post harmless_GetAllUserId harmless_GetActiveUserId : service.

Lemma safe_other c h T :
  match h with CacheUpdated _ | Synced | TaskRuns => False | _ => True end →
  safe (cares_happens NONE AFTER_BOOT SECURITY_ENHANCEMENT c h) T.
Proof.
  intros Hh. apply safe_harmless. destruct h; try done; simpl.
  all: unfold OsAccounts_StartSubscribe, OnOsAccountSaAdd, SyncOsAccountIdStatus, HandleAccountsChanged,
    OnOsAccountSaRemove, StrongAuth_StartSubscribe, RegisterStrongAuthListener, SyncStrongAuthStatusForAllAccounts,
    OnStrongAuthChanged, RegisterCommonEventListener, UnRegisterStrongAuthListener, RegisterScreenLockedCallback,
    SyncScreenlockStatus, IsScreenLocked, OnScreenLock, UnRegisterScreenLockedCallback, OnReceiveEvent.
  all: repeat first [solve [eauto 6 with service] | step]; try done.
Qed.

Lemma safe_happens c h T : safe (cares_happens NONE AFTER_BOOT SECURITY_ENHANCEMENT c h) T.
Proof.
  destruct h as [| | | | | | | | | | |authType| |]; try by apply safe_other.
  - apply safe_bind; [apply wp_UpdateTemplateCache|intros; apply safe_ret].
  - apply safe_bind; [apply wp_SyncRiskEvents|intros; apply safe_ret].
  - simpl. destruct (careTasks c) as [|[id|userId status|] ts]; simpl; [apply safe_ret|apply wp_ProcessUserIdChange| |].
    + apply safe_bind; [apply wp_strong_auth_changed|intros; apply safe_ret].
    + apply safe_bind; [apply wp_SyncRiskEvents|intros; apply safe_ret].
Qed.

End Backed.

(** C35: Whatever accounts, the screen lock and the engine do, a property set on
    an executor is either the list of its own templates of a user, or the event
    that tells a living executor of the templates of a user for whom the locked
    screen requires strong authentication, and the engine had named these
    templates before. *)
Theorem executor_properties_backed NONE AFTER_BOOT SECURITY_ENHANCEMENT o hs t1 node p r t2 :
  (run o (cares_run NONE AFTER_BOOT SECURITY_ENHANCEMENT Cares_new hs) []).2 =
    t1 ++ existT (Service (NodeSetProperty node p)) r :: t2 →
  cache_backed t1 node p ∨ risk_backed SECURITY_ENHANCEMENT t1 node p.
Proof.
  intros Ht.
  assert (wp (backed SECURITY_ENHANCEMENT) (cares_run NONE AFTER_BOOT SECURITY_ENHANCEMENT Cares_new hs) [] (λ _ _, True)) as H.
  { apply (wp_for_each _ _ (λ _ _, True)); [|done]. intros c h T _ _. eapply wp_wand; [apply safe_happens|done]. }
  apply (wp_run_nil _ o) in H as [Hg _]. exact (Hg _ _ _ Ht).
Qed.

(** ** Nothing is forgotten *)

(** The executor with the index was looked for, and if it was found it was told. *)
Definition told T (executorIndex : Z) (templateIds : list Z) : Prop :=
  ∃ node, saw T (Service (SelectNode executorIndex)) node ∧
    ∀ n, node = Some n → ∃ r, saw T (Service (NodeSetProperty n (cached_templates templateIds))) r.

Section AllSent.
#[local] Hint Resolve after_refl after_snoc saw_last saw_after after_trans : core.

Lemma told_after T T' i ids : after T T' → told T i ids → told T' i ids.
Proof.
  intros Ha (node & Hs & Ht). exists node. split; [eauto|]. intros n Hn. destruct (Ht n Hn) as [r Hr]. exists r. eauto.
Qed.

Lemma told_SetCachedTemplates i infos T (Φ : () → care_trace → Prop) :
  (∀ T', after T T' → told T' i (GetTemplateId <$> infos) → Φ () T') →
  wp (λ _ _, True) (lift (SetCachedTemplates i infos)) T Φ.
Proof.
  intros HΦ. apply (wp_lift_call _ (SelectNode i)); [done|]. intros [node|].
  - apply (wp_lift_call _ (NodeSetProperty _ _)); [done|]. intros r. change (lift _) with (mret () : carek ()). apply wp_ret, HΦ; [eauto|].
    exists (Some node). split; [eauto|]. intros n [= <-]. exists r. apply saw_last.
  - change (lift _) with (mret () : carek ()). apply wp_ret, HΦ; [eauto|]. exists None. by split; [apply saw_last|].
Qed.

(** Every step of a loop leaves what it did behind. *)
Lemma wp_collects {A} (f : () → A → carek ()) (D : A → care_trace → Prop) l T :
  (∀ x T T', after T T' → D x T → D x T') →
  (∀ x T, x ∈ l → wp (λ _ _, True) (f () x) T (λ _ T', after T T' ∧ D x T')) →
  wp (λ _ _, True) (for_each f () l) T (λ _ T', after T T' ∧ ∀ x, x ∈ l → D x T').
Proof.
  intros HD. revert T. induction l as [|x l IH]; intros T Hf; simpl; [split; [eauto|set_solver]|].
  apply wp_bind. eapply wp_wand; [apply Hf; by left|]. intros [] T1 [H1 Hx].
  eapply wp_wand; [apply IH; intros; apply Hf; by right|]. intros [] T2 [H2 Hl]. split; [eauto|].
  intros y [->|Hy]%elem_of_cons; eauto.
Qed.

(** The current user's templates of the type are all sent to the executors that
    keep them; without any, the executors of the type are told so. *)
Definition all_told T (authType : Z) (hdi : list EngCredentialInfo) : Prop :=
  match hdi with
  | [] => ∃ nodes, saw T EnumerateIndices nodes ∧ ∀ i, (authType, i) ∈ nodes → told T i []
  | _ => ∀ h, h ∈ hdi → told T (ec_executorIndex h) (templates_at (ec_executorIndex h) hdi)
  end.

Lemma fails_credentials userId authType t :
  wp (λ _ _, True) (GetCredentialInfo userId authType) t (λ r t',
    (∃ ret hdi, existT (EngGetCredential userId authType) (ret, hdi) ∈ t' ∧ ret ≠ SUCCESS) ∨
    existT (MakeShared "CredentialInfoImpl") false ∈ t' ∨
    ∃ hdi, existT (EngGetCredential userId authType) (SUCCESS, hdi) ∈ t' ∧ r = (SUCCESS, mkCredImpl userId <$> hdi)).
Proof.
  unfold GetCredentialInfo, wrap_credentials.
  apply wp_bind, (@wp_call sys answer _ (EngGetCredential _ _)); [done|]. intros [ret hdi].
  case_decide as Hr; [|apply wp_ret; left; exists ret, hdi; set_solver]. subst ret. apply wp_wrap_each; [done| |].
  - intros t' (u & -> & _). right; right. exists hdi. split; [set_solver|done].
  - intros res t' _ Ha. right; left. exact Ha.
Qed.

Theorem templates_all_sent c authType o :
  currUserId_ c ≠ INVALID_USER_ID → cached authType →
  let T := (run o (UpdateTemplateCache c authType) []).2 in
  (∃ ret hdi, saw T (Service (EngGetCredential (currUserId_ c) authType)) (ret, hdi) ∧ ret ≠ SUCCESS) ∨
  saw T (Service (MakeShared "CredentialInfoImpl")) false ∨
  ∃ hdi, fetched T (currUserId_ c) authType hdi ∧ all_told T authType hdi.
Proof.
  intros Hu Hc T. apply (wp_post o (λ _ _, True) (UpdateTemplateCache c authType) [] (λ _ T,
    (∃ ret hdi, saw T (Service (EngGetCredential (currUserId_ c) authType)) (ret, hdi) ∧ ret ≠ SUCCESS) ∨
    saw T (Service (MakeShared "CredentialInfoImpl")) false ∨
    ∃ hdi, fetched T (currUserId_ c) authType hdi ∧ all_told T authType hdi)). clear T.
  unfold UpdateTemplateCache. rewrite decide_True by done. rewrite decide_False by (unfold cached in Hc; tauto).
  apply wp_bind. eapply wp_wand; [apply (wp_cached (λ _ _, True)); [apply (fails_credentials _ _ [])|done]|].
  intros [ret infos] T1 (u & -> & Hu1). rewrite !app_nil_l in *.
  assert (∀ q r T', after (lift_event <$> u) T' → existT q r ∈ u → saw T' (Service q) r) as Hlift.
  { intros q r T' Ha Hin. eapply saw_after; [done|]. by apply (list_elem_of_fmap_2 lift_event) in Hin. }
  assert (∀ (m : carek ()), wp (λ _ _, True) m (lift_event <$> u) (λ _ T', after (lift_event <$> u) T')) as Hany.
  { intros m. eapply wp_wand; [apply wp_suffix|]. by intros _ T' [v ->]; exists v. }
  destruct Hu1 as [(ret' & hdi & Hin & Hne)|[Hin|(hdi & Hin & [= -> ->])]].
  - eapply wp_wand; [apply Hany|]. intros [] T' Ha. left. exists ret', hdi. eauto.
  - eapply wp_wand; [apply Hany|]. intros [] T' Ha. right; left. eauto.
  - rewrite decide_True by done. destruct (mkCredImpl _ <$> hdi) as [|info infos] eqn:E.
    + apply fmap_nil_inv in E as ->. apply wp_bind, (@wp_call care care_answer _ EnumerateIndices); [done|]. intros nodes.
      eapply wp_wand; [apply (wp_collects _ (λ x T, x.1 = authType → told T x.2 []) (nodes : list (Z * Z)))|].
      * intros x T T' Ha Ht Hx. eapply told_after; eauto.
      * intros [ty i] T _. case_decide; [by apply wp_ret; split; [eauto|]|].
        apply told_SetCachedTemplates. intros T' Ha Ht. by split; [|intros _].
      * intros _ T' [Ha Ht]. right; right. exists []. split; [apply Hlift; eauto|]. exists nodes. split; [eauto|].
        intros i Hi. by apply (Ht _ Hi).
    + rewrite <- E. eapply wp_wand; [apply (wp_collects _ (λ x T, told T x.1 (GetTemplateId <$> x.2)))|].
      * intros x T T'. apply told_after.
      * intros [i cs] T _. apply told_SetCachedTemplates. by intros T' Ha Ht.
      * intros _ T' [Ha Ht]. right; right. exists hdi. split; [by apply Hlift|]. destruct hdi as [|h0 hdi0]; [done|].
        intros h Hh. assert (ec_executorIndex h ∈ (ClassifyCredInfoByExecutor (mkCredImpl (currUserId_ c) <$> h0 :: hdi0)).*1) as Hk.
        { apply (classify_complete _ (mkCredImpl (currUserId_ c) h)). by apply list_elem_of_fmap_2. }
        apply list_elem_of_fmap in Hk as ([i cs] & Hi & Hin'). simpl in Hi. subst i. pose proof (classify_spec _ _ _ Hin') as ->.
        specialize (Ht _ Hin'). cbn [fst snd] in Ht. by rewrite templates_filter in Ht.
Qed.

End AllSent.

(** ** Examples *)

Definition ex_credential (executorIndex templateId : Z) : EngCredentialInfo :=
  mkEngCredential templateId executorIndex templateId FACE 0 0 0 false 0.

(** Users 100 and 101 have a face each, known to different executors. *)
Definition ex_credentials (userId authType : Z) : list EngCredentialInfo :=
  if decide (authType = FACE) then
    if decide (userId = 100) then [ex_credential 1 55] else if decide (userId = 101) then [ex_credential 2 77] else []
  else [].

(** [unlocked] says when the service of the screen lock is there, [refuses] what
    unsubscribing from accounts answers. *)
Definition ex_world (present : care_trace → bool) (refuses : Z) : env care_answer := λ t q,
  match q return care_answer q with
  | Service (EngGetCredential userId authType) => (SUCCESS, ex_credentials userId authType)
  | Service (SelectNode i) => Some i
  | Service QueryAllCreatedOsAccounts => Some [100; 101]
  | Service (LockNode _) => true
  | Service q => world true [] q
  | GetScreenLockManager => present t
  | ScreenLocked | SubscribeAbility _ | SubscribeScreenLocked | UnSubscribeScreenLocked => true
  | GetStrongAuth userId => if decide (userId = 100) then 64 else 0
  | UnRegisterStrongAuth | SubscribeOsAccount => 0
  | UnsubscribeOsAccount => refuses
  | RegisterStrongAuth | ReportScreenLockStrongAuth _ _ => ()
  | EnumerateIndices => [(FACE, 1); (FACE, 2); (FINGERPRINT, 3)]
  | NodesByTypeAndRole authType _ => if decide (authType = FACE) then [1; 2] else [3]
  end.
Definition ex_run (present : care_trace → bool) (refuses : Z) (hs : list CareHappening) : Cares * care_trace :=
  run (ex_world present refuses) (cares_run 0 1 64 Cares_new hs) [].

Definition property_set (e : event care_answer) : option (Z * Attributes) :=
  match e with existT (Service (NodeSetProperty n p)) _ => Some (n, p) | _ => None end.

Definition ex_switch : list CareHappening := [AccountsChanged 100; TaskRuns; AccountsChanged 101; TaskRuns; Synced].

Lemma executor_properties_backed_witness :
  let T := (ex_run (λ _, true) 0 ex_switch).2 in
  let p := cached_templates [55] in
  (cache_backed (take 4 T) 1 p ∨ risk_backed 64 (take 4 T) 1 p) ∧
  omap property_set T =
    [(1, cached_templates [55]); (3, cached_templates []);
     (2, cached_templates [77]); (3, cached_templates []);
     (1, risk_property FACE [55]); (2, risk_property FACE [55]); (3, risk_property FINGERPRINT [])].
Proof.
  split; [|by vm_compute].
  apply (executor_properties_backed 0 1 64 (ex_world (λ _, true) 0) ex_switch
    (take 4 (ex_run (λ _, true) 0 ex_switch).2) 1 (cached_templates [55]) SUCCESS
    (drop 5 (ex_run (λ _, true) 0 ex_switch).2)). by vm_compute.
Defined.

(** Executor 1 keeps the template of user 100 when user 101 takes over, whose
    only face is with executor 2: it is told nothing. *)
Example former_user_stays :
  omap (λ e, match property_set e with Some (1, p) => Some p | _ => None end)
    (ex_run (λ _, true) 0 [AccountsChanged 100; TaskRuns; AccountsChanged 101; TaskRuns]).2 = [cached_templates [55]].
Proof. by vm_compute. Qed.

(** The listener of strong authentication is set before the screen lock manager
    is asked for: when there is none yet, the service never registers. *)
Example strong_auth_never_registered :
  let '(c, T) := ex_run (λ t, negb (bool_decide (length t < 2)%nat)) 0 [ScreenLockSaAdded; ScreenLockSaAdded] in
  strongAuthListener_ c = true ∧
  omap (λ e, match asked e with RegisterStrongAuth => Some () | _ => None end) T = [].
Proof. by vm_compute. Qed.

(** When the account service goes away and unsubscribing fails, the services do
    not subscribe again when it is back. *)
Example accounts_not_subscribed_again :
  omap (λ e, match asked e with SubscribeOsAccount => Some true | UnsubscribeOsAccount => Some false | _ => None end)
    (ex_run (λ _, true) 1 [AccountSaAdded; AccountSaRemoved; AccountSaAdded]).2 = [true; false].
Proof. by vm_compute. Qed.
