(* ===== verification/CallerWatch.v ===== *)
(** * What happens to a context when its caller goes away

    Models context_appstate_observer.cpp and context_death_recipient.cpp (an
    application that goes to the background, or a caller that dies, loses its
    contexts), the constructors and destructors of [BaseContext] and
    [WidgetContext] as far as they start and end the watch, and
    remote_auth_callback_manager.cpp.

    [Watch] is the state of the observer manager, the observers that the
    application manager knows, and the death recipient of every living context.
    The pool is seen through [pooled]: the user of a context that is in it. *)

From S2P Require Import Prelude Defines.

(* @file A = src/services/context/src/context_appstate_observer.cpp *)
(* @file AH = src/services/context/inc/context_appstate_observer.h *)
(* @file D = src/services/context/src/context_death_recipient.cpp *)
(* @file DH = src/services/context/inc/context_death_recipient.h *)
(* @file B = src/services/context/src/base_context.cpp *)
(* @file W = src/services/context/src/widget_context.cpp *)
(* @file R = src/services/core/src/remote_auth_callback_manager.cpp *)
(* @file RH = src/services/core/inc/remote_auth_callback_manager.h *)

(* @src A:36-36 CONVERT_UID_TO_USERID *)
Definition CONVERT_UID_TO_USERID : Z := 200000.

(* @src AH:61-62 ContextAppStateObserver *)
Record Observer := mkObserver { contextId_ : Z; bundleName_ : bytes }.

(** A living context: the name of its caller, the object behind the caller's
    callback, and whether it holds a death recipient. [recipients] are those that
    are attached to objects, with the contexts that they cancel. *)
Record Watched := mkWatched { callerName : bytes; object : option Z; deathRecipient_ : bool }.

Record Watch := mkWatch {
  appStateObservers_ : gmap Z Z;
  observers : gmap Z Observer;
  registered : gset Z;
  nextObserver : Z;
  living : gmap Z Watched;
  recipients : gset (Z * Z);
}.
Implicit Types w : Watch.

Definition Watch_new : Watch := mkWatch ∅ ∅ ∅ 0 ∅ ∅.
Definition set_living w (l : gmap Z Watched) (r : gset (Z * Z)) : Watch :=
  mkWatch (appStateObservers_ w) (observers w) (registered w) (nextObserver w) l r.

(** What the application manager answers during one operation: whether it is
    there, and the codes of registering and unregistering. *)
Record AppManager := mkAppManager { am_there : bool; am_register : Z; am_unregister : Z }.

(** ** Observers of applications *)

(* @src A ContextAppStateObserverManager::UnSubscribeAppState *)
Definition UnSubscribeAppState w (contextId : Z) (am : AppManager) : Watch :=
  match appStateObservers_ w !! contextId with
  | None => w
  | Some observer =>
    mkWatch (delete contextId (appStateObservers_ w)) (observers w)
      (if decide (am_there am = true ∧ am_unregister am = SUCCESS) then registered w ∖ {[observer]} else registered w)
      (nextObserver w) (living w) (recipients w)
  end.

(** [bundleName] is the name of the caller; the callback is not null. *)
(* @src A ContextAppStateObserverManager::SubscribeAppState *)
Definition SubscribeAppState w (contextId : Z) (bundleName : bytes) (alloc : bool) (am : AppManager) : Watch :=
  WHEN bundleName = [] RETURN w ;;
  let w := UnSubscribeAppState w contextId am in
  CHECK am_there am = true ELSE w ;;
  CHECK alloc = true ELSE w ;;
  CHECK am_register am = SUCCESS ELSE w ;;
  mkWatch (<[contextId := nextObserver w]> (appStateObservers_ w))
    (<[nextObserver w := mkObserver contextId bundleName]> (observers w))
    ({[nextObserver w]} ∪ registered w) (nextObserver w + 1) (living w) (recipients w).

Section Changes.
(** The value of [ApplicationState::APP_STATE_BACKGROUND], and the pool. *)
Context (APP_STATE_BACKGROUND : Z) (pooled : Z → option Z).

(** The context that is cancelled, if one is. The uid is divided by an unsigned number. *)
(* @src A ContextAppStateObserver::ProcAppStateChanged *)
Definition ProcAppStateChanged (o : Observer) (userId : Z) : option Z :=
  match pooled (contextId_ o) with
  | None => None
  | Some contextUserId => WHEN contextUserId ≠ userId RETURN None ;; Some (contextId_ o)
  end.

(* @src A ContextAppStateObserver::OnAppStateChanged *)
Definition OnAppStateChanged (o : Observer) (bundleName : bytes) (state uid : Z) : option Z :=
  let userId := Z.div (wrapU 32 uid) CONVERT_UID_TO_USERID in
  WHEN bundleName = bundleName_ o ∧ state = APP_STATE_BACKGROUND RETURN ProcAppStateChanged o userId ;;
  None.

(* @src A ContextAppStateObserver::OnForegroundApplicationChanged *)
Definition OnForegroundApplicationChanged (o : Observer) (bundleName : bytes) (state uid : Z) : option Z :=
  let userId := Z.div (wrapU 32 uid) CONVERT_UID_TO_USERID in
  WHEN bundleName = bundleName_ o ∧ state = APP_STATE_BACKGROUND RETURN ProcAppStateChanged o userId ;;
  None.

(** The application manager tells every observer that it knows. *)
Definition app_changes w (bundleName : bytes) (state uid : Z) : list Z :=
  omap (λ id, o ← observers w !! id; OnAppStateChanged o bundleName state uid) (elements (registered w)).

(** ** The death of callers *)

(* @src D ContextDeathRecipient::OnRemoteDied *)
Definition OnRemoteDied (contextId : Z) : Z := contextId.

(** The contexts that the recipients of an object cancel. *)
Definition object_dies w (obj : Z) : list Z :=
  omap (λ '(o, contextId), if decide (o = obj) then Some (OnRemoteDied contextId) else None) (elements (recipients w)).
End Changes.

(** [attached] says whether the recipient could be made and attached. *)
(* @src D ContextDeathRecipientManager::AddDeathRecipient *)
Definition AddDeathRecipient w (contextId : Z) (attached : bool) : Watch :=
  match living w !! contextId with
  | Some (mkWatched name (Some obj) _) =>
    CHECK attached = true ELSE w ;;
    set_living w (<[contextId := mkWatched name (Some obj) true]> (living w)) ({[(obj, contextId)]} ∪ recipients w)
  | _ => w
  end.

(* @src D ContextDeathRecipientManager::RemoveDeathRecipient *)
Definition RemoveDeathRecipient w (contextId : Z) : Watch :=
  match living w !! contextId with
  | Some (mkWatched name (Some obj) true) =>
    set_living w (<[contextId := mkWatched name (Some obj) false]> (living w)) (recipients w ∖ {[(obj, contextId)]})
  | _ => w
  end.

(** ** From the constructor of a context to its destructor *)

Definition begin_watch w (contextId : Z) (name : bytes) (obj : option Z) (attached : bool) : Watch :=
  AddDeathRecipient (set_living w (<[contextId := mkWatched name obj false]> (living w)) (recipients w)) contextId attached.

(** [sceneboard] is the bundle that the configuration exempts, if it names one. *)
(* @src B:33-57 BaseContext::BaseContext *)
Definition BaseContext_new w (contextId : Z) (name : bytes) (obj : option Z) (needSubscribeAppState attached alloc : bool)
    (sceneboard : option bytes) (am : AppManager) : Watch :=
  let w := begin_watch w contextId name obj attached in
  let need := if decide (sceneboard = Some name) then false else needSubscribeAppState in
  if (need : bool) then SubscribeAppState w contextId name alloc am else w.

(* @src W:87-101 WidgetContext::WidgetContext *)
Definition WidgetContext_new w (contextId : Z) (name : bytes) (obj : option Z)
    (isBackgroundApplication attached alloc : bool) (am : AppManager) : Watch :=
  let w := begin_watch w contextId name obj attached in
  if isBackgroundApplication then w else SubscribeAppState w contextId name alloc am.

(** The destructor of a context of either kind. *)
(* @src B BaseContext::~BaseContext *)
Definition Context_destroy w (contextId : Z) (am : AppManager) : Watch :=
  let w := UnSubscribeAppState (RemoveDeathRecipient w contextId) contextId am in
  set_living w (delete contextId (living w)) (recipients w).

(** ** Callbacks of remote authentication *)

Module RemoteAuthCallbackManager.

(** Callbacks by the token of their owner, with the object behind each (none for
    a callback without one), and the tokens with a death recipient. *)
(* @src RH:44-45 RemoteAuthCallbackManager *)
Record Callbacks := mkCallbacks { callbackMap_ : gmap Z (option Z); remoteDeathMap_ : gset Z }.
Implicit Types c : Callbacks.

(** [callback] is the object of a callback that is not null. *)
(* @src R RemoteAuthCallbackManager::AddRemoteAuthCallback *)
Definition AddRemoteAuthCallback c (tokenId : Z) (callback : option (option Z)) (alloc : bool) : Callbacks * Z :=
  WHEN is_Some (callbackMap_ c !! tokenId) RETURN (c, GENERAL_ERROR) ;;
  match callback with
  | None => (c, GENERAL_ERROR)
  | Some obj =>
    let callbacks := <[tokenId := obj]> (callbackMap_ c) in
    WHEN alloc = false ∨ obj = None RETURN (mkCallbacks callbacks (remoteDeathMap_ c), SUCCESS) ;;
    (mkCallbacks callbacks ({[tokenId]} ∪ remoteDeathMap_ c), SUCCESS)
  end.

(* @src R RemoteAuthCallbackManager::DelRemoteAuthCallback *)
Definition DelRemoteAuthCallback c (tokenId : Z) : Callbacks :=
  CHECK is_Some (callbackMap_ c !! tokenId) ELSE c ;;
  mkCallbacks (delete tokenId (callbackMap_ c)) (remoteDeathMap_ c ∖ {[tokenId]}).

(* @src R RemoteAuthCallbackManager::GetRemoteAuthCallback *)
Definition GetRemoteAuthCallback c (tokenId : Z) : option (option Z) := callbackMap_ c !! tokenId.

(* @src R RemoteAuthCallbackManager::RemoteAuthCallbackDeathRecipient::OnRemoteDied *)
Definition OnRemoteDied c (tokenId : Z) : Callbacks := DelRemoteAuthCallback c tokenId.

Section First.

Lemma add_success c tokenId callback alloc :
  (AddRemoteAuthCallback c tokenId callback alloc).2 = SUCCESS →
  ∃ obj, callback = Some obj ∧
    callbackMap_ (AddRemoteAuthCallback c tokenId callback alloc).1 = <[tokenId := obj]> (callbackMap_ c).
Proof.
  unfold AddRemoteAuthCallback. case_decide; [done|]. destruct callback as [obj|]; [|done]. intros _. exists obj.
  by case_decide.
Qed.

Lemma add_keeps c token' callback alloc tokenId v :
  GetRemoteAuthCallback c tokenId = Some v →
  GetRemoteAuthCallback (AddRemoteAuthCallback c token' callback alloc).1 tokenId = Some v.
Proof.
  intros Hv. unfold AddRemoteAuthCallback, GetRemoteAuthCallback in *. case_decide as Hd; [done|].
  destruct callback as [obj|]; [|done]. assert (token' ≠ tokenId) by (intros ->; apply Hd; by eexists).
  case_decide; simpl; by rewrite lookup_insert_ne.
Qed.

(** A callback stays the one that was first given until it is taken back: a
    second one is refused, and only with its owner's token is it removed. *)
Lemma first_callback_stays c tokenId callback alloc token' callback' alloc' :
  (AddRemoteAuthCallback c tokenId callback alloc).2 = SUCCESS →
  let c1 := (AddRemoteAuthCallback c tokenId callback alloc).1 in
  callback ≠ None ∧ GetRemoteAuthCallback c1 tokenId = callback ∧
  GetRemoteAuthCallback (AddRemoteAuthCallback c1 token' callback' alloc').1 tokenId = callback ∧
  GetRemoteAuthCallback (DelRemoteAuthCallback c1 token') tokenId = (if decide (token' = tokenId) then None else callback).
Proof.
  intros Hs c1. destruct (add_success _ _ _ _ Hs) as (obj & -> & Hm).
  assert (GetRemoteAuthCallback c1 tokenId = Some obj) as Hget
    by (unfold GetRemoteAuthCallback, c1; rewrite Hm; apply lookup_insert_eq).
  split_and!; [done|done|by apply add_keeps|]. unfold DelRemoteAuthCallback, GetRemoteAuthCallback in *.
  case_decide as Hd; simpl; [rewrite lookup_delete; by case_decide|].
  rewrite decide_False; [done|]. intros ->. apply Hd. by eexists.
Qed.

End First.

End RemoteAuthCallbackManager.

(** ** Histories *)

Inductive Happening :=
  | Begins (contextId : Z) (name : bytes) (obj : option Z) (needSubscribeAppState attached alloc : bool)
      (sceneboard : option bytes) (am : AppManager)
  | BeginsWidget (contextId : Z) (name : bytes) (obj : option Z) (isBackgroundApplication attached alloc : bool)
      (am : AppManager)
  | Answered (contextId : Z) (am : AppManager)
  | Ends (contextId : Z) (am : AppManager).

(** A widget context stops watching its application when it has delivered. *)
Definition happens w (h : Happening) : Watch :=
  match h with
  | Begins id name obj need attached alloc sceneboard am => BaseContext_new w id name obj need attached alloc sceneboard am
  | BeginsWidget id name obj background attached alloc am => WidgetContext_new w id name obj background attached alloc am
  | Answered id am => UnSubscribeAppState w id am
  | Ends id am => Context_destroy w id am
  end.

(** The application manager answers with success and nothing runs out of memory. *)
Definition works (am : AppManager) : Prop := am_there am = true ∧ am_register am = SUCCESS ∧ am_unregister am = SUCCESS.
Definition all_works (h : Happening) : Prop :=
  match h with
  | Begins _ _ _ _ attached alloc _ am | BeginsWidget _ _ _ _ attached alloc am =>
    works am ∧ attached = true ∧ alloc = true
  | Answered _ am | Ends _ am => works am
  end.

(** The context and the application that it is bound to. *)
Definition binds (h : Happening) : option (Z * bytes) :=
  match h with
  | Begins id name _ need _ _ sceneboard _ =>
    if decide (need = true ∧ name ≠ [] ∧ sceneboard ≠ Some name) then Some (id, name) else None
  | BeginsWidget id name _ background _ _ _ =>
    if decide (background = false ∧ name ≠ []) then Some (id, name) else None
  | _ => None
  end.

(** What callers are promised: which contexts are bound to an application. *)
Definition promised (m : gmap Z bytes) (h : Happening) : gmap Z bytes :=
  match h with
  | Answered id _ | Ends id _ => delete id m
  | _ => match binds h with Some (id, name) => <[id := name]> m | None => m end
  end.

Definition begun (h : Happening) : option (Z * option Z) :=
  match h with Begins id _ obj _ _ _ _ _ | BeginsWidget id _ obj _ _ _ _ => Some (id, obj) | _ => None end.

(** ** The observers *)

(** Observers that are known to the application manager exist, and the map leads
    to such observers of its contexts. *)
Record sound (Bound : Z → bytes → Prop) w : Prop := mkSound {
  so_below : ∀ o ob, observers w !! o = Some ob → o < nextObserver w ∧ Bound (contextId_ ob) (bundleName_ ob);
  so_map : ∀ id o, appStateObservers_ w !! id = Some o → o ∈ registered w ∧ ∃ b, observers w !! o = Some (mkObserver id b);
  so_known : ∀ o, o ∈ registered w → is_Some (observers w !! o);
}.

(** Without failures, nothing else is known to the application manager. *)
Definition exact (m : gmap Z bytes) w : Prop :=
  (∀ o ob, o ∈ registered w → observers w !! o = Some ob → appStateObservers_ w !! contextId_ ob = Some o) ∧
  (∀ id b, m !! id = Some b ↔ ∃ o, appStateObservers_ w !! id = Some o ∧ observers w !! o = Some (mkObserver id b)).

Section Observers.

Lemma sound_mono (P Q : Z → bytes → Prop) w : (∀ id b, P id b → Q id b) → sound P w → sound Q w.
Proof. intros H [H1 H2 H3]. constructor; [|done|done]. intros o ob Ho. destruct (H1 _ _ Ho). auto. Qed.

Lemma sound_living P w l r : sound P (set_living w l r) ↔ sound P w.
Proof. split; intros [H1 H2 H3]; by constructor. Qed.
Lemma exact_living m w l r : exact m (set_living w l r) ↔ exact m w.
Proof. done. Qed.

Lemma sound_unsubscribe P w id am : sound P w → sound P (UnSubscribeAppState w id am).
Proof.
  intros [H1 H2 H3]. unfold UnSubscribeAppState. destruct (appStateObservers_ w !! id) as [o|] eqn:E; [|done].
  destruct (H2 _ _ E) as [_ [b Hb]]. constructor; simpl; [done| |].
  - intros id' o' [Hne Ho']%lookup_delete_Some. destruct (H2 _ _ Ho') as [Hr [b' Hb']]. split; [|by exists b'].
    case_decide; [|done]. apply elem_of_difference. split; [done|]. intros ->%elem_of_singleton. congruence.
  - intros o' Ho'. apply H3. case_decide; set_solver.
Qed.

Lemma exact_unsubscribe m w id am :
  works am → exact m w → exact (delete id m) (UnSubscribeAppState w id am).
Proof.
  intros (W1 & W2 & W3) [E1 E2]. unfold UnSubscribeAppState. destruct (appStateObservers_ w !! id) as [o|] eqn:E.
  - rewrite decide_True by done. split; simpl.
    + intros o' ob [Ho' Hne]%elem_of_difference Hob. apply lookup_delete_Some. split; [|by apply E1].
      intros ->. specialize (E1 _ _ Ho' Hob). set_solver.
    + intros id' b. rewrite lookup_delete_Some, E2. setoid_rewrite lookup_delete_Some. naive_solver.
  - assert (m !! id = None) as Hm by (apply eq_None_not_Some; intros [b Hb]; apply E2 in Hb as (? & ? & _); congruence).
    by rewrite delete_id.
Qed.

Lemma unsubscribed w id am : appStateObservers_ (UnSubscribeAppState w id am) !! id = None.
Proof. unfold UnSubscribeAppState. destruct (appStateObservers_ w !! id) eqn:E; [apply lookup_delete_eq|done]. Qed.

Lemma sound_subscribe (P : Z → bytes → Prop) w id b alloc am :
  (b ≠ [] → P id b) → sound P w → sound P (SubscribeAppState w id b alloc am).
Proof.
  intros HP Hw. unfold SubscribeAppState. case_decide as Hb; [done|].
  pose proof (sound_unsubscribe P w id am Hw) as [H1 H2 H3]. set (w1 := UnSubscribeAppState w id am) in *.
  do 3 (case_decide; [|done]). constructor; simpl.
  - intros o ob. rewrite lookup_insert. case_decide as E; [intros [= <-]; subst; split; [lia|auto]|].
    intros Ho. destruct (H1 _ _ Ho). split; [lia|done].
  - intros id' o. rewrite lookup_insert. case_decide as E; [intros [= <-]; subst|].
    + split; [set_solver|]. exists b. apply lookup_insert_eq.
    + intros Ho. destruct (H2 _ _ Ho) as [Hr [b' Hb']]. split; [set_solver|]. exists b'.
      rewrite lookup_insert_ne; [done|]. apply H1 in Hb'. lia.
  - intros o [->%elem_of_singleton|Ho]%elem_of_union; [rewrite lookup_insert_eq; by eexists|].
    destruct (H3 _ Ho) as [ob Hob]. rewrite lookup_insert_ne; [by eexists|]. apply H1 in Hob. lia.
Qed.

Lemma exact_subscribe P m w id b am :
  works am → b ≠ [] → sound P w → exact m w → exact (<[id := b]> m) (SubscribeAppState w id b true am).
Proof.
  intros Hw Hb Hs He. unfold SubscribeAppState. rewrite decide_False by done.
  pose proof (sound_unsubscribe P w id am Hs) as [H1 H2 H3]. pose proof (exact_unsubscribe m w id am Hw He) as [E1 E2].
  pose proof (unsubscribed w id am) as Hn. set (w1 := UnSubscribeAppState w id am) in *.
  destruct Hw as (W1 & W2 & W3). rewrite !decide_True by done.
  assert (observers w1 !! nextObserver w1 = None) as Hfresh.
  { apply eq_None_not_Some. intros [ob Hob]. apply H1 in Hob. lia. }
  split; simpl.
  - intros o ob Ho. rewrite lookup_insert. case_decide as E; [intros [= <-]; subst; apply lookup_insert_eq|].
    intros Hob. assert (o ∈ registered w1) as Hr by set_solver. specialize (E1 _ _ Hr Hob).
    rewrite lookup_insert_ne; [done|]. congruence.
  - intros id' b'. rewrite lookup_insert. case_decide as E.
    + subst id'. setoid_rewrite lookup_insert_eq. split.
      * intros [= <-]. eexists. split; [done|]. apply lookup_insert_eq.
      * intros (o & [= <-] & Ho). rewrite lookup_insert_eq in Ho. congruence.
    + rewrite (lookup_insert_ne (appStateObservers_ w1)) by done.
      replace (m !! id') with (delete id m !! id') by (by rewrite lookup_delete_ne). rewrite E2.
      apply exist_proper. intros o. split; intros [Ha Ho]; (split; [done|]).
      * rewrite lookup_insert_ne; [done|]. apply H1 in Ho. lia.
      * rewrite lookup_insert_ne in Ho; [done|]. apply H2 in Ha as [Ha _]. apply H3 in Ha as [ob Hob]. apply H1 in Hob. lia.
Qed.

End Observers.

(** ** Every history *)

(** The death recipients are those of living contexts. *)
Definition attached_ok w : Prop :=
  ∀ obj id, (obj, id) ∈ recipients w ↔ ∃ name, living w !! id = Some (mkWatched name (Some obj) true).

Section Histories.

Lemma sound_begin P w id name obj attached : sound P (begin_watch w id name obj attached) ↔ sound P w.
Proof.
  unfold begin_watch, AddDeathRecipient. cbn [living set_living]. rewrite lookup_insert_eq. destruct obj; [case_decide|];
    split; intros [H1 H2 H3]; by constructor.
Qed.
Lemma exact_begin m w id name obj attached : exact m (begin_watch w id name obj attached) ↔ exact m w.
Proof.
  unfold begin_watch, AddDeathRecipient. cbn [living set_living]. rewrite lookup_insert_eq. by destruct obj; [case_decide|].
Qed.

Lemma sound_detach P w id : sound P (RemoveDeathRecipient w id) ↔ sound P w.
Proof. unfold RemoveDeathRecipient. destruct (living w !! id) as [[name [obj|] []]|]; [apply sound_living|done..]. Qed.
Lemma exact_detach m w id : exact m (RemoveDeathRecipient w id) ↔ exact m w.
Proof. unfold RemoveDeathRecipient. by destruct (living w !! id) as [[name [obj|] []]|]. Qed.

Lemma sound_happens (P : Z → bytes → Prop) w h :
  (∀ id b, binds h = Some (id, b) → P id b) → sound P w → sound P (happens w h).
Proof.
  intros Hb Hw. destruct h as [id name obj need attached alloc sceneboard am|id name obj background attached alloc am|id am|id am];
    simpl in *.
  - unfold BaseContext_new. assert (sound P (begin_watch w id name obj attached)) as Hw' by by apply sound_begin.
    destruct (decide (sceneboard = Some name)) as [|Hs]; [done|]. destruct need; [|done]. apply sound_subscribe; [|done]. intros Hn. apply Hb. by rewrite decide_True.
  - unfold WidgetContext_new. assert (sound P (begin_watch w id name obj attached)) as Hw' by by apply sound_begin.
    destruct background; [done|]. apply sound_subscribe; [|done]. intros Hn. apply Hb. by rewrite decide_True.
  - by apply sound_unsubscribe.
  - unfold Context_destroy. apply sound_living, sound_unsubscribe. by apply sound_detach.
Qed.

Lemma exact_happens P m w h :
  all_works h → sound P w → exact m w → exact (promised m h) (happens w h).
Proof.
  intros Hh Hs He. destruct h as [id name obj need attached alloc sceneboard am|id name obj background attached alloc am|id am|id am];
    simpl in *.
  - destruct Hh as (Hw & -> & ->). unfold BaseContext_new.
    assert (sound P (begin_watch w id name obj true)) as Hs' by by apply sound_begin.
    assert (exact m (begin_watch w id name obj true)) as He' by by apply exact_begin.
    destruct (decide (sceneboard = Some name)) as [Hsc|Hsc]; [rewrite decide_False by naive_solver; done|]. destruct need; [|by rewrite decide_False by naive_solver].
    destruct (decide (name = [])) as [->|Hn].
    + rewrite decide_False by naive_solver. unfold SubscribeAppState. by rewrite decide_True.
    + rewrite decide_True by done. by apply (exact_subscribe P).
  - destruct Hh as (Hw & -> & ->). unfold WidgetContext_new.
    assert (sound P (begin_watch w id name obj true)) as Hs' by by apply sound_begin.
    assert (exact m (begin_watch w id name obj true)) as He' by by apply exact_begin.
    destruct background; [by rewrite decide_False by (by intros [? _])|]. destruct (decide (name = [])) as [->|Hn].
    + rewrite decide_False by naive_solver. unfold SubscribeAppState. by rewrite decide_True.
    + rewrite decide_True by done. by apply (exact_subscribe P).
  - by apply exact_unsubscribe.
  - unfold Context_destroy. apply exact_living, exact_unsubscribe; [done|]. by apply exact_detach.
Qed.

(** Observers have nothing to do with death recipients. *)
Lemma unsubscribe_living w id am :
  living (UnSubscribeAppState w id am) = living w ∧ recipients (UnSubscribeAppState w id am) = recipients w.
Proof. unfold UnSubscribeAppState. by destruct (appStateObservers_ w !! id). Qed.
Lemma subscribe_living w id b alloc am :
  living (SubscribeAppState w id b alloc am) = living w ∧ recipients (SubscribeAppState w id b alloc am) = recipients w.
Proof.
  unfold SubscribeAppState. destruct (unsubscribe_living w id am) as [Hl Hr]. case_decide; [done|].
  repeat (case_decide; [|by rewrite Hl, Hr]). simpl. by rewrite Hl, Hr.
Qed.

Lemma attached_same w w' : living w' = living w → recipients w' = recipients w → attached_ok w → attached_ok w'.
Proof. unfold attached_ok. by intros -> ->. Qed.

Lemma attached_begin w id name obj attached :
  living w !! id = None → attached_ok w → attached_ok (begin_watch w id name obj attached).
Proof.
  intros Hn Hw. unfold begin_watch, AddDeathRecipient. cbn [living set_living]. rewrite lookup_insert_eq.
  assert (∀ o i, (o, i) ∈ recipients w → i ≠ id) as Hne by (intros o i (n & Hl)%Hw ->; congruence).
  assert (attached_ok (set_living w (<[id := mkWatched name obj false]> (living w)) (recipients w))) as Hplain.
  { intros o i. simpl. rewrite (Hw o i), lookup_insert. case_decide as E; [|done]. subst. rewrite Hn. naive_solver. }
  destruct obj as [obj|]; [case_decide|]; try done. intros o i. cbn [living recipients set_living].
  rewrite insert_insert_eq, elem_of_union, elem_of_singleton, lookup_insert. case_decide as E; subst.
  - rewrite (Hw o i), Hn. naive_solver.
  - rewrite (Hw o i). naive_solver.
Qed.

Lemma attached_destroy w id am : attached_ok w → attached_ok (Context_destroy w id am).
Proof.
  intros Hw. unfold Context_destroy. set (w1 := RemoveDeathRecipient w id).
  destruct (unsubscribe_living w1 id am) as [Hl Hr]. intros o i. cbn [living recipients set_living]. rewrite Hl, Hr, lookup_delete.
  unfold w1, RemoveDeathRecipient. destruct (living w !! id) as [[name [obj|] []]|] eqn:E; cbn [living recipients set_living].
  1: rewrite elem_of_difference, elem_of_singleton, lookup_insert.
  all: rewrite (Hw o i); case_decide; subst; try naive_solver.
Qed.

Lemma attached_happens w h :
  (∀ id obj, begun h = Some (id, obj) → living w !! id = None) → attached_ok w → attached_ok (happens w h).
Proof.
  intros Hf Hw. destruct h as [id name obj need attached alloc sceneboard am|id name obj background attached alloc am|id am|id am];
    simpl in *.
  - assert (attached_ok (begin_watch w id name obj attached)) as Hb by (apply attached_begin; [by apply (Hf _ obj)|done]).
    unfold BaseContext_new. destruct (if decide _ then _ else _); [|done].
    destruct (subscribe_living (begin_watch w id name obj attached) id name alloc am). by eapply attached_same.
  - assert (attached_ok (begin_watch w id name obj attached)) as Hb by (apply attached_begin; [by apply (Hf _ obj)|done]).
    unfold WidgetContext_new. destruct background; [done|].
    destruct (subscribe_living (begin_watch w id name obj attached) id name alloc am). by eapply attached_same.
  - destruct (unsubscribe_living w id am). by eapply attached_same.
  - by apply attached_destroy.
Qed.

(** Only what has begun lives. *)
Lemma living_begun w h id : is_Some (living (happens w h) !! id) → is_Some (living w !! id) ∨ ∃ obj, begun h = Some (id, obj).
Proof.
  destruct h as [i name obj need attached alloc sceneboard am|i name obj background attached alloc am|i am|i am]; simpl.
  1,2: assert (is_Some (living (begin_watch w i name obj attached) !! id) → is_Some (living w !! id) ∨ ∃ o, Some (i, obj) = Some (id, o)) as Hb.
  1,3: unfold begin_watch, AddDeathRecipient; cbn [living set_living]; rewrite lookup_insert_eq;
    destruct (decide (i = id)) as [->|Hne]; [eauto|]; destruct obj; [case_decide|];
    cbn [living set_living]; rewrite ?lookup_insert_ne by done; tauto.
  - unfold BaseContext_new. destruct (if decide _ then _ else _); [|done].
    by destruct (subscribe_living (begin_watch w i name obj attached) i name alloc am) as [-> _].
  - unfold WidgetContext_new. destruct background; [done|].
    by destruct (subscribe_living (begin_watch w i name obj attached) i name alloc am) as [-> _].
  - destruct (unsubscribe_living w i am) as [-> _]. tauto.
  - unfold Context_destroy. cbn [living set_living]. destruct (unsubscribe_living (RemoveDeathRecipient w i) i am) as [-> _].
    intros [x [Hne Hx]%lookup_delete_Some]. left. revert Hx. unfold RemoveDeathRecipient.
    destruct (living w !! i) as [[name [obj|] []]|]; cbn [living set_living]; rewrite ?lookup_insert_ne by done; eauto.
Qed.

End Histories.

(** The user that an application runs for. *)
Definition user_of (uid : Z) : Z := Z.div (wrapU 32 uid) CONVERT_UID_TO_USERID.

Section Theorems.
Lemma elem_of_object_dies w obj id : id ∈ object_dies w obj ↔ (obj, id) ∈ recipients w.
Proof.
  unfold object_dies. rewrite list_elem_of_omap. split.
  - intros ([o i] & Hin%elem_of_elements & H). case_decide; [|done]. naive_solver.
  - intros H. exists (obj, id). split; [by apply elem_of_elements|]. by rewrite decide_True.
Qed.

Context (APP_STATE_BACKGROUND : Z) (pooled : Z → option Z).

Lemma elem_of_app_changes w name state uid id :
  id ∈ app_changes APP_STATE_BACKGROUND pooled w name state uid ↔
  state = APP_STATE_BACKGROUND ∧ pooled id = Some (user_of uid) ∧
  ∃ o, o ∈ registered w ∧ observers w !! o = Some (mkObserver id name).
Proof.
  unfold app_changes. rewrite list_elem_of_omap. setoid_rewrite elem_of_elements. split.
  - intros (o & Ho & H). destruct (observers w !! o) as [[i b]|] eqn:E; [|done]. simpl in H.
    unfold OnAppStateChanged, ProcAppStateChanged in H. simpl in H. case_decide as Hc; [|done]. destruct Hc as [-> Hs].
    destruct (pooled i) as [u|] eqn:Hu; [|done]. case_decide as Hne; [done|]. injection H as <-.
    split_and!; [done| |eauto]. by rewrite Hu, Hne.
  - intros (-> & Hp & o & Ho & E). exists o. split; [done|]. rewrite E. simpl.
    unfold OnAppStateChanged, ProcAppStateChanged. simpl. rewrite decide_True by done. rewrite Hp.
    by rewrite decide_False by (intros Hne; by apply Hne).
Qed.

(** C36: When an application goes to the background, only contexts in the pool
    of its user are cancelled that were bound to it when they began; if the
    application manager works, exactly those that are still bound: they have
    neither ended nor, with a widget, delivered. When a caller dies, exactly
    its living contexts with a death recipient are cancelled. *)
Theorem absent_callers_cancelled hs :
  let w := foldl happens Watch_new hs in
  (∀ name state uid id, id ∈ app_changes APP_STATE_BACKGROUND pooled w name state uid →
    state = APP_STATE_BACKGROUND ∧ pooled id = Some (user_of uid) ∧ ∃ h, h ∈ hs ∧ binds h = Some (id, name)) ∧
  (Forall all_works hs → ∀ name uid id,
    id ∈ app_changes APP_STATE_BACKGROUND pooled w name APP_STATE_BACKGROUND uid ↔
    foldl promised ∅ hs !! id = Some name ∧ pooled id = Some (user_of uid)) ∧
  (NoDup (omap begun hs).*1 → ∀ obj id,
    id ∈ object_dies w obj ↔ ∃ name, living w !! id = Some (mkWatched name (Some obj) true)).
Proof.
  intros w. assert (sound (λ id b, ∃ h, h ∈ hs ∧ binds h = Some (id, b)) w ∧
    (Forall all_works hs → exact (foldl promised ∅ hs) w) ∧
    (NoDup (omap begun hs).*1 → attached_ok w ∧ ∀ id, is_Some (living w !! id) → id ∈ (omap begun hs).*1)) as (Hs & He & Ha).
  { subst w. induction hs as [|h hs (IH1 & IH2 & IH3)] using rev_ind.
    { split; [by constructor|]. split; intros _; split.
      - by intros o ob ?%not_elem_of_empty.
      - intros id b. split; [done|]. by intros (o & Ho & _).
      - intros obj id. split; [by intros ?%not_elem_of_empty|]. by intros [name Hl].
      - by intros id [x Hx]. }
    rewrite !foldl_app. simpl. split_and!.
    - apply sound_happens; [intros id b Hb; exists h; set_solver|]. eapply sound_mono; [|exact IH1]. simpl. set_solver.
    - rewrite Forall_app, Forall_singleton. intros [Hhs Hh]. eapply exact_happens; eauto.
    - rewrite omap_app, fmap_app. intros (Hn1 & Hdis & _)%NoDup_app. destruct (IH3 Hn1) as [Hok Hl]. split.
      + apply attached_happens; [|done]. intros id obj Hb. apply eq_None_not_Some. intros Hid%Hl.
        apply (Hdis _ Hid). simpl. rewrite Hb. simpl. by left.
      + intros id Hid. apply elem_of_app. destruct (living_begun _ _ _ Hid) as [Hid'|[obj Hb]]; [by left; auto|].
        right. simpl. rewrite Hb. simpl. by left. }
  split_and!.
  - intros name state uid id (-> & Hp & o & Ho & E)%elem_of_app_changes. split_and!; [done|done|]. by apply (so_below _ _ Hs) in E as [_ E].
  - intros Hw name uid id. rewrite elem_of_app_changes. destruct (He Hw) as [E1 E2]. rewrite E2. split.
    + intros (_ & Hp & o & Ho & E). split; [|done]. exists o. split; [by apply (E1 _ _ Ho E)|done].
    + intros [(o & Ho & E) Hp]. split_and!; [done|done|]. exists o. split; [by apply (so_map _ _ Hs _ _ Ho)|done].
  - intros Hn obj id. rewrite elem_of_object_dies. apply (Ha Hn).
Qed.

End Theorems.

Definition ex_manager : AppManager := mkAppManager true SUCCESS SUCCESS.
Definition ex_history : list Happening :=
  [Begins 1 (str "shop") (Some 10) true true true (Some (str "sceneboard")) ex_manager;
   BeginsWidget 2 (str "shop") (Some 10) false true true ex_manager;
   Begins 3 (str "sceneboard") (Some 11) true true true (Some (str "sceneboard")) ex_manager;
   BeginsWidget 4 (str "shop") (Some 12) false true true ex_manager;
   Answered 4 ex_manager; Ends 1 ex_manager].
Definition ex_pool (id : Z) : option Z := if decide (id = 1) then None else Some 100.

Lemma absent_callers_cancelled_witness :
  (let w := foldl happens Watch_new ex_history in
  (∀ name state uid id, id ∈ app_changes 4 ex_pool w name state uid →
    state = 4 ∧ ex_pool id = Some (user_of uid) ∧ ∃ h, h ∈ ex_history ∧ binds h = Some (id, name)) ∧
  (Forall all_works ex_history → ∀ name uid id,
    id ∈ app_changes 4 ex_pool w name 4 uid ↔
    foldl promised ∅ ex_history !! id = Some name ∧ ex_pool id = Some (user_of uid)) ∧
  (NoDup (omap begun ex_history).*1 → ∀ obj id,
    id ∈ object_dies w obj ↔ ∃ name, living w !! id = Some (mkWatched name (Some obj) true))) ∧
  Forall all_works ex_history ∧ NoDup (omap begun ex_history).*1 ∧
  app_changes 4 ex_pool (foldl happens Watch_new ex_history) (str "shop") 4 20010042 = [2] ∧
  object_dies (foldl happens Watch_new ex_history) 12 = [4].
Proof.
  split; [exact (absent_callers_cancelled 4 ex_pool ex_history)|].
  split_and!; [by repeat constructor| |by vm_compute|by vm_compute].
  apply (bool_decide_unpack _). by vm_compute.
Defined.
