(* ===== verification/ListenerManager.v ===== *)
(** * Who listens on a connection

    Models services/remote_connect/default/src/remote_connect_listener_manager.cpp:
    the listeners of the connections to other devices, by connection and end
    point. [L] is the type of the listeners, none of which is null. *)

From S2P Require Import Prelude Defines.

(* @file M = src/services/remote_connect/default/src/remote_connect_listener_manager.cpp *)
(* @file MH = src/services/remote_connect/default/inc/remote_connect_listener_manager.h *)

(* @src M:28-28 GLOBAL_CONNECTION_NAME *)
Definition GLOBAL_CONNECTION_NAME : bytes := str "GLOBAL".

Inductive ConnectStatus := DISCONNECTED | CONNECTED.

Section Listeners.
Context {L : Type}.

(* @src MH:struct ListenerInfo *)
Record ListenerInfo := mkListener { connectionName : bytes; endPointName : bytes; listener : L }.

Implicit Types l : list ListenerInfo.

(** An entry of the list compared with what is looked for; the entry may be
    for all connections. *)
(* @src M:30-35 RemoteConnectListenerManager::ListenerInfo::operator== *)
Definition hears (name endPoint : bytes) (info : ListenerInfo) : bool :=
  bool_decide (endPointName info = endPoint ∧ (connectionName info = name ∨ connectionName info = GLOBAL_CONNECTION_NAME)).

Definition find_entry l (name endPoint : bytes) : option (nat * ListenerInfo) :=
  list_find (λ info, hears name endPoint info = true) l.

(* @src M:43-60 RemoteConnectListenerManager::RegisterListener *)
Definition RegisterListener l (name endPoint : bytes) (listener : L) : list ListenerInfo * Z :=
  match find_entry l name endPoint with
  | Some _ => (l, GENERAL_ERROR)
  | None => (l ++ [mkListener name endPoint listener], SUCCESS)
  end.

(* @src M:62-67 RemoteConnectListenerManager::RegisterListener *)
Definition RegisterEndPoint l (endPoint : bytes) (listener : L) : list ListenerInfo * Z :=
  RegisterListener l GLOBAL_CONNECTION_NAME endPoint listener.

(** The entry that is found goes, whatever connection it is for. *)
(* @src M:69-84 RemoteConnectListenerManager::UnregisterListener *)
Definition UnregisterListener l (name endPoint : bytes) : list ListenerInfo * Z :=
  match find_entry l name endPoint with
  | None => (l, GENERAL_ERROR)
  | Some (i, _) => (delete i l, SUCCESS)
  end.

(* @src M:86-90 RemoteConnectListenerManager::UnregisterListener *)
Definition UnregisterEndPoint l (endPoint : bytes) : list ListenerInfo * Z :=
  UnregisterListener l GLOBAL_CONNECTION_NAME endPoint.

(* @src M RemoteConnectListenerManager::FindListener *)
Definition FindListener l (name endPoint : bytes) : option L :=
  '(_, info) ← find_entry l name endPoint; Some (listener info).

(** The listeners that are told, in order, and the list afterwards. *)
(* @src M RemoteConnectListenerManager::OnConnectionDown *)
Definition OnConnectionDown l (name : bytes) : list ListenerInfo * list L :=
  (filter (λ info, connectionName info ≠ name) l, listener <$> filter (λ info, connectionName info = name) l).

(* @src M RemoteConnectListenerManager::OnConnectionUp *)
Definition OnConnectionUp l (name : bytes) : list L :=
  listener <$> filter (λ info, connectionName info = name) l.

(** ** Properties *)

Definition key (info : ListenerInfo) : bytes * bytes := (connectionName info, endPointName info).

(** One entry per connection and end point. *)
Definition distinct l : Prop := NoDup (key <$> l).

Lemma hears_own info : hears (connectionName info) (endPointName info) info = true.
Proof. apply bool_decide_true. auto. Qed.

Lemma find_entry_None l name endPoint info :
  find_entry l name endPoint = None → info ∈ l → hears name endPoint info = false.
Proof.
  unfold find_entry. rewrite list_find_None, Forall_forall. intros H Hi. apply not_true_is_false. by apply H.
Qed.

(** Registration keeps entries distinct. *)
Lemma register_distinct l name endPoint x : distinct l → distinct (RegisterListener l name endPoint x).1.
Proof.
  intros Hd. unfold RegisterListener. destruct (find_entry l name endPoint) as [[]|] eqn:E; [done|]. simpl.
  unfold distinct. rewrite fmap_app. apply NoDup_app. split; [done|]. split; [|apply NoDup_singleton].
  intros k Hk Hs. apply list_elem_of_singleton in Hs as ->. apply list_elem_of_fmap in Hk as (info & [= -> ->] & Hi).
  pose proof (find_entry_None _ _ _ _ E Hi) as Hf. by rewrite hears_own in Hf.
Qed.

Lemma delete_distinct l i : distinct l → distinct (delete i l).
Proof. unfold distinct. intros H. rewrite list_fmap_delete. apply (sublist_NoDup _ _ H), sublist_delete. Qed.

Lemma unregister_distinct l name endPoint : distinct l → distinct (UnregisterListener l name endPoint).1.
Proof. unfold UnregisterListener. destruct (find_entry l name endPoint) as [[]|]; [apply delete_distinct|done]. Qed.

(** Who registers is the one who is found. *)
Lemma find_registered l name endPoint x :
  (RegisterListener l name endPoint x).2 = SUCCESS →
  FindListener (RegisterListener l name endPoint x).1 name endPoint = Some x.
Proof.
  unfold RegisterListener. destruct (find_entry l name endPoint) as [[i info]|] eqn:E; [done|]. intros _. simpl.
  unfold FindListener, find_entry in *. rewrite list_find_app_r by done. simpl.
  rewrite decide_True; [done|]. apply (hears_own (mkListener name endPoint x)).
Qed.

(** Somebody who was refused and unregisters all the same takes away the entry
    of the one who was there. *)
Lemma refused_takes_away l name endPoint x :
  (RegisterListener l name endPoint x).2 ≠ SUCCESS →
  ∃ i info, l !! i = Some info ∧ FindListener l name endPoint = Some (listener info) ∧
    (UnregisterListener (RegisterListener l name endPoint x).1 name endPoint).1 = delete i l.
Proof.
  unfold RegisterListener, UnregisterListener, FindListener. destruct (find_entry l name endPoint) as [[i info]|] eqn:E;
    [|done]. intros _. simpl. exists i, info. rewrite E. split; [|done]. unfold find_entry in E.
  by apply list_find_Some in E as [? _].
Qed.
End Listeners.
Arguments ListenerInfo L : clear implicits.
