(* ===== verification/SoftBus.v ===== *)
(** * Connections to other devices over the soft bus

    Models services/remote_connect/default/src: soft_bus_manager.cpp,
    soft_bus_base_socket.cpp, soft_bus_client_socket.cpp,
    soft_bus_server_socket.cpp, socket_factory.cpp, soft_bus_socket_listener.cpp
    and remote_connect_manager.cpp.

    A device has one server socket object, for all the devices that connect to
    it, and one client socket object per connection that it opened. The objects
    are on a heap ([objects]), since the maps of the manager share them; an
    object that nothing refers to is destroyed, which shuts its socket down.
    The soft bus itself, the timers and the listeners behind end points are
    calls. Locks, traces and the printing of durations are left out. *)

From S2P Require Import Prelude Defines Interaction ServiceTypes Attributes RemoteMsg ListenerManager.

(* @file B = src/services/remote_connect/default/src/soft_bus_base_socket.cpp *)
(* @file BH = src/services/remote_connect/default/inc/soft_bus_base_socket.h *)
(* @file C = src/services/remote_connect/default/src/soft_bus_client_socket.cpp *)
(* @file CH = src/services/remote_connect/default/inc/soft_bus_client_socket.h *)
(* @file V = src/services/remote_connect/default/src/soft_bus_server_socket.cpp *)
(* @file VH = src/services/remote_connect/default/inc/soft_bus_server_socket.h *)
(* @file M = src/services/remote_connect/default/src/soft_bus_manager.cpp *)
(* @file MH = src/services/remote_connect/default/inc/soft_bus_manager.h *)
(* @file F = src/services/remote_connect/default/src/socket_factory.cpp *)
(* @file L = src/services/remote_connect/default/src/soft_bus_socket_listener.cpp *)
(* @file R = src/services/remote_connect/default/src/remote_connect_manager.cpp *)
(* @file D = src/interfaces/inner_api/iam_common_defines.h *)
(* @file RM = src/services/remote_connect/inc/remote_message.h *)

(* @src D:37-37 INVALID_SOCKET_ID *)
Definition INVALID_SOCKET_ID : Z := -1.
(* @src B:32-32 INVALID_TIMER_ID *)
Definition INVALID_TIMER_ID : Z := 0.
(* @src B:31-31 REPLY_TIMER_LEN_MS *)
Definition REPLY_TIMER_LEN_MS : Z := 5000.
(* @src C:32-32 KEEP_ALIVE_INTERVAL *)
Definition KEEP_ALIVE_INTERVAL : Z := 1000.
(* @src RM:54-54 CLIENT_SOCKET_ENDPOINT_NAME *)
Definition CLIENT_SOCKET_ENDPOINT_NAME : bytes := str "ClientSocket".
(* @src MH:33-33 USER_AUTH_PACKAGE_NAME *)
Definition USER_AUTH_PACKAGE_NAME : bytes := str "ohos.useriam".
(* @src M:45-45 USER_AUTH_SOCKET_NAME *)
Definition USER_AUTH_SOCKET_NAME : bytes := str "ohos.useriam.".
(* @src M:46-46 SOCKET_NAME_MAX_LEN *)
Definition SOCKET_NAME_MAX_LEN : Z := 256.
(* @src M:47-47 PACKAGE_NAME_MAX_LEN *)
Definition PACKAGE_NAME_MAX_LEN : Z := 256.
(* @src M:49-49 QOS_LEN *)
Definition QOS_LEN : nat := 3.
(* @src M:50-53 MIN_BW *)
Definition MIN_BW : Z := 1024 * 1024.
Definition MAX_LATENCY : Z := 30 * 1000.
Definition MIN_LATENCY : Z := 100.
Definition MAX_TIMEOUT : Z := 3 * 60 * 1000.
(* @src M:55-55 BIND_SERVICE_MAX_RETRY_TIMES *)
Definition BIND_SERVICE_MAX_RETRY_TIMES : nat := 3.
(* @src M:56-56 BIND_SERVICE_SLEEP_TIMES_MS *)
Definition BIND_SERVICE_SLEEP_TIMES_MS : Z := 100.
(* @src M:58-58 MAX_ONBYTES_RECEIVED_DATA_LEN *)
Definition MAX_ONBYTES_RECEIVED_DATA_LEN : Z := 1024 * 1024 * 10.
(* @src L:28-28 MAX_DATA_LEN *)
Definition MAX_DATA_LEN : Z := 4096.

Inductive Qos := QOS_TYPE_MIN_BW | QOS_TYPE_MAX_LATENCY | QOS_TYPE_MIN_LATENCY | QOS_TYPE_MAX_WAIT_TIMEOUT.

(** ** What is called *)

Inductive bus :=
  | Alloc (what : string)
  (* the soft bus *)
  | SbSocket (name : bytes) (peerName peerNetworkId : option bytes) (pkgName : bytes)
  | SbListen (socketId : Z) (qos : list (Qos * Z))
  | SbBind (socketId : Z) (qos : list (Qos * Z))
  | SbSendBytes (socketId : Z) (data : bytes)
  | SbShutdown (socketId : Z)
  | SetFirstCallerTokenID (tokenId : Z)
  | Sleep (milliseconds : Z)
  (* timers; the object and what fires *)
  | StartReply (object messageSeq milliseconds : Z)
  | StartKeepAlive (object milliseconds : Z)
  | StopTimer (timerId : Z)
  (* callbacks of messages and listeners of end points *)
  | MsgReply (callback : Z) (reply : Attributes)
  | ListenerMessage (listener : Z) (connectionName srcEndPoint : bytes) (request reply : Attributes)
  | ListenerStatus (listener : Z) (connectionName : bytes) (status : ConnectStatus)
  (* threads *)
  | GetHandler (name : bytes)
  | PostConnectionDown (connectionName : bytes)
  | PostOpen (connectionName : bytes) (tokenId : Z) (networkId : bytes)
  | PostClose (connectionName : bytes)
  | PostServiceSocketInit
  (* the device manager and the system abilities *)
  | LocalUdid
  | SubscribeDeviceManager
  | UnsubscribeDeviceManager
  | SubscribeSoftBus
  | UnsubscribeSoftBus
  | InitDeviceManager
  | UnInitDeviceManager.

(** [ListenerMessage] gives the reply as the listener leaves it. *)
Definition bus_answer (q : bus) : Type :=
  match q with
  | Alloc _ | GetHandler _ | SubscribeDeviceManager | SubscribeSoftBus => bool
  | LocalUdid => option bytes
  | ListenerMessage _ _ _ _ _ => Attributes
  | SbShutdown _ | Sleep _ | StopTimer _ | MsgReply _ _ | ListenerStatus _ _ _ | PostConnectionDown _ | PostOpen _ _ _
  | PostClose _ | PostServiceSocketInit => unit
  | _ => Z
  end.

Abbreviation busk := (prog bus_answer).
Abbreviation bus_trace := (list (event bus_answer)).

(** ** State *)

(* @src BH:77-82 CallbackInfo *)
Record CallbackInfo := mkCallbackInfo {
  ci_connectionName : bytes;
  msgCallback : Z;
  ci_timerId : Z;
}.

(** A [ClientSocket] or, with [isServer], a [ServerSocket]. *)
(* @src CH:48-51 ClientSocket *)
Record BusSocket := mkSocket {
  isServer : bool;
  socketId_ : Z;
  callbackMap_ : gmap Z CallbackInfo;
  sock_connectionName_ : bytes;
  networkId_ : bytes;
  keepAliveTimerId_ : option Z;
  serverSocketBindMap_ : gmap Z bytes;
  clientConnectionMap_ : gmap Z bytes;
}.
Implicit Types s : BusSocket.

(* @src MH:87-104 SoftBusManager *)
Record Bus := mkBus {
  objects : gmap Z BusSocket;
  next_object : Z;
  serverSocket_ : option Z;
  socketMap_ : gmap Z Z;
  clientSocketMap_ : gmap bytes Z;
  g_messageSeq : Z;
  inited_ : bool;
  deviceManagerServiceListener_ : bool;
  softBusServiceListener_ : bool;
  listeners_ : list (ListenerInfo Z);
}.
Implicit Types b : Bus.

Definition Bus_new : Bus := mkBus ∅ 1 None ∅ ∅ 0 false false false [].

Definition set_callbacks s (m : gmap Z CallbackInfo) : BusSocket :=
  mkSocket (isServer s) (socketId_ s) m (sock_connectionName_ s) (networkId_ s) (keepAliveTimerId_ s)
    (serverSocketBindMap_ s) (clientConnectionMap_ s).
Definition set_keep_alive s (t : option Z) : BusSocket :=
  mkSocket (isServer s) (socketId_ s) (callbackMap_ s) (sock_connectionName_ s) (networkId_ s) t
    (serverSocketBindMap_ s) (clientConnectionMap_ s).
Definition set_names s (connectionName networkId : bytes) : BusSocket :=
  mkSocket (isServer s) (socketId_ s) (callbackMap_ s) connectionName networkId (keepAliveTimerId_ s)
    (serverSocketBindMap_ s) (clientConnectionMap_ s).
Definition set_binds s (m : gmap Z bytes) : BusSocket :=
  mkSocket (isServer s) (socketId_ s) (callbackMap_ s) (sock_connectionName_ s) (networkId_ s) (keepAliveTimerId_ s)
    m (clientConnectionMap_ s).
Definition set_clients s (m : gmap Z bytes) : BusSocket :=
  mkSocket (isServer s) (socketId_ s) (callbackMap_ s) (sock_connectionName_ s) (networkId_ s) (keepAliveTimerId_ s)
    (serverSocketBindMap_ s) m.

Section Updates.
Context (b : Bus).
Definition set_objects (m : gmap Z BusSocket) (n : Z) : Bus :=
  mkBus m n (serverSocket_ b) (socketMap_ b) (clientSocketMap_ b) (g_messageSeq b) (inited_ b)
    (deviceManagerServiceListener_ b) (softBusServiceListener_ b) (listeners_ b).
Definition set_server (o : option Z) : Bus :=
  mkBus (objects b) (next_object b) o (socketMap_ b) (clientSocketMap_ b) (g_messageSeq b) (inited_ b)
    (deviceManagerServiceListener_ b) (softBusServiceListener_ b) (listeners_ b).
Definition set_sockets (m : gmap Z Z) : Bus :=
  mkBus (objects b) (next_object b) (serverSocket_ b) m (clientSocketMap_ b) (g_messageSeq b) (inited_ b)
    (deviceManagerServiceListener_ b) (softBusServiceListener_ b) (listeners_ b).
Definition set_connections (m : gmap bytes Z) : Bus :=
  mkBus (objects b) (next_object b) (serverSocket_ b) (socketMap_ b) m (g_messageSeq b) (inited_ b)
    (deviceManagerServiceListener_ b) (softBusServiceListener_ b) (listeners_ b).
Definition set_seq (n : Z) : Bus :=
  mkBus (objects b) (next_object b) (serverSocket_ b) (socketMap_ b) (clientSocketMap_ b) n (inited_ b)
    (deviceManagerServiceListener_ b) (softBusServiceListener_ b) (listeners_ b).
Definition set_inited (v : bool) : Bus :=
  mkBus (objects b) (next_object b) (serverSocket_ b) (socketMap_ b) (clientSocketMap_ b) (g_messageSeq b) v
    (deviceManagerServiceListener_ b) (softBusServiceListener_ b) (listeners_ b).
Definition set_dm_listener (v : bool) : Bus :=
  mkBus (objects b) (next_object b) (serverSocket_ b) (socketMap_ b) (clientSocketMap_ b) (g_messageSeq b) (inited_ b)
    v (softBusServiceListener_ b) (listeners_ b).
Definition set_sb_listener (v : bool) : Bus :=
  mkBus (objects b) (next_object b) (serverSocket_ b) (socketMap_ b) (clientSocketMap_ b) (g_messageSeq b) (inited_ b)
    (deviceManagerServiceListener_ b) v (listeners_ b).
Definition set_listeners (l : list (ListenerInfo Z)) : Bus :=
  mkBus (objects b) (next_object b) (serverSocket_ b) (socketMap_ b) (clientSocketMap_ b) (g_messageSeq b) (inited_ b)
    (deviceManagerServiceListener_ b) (softBusServiceListener_ b) l.
End Updates.

(** The object [o] after a change. *)
Definition put b (o : Z) s : Bus := set_objects b (<[o := s]> (objects b)) (next_object b).

Definition new_object b s : Bus * Z :=
  (set_objects b (<[next_object b := s]> (objects b)) (next_object b + 1), next_object b).

(** Something refers to the object. *)
Definition referred b (o : Z) : bool :=
  bool_decide (serverSocket_ b = Some o ∨ o ∈ (map_to_list (socketMap_ b)).*2 ∨ o ∈ (map_to_list (clientSocketMap_ b)).*2).

(* @src B:44-48 BaseSocket::~BaseSocket *)
Definition destroy_base s : busk () := call (SbShutdown (socketId_ s)).
(* @src C:40-45 ClientSocket::~ClientSocket *)
Definition destroy_socket s : busk () :=
  match keepAliveTimerId_ s with Some timerId => call (StopTimer timerId) | None => mret () end;;
  destroy_base s.

(** A local reference goes away; timers refer to objects weakly. *)
Definition release b (o : Z) : busk Bus :=
  WHEN referred b o = true RETURN mret b ;;
  match objects b !! o with
  | None => mret b
  | Some s => destroy_socket s;; mret (set_objects b (delete o (objects b)) (next_object b))
  end.

(** The keys of a [std::map], in its order. *)
Definition keys_of {A} (m : gmap Z A) : list Z := merge_sort Z.le (map_to_list m).*1.

(** ** The listeners of a connection *)

Definition tell_one (name : bytes) (status : ConnectStatus) (x : Z) : busk () := call (ListenerStatus x name status).
Definition tell_status (name : bytes) (status : ConnectStatus) (l : list Z) : busk () :=
  for_each (λ _, tell_one name status) () l.

Definition connection_down b (name : bytes) : busk Bus :=
  let '(l, told) := OnConnectionDown (listeners_ b) name in
  tell_status name DISCONNECTED told;;
  mret (set_listeners b l).

Definition connection_up b (name : bytes) : busk () := tell_status name CONNECTED (OnConnectionUp (listeners_ b) name).

(** ** Messages that wait for a reply *)

(* @src B BaseSocket::BaseSocket *)
Definition BaseSocket_new (server : bool) (socketId : Z) : BusSocket := mkSocket server socketId ∅ [] [] None ∅ ∅.
(* @src B BaseSocket::GetSocketId *)
Definition GetSocketId s : Z := socketId_ s.

(** [insert] keeps an entry that is there; no callback, no entry. *)
(* @src B BaseSocket::InsertMsgCallback *)
Definition InsertMsgCallback s (messageSeq : Z) (connectionName : bytes) (callback : option Z) (timerId : Z) : BusSocket :=
  match callback, callbackMap_ s !! messageSeq with
  | None, _ | _, Some _ => s
  | Some f, None => set_callbacks s (<[messageSeq := mkCallbackInfo connectionName f timerId]> (callbackMap_ s))
  end.
(* @src B BaseSocket::RemoveMsgCallback *)
Definition RemoveMsgCallback s (messageSeq : Z) : BusSocket := set_callbacks s (delete messageSeq (callbackMap_ s)).
(* @src B BaseSocket::GetConnectionName *)
Definition GetMsgConnectionName s (messageSeq : Z) : bytes := default [] (ci_connectionName <$> callbackMap_ s !! messageSeq).
(* @src B BaseSocket::GetMsgCallback *)
Definition GetMsgCallback s (messageSeq : Z) : option Z := msgCallback <$> callbackMap_ s !! messageSeq.
(* @src B BaseSocket::GetReplyTimer *)
Definition GetReplyTimer s (messageSeq : Z) : Z := default 0 (ci_timerId <$> callbackMap_ s !! messageSeq).

(* @src B BaseSocket::StartReplyTimer *)
Definition StartReplyTimer (o : Z) s (messageSeq : Z) : busk Z :=
  let timerId := GetReplyTimer s messageSeq in
  WHEN timerId ≠ INVALID_TIMER_ID RETURN mret timerId ;;
  call (StartReply o messageSeq REPLY_TIMER_LEN_MS).
(* @src B BaseSocket::StopReplyTimer *)
Definition StopReplyTimer s (messageSeq : Z) : busk () :=
  let timerId := GetReplyTimer s messageSeq in
  WHEN timerId = INVALID_TIMER_ID RETURN mret () ;;
  call (StopTimer timerId).

(** The timer of a message fires, while the object is there. *)
(* @src B BaseSocket::ReplyTimerTimeOut *)
Definition ReplyTimerTimeOut b (o messageSeq : Z) : busk Bus :=
  match objects b !! o with
  | None => mret b
  | Some s =>
    let connectionName := GetMsgConnectionName s messageSeq in
    WHEN connectionName = [] RETURN mret b ;;
    b ← connection_down b connectionName;
    match objects b !! o with
    | None => mret b
    | Some s => mret (put b o (RemoveMsgCallback s messageSeq))
    end
  end.

(** A 32-bit counter shared by all sockets. *)
(* @src B BaseSocket::GetMessageSeq *)
Definition GetMessageSeq b : Bus * Z :=
  let seq := wrapU 32 (g_messageSeq b + 1) in (set_seq b seq, seq).

(** ** Sending *)

Definition create_message (m : SoftBusMessage) (isAck : bool) : busk (option Attributes) :=
  match attributes_ m with
  | None => mret None
  | Some _ =>
    alloc ← call (Alloc "Attributes");
    udid ← (if (alloc : bool) then call LocalUdid else mret None);
    mret (CreateMessage m isAck alloc udid)
  end.

(* @src BH:44-51 ConnectionInfo *)
Record ConnectionInfo := mkConnectionInfo {
  cn_socketId : Z;
  cn_connectionName : bytes;
  cn_srcEndPoint : bytes;
  cn_destEndPoint : bytes;
  cn_attributes : option Attributes;
  cn_callback : option Z;
}.

(** The first part of [SendRequest], up to [SendBytes]: the number of the
    message, when it was sent. *)
(* @src B:215-245 BaseSocket::SendRequest *)
Definition send_request b (info : ConnectionInfo) : busk (Bus * Z * Z) :=
  CHECK cn_attributes info ≠ None ELSE mret (b, INVALID_PARAMETERS, 0) ;;
  CHECK cn_socketId info ≠ INVALID_SOCKET_ID ELSE mret (b, INVALID_PARAMETERS, 0) ;;
  let '(b, messageSeq) := GetMessageSeq b in
  ok ← call (Alloc "SoftBusMessage");
  CHECK ok = true ELSE mret (b, GENERAL_ERROR, 0) ;;
  request ← create_message (SoftBusMessage_new messageSeq (cn_connectionName info) (cn_srcEndPoint info)
    (cn_destEndPoint info) (cn_attributes info)) false;
  match request with
  | None => mret (b, GENERAL_ERROR, 0)
  | Some request =>
    ret ← call (SbSendBytes (cn_socketId info) (Serialize request));
    CHECK ret = SUCCESS ELSE mret (b, GENERAL_ERROR, 0) ;;
    mret (b, SUCCESS, messageSeq)
  end.

(** The rest: the timer and the callback. A reply can come before it. *)
(* @src B:247-255 BaseSocket::SendRequest *)
Definition await_reply b (o : Z) (info : ConnectionInfo) (messageSeq : Z) : busk (Bus * Z) :=
  match objects b !! o with
  | None => mret (b, GENERAL_ERROR)
  | Some s =>
    timerId ← StartReplyTimer o s messageSeq;
    WHEN timerId = INVALID_TIMER_ID RETURN mret (b, GENERAL_ERROR) ;;
    mret (put b o (InsertMsgCallback s messageSeq (cn_connectionName info) (cn_callback info) timerId), SUCCESS)
  end.

(* @src B BaseSocket::SendRequest *)
Definition SendRequest b (o : Z) (info : ConnectionInfo) : busk (Bus * Z) :=
  '(b, ret, messageSeq) ← send_request b info;
  CHECK ret = SUCCESS ELSE mret (b, ret) ;;
  await_reply b o info messageSeq.

(* @src B BaseSocket::SendResponse *)
Definition SendResponse (socketId : Z) (connectionName srcEndPoint destEndPoint : bytes) (attributes : option Attributes)
    (messageSeq : Z) : busk Z :=
  CHECK attributes ≠ None ELSE mret INVALID_PARAMETERS ;;
  CHECK socketId ≠ INVALID_SOCKET_ID ELSE mret INVALID_PARAMETERS ;;
  ok ← call (Alloc "SoftBusMessage");
  CHECK ok = true ELSE mret GENERAL_ERROR ;;
  response ← create_message (SoftBusMessage_new messageSeq connectionName srcEndPoint destEndPoint attributes) true;
  match response with
  | None => mret GENERAL_ERROR
  | Some response =>
    ret ← call (SbSendBytes socketId (Serialize response));
    CHECK ret = SUCCESS ELSE mret GENERAL_ERROR ;;
    mret SUCCESS
  end.

(** ** Receiving *)

(** The attributes of the message get the sender's network id. *)
(* @src B BaseSocket::SetDeviceNetworkId *)
Definition SetDeviceNetworkId (networkId : bytes) (attributes : Attributes) : Attributes * bool :=
  SetStringValue attributes ATTR_COLLECTOR_NETWORK_ID networkId.

Definition with_attributes (m : SoftBusMessage) (a : Attributes) : SoftBusMessage :=
  mkMessage (messageSeq_ m) (messageVersion_ m) (connectionName_ m) (srcEndPoint_ m) (destEndPoint_ m) (Some a) (isAck_ m).

(* @src B BaseSocket::ParseMessage *)
Definition parse_received (networkId message : bytes) : busk (option SoftBusMessage) :=
  CHECK message ≠ [] ELSE mret None ;;
  ok ← call (Alloc "SoftBusMessage");
  CHECK ok = true ELSE mret None ;;
  alloc ← call (Alloc "Attributes");
  match ParseMessage (SoftBusMessage_new 0 [] [] [] None) message alloc with
  | (_, None) => mret None
  | (m, Some attributes) =>
    let '(attributes, ok) := SetDeviceNetworkId networkId attributes in
    CHECK ok = true ELSE mret None ;;
    mret (Some (with_attributes m attributes))
  end.

(** The response to a request, as the listener of the end point leaves it. *)
(* @src B BaseSocket::ProcessMessage *)
Definition ProcessMessage b (m : SoftBusMessage) (response : Attributes) : busk Attributes :=
  let '(response, ok) := SetInt32Value response ATTR_RESULT_CODE GENERAL_ERROR in
  CHECK ok = true ELSE mret response ;;
  WHEN messageVersion_ m ≠ DEFAULT_MESSAGE_VERSION
    RETURN mret (SetUint32ArrayValue response ATTR_SUPPORTED_MSG_VERSION [DEFAULT_MESSAGE_VERSION]).1 ;;
  match FindListener (listeners_ b) (connectionName_ m) (destEndPoint_ m), attributes_ m with
  | Some connectionListener, Some attributes =>
    call (ListenerMessage connectionListener (connectionName_ m) (destEndPoint_ m) attributes response)
  | _, _ => mret response
  end.

(* @src B BaseSocket::ProcDataReceive *)
Definition ProcDataReceive b (o socketId : Z) (m : SoftBusMessage) : busk (Bus * Z) :=
  CHECK socketId ≠ INVALID_SOCKET_ID ELSE mret (b, INVALID_PARAMETERS) ;;
  match attributes_ m, objects b !! o with
  | Some request, Some s =>
    let messageSeq := messageSeq_ m in
    if isAck_ m then
      match GetMsgCallback s messageSeq with
      | None => mret (b, GENERAL_ERROR)
      | Some callback =>
        call (MsgReply callback request);;
        StopReplyTimer s messageSeq;;
        mret (put b o (RemoveMsgCallback s messageSeq), SUCCESS)
      end
    else
      ok ← call (Alloc "Attributes");
      CHECK ok = true ELSE mret (b, GENERAL_ERROR) ;;
      response ← ProcessMessage b m Attributes_new;
      SendResponse socketId (connectionName_ m) (destEndPoint_ m) (srcEndPoint_ m) (Some response) messageSeq;;
      mret (b, SUCCESS)
  | _, _ => mret (b, GENERAL_ERROR)
  end.

(** ** Client sockets *)

(* @src C ClientSocket::GetConnectionName *)
Definition GetConnectionName s : bytes := if isServer s then [] else sock_connectionName_ s.
(* @src C ClientSocket::GetNetworkId *)
Definition GetNetworkId s : bytes := if isServer s then [] else networkId_ s.

(* @src C:133-145 ClientSocket::RefreshKeepAliveTimer *)
Definition RefreshKeepAliveTimer b (o : Z) : busk Bus :=
  match objects b !! o with
  | None => mret b
  | Some s =>
    match keepAliveTimerId_ s with Some timerId => call (StopTimer timerId) | None => mret () end;;
    timerId ← call (StartKeepAlive o KEEP_ALIVE_INTERVAL);
    mret (put b o (set_keep_alive s (Some timerId)))
  end.

(* @src C ClientSocket::SendMessage *)
Definition ClientSocket_SendMessage b (o : Z) (connectionName srcEndPoint destEndPoint : bytes)
    (attributes : option Attributes) (callback : option Z) : busk (Bus * Z) :=
  match objects b !! o with
  | None => mret (b, GENERAL_ERROR)
  | Some s =>
    let socketId := GetSocketId s in
    WHEN socketId = INVALID_SOCKET_ID RETURN mret (b, GENERAL_ERROR) ;;
    b ← RefreshKeepAliveTimer b o;
    SendRequest b o (mkConnectionInfo socketId connectionName srcEndPoint destEndPoint attributes callback)
  end.

(* @src C ClientSocket::OnShutdown *)
Definition ClientSocket_OnShutdown b s : busk Bus :=
  let connectionName := GetConnectionName s in
  CHECK connectionName ≠ [] ELSE mret b ;;
  connection_down b connectionName.

(* @src C ClientSocket::OnBytes *)
Definition ClientSocket_OnBytes b (o socketId : Z) (data : bytes) : busk Bus :=
  CHECK data ≠ [] ELSE mret b ;;
  match objects b !! o with
  | None => mret b
  | Some s =>
    let networkId := GetNetworkId s in
    WHEN networkId = [] RETURN mret b ;;
    m ← parse_received networkId data;
    match m with
    | None => mret b
    | Some m => '(b, _) ← ProcDataReceive b o socketId m; mret b
    end
  end.

(** ** The server socket *)

(* @src V ServerSocket::AddServerSocket *)
Definition AddServerSocket s (socketId : Z) (networkId : bytes) : BusSocket :=
  CHECK socketId ≠ INVALID_SOCKET_ID ELSE s ;;
  set_binds s (<[socketId := networkId]> (serverSocketBindMap_ s)).
(* @src V ServerSocket::DeleteServerSocket *)
Definition DeleteServerSocket s (socketId : Z) : BusSocket :=
  CHECK socketId ≠ INVALID_SOCKET_ID ELSE s ;;
  set_binds s (delete socketId (serverSocketBindMap_ s)).
(* @src V ServerSocket::GetNetworkIdBySocketId *)
Definition GetNetworkIdBySocketId s (socketId : Z) : bytes :=
  CHECK socketId ≠ INVALID_SOCKET_ID ELSE [] ;;
  default [] (serverSocketBindMap_ s !! socketId).
(** The first name that a socket uses is kept. *)
(* @src V ServerSocket::AddClientConnection *)
Definition AddClientConnection s (socketId : Z) (connectionName : bytes) : BusSocket :=
  CHECK socketId ≠ INVALID_SOCKET_ID ELSE s ;;
  match clientConnectionMap_ s !! socketId with
  | Some _ => s
  | None => set_clients s (<[socketId := connectionName]> (clientConnectionMap_ s))
  end.
(* @src V ServerSocket::DeleteClientConnection *)
Definition DeleteClientConnection s (socketId : Z) : BusSocket :=
  CHECK socketId ≠ INVALID_SOCKET_ID ELSE s ;;
  set_clients s (delete socketId (clientConnectionMap_ s)).
(* @src V ServerSocket::GetClientConnectionName *)
Definition GetClientConnectionName s (socketId : Z) : bytes :=
  CHECK socketId ≠ INVALID_SOCKET_ID ELSE [] ;;
  default [] (clientConnectionMap_ s !! socketId).
(** The smallest socket that has the name. *)
(* @src V ServerSocket::GetSocketIdByClientConnectionName *)
Definition GetSocketIdByClientConnectionName s (connectionName : bytes) : Z :=
  default INVALID_SOCKET_ID
    (snd <$> list_find (λ id, clientConnectionMap_ s !! id = Some connectionName) (keys_of (clientConnectionMap_ s))).

(* @src V ServerSocket::SendMessage *)
Definition ServerSocket_SendMessage b (o : Z) (connectionName srcEndPoint destEndPoint : bytes)
    (attributes : option Attributes) (callback : option Z) : busk (Bus * Z) :=
  match objects b !! o with
  | None => mret (b, GENERAL_ERROR)
  | Some s =>
    let socketId := GetSocketIdByClientConnectionName s connectionName in
    WHEN socketId = INVALID_SOCKET_ID RETURN mret (b, GENERAL_ERROR) ;;
    SendRequest b o (mkConnectionInfo socketId connectionName srcEndPoint destEndPoint attributes callback)
  end.

(** The peer's names; a null string is [None]. *)
Record PeerSocketInfo := mkPeer { peer_pkgName : option bytes; peer_networkId : option bytes }.

(* @src V ServerSocket::OnBind *)
Definition ServerSocket_OnBind s (socketId : Z) (info : PeerSocketInfo) : BusSocket :=
  WHEN socketId ≤ INVALID_SOCKET_ID RETURN s ;;
  match peer_networkId info with
  | None => s
  | Some networkId => AddServerSocket s socketId networkId
  end.

(* @src V ServerSocket::OnShutdown *)
Definition ServerSocket_OnShutdown b (o socketId : Z) : busk Bus :=
  match objects b !! o with
  | None => mret b
  | Some s =>
    let connectionName := GetClientConnectionName s socketId in
    b ← (if decide (connectionName = []) then mret b else connection_down b connectionName);
    mret (put b o (DeleteClientConnection (DeleteServerSocket s socketId) socketId))
  end.

(* @src V ServerSocket::OnBytes *)
Definition ServerSocket_OnBytes b (o socketId : Z) (data : bytes) : busk Bus :=
  match objects b !! o with
  | None => mret b
  | Some s =>
    let networkId := GetNetworkIdBySocketId s socketId in
    WHEN networkId = [] RETURN mret b ;;
    m ← parse_received networkId data;
    match m with
    | None => mret b
    | Some m =>
      let b := if decide (isAck_ m = false ∧ connectionName_ m ≠ [])
               then put b o (AddClientConnection s socketId (connectionName_ m)) else b in
      '(b, _) ← ProcDataReceive b o socketId m;
      mret b
    end
  end.

(** ** The manager *)

(* @src M SoftBusManager::CheckAndCopyStr *)
Definition CheckAndCopyStr (destLen : Z) (src : bytes) : option bytes :=
  WHEN destLen < Z.of_nat (length src) + 1 RETURN None ;;
  Some (c_str src).

(* @src M SoftBusManager::AddSocket *)
Definition AddSocket b (socketId o : Z) : Bus :=
  CHECK socketId ≠ INVALID_SOCKET_ID ELSE b ;;
  match socketMap_ b !! socketId with
  | Some _ => b
  | None => set_sockets b (<[socketId := o]> (socketMap_ b))
  end.

(** [held] are the objects that local variables refer to. *)
Definition drop_reference b (held : list Z) (o : Z) : busk Bus :=
  WHEN o ∈ held RETURN mret b ;;
  release b o.

(* @src M SoftBusManager::DeleteSocket *)
Definition DeleteSocket b (held : list Z) (socketId : Z) : busk Bus :=
  CHECK socketId ≠ INVALID_SOCKET_ID ELSE mret b ;;
  match socketMap_ b !! socketId with
  | None => mret b
  | Some o => drop_reference (set_sockets b (delete socketId (socketMap_ b))) held o
  end.

(* @src M SoftBusManager::FindSocketBySocketId *)
Definition FindSocketBySocketId b (socketId : Z) : option Z :=
  CHECK socketId ≠ INVALID_SOCKET_ID ELSE None ;;
  socketMap_ b !! socketId.

(* @src M SoftBusManager::SetServerSocket *)
Definition SetServerSocket b (o : Z) : busk Bus :=
  let old := serverSocket_ b in
  let b := set_server b (Some o) in
  match old with Some old => release b old | None => mret b end.

(** The caller refers to the server socket. *)
(* @src M SoftBusManager::ClearServerSocket *)
Definition ClearServerSocket b : Bus := set_server b None.

(* @src M SoftBusManager::GetServerSocket *)
Definition GetServerSocket b : option Z := serverSocket_ b.

(* @src M SoftBusManager::AddConnection *)
Definition AddConnection b (connectionName : bytes) (o : Z) : Bus :=
  match clientSocketMap_ b !! connectionName with
  | Some _ => b
  | None => set_connections b (<[connectionName := o]> (clientSocketMap_ b))
  end.

(* @src M SoftBusManager::DeleteConnection *)
Definition DeleteConnection b (held : list Z) (connectionName : bytes) : busk Bus :=
  match clientSocketMap_ b !! connectionName with
  | None => mret b
  | Some o => drop_reference (set_connections b (delete connectionName (clientSocketMap_ b))) held o
  end.

(* @src M SoftBusManager::FindClientSocket *)
Definition FindClientSocket b (connectionName : bytes) : option Z := clientSocketMap_ b !! connectionName.

(** *** The listeners for the device manager and the soft bus *)

(* @src M SoftBusManager::RegistDeviceManagerListener *)
Definition RegistDeviceManagerListener b : busk (Bus * Z) :=
  WHEN deviceManagerServiceListener_ b = true RETURN mret (b, SUCCESS) ;;
  ok ← call SubscribeDeviceManager;
  CHECK ok = true ELSE mret (b, GENERAL_ERROR) ;;
  mret (set_dm_listener b true, SUCCESS).

(* @src M SoftBusManager::UnRegistDeviceManagerListener *)
Definition UnRegistDeviceManagerListener b : busk (Bus * Z) :=
  WHEN deviceManagerServiceListener_ b = false RETURN mret (b, SUCCESS) ;;
  ret ← call UnsubscribeDeviceManager;
  CHECK ret = SUCCESS ELSE mret (b, GENERAL_ERROR) ;;
  mret (set_dm_listener b false, SUCCESS).

(* @src M SoftBusManager::RegistSoftBusListener *)
Definition RegistSoftBusListener b : busk (Bus * Z) :=
  WHEN softBusServiceListener_ b = true RETURN mret (b, SUCCESS) ;;
  ok ← call SubscribeSoftBus;
  CHECK ok = true ELSE mret (b, GENERAL_ERROR) ;;
  mret (set_sb_listener b true, SUCCESS).

(* @src M SoftBusManager::UnRegistSoftBusListener *)
Definition UnRegistSoftBusListener b : busk (Bus * Z) :=
  WHEN softBusServiceListener_ b = false RETURN mret (b, SUCCESS) ;;
  ret ← call UnsubscribeSoftBus;
  CHECK ret = SUCCESS ELSE mret (b, GENERAL_ERROR) ;;
  mret (set_sb_listener b false, SUCCESS).

(* @src M SoftBusManager::Start *)
Definition Manager_Start b : busk Bus :=
  WHEN inited_ b = true RETURN mret b ;;
  '(b, ret) ← RegistDeviceManagerListener b;
  CHECK ret = SUCCESS ELSE mret b ;;
  '(b, ret) ← RegistSoftBusListener b;
  CHECK ret = SUCCESS ELSE mret b ;;
  mret (set_inited b true).

(* @src M SoftBusManager::Stop *)
Definition Manager_Stop b : busk Bus :=
  WHEN inited_ b = false RETURN mret b ;;
  '(b, ret) ← UnRegistDeviceManagerListener b;
  CHECK ret = SUCCESS ELSE mret b ;;
  '(b, ret) ← UnRegistSoftBusListener b;
  CHECK ret = SUCCESS ELSE mret b ;;
  mret (set_inited b false).

(* @src M SoftBusManager::DeviceInit *)
Definition DeviceInit : busk Z :=
  ok ← call (Alloc "IamDmInitCallback");
  CHECK ok = true ELSE mret GENERAL_ERROR ;;
  ret ← call InitDeviceManager;
  CHECK ret = SUCCESS ELSE mret GENERAL_ERROR ;;
  mret SUCCESS.

(* @src M SoftBusManager::DeviceUnInit *)
Definition DeviceUnInit : busk () := call UnInitDeviceManager;; mret ().

(** *** The server socket *)

(** Four qualities are listed, three are passed on. *)
(* @src M SoftBusManager::ServiceSocketListen *)
Definition ServiceSocketListen (socketId : Z) : busk Z :=
  let serverQos := [(QOS_TYPE_MIN_BW, MIN_BW); (QOS_TYPE_MAX_LATENCY, MAX_LATENCY); (QOS_TYPE_MIN_LATENCY, MIN_LATENCY);
                    (QOS_TYPE_MAX_WAIT_TIMEOUT, MAX_TIMEOUT)] in
  ret ← call (SbListen socketId (take QOS_LEN serverQos));
  CHECK ret = SUCCESS ELSE mret GENERAL_ERROR ;;
  mret SUCCESS.

(* @src F SocketFactory::CreateServerSocket *)
Definition CreateServerSocket b (socketId : Z) : busk (Bus * option Z) :=
  ok ← call (Alloc "ServerSocket");
  CHECK ok = true ELSE mret (b, None) ;;
  let '(b, o) := new_object b (BaseSocket_new true socketId) in
  mret (b, Some o).

(* @src M SoftBusManager::DoServiceSocketInit *)
Definition DoServiceSocketInit b : busk (Bus * Z) :=
  match CheckAndCopyStr SOCKET_NAME_MAX_LEN (USER_AUTH_SOCKET_NAME ++ str "service"),
        CheckAndCopyStr PACKAGE_NAME_MAX_LEN USER_AUTH_PACKAGE_NAME with
  | Some name, Some pkgName =>
    socketId ← call (SbSocket name None None pkgName);
    WHEN socketId ≤ INVALID_SOCKET_ID RETURN mret (b, GENERAL_ERROR) ;;
    ret ← ServiceSocketListen socketId;
    CHECK ret = SUCCESS ELSE (call (SbShutdown socketId);; mret (b, GENERAL_ERROR)) ;;
    '(b, serverSocket) ← CreateServerSocket b socketId;
    match serverSocket with
    | None => call (SbShutdown socketId);; mret (b, GENERAL_ERROR)
    | Some o =>
      let b := AddSocket b socketId o in
      b ← SetServerSocket b o;
      mret (b, SUCCESS)
    end
  | _, _ => mret (b, GENERAL_ERROR)
  end.

Fixpoint service_socket_init (retries : nat) b : busk Bus :=
  match retries with
  | O => mret b
  | S retries =>
    '(b, ret) ← DoServiceSocketInit b;
    WHEN ret = SUCCESS RETURN mret b ;;
    call (Sleep BIND_SERVICE_SLEEP_TIMES_MS);;
    service_socket_init retries b
  end.

(** The task of [ServiceSocketInit], when the soft bus is up. *)
(* @src M:273-285 SoftBusManager::ServiceSocketInit *)
Definition service_socket_task : Bus → busk Bus := service_socket_init BIND_SERVICE_MAX_RETRY_TIMES.

(* @src M SoftBusManager::ServiceSocketInit *)
Definition ServiceSocketInit : busk () :=
  handler ← call (GetHandler []);
  CHECK handler = true ELSE mret () ;;
  call PostServiceSocketInit.

(** *** Connections *)

(* @src M SoftBusManager::ClientSocketInit *)
Definition ClientSocketInit (connectionName networkId : bytes) : busk Z :=
  match CheckAndCopyStr SOCKET_NAME_MAX_LEN (USER_AUTH_SOCKET_NAME ++ connectionName),
        CheckAndCopyStr SOCKET_NAME_MAX_LEN (USER_AUTH_SOCKET_NAME ++ str "service"),
        CheckAndCopyStr SOCKET_NAME_MAX_LEN networkId,
        CheckAndCopyStr PACKAGE_NAME_MAX_LEN USER_AUTH_PACKAGE_NAME with
  | Some name, Some peerName, Some peerNetworkId, Some pkgName =>
    call (SbSocket name (Some peerName) (Some peerNetworkId) pkgName)
  | _, _, _, _ => mret INVALID_SOCKET_ID
  end.

Definition client_qos : list (Qos * Z) :=
  [(QOS_TYPE_MIN_BW, MIN_BW); (QOS_TYPE_MAX_LATENCY, MAX_LATENCY); (QOS_TYPE_MIN_LATENCY, MIN_LATENCY)].

Fixpoint bind_retries (retries : nat) (socketId : Z) : busk Z :=
  match retries with
  | O => mret GENERAL_ERROR
  | S retries =>
    ret ← call (SbBind socketId (take QOS_LEN client_qos));
    WHEN ret = 0 RETURN mret SUCCESS ;;
    call (Sleep BIND_SERVICE_SLEEP_TIMES_MS);;
    bind_retries retries socketId
  end.
(* @src M SoftBusManager::ClientSocketBind *)
Definition ClientSocketBind : Z → busk Z := bind_retries BIND_SERVICE_MAX_RETRY_TIMES.

(* @src F SocketFactory::CreateClientSocket *)
Definition CreateClientSocket b (socketId : Z) (connectionName networkId : bytes) : busk (Bus * option Z) :=
  ok ← call (Alloc "ClientSocket");
  CHECK ok = true ELSE mret (b, None) ;;
  let '(b, o) := new_object b (set_names (BaseSocket_new false socketId) connectionName networkId) in
  mret (b, Some o).

(** On failure the object and then the guard shut the socket down. *)
(* @src M SoftBusManager::DoOpenConnectionInner *)
Definition DoOpenConnectionInner b (connectionName : bytes) (tokenId : Z) (networkId : bytes) : busk (Bus * Z) :=
  call (SetFirstCallerTokenID tokenId);;
  socketId ← ClientSocketInit connectionName networkId;
  WHEN socketId ≤ INVALID_SOCKET_ID RETURN mret (b, GENERAL_ERROR) ;;
  '(b, clientSocket) ← CreateClientSocket b socketId connectionName networkId;
  match clientSocket with
  | None => call (SbShutdown socketId);; mret (b, GENERAL_ERROR)
  | Some o =>
    ret ← ClientSocketBind socketId;
    CHECK ret = SUCCESS ELSE (b ← release b o; call (SbShutdown socketId);; mret (b, GENERAL_ERROR)) ;;
    let b := AddConnection b connectionName o in
    let b := AddSocket b socketId o in
    b ← release b o;
    mret (b, SUCCESS)
  end.

(* @src M SoftBusManager::DoOpenConnection *)
Definition DoOpenConnection b (connectionName : bytes) (tokenId : Z) (networkId : bytes) : busk Bus :=
  '(b, result) ← DoOpenConnectionInner b connectionName tokenId networkId;
  CHECK result = SUCCESS ELSE connection_down b connectionName ;;
  connection_up b connectionName;;
  mret b.

(* @src M SoftBusManager::OpenConnection *)
Definition OpenConnection (connectionName : bytes) (tokenId : Z) (networkId : bytes) : busk Z :=
  call (PostOpen connectionName tokenId networkId);;
  mret SUCCESS.

(* @src M SoftBusManager::DoCloseConnection *)
Definition DoCloseConnection b (connectionName : bytes) : busk (Bus * Z) :=
  match FindClientSocket b connectionName with
  | None => mret (b, GENERAL_ERROR)
  | Some o =>
    match objects b !! o with
    | None => mret (b, GENERAL_ERROR)
    | Some s =>
      let socketId := GetSocketId s in
      WHEN socketId = INVALID_SOCKET_ID RETURN mret (b, GENERAL_ERROR) ;;
      b ← connection_down b connectionName;
      b ← DeleteSocket b [o] socketId;
      b ← DeleteConnection b [o] connectionName;
      b ← release b o;
      mret (b, SUCCESS)
    end
  end.

(* @src M SoftBusManager::CloseConnection *)
Definition CloseConnection (connectionName : bytes) : busk Z :=
  call (PostClose connectionName);;
  mret SUCCESS.

(** A reply may come from the server socket or from the client's. *)
(* @src M SoftBusManager::SendMessage *)
Definition SendMessage b (connectionName srcEndPoint destEndPoint : bytes) (attributes : option Attributes)
    (callback : option Z) : busk (Bus * Z) :=
  CHECK attributes ≠ None ELSE mret (b, INVALID_PARAMETERS) ;;
  match GetServerSocket b with
  | None => mret (b, GENERAL_ERROR)
  | Some server =>
    '(b, ret) ← ServerSocket_SendMessage b server connectionName srcEndPoint destEndPoint attributes callback;
    WHEN ret = SUCCESS RETURN mret (b, SUCCESS) ;;
    match FindClientSocket b connectionName with
    | None => mret (b, GENERAL_ERROR)
    | Some o =>
      '(b, ret) ← ClientSocket_SendMessage b o connectionName srcEndPoint destEndPoint attributes callback;
      CHECK ret = SUCCESS ELSE mret (b, GENERAL_ERROR) ;;
      mret (b, SUCCESS)
    end
  end.

(* @src M SoftBusManager::OnBind *)
Definition Manager_OnBind b (socketId : Z) (info : PeerSocketInfo) : Bus :=
  WHEN socketId ≤ INVALID_SOCKET_ID RETURN b ;;
  match GetServerSocket b with
  | None => b
  | Some o => match objects b !! o with Some s => put b o (ServerSocket_OnBind s socketId info) | None => b end
  end.

(** The virtual [OnShutdown] of a socket that is in the map. *)
Definition socket_OnShutdown b (o socketId : Z) : busk Bus :=
  match objects b !! o with
  | None => mret b
  | Some s => if isServer s then ServerSocket_OnShutdown b o socketId else ClientSocket_OnShutdown b s
  end.

(* @src M SoftBusManager::OnShutdown *)
Definition Manager_OnShutdown b (socketId : Z) : busk Bus :=
  WHEN socketId ≤ INVALID_SOCKET_ID RETURN mret b ;;
  let server := GetServerSocket b in
  b ← match server with Some o => ServerSocket_OnShutdown b o socketId | None => mret b end;
  b ← match FindSocketBySocketId b socketId with
      | None => mret b
      | Some o =>
        b ← socket_OnShutdown b o socketId;
        let held := o :: option_list server in
        b ← DeleteSocket b held socketId;
        b ← DeleteConnection b held (default [] (GetConnectionName <$> objects b !! o));
        drop_reference b (option_list server) o
      end;
  match server with Some o => release b o | None => mret b end.

(* @src M SoftBusManager::ServiceSocketUnInit *)
Definition ServiceSocketUnInit b : busk Bus :=
  match GetServerSocket b with
  | None => mret b
  | Some o =>
    b ← match objects b !! o with Some s => DeleteSocket b [o] (GetSocketId s) | None => mret b end;
    let b := ClearServerSocket b in
    b ← for_each Manager_OnShutdown b (keys_of (socketMap_ b));
    release b o
  end.

Definition within (data : bytes) : bool :=
  bool_decide (data ≠ [] ∧ Z.of_nat (length data) ≤ MAX_ONBYTES_RECEIVED_DATA_LEN).

(* @src M SoftBusManager::OnClientBytes *)
Definition Manager_OnClientBytes b (socketId : Z) (data : bytes) : busk Bus :=
  WHEN socketId ≤ INVALID_SOCKET_ID ∨ within data = false RETURN mret b ;;
  match GetServerSocket b with
  | None => mret b
  | Some o => ServerSocket_OnBytes b o socketId data
  end.

(* @src M SoftBusManager::OnServerBytes *)
Definition Manager_OnServerBytes b (socketId : Z) (data : bytes) : busk Bus :=
  WHEN socketId ≤ INVALID_SOCKET_ID ∨ within data = false RETURN mret b ;;
  match FindSocketBySocketId b socketId with
  | None => mret b
  | Some o =>
    match objects b !! o with
    | None => mret b
    | Some s => if isServer s then ServerSocket_OnBytes b o socketId data else ClientSocket_OnBytes b o socketId data
    end
  end.

(** ** What the soft bus calls *)

Definition expected_package (info : PeerSocketInfo) : bool := bool_decide (peer_pkgName info = Some USER_AUTH_PACKAGE_NAME).

(* @src L SoftBusSocketListener::OnNegotiate *)
Definition OnNegotiate (socketId : Z) (info : PeerSocketInfo) : bool :=
  WHEN socketId ≤ INVALID_SOCKET_ID RETURN false ;;
  expected_package info.
(* @src L SoftBusSocketListener::OnBind *)
Definition OnBind b (socketId : Z) (info : PeerSocketInfo) : Bus :=
  WHEN socketId ≤ INVALID_SOCKET_ID RETURN b ;;
  CHECK expected_package info = true ELSE b ;;
  Manager_OnBind b socketId info.
(* @src L SoftBusSocketListener::OnShutdown *)
Definition OnShutdown b (socketId : Z) : busk Bus :=
  WHEN socketId ≤ INVALID_SOCKET_ID RETURN mret b ;;
  Manager_OnShutdown b socketId.
(* @src L SoftBusSocketListener::OnClientBytes *)
Definition OnClientBytes b (socketId : Z) (data : bytes) : busk Bus :=
  WHEN socketId ≤ INVALID_SOCKET_ID RETURN mret b ;;
  WHEN MAX_DATA_LEN < Z.of_nat (length data) RETURN mret b ;;
  Manager_OnClientBytes b socketId data.
(* @src L SoftBusSocketListener::OnServerBytes *)
Definition OnServerBytes b (socketId : Z) (data : bytes) : busk Bus :=
  WHEN socketId ≤ INVALID_SOCKET_ID RETURN mret b ;;
  WHEN MAX_DATA_LEN < Z.of_nat (length data) RETURN mret b ;;
  Manager_OnServerBytes b socketId data.

(** The callback of a keep-alive message only logs. *)
Definition keep_alive_callback : Z := 0.

(** The keep-alive timer fires, while the object is there. *)
(* @src C ClientSocket::SendKeepAliveMessage *)
Definition SendKeepAliveMessage b (o : Z) : busk Bus :=
  match objects b !! o with
  | None => mret b
  | Some s =>
    ok ← call (Alloc "Attributes");
    CHECK ok = true ELSE mret b ;;
    let '(request, ok) := SetInt32Value Attributes_new ATTR_MSG_TYPE KEEP_ALIVE in
    CHECK ok = true ELSE mret b ;;
    '(b, ret) ← SendMessage b (sock_connectionName_ s) CLIENT_SOCKET_ENDPOINT_NAME REMOTE_SERVICE_ENDPOINT_NAME
      (Some request) (Some keep_alive_callback);
    WHEN ret = SUCCESS RETURN mret b ;;
    handler ← call (GetHandler (str "ThreadHandler"));
    CHECK handler = true ELSE mret b ;;
    call (PostConnectionDown (sock_connectionName_ s));;
    mret b
  end.

(** ** The interface of the other components *)

(* @src R:51-56 RemoteConnectionManager::RegisterConnectionListener *)
Definition RegisterConnectionListener b (connectionName endPointName : bytes) (listener : Z) : Bus * Z :=
  let '(l, ret) := RegisterListener (listeners_ b) connectionName endPointName listener in (set_listeners b l, ret).
(* @src R:58-63 RemoteConnectionManager::RegisterConnectionListener *)
Definition RegisterEndPointListener b (endPointName : bytes) (listener : Z) : Bus * Z :=
  let '(l, ret) := RegisterEndPoint (listeners_ b) endPointName listener in (set_listeners b l, ret).
(* @src R:65-70 RemoteConnectionManager::UnregisterConnectionListener *)
Definition UnregisterConnectionListener b (connectionName endPointName : bytes) : Bus * Z :=
  let '(l, ret) := UnregisterListener (listeners_ b) connectionName endPointName in (set_listeners b l, ret).
(* @src R:72-76 RemoteConnectionManager::UnregisterConnectionListener *)
Definition UnregisterEndPointListener b (endPointName : bytes) : Bus * Z :=
  let '(l, ret) := UnregisterEndPoint (listeners_ b) endPointName in (set_listeners b l, ret).
