(* ===== verification/SoftBusThm.v ===== *)
(** * What the soft bus connections guarantee

    [bus_well_formed]: whatever happens, the maps of the manager agree with the
    socket objects, and no object outlives its last reference. *)

From S2P Require Import Prelude Defines Interaction ServiceTypes AttributesImpl Attributes RemoteMsg RemoteMsgThm.
From S2P Require Import ListenerManager SoftBus.

Implicit Types b : Bus.
Implicit Types s : BusSocket.

(** ** The maps and the objects *)

(** The object is one of [held], to which local variables refer, or in a map. *)
Definition kept b (held : list Z) (o : Z) : Prop := referred b o = true ∨ o ∈ held.

Definition server_ok b : Prop := ∀ o, serverSocket_ b = Some o → ∃ s, objects b !! o = Some s ∧ isServer s = true.
Definition sockets_ok b : Prop := ∀ id o, socketMap_ b !! id = Some o → ∃ s, objects b !! o = Some s ∧ socketId_ s = id.
Definition connections_ok b : Prop := ∀ n o, clientSocketMap_ b !! n = Some o →
  ∃ s, objects b !! o = Some s ∧ isServer s = false ∧ sock_connectionName_ s = n.
Definition objects_ok b (held : list Z) : Prop := ∀ o s, objects b !! o = Some s → kept b held o ∧ o < next_object b.

Definition bus_ok b (held : list Z) : Prop :=
  server_ok b ∧ sockets_ok b ∧ connections_ok b ∧ objects_ok b held.

Lemma referred_spec b o : referred b o = true ↔
  serverSocket_ b = Some o ∨ (∃ id, socketMap_ b !! id = Some o) ∨ (∃ n, clientSocketMap_ b !! n = Some o).
Proof.
  unfold referred. rewrite bool_decide_eq_true.
  assert (∀ {K} `{Countable K} (m : gmap K Z), o ∈ (map_to_list m).*2 ↔ ∃ k, m !! k = Some o) as E.
  { intros K ? ? m. rewrite list_elem_of_fmap. split.
    - intros ([k o'] & -> & Hk%elem_of_map_to_list). eauto.
    - intros [k Hk%elem_of_map_to_list]. exists (k, o). auto. }
  by rewrite (E Z), (E bytes).
Qed.

(** The rest of the bus may change. *)
Lemma bus_ok_same b b' held : bus_ok b held → objects b' = objects b → next_object b' = next_object b →
  serverSocket_ b' = serverSocket_ b → socketMap_ b' = socketMap_ b → clientSocketMap_ b' = clientSocketMap_ b →
  bus_ok b' held.
Proof.
  intros (H1 & H2 & H3 & H4) E1 E2 E3 E4 E5. unfold bus_ok, server_ok, sockets_ok, connections_ok, objects_ok, kept, referred.
  rewrite E1, E2, E3, E4, E5. done.
Qed.

(** An object may change, but for what it is. *)
Definition alike s s' : Prop :=
  isServer s' = isServer s ∧ socketId_ s' = socketId_ s ∧ sock_connectionName_ s' = sock_connectionName_ s.

Lemma ok_put b held o s s' : bus_ok b held → objects b !! o = Some s → alike s s' → bus_ok (put b o s') held.
Proof.
  intros (H1 & H2 & H3 & H4) Ho (E1 & E2 & E3).
  assert (∀ P : BusSocket → Prop, (P s → P s') → ∀ o', (∃ s0, objects b !! o' = Some s0 ∧ P s0) →
    ∃ s0, <[o := s']> (objects b) !! o' = Some s0 ∧ P s0) as K.
  { intros P HP o' (s0 & Hs0 & HP0). destruct (decide (o' = o)) as [->|].
    - exists s'. rewrite lookup_insert_eq. split; [done|]. apply HP. by simplify_eq.
    - exists s0. by rewrite lookup_insert_ne by done. }
  unfold bus_ok, server_ok, sockets_ok, connections_ok, objects_ok. simpl. split; [|split; [|split]].
  - intros o' Ho'. apply (K (λ s, isServer s = true)); [congruence|]. by apply H1.
  - intros id o' Ho'. apply (K (λ s, socketId_ s = id)); [congruence|]. by apply H2.
  - intros n o' Ho'. apply (K (λ s, isServer s = false ∧ sock_connectionName_ s = n)); [|by apply H3].
    intros [<- <-]. by rewrite E1, E3.
  - intros o' s0 [[<- <-]|[_ Hs0]]%lookup_insert_Some; [by apply (H4 o s)|by apply (H4 o' s0)].
Qed.

(** A local reference may be forgotten once the object is in a map. *)
Lemma ok_forget b held o : bus_ok b (o :: held) → referred b o = true → bus_ok b held.
Proof.
  intros (H1 & H2 & H3 & H4) Ho. split; [done|]. split; [done|]. split; [done|]. intros o' s Hs.
  destruct (H4 _ _ Hs) as [[H|H] Hn]; split; [by left|done| |done]. apply elem_of_cons in H as [->|H]; [by left|by right].
Qed.

Lemma ok_release b held o : bus_ok b (o :: held) → gives (release b o) (λ b', bus_ok b' held).
Proof.
  intros H. unfold release. case_decide as Hr; [apply gives_ret; by eapply ok_forget|].
  destruct (objects b !! o) as [s|] eqn:Ho.
  - apply gives_skip. intros _. apply gives_ret. destruct H as (H1 & H2 & H3 & H4).
    apply not_true_is_false in Hr. assert (∀ o', referred b o' = true → o' ≠ o) as Hne by (intros o' ? ->; congruence).
    unfold bus_ok, server_ok, sockets_ok, connections_ok, objects_ok. simpl. split; [|split; [|split]].
    + intros o' Ho'. rewrite lookup_delete_ne; [by apply H1|]. symmetry. apply Hne, referred_spec. auto.
    + intros id o' Ho'. rewrite lookup_delete_ne; [by apply H2|]. symmetry. apply Hne, referred_spec. eauto.
    + intros n o' Ho'. rewrite lookup_delete_ne; [by apply H3|]. symmetry. apply Hne, referred_spec. eauto.
    + intros o' s' [Hne' Hs']%lookup_delete_Some. destruct (H4 _ _ Hs') as [[K|K] Hn]; split; [by left|done| |done].
      apply elem_of_cons in K as [->|K]; [done|by right].
  - apply gives_ret. destruct H as (H1 & H2 & H3 & H4). split; [done|]. split; [done|]. split; [done|]. intros o' s Hs.
    destruct (H4 _ _ Hs) as [[K|K] Hn]; split; [by left|done| |done].
    apply elem_of_cons in K as [->|K]; [congruence|by right].
Qed.

Lemma ok_drop b inner held o : inner ⊆ held → bus_ok b (o :: held) → gives (drop_reference b inner o) (λ b', bus_ok b' held).
Proof.
  intros Hin H. unfold drop_reference. case_decide as Ho; [|by apply ok_release]. apply Hin in Ho. apply gives_ret.
  destruct H as (H1 & H2 & H3 & H4). split; [done|]. split; [done|]. split; [done|]. intros o' s Hs.
  destruct (H4 _ _ Hs) as [[K|K] Hn]; split; [by left|done| |done]. apply elem_of_cons in K as [->|K]; by right.
Qed.

(** What was referred to is still, but for what a changed map named. *)
Lemma ok_map b b' held o : bus_ok b held → objects b' = objects b → next_object b' = next_object b →
  server_ok b' → sockets_ok b' → connections_ok b' →
  (∀ o', referred b o' = true → referred b' o' = true ∨ o' = o) → bus_ok b' (o :: held).
Proof.
  intros (_ & _ & _ & H4) E1 E2 K1 K2 K3 Hr. split; [done|]. split; [done|]. split; [done|]. intros o' s.
  rewrite E1, E2. intros Hs. destruct (H4 _ _ Hs) as [[H|H] Hn]; split; try done.
  - destruct (Hr _ H) as [| ->]; [by left|right; by left].
  - right. by right.
Qed.

Lemma ok_DeleteSocket b inner held id : inner ⊆ held → bus_ok b held → gives (DeleteSocket b inner id) (λ b', bus_ok b' held).
Proof.
  intros Hin H. unfold DeleteSocket. case_decide; [|by apply gives_ret].
  destruct (socketMap_ b !! id) as [o|] eqn:Ho; [|by apply gives_ret].
  apply ok_drop; [done|]. destruct H as (H1 & H2 & H3 & H4). apply (ok_map b); try done.
  - intros id' o' Ho'. simpl in Ho'. apply lookup_delete_Some in Ho' as [_ Ho']. by apply H2.
  - intros o'. rewrite !referred_spec. simpl. intros [?|[[id' Hid]|?]]; auto.
    destruct (decide (id' = id)) as [->|]; [right; congruence|]. left. right. left. exists id'.
    by rewrite lookup_delete_ne by done.
Qed.

Lemma ok_DeleteConnection b inner held n :
  inner ⊆ held → bus_ok b held → gives (DeleteConnection b inner n) (λ b', bus_ok b' held).
Proof.
  intros Hin H. unfold DeleteConnection. destruct (clientSocketMap_ b !! n) as [o|] eqn:Ho; [|by apply gives_ret].
  apply ok_drop; [done|]. destruct H as (H1 & H2 & H3 & H4). apply (ok_map b); try done.
  - intros n' o' Ho'. simpl in Ho'. apply lookup_delete_Some in Ho' as [_ Ho']. by apply H3.
  - intros o'. rewrite !referred_spec. simpl. intros [?|[?|[n' Hn]]]; auto.
    destruct (decide (n' = n)) as [->|]; [right; congruence|]. left. right. right. exists n'.
    by rewrite lookup_delete_ne by done.
Qed.

Lemma ok_down b held n : bus_ok b held → gives (connection_down b n) (λ b', bus_ok b' held ∧ objects b' = objects b).
Proof.
  intros H. unfold connection_down. destruct (OnConnectionDown (listeners_ b) n) as [l told]. apply gives_skip. intros _.
  apply gives_ret. split; [|done]. by eapply bus_ok_same.
Qed.

(** An object of a map is there. *)
Lemma ok_AddSocket b held o s id : bus_ok b held → objects b !! o = Some s → socketId_ s = id → bus_ok (AddSocket b id o) held.
Proof.
  intros (H1 & H2 & H3 & H4) Ho Hs. unfold AddSocket. case_decide; [|done].
  destruct (socketMap_ b !! id) as [o0|] eqn:Hid; [done|]. split; [done|]. split; [|split; [done|]].
  - intros id' o' Hi. simpl in Hi. apply lookup_insert_Some in Hi as [[<- <-]|[_ Hi]]; [eauto|by apply H2].
  - intros o' s' Hs'. destruct (H4 _ _ Hs') as [[K|K] Hn]; (split; [|done]); [left|by right].
    apply referred_spec in K. apply referred_spec. simpl. destruct K as [K|[[id' K]|K]]; [by left| |auto].
    right. left. exists id'. rewrite lookup_insert_ne by congruence. done.
Qed.

Lemma ok_AddConnection b held o s n : bus_ok b held → objects b !! o = Some s → isServer s = false →
  sock_connectionName_ s = n → bus_ok (AddConnection b n o) held.
Proof.
  intros (H1 & H2 & H3 & H4) Ho Hs Hn. unfold AddConnection. destruct (clientSocketMap_ b !! n) as [o0|] eqn:Hid; [done|].
  split; [done|]. split; [done|]. split.
  - intros n' o' Hi. simpl in Hi. apply lookup_insert_Some in Hi as [[<- <-]|[_ Hi]]; [eauto|by apply H3].
  - intros o' s' Hs'. destruct (H4 _ _ Hs') as [[K|K] Hlt]; (split; [|done]); [left|by right].
    apply referred_spec in K. apply referred_spec. simpl. destruct K as [K|[K|[n' K]]]; [by left|auto|].
    right. right. exists n'. rewrite lookup_insert_ne by congruence. done.
Qed.

Lemma ok_new b held s b' o : bus_ok b held → new_object b s = (b', o) →
  bus_ok b' (o :: held) ∧ objects b' !! o = Some s.
Proof.
  intros (H1 & H2 & H3 & H4) [= <- <-]. simpl. rewrite lookup_insert_eq. split; [|done].
  assert (∀ (P : BusSocket → Prop) o', (∃ s0, objects b !! o' = Some s0 ∧ P s0) →
    ∃ s0, <[next_object b := s]> (objects b) !! o' = Some s0 ∧ P s0) as K.
  { intros P o' (s0 & Hs0 & HP). exists s0. rewrite lookup_insert_ne; [done|]. intros Heq. apply H4 in Hs0 as [_ ?]. lia. }
  split; [|split; [|split]].
  - intros o' Ho'. apply K. by apply H1.
  - intros id o' Ho'. apply K. by apply H2.
  - intros n o' Ho'. apply (K (λ s0, isServer s0 = false ∧ sock_connectionName_ s0 = n)). by apply H3.
  - intros o' s' Hs'. simpl in *. apply lookup_insert_Some in Hs' as [[<- <-]|[Hne Hs']].
    + split; [right; by left|lia].
    + destruct (H4 _ _ Hs') as [[Hk|Hk] Hn]; (split; [|lia]); [by left|right; by right].
Qed.

Lemma ok_SetServer b o s : bus_ok b [o] → objects b !! o = Some s → isServer s = true →
  gives (SetServerSocket b o) (λ b', bus_ok b' []).
Proof.
  intros (H1 & H2 & H3 & H4) Ho Hs. unfold SetServerSocket.
  assert (server_ok (set_server b (Some o))) as K1 by (intros o' [= <-]; eauto).
  assert (∀ o', referred b o' = true → referred (set_server b (Some o)) o' = true ∨ serverSocket_ b = Some o') as K.
  { intros o'. rewrite !referred_spec. simpl. intros [?|[?|?]]; auto. }
  assert (referred (set_server b (Some o)) o = true) as Kr by (apply referred_spec; by left).
  assert (∀ o' s', objects b !! o' = Some s' → serverSocket_ b = Some o' ∨
    (kept (set_server b (Some o)) [] o' ∧ o' < next_object b)) as K2.
  { intros o' s' Hs'. destruct (H4 _ _ Hs') as [[Hk|Hk] Hn].
    - apply K in Hk as [Hk|Hk]; [right; split; [by left|done]|by left].
    - apply list_elem_of_singleton in Hk as ->. right. split; [by left|done]. }
  destruct (serverSocket_ b) as [old|].
  - apply ok_release. split; [done|]. split; [done|]. split; [done|]. intros o' s' Hs'.
    destruct (H4 _ _ Hs') as [_ Hn]. destruct (K2 _ _ Hs') as [[= ->]|[[Hk|Hk] _]]; (split; [|done]);
      [right; by left|by left|by apply elem_of_nil in Hk].
  - apply gives_ret. split; [done|]. split; [done|]. split; [done|]. intros o' s' Hs'. by destruct (K2 _ _ Hs').
Qed.

(** ** Every operation keeps them *)

Lemma alike_insert s seq n f timer : alike s (InsertMsgCallback s seq n f timer).
Proof. unfold InsertMsgCallback. by destruct f, (callbackMap_ s !! seq). Qed.
Lemma alike_refl s : alike s s.
Proof. done. Qed.

Lemma ok_send_request b held info : bus_ok b held → gives (send_request b info) (λ r, bus_ok r.1.1 held ∧ objects r.1.1 = objects b).
Proof.
  intros H. unfold send_request. case_decide; [|by apply gives_ret]. case_decide; [|by apply gives_ret]. simpl.
  assert (bus_ok (set_seq b (wrapU 32 (g_messageSeq b + 1))) held) as K by by eapply bus_ok_same.
  apply gives_skip. intros ok. case_decide; [|by apply gives_ret]. apply gives_skip. intros [request|]; [|by apply gives_ret].
  apply gives_skip. intros ret. by case_decide; apply gives_ret.
Qed.

Lemma ok_await b held o info seq : bus_ok b held → gives (await_reply b o info seq) (λ r, bus_ok r.1 held).
Proof.
  intros H. unfold await_reply. destruct (objects b !! o) as [s|] eqn:Ho; [|by apply gives_ret].
  apply gives_skip. intros timer. case_decide; apply gives_ret; [done|]. eapply ok_put; [done..|]. apply alike_insert.
Qed.

Lemma ok_SendRequest b held o info : bus_ok b held → gives (SendRequest b o info) (λ r, bus_ok r.1 held).
Proof.
  intros H. unfold SendRequest. eapply gives_bind; [by apply ok_send_request|]. intros [[b1 ret] seq] [H1 _].
  case_decide; [by apply ok_await|by apply gives_ret].
Qed.

Lemma ok_TimeOut b held o seq : bus_ok b held → gives (ReplyTimerTimeOut b o seq) (λ b', bus_ok b' held).
Proof.
  intros H. unfold ReplyTimerTimeOut. destruct (objects b !! o) as [s|] eqn:Ho; [|by apply gives_ret].
  case_decide; [by apply gives_ret|]. eapply gives_bind; [by apply ok_down|]. intros b1 [H1 E]. rewrite E, Ho.
  apply gives_ret. eapply ok_put; [done|by rewrite E|done].
Qed.

Lemma ok_ProcDataReceive b held o id m : bus_ok b held → gives (ProcDataReceive b o id m) (λ r, bus_ok r.1 held).
Proof.
  intros H. unfold ProcDataReceive. case_decide; [|by apply gives_ret].
  destruct (attributes_ m) as [request|]; [|by apply gives_ret].
  destruct (objects b !! o) as [s|] eqn:Ho; [|by apply gives_ret]. destruct (isAck_ m).
  - destruct (GetMsgCallback s (messageSeq_ m)); [|by apply gives_ret]. apply gives_skip. intros _. apply gives_skip. intros _.
    apply gives_ret. by eapply ok_put.
  - apply gives_skip. intros ok. case_decide; [|by apply gives_ret]. apply gives_skip. intros response.
    apply gives_skip. intros _. by apply gives_ret.
Qed.

Lemma ok_KeepAlive b held o : bus_ok b held → gives (RefreshKeepAliveTimer b o) (λ b', bus_ok b' held).
Proof.
  intros H. unfold RefreshKeepAliveTimer. destruct (objects b !! o) as [s|] eqn:Ho; [|by apply gives_ret].
  apply gives_skip. intros _. apply gives_skip. intros timer. apply gives_ret. by eapply ok_put.
Qed.

Lemma ok_client_send b held o n src dst a f : bus_ok b held →
  gives (ClientSocket_SendMessage b o n src dst a f) (λ r, bus_ok r.1 held).
Proof.
  intros H. unfold ClientSocket_SendMessage. destruct (objects b !! o); [|by apply gives_ret].
  case_decide; [by apply gives_ret|]. eapply gives_bind; [by apply ok_KeepAlive|]. intros b1 K1. by apply ok_SendRequest.
Qed.

Lemma ok_server_send b held o n src dst a f : bus_ok b held →
  gives (ServerSocket_SendMessage b o n src dst a f) (λ r, bus_ok r.1 held).
Proof.
  intros H. unfold ServerSocket_SendMessage. destruct (objects b !! o); [|by apply gives_ret].
  case_decide; [by apply gives_ret|]. by apply ok_SendRequest.
Qed.

Lemma ok_SendMessage b held n src dst a f : bus_ok b held → gives (SendMessage b n src dst a f) (λ r, bus_ok r.1 held).
Proof.
  intros H. unfold SendMessage. case_decide; [|by apply gives_ret]. destruct (GetServerSocket b); [|by apply gives_ret].
  eapply gives_bind; [by apply ok_server_send|]. intros [b1 ret] K1. case_decide; [by apply gives_ret|].
  destruct (FindClientSocket b1 n); [|by apply gives_ret]. eapply gives_bind; [by apply ok_client_send|].
  intros [b2 ret2] K2. by case_decide; apply gives_ret.
Qed.

Lemma ok_client_bytes b held o id data : bus_ok b held → gives (ClientSocket_OnBytes b o id data) (λ b', bus_ok b' held).
Proof.
  intros H. unfold ClientSocket_OnBytes. case_decide; [|by apply gives_ret]. destruct (objects b !! o); [|by apply gives_ret].
  case_decide; [by apply gives_ret|]. apply gives_skip. intros [m|]; [|by apply gives_ret].
  eapply gives_bind; [by apply ok_ProcDataReceive|]. intros [b1 r] K1. by apply gives_ret.
Qed.

Lemma alike_client s id n : alike s (AddClientConnection s id n).
Proof. unfold AddClientConnection. case_decide; [|done]. by destruct (clientConnectionMap_ s !! id). Qed.

Lemma ok_server_bytes b held o id data : bus_ok b held → gives (ServerSocket_OnBytes b o id data) (λ b', bus_ok b' held).
Proof.
  intros H. unfold ServerSocket_OnBytes. destruct (objects b !! o) as [s|] eqn:Ho; [|by apply gives_ret].
  case_decide; [by apply gives_ret|]. apply gives_skip. intros [m|]; [|by apply gives_ret].
  eapply gives_bind; [apply ok_ProcDataReceive|intros [b1 r] H1; by apply gives_ret].
  case_decide; [|done]. eapply ok_put; [done..|]. apply alike_client.
Qed.

Lemma alike_shut s id : alike s (DeleteClientConnection (DeleteServerSocket s id) id).
Proof. unfold DeleteClientConnection, DeleteServerSocket. by repeat case_decide. Qed.

Lemma ok_server_shut b held o id : bus_ok b held → gives (ServerSocket_OnShutdown b o id) (λ b', bus_ok b' held).
Proof.
  intros H. unfold ServerSocket_OnShutdown. destruct (objects b !! o) as [s|] eqn:Ho; [|by apply gives_ret].
  eapply (gives_bind _ _ (λ b', bus_ok b' held ∧ objects b' = objects b)).
  - case_decide; [by apply gives_ret|by apply ok_down].
  - intros b1 [H1 E]. apply gives_ret. eapply ok_put; [done|by rewrite E|]. apply alike_shut.
Qed.

Lemma ok_shut b held o id : bus_ok b held → gives (socket_OnShutdown b o id) (λ b', bus_ok b' held).
Proof.
  intros H. unfold socket_OnShutdown. destruct (objects b !! o) as [s|]; [|by apply gives_ret].
  destruct (isServer s); [by apply ok_server_shut|]. unfold ClientSocket_OnShutdown. case_decide; [|by apply gives_ret].
  eapply gives_mono; [by apply ok_down|]. by intros b1 [? _].
Qed.

(** A reference that is taken. *)
Lemma ok_hold b held o : bus_ok b held → bus_ok b (o :: held).
Proof.
  intros (H1 & H2 & H3 & H4). split; [done|]. split; [done|]. split; [done|]. intros o' s Hs.
  destruct (H4 _ _ Hs) as [[K|K] Hn]; (split; [|done]); [by left|right; by right].
Qed.

Lemma ok_OnShutdown b held id : bus_ok b held → gives (Manager_OnShutdown b id) (λ b', bus_ok b' held).
Proof.
  intros H. unfold Manager_OnShutdown. case_decide; [by apply gives_ret|].
  set (server := option_list (GetServerSocket b)).
  assert (∀ b', bus_ok b' (server ++ held) →
    gives (match GetServerSocket b with Some o => release b' o | None => mret b' end) (λ b', bus_ok b' held)) as Hend.
  { intros b' H'. unfold server in H'. destruct (GetServerSocket b); [by apply ok_release|by apply gives_ret]. }
  eapply (gives_bind _ _ (λ b', bus_ok b' (server ++ held))).
  { unfold server. destruct (GetServerSocket b); [by apply ok_server_shut, ok_hold|by apply gives_ret]. }
  intros b1 H1. eapply (gives_bind _ _ (λ b', bus_ok b' (server ++ held))); [|exact Hend].
  destruct (FindSocketBySocketId b1 id) as [o|]; [|by apply gives_ret].
  eapply gives_bind; [by apply (ok_shut _ (o :: server ++ held)), ok_hold|]. intros b2 H2.
  eapply gives_bind; [apply (ok_DeleteSocket _ _ (o :: server ++ held)); [set_solver|done]|]. intros b3 H3.
  eapply gives_bind; [apply (ok_DeleteConnection _ _ (o :: server ++ held)); [set_solver|done]|]. intros b4 H4.
  apply ok_drop; [set_solver|done].
Qed.

Lemma DeleteSocket_server b held id : gives (DeleteSocket b held id) (λ b', serverSocket_ b' = serverSocket_ b).
Proof.
  unfold DeleteSocket, drop_reference, release. case_decide; [|by apply gives_ret].
  destruct (socketMap_ b !! id) as [o|]; [|by apply gives_ret]. repeat (case_decide; [by apply gives_ret|]).
  simpl. destruct (objects b !! o); [apply gives_skip; intros _|]; by apply gives_ret.
Qed.

Lemma ok_Clear b o : bus_ok b [o] → serverSocket_ b = Some o → bus_ok (ClearServerSocket b) [o].
Proof.
  intros (H1 & H2 & H3 & H4) Ho. split; [done|]. split; [done|]. split; [done|]. intros o' s Hs.
  destruct (H4 _ _ Hs) as [[K|K] Hn]; (split; [|done]); [|by right]. apply referred_spec in K. rewrite Ho in K.
  destruct K as [[= ->]|K]; [right; by left|left]. apply referred_spec. by right.
Qed.

Lemma ok_UnInit b : bus_ok b [] → gives (ServiceSocketUnInit b) (λ b', bus_ok b' []).
Proof.
  intros H. unfold ServiceSocketUnInit, GetServerSocket. destruct (serverSocket_ b) as [o|] eqn:Ho; [|by apply gives_ret].
  apply (ok_hold _ _ o) in H. eapply (gives_bind _ _ (λ b', bus_ok b' [o] ∧ serverSocket_ b' = serverSocket_ b)).
  { destruct (objects b !! o); [|by apply gives_ret]. apply gives_and; [by apply ok_DeleteSocket|apply DeleteSocket_server]. }
  intros b1 [H1 E]. rewrite Ho in E. eapply (gives_bind _ _ (λ b', bus_ok b' [o])); [|intros b2 H2; by apply (ok_release _ [])].
  apply gives_for_each; [by apply ok_Clear|intros b2 id _; apply ok_OnShutdown].
Qed.

Lemma ok_open b n tokenId networkId : bus_ok b [] → gives (DoOpenConnection b n tokenId networkId) (λ b', bus_ok b' []).
Proof.
  intros H. unfold DoOpenConnection. eapply (gives_bind _ _ (λ r, bus_ok r.1 [])).
  - unfold DoOpenConnectionInner. apply gives_skip. intros _. apply gives_skip. intros id. case_decide; [by apply gives_ret|].
    unfold CreateClientSocket.
    eapply (gives_bind _ _ (λ r, match r.2 with
      | None => bus_ok r.1 []
      | Some o => bus_ok r.1 [o] ∧ ∃ s, objects r.1 !! o = Some s ∧ socketId_ s = id ∧ isServer s = false ∧ sock_connectionName_ s = n
      end)).
    { apply gives_skip. intros ok. case_decide; [|by apply gives_ret].
      destruct (new_object b _) as [b' o] eqn:E. apply gives_ret. simpl. destruct (ok_new _ _ _ _ _ H E). eauto 10. }
    intros [b1 [o|]] J1; simpl in J1; [|apply gives_skip; intros _; by apply gives_ret].
    destruct J1 as (J1 & s & Hs & K1 & K2 & K3). apply gives_skip. intros ret. case_decide.
    + assert (bus_ok (AddSocket (AddConnection b1 n o) id o) [o]) as K.
      { eapply ok_AddSocket; [by eapply ok_AddConnection| |done]. unfold AddConnection. by destruct (clientSocketMap_ b1 !! n). }
      eapply gives_bind; [by apply ok_release|]. intros b2 J2. by apply gives_ret.
    + eapply gives_bind; [by apply ok_release|]. intros b2 J2. apply gives_skip. intros _. by apply gives_ret.
  - intros [b1 ret] J1. case_decide; [apply gives_skip; intros _; by apply gives_ret|].
    eapply gives_mono; [by apply ok_down|]. by intros b2 [? _].
Qed.

Lemma ok_close b n : bus_ok b [] → gives (DoCloseConnection b n) (λ r, bus_ok r.1 []).
Proof.
  intros H. unfold DoCloseConnection. destruct (FindClientSocket b n) as [o|]; [|by apply gives_ret].
  destruct (objects b !! o) as [s|]; [|by apply gives_ret]. case_decide; [by apply gives_ret|].
  apply (ok_hold _ _ o) in H. eapply gives_bind; [by apply ok_down|]. intros b1 [J1 _].
  eapply gives_bind; [by apply ok_DeleteSocket|]. intros b2 J2. eapply gives_bind; [by apply ok_DeleteConnection|].
  intros b3 J3. eapply gives_bind; [by apply (ok_release _ [])|]. intros b4 J4. by apply gives_ret.
Qed.

Lemma ok_server_init b : bus_ok b [] → gives (DoServiceSocketInit b) (λ r, bus_ok r.1 []).
Proof.
  intros H. unfold DoServiceSocketInit. destruct (CheckAndCopyStr _ _) as [name|]; [|by apply gives_ret].
  destruct (CheckAndCopyStr _ _) as [pkg|]; [|by apply gives_ret]. apply gives_skip. intros id.
  case_decide; [by apply gives_ret|]. apply gives_skip. intros ret.
  case_decide; [|apply gives_skip; intros _; by apply gives_ret]. unfold CreateServerSocket.
  eapply (gives_bind _ _ (λ r, match r.2 with
    | None => bus_ok r.1 []
    | Some o => bus_ok r.1 [o] ∧ ∃ s, objects r.1 !! o = Some s ∧ socketId_ s = id ∧ isServer s = true
    end)).
  { apply gives_skip. intros ok. case_decide; [|by apply gives_ret].
    destruct (new_object b _) as [b' o] eqn:E. apply gives_ret. simpl. destruct (ok_new _ _ _ _ _ H E). eauto 10. }
  intros [b1 [o|]] J1; simpl in J1; [|apply gives_skip; intros _; by apply gives_ret].
  destruct J1 as (J1 & s & Hs & K1 & K2). eapply (gives_bind _ _ (λ b', bus_ok b' [])); [|intros b2 J2; by apply gives_ret].
  assert (objects (AddSocket b1 id o) !! o = Some s).
  { unfold AddSocket. case_decide; [|done]. by destruct (socketMap_ b1 !! id). }
  eapply ok_SetServer; [by eapply ok_AddSocket|done..].
Qed.

Lemma ok_server_task n b : bus_ok b [] → gives (service_socket_init n b) (λ b', bus_ok b' []).
Proof.
  revert b. induction n as [|n IH]; intros b H; simpl; [by apply gives_ret|].
  eapply gives_bind; [by apply ok_server_init|]. intros [b1 ret] J1. case_decide; [by apply gives_ret|].
  apply gives_skip. intros _. by apply IH.
Qed.

(** Start and stop only change what the manager listens to. *)
Lemma ok_start b held : bus_ok b held → gives (Manager_Start b) (λ b', bus_ok b' held).
Proof.
  intros H. unfold Manager_Start. case_decide; [by apply gives_ret|].
  eapply (gives_bind _ _ (λ r, bus_ok r.1 held)).
  { unfold RegistDeviceManagerListener. case_decide; [by apply gives_ret|]. apply gives_skip. intros ok.
    by case_decide; apply gives_ret. }
  intros [b1 ret] J1. case_decide; [|by apply gives_ret]. eapply (gives_bind _ _ (λ r, bus_ok r.1 held)).
  { unfold RegistSoftBusListener. case_decide; [by apply gives_ret|]. apply gives_skip. intros ok.
    by case_decide; apply gives_ret. }
  intros [b2 ret2] J2. by case_decide; apply gives_ret.
Qed.

Lemma ok_stop b held : bus_ok b held → gives (Manager_Stop b) (λ b', bus_ok b' held).
Proof.
  intros H. unfold Manager_Stop. case_decide; [by apply gives_ret|].
  eapply (gives_bind _ _ (λ r, bus_ok r.1 held)).
  { unfold UnRegistDeviceManagerListener. case_decide; [by apply gives_ret|]. apply gives_skip. intros ok.
    by case_decide; apply gives_ret. }
  intros [b1 ret] J1. case_decide; [|by apply gives_ret]. eapply (gives_bind _ _ (λ r, bus_ok r.1 held)).
  { unfold UnRegistSoftBusListener. case_decide; [by apply gives_ret|]. apply gives_skip. intros ok.
    by case_decide; apply gives_ret. }
  intros [b2 ret2] J2. by case_decide; apply gives_ret.
Qed.

(** What happens to the bus, from its tasks, its timers, the soft bus, the
    system and the components that use it. *)
Inductive happening :=
  | HStart
  | HStop
  | HServiceUp
  | HServiceDown
  | HOpen (connectionName : bytes) (tokenId : Z) (networkId : bytes)
  | HClose (connectionName : bytes)
  | HSend (connectionName srcEndPoint destEndPoint : bytes) (attributes : option Attributes) (callback : option Z)
  | HRegister (connectionName endPointName : bytes) (listener : Z)
  | HUnregister (connectionName endPointName : bytes)
  | HConnectionDown (connectionName : bytes)
  | HBind (socketId : Z) (info : PeerSocketInfo)
  | HShutdown (socketId : Z)
  | HClientBytes (socketId : Z) (data : bytes)
  | HServerBytes (socketId : Z) (data : bytes)
  | HReplyTimer (object messageSeq : Z)
  | HKeepAliveTimer (object : Z).

Definition happens b (h : happening) : busk Bus :=
  match h with
  | HStart => Manager_Start b
  | HStop => Manager_Stop b
  | HServiceUp => service_socket_task b
  | HServiceDown => ServiceSocketUnInit b
  | HOpen n tokenId networkId => DoOpenConnection b n tokenId networkId
  | HClose n => '(b, _) ← DoCloseConnection b n; mret b
  | HSend n src dst a f => '(b, _) ← SendMessage b n src dst a f; mret b
  | HRegister n e x => mret (RegisterConnectionListener b n e x).1
  | HUnregister n e => mret (UnregisterConnectionListener b n e).1
  | HConnectionDown n => connection_down b n
  | HBind id info => mret (OnBind b id info)
  | HShutdown id => OnShutdown b id
  | HClientBytes id data => OnClientBytes b id data
  | HServerBytes id data => OnServerBytes b id data
  | HReplyTimer o seq => ReplyTimerTimeOut b o seq
  | HKeepAliveTimer o => SendKeepAliveMessage b o
  end.

Lemma ok_happens b h : bus_ok b [] → gives (happens b h) (λ b', bus_ok b' []).
Proof.
  intros H. destruct h; simpl.
  - by apply ok_start.
  - by apply ok_stop.
  - by apply ok_server_task.
  - by apply ok_UnInit.
  - by apply ok_open.
  - eapply gives_bind; [by apply ok_close|]. intros [b1 r] J. by apply gives_ret.
  - eapply gives_bind; [by apply ok_SendMessage|]. intros [b1 r] J. by apply gives_ret.
  - apply gives_ret. unfold RegisterConnectionListener. destruct (RegisterListener _ _ _ _). by eapply bus_ok_same.
  - apply gives_ret. unfold UnregisterConnectionListener. destruct (UnregisterListener _ _ _). by eapply bus_ok_same.
  - eapply gives_mono; [by apply ok_down|]. by intros b1 [? _].
  - apply gives_ret. unfold OnBind, Manager_OnBind. case_decide; [done|]. case_decide; [|done].
    destruct (GetServerSocket b) as [o|]; [|done]. destruct (objects b !! o) as [s|] eqn:Ho; [|done].
    eapply ok_put; [done..|]. unfold ServerSocket_OnBind, AddServerSocket. case_decide; [done|].
    destruct (peer_networkId info); [|done]. by case_decide.
  - unfold OnShutdown. case_decide; [by apply gives_ret|by apply ok_OnShutdown].
  - unfold OnClientBytes, Manager_OnClientBytes. do 3 (case_decide; [by apply gives_ret|]).
    destruct (GetServerSocket b); [by apply ok_server_bytes|by apply gives_ret].
  - unfold OnServerBytes, Manager_OnServerBytes. do 3 (case_decide; [by apply gives_ret|]).
    destruct (FindSocketBySocketId b socketId) as [o|]; [|by apply gives_ret].
    destruct (objects b !! o) as [s|]; [|by apply gives_ret].
    destruct (isServer s); [by apply ok_server_bytes|by apply ok_client_bytes].
  - by apply ok_TimeOut.
  - unfold SendKeepAliveMessage. destruct (objects b !! object) as [s|]; [|by apply gives_ret].
    apply gives_skip. intros ok. case_decide; [|by apply gives_ret]. destruct (SetInt32Value _ _ _) as [request set].
    case_decide; [|by apply gives_ret]. eapply gives_bind; [by apply ok_SendMessage|]. intros [b1 ret] J.
    case_decide; [by apply gives_ret|]. apply gives_skip. intros handler.
    case_decide; [|by apply gives_ret]. apply gives_skip. intros _. by apply gives_ret.
Qed.

Lemma ok_new_bus : bus_ok Bus_new [].
Proof.
  unfold bus_ok, server_ok, sockets_ok, connections_ok, objects_ok, Bus_new. simpl.
  repeat split; intros *; rewrite ?lookup_empty; done.
Qed.

(** C21: The maps of the soft bus manager and its sockets. Whatever the soft
    bus, the system, other devices, timers and the components do, in whatever
    order and with whatever failures: the server socket is a live server
    object; every socket id and every connection leads to a live object that
    has this id or this name; and every live object is referred to by a map, so
    no socket stays open that nothing can reach. *)
Theorem bus_well_formed (l : list happening) (o : env bus_answer) :
  let b := (run o (for_each happens Bus_new l) []).1 in
  (∀ x, serverSocket_ b = Some x → ∃ s, objects b !! x = Some s ∧ isServer s = true) ∧
  (∀ id x, socketMap_ b !! id = Some x → ∃ s, objects b !! x = Some s ∧ socketId_ s = id) ∧
  (∀ n x, clientSocketMap_ b !! n = Some x → ∃ s, objects b !! x = Some s ∧ isServer s = false ∧ sock_connectionName_ s = n) ∧
  (∀ x s, objects b !! x = Some s → referred b x = true).
Proof.
  assert (bus_ok (run o (for_each happens Bus_new l) []).1 []) as (H1 & H2 & H3 & H4).
  { apply (gives_run o _ (λ b, bus_ok b [])). apply gives_for_each; [apply ok_new_bus|]. intros b h _. apply ok_happens. }
  repeat split; [done..|]. intros x s Hs. by destruct (H4 x s Hs) as [[K|K%elem_of_nil] _].
Qed.
