(* ===== verification/SoftBusTalk.v ===== *)
(** * Messages over the soft bus, there and back

    Two devices: the bus [bA] of the one that opened a connection and the bus
    [bB] of the other. [request_reply_roundtrip] follows a request and its
    reply; [reply_of_another_device] and [early_reply_lost] are about replies
    that do not come as expected. *)

From S2P Require Import Prelude Defines Interaction ServiceTypes AttributesImpl Attributes RemoteMsg RemoteMsgThm.
From S2P Require Import ListenerManager SoftBus.

(** ** Runs in a given environment *)

Section Plays.
Context (o : env bus_answer).

(** [m] appends a trace that satisfies [P] with the result. *)
Definition plays {A} (m : busk A) (P : A → bus_trace → Prop) : Prop :=
  ∀ t, ∃ a u, run o m t = (a, t ++ u) ∧ P a u.

Lemma plays_ret {A} (a : A) (P : A → bus_trace → Prop) : P a [] → plays (mret a) P.
Proof. intros H t. exists a, []. by rewrite app_nil_r. Qed.
Lemma plays_call q (P : bus_answer q → bus_trace → Prop) :
  (∀ t, P (o t q) [existT q (o t q)]) → plays (call q) P.
Proof. intros H t. exists (o t q), [existT q (o t q)]. auto. Qed.
Lemma plays_bind {A B} (m : busk A) (k : A → busk B) (P : A → bus_trace → Prop) P' :
  plays m P → (∀ a u, P a u → plays (k a) (λ b v, P' b (u ++ v))) → plays (m ≫= k) P'.
Proof.
  intros Hm Hk t. destruct (Hm t) as (a & u & E & Ha). destruct (Hk a u Ha (t ++ u)) as (b & v & E' & Hb).
  exists b, (u ++ v). rewrite run_bind, E, E', app_assoc. auto.
Qed.
Lemma plays_mono {A} (m : busk A) (P P' : A → bus_trace → Prop) : plays m P → (∀ a u, P a u → P' a u) → plays m P'.
Proof. intros Hm H t. destruct (Hm t) as (a & u & E & Ha). eauto. Qed.
Lemma plays_nil {A} (m : busk A) (P : A → bus_trace → Prop) :
  plays m P → ∃ a u, run o m [] = (a, u) ∧ P a u.
Proof. intros H. destruct (H []) as (a & u & E & Ha). eauto. Qed.
End Plays.

(** ** What is said *)

Inductive said :=
  | Sent (socketId : Z) (data : bytes)
  | Heard (listener : Z) (connectionName destEndPoint : bytes) (request : Attributes)
  | Replied (callback : Z) (reply : Attributes)
  | Told (listener : Z) (status : ConnectStatus).

Definition said_by (e : event bus_answer) : option said :=
  match asked e with
  | SbSendBytes socketId data => Some (Sent socketId data)
  | ListenerMessage x name endPoint request _ => Some (Heard x name endPoint request)
  | MsgReply f reply => Some (Replied f reply)
  | ListenerStatus x _ status => Some (Told x status)
  | _ => None
  end.
Definition talk (u : bus_trace) : list said := omap said_by u.

Lemma talk_app u v : talk (u ++ v) = talk u ++ talk v.
Proof. apply omap_app. Qed.

(** The environment of a device where nothing fails. *)
Record obliging (o : env bus_answer) (udid : bytes) : Prop := mkObliging {
  can_alloc : ∀ t what, o t (Alloc what) = true;
  has_udid : ∀ t, o t LocalUdid = Some udid;
  can_send : ∀ t id data, o t (SbSendBytes id data) = SUCCESS;
  can_time : ∀ t x seq ms, o t (StartReply x seq ms) ≠ INVALID_TIMER_ID;
}.

(** What the other device gets out of a message of the device [udid]. *)
Definition received_store (udid : bytes) (m : SoftBusMessage) (ack : bool) (payload : Impl) (networkId : bytes) : Impl :=
  <[ATTR_COLLECTOR_NETWORK_ID := encoded EncodeStringValue networkId]> (message_store m ack payload udid).
Definition received_message (udid : bytes) (m : SoftBusMessage) (ack : bool) (payload : Impl) (networkId : bytes) :
    SoftBusMessage :=
  mkMessage (messageSeq_ m) DEFAULT_MESSAGE_VERSION (connectionName_ m) (srcEndPoint_ m) (destEndPoint_ m)
    (Some (Some (received_store udid m ack payload networkId))) ack.

Lemma room_store m ack payload udid : room 8 payload → room 1 (message_store m ack payload udid).
Proof. intros H. unfold message_store. by repeat apply room_insert. Qed.

Section Device.
Context (o : env bus_answer) (udid : bytes) (Hob : obliging o udid).

(** [m] gives [a] and says [ts]. *)
Definition says {A} (m : busk A) (a : A) (ts : list said) : Prop := plays o m (λ r u, r = a ∧ talk u = ts).

Lemma says_ret {A} (a : A) : says (mret a) a [].
Proof. by apply plays_ret. Qed.
Lemma says_bind {A B} (m : busk A) (k : A → busk B) a ts b ts' :
  says m a ts → says (k a) b ts' → says (m ≫= k) b (ts ++ ts').
Proof.
  intros Hm Hk. eapply plays_bind; [exact Hm|]. intros a' u [-> Hu]. eapply plays_mono; [exact Hk|].
  intros b' v [-> Hv]. by rewrite talk_app, Hu, Hv.
Qed.
(** The first part is not heard. *)
Lemma says_quiet {A B} (m : busk A) (k : A → busk B) a b ts : says m a [] → says (k a) b ts → says (m ≫= k) b ts.
Proof. apply says_bind. Qed.
Lemma says_last {A B} (m : busk A) (k : A → busk B) a b ts : says m a ts → says (k a) b [] → says (m ≫= k) b ts.
Proof. intros Hm Hk. rewrite <- (app_nil_r ts). by eapply says_bind. Qed.
Lemma says_call q a ts : (∀ t, o t q = a) → option_list (said_by (existT q a)) = ts → says (call q) a ts.
Proof. intros Hq Hs. apply plays_call. intros t. rewrite Hq. split; [done|]. rewrite <- Hs. unfold talk. simpl. by destruct (said_by _). Qed.

Lemma says_alloc what : says (call (Alloc what)) true [].
Proof using Hob. by apply (says_call (Alloc what)); [intros t; apply (can_alloc _ _ Hob)|]. Qed.
Lemma says_send id data : says (call (SbSendBytes id data)) SUCCESS [Sent id data].
Proof using Hob. by apply (says_call (SbSendBytes id data)); [intros t; apply (can_send _ _ Hob)|]. Qed.

Lemma says_create m isAck payload : message_ok m payload udid →
  says (create_message m isAck) (Some (Some (message_store m isAck payload udid))) [].
Proof using Hob.
  intros Hm. unfold create_message. pose proof Hm as (-> & _). eapply says_quiet; [apply says_alloc|].
  eapply says_quiet; [by apply (says_call LocalUdid (Some udid)); [intros t; apply (has_udid _ _ Hob)|]|].
  rewrite (RemoteMsgThm.create_message m isAck payload udid Hm). apply says_ret.
Qed.

(** ** Requests *)

Definition request_message (seq : Z) (info : ConnectionInfo) : SoftBusMessage :=
  SoftBusMessage_new seq (cn_connectionName info) (cn_srcEndPoint info) (cn_destEndPoint info) (cn_attributes info).

Lemma says_send_request b info payload seq :
  seq = wrapU 32 (g_messageSeq b + 1) →
  message_ok (request_message seq info) payload udid → cn_socketId info ≠ INVALID_SOCKET_ID →
  says (send_request b info) (set_seq b seq, SUCCESS, seq)
    [Sent (cn_socketId info) (Serialize (Some (message_store (request_message seq info) false payload udid)))].
Proof using Hob.
  intros -> Hm Hid. unfold send_request. pose proof Hm as (Ha & _). simpl in Ha. rewrite decide_True by (by rewrite Ha).
  rewrite decide_True by done. unfold GetMessageSeq. cbv zeta beta iota. eapply says_quiet; [apply says_alloc|].
  rewrite decide_True by done. eapply says_quiet; [by apply says_create|]. eapply says_last; [apply says_send|].
  rewrite decide_True by done. apply says_ret.
Qed.

Lemma says_parse peer m ack payload networkId : message_ok m payload peer → room 8 payload → short_text networkId →
  says (parse_received networkId (Serialize (Some (message_store m ack payload peer))))
    (Some (received_message peer m ack payload networkId)) [].
Proof using Hob.
  intros Hm Hr Hn. unfold parse_received. rewrite decide_True by apply serialize_message_ne.
  eapply says_quiet; [apply says_alloc|]. rewrite decide_True by done. eapply says_quiet; [apply says_alloc|].
  unfold ParseMessage. rewrite decide_False by apply serialize_message_ne. rewrite decide_True by done.
  rewrite received by (by apply sendable_message). rewrite read_message by done. rewrite decide_True by done.
  unfold SetDeviceNetworkId. erewrite set_string; [|by apply room_store|by apply short_text_le].
  cbv beta iota. rewrite decide_True by done. apply says_ret.
Qed.

Lemma says_response id name src dst seq payload :
  let m := SoftBusMessage_new seq name src dst (Some (Some payload)) in
  message_ok m payload udid → id ≠ INVALID_SOCKET_ID →
  says (SendResponse id name src dst (Some (Some payload)) seq) SUCCESS
    [Sent id (Serialize (Some (message_store m true payload udid)))].
Proof using Hob.
  intros m Hm Hid. unfold SendResponse. rewrite decide_True by done. rewrite decide_True by done.
  eapply says_quiet; [apply says_alloc|]. rewrite decide_True by done. eapply says_quiet; [by apply says_create|].
  eapply says_last; [apply says_send|]. rewrite decide_True by done. apply says_ret.
Qed.

(** What a listener finds in the reply before it fills it in. *)
Definition blank_reply : Impl := <[ATTR_RESULT_CODE := encoded EncodeInt32Value GENERAL_ERROR]> ∅.

Lemma set_blank : SetInt32Value Attributes_new ATTR_RESULT_CODE GENERAL_ERROR = (Some blank_reply, true).
Proof using Type. by apply (set_i32 0 ∅ ATTR_RESULT_CODE). Qed.

(** A request is handed to the listener of its end point, and the reply sent. *)
Lemma says_request peer b x s id m payload networkId l reply :
  objects b !! x = Some s → id ≠ INVALID_SOCKET_ID →
  FindListener (listeners_ b) (connectionName_ m) (destEndPoint_ m) = Some l →
  (∀ t request, o t (ListenerMessage l (connectionName_ m) (destEndPoint_ m) request (Some blank_reply)) = Some reply) →
  message_ok (SoftBusMessage_new (messageSeq_ m) (connectionName_ m) (destEndPoint_ m) (srcEndPoint_ m) (Some (Some reply)))
    reply udid →
  says (ProcDataReceive b x id (received_message peer m false payload networkId)) (b, SUCCESS)
    [Heard l (connectionName_ m) (destEndPoint_ m) (Some (received_store peer m false payload networkId));
     Sent id (Serialize (Some (message_store (SoftBusMessage_new (messageSeq_ m) (connectionName_ m) (destEndPoint_ m)
       (srcEndPoint_ m) (Some (Some reply))) true reply udid)))].
Proof using Hob.
  intros Hx Hid Hl Ho Hm. unfold ProcDataReceive. rewrite decide_True by done. simpl. rewrite Hx.
  eapply says_quiet; [apply says_alloc|]. rewrite decide_True by done.
  change ([Heard ?a ?b ?c ?d; ?e]) with ([Heard a b c d] ++ [e]). eapply says_bind.
  - unfold ProcessMessage. rewrite set_blank. cbv beta iota zeta. rewrite decide_True by done.
    rewrite decide_False by (intros Hv; by apply Hv). simpl. rewrite Hl.
    by apply (says_call (ListenerMessage _ _ _ _ _)).
  - eapply says_last; [by apply says_response|apply says_ret].
Qed.

(** A reply is handed to the callback of its number, whoever sent it. *)
Lemma plays_reply b x s id m ci request :
  objects b !! x = Some s → id ≠ INVALID_SOCKET_ID → isAck_ m = true → attributes_ m = Some request →
  callbackMap_ s !! messageSeq_ m = Some ci →
  says (ProcDataReceive b x id m) (put b x (RemoveMsgCallback s (messageSeq_ m)), SUCCESS) [Replied (msgCallback ci) request].
Proof using Type.
  intros Hx Hid Ha Hr Hc. unfold ProcDataReceive. rewrite decide_True by done. rewrite Hr, Hx, Ha.
  unfold GetMsgCallback. rewrite Hc. simpl. eapply says_last; [by apply (says_call (MsgReply _ _) tt); [intros t; by destruct (o t _)|]|].
  eapply says_quiet; [|apply says_ret]. unfold StopReplyTimer. case_decide; [apply says_ret|].
  apply (says_call (StopTimer _) tt); [intros t; by destruct (o t _)|done].
Qed.
End Device.

(** ** There and back *)

(** The device that opened the connection [name]: [x] is its client socket
    object, and no other device uses the name on its server socket. *)
Record opened (b : Bus) (name networkId : bytes) (x : Z) (s : BusSocket) : Prop := mkOpened {
  op_connection : clientSocketMap_ b !! name = Some x;
  op_object : objects b !! x = Some s;
  op_client : isServer s = false;
  op_id : INVALID_SOCKET_ID < socketId_ s;
  op_socket : socketMap_ b !! socketId_ s = Some x;
  op_network : networkId_ s = networkId ∧ networkId ≠ [] ∧ short_text networkId;
  op_server : ∃ srv ss, serverSocket_ b = Some srv ∧ objects b !! srv = Some ss ∧
    ∀ id, clientConnectionMap_ ss !! id ≠ Some name;
  op_fresh : callbackMap_ s !! wrapU 32 (g_messageSeq b + 1) = None;
}.

(** The other device: [id] is bound on its server socket. *)
Record accepts (b : Bus) (id : Z) (networkId : bytes) (x : Z) (s : BusSocket) : Prop := mkAccepts {
  ac_server : serverSocket_ b = Some x;
  ac_object : objects b !! x = Some s;
  ac_id : INVALID_SOCKET_ID < id;
  ac_bound : serverSocketBindMap_ s !! id = Some networkId ∧ networkId ≠ [] ∧ short_text networkId;
}.

Lemma no_such_client s name : (∀ id, clientConnectionMap_ s !! id ≠ Some name) →
  GetSocketIdByClientConnectionName s name = INVALID_SOCKET_ID.
Proof.
  intros H. unfold GetSocketIdByClientConnectionName. destruct (list_find _ _) as [[i id]|] eqn:E; [|done].
  apply list_find_Some in E as (_ & E & _). by apply H in E.
Qed.

Lemma put_objects b x s y : objects (put b x s) !! y = <[x := s]> (objects b) !! y.
Proof. done. Qed.

Section There.
Context (o : env bus_answer) (udid : bytes) (Hob : obliging o udid).

(** A message is sent over the client socket, and its callback waits. *)
Definition waits (b b' : Bus) (s : BusSocket) (x seq : Z) (name : bytes) (f : Z) : Prop :=
  socketMap_ b' = socketMap_ b ∧ listeners_ b' = listeners_ b ∧
  ∃ s' timer, objects b' !! x = Some s' ∧ isServer s' = isServer s ∧ networkId_ s' = networkId_ s ∧
    callbackMap_ s' !! seq = Some (mkCallbackInfo name f timer).

Lemma plays_await b x s info seq f : objects b !! x = Some s → callbackMap_ s !! seq = None → cn_callback info = Some f →
  plays o (await_reply b x info seq) (λ r u, r.2 = SUCCESS ∧ talk u = [] ∧ waits b r.1 s x seq (cn_connectionName info) f).
Proof using Hob.
  intros Hx Hs Hf. unfold await_reply. rewrite Hx. unfold StartReplyTimer, GetReplyTimer. rewrite Hs.
  rewrite decide_False by (intros Hn; by apply Hn). apply (plays_bind o _ _ (λ r z, talk z = [] ∧ r ≠ INVALID_TIMER_ID)).
  { apply (plays_call o (StartReply x seq REPLY_TIMER_LEN_MS)). intros t. split; [done|]. apply (can_time _ _ Hob). }
  intros timer z [Hz Ht]. rewrite decide_False by done. apply plays_ret. rewrite app_nil_r. split; [done|]. split; [done|].
  split; [done|]. split; [done|]. eexists _, timer. split; [apply lookup_insert_eq|]. unfold InsertMsgCallback.
  rewrite Hf, Hs. simpl. by rewrite lookup_insert_eq.
Qed.

Lemma plays_client_send b name x s src dst payload f :
  let seq := wrapU 32 (g_messageSeq b + 1) in
  let m := SoftBusMessage_new seq name src dst (Some (Some payload)) in
  objects b !! x = Some s → INVALID_SOCKET_ID < socketId_ s → callbackMap_ s !! seq = None → message_ok m payload udid →
  plays o (ClientSocket_SendMessage b x name src dst (Some (Some payload)) (Some f)) (λ r u, r.2 = SUCCESS ∧
    talk u = [Sent (socketId_ s) (Serialize (Some (message_store m false payload udid)))] ∧ waits b r.1 s x seq name f).
Proof using Hob.
  intros seq m Hx Hid Hs Hm. unfold ClientSocket_SendMessage, RefreshKeepAliveTimer, GetSocketId. rewrite Hx.
  rewrite decide_False by (unfold INVALID_SOCKET_ID in *; lia).
  apply (plays_bind o _ _ (λ r v, talk v = [] ∧ ∃ timer, r = put b x (set_keep_alive s (Some timer)))).
  { apply (plays_bind o _ _ (λ _ v, talk v = [])).
    { destruct (keepAliveTimerId_ s); [by apply (plays_call o (StopTimer _))|by apply plays_ret]. }
    intros _ v Hv. apply (plays_bind o _ _ (λ _ v, talk v = [])); [by apply (plays_call o (StartKeepAlive _ _))|].
    intros timer v' Hv'. apply plays_ret. rewrite app_nil_r, talk_app, Hv, Hv'. eauto. }
  intros b1 v (Hv & timer & ->). unfold SendRequest. eapply plays_bind.
  { apply (says_send_request o udid Hob _ _ payload seq); [done|exact Hm|]. simpl. unfold INVALID_SOCKET_ID in *. lia. }
  intros r w [-> Hw]. cbv beta iota. rewrite decide_True by done. eapply plays_mono.
  { apply (plays_await _ x (set_keep_alive s (Some timer)) _ _ f); [apply lookup_insert_eq|done|done]. }
  intros [b2 r] z (E & Hz & Hw1 & Hw2 & s' & Hw3). rewrite !talk_app, Hv, Hw, Hz. split; [exact E|]. split; [done|].
  split; [exact Hw1|]. split; [exact Hw2|]. by exists s'.
Qed.

Lemma plays_SendMessage b name networkId x s src dst payload f :
  let seq := wrapU 32 (g_messageSeq b + 1) in
  let m := SoftBusMessage_new seq name src dst (Some (Some payload)) in
  opened b name networkId x s → message_ok m payload udid →
  plays o (SendMessage b name src dst (Some (Some payload)) (Some f)) (λ r u, r.2 = SUCCESS ∧
    talk u = [Sent (socketId_ s) (Serialize (Some (message_store m false payload udid)))] ∧ waits b r.1 s x seq name f).
Proof using Hob.
  intros seq m [H1 H2 H3 H4 H5 _ (srv & ss & K1 & K2 & K3) H9] Hm. unfold SendMessage.
  rewrite decide_True by done. unfold GetServerSocket. rewrite K1. unfold ServerSocket_SendMessage. rewrite K2.
  rewrite decide_True by (by apply no_such_client).
  eapply plays_bind; [apply (says_ret o)|]. intros r u [-> Hu]. rewrite decide_False by done.
  unfold FindClientSocket. rewrite H1. eapply plays_bind; [by apply plays_client_send|].
  intros [b1 ret] v (E & Hv & Hw). simpl in E. subst ret. rewrite decide_True by done. apply plays_ret. rewrite app_nil_r, talk_app, Hu, Hv. done.
Qed.

(** The other device hands it to the listener and replies. *)
Lemma plays_OnClientBytes peer b id networkId x s m payload l reply :
  let m' := SoftBusMessage_new (messageSeq_ m) (connectionName_ m) (destEndPoint_ m) (srcEndPoint_ m) (Some (Some reply)) in
  let data := Serialize (Some (message_store m false payload peer)) in
  accepts b id networkId x s → message_ok m payload peer → room 8 payload →
  Z.of_nat (length data) ≤ MAX_DATA_LEN → FindListener (listeners_ b) (connectionName_ m) (destEndPoint_ m) = Some l →
  (∀ t request, o t (ListenerMessage l (connectionName_ m) (destEndPoint_ m) request (Some blank_reply)) = Some reply) →
  message_ok m' reply udid →
  plays o (OnClientBytes b id data) (λ _ u,
    talk u = [Heard l (connectionName_ m) (destEndPoint_ m) (Some (received_store peer m false payload networkId));
              Sent id (Serialize (Some (message_store m' true reply udid)))]).
Proof using Hob.
  intros m' data [H1 H2 H3 (H4 & H5 & H6)] Hm Hr Hlen Hl Ho Hm'. unfold OnClientBytes, Manager_OnClientBytes, within.
  unfold INVALID_SOCKET_ID in *. rewrite decide_False by lia. rewrite decide_False by lia.
  rewrite decide_False; cycle 1.
  { intros [?|Hw]; [lia|]. apply bool_decide_eq_false in Hw. apply Hw. split; [apply serialize_message_ne|].
    unfold MAX_DATA_LEN, MAX_ONBYTES_RECEIVED_DATA_LEN in *. lia. }
  unfold GetServerSocket. rewrite H1. unfold ServerSocket_OnBytes. rewrite H2.
  assert (GetNetworkIdBySocketId s id = networkId) as ->.
  { unfold GetNetworkIdBySocketId, INVALID_SOCKET_ID. rewrite decide_True by lia. by rewrite H4. }
  rewrite decide_False by done.
  eapply plays_bind; [by apply (says_parse o udid Hob)|]. intros r u [-> Hu].
  set (b' := if decide _ then _ else b).
  assert (∃ s', objects b' !! x = Some s') as [s' Hs'].
  { subst b'. case_decide; [|eauto]. eexists. apply lookup_insert_eq. }
  assert (listeners_ b' = listeners_ b) as El by (subst b'; by case_decide).
  eapply plays_bind.
  { apply (says_request o udid Hob peer b' x s' id m payload networkId l reply); [done|unfold INVALID_SOCKET_ID; lia|by rewrite El|done|done]. }
  intros [b2 r] v [_ Hv]. apply plays_ret. by rewrite app_nil_r, talk_app, Hu, Hv.
Qed.

(** The reply reaches the callback that waits. *)
Lemma plays_OnServerBytes peer b id networkId x s m payload f :
  let data := Serialize (Some (message_store m true payload peer)) in
  INVALID_SOCKET_ID < id → socketMap_ b !! id = Some x → objects b !! x = Some s → isServer s = false →
  networkId_ s = networkId → networkId ≠ [] → short_text networkId →
  msgCallback <$> callbackMap_ s !! messageSeq_ m = Some f →
  message_ok m payload peer → room 8 payload → Z.of_nat (length data) ≤ MAX_DATA_LEN →
  plays o (OnServerBytes b id data) (λ b' u,
    talk u = [Replied f (Some (received_store peer m true payload networkId))] ∧
    callbackMap_ <$> objects b' !! x = Some (delete (messageSeq_ m) (callbackMap_ s))).
Proof using Hob.
  intros data Hid Hx Hs Hc Hn1 Hn2 Hn3 Hf Hm Hr Hlen. unfold OnServerBytes, Manager_OnServerBytes, within, FindSocketBySocketId.
  unfold INVALID_SOCKET_ID in *. rewrite decide_False by lia. rewrite decide_False by lia.
  rewrite decide_False; cycle 1.
  { intros [?|Hw]; [lia|]. apply bool_decide_eq_false in Hw. apply Hw. split; [apply serialize_message_ne|].
    unfold MAX_DATA_LEN, MAX_ONBYTES_RECEIVED_DATA_LEN in *. lia. }
  rewrite decide_True by lia. rewrite Hx, Hs, Hc. unfold ClientSocket_OnBytes, GetNetworkId.
  rewrite decide_True by apply serialize_message_ne. rewrite Hs, Hc, Hn1. rewrite decide_False by done.
  eapply plays_bind; [by apply (says_parse o udid Hob)|]. intros r u [-> Hu].
  destruct (callbackMap_ s !! messageSeq_ m) as [ci|] eqn:Hci; [|done]. injection Hf as <-.
  eapply plays_bind.
  { apply (plays_reply o b x s id (received_message peer m true payload networkId) ci
      (Some (received_store peer m true payload networkId))); [done|unfold INVALID_SOCKET_ID; lia|done..]. }
  intros [b2 r] v [[= -> ->] Hv]. apply plays_ret. rewrite app_nil_r, talk_app, Hu, Hv. split; [done|]. simpl.
  by rewrite lookup_insert_eq.
Qed.
End There.

Lemma wrap_wrap z : wrapU 32 (wrapU 32 z) = wrapU 32 z.
Proof. apply wrapU_id, wrapU_in_u. lia. Qed.

Lemma received_payload udid m ack payload networkId k : k ∉ ATTR_COLLECTOR_NETWORK_ID :: header_keys →
  received_store udid m ack payload networkId !! k = payload !! k.
Proof.
  intros [H1 H2]%not_elem_of_cons. unfold received_store. rewrite lookup_insert_ne by done. by apply message_payload.
Qed.

(** Messages that are too long are dropped without a word. *)
Lemma too_long o b id data : MAX_DATA_LEN < Z.of_nat (length data) → run o (OnClientBytes b id data) [] = (b, []).
Proof. intros H. unfold OnClientBytes. case_decide; [done|]. by rewrite decide_True. Qed.

(** What two attributes stores have in common, but for the header. *)
Definition same_payload (m m' : Impl) : Prop := ∀ k, k ∉ ATTR_COLLECTOR_NETWORK_ID :: header_keys → m !! k = m' !! k.

(** C22: A request over the soft bus and its reply. When nothing fails, a
    message that is sent over a connection this device opened reaches the
    listener of its end point on the other device with its attributes and the
    network id of the sender, exactly once; what the listener replies reaches the
    callback of the message with the reply's attributes, exactly once, and the
    callback waits no longer. A message of more than MAX_DATA_LEN bytes is sent
    with success, but the other device drops it without a word. *)
Theorem request_reply_roundtrip oA oB udidA udidB bA bB name netA netB x s idB xB sB src dst payload l reply f :
  let m := SoftBusMessage_new (wrapU 32 (g_messageSeq bA + 1)) name src dst (Some (Some payload)) in
  let m' := SoftBusMessage_new (messageSeq_ m) name dst src (Some (Some reply)) in
  obliging oA udidA → obliging oB udidB → opened bA name netB x s → accepts bB idB netA xB sB →
  FindListener (listeners_ bB) name dst = Some l →
  (∀ t request, oB t (ListenerMessage l name dst request (Some blank_reply)) = Some reply) →
  message_ok m payload udidA → room 8 payload → message_ok m' reply udidB → room 8 reply →
  ∃ data data' request answer bA1 u1 bB1 u2 bA2 u3,
    run oA (SendMessage bA name src dst (Some (Some payload)) (Some f)) [] = ((bA1, SUCCESS), u1) ∧
    talk u1 = [Sent (socketId_ s) data] ∧
    run oB (OnClientBytes bB idB data) [] = (bB1, u2) ∧
    run oA (OnServerBytes bA1 (socketId_ s) data') [] = (bA2, u3) ∧
    (MAX_DATA_LEN < Z.of_nat (length data) → bB1 = bB ∧ u2 = []) ∧
    (Z.of_nat (length data) ≤ MAX_DATA_LEN →
      talk u2 = [Heard l name dst (Some request); Sent idB data'] ∧ same_payload request payload ∧
      GetStringValue (Some request) ATTR_COLLECTOR_NETWORK_ID = Some netA) ∧
    (Z.of_nat (length data') ≤ MAX_DATA_LEN →
      talk u3 = [Replied f (Some answer)] ∧ same_payload answer reply ∧
      ∃ s2, objects bA2 !! x = Some s2 ∧ callbackMap_ s2 !! messageSeq_ m = None).
Proof.
  intros m m' HA HB Ho Hac Hl Hr Hm Hroom Hm' Hroom'.
  destruct (plays_nil _ _ _ (plays_SendMessage oA udidA HA bA name netB x s src dst payload f Ho Hm))
    as ([bA1 r1] & u1 & E1 & Er & T1 & Es & _ & s' & timer & Hs' & Hc & Hn & Hw). simpl in Er, Es, Hs'. subst r1.
  pose (data := Serialize (Some (message_store m false payload udidA))).
  pose (data' := Serialize (Some (message_store m' true reply udidB))).
  destruct (run oB (OnClientBytes bB idB data) []) as [bB1 u2] eqn:E2.
  destruct (run oA (OnServerBytes bA1 (socketId_ s) data') []) as [bA2 u3] eqn:E3.
  exists data, data', (received_store udidA m false payload netA), (received_store udidB m' true reply netB),
    bA1, u1, bB1, u2, bA2, u3.
  split; [done|]. split; [exact T1|]. split; [done|]. split; [done|]. split; [|split].
  - intros Hlen. rewrite too_long in E2 by done. by injection E2 as <- <-.
  - intros Hlen. destruct (plays_nil _ _ _
      (plays_OnClientBytes oB udidB HB udidA bB idB netA xB sB m payload l reply Hac Hm Hroom Hlen Hl Hr Hm')) as (b2 & v & E & T). fold data in E. rewrite E2 in E. injection E as -> ->. split; [exact T|].
    split; [intros k Hk; by apply received_payload|]. destruct Hac as [_ _ _ (_ & _ & Hshort)].
    apply got_string; [by apply short_text_le|apply lookup_insert_eq].
  - intros Hlen. destruct Ho as [_ _ Hcl Hid Hsock (Hn1 & Hn2 & Hn3) _ _].
    assert (messageSeq_ m' = messageSeq_ m) as Eseq by apply wrap_wrap.
    assert (messageSeq_ m = wrapU 32 (g_messageSeq bA + 1)) as Eseq' by apply wrap_wrap.
    assert (socketMap_ bA1 !! socketId_ s = Some x) as Q1 by by rewrite Es.
    assert (networkId_ s' = netB) as Q2 by by rewrite Hn.
    assert (isServer s' = false) as Q3 by by rewrite Hc.
    assert (msgCallback <$> callbackMap_ s' !! messageSeq_ m' = Some f) as Q4 by by rewrite Eseq, Eseq', Hw.
    destruct (plays_nil _ _ _ (plays_OnServerBytes oA udidA HA udidB bA1 (socketId_ s) netB x s' m' reply f Hid Q1 Hs' Q3
      Q2 Hn2 Hn3 Q4 Hm' Hroom' Hlen)) as (b3 & v & E & T & Hd).
    fold data' in E. rewrite E3 in E. injection E as -> ->. split; [exact T|].
    split; [intros k Hk; by apply received_payload|]. destruct (objects b3 !! x) as [s2|] eqn:Hs2; [|done].
    exists s2. split; [done|]. injection Hd as Hd. rewrite Hd, <- Eseq. apply lookup_delete_eq.
Qed.

(** ** Replies that do not come as expected *)

Section Unexpected.
Context (o : env bus_answer) (udid : bytes) (Hob : obliging o udid).

Lemma plays_server_reply peer b id networkId x s m payload ci :
  let data := Serialize (Some (message_store m true payload peer)) in
  accepts b id networkId x s → callbackMap_ s !! messageSeq_ m = Some ci →
  message_ok m payload peer → room 8 payload → Z.of_nat (length data) ≤ MAX_DATA_LEN →
  plays o (OnClientBytes b id data) (λ _ u,
    talk u = [Replied (msgCallback ci) (Some (received_store peer m true payload networkId))]).
Proof using Hob.
  intros data [H1 H2 H3 (H4 & H5 & H6)] Hci Hm Hr Hlen. unfold OnClientBytes, Manager_OnClientBytes, within.
  unfold INVALID_SOCKET_ID in *. rewrite decide_False by lia. rewrite decide_False by lia.
  rewrite decide_False; cycle 1.
  { intros [?|Hw]; [lia|]. apply bool_decide_eq_false in Hw. apply Hw. split; [apply serialize_message_ne|].
    unfold MAX_DATA_LEN, MAX_ONBYTES_RECEIVED_DATA_LEN in *. lia. }
  unfold GetServerSocket. rewrite H1. unfold ServerSocket_OnBytes. rewrite H2.
  assert (GetNetworkIdBySocketId s id = networkId) as ->.
  { unfold GetNetworkIdBySocketId, INVALID_SOCKET_ID. rewrite decide_True by lia. by rewrite H4. }
  rewrite decide_False by done. eapply plays_bind; [by apply (says_parse o udid Hob)|]. intros r u [-> Hu].
  rewrite decide_False by (intros [? _]; done). eapply plays_bind.
  { apply (plays_reply o b x s id (received_message peer m true payload networkId) ci
      (Some (received_store peer m true payload networkId))); [done|unfold INVALID_SOCKET_ID; lia|done..]. }
  intros [b2 r] v [_ Hv]. apply plays_ret. by rewrite app_nil_r, talk_app, Hu, Hv.
Qed.

(** No callback waits for the number. *)
Lemma plays_unknown_reply peer b id networkId x s m payload :
  let data := Serialize (Some (message_store m true payload peer)) in
  INVALID_SOCKET_ID < id → socketMap_ b !! id = Some x → objects b !! x = Some s → isServer s = false →
  networkId_ s = networkId → networkId ≠ [] → short_text networkId → callbackMap_ s !! messageSeq_ m = None →
  message_ok m payload peer → room 8 payload → Z.of_nat (length data) ≤ MAX_DATA_LEN →
  plays o (OnServerBytes b id data) (λ b' u, b' = b ∧ talk u = []).
Proof using Hob.
  intros data Hid Hx Hs Hc Hn1 Hn2 Hn3 Hf Hm Hr Hlen. unfold OnServerBytes, Manager_OnServerBytes, within, FindSocketBySocketId.
  unfold INVALID_SOCKET_ID in *. rewrite decide_False by lia. rewrite decide_False by lia.
  rewrite decide_False; cycle 1.
  { intros [?|Hw]; [lia|]. apply bool_decide_eq_false in Hw. apply Hw. split; [apply serialize_message_ne|].
    unfold MAX_DATA_LEN, MAX_ONBYTES_RECEIVED_DATA_LEN in *. lia. }
  rewrite decide_True by lia. rewrite Hx, Hs, Hc. unfold ClientSocket_OnBytes, GetNetworkId.
  rewrite decide_True by apply serialize_message_ne. rewrite Hs, Hc, Hn1. rewrite decide_False by done.
  eapply plays_bind; [by apply (says_parse o udid Hob)|]. intros r u [-> Hu].
  unfold ProcDataReceive. rewrite decide_True by (unfold INVALID_SOCKET_ID; lia). simpl. rewrite Hs.
  unfold GetMsgCallback. rewrite Hf. apply plays_ret. by rewrite app_nil_r.
Qed.

Lemma says_tell name status l : says o (tell_status name status l) () ((λ x, Told x status) <$> l).
Proof using Type.
  induction l as [|x l IH]; [apply says_ret|]. apply (says_bind o _ _ () [Told x status] () _); [|exact IH].
  apply (says_call o (ListenerStatus x name status) tt); [intros t; by destruct (o t _)|done].
Qed.

Lemma plays_TimeOut b x s seq ci : objects b !! x = Some s → callbackMap_ s !! seq = Some ci → ci_connectionName ci ≠ [] →
  plays o (ReplyTimerTimeOut b x seq) (λ _ u,
    talk u = (λ l, Told l DISCONNECTED) <$> (OnConnectionDown (listeners_ b) (ci_connectionName ci)).2).
Proof using Type.
  intros Hx Hs Hc. unfold ReplyTimerTimeOut. rewrite Hx. unfold GetMsgConnectionName. rewrite Hs. simpl.
  rewrite decide_False by done. apply (plays_bind o _ _ (λ a u, objects a = objects b ∧
    talk u = (λ l, Told l DISCONNECTED) <$> (OnConnectionDown (listeners_ b) (ci_connectionName ci)).2)).
  { unfold connection_down. destruct (OnConnectionDown _ _) as [l told]. simpl.
    eapply plays_bind; [apply says_tell|]. intros [] u [_ Hu]. apply plays_ret. by rewrite app_nil_r. }
  intros b1 u [E Hu]. rewrite E, Hx. apply plays_ret. by rewrite app_nil_r.
Qed.
End Unexpected.

(** The callbacks of a server socket are not bound to the device or the
    connection they wait for. Whatever connection the message belongs to that
    waits for a reply, any device that is bound on the server socket can send
    the reply: the callback is called with it if the number is right. *)
Theorem reply_of_another_device o udid peer b id networkId x s m payload ci :
  let data := Serialize (Some (message_store m true payload peer)) in
  obliging o udid → accepts b id networkId x s → callbackMap_ s !! messageSeq_ m = Some ci →
  message_ok m payload peer → room 8 payload → Z.of_nat (length data) ≤ MAX_DATA_LEN →
  ∃ b' u answer, run o (OnClientBytes b id data) [] = (b', u) ∧ talk u = [Replied (msgCallback ci) (Some answer)] ∧
    same_payload answer payload.
Proof.
  intros data Hob Ha Hc Hm Hr Hl.
  destruct (plays_nil _ _ _ (plays_server_reply o udid Hob peer b id networkId x s m payload ci Ha Hc Hm Hr Hl))
    as (b' & u & E & T).
  exists b', u, (received_store peer m true payload networkId). split; [done|]. split; [done|].
  intros k Hk. by apply received_payload.
Qed.

(** A reply that is faster than the sender. [SendRequest] sends the message
    before it files the callback; a reply that arrives in between is dropped,
    the callback waits for it in vain, and when its timer fires the connection
    is reported down to every listener, although the message was answered. *)
Theorem early_reply_lost o udid peer b name networkId x s src dst payload f reply :
  let seq := wrapU 32 (g_messageSeq b + 1) in
  let info := mkConnectionInfo (socketId_ s) name src dst (Some (Some payload)) (Some f) in
  let m := request_message seq info in
  let m' := SoftBusMessage_new seq name dst src (Some (Some reply)) in
  let data' := Serialize (Some (message_store m' true reply peer)) in
  obliging o udid → opened b name networkId x s → name ≠ [] → message_ok m payload udid →
  message_ok m' reply peer → room 8 reply → Z.of_nat (length data') ≤ MAX_DATA_LEN →
  ∃ b1 u1 u2 b3 u3 b4 u4,
    run o (send_request b info) [] = ((b1, SUCCESS, seq), u1) ∧
    talk u1 = [Sent (socketId_ s) (Serialize (Some (message_store m false payload udid)))] ∧
    run o (OnServerBytes b1 (socketId_ s) data') [] = (b1, u2) ∧ talk u2 = [] ∧
    run o (await_reply b1 x info seq) [] = ((b3, SUCCESS), u3) ∧
    run o (ReplyTimerTimeOut b3 x seq) [] = (b4, u4) ∧
    talk u4 = (λ l, Told l DISCONNECTED) <$> (OnConnectionDown (listeners_ b) name).2.
Proof.
  intros seq info m m' data' Hob [H1 H2 H3 H4 H5 (H6 & H7 & H8) _ H9] Hne Hm Hm' Hr Hlen.
  assert (socketId_ s ≠ INVALID_SOCKET_ID) as Hid by (unfold INVALID_SOCKET_ID in *; lia).
  assert (messageSeq_ m' = seq) as Eseq by apply wrap_wrap.
  destruct (plays_nil _ _ _ (says_send_request o udid Hob b info payload seq eq_refl Hm Hid)) as (r1 & u1 & E1 & -> & T1).
  assert (callbackMap_ s !! messageSeq_ m' = None) as H9' by by rewrite Eseq.
  destruct (plays_nil _ _ _ (plays_unknown_reply o udid Hob peer (set_seq b seq) (socketId_ s) networkId x s m' reply
    H4 H5 H2 H3 H6 H7 H8 H9' Hm' Hr Hlen)) as (b2 & u2 & E2 & -> & T2).
  destruct (plays_nil _ _ _ (plays_await o udid Hob (set_seq b seq) x s info seq f H2 H9 eq_refl))
    as ([b3 r3] & u3 & E3 & Er & T3 & _ & El & s' & timer & Hs' & _ & _ & Hw). simpl in Er, El, Hs'. subst r3.
  destruct (plays_nil _ _ _ (plays_TimeOut o b3 x s' seq _ Hs' Hw Hne)) as (b4 & u4 & E4 & T4).
  rewrite El in T4. by exists (set_seq b seq), u1, u2, b3, u3, b4, u4.
Qed.

(** ** Two devices *)

Definition bus_world (udid : bytes) (reply : Impl) : env bus_answer := λ _ q,
  match q return bus_answer q with
  | Alloc _ | GetHandler _ | SubscribeDeviceManager | SubscribeSoftBus => true
  | LocalUdid => Some udid
  | ListenerMessage _ _ _ _ _ => Some reply
  | SbShutdown _ | Sleep _ | StopTimer _ | MsgReply _ _ | ListenerStatus _ _ _ | PostConnectionDown _ | PostOpen _ _ _
  | PostClose _ | PostServiceSocketInit => tt
  | StartReply _ _ _ => 12
  | SbSocket _ _ _ _ => 5
  | _ => 0
  end.

Lemma bus_world_obliging udid reply : obliging (bus_world udid reply) udid.
Proof. by split. Qed.

Definition client_5 : BusSocket := set_names (BaseSocket_new false 5) (str "c") (str "netB").
(** A device that opened the connection "c". *)
Definition device_A : Bus :=
  mkBus (<[1 := BaseSocket_new true 4]> (<[2 := client_5]> ∅)) 3 (Some 1) (<[4 := 1]> (<[5 := 2]> ∅))
    (<[str "c" := 2]> ∅) 7 true true true [mkListener (str "c") (str "local") 30].
Definition server_4 : BusSocket := set_binds (BaseSocket_new true 4) (<[9 := str "netA"]> ∅).
(** A device where somebody listens and which socket 9 is bound to. *)
Definition device_B : Bus :=
  mkBus (<[1 := server_4]> ∅) 2 (Some 1) (<[4 := 1]> ∅) ∅ 100 true true true
    [mkListener GLOBAL_CONNECTION_NAME (str "remote") 40].

Definition demo_payload : Impl := <[ATTR_MSG_TYPE := encoded EncodeInt32Value KEEP_ALIVE]> ∅.

Lemma opened_A : opened device_A (str "c") (str "netB") 2 client_5.
Proof.
  split; try (vm_compute; done). exists 1, (BaseSocket_new true 4). done.
Qed.

Lemma accepts_B : accepts device_B 9 (str "netA") 1 server_4.
Proof. by split; vm_compute. Qed.

Lemma demo_ok seq src dst name udid : in_u 32 seq → short_text name → short_text src → short_text dst → short_text udid →
  message_ok (SoftBusMessage_new seq name src dst (Some (Some demo_payload))) demo_payload udid ∧ room 8 demo_payload.
Proof.
  intros H1 H2 H3 H4 H5. split; [|done]. split; [done|]. split.
  - apply (sendable_insert 0); [apply sendable_empty|done|done|apply fits_i32].
  - split; [done|]. simpl. rewrite wrapU_id by done. done.
Qed.

Lemma request_reply_roundtrip_witness :
  let oA := bus_world (str "ua") ∅ in
  let oB := bus_world (str "ub") demo_payload in
  ∃ data data' request answer bA1 u1 bB1 u2 bA2 u3,
    run oA (SendMessage device_A (str "c") (str "local") (str "remote") (Some (Some demo_payload)) (Some 77)) [] =
      ((bA1, SUCCESS), u1) ∧
    talk u1 = [Sent 5 data] ∧
    run oB (OnClientBytes device_B 9 data) [] = (bB1, u2) ∧
    run oA (OnServerBytes bA1 5 data') [] = (bA2, u3) ∧
    (MAX_DATA_LEN < Z.of_nat (length data) → bB1 = device_B ∧ u2 = []) ∧
    (Z.of_nat (length data) ≤ MAX_DATA_LEN →
      talk u2 = [Heard 40 (str "c") (str "remote") (Some request); Sent 9 data'] ∧ same_payload request demo_payload ∧
      GetStringValue (Some request) ATTR_COLLECTOR_NETWORK_ID = Some (str "netA")) ∧
    (Z.of_nat (length data') ≤ MAX_DATA_LEN →
      talk u3 = [Replied 77 (Some answer)] ∧ same_payload answer demo_payload ∧
      ∃ s2, objects bA2 !! 2 = Some s2 ∧ callbackMap_ s2 !! 8 = None).
Proof.
  assert (∀ s : bytes, (length s ≤ 40)%nat → short_text s) as Hs.
  { intros s H. unfold short_text. change MAX_ATTR_LENGTH with 81920. lia. }
  destruct (demo_ok 8 (str "local") (str "remote") (str "c") (str "ua")) as [H1 H2]; [done|apply Hs; simpl; lia..|].
  destruct (demo_ok 8 (str "remote") (str "local") (str "c") (str "ub")) as [H3 _]; [done|apply Hs; simpl; lia..|].
  exact (request_reply_roundtrip (bus_world (str "ua") ∅) (bus_world (str "ub") demo_payload) (str "ua") (str "ub")
    device_A device_B (str "c") (str "netA") (str "netB") 2 client_5 9 1 server_4 (str "local") (str "remote")
    demo_payload 40 demo_payload 77 (bus_world_obliging _ _) (bus_world_obliging _ _) opened_A accepts_B eq_refl
    (λ _ _, eq_refl) H1 H2 H3 H2).
Defined.

(** Socket 9 answers what was asked on the connection "other". *)
Definition waiting_4 : BusSocket := set_callbacks server_4 (<[8 := mkCallbackInfo (str "other") 77 12]> ∅).
Definition device_C : Bus :=
  mkBus (<[1 := waiting_4]> ∅) 2 (Some 1) (<[4 := 1]> ∅) ∅ 100 true true true [].

Lemma short_40 (s : bytes) : (length s ≤ 40)%nat → short_text s.
Proof. intros H. unfold short_text. change MAX_ATTR_LENGTH with 81920. lia. Qed.

Lemma reply_of_another_device_witness :
  let m := SoftBusMessage_new 8 (str "c") (str "remote") (str "local") (Some (Some demo_payload)) in
  ∃ b' u answer,
    run (bus_world (str "ub") ∅) (OnClientBytes device_C 9 (Serialize (Some (message_store m true demo_payload (str "ua"))))) [] =
      (b', u) ∧
    talk u = [Replied 77 (Some answer)] ∧ same_payload answer demo_payload.
Proof.
  destruct (demo_ok 8 (str "remote") (str "local") (str "c") (str "ua")) as [H1 H2]; [done|apply short_40; simpl; lia..|].
  assert (accepts device_C 9 (str "netA") 1 waiting_4) as Ha by by split; vm_compute.
  refine (reply_of_another_device (bus_world (str "ub") ∅) (str "ub") (str "ua") device_C 9 (str "netA") 1 waiting_4
    (SoftBusMessage_new 8 (str "c") (str "remote") (str "local") (Some (Some demo_payload)))
    demo_payload (mkCallbackInfo (str "other") 77 12) (bus_world_obliging _ _) Ha eq_refl H1 H2 _).
  by vm_compute.
Defined.

Lemma early_reply_lost_witness :
  let o := bus_world (str "ua") ∅ in
  let info := mkConnectionInfo 5 (str "c") (str "local") (str "remote") (Some (Some demo_payload)) (Some 77) in
  let m := request_message 8 info in
  let m' := SoftBusMessage_new 8 (str "c") (str "remote") (str "local") (Some (Some demo_payload)) in
  ∃ b1 u1 u2 b3 u3 b4 u4,
    run o (send_request device_A info) [] = ((b1, SUCCESS, 8), u1) ∧
    talk u1 = [Sent 5 (Serialize (Some (message_store m false demo_payload (str "ua"))))] ∧
    run o (OnServerBytes b1 5 (Serialize (Some (message_store m' true demo_payload (str "ub"))))) [] = (b1, u2) ∧
    talk u2 = [] ∧
    run o (await_reply b1 2 info 8) [] = ((b3, SUCCESS), u3) ∧
    run o (ReplyTimerTimeOut b3 2 8) [] = (b4, u4) ∧
    talk u4 = [Told 30 DISCONNECTED].
Proof.
  destruct (demo_ok 8 (str "local") (str "remote") (str "c") (str "ua")) as [H1 H2]; [done|apply short_40; simpl; lia..|].
  destruct (demo_ok 8 (str "remote") (str "local") (str "c") (str "ub")) as [H3 _]; [done|apply short_40; simpl; lia..|].
  assert (str "c" ≠ []) as Hne by done.
  refine (early_reply_lost (bus_world (str "ua") ∅) (str "ua") (str "ub") device_A (str "c") (str "netB") 2 client_5
    (str "local") (str "remote") demo_payload 77 demo_payload (bus_world_obliging _ _) opened_A Hne H1 H3 H2 _).
  by vm_compute.
Defined.
