(* ===== verification/LoadMode.v ===== *)
(** * Loading and unloading on demand: the managers

    When the service is loaded dynamically, system parameters tell it whether it
    is needed. This file models common/utils/system_param_manager.cpp,
    engine_load_manager.cpp (starts and stops the engine, with retries) and
    service_unload_manager.cpp (asks to stop the service when no PIN is
    enrolled), and the calls of the files that use them (LoadModeHandler.v,
    CoAuthService.v). Every member function of the two managers holds the lock of
    its manager, so any interleaving of threads is a sequence of operations.

    [engine_retry_pending] and [unused_service_stops] hold of every sequence. *)

From S2P Require Import Prelude Defines Interaction ServiceTypes Attributes Platform.

(* @file P = src/common/utils/system_param_manager.cpp *)
(* @file PH = src/common/utils/system_param_manager.h *)
(* @file E = src/services/load_mode/src/engine_load_manager.cpp *)
(* @file EH = src/services/load_mode/inc/engine_load_manager.h *)
(* @file S = src/services/load_mode/src/service_unload_manager.cpp *)
(* @file SH = src/services/load_mode/inc/service_unload_manager.h *)

(** ** Keys and values *)

(* @src PH:const TRUE_STR *)
Definition TRUE_STR : bytes := str "true".
(* @src PH:const FALSE_STR *)
Definition FALSE_STR : bytes := str "false".
(* @src PH:const FWK_READY_KEY *)
Definition FWK_READY_KEY : bytes := str "bootevent.useriam.fwkready".
(* @src PH:const IS_PIN_ENROLLED_KEY *)
Definition IS_PIN_ENROLLED_KEY : bytes := str "persist.useriam.isPinEnrolled".
(* @src PH:const IS_CREDENTIAL_CHECKED_KEY *)
Definition IS_CREDENTIAL_CHECKED_KEY : bytes := str "useriam.isCredentialChecked".
(* @src PH:const IS_PIN_FUNCTION_READY_KEY *)
Definition IS_PIN_FUNCTION_READY_KEY : bytes := str "useriam.isPinFunctionReady".
(* @src PH:const STOP_SA_KEY *)
Definition STOP_SA_KEY : bytes := str "useriam.stopSa".
(* @src PH:const START_SA_KEY *)
Definition START_SA_KEY : bytes := str "useriam.startSa".
(* @src PH:const START_SA_INNER_KEY *)
Definition START_SA_INNER_KEY : bytes := str "useriam.startSaInner".
(* @src PH:const CDA_START_SA_KEY *)
Definition CDA_START_SA_KEY : bytes := str "companiondeviceauth.startSa".
(* @src PH:const CDA_IS_FUNCTION_READY_KEY *)
Definition CDA_IS_FUNCTION_READY_KEY : bytes := str "companiondeviceauth.isFunctionReady".

(** ** What is called *)

(** What a timer calls when it fires. *)
Inductive LoadTimer := EngineTimeout | UnloadTimeout | CheckServiceReady.
#[export] Instance LoadTimer_eq_dec : EqDecision LoadTimer.
Proof. solve_decision. Defined.

(** The system abilities that are watched. *)
Inductive Ability := PinAuthService | CommonEventService | AccessTokenService | CompanionDeviceAuth.

Inductive load :=
  | Service (q : sys)
  (* system parameters: the code, and what is in the buffer afterwards *)
  | GetParameter (key defaultValue : bytes)
  | SetParameter (key value : bytes)
  | WatchParameter (key : bytes)
  (* timers *)
  | StartTimer (timer : LoadTimer) (milliseconds : Z)
  | CancelTimer (timerId : Z)
  (* the engine *)
  | EngineLoad
  | EngineUnload
  | EngineInit (localUdid : bytes)
  | EngineSetStatusCallback
  | EngineRegisterMessageCallback
  (* system abilities and events *)
  | GetAbilityManager
  | SubscribeAbility (ability : Ability)
  | UnSubscribeAbility (ability : Ability)
  | CheckAbility (ability : Ability)
  | SubscribeCommonEvent
  | Publish
  | SetMaxWorkThreadNum (n : Z)
  (* other singletons *)
  | RemoteConnectStart
  | RemoteConnectStop
  | RemoteAuthStart
  | OsAccountsStartSubscribe
  | PoolStartSubscribeOsAccountSaStatus
  | StrongAuthStartSubscribe
  | NewInstance (what : string)
  (* executors: the task that is posted after a registration, and what it calls *)
  | PostRegistered (node executorIndex callback : Z) (fwkPublicKey : bytes) (templateIdList : list Z)
  | OnMessengerReady (callback : Z) (fwkPublicKey : bytes) (templateIdList : list Z)
  | AsObject (callback : Z)
  | AddDeathRecipient (callback executorIndex authType role : Z)
  | UpdateTemplateCache (authType : Z)
  | SyncRiskEvents
  (* schedules *)
  | SelectScheduleNode (scheduleId : Z)
  | ScheduleSendMessage (schedule dstRole : Z) (msg : bytes)
  | ScheduleContinue (schedule resultCode : Z) (finalResult : Attributes).

Definition load_answer (q : load) : Type :=
  match q with
  | Service q => answer q
  | GetParameter _ _ => Z * bytes
  | SetParameter _ _ | WatchParameter _ | StartTimer _ _ | EngineLoad | EngineUnload | EngineInit _ => Z
  | EngineRegisterMessageCallback | SubscribeAbility _ | UnSubscribeAbility _ => Z
  | EngineSetStatusCallback | GetAbilityManager | CheckAbility _ | SubscribeCommonEvent | Publish => bool
  | RemoteAuthStart | NewInstance _ | AsObject _ => bool
  | SelectScheduleNode _ => option Z
  | ScheduleSendMessage _ _ _ | ScheduleContinue _ _ _ => bool
  | _ => unit
  end.

Abbreviation loadk := (prog load_answer).
Abbreviation load_trace := (list (event load_answer)).

(** What the service code calls, as part of this alphabet. *)
Fixpoint lift {A} (m : service A) : loadk A :=
  match m with
  | Ret a => Ret a
  | Call q k => Call (Service q : load) (λ r, lift (k r))
  end.

(** What a trace shows of the service code. *)
Definition service_event (e : event load_answer) : option (event answer) :=
  match e with existT (Service q) r => Some (existT q r) | _ => None end.
Definition service_trace (t : load_trace) : trace := omap service_event t.

(** Worlds in which everything works, for examples; [parameter] gives the values. *)
Definition load_world (parameter : bytes → bytes) : env load_answer := λ _ q,
  match q return load_answer q with
  | Service q => world true [] q
  | GetParameter key _ => (0, parameter key)
  | SetParameter _ _ | WatchParameter _ | EngineLoad | EngineUnload | EngineInit _ => 0
  | EngineRegisterMessageCallback | SubscribeAbility _ | UnSubscribeAbility _ => 0
  | StartTimer _ _ => 1
  | EngineSetStatusCallback | GetAbilityManager | CheckAbility _ | SubscribeCommonEvent | Publish => true
  | RemoteAuthStart | NewInstance _ | AsObject _ => true
  | SelectScheduleNode _ => None
  | ScheduleSendMessage _ _ _ | ScheduleContinue _ _ _ => true
  | _ => ()
  end.

(** ** System parameters *)

(** The functions that are called when a parameter changes; they capture
    nothing, so equal pointers mean equal functions. *)
Inductive SystemParamCallback := OnStopSa | OnPinEnrolled | OnStartSa | OnCredentialChecked.
#[export] Instance SystemParamCallback_eq_dec : EqDecision SystemParamCallback.
Proof. solve_decision. Defined.

(* @src PH:59-59 SystemParamManager *)
Abbreviation Watchers := (list (bytes * SystemParamCallback)).

(* @src P SystemParamManager::GetParam *)
Definition GetParam (key defaultValue : bytes) : loadk bytes :=
  '(ret, valueBuffer) ← call (GetParameter key defaultValue);
  if decide (ret < 0) then mret defaultValue else mret valueBuffer.

(* @src P SystemParamManager::SetParam *)
Definition SetParam (key value : bytes) : loadk () :=
  currentValue ← GetParam key [];
  if decide (currentValue ≠ value) then call (SetParameter key value);; mret () else mret ().

(* @src P SystemParamManager::SetParamTwice *)
Definition SetParamTwice (key value1 value2 : bytes) : loadk () :=
  currentValue ← GetParam key [];
  ret1 ← (if decide (currentValue ≠ value1) then call (SetParameter key value1) else mret 0) : loadk Z;
  CHECK ret1 = 0 ELSE mret () ;;
  call (SetParameter key value2);; mret ().

(* @src P SystemParamManager::WatchParam *)
Definition WatchParam (w : Watchers) (key : bytes) (callback : option SystemParamCallback) : loadk Watchers :=
  match callback with
  | None => mret w
  | Some callback =>
    ret ← (if decide (key ∈ w.*1) then mret 0 else call (WatchParameter key)) : loadk Z;
    CHECK ret = 0 ELSE mret w ;;
    WHEN (key, callback) ∈ w RETURN mret w ;;
    mret (w ++ [(key, callback)])
  end.

Definition is_true (value : bytes) : bool := bool_decide (value = TRUE_STR).
Definition GetFlag (key : bytes) : loadk bool := value ← GetParam key FALSE_STR; mret (is_true value).

(** ** The engine *)

Module EngineLoadManager.

(* @src EH:45-49 EngineLoadManager *)
Record Loader := mkLoader {
  isSubscribed_ : bool;
  isEngineRunning_ : bool;
  isSaStopping_ : bool;
  timerId_ : option Z;
}.
Implicit Types l : Loader.

Definition Loader_new : Loader := mkLoader false false false None.
Definition set_running l (b : bool) : Loader := mkLoader (isSubscribed_ l) b (isSaStopping_ l) (timerId_ l).
Definition set_timer l (t : option Z) : Loader := mkLoader (isSubscribed_ l) (isEngineRunning_ l) (isSaStopping_ l) t.

(* @src E EngineLoadManager::~EngineLoadManager *)
Definition destroy l : loadk Loader :=
  match timerId_ l with
  | Some t => call (CancelTimer t);; mret (set_timer l None)
  | None => mret l
  end.

(* @src E EngineLoadManager::Load *)
Definition Load : loadk bool := loadRet ← call EngineLoad; mret (bool_decide (loadRet = SUCCESS)).

(* @src E EngineLoadManager::Unload *)
Definition Unload : loadk bool := ret ← call EngineUnload; mret (bool_decide (ret = SUCCESS)).

(* @src E:123-123 RETRY_LOAD_INTERVAL *)
Definition RETRY_LOAD_INTERVAL : Z := 1000.

(* @src E EngineLoadManager::ProcessServiceStatus *)
Definition ProcessServiceStatus l : loadk Loader :=
  let shouldRunning := negb (isSaStopping_ l) in
  l ← (if decide (isEngineRunning_ l ≠ shouldRunning) then
         if shouldRunning then loadRet ← Load; mret (if (loadRet : bool) then set_running l true else l)
         else unloadRet ← Unload; mret (if (unloadRet : bool) then set_running l false else l)
       else mret l);
  if decide (isEngineRunning_ l = shouldRunning) then
    match timerId_ l with
    | Some t => call (CancelTimer t);; mret (set_timer l None)
    | None => mret l
    end
  else
    match timerId_ l with
    | Some _ => mret l
    | None => t ← call (StartTimer EngineTimeout RETRY_LOAD_INTERVAL); mret (set_timer l (Some t))
    end.

(* @src E EngineLoadManager::OnTimeout *)
Definition OnTimeout l : loadk Loader := ProcessServiceStatus (set_timer l None).

(* @src E EngineLoadManager::OnEngineReady *)
Definition OnEngineReady l : loadk Loader := ProcessServiceStatus (set_running l true).

(* @src E EngineLoadManager::OnEngineUnavailable *)
Definition OnEngineUnavailable l : loadk Loader := ProcessServiceStatus (set_running l false).

(* @src E EngineLoadManager::OnSaStopping *)
Definition OnSaStopping l (isStopping : bool) : loadk Loader :=
  ProcessServiceStatus (mkLoader (isSubscribed_ l) (isEngineRunning_ l) isStopping (timerId_ l)).

(* @src E EngineLoadManager::StartSubscribe *)
Definition StartSubscribe l (w : Watchers) : loadk (Loader * Watchers) :=
  WHEN isSubscribed_ l = true RETURN mret (l, w) ;;
  w ← WatchParam w STOP_SA_KEY (Some OnStopSa);
  isStopping ← GetFlag STOP_SA_KEY;
  l ← OnSaStopping l isStopping;
  mret (mkLoader true (isEngineRunning_ l) (isSaStopping_ l) (timerId_ l), w).

End EngineLoadManager.

(** ** Unloading *)

Module ServiceUnloadManager.

(* @src SH:41-46 ServiceUnloadManager *)
Record Unloader := mkUnloader {
  isSubscribed_ : bool;
  timerId_ : option Z;
  isPinEnrolled_ : bool;
  startSa_ : bool;
  isCredentialChecked_ : bool;
}.
Implicit Types u : Unloader.

Definition Unloader_new : Unloader := mkUnloader false None false false false.

Section Updates.
Context (u : Unloader).
Definition set_timer (t : option Z) : Unloader :=
  mkUnloader (isSubscribed_ u) t (isPinEnrolled_ u) (startSa_ u) (isCredentialChecked_ u).
Definition set_enrolled (b : bool) : Unloader :=
  mkUnloader (isSubscribed_ u) (timerId_ u) b (startSa_ u) (isCredentialChecked_ u).
Definition set_start (b : bool) : Unloader :=
  mkUnloader (isSubscribed_ u) (timerId_ u) (isPinEnrolled_ u) b (isCredentialChecked_ u).
Definition set_checked (b : bool) : Unloader :=
  mkUnloader (isSubscribed_ u) (timerId_ u) (isPinEnrolled_ u) (startSa_ u) b.
Definition set_subscribed : Unloader :=
  mkUnloader true (timerId_ u) (isPinEnrolled_ u) (startSa_ u) (isCredentialChecked_ u).
End Updates.

(* @src S ServiceUnloadManager::StopTimer *)
Definition StopTimer u : loadk Unloader :=
  match timerId_ u with
  | None => mret u
  | Some t => call (CancelTimer t);; mret (set_timer u None)
  end.

(* @src S:135-135 TEN_MINUTE *)
Definition TEN_MINUTE : Z := 10 * 60 * 1000.

(* @src S ServiceUnloadManager::RestartTimer *)
Definition RestartTimer u : loadk Unloader :=
  u ← StopTimer u;
  t ← call (StartTimer UnloadTimeout TEN_MINUTE);
  mret (set_timer u (Some t)).

(* @src S ServiceUnloadManager::OnTimeout *)
Definition OnTimeout u : loadk Unloader :=
  u ← StopTimer u;
  WHEN isPinEnrolled_ u = true RETURN mret u ;;
  SetParamTwice STOP_SA_KEY FALSE_STR TRUE_STR;;
  mret u.

(* @src S ServiceUnloadManager::OnIsPinEnrolledChange *)
Definition OnIsPinEnrolledChange u (isPinEnrolled : bool) : loadk Unloader :=
  WHEN isPinEnrolled_ u = isPinEnrolled RETURN mret u ;;
  let u := set_enrolled u isPinEnrolled in
  if isPinEnrolled then StopTimer u
  else if isCredentialChecked_ u then RestartTimer u else mret u.

(* @src S ServiceUnloadManager::OnStartSaChange *)
Definition OnStartSaChange u (startSa : bool) : loadk Unloader :=
  WHEN startSa_ u = startSa RETURN mret u ;;
  let u := set_start u startSa in
  CHECK startSa = true ELSE mret u ;;
  RestartTimer u.

(* @src S ServiceUnloadManager::OnCredentialCheckedChange *)
Definition OnCredentialCheckedChange u (isCredentialChecked : bool) : loadk Unloader :=
  WHEN isCredentialChecked_ u = isCredentialChecked RETURN mret u ;;
  mret (set_checked u isCredentialChecked).

(** The second result is [isStopSa]. *)
(* @src S ServiceUnloadManager::OnFwkReady *)
Definition OnFwkReady u : loadk (Unloader * bool) :=
  isPinEnrolled ← GetFlag IS_PIN_ENROLLED_KEY;
  let u := set_enrolled u isPinEnrolled in
  WHEN isPinEnrolled_ u = true RETURN mret (u, false) ;;
  WHEN timerId_ u ≠ None RETURN mret (u, false) ;;
  SetParamTwice STOP_SA_KEY FALSE_STR TRUE_STR;;
  mret (u, true).

(* @src S ServiceUnloadManager::StartSubscribe *)
Definition StartSubscribe u (w : Watchers) : loadk (Unloader * Watchers) :=
  WHEN isSubscribed_ u = true RETURN mret (u, w) ;;
  w ← WatchParam w IS_PIN_ENROLLED_KEY (Some OnPinEnrolled);
  isPinEnrolled ← GetFlag IS_PIN_ENROLLED_KEY;
  u ← OnIsPinEnrolledChange u isPinEnrolled;
  w ← WatchParam w START_SA_KEY (Some OnStartSa);
  startSa ← GetFlag START_SA_KEY;
  u ← OnStartSaChange u startSa;
  w ← WatchParam w IS_CREDENTIAL_CHECKED_KEY (Some OnCredentialChecked);
  isCredentialChecked ← GetFlag IS_CREDENTIAL_CHECKED_KEY;
  u ← OnCredentialCheckedChange u isCredentialChecked;
  mret (set_subscribed u, w).

End ServiceUnloadManager.
