(* ===== verification/LoadModeThm.v ===== *)
(** * What the managers of dynamic loading guarantee

    [engine_retry_pending]: the engine is where the parameters want it, or a
    retry is pending. [service_unloaded_when_unused]: the service is asked to
    stop only when the manager believes that no PIN is enrolled, and if it
    believes so, it stops or waits for its timer. *)

From S2P Require Import Prelude Defines Interaction ServiceTypes Attributes Platform LoadMode.

(** One step through a program whose result matters. *)
Ltac gives_step :=
  cbv zeta;
  lazymatch goal with
  | |- gives ?m _ =>
    lazymatch m with
    | mret _ => apply gives_ret
    | (if ?x then _ else _) => branch_on x
    | (match ?x with _ => _ end) => branch_on x
    | (call ?q) ≫= _ => apply (gives_bind (call q) _ (λ _, True)); [by apply (gives_call q)|intros ? _]
    | (mret _ ≫= _) => apply (gives_bind _ _ (λ x, x = _)); [by apply gives_ret|intros ? ->]
    end
  end.

Definition param_call (q : load) : bool :=
  match q with GetParameter _ _ | SetParameter _ _ | WatchParameter _ => true | _ => false end.

Lemma only_GetParam k d : only param_call (GetParam k d).
Proof. unfold GetParam. only_steps. Qed.
#[export] Hint Resolve only_GetParam : service.
Lemma only_GetFlag k : only param_call (GetFlag k).
Proof. unfold GetFlag. only_steps. Qed.
Lemma only_SetParam k v : only param_call (SetParam k v).
Proof. unfold SetParam. only_steps. Qed.
Lemma only_SetParamTwice k v v' : only param_call (SetParamTwice k v v').
Proof. unfold SetParamTwice. only_steps. Qed.
Lemma only_WatchParam w k c : only param_call (WatchParam w k c).
Proof. unfold WatchParam. only_steps. Qed.
#[export] Hint Resolve only_GetFlag only_SetParam only_SetParamTwice only_WatchParam : service.

Definition param_read (q : load) : bool := match q with GetParameter _ _ => true | _ => false end.

(** ** Timers over a history

    A manager knows its timer by an id; [timers] follows, in a trace, which
    timers of a kind the timer service really has. [life] runs operations one
    after the other, each with answers of its own, and only lets a timer fire
    that is there. *)

Definition timer_event (which : LoadTimer) (live : list Z) (e : event load_answer) : list Z :=
  match e with
  | existT (StartTimer timer _) id => if decide (timer = which) then live ++ [id] else live
  | existT (CancelTimer id) _ => filter (λ i, i ≠ id) live
  | _ => live
  end.
Definition timers (which : LoadTimer) (live : list Z) (u : load_trace) : list Z := foldl (timer_event which) live u.

Section Life.
Context {S Op : Type} (which : LoadTimer) (step : S → Op → loadk S) (fires : Op → bool) (timer : S → option Z).

Definition life (st : S * list Z * load_trace) (x : Op * env load_answer) : S * list Z * load_trace :=
  let '(s, live, t) := st in let '(op, o) := x in
  WHEN fires op = true ∧ live = [] RETURN st ;;
  let live := if fires op then tail live else live in
  let '(s', u) := run o (step s op) [] in (s', timers which live u, t ++ u).

Definition keeps_timer : Prop := ∀ s op,
  leaves (step s op) (λ s' u, timers which (if fires op then [] else option_list (timer s)) u = option_list (timer s')).

Lemma life_timer s t l : keeps_timer →
  let '(s', live, t') := foldl life (s, option_list (timer s), t) l in live = option_list (timer s').
Proof.
  intros Hk. revert s t. induction l as [|[op o] l IH]; intros s t; simpl; [done|].
  case_decide as Hf; [apply IH|]. destruct (run o (step s op) []) as [s' u] eqn:E.
  apply (leaves_run _ _ _ _ _ _ (Hk s op)) in E as (v & -> & Hv). simpl in *.
  replace (if fires op then tail (option_list (timer s)) else option_list (timer s))
    with (if fires op then [] else option_list (timer s)) by (destruct (fires op), (timer s); done).
  rewrite Hv. apply IH.
Qed.

(** An invariant of the operations and their traces. *)
Lemma life_inv (I : S → load_trace → Prop) s live t l :
  (∀ s op t, op ∈ l.*1 → I s t → wp (λ _ _, True) (step s op) t I) → I s t →
  let '(s', live', t') := foldl life (s, live, t) l in I s' t'.
Proof.
  revert s live t. induction l as [|[op o] l IH]; intros s live t Hstep Hs; simpl; [done|].
  assert (∀ s op t, op ∈ l.*1 → I s t → wp (λ _ _, True) (step s op) t I) as Hl.
  { intros s0 op0 t0 Hop. apply Hstep. simpl. by right. }
  case_decide as Hf; [by apply IH|]. destruct (run o (step s op) []) as [s' u] eqn:E.
  apply (leaves_run _ _ _ _ _ _ (leaves_after _ _ _ (Hstep s op t ltac:(simpl; by left) Hs))) in E as (v & -> & Hv).
  by apply IH.
Qed.
End Life.

Lemma filter_one (z : Z) : filter (λ i : Z, i ≠ z) [z] = [].
Proof. by rewrite filter_cons_False by auto. Qed.

Lemma wp_gives {A} (m : loadk A) (P : A → Prop) t : gives m P → wp (λ _ _, True) m t (λ a _, P a).
Proof. intros H. eapply wp_wand; [apply (leaves_gives m P H t)|]. by intros a t' (u & _ & ?). Qed.

Lemma leaves_no_timer which {A} (m : loadk A) : only param_call m →
  leaves m (λ _ u, ∀ live, timers which live u = live).
Proof.
  intros Hm. apply (leaves_only param_call); [done|]. intros a u Hu live. revert live.
  induction Hu as [|[q r] u Hq Hu IH]; intros live; [done|]. simpl. rewrite IH. by destruct q.
Qed.

Lemma timers_app which live u v : timers which live (u ++ v) = timers which (timers which live u) v.
Proof. apply foldl_app. Qed.

(** ** The engine *)

Module LoaderLaws.
Import EngineLoadManager.
Implicit Types l : Loader.

Definition consistent l : Prop := timerId_ l ≠ None ↔ isEngineRunning_ l = isSaStopping_ l.

Lemma gives_Process l : gives (ProcessServiceStatus l) (λ l',
  consistent l' ∧ isSubscribed_ l' = isSubscribed_ l ∧ isSaStopping_ l' = isSaStopping_ l).
Proof.
  destruct l as [a r s t]. unfold ProcessServiceStatus, Load, Unload, consistent. simpl.
  apply (gives_bind _ _ (λ l1, ∃ r1, l1 = mkLoader a r1 s t)).
  - case_decide; [|by apply gives_ret; eauto].
    destruct s; simpl; (eapply gives_bind; [apply gives_any|]; intros [] _; apply gives_ret; eauto).
  - intros l1 [r1 ->]. simpl. destruct t; case_decide; repeat gives_step; simpl; destruct r1, s; naive_solver.
Qed.

(** What happens to the manager. *)
Inductive loader_op := LoSubscribe (w : Watchers) | LoTimeout | LoReady | LoUnavailable | LoStopping (isStopping : bool).

Definition loader_step l (op : loader_op) : loadk Loader :=
  match op with
  | LoSubscribe w => '(l, w) ← StartSubscribe l w; mret l
  | LoTimeout => OnTimeout l
  | LoReady => OnEngineReady l
  | LoUnavailable => OnEngineUnavailable l
  | LoStopping b => OnSaStopping l b
  end.

Lemma gives_loader_step l op : (isSubscribed_ l = true → consistent l) →
  gives (loader_step l op) (λ l', isSubscribed_ l' = true → consistent l').
Proof.
  intros Hl. destruct op; simpl; try (eapply gives_mono; [apply gives_Process|]; naive_solver).
  unfold StartSubscribe. case_decide; [by repeat gives_step|].
  eapply (gives_bind _ _ (λ lw, consistent lw.1)); [|intros [l1 w1] H1; by apply gives_ret].
  apply gives_skip. intros w'. apply gives_skip. intros b.
  eapply gives_bind; [apply gives_Process|]. intros [a r s0 t] [H1 _]. by apply gives_ret.
Qed.

(** The engine does as it is told. *)
Definition engine_obeys (o : env load_answer) : Prop := ∀ t, o t EngineLoad = SUCCESS ∧ o t EngineUnload = SUCCESS.

Lemma run_Load (o : env load_answer) t : o t EngineLoad = SUCCESS →
  run o Load t = (true, t ++ [existT EngineLoad (o t EngineLoad)]).
Proof. intros E. unfold Load. rewrite run_bind, (run_call o EngineLoad), E. done. Qed.
Lemma run_Unload (o : env load_answer) t : o t EngineUnload = SUCCESS →
  run o Unload t = (true, t ++ [existT EngineUnload (o t EngineUnload)]).
Proof. intros E. unfold Unload. rewrite run_bind, (run_call o EngineUnload), E. done. Qed.

Lemma timeout_converges o l t : engine_obeys o →
  let l' := (run o (OnTimeout l) t).1 in timerId_ l' = None ∧ isEngineRunning_ l' = negb (isSaStopping_ l).
Proof.
  intros Ho. destruct l as [a r s x]. unfold OnTimeout, ProcessServiceStatus, set_timer. destruct (Ho t) as [E1 E2].
  destruct r, s; simpl; rewrite ?run_bind, ?run_Load, ?run_Unload by done; done.
Qed.

(** What may be asked of the engine when the service stops or not. *)
Definition wanted (stopping : bool) (q : load) : Prop :=
  match q with EngineLoad => stopping = false | EngineUnload => stopping = true | _ => True end.

Lemma leaves_Process l : leaves (ProcessServiceStatus l) (λ l' u,
  isSaStopping_ l' = isSaStopping_ l ∧ Forall (λ e, wanted (isSaStopping_ l) (asked e)) u).
Proof.
  apply (leaves_guarded (wanted (isSaStopping_ l)) _ (λ l', isSaStopping_ l' = isSaStopping_ l)). intros t.
  destruct l as [a r [] x]; unfold ProcessServiceStatus, Load, Unload; simpl; repeat step; done.
Qed.

Lemma param_wanted b u : Forall (λ e : event load_answer, param_call (asked e) = true) u →
  Forall (λ e, wanted b (asked e)) u.
Proof. intros H. eapply Forall_impl; [exact H|]. intros [[] r]; done. Qed.

Lemma leaves_loader_step l op : leaves (loader_step l op) (λ l' u, Forall (λ e, wanted (isSaStopping_ l') (asked e)) u).
Proof.
  destruct op; simpl; try (eapply leaves_mono; [apply leaves_Process|]; cbv beta; intros l' u [-> H]; exact H).
  unfold StartSubscribe. case_decide; [by apply leaves_ret|].
  eapply (leaves_bind _ _ (λ lw u, Forall (λ e, wanted (isSaStopping_ lw.1) (asked e)) u));
    [|intros [l1 w1] u H1; apply leaves_ret; by rewrite app_nil_r].
  eapply leaves_bind; [apply (leaves_only param_call); apply only_WatchParam || (intros ? u Hu; exact Hu)|].
  cbv beta. intros w' u Hu. eapply leaves_bind; [apply (leaves_only param_call); [apply only_GetFlag|intros ? v Hv; exact Hv]|].
  cbv beta. intros b v Hv. eapply leaves_bind; [apply leaves_Process|]. cbv beta. intros l1 x [El Hx].
  apply leaves_ret. simpl. rewrite El, app_nil_r, !Forall_app. simpl in Hx. eauto using param_wanted.
Qed.

(** The timer of the manager is one the timer service has, and the other way
    round. *)
Definition loader_fires (op : loader_op) : bool := match op with LoTimeout => true | _ => false end.

Ltac leaves_run :=
  intros t; repeat step; try done;
  (eexists; split; [rewrite <- ?app_assoc; first [reflexivity|symmetry; apply app_nil_r]|]); simpl.

Lemma timer_Process l : leaves (ProcessServiceStatus l) (λ l' u,
  timers EngineTimeout (option_list (timerId_ l)) u = option_list (timerId_ l')).
Proof.
  destruct l as [a r s x]. unfold ProcessServiceStatus, Load, Unload. simpl.
  destruct x, r, s; simpl; leaves_run; simplify_eq/=; auto using filter_one.
Qed.

Lemma loader_keeps_timer : keeps_timer EngineTimeout loader_step loader_fires timerId_.
Proof.
  intros l op. destruct op as [w| | | |b]; simpl;
    [|exact (timer_Process (set_timer l None))|exact (timer_Process (set_running l true))
     |exact (timer_Process (set_running l false))|exact (timer_Process (mkLoader _ _ b (timerId_ l)))].
  unfold StartSubscribe. case_decide; [by apply leaves_ret|].
  eapply (leaves_bind _ _ (λ lw u, timers EngineTimeout (option_list (timerId_ l)) u = option_list (timerId_ lw.1)));
    [|intros [l1 w1] u Hu; apply leaves_ret; by rewrite app_nil_r].
  eapply leaves_bind; [apply leaves_no_timer, only_WatchParam|]. intros w' u Hu.
  eapply leaves_bind; [apply leaves_no_timer, only_GetFlag|]. intros b v Hv. cbv beta in *.
  eapply leaves_bind; [apply timer_Process|]. intros l1 x Hx. apply leaves_ret.
  rewrite app_nil_r, !timers_app, Hu, Hv. exact Hx.
Qed.

(** What has become of the manager, its timers and its calls. *)
Abbreviation loader_life l := (foldl (life EngineTimeout loader_step loader_fires) (Loader_new, [], []) l).

(** C18: The engine follows the parameters. In every order of subscription,
    parameter changes, reports of the engine and timers, and whatever fails: once
    the manager has subscribed, a retry timer is really pending exactly when the
    engine is not in the state that is wanted, and there is only one; when it
    fires and the engine obeys, the engine is in that state and no timer is left. The
    engine is only ever asked to load when the service is to run, and to
    unload when it is to stop. *)
Theorem engine_retry_pending (history : list (loader_op * env load_answer)) :
  let '(l, live, _) := loader_life history in
  (isSubscribed_ l = true → live ≠ [] ↔ isEngineRunning_ l ≠ negb (isSaStopping_ l)) ∧ (length live ≤ 1)%nat ∧
  (∀ o t, engine_obeys o → let '(l', live', _) := life EngineTimeout loader_step loader_fires (l, live, t) (LoTimeout, o) in
     live ≠ [] → live' = [] ∧ isEngineRunning_ l' = negb (isSaStopping_ l)) ∧
  (∀ o op, let '(l', t) := run o (loader_step l op) [] in Forall (λ e, wanted (isSaStopping_ l') (asked e)) t).
Proof.
  pose proof (life_timer EngineTimeout loader_step loader_fires timerId_ Loader_new [] history loader_keeps_timer) as Hlive.
  pose proof (life_inv EngineTimeout loader_step loader_fires (λ l _, isSubscribed_ l = true → consistent l) Loader_new [] [] history) as Hinv.
  simpl in Hlive. destruct (foldl _ _ history) as [[l live] t0]. subst live. split; [|split; [|split]].
  - intros Hs. assert (consistent l) as K; [|unfold consistent in K; destruct (timerId_ l), (isEngineRunning_ l), (isSaStopping_ l); naive_solver].
    apply Hinv; [|done|done]. intros s op t _ Hl. eapply wp_wand; [apply wp_gives, (gives_loader_step s op Hl)|done].
  - destruct (timerId_ l); simpl; lia.
  - intros o t Ho. pose proof (life_timer EngineTimeout loader_step loader_fires timerId_ l t [(LoTimeout, o)] loader_keeps_timer) as K.
    change (foldl ?f ?a [?x]) with (f a x) in K. revert K. destruct (life _ _ _ _ _) as [[l' live'] t'] eqn:E. intros -> Hne. unfold life in E.
    rewrite decide_False in E by naive_solver. pose proof (timeout_converges o l [] Ho) as [K1 K2].
    change (loader_step l LoTimeout) with (OnTimeout l) in E. destruct (run o (OnTimeout l) []) as [l2 u]. simpl in *.
    injection E as <- _ _. by rewrite K1.
  - intros o' op. destruct (run o' (loader_step l op) []) as [l' t] eqn:E.
    by apply (leaves_run _ _ _ _ _ _ (leaves_loader_step l op)) in E as (u & -> & Hu).
Qed.
End LoaderLaws.

(** ** Unloading *)

Module UnloaderLaws.
Import ServiceUnloadManager.
Implicit Types u : Unloader.

(** What happens to the manager. *)
Inductive unload_op : Type :=
  | UoSubscribe (w : Watchers)
  | UoTimeout
  | UoPin (isPinEnrolled : bool)
  | UoStart (startSa : bool)
  | UoChecked (isCredentialChecked : bool)
  | UoFwkReady.

#[export] Instance unload_op_eq_dec : EqDecision unload_op.
Proof. solve_decision. Defined.

Definition unload_step u (op : unload_op) : loadk Unloader :=
  match op with
  | UoSubscribe w => '(u, w) ← StartSubscribe u w; mret u
  | UoTimeout => OnTimeout u
  | UoPin b => OnIsPinEnrolledChange u b
  | UoStart b => OnStartSaChange u b
  | UoChecked b => OnCredentialCheckedChange u b
  | UoFwkReady => '(u, isStopSa) ← OnFwkReady u; mret u
  end.

Definition stop_call (q : load) : bool := match q with SetParameter key _ => bool_decide (key = STOP_SA_KEY) | _ => false end.

(** The parameter that stops the service was set, or setting it failed. *)
Definition stop_asked (t : load_trace) : Prop :=
  ∃ value (ret : Z), existT (SetParameter STOP_SA_KEY value) ret ∈ t ∧ (value = TRUE_STR ∨ ret ≠ 0).

Lemma stop_asked_app t v : stop_asked t → stop_asked (t ++ v).
Proof. intros (value & ret & H & Hv). exists value, ret. split; [|done]. apply elem_of_app. by left. Qed.

Lemma stop_asked_snoc t value (ret : Z) : value = TRUE_STR ∨ ret ≠ 0 →
  stop_asked (t ++ [existT (SetParameter STOP_SA_KEY value) ret]).
Proof. intros H. exists value, ret. split; [|done]. apply elem_of_app. right. by left. Qed.

Lemma wp_stop t (Φ : () → load_trace → Prop) : (∀ t', stop_asked t' → Φ () t') →
  wp (λ _ _, True) (SetParamTwice STOP_SA_KEY FALSE_STR TRUE_STR) t Φ.
Proof.
  intros HΦ. unfold SetParamTwice, GetParam.
  repeat step; try done; apply HΦ; auto using stop_asked_snoc.
Qed.

(** The service is in use, will be looked at again, or was asked to stop. *)
Definition watched u (t : load_trace) : Prop := isPinEnrolled_ u = true ∨ timerId_ u ≠ None ∨ stop_asked t.

Lemma watched_app u t v : watched u t → watched u (t ++ v).
Proof. intros [H|[H|H]]; [by left|by right; left|right; right; by apply stop_asked_app]. Qed.

(** What stays as it is. *)
Definition same_mode u u' : Prop :=
  isCredentialChecked_ u' = isCredentialChecked_ u ∧ isSubscribed_ u' = isSubscribed_ u.

Ltac unload_steps :=
  unfold GetFlag, GetParam, RestartTimer, StopTimer; cbn beta iota zeta; repeat step; try done;
  first [apply wp_stop; intros; repeat step | idtac]; unfold watched, same_mode; simpl; naive_solver.

Lemma wp_ready u t : wp (λ _ _, True) (OnFwkReady u) t (λ r t', watched r.1 t' ∧ same_mode u r.1).
Proof. unfold OnFwkReady. unload_steps. Qed.

Lemma wp_timeout u t : wp (λ _ _, True) (OnTimeout u) t (λ u' t', watched u' t' ∧ same_mode u u').
Proof. unfold OnTimeout. unload_steps. Qed.

Lemma wp_pin u b t : isCredentialChecked_ u = true → watched u t →
  wp (λ _ _, True) (OnIsPinEnrolledChange u b) t (λ u' t', watched u' t' ∧ same_mode u u').
Proof.
  intros Hc Hw. unfold OnIsPinEnrolledChange. case_decide; [by apply wp_ret|].
  destruct b; simpl; rewrite ?Hc; unload_steps.
Qed.

Lemma wp_start u b t : watched u t →
  wp (λ _ _, True) (OnStartSaChange u b) t (λ u' t', watched u' t' ∧ same_mode u u').
Proof.
  intros Hw. unfold OnStartSaChange. case_decide; [by apply wp_ret|]. case_decide; [unload_steps|by apply wp_ret].
Qed.

(** The operation keeps the manager subscribed and the credentials checked. *)
Lemma wp_unload_step u op t : op ≠ UoChecked false → isCredentialChecked_ u = true → isSubscribed_ u = true → watched u t →
  wp (λ _ _, True) (unload_step u op) t (λ u' t',
    isCredentialChecked_ u' = true ∧ isSubscribed_ u' = true ∧ watched u' t').
Proof.
  intros Hop Hc Hs Hw. destruct op as [w| |b|b|b|]; simpl.
  - unfold StartSubscribe. rewrite Hs. by apply wp_bind, wp_ret, wp_ret.
  - eapply wp_wand; [apply wp_timeout|]. intros u' t' (? & -> & ->). done.
  - eapply wp_wand; [by apply wp_pin|]. intros u' t' (? & -> & ->). done.
  - eapply wp_wand; [by apply wp_start|]. intros u' t' (? & -> & ->). done.
  - destruct b; [|done]. unfold OnCredentialCheckedChange. rewrite Hc. by apply wp_ret.
  - apply wp_bind. eapply wp_wand; [apply wp_ready|]. intros [u' b] t' (? & E1 & E2). apply wp_ret.
    simpl in *. by rewrite E1, E2.
Qed.

(** Where the requests to stop come from. *)
Definition allowed (op : unload_op) u (v : load_trace) : Prop :=
  Forall (λ e, stop_call (asked e) = true → isPinEnrolled_ u = false ∧ timerId_ u = None ∧ (op = UoTimeout ∨ op = UoFwkReady)) v.

Lemma leaves_no_stop op {A} (m : loadk A) (f : A → Unloader) :
  only (λ q, negb (stop_call q)) m → leaves m (λ a v, allowed op (f a) v).
Proof.
  intros Hm. apply (leaves_only (λ q, negb (stop_call q))); [done|]. intros a v H. eapply Forall_impl; [exact H|].
  intros e He Hs. simpl in He. by rewrite Hs in He.
Qed.

Lemma allowed_stop op u v : isPinEnrolled_ u = false → timerId_ u = None → op = UoTimeout ∨ op = UoFwkReady → allowed op u v.
Proof. intros. apply Forall_true. eauto. Qed.

Lemma unload_StopTimer u : leaves (StopTimer u) (λ u' v,
  isPinEnrolled_ u' = isPinEnrolled_ u ∧ timerId_ u' = None ∧ Forall (λ e, stop_call (asked e) = false) v).
Proof.
  eapply leaves_mono; [apply (leaves_guarded (λ q, stop_call q = false) _
    (λ u', isPinEnrolled_ u' = isPinEnrolled_ u ∧ timerId_ u' = None))|cbv beta; tauto].
  intros t. unfold StopTimer. destruct (timerId_ u) eqn:E; repeat step; done.
Qed.

Lemma leaves_unload_step u op : leaves (unload_step u op) (allowed op).
Proof.
  destruct op as [w| |b|b|b|]; simpl.
  1, 3, 4, 5: eapply (leaves_no_stop _ _ (λ u, u)); unfold StartSubscribe, OnIsPinEnrolledChange, OnStartSaChange,
    OnCredentialCheckedChange, RestartTimer, StopTimer, WatchParam, GetFlag, GetParam; only_steps.
  - unfold OnTimeout. eapply leaves_bind; [apply unload_StopTimer|]. cbv beta. intros u1 v (E1 & E2 & Hv). case_decide as Hd.
    + apply leaves_ret. rewrite app_nil_r. eapply Forall_impl; [exact Hv|]. cbv beta. congruence.
    + eapply leaves_bind; [apply leaves_any|]. intros [] v1 _. apply leaves_ret.
      apply allowed_stop; [by apply not_true_is_false|done|by left].
  - unfold OnFwkReady. eapply (leaves_bind _ _ (λ r v, allowed UoFwkReady r.1 v)); [|intros [u1 b] v Hv; apply leaves_ret; by rewrite app_nil_r].
    eapply leaves_bind; [apply (leaves_only param_read); [unfold GetFlag, GetParam; only_steps|intros b v Hv; exact Hv]|].
    cbv beta. intros b v Hv. assert (∀ u1, allowed UoFwkReady u1 v) as K.
    { intros u1. eapply Forall_impl; [exact Hv|]. by intros [[] r]. }
    cbv zeta. case_decide; [apply leaves_ret; rewrite app_nil_r; apply K|].
    case_decide; [apply leaves_ret; rewrite app_nil_r; apply K|].
    eapply leaves_bind; [apply leaves_any|]. intros [] v1 _. apply leaves_ret.
    apply allowed_stop; [by apply not_true_is_false|by destruct (timerId_ _)|by right].
Qed.

(** The timers. *)
Definition unload_fires (op : unload_op) : bool := match op with UoTimeout => true | _ => false end.

Lemma timer_StopTimer u live : live = [] ∨ live = option_list (timerId_ u) →
  leaves (StopTimer u) (λ u' v, timerId_ u' = None ∧ timers UnloadTimeout live v = []).
Proof.
  intros Hl. unfold StopTimer. destruct (timerId_ u) as [z|] eqn:E.
  - eapply leaves_bind; [apply (@leaves_call load load_answer (CancelTimer z) (λ _ v, timers UnloadTimeout live v = []))|].
    + intros r. destruct Hl as [-> | ->]; simpl; [done|apply filter_one].
    + intros r v Hv. apply leaves_ret. by rewrite app_nil_r.
  - apply leaves_ret. split; [done|]. by destruct Hl as [-> | ->].
Qed.

Lemma timer_RestartTimer u : leaves (RestartTimer u) (λ u' v,
  timers UnloadTimeout (option_list (timerId_ u)) v = option_list (timerId_ u')).
Proof.
  unfold RestartTimer. eapply leaves_bind; [by apply timer_StopTimer; right|]. intros u1 v [E Hv].
  eapply leaves_bind; [apply (@leaves_call load load_answer (StartTimer UnloadTimeout TEN_MINUTE)
    (λ (r : Z) w, timers UnloadTimeout [] w = [r])); by intros r|].
  intros r w Hw. apply leaves_ret. by rewrite app_nil_r, timers_app, Hv.
Qed.

Lemma timer_quiet {A} u (m : loadk A) (f : A → Unloader) : only param_call m → gives m (λ a, timerId_ (f a) = timerId_ u) →
  leaves m (λ a v, timers UnloadTimeout (option_list (timerId_ u)) v = option_list (timerId_ (f a))).
Proof.
  intros Hm Hg. eapply leaves_mono; [apply leaves_and; [apply (leaves_no_timer UnloadTimeout), Hm|apply leaves_gives, Hg]|].
  cbv beta. intros a v [Hv ->]. apply Hv.
Qed.

Lemma timer_pin u b : leaves (OnIsPinEnrolledChange u b) (λ u' v,
  timers UnloadTimeout (option_list (timerId_ u)) v = option_list (timerId_ u')).
Proof.
  unfold OnIsPinEnrolledChange. case_decide; [by apply leaves_ret|]. cbv zeta. destruct b.
  - eapply leaves_mono; [apply (timer_StopTimer (set_enrolled u true)); by right|]. cbv beta. intros u' v [-> Hv]. exact Hv.
  - simpl. destruct (isCredentialChecked_ u); [exact (timer_RestartTimer (set_enrolled u false))|by apply leaves_ret].
Qed.

Lemma timer_start u b : leaves (OnStartSaChange u b) (λ u' v,
  timers UnloadTimeout (option_list (timerId_ u)) v = option_list (timerId_ u')).
Proof.
  unfold OnStartSaChange. case_decide; [by apply leaves_ret|]. cbv zeta.
  case_decide; [exact (timer_RestartTimer (set_start u b))|by apply leaves_ret].
Qed.

Lemma unloader_keeps_timer : keeps_timer UnloadTimeout unload_step unload_fires timerId_.
Proof.
  intros u op. destruct op as [w| |b|b|b|]; simpl.
  - eapply (leaves_bind _ _ (λ r v, timers UnloadTimeout (option_list (timerId_ u)) v = option_list (timerId_ r.1)));
      [|intros [u1 w1] v Hv; apply leaves_ret; by rewrite app_nil_r].
    unfold StartSubscribe. case_decide; [by apply leaves_ret|].
    eapply leaves_bind; [apply (leaves_no_timer UnloadTimeout), only_WatchParam|]. intros w1 v1 H1.
    eapply leaves_bind; [apply (leaves_no_timer UnloadTimeout), only_GetFlag|]. intros b1 v2 H2.
    eapply leaves_bind; [apply timer_pin|]. intros u1 v3 H3.
    eapply leaves_bind; [apply (leaves_no_timer UnloadTimeout), only_WatchParam|]. intros w2 v4 H4.
    eapply leaves_bind; [apply (leaves_no_timer UnloadTimeout), only_GetFlag|]. intros b2 v5 H5.
    eapply leaves_bind; [apply timer_start|]. intros u2 v6 H6.
    eapply leaves_bind; [apply (leaves_no_timer UnloadTimeout), only_WatchParam|]. intros w3 v7 H7.
    eapply leaves_bind; [apply (leaves_no_timer UnloadTimeout), only_GetFlag|]. intros b3 v8 H8.
    cbv beta in *. unfold OnCredentialCheckedChange.
    eapply (leaves_bind _ _ (λ u3 v9, v9 = [] ∧ timerId_ u3 = timerId_ u2)); [by case_decide; apply leaves_ret|].
    intros u3 v9 [-> E3]. apply leaves_ret. simpl.
    by rewrite !app_nil_r, !timers_app, H1, H2, H3, H4, H5, H6, H7, H8, E3.
  - unfold OnTimeout. eapply leaves_bind; [by apply timer_StopTimer; left|]. intros u1 v [E Hv].
    case_decide; [apply leaves_ret; by rewrite app_nil_r, E|].
    eapply leaves_bind; [apply (leaves_no_timer UnloadTimeout), only_SetParamTwice|]. intros [] v1 H1.
    apply leaves_ret. by rewrite app_nil_r, timers_app, Hv, H1, E.
  - apply timer_pin.
  - apply timer_start.
  - unfold OnCredentialCheckedChange. case_decide; by apply leaves_ret.
  - eapply (leaves_bind _ _ (λ r v, timers UnloadTimeout (option_list (timerId_ u)) v = option_list (timerId_ r.1)));
      [|intros [u1 b] v Hv; apply leaves_ret; by rewrite app_nil_r].
    apply (timer_quiet u _ fst).
    + unfold OnFwkReady. only_steps.
    + unfold OnFwkReady. apply gives_skip. intros b. cbv zeta. repeat case_decide; try by apply gives_ret.
      apply gives_skip. intros []. by apply gives_ret.
Qed.


End UnloaderLaws.
