(* ===== verification/Contexts.v ===== *)
(** * Contexts without a user interface

    Models services/context: what [BaseContext] (base_context.cpp) gives every
    context, and the contexts for a plain authentication, an enrollment, a
    deletion and an identification (simple_auth_context.cpp,
    enroll_context.cpp, delete_context.cpp, identify_context.cpp).

    [ctx A] is the state of a context whose own members are [A]; the callback
    and the engine object of a context are never null, because the factory
    makes no context without them. The virtual functions are the class
    [ContextKind]. What the stages of a request cost in time ([Mark],
    [EnterWait], [ExitWait]) and the traces are left out, and so are the death
    recipient of the caller and the observer of its foreground state, which
    cancel the context through the pool. *)

From S2P Require Import Prelude Defines Interaction ServiceTypes Attributes Platform IpcCommon UserIdmDatabase.
From S2P Require Import NodeCommands EngineTalk.

(* @file B = src/services/context/src/base_context.cpp *)
(* @file BH = src/services/context/inc/base_context.h *)
(* @file S = src/services/context/src/simple_auth_context.cpp *)
(* @file SH = src/services/context/inc/simple_auth_context.h *)
(* @file E = src/services/context/src/enroll_context.cpp *)
(* @file D = src/services/context/src/delete_context.cpp *)
(* @file I = src/services/context/src/identify_context.cpp *)
(* @file AC = src/frameworks/common/inc/auth_common.h *)
(* @file EV = src/services/base/inc/iam_event_dispatcher.h *)

(** ** BaseContext *)

(* @src BH:76-83 BaseContext *)
Record ctx (A : Type) := mkCtx {
  contextId_ : Z;
  hasStarted_ : bool;
  stopRequested_ : bool;
  startFailDelivered_ : bool;
  latestError_ : Z;
  scheduleList_ : list Schedule;
  members : A;
}.
Arguments mkCtx {A}.
Arguments contextId_ {A}. Arguments hasStarted_ {A}. Arguments stopRequested_ {A}.
Arguments startFailDelivered_ {A}. Arguments latestError_ {A}. Arguments scheduleList_ {A}.
Arguments members {A}.

(** The caller is told. *)
Definition tell_caller (code : Z) (extraInfo : Attributes) : service () := call (OnResult true code extraInfo).

Section Base.
Context {A : Type}.
Implicit Types c : ctx A.

(* @src B BaseContext::BaseContext *)
Definition ctx_new (contextId : Z) (a : A) : ctx A := mkCtx contextId false false false GENERAL_ERROR [] a.

(* @src B BaseContext::SetLatestError *)
Definition SetLatestError c (error : Z) : ctx A :=
  mkCtx (contextId_ c) (hasStarted_ c) (stopRequested_ c) (startFailDelivered_ c) (latest (latestError_ c) error)
    (scheduleList_ c) (members c).
(* @src B BaseContext::GetLatestError *)
Definition GetLatestError c : Z := latestError_ c.
(* @src B BaseContext::GetContextId *)
Definition GetContextId c : Z := contextId_ c.
(* @src B BaseContext::SetScheduleList *)
Definition SetScheduleList c (scheduleList : list Schedule) : ctx A :=
  mkCtx (contextId_ c) (hasStarted_ c) (stopRequested_ c) (startFailDelivered_ c) (latestError_ c) scheduleList
    (members c).
(* @src B BaseContext::GetScheduleList *)
Definition GetScheduleList c : list Schedule := scheduleList_ c.
(* @src B BaseContext::GetScheduleNode *)
Definition GetScheduleNode c (scheduleId : Z) : option Schedule :=
  list_find (λ schedule, sc_id schedule = scheduleId) (scheduleList_ c) ≫= λ '(_, schedule), Some schedule.

Definition set_members c (a : A) : ctx A :=
  mkCtx (contextId_ c) (hasStarted_ c) (stopRequested_ c) (startFailDelivered_ c) (latestError_ c) (scheduleList_ c) a.
Definition set_started c : ctx A :=
  mkCtx (contextId_ c) true (stopRequested_ c) (startFailDelivered_ c) (latestError_ c) (scheduleList_ c) (members c).
Definition set_stop_requested c : ctx A :=
  mkCtx (contextId_ c) (hasStarted_ c) true (startFailDelivered_ c) (latestError_ c) (scheduleList_ c) (members c).
Definition set_fail_delivered c : ctx A :=
  mkCtx (contextId_ c) (hasStarted_ c) (stopRequested_ c) true (latestError_ c) (scheduleList_ c) (members c).

(** The virtual functions of a kind of context. *)
(* @src BH:62-64 BaseContext *)
Class ContextKind := {
  OnStart : ctx A → service (ctx A * bool);
  OnResult : ctx A → Z → option Attributes → service (ctx A);
  OnStop : ctx A → service (ctx A * bool);
}.

(* @src B BaseContext::Start *)
Definition Start `{ContextKind} c : service (ctx A * bool) :=
  WHEN hasStarted_ c = true RETURN mret (c, false) ;;
  WHEN stopRequested_ c = true RETURN mret (SetLatestError c CANCELED, false) ;;
  OnStart (set_started c).

(* @src B BaseContext::OnStartFailed *)
Definition OnStartFailed c (errorCode : Z) : service (ctx A) :=
  WHEN startFailDelivered_ c = true RETURN mret c ;;
  let c := set_fail_delivered c in
  tell_caller errorCode Attributes_new;;
  mret c.

(* @src B BaseContext::Stop *)
Definition Stop `{ContextKind} c : service (ctx A * bool) :=
  if decide (hasStarted_ c = false) then
    WHEN stopRequested_ c = true RETURN mret (c, true) ;;
    c ← OnStartFailed (set_stop_requested c) CANCELED;
    mret (c, true)
  else OnStop c.

(* @src B BaseContext::OnScheduleProcessed *)
Definition OnScheduleProcessed c (src moduleType : Z) (acquireMsg : bytes) : service () :=
  call (OnAcquireInfo src moduleType acquireMsg).

(* @src B BaseContext::OnScheduleStoped *)
Definition OnScheduleStoped `{ContextKind} c (resultCode : Z) (finalResult : option Attributes) : service (ctx A) :=
  OnResult c resultCode finalResult.
End Base.
Arguments ContextKind : clear implicits.

Definition post_task (task : ServiceTask) : service () := call (PostTask task).

(** The one schedule of a context, if it has one. *)
Definition stop_schedule {A} (c : ctx A) : service () :=
  match scheduleList_ c with
  | [schedule] => call (StopSchedule (sc_id schedule));; mret ()
  | _ => mret ()
  end.

(** Its schedule runs, unless there is not exactly one or it refuses. *)
Definition start_schedule {A} (c : ctx A) : service bool :=
  match scheduleList_ c with
  | [schedule] => call (StartSchedule (sc_id schedule))
  | _ => mret false
  end.

(** ** SimpleAuthContext *)

(* @src SH:const FIRST_LOCKOUT_DURATION_OF_PIN *)
Definition FIRST_LOCKOUT_DURATION_OF_PIN : Z := 60 * 1000.
(* @src AC:const API_VERSION_9 *)
Definition API_VERSION_9 : Z := 9.
(* @src EV:const EVENT_AUTH_INITIATED *)
Definition EVENT_AUTH_INITIATED : Z := 1.
(* @src EV:const EVENT_AUTH_RESULT *)
Definition EVENT_AUTH_RESULT : Z := 2.

(* @src SH:struct AuthEventInfo *)
Record AuthEventInfo := mkAuthEvent {
  ev_resultCode : option Z;
  ev_credentialId : option Z;
  ev_authTrustLevel : option Z;
}.

(** The contexts that derive from [SimpleAuthContext] have its member [auth_]. *)
Class HasAuth (A : Type) := {
  auth_ : A → Authentication.t;
  set_auth_ : A → Authentication.t → A;
}.

Module SimpleAuth.
Section SimpleAuth.
Context {A : Type} `{HasAuth A}.
Implicit Types c : ctx A.

Definition auth c : Authentication.t := auth_ (members c).
Definition set_auth c (a : Authentication.t) : ctx A := set_members c (set_auth_ (members c) a).

(* @src S SimpleAuthContext::GetUserId *)
Definition GetUserId c : Z := Authentication.GetUserId (auth c).
(* @src S SimpleAuthContext::GetAuthType *)
Definition GetAuthType c : Z := Authentication.GetAuthType (auth c).
(* @src S SimpleAuthContext::GetTokenId *)
Definition GetTokenId c : Z := Authentication.GetAccessTokenId (auth c).

Definition optional_setter {B} (v : option B) (set : B → Attributes → Attributes * bool) :
    list (Attributes → Attributes * bool) :=
  match v with Some b => [set b] | None => [] end.

Definition event_data c (info : AuthEventInfo) : Attributes * bool :=
  set_all Attributes_new ([
    (λ a, SetUint64Value a ATTR_CONTEXT_ID (contextId_ c));
    (λ a, SetInt32Value a ATTR_USER_ID (GetUserId c));
    (λ a, SetInt32Value a ATTR_AUTH_TYPE (GetAuthType c))] ++
    optional_setter (ev_resultCode info) (λ v a, SetInt32Value a ATTR_RESULT_CODE v) ++
    optional_setter (ev_credentialId info) (λ v a, SetUint64Value a ATTR_CREDENTIAL_ID v) ++
    optional_setter (ev_authTrustLevel info) (λ v a, SetUint32Value a ATTR_AUTH_TRUST_LEVEL v)).

(* @src S SimpleAuthContext::PostEvent *)
Definition PostEvent c (eventId : Z) (info : AuthEventInfo) : service () :=
  ok ← call (MakeShared "Attributes");
  CHECK ok = true ELSE mret () ;;
  let '(data, ret) := event_data c info in
  CHECK ret = true ELSE mret () ;;
  call (Platform.PostEvent eventId data).

(** A security question, if the schedule asks one. *)
Definition wanted (scheduleNode : Schedule) (cred : CredentialInfoImpl) : bool :=
  eqb (bool_decide (sc_authIntent scheduleNode = QUESTION_AUTH)) (bool_decide (GetAuthSubType cred = PIN_QUESTION)).

(** Of a private PIN the first credential of the right kind. *)
(* @src S SimpleAuthContext::GetPropertyTemplateIds *)
Definition GetPropertyTemplateIds c (resultInfo : AuthResultInfo) : service (option (list Z)) :=
  match scheduleList_ c with
  | [scheduleNode] =>
    WHEN sc_authType scheduleNode ≠ PRIVATE_PIN RETURN mret (Some (sc_templateIdList scheduleNode)) ;;
    '(ret, credInfos) ← GetCredentialInfo (ar_userId resultInfo) (sc_authType scheduleNode);
    CHECK ret = SUCCESS ELSE mret None ;;
    mret (Some (GetTemplateId <$> take 1 (List.filter (wanted scheduleNode) credInfos)))
  | _ => mret None
  end.

(** What the executor is asked for. *)
Definition lockout_query (authType : Z) (templateIdList : list Z) : Attributes :=
  let keys := [ATTR_FREEZING_TIME; ATTR_REMAIN_TIMES] ++
    (if decide (authType = PIN) then [ATTR_NEXT_FAIL_LOCKOUT_DURATION] else []) in
  let attr := (SetUint32ArrayValue Attributes_new ATTR_KEY_LIST keys).1 in
  let attr := (SetUint32Value attr ATTR_PROPERTY_MODE PROPERTY_MODE_GET).1 in
  (SetUint64ArrayValue attr ATTR_TEMPLATE_ID_LIST templateIdList).1.

Definition set_lockout (r : AuthResultInfo) (next freezing remain : Z) : AuthResultInfo :=
  mkAuthResult (ar_result r) (ar_authTrustLevel r) freezing remain (ar_token r) (ar_rootSecret r)
    (ar_credentialDigest r) (ar_credentialCount r) (ar_sdkVersion r) (ar_userId r) next (ar_pinExpiredInfo r)
    (ar_remoteAuthResultMsg r) (ar_credentialId r) (ar_reEnrollFlag r).
Definition set_next (r : AuthResultInfo) (next : Z) : AuthResultInfo :=
  set_lockout r next (ar_freezingTime r) (ar_remainTimes r).
Definition set_result (r : AuthResultInfo) (result : Z) : AuthResultInfo :=
  mkAuthResult result (ar_authTrustLevel r) (ar_freezingTime r) (ar_remainTimes r) (ar_token r) (ar_rootSecret r)
    (ar_credentialDigest r) (ar_credentialCount r) (ar_sdkVersion r) (ar_userId r) (ar_nextFailLockoutDuration r)
    (ar_pinExpiredInfo r) (ar_remoteAuthResultMsg r) (ar_credentialId r) (ar_reEnrollFlag r).

(** The answers of the executor, one after the other; what was read before a
    missing one is kept. *)
Definition read_lockout (authType : Z) (values : Attributes) (r : AuthResultInfo) : AuthResultInfo * Z :=
  match (if decide (authType = PIN) then GetInt32Value values ATTR_NEXT_FAIL_LOCKOUT_DURATION
         else Some (ar_nextFailLockoutDuration r)) with
  | None => (r, GENERAL_ERROR)
  | Some next =>
    let r := set_next r next in
    match GetInt32Value values ATTR_FREEZING_TIME with
    | None => (r, GENERAL_ERROR)
    | Some freezing =>
      let r := set_lockout r next freezing (ar_remainTimes r) in
      match GetInt32Value values ATTR_REMAIN_TIMES with
      | None => (r, GENERAL_ERROR)
      | Some remain => (set_lockout r next freezing remain, SUCCESS)
      end
    end
  end.

(* @src S SimpleAuthContext::GetPropertyForAuthResult *)
Definition GetPropertyForAuthResult c (r : AuthResultInfo) : service (AuthResultInfo * Z) :=
  match scheduleList_ c with
  | [scheduleNode] =>
    let authType := sc_authType scheduleNode in
    let r := set_next r
      (if decide (authType = PIN) then FIRST_LOCKOUT_DURATION_OF_PIN else FIRST_LOCKOUT_DURATION_EXCEPT_PIN) in
    WHEN ar_result r ≠ FAIL ∧ ar_result r ≠ LOCKED RETURN mret (r, SUCCESS) ;;
    resourceNode ← call (LockVerifier (sc_id scheduleNode));
    match resourceNode with
    | None => mret (r, GENERAL_ERROR)
    | Some node =>
      templateIdList ← GetPropertyTemplateIds c r;
      match templateIdList with
      | None => mret (r, GENERAL_ERROR)
      | Some templateIdList =>
        '(ret, values) ← call (NodeGetProperty node (lockout_query authType templateIdList));
        CHECK ret = SUCCESS ELSE mret (r, GENERAL_ERROR) ;;
        mret (read_lockout authType values r)
      end
    end
  | _ => mret (r, GENERAL_ERROR)
  end.

(* @src S SimpleAuthContext::OnStart *)
Definition OnStart c : service (ctx A * bool) :=
  '(a, scheduleList) ← Authentication.Start (auth c);
  let c := set_auth c a in
  match scheduleList with
  | None => mret (SetLatestError c (Authentication.GetLatestError a), false)
  | Some scheduleList =>
    let c := SetScheduleList c scheduleList in
    startScheduleRet ← start_schedule c;
    CHECK startScheduleRet = true ELSE mret (c, false) ;;
    PostEvent c EVENT_AUTH_INITIATED (mkAuthEvent None None None);;
    mret (c, true)
  end.

(* @src S SimpleAuthContext::UpdateScheduleResult *)
Definition UpdateScheduleResult c (scheduleResultAttr : option Attributes) (resultInfo : AuthResultInfo) :
    service (ctx A * AuthResultInfo * bool) :=
  match scheduleResultAttr ≫= λ attr, GetUint8ArrayValue attr ATTR_RESULT with
  | None => mret (c, resultInfo, false)
  | Some scheduleResult =>
    '(a, resultInfo, updateRet) ← Authentication.Update (auth c) scheduleResult resultInfo;
    let c := set_auth c a in
    CHECK updateRet = true ELSE mret (SetLatestError c (Authentication.GetLatestError a), resultInfo, false) ;;
    mret (c, resultInfo, true)
  end.

(* @src S SimpleAuthContext::SendAuthExecutorMsg *)
Definition SendAuthExecutorMsg c : service () :=
  for_each (λ _ msg, post_task (TaskSendExecutorMsg (em_executorIndex msg) (em_commandId msg) (em_msg msg))) ()
    (Authentication.GetAuthExecutorMsgs (auth c)).

(* @src S SimpleAuthContext::SetCredentialDigest *)
Definition SetCredentialDigest (r : AuthResultInfo) (finalResult : Attributes) : Attributes * bool :=
  let credentialDigest := if decide (ar_sdkVersion r < INNER_API_VERSION_10000)
    then Z.land (ar_credentialDigest r) UINT16_MAX else ar_credentialDigest r in
  set_all finalResult [
    (λ a, SetUint64Value a ATTR_CREDENTIAL_DIGEST credentialDigest);
    (λ a, SetUint16Value a ATTR_CREDENTIAL_COUNT (ar_credentialCount r))].

Definition when (b : Prop) `{Decision b} (l : list (Attributes → Attributes * bool)) := if decide b then l else [].

(** The attributes that could be set before the first that could not. *)
(* @src S SimpleAuthContext::SetAuthResultAttributes *)
Definition SetAuthResultAttributes (r : AuthResultInfo) (finalResult : Attributes) : Attributes :=
  (set_all finalResult (
    [(λ a, SetInt32Value a ATTR_RESULT_CODE (ar_result r));
     (λ a, SetInt32Value a ATTR_NEXT_FAIL_LOCKOUT_DURATION (ar_nextFailLockoutDuration r))] ++
    when (ar_result r = FAIL ∨ ar_result r = LOCKED ∨ ar_result r = SUCCESS) [
      (λ a, SetInt32Value a ATTR_FREEZING_TIME (ar_freezingTime r));
      (λ a, SetInt32Value a ATTR_REMAIN_TIMES (ar_remainTimes r))] ++
    when ((ar_result r = SUCCESS ∨ ar_token r ≠ []) ∧ API_VERSION_9 < ar_sdkVersion r) [
      (λ a, SetCredentialDigest r a)] ++
    when (ar_result r = SUCCESS) [
      (λ a, SetInt32Value a ATTR_USER_ID (ar_userId r));
      (λ a, SetUint64Value a ATTR_CREDENTIAL_ID (ar_credentialId r));
      (λ a, SetInt64Value a ATTR_PIN_EXPIRED_INFO (ar_pinExpiredInfo r))] ++
    when (ar_token r ≠ []) [(λ a, SetUint8ArrayValue a ATTR_SIGNATURE (ar_token r))] ++
    when (ar_rootSecret r ≠ []) [(λ a, SetUint8ArrayValue a ATTR_ROOT_SECRET (ar_rootSecret r))] ++
    when (ar_remoteAuthResultMsg r ≠ []) [
      (λ a, SetUint8ArrayValue a ATTR_SIGNED_AUTH_RESULT (ar_remoteAuthResultMsg r))] ++
    [(λ a, SetBoolValue a ATTR_RE_ENROLL_FLAG (ar_reEnrollFlag r))])).1.

(* @src S SimpleAuthContext::InvokeResultCallback *)
Definition InvokeResultCallback c (r : AuthResultInfo) : service () :=
  let finalResult := SetAuthResultAttributes r Attributes_new in
  PostEvent c EVENT_AUTH_RESULT
    (mkAuthEvent (Some (ar_result r)) (Some (ar_credentialId r)) (Some (ar_authTrustLevel r)));;
  tell_caller (ar_result r) finalResult.

(** The code of the result, of what the schedule and the engine say. *)
Definition final_result c (resultCode : Z) (resultInfo : AuthResultInfo) (updateRet : bool) : AuthResultInfo :=
  if decide (updateRet = false) then
    set_result resultInfo (if decide (resultCode = SUCCESS) then latestError_ c else resultCode)
  else if decide (resultCode ≠ ar_result resultInfo) then
    set_result resultInfo (if decide (ar_result resultInfo = SUCCESS) then resultCode else ar_result resultInfo)
  else resultInfo.

(* @src S SimpleAuthContext::OnResult *)
Definition OnResult c (resultCode : Z) (scheduleResultAttr : option Attributes) : service (ctx A) :=
  '(c, resultInfo, updateRet) ← UpdateScheduleResult c scheduleResultAttr AuthResultInfo_new;
  let resultInfo := final_result c resultCode resultInfo updateRet in
  '(resultInfo, _) ← GetPropertyForAuthResult c resultInfo;
  (if decide (ar_result resultInfo = SUCCESS ∧ GetAuthType c = PIN)
   then call (CacheReEnrollFlag (ar_reEnrollFlag resultInfo)) else mret ());;
  SendAuthExecutorMsg c;;
  InvokeResultCallback c resultInfo;;
  mret c.

(* @src S SimpleAuthContext::OnStop *)
Definition OnStop c : service (ctx A * bool) :=
  stop_schedule c;;
  '(a, cancelRet) ← Authentication.Cancel (auth c);
  let c := set_auth c a in
  CHECK cancelRet = true ELSE mret (SetLatestError c (Authentication.GetLatestError a), false) ;;
  mret (c, true).

(** What is left when the context goes: the engine is told to stop. *)
Definition destroy c : service () := Authentication.destroy (auth c).
End SimpleAuth.
End SimpleAuth.

#[export] Instance has_auth_auth : HasAuth Authentication.t := {| auth_ := id; set_auth_ := λ _ a, a |}.
#[export] Instance simple_auth_kind : ContextKind Authentication.t := {|
  OnStart := SimpleAuth.OnStart;
  OnResult := SimpleAuth.OnResult;
  OnStop := SimpleAuth.OnStop;
|}.

(** ** EnrollContext *)

Module Enroll.
Section Enroll.
Implicit Types c : ctx Enrollment.t.

(* @src E EnrollContext::GetTokenId *)
Definition GetTokenId c : Z := Enrollment.GetAccessTokenId (members c).
(* @src E EnrollContext::GetUserId *)
Definition GetUserId c : Z := Enrollment.GetUserId (members c).

(* @src E EnrollContext::OnStart *)
Definition OnStart c : service (ctx Enrollment.t * bool) :=
  '(e, scheduleList) ← Enrollment.Start (members c);
  let c := set_members c e in
  match scheduleList with
  | None => mret (SetLatestError c (Enrollment.GetLatestError e), false)
  | Some scheduleList =>
    let c := SetScheduleList c scheduleList in
    startScheduleRet ← start_schedule c;
    mret (c, startScheduleRet)
  end.

(** The templates of the credential that an update replaced go, unless it was
    a PIN. *)
Definition delete_replaced (infoToDel : option CredentialInfoImpl) : service () :=
  match infoToDel with
  | None => mret ()
  | Some info =>
    WHEN GetAuthType info = PIN RETURN mret () ;;
    NotifyExecutorToDeleteTemplates [info] (str "DeleteForUpdate");;
    mret ()
  end.

(* @src E EnrollContext::UpdateScheduleResult *)
Definition UpdateScheduleResult c (scheduleResultAttr : option Attributes) :
    service (ctx Enrollment.t * EnrollOut * bool) :=
  match scheduleResultAttr ≫= λ attr, GetUint8ArrayValue attr ATTR_RESULT with
  | None => mret (c, EnrollOut_new, false)
  | Some scheduleResult =>
    '(e, out, updateRet) ← Enrollment.Update (members c) scheduleResult;
    let c := set_members c e in
    CHECK updateRet = true ELSE mret (SetLatestError c (Enrollment.GetLatestError e), out, false) ;;
    delete_replaced (eo_info out);;
    mret (c, out, true)
  end.

Definition pin_setters (pinInfo : option UpdatePinParamImpl) : list (Attributes → Attributes * bool) :=
  match pinInfo with
  | None => []
  | Some p =>
    [(λ a, SetUint64Value a ATTR_OLD_CREDENTIAL_ID (GetOldCredentialId p))] ++
    SimpleAuth.when (GetRootSecret p ≠ []) [(λ a, SetUint8ArrayValue a ATTR_ROOT_SECRET (GetRootSecret p))] ++
    SimpleAuth.when (GetOldRootSecret p ≠ []) [(λ a, SetUint8ArrayValue a ATTR_OLD_ROOT_SECRET (GetOldRootSecret p))] ++
    SimpleAuth.when (GetAuthToken p ≠ []) [(λ a, SetUint8ArrayValue a ATTR_AUTH_TOKEN (GetAuthToken p))]
  end.

Definition result_attributes (out : EnrollOut) : Attributes * bool :=
  set_all Attributes_new (
    SimpleAuth.optional_setter (eo_secUserId out) (λ v a, SetUint64Value a ATTR_SEC_USER_ID v) ++
    [(λ a, SetUint64Value a ATTR_CREDENTIAL_ID (eo_credentialId out))] ++
    pin_setters (eo_pinInfo out)).

(* @src E EnrollContext::InvokeResultCallback *)
Definition InvokeResultCallback (resultCode : Z) (out : EnrollOut) : service () :=
  let '(finalResult, ok) := result_attributes out in
  CHECK ok = true ELSE mret () ;;
  tell_caller resultCode finalResult.

(* @src E EnrollContext::OnResult *)
Definition OnResult c (resultCode : Z) (scheduleResultAttr : option Attributes) : service (ctx Enrollment.t) :=
  '(c, out, updateRet) ← UpdateScheduleResult c scheduleResultAttr;
  let resultCode := if decide (updateRet = false ∧ resultCode = SUCCESS) then latestError_ c else resultCode in
  InvokeResultCallback resultCode out;;
  mret c.

(* @src E EnrollContext::OnStop *)
Definition OnStop c : service (ctx Enrollment.t * bool) :=
  stop_schedule c;;
  '(e, cancelRet) ← Enrollment.Cancel (members c);
  let c := set_members c e in
  CHECK cancelRet = true ELSE mret (SetLatestError c (Enrollment.GetLatestError e), false) ;;
  mret (c, true).

Definition destroy c : service () := Enrollment.destroy (members c).
End Enroll.
End Enroll.

#[export] Instance enroll_kind : ContextKind Enrollment.t := {|
  OnStart := Enroll.OnStart;
  OnResult := Enroll.OnResult;
  OnStop := Enroll.OnStop;
|}.

(** ** IdentifyContext *)

Module Identify.
Section Identify.
Implicit Types c : ctx Identification.t.

(* @src I IdentifyContext::GetTokenId *)
Definition GetTokenId c : Z := Identification.GetAccessTokenId (members c).

(* @src I IdentifyContext::OnStart *)
Definition OnStart c : service (ctx Identification.t * bool) :=
  '(i, scheduleList) ← Identification.Start (members c);
  let c := set_members c i in
  match scheduleList with
  | None => mret (SetLatestError c (Identification.GetLatestError i), false)
  | Some scheduleList =>
    let c := SetScheduleList c scheduleList in
    startScheduleRet ← start_schedule c;
    mret (c, startScheduleRet)
  end.

(* @src I IdentifyContext::UpdateScheduleResult *)
Definition UpdateScheduleResult c (scheduleResultAttr : option Attributes) (resultInfo : IdentifyResultInfo) :
    service (ctx Identification.t * IdentifyResultInfo * bool) :=
  match scheduleResultAttr ≫= λ attr, GetUint8ArrayValue attr ATTR_RESULT with
  | None => mret (c, resultInfo, false)
  | Some scheduleResult =>
    '(i, resultInfo, updateRet) ← Identification.Update (members c) scheduleResult resultInfo;
    let c := set_members c i in
    CHECK updateRet = true ELSE mret (SetLatestError c (Identification.GetLatestError i), resultInfo, false) ;;
    mret (c, resultInfo, true)
  end.

Definition result_attributes (r : IdentifyResultInfo) : Attributes * bool :=
  set_all Attributes_new (
    [(λ a, SetInt32Value a ATTR_RESULT_CODE (ir_result r));
     (λ a, SetInt32Value a ATTR_USER_ID (ir_userId r))] ++
    SimpleAuth.when (ir_token r ≠ []) [(λ a, SetUint8ArrayValue a ATTR_SIGNATURE (ir_token r))]).

(* @src I IdentifyContext::InvokeResultCallback *)
Definition InvokeResultCallback (r : IdentifyResultInfo) : service () :=
  let '(finalResult, ok) := result_attributes r in
  CHECK ok = true ELSE mret () ;;
  tell_caller (ir_result r) finalResult.

(* @src I IdentifyContext::OnResult *)
Definition OnResult c (resultCode : Z) (scheduleResultAttr : option Attributes) : service (ctx Identification.t) :=
  '(c, resultInfo, updateRet) ← UpdateScheduleResult c scheduleResultAttr IdentifyResultInfo_new;
  let resultInfo :=
    if decide (updateRet = false) then
      mkIdentifyResult (if decide (resultCode = SUCCESS) then latestError_ c else resultCode)
        (ir_userId resultInfo) (ir_token resultInfo)
    else resultInfo in
  InvokeResultCallback resultInfo;;
  mret c.

(* @src I IdentifyContext::OnStop *)
Definition OnStop c : service (ctx Identification.t * bool) :=
  stop_schedule c;;
  '(i, cancelRet) ← Identification.Cancel (members c);
  let c := set_members c i in
  CHECK cancelRet = true ELSE mret (SetLatestError c (Identification.GetLatestError i), false) ;;
  mret (c, true).

Definition destroy c : service () := Identification.destroy (members c).
End Identify.
End Identify.

#[export] Instance identify_kind : ContextKind Identification.t := {|
  OnStart := Identify.OnStart;
  OnResult := Identify.OnResult;
  OnStop := Identify.OnStop;
|}.

(** ** DeleteContext *)

Module Delete.
Section Delete.
Implicit Types c : ctx Deletion.t.

(* @src D DeleteContext::GetTokenId *)
Definition GetTokenId c : Z := Deletion.GetAccessTokenId (members c).
(* @src D DeleteContext::GetUserId *)
Definition GetUserId c : Z := Deletion.GetUserId (members c).

(* @src D DeleteContext::InvokeResultCallback *)
Definition InvokeResultCallback (resultCode : Z) : service () := tell_caller resultCode Attributes_new.

(* @src D DeleteContext::OnStart *)
Definition OnStart c : service (ctx Deletion.t * bool) :=
  '(d, out, startRet) ← Deletion.Start (members c);
  let c := set_members c d in
  CHECK startRet = true ELSE mret (SetLatestError c (Deletion.GetLatestError d), false) ;;
  let c := SetScheduleList c (do_scheduleList out) in
  if decide (do_isStartSchedule out = false) then
    InvokeResultCallback SUCCESS;;
    mret (c, true)
  else
    startScheduleRet ← start_schedule c;
    mret (c, startScheduleRet).

(** The template that the result names goes too. *)
Definition delete_abandoned (infoToDel : option CredentialInfoImpl) : service () :=
  match infoToDel with
  | None => mret ()
  | Some info => NotifyExecutorToDeleteTemplates [info] (str "DeleteForUpdate");; mret ()
  end.

(* @src D DeleteContext::UpdateScheduleResult *)
Definition UpdateScheduleResult c (scheduleResultAttr : option Attributes) : service (ctx Deletion.t * bool) :=
  match scheduleResultAttr ≫= λ attr, GetUint8ArrayValue attr ATTR_RESULT with
  | None => mret (c, false)
  | Some scheduleResult =>
    '(d, infoToDel, updateRet) ← Deletion.Update (members c) scheduleResult;
    let c := set_members c d in
    CHECK updateRet = true ELSE mret (SetLatestError c (Deletion.GetLatestError d), false) ;;
    delete_abandoned infoToDel;;
    mret (c, true)
  end.

(* @src D DeleteContext::OnResult *)
Definition OnResult c (resultCode : Z) (scheduleResultAttr : option Attributes) : service (ctx Deletion.t) :=
  '(c, updateRet) ← UpdateScheduleResult c scheduleResultAttr;
  InvokeResultCallback (if decide (updateRet = false ∧ resultCode = SUCCESS) then latestError_ c else resultCode);;
  mret c.

(* @src D DeleteContext::OnStop *)
Definition OnStop c : service (ctx Deletion.t * bool) :=
  stop_schedule c;;
  '(d, cancelRet) ← Deletion.Cancel (members c);
  let c := set_members c d in
  CHECK cancelRet = true ELSE mret (SetLatestError c (Deletion.GetLatestError d), false) ;;
  mret (c, true).
End Delete.
End Delete.

#[export] Instance delete_kind : ContextKind Deletion.t := {|
  OnStart := Delete.OnStart;
  OnResult := Delete.OnResult;
  OnStop := Delete.OnStop;
|}.
