(* ===== verification/ContextsThm.v ===== *)
(** * Contexts without a user interface: what they promise

    The life of a context among the calls of the pool and of its schedule
    is seen through what a kind of context does at each of them. This file counts
    the results and the started schedules of every operation and states the laws
    that a kind keeps ([ContextKindLaws]); ContextLife.v puts them together. *)

From S2P Require Import Prelude Defines Interaction ServiceTypes AttributesImpl Attributes Platform IpcCommon.
From S2P Require Import UserIdmDatabase NodeCommands EngineTalk Contexts.

(** ** What is counted *)

(** A schedule was started. *)
Definition is_begun (e : event answer) : bool :=
  match e with existT q r =>
    match q return answer q → bool with Platform.StartSchedule _ => λ b, b | _ => λ _, false end r
  end.
Definition begun (t : trace) : nat := tally is_begun t.

Definition counts {A} (m : service A) (P : A → nat → nat → Prop) : Prop := tallies is_result is_begun m P.

Lemma silent_calm e : silent (asked e) = true → is_result e = false ∧ is_begun e = false.
Proof. by destruct e as [[] ?]. Qed.

Lemma counts_ret {A} (a : A) (P : A → nat → nat → Prop) : P a 0%nat 0%nat → counts (mret a) P.
Proof. apply tallies_ret. Qed.
Lemma counts_bind {A B} (m : service A) (k : A → service B) (P : A → nat → nat → Prop) P' :
  counts m P → (∀ a r s, P a r s → counts (k a) (λ b r' s', P' b (r + r')%nat (s + s')%nat)) → counts (m ≫= k) P'.
Proof. apply tallies_bind. Qed.
Lemma counts_mono {A} (m : service A) (P P' : A → nat → nat → Prop) :
  counts m P → (∀ a r s, P a r s → P' a r s) → counts m P'.
Proof. apply tallies_mono. Qed.
Lemma counts_silent {A} (m : service A) (P : A → nat → nat → Prop) :
  only silent m → (∀ a, P a 0 0)%nat → counts m P.
Proof. apply tallies_only, silent_calm. Qed.
Lemma counts_silent_bind {A B} (m : service A) (k : A → service B) P :
  only silent m → (∀ a, counts (k a) P) → counts (m ≫= k) P.
Proof. apply tallies_only_bind, silent_calm. Qed.

Lemma counts_told code attr : counts (tell_caller code attr) (λ _ r b, r = 1 ∧ b = 0)%nat.
Proof. by apply (tallies_call is_result is_begun (Platform.OnResult true code attr)). Qed.
Lemma counts_start_schedule {A} (c : ctx A) :
  counts (start_schedule c) (λ ok r b, r = 0 ∧ b = if (ok : bool) then 1 else 0)%nat.
Proof.
  unfold start_schedule. destruct (scheduleList_ c) as [|s [|]]; [by apply counts_ret| |by apply counts_ret].
  by apply (tallies_call is_result is_begun (Platform.StartSchedule (sc_id s))).
Qed.

(** Runs a function of a context and counts. *)
Ltac count_step :=
  cbv zeta;
  lazymatch goal with
  | |- counts (mret _) _ => apply counts_ret
  | |- counts (tell_caller ?code ?attr) _ =>
      eapply counts_mono; [apply (counts_told code attr)|intros ? ? ? [-> ->]]
  | |- counts (tell_caller ?code ?attr ≫= _) _ =>
      eapply counts_bind; [apply (counts_told code attr)|intros ? ? ? [-> ->]]
  | |- counts (start_schedule ?c ≫= _) _ =>
      eapply counts_bind; [apply (counts_start_schedule c)|intros ? ? ? [-> ->]]
  | |- counts (_ ≫= _) _ => apply counts_silent_bind; [solve [eauto with service|only_steps]|intros ?]
  | |- counts (match ?x with _ => _ end) _ => branch_on x
  end.

(** ** What the functions call *)

Lemma only_post_task task : only silent (post_task task).
Proof. unfold post_task. only_steps. Qed.
Lemma only_stop_schedule {A} (c : ctx A) : only silent (stop_schedule c).
Proof. unfold stop_schedule. only_steps. Qed.
#[export] Hint Resolve only_post_task only_stop_schedule : service.

Lemma only_announce u ty l : only silent (announce u ty l).
Proof. unfold announce. only_steps. Qed.
#[export] Hint Resolve only_announce : service.
Lemma only_ProcessCredentialDeleted p i ty : only silent (ProcessCredentialDeleted p i ty).
Proof. unfold ProcessCredentialDeleted. only_steps. Qed.
Lemma only_ProcessCredentialEnrolled p r b i : only silent (ProcessCredentialEnrolled p r b i).
Proof. unfold ProcessCredentialEnrolled. only_steps. Qed.
#[export] Hint Resolve only_ProcessCredentialDeleted only_ProcessCredentialEnrolled : service.

Lemma only_auth_Start a : only silent (Authentication.Start a).
Proof. unfold Authentication.Start. only_steps. Qed.
Lemma only_auth_Update a s r : only silent (Authentication.Update a s r).
Proof. unfold Authentication.Update. only_steps. Qed.
Lemma only_auth_Cancel a : only silent (Authentication.Cancel a).
Proof. unfold Authentication.Cancel. only_steps. Qed.
Lemma only_enr_GetSecUserId e : only silent (Enrollment.GetSecUserId e).
Proof. unfold Enrollment.GetSecUserId. only_steps. Qed.
#[export] Hint Resolve only_auth_Start only_auth_Update only_auth_Cancel only_enr_GetSecUserId : service.
Lemma only_enr_StartSchedule e u i : only silent (Enrollment.StartSchedule e u i).
Proof. unfold Enrollment.StartSchedule. only_steps. Qed.
Lemma only_GetUserType u : only silent (GetUserTypeByUserId u).
Proof. unfold GetUserTypeByUserId. only_steps. Qed.
#[export] Hint Resolve only_enr_StartSchedule only_GetUserType : service.
Lemma only_enr_Start e : only silent (Enrollment.Start e).
Proof. unfold Enrollment.Start. only_steps. Qed.
Lemma only_enr_Update e s : only silent (Enrollment.Update e s).
Proof. unfold Enrollment.Update. only_steps. Qed.
Lemma only_enr_Cancel e : only silent (Enrollment.Cancel e).
Proof. unfold Enrollment.Cancel. only_steps. Qed.
Lemma only_id_Start i : only silent (Identification.Start i).
Proof. unfold Identification.Start. only_steps. Qed.
Lemma only_id_Update i s r : only silent (Identification.Update i s r).
Proof. unfold Identification.Update. only_steps. Qed.
Lemma only_id_Cancel i : only silent (Identification.Cancel i).
Proof. unfold Identification.Cancel. only_steps. Qed.
Lemma only_del_StartSchedule d u i : only silent (Deletion.StartSchedule d u i).
Proof. unfold Deletion.StartSchedule. only_steps. Qed.
Lemma only_del_DeleteCredential d u l : only silent (Deletion.DeleteCredential d u l).
Proof. unfold Deletion.DeleteCredential. only_steps. Qed.
#[export] Hint Resolve only_enr_Start only_enr_Update only_enr_Cancel only_id_Start only_id_Update only_id_Cancel
  only_del_StartSchedule only_del_DeleteCredential : service.
Lemma only_del_Start d : only silent (Deletion.Start d).
Proof. unfold Deletion.Start. only_steps. Qed.
Lemma only_del_Update d s : only silent (Deletion.Update d s).
Proof. unfold Deletion.Update. only_steps. Qed.
Lemma only_del_Cancel d : only silent (Deletion.Cancel d).
Proof. unfold Deletion.Cancel. only_steps. Qed.
#[export] Hint Resolve only_del_Start only_del_Update only_del_Cancel : service.

Section SimpleCalls.
Context {A : Type} `{HasAuth A}.
Implicit Types c : ctx A.
Lemma only_PostEvent c i e : only silent (SimpleAuth.PostEvent c i e).
Proof. unfold SimpleAuth.PostEvent. only_steps. Qed.
Lemma only_SendMsgs c : only silent (SimpleAuth.SendAuthExecutorMsg c).
Proof. unfold SimpleAuth.SendAuthExecutorMsg. only_steps. Qed.
Lemma only_TemplateIds c r : only silent (SimpleAuth.GetPropertyTemplateIds c r).
Proof. unfold SimpleAuth.GetPropertyTemplateIds. only_steps. Qed.
Lemma only_UpdateResult c attr r : only silent (SimpleAuth.UpdateScheduleResult c attr r).
Proof. unfold SimpleAuth.UpdateScheduleResult. only_steps. Qed.
End SimpleCalls.
#[export] Hint Resolve only_PostEvent only_SendMsgs only_TemplateIds only_UpdateResult : service.
Lemma only_GetProperty {A} `{HasAuth A} (c : ctx A) r : only silent (SimpleAuth.GetPropertyForAuthResult c r).
Proof. unfold SimpleAuth.GetPropertyForAuthResult. only_steps. Qed.
Lemma only_delete_replaced i : only silent (Enroll.delete_replaced i).
Proof. unfold Enroll.delete_replaced. only_steps. Qed.
Lemma only_delete_abandoned i : only silent (Delete.delete_abandoned i).
Proof. unfold Delete.delete_abandoned. only_steps. Qed.
#[export] Hint Resolve only_GetProperty only_delete_replaced only_delete_abandoned : service.
Lemma only_enr_UpdateResult c attr : only silent (Enroll.UpdateScheduleResult c attr).
Proof. unfold Enroll.UpdateScheduleResult. only_steps. Qed.
Lemma only_id_UpdateResult c attr r : only silent (Identify.UpdateScheduleResult c attr r).
Proof. unfold Identify.UpdateScheduleResult. only_steps. Qed.
Lemma only_del_UpdateResult c attr : only silent (Delete.UpdateScheduleResult c attr).
Proof. unfold Delete.UpdateScheduleResult. only_steps. Qed.
#[export] Hint Resolve only_enr_UpdateResult only_id_UpdateResult only_del_UpdateResult : service.

(** ** The laws of a kind of context *)

(** The engine hands over something that no attribute can hold. *)
Definition oversized_bytes (b : bytes) : bool := bool_decide (MAX_ATTR_LENGTH < Z.of_nat (length b)).
Definition is_oversized (e : event answer) : bool :=
  match e with existT q r =>
    match q return answer q → bool with
    | EngUpdateEnrollmentResult _ _ => λ r, let '(_, info) := r in
        oversized_bytes (el_rootSecret info) || oversized_bytes (el_oldRootSecret info) ||
        oversized_bytes (el_authToken info)
    | EngUpdateIdentificationResult _ _ => λ r, let '(_, info) := r in oversized_bytes (eq_token info)
    | _ => λ _, false
    end r
  end.

(** What [BaseContext] keeps about the life of a context. *)
Definition life {A} (c : ctx A) : bool * bool * bool := (hasStarted_ c, stopRequested_ c, startFailDelivered_ c).
#[global] Arguments life : simpl never.

(** [OnStart] tells the caller at once or has a schedule run, and does neither
    when it fails; [OnResult] tells the caller, unless the engine handed over
    too much; [OnStop] says nothing. *)
Class ContextKindLaws (A : Type) `{ContextKind A} : Prop := {
  start_law (c : ctx A) : counts (OnStart c) (λ '(c', ok) r b,
    life c' = life c ∧ if (ok : bool) then r + b = 1 else r = 0 ∧ b = 0)%nat;
  result_law (c : ctx A) code attr : counts (OnResult c code attr) (λ c' r b,
    life c' = life c ∧ r ≤ 1 ∧ b = 0)%nat;
  result_told (c : ctx A) code attr :
    tallies is_result is_oversized (OnResult c code attr) (λ _ r s, r ≤ 1 ∧ (s = 0 → r = 1))%nat;
  stop_law (c : ctx A) : counts (OnStop c) (λ '(c', _) r b, life c' = life c ∧ r = 0 ∧ b = 0)%nat;
}.

(** What is told, and what was too large. *)
Definition tells {A} (m : service A) (P : A → nat → nat → Prop) : Prop := tallies is_result is_oversized m P.

Lemma tells_silent {A} (m : service A) (P : A → nat → nat → Prop) : only silent m → (∀ a s, P a 0%nat s) → tells m P.
Proof.
  intros Hm HP t. eapply (wp_only _ silent); [done|done|]. intros a t' E. exists 0%nat.
  rewrite (tally_extends is_result silent t t'); [|apply silent_calm|done].
  destruct E as (u & -> & _). exists (tally is_oversized u). rewrite tally_app. auto with lia.
Qed.

Lemma tells_bind {A B} (m : service A) (k : A → service B) (P : A → nat → nat → Prop) P' :
  tells m P → (∀ a r s, P a r s → tells (k a) (λ b r' s', P' b (r + r')%nat (s + s')%nat)) → tells (m ≫= k) P'.
Proof. apply tallies_bind. Qed.
Lemma tells_ret {A} (a : A) (P : A → nat → nat → Prop) : P a 0%nat 0%nat → tells (mret a) P.
Proof. apply tallies_ret. Qed.
Lemma tells_mono {A} (m : service A) (P P' : A → nat → nat → Prop) :
  tells m P → (∀ a r s, P a r s → P' a r s) → tells m P'.
Proof. apply tallies_mono. Qed.
Lemma tells_silent_bind {A B} (m : service A) (k : A → service B) P :
  only silent m → (∀ a s, tells (k a) (λ b r' s', P b r' (s + s')%nat)) → tells (m ≫= k) P.
Proof.
  intros Hm Hk. eapply (tells_bind _ _ (λ _ r _, r = 0%nat)); [by apply tells_silent|]. intros a r s ->. apply Hk.
Qed.
Lemma tells_told code attr : tells (tell_caller code attr) (λ _ r s, r = 1 ∧ s = 0)%nat.
Proof. by apply (tallies_call is_result is_oversized (Platform.OnResult true code attr)). Qed.

Ltac tell_step :=
  cbv zeta;
  lazymatch goal with
  | |- tells (mret _) _ => apply tells_ret
  | |- tells (tell_caller ?code ?attr) _ =>
      eapply tells_mono; [apply (tells_told code attr)|intros ? ? ? [-> ->]]
  | |- tells (tell_caller ?code ?attr ≫= _) _ =>
      eapply tells_bind; [apply (tells_told code attr)|intros ? ? ? [-> ->]]
  | |- tells (_ ≫= _) _ => apply tells_silent_bind; [solve [eauto with service|only_steps]|intros ? ?]
  | |- tells (match ?x with _ => _ end) _ => branch_on x
  end.

(** A silent function about whose result something is known. *)
Definition yields {A} (m : service A) (Q : A → Prop) : Prop := only silent m ∧ ∀ t, wp (λ _ _, True) m t (λ a _, Q a).

Lemma counts_yields {A B} (m : service A) (k : A → service B) (Q : A → Prop) P :
  yields m Q → (∀ a, Q a → counts (k a) P) → counts (m ≫= k) P.
Proof.
  intros [Hm HQ] Hk. eapply (counts_bind _ _ (λ a r b, Q a ∧ r = 0 ∧ b = 0)%nat).
  - intros t. eapply wp_wand; [apply wp_and; [apply HQ|]|].
    + apply (counts_silent m (λ _ r b, r = 0 ∧ b = 0)%nat); [done|]. done.
    + intros a t' [Ha (r & b & H1 & H2 & -> & ->)]. exists 0%nat, 0%nat. auto.
  - intros a r b (Ha & -> & ->). by apply Hk.
Qed.

Ltac count_done := intros; simpl; repeat split; try first [done|lia]; simplify_eq/=; repeat split; repeat case_match; simplify_eq; try done; lia.

Lemma yields_ret {A} (a : A) (Q : A → Prop) : Q a → yields (mret a) Q.
Proof. intros H. split; [done|]. intros t. by apply wp_ret. Qed.
Lemma yields_bind {A B} (m : service A) (k : A → service B) Q :
  only silent m → (∀ a, yields (k a) Q) → yields (m ≫= k) Q.
Proof.
  intros Hm Hk. split; [apply only_bind; [done|apply Hk]|]. intros t. apply wp_bind.
  eapply (wp_only _ silent); [done|done|]. intros a t' _. apply Hk.
Qed.
Ltac yield_step :=
  cbv zeta;
  lazymatch goal with
  | |- yields (mret _) _ => apply yields_ret
  | |- yields (_ ≫= _) _ => apply yields_bind; [solve [eauto with service|only_steps]|intros ?]
  | |- yields (match ?x with _ => _ end) _ => branch_on x
  end.

(** ** The kinds *)

Section SimpleAuthLaws.
Context {A : Type} `{HasAuth A}.
Implicit Types c : ctx A.

Lemma yields_simple_Update c attr r :
  yields (SimpleAuth.UpdateScheduleResult c attr r) (λ '(c', _, _), life c' = life c).
Proof. unfold SimpleAuth.UpdateScheduleResult. repeat yield_step; count_done. Qed.

Lemma counts_simple_OnStart c : counts (SimpleAuth.OnStart c) (λ '(c', ok) r b,
  life c' = life c ∧ if (ok : bool) then r + b = 1 else r = 0 ∧ b = 0)%nat.
Proof. unfold SimpleAuth.OnStart. repeat count_step; count_done. Qed.

Lemma counts_simple_Invoke c r : counts (SimpleAuth.InvokeResultCallback c r) (λ _ r b, r = 1 ∧ b = 0)%nat.
Proof. unfold SimpleAuth.InvokeResultCallback. repeat count_step; count_done. Qed.
Lemma tells_simple_Invoke c r : tells (SimpleAuth.InvokeResultCallback c r) (λ _ r _, r = 1)%nat.
Proof. unfold SimpleAuth.InvokeResultCallback. repeat tell_step; count_done. Qed.

Ltac invoke_step bind law :=
  lazymatch goal with
  | |- context [SimpleAuth.InvokeResultCallback ?c ?r ≫= _] =>
      lazymatch goal with |- _ (SimpleAuth.InvokeResultCallback c r ≫= _) _ =>
        eapply bind; [apply law|cbv beta; intros; destruct_and?; subst] end
  end.

Lemma counts_simple_OnResult c code attr : counts (SimpleAuth.OnResult c code attr) (λ c' r b,
  life c' = life c ∧ r ≤ 1 ∧ b = 0)%nat.
Proof.
  unfold SimpleAuth.OnResult. eapply counts_yields; [apply yields_simple_Update|]. intros [[c' i] ok] Hl.
  repeat first [invoke_step @counts_bind @counts_simple_Invoke|count_step]. all: count_done.
Qed.

Lemma tells_simple_OnResult c code attr :
  tells (SimpleAuth.OnResult c code attr) (λ _ r s, r ≤ 1 ∧ (s = 0 → r = 1))%nat.
Proof.
  unfold SimpleAuth.OnResult.
  repeat first [invoke_step @tells_bind @tells_simple_Invoke|tell_step]. all: count_done.
Qed.

Lemma counts_simple_OnStop c : counts (SimpleAuth.OnStop c) (λ '(c', _) r b, life c' = life c ∧ r = 0 ∧ b = 0)%nat.
Proof. unfold SimpleAuth.OnStop. repeat count_step; count_done. Qed.
End SimpleAuthLaws.

#[export] Instance simple_auth_laws : ContextKindLaws Authentication.t.
Proof.
  split; intros; [apply counts_simple_OnStart|apply counts_simple_OnResult|apply tells_simple_OnResult|
    apply counts_simple_OnStop].
Qed.

Lemma tells_yields {A B} (m : service A) (k : A → service B) (Q : A → Prop) P :
  yields m Q → (∀ a s, Q a → tells (k a) (λ b r' s', P b r' (s + s')%nat)) → tells (m ≫= k) P.
Proof.
  intros [Hm HQ] Hk. eapply (tells_bind _ _ (λ a r _, Q a ∧ r = 0)%nat).
  - intros t. eapply wp_wand; [apply wp_and; [apply HQ|]|].
    + apply (tells_silent m (λ _ r _, r = 0%nat)); done.
    + intros a t' [Ha (r & b & H1 & H2 & ->)]. exists 0%nat, b. auto.
  - intros a r s [Ha ->]. by apply Hk.
Qed.

(** The result of an enrollment is told unless the engine's secrets are too
    long for an attribute. *)
Definition modest_pin (p : UpdatePinParamImpl) : Prop :=
  Z.of_nat (length (GetRootSecret p)) ≤ MAX_ATTR_LENGTH ∧ Z.of_nat (length (GetOldRootSecret p)) ≤ MAX_ATTR_LENGTH ∧
  Z.of_nat (length (GetAuthToken p)) ≤ MAX_ATTR_LENGTH.
Definition modest (out : EnrollOut) : Prop := match eo_pinInfo out with Some p => modest_pin p | None => True end.

Lemma enroll_attributes_told out : modest out → (Enroll.result_attributes out).2 = true.
Proof.
  unfold modest, modest_pin, Enroll.result_attributes, Enroll.pin_setters, SimpleAuth.when, SimpleAuth.optional_setter.
  intros H. destruct (eo_pinInfo out) as [p|]; [destruct H as (H1 & H2 & H3)|]; apply set_all_new;
    repeat case_match; simpl; repeat constructor; auto with attributes; unfold MAX_ATTR_COUNT; lia.
Qed.

Lemma tells_enr_Update e s : tells (Enrollment.Update e s) (λ '(_, out, _) r k, r = 0 ∧ (k = 0 → modest out))%nat.
Proof.
  unfold Enrollment.Update. eapply tells_bind.
  { apply (tallies_call is_result is_oversized (EngUpdateEnrollmentResult (en_userId (Enrollment.enrollPara_ e)) s)
      (λ x r k, r = 0%nat ∧ k = if is_oversized (existT (EngUpdateEnrollmentResult (en_userId (Enrollment.enrollPara_ e)) s) x)
        then 1%nat else 0%nat)). done. }
  intros [result info] r k [-> ->]. destruct (is_oversized _) eqn:Hk.
  - apply tells_silent; [only_steps|]. intros [[? out] ?] k'. split; [done|lia].
  - simpl in Hk. unfold oversized_bytes in Hk. apply orb_false_iff in Hk as [[H1 H2]%orb_false_iff H3].
    apply bool_decide_eq_false in H1, H2, H3.
    tell_step; [|tell_step; done]. tell_step. tell_step; [|tell_step; split; [done|]; intros _; simpl; done].
    eapply (tells_yields _ _ (λ '(out, _), modest out)).
    + repeat yield_step; unfold modest, modest_pin; simpl; lia.
    + intros [out ok] k Hout. repeat tell_step; done.
Qed.

Lemma yields_enr_Update c attr :
  yields (Enroll.UpdateScheduleResult c attr) (λ '(c', _, _), life c' = life c).
Proof. unfold Enroll.UpdateScheduleResult. repeat yield_step; count_done. Qed.

Lemma tells_enr_UpdateResult c attr :
  tells (Enroll.UpdateScheduleResult c attr) (λ '(_, out, _) r k, r = 0 ∧ (k = 0 → modest out))%nat.
Proof.
  unfold Enroll.UpdateScheduleResult. case_match; [|by apply tells_ret].
  eapply tells_bind; [apply tells_enr_Update|]. intros [[e out] ok] r k [-> Hout].
  repeat tell_step; (split; [done|]; intros ?; apply Hout; lia).
Qed.

Lemma counts_enr_Invoke code out : counts (Enroll.InvokeResultCallback code out) (λ _ r b, r ≤ 1 ∧ b = 0)%nat.
Proof. unfold Enroll.InvokeResultCallback. repeat count_step; count_done. Qed.

Lemma tells_enr_Invoke code out :
  tells (Enroll.InvokeResultCallback code out) (λ _ r s, s = 0 ∧ r ≤ 1 ∧ (modest out → r = 1))%nat.
Proof.
  unfold Enroll.InvokeResultCallback. destruct (Enroll.result_attributes out) as [attrs ok] eqn:E.
  assert (modest out → ok = true) as Hok. { intros H%enroll_attributes_told. by rewrite E in H. }
  repeat tell_step; repeat split; try done; try lia. intros H%Hok. done.
Qed.

#[export] Instance enroll_laws : ContextKindLaws Enrollment.t.
Proof.
  split; intros c; simpl.
  - unfold Enroll.OnStart. repeat count_step; count_done.
  - intros code attr. unfold Enroll.OnResult. eapply counts_yields; [apply yields_enr_Update|].
    intros [[c' out] ok] Hl. cbv zeta. eapply counts_bind; [apply counts_enr_Invoke|]. intros ? r b [Hr ->].
    apply counts_ret. count_done.
  - intros code attr. unfold Enroll.OnResult. eapply tells_bind; [apply tells_enr_UpdateResult|].
    intros [[c' out] ok] r k [-> Hout]. cbv zeta. eapply tells_bind; [apply tells_enr_Invoke|].
    intros ? r' s (-> & Hr & Hr'). apply tells_ret. split; [lia|]. intros Hk.
    rewrite Nat.add_0_r. apply Hr', Hout. lia.
  - unfold Enroll.OnStop. repeat count_step; count_done.
Qed.

(** The same for an identification and its token. *)
Definition modest_token (r : IdentifyResultInfo) : Prop := Z.of_nat (length (ir_token r)) ≤ MAX_ATTR_LENGTH.

Lemma identify_attributes_told r : modest_token r → (Identify.result_attributes r).2 = true.
Proof.
  unfold modest_token, Identify.result_attributes, SimpleAuth.when. intros H. apply set_all_new;
    repeat case_match; simpl; repeat constructor; auto with attributes; unfold MAX_ATTR_COUNT; lia.
Qed.

Lemma tells_id_Update i s r0 : modest_token r0 →
  tells (Identification.Update i s r0) (λ '(_, out, _) r k, r = 0 ∧ (k = 0 → modest_token out))%nat.
Proof.
  intros H0. unfold Identification.Update. eapply tells_bind.
  { apply (tallies_call is_result is_oversized (EngUpdateIdentificationResult (Identification.contextId_ i) s)
      (λ x r k, r = 0%nat ∧ k = if is_oversized (existT (EngUpdateIdentificationResult (Identification.contextId_ i) s) x)
        then 1%nat else 0%nat)). done. }
  intros [result info] r k [-> ->]. simpl. unfold oversized_bytes, modest_token. case_bool_decide; repeat tell_step;
    (split; [done|]; intros ?; simpl; try done; lia).
Qed.

Lemma yields_id_UpdateResult c attr r :
  yields (Identify.UpdateScheduleResult c attr r) (λ '(c', _, _), life c' = life c).
Proof. unfold Identify.UpdateScheduleResult. repeat yield_step; count_done. Qed.

Lemma tells_id_UpdateResult c attr r0 : modest_token r0 →
  tells (Identify.UpdateScheduleResult c attr r0) (λ '(_, out, _) r k, r = 0 ∧ (k = 0 → modest_token out))%nat.
Proof.
  intros H0. unfold Identify.UpdateScheduleResult. case_match; [|by apply tells_ret].
  eapply tells_bind; [by apply tells_id_Update|]. intros [[i out] ok] r k [-> Hout].
  repeat tell_step; (split; [done|]; intros ?; apply Hout; lia).
Qed.

Lemma counts_id_Invoke r : counts (Identify.InvokeResultCallback r) (λ _ r b, r ≤ 1 ∧ b = 0)%nat.
Proof. unfold Identify.InvokeResultCallback. repeat count_step; count_done. Qed.

Lemma tells_id_Invoke r :
  tells (Identify.InvokeResultCallback r) (λ _ n s, s = 0 ∧ n ≤ 1 ∧ (modest_token r → n = 1))%nat.
Proof.
  unfold Identify.InvokeResultCallback. destruct (Identify.result_attributes r) as [attrs ok] eqn:E.
  assert (modest_token r → ok = true) as Hok. { intros H%identify_attributes_told. by rewrite E in H. }
  repeat tell_step; repeat split; try done; try lia. intros H%Hok. done.
Qed.

#[export] Instance identify_laws : ContextKindLaws Identification.t.
Proof.
  split; intros c; simpl.
  - unfold Identify.OnStart. repeat count_step; count_done.
  - intros code attr. unfold Identify.OnResult. eapply counts_yields; [apply yields_id_UpdateResult|].
    intros [[c' out] ok] Hl. cbv zeta. eapply counts_bind; [apply counts_id_Invoke|]. intros ? r b [Hr ->].
    apply counts_ret. count_done.
  - intros code attr. unfold Identify.OnResult. eapply tells_bind; [by apply tells_id_UpdateResult|].
    intros [[c' out] ok] r k [-> Hout]. cbv zeta. eapply tells_bind; [apply tells_id_Invoke|].
    intros ? r' s (-> & Hr & Hr'). apply tells_ret. split; [lia|]. intros Hk.
    rewrite Nat.add_0_r. apply Hr'. case_decide; apply Hout; lia.
  - unfold Identify.OnStop. repeat count_step; count_done.
Qed.

Lemma yields_del_UpdateResult c attr :
  yields (Delete.UpdateScheduleResult c attr) (λ '(c', _), life c' = life c).
Proof. unfold Delete.UpdateScheduleResult. repeat yield_step; count_done. Qed.

#[export] Instance delete_laws : ContextKindLaws Deletion.t.
Proof.
  split; intros c; simpl.
  - unfold Delete.OnStart, Delete.InvokeResultCallback. repeat count_step; count_done.
  - intros code attr. unfold Delete.OnResult, Delete.InvokeResultCallback.
    eapply counts_yields; [apply yields_del_UpdateResult|]. intros [c' ok] Hl. repeat count_step; count_done.
  - intros code attr. unfold Delete.OnResult, Delete.InvokeResultCallback. eapply tells_mono; [|intros ? r s H; exact H]. repeat tell_step; count_done.
  - unfold Delete.OnStop. repeat count_step; count_done.
Qed.
