(* ===== verification/ContextLife.v ===== *)
(** * The life of a context

    What happens to a context between the pool and its schedule: the pool
    starts it once, whoever wants may stop it at any time, the schedule passes
    tips and reports once if it was started. [step] has one rule for each, in
    any order, against an environment that answers the calls; the theorem is
    about every kind of context that keeps [ContextKindLaws]. *)

From S2P Require Import Prelude Defines Interaction ServiceTypes AttributesImpl Attributes Platform IpcCommon.
From S2P Require Import UserIdmDatabase NodeCommands EngineTalk Contexts ContextsThm.

(* @file P = src/services/context/src/context_pool_impl.cpp *)

Section Life.
Context {A : Type} `{Kind : ContextKind A} {Laws : ContextKindLaws A} (o : env answer).

(** The end of a start by the pool; which contexts it starts and when is in
    ContextPool.v. *)
(* @src P:453-456 ContextPoolImpl::StartIfPooled *)
Definition pool_start (c : ctx A) : service (ctx A) :=
  '(c, ok) ← Start c;
  if (ok : bool) then mret c else OnStartFailed c (GetLatestError c).

(** The context, whether the pool has started it, how often its schedule has
    reported, and what was called. *)
Record life_state := mkLife {
  l_ctx : ctx A;
  l_admitted : bool;
  l_reports : nat;
  l_trace : trace;
}.

Definition born (id : Z) (a : A) : life_state := mkLife (ctx_new id a) false 0 [].

Inductive step : life_state → life_state → Prop :=
  | step_start c n t c' t' : run o (pool_start c) t = (c', t') → step (mkLife c false n t) (mkLife c' true n t')
  | step_stop c p n t c' ok t' : run o (Stop c) t = ((c', ok), t') → step (mkLife c p n t) (mkLife c' p n t')
  | step_tip c p n t src ty msg t' : run o (OnScheduleProcessed c src ty msg) t = ((), t') →
      step (mkLife c p n t) (mkLife c p n t')
  | step_report c p n t code attr c' t' : (n < begun t)%nat →
      run o (OnScheduleStoped c code attr) t = (c', t') → step (mkLife c p n t) (mkLife c' p (S n) t').

Definition oversized (t : trace) : nat := tally is_oversized t.

(** Where a context is: its life, results, schedules begun, reports, whether it
    was admitted, and oversized answers. *)
Definition stage (f : bool * bool * bool) (r b n : nat) (p : bool) (v : nat) : Prop :=
  match f with
  | (false, false, false) => r = 0 ∧ b = 0 ∧ n = 0 ∧ p = false
  | (false, true, true) => r = 1 ∧ b = 0 ∧ n = 0
  | (true, false, true) => r = 1 ∧ b = 0 ∧ n = 0 ∧ p = true
  | (true, false, false) => p = true ∧
      ((r = 1 ∧ b = 0 ∧ n = 0) ∨ (b = 1 ∧ ((n = 0 ∧ r = 0) ∨ (n = 1 ∧ r ≤ 1 ∧ (v = 0 → r = 1)))))
  | _ => False
  end%nat.
Definition stage_ok (l : life_state) : Prop :=
  stage (life (l_ctx l)) (results (l_trace l)) (begun (l_trace l)) (l_reports l) (l_admitted l) (oversized (l_trace l)).

(** Runs, counted. *)
Lemma counts_elim {B} (m : service B) (P : B → nat → nat → Prop) t b t' :
  counts m P → run o m t = (b, t') →
  ∃ r s, results t' = (results t + r)%nat ∧ begun t' = (begun t + s)%nat ∧ P b r s.
Proof. intros Hm E. pose proof (tallies_run is_result is_begun o m P t Hm) as K. by rewrite E in K. Qed.

Lemma tells_elim {B} (m : service B) (P : B → nat → nat → Prop) t b t' :
  tells m P → run o m t = (b, t') →
  ∃ r s, results t' = (results t + r)%nat ∧ oversized t' = (oversized t + s)%nat ∧ P b r s.
Proof. intros Hm E. pose proof (tallies_run is_result is_oversized o m P t Hm) as K. by rewrite E in K. Qed.

Lemma life_started (c : ctx A) : life (set_started c) = (true, stopRequested_ c, startFailDelivered_ c).
Proof. done. Qed.

Lemma counts_OnStartFailed (c : ctx A) code : counts (OnStartFailed c code) (λ c' r b, b = 0 ∧
  if startFailDelivered_ c then r = 0 ∧ life c' = life c
  else r = 1 ∧ life c' = (hasStarted_ c, stopRequested_ c, true))%nat.
Proof. unfold OnStartFailed. repeat count_step; destruct (startFailDelivered_ c); done. Qed.

Lemma counts_pool_start (c : ctx A) : life c = (false, false, false) →
  counts (pool_start c) (λ c' r b,
    (life c' = (true, false, false) ∧ r + b = 1) ∨ (life c' = (true, false, true) ∧ r = 1 ∧ b = 0))%nat.
Proof using Laws.
  intros [= H1 H2 H3]. unfold pool_start, Start. rewrite H1, H2. cbn [decide]. repeat case_decide; try done.
  eapply counts_bind; [apply start_law|]. intros [c' ok] r b [Hl Hok].
  rewrite life_started, H2, H3 in Hl. destruct ok.
  - apply counts_ret. left. split; [done|lia].
  - eapply counts_mono; [apply counts_OnStartFailed|]. intros c2 r2 b2 [-> H4].
    injection Hl as L1 L2 L3. rewrite L1, L2, L3 in H4. right. destruct H4 as [-> ->]. split; [done|lia].
Qed.

Lemma counts_Stop (c : ctx A) : counts (Stop c) (λ '(c', _) r b, b = 0 ∧
  if hasStarted_ c then r = 0 ∧ life c' = life c
  else if stopRequested_ c then r = 0 ∧ life c' = life c
  else if startFailDelivered_ c then r = 0 ∧ life c' = (false, true, true)
  else r = 1 ∧ life c' = (false, true, true))%nat.
Proof using Laws.
  unfold Stop. case_decide as Hs.
  - rewrite Hs. case_decide as Hq; [rewrite Hq; by apply counts_ret|]. apply not_true_is_false in Hq. rewrite Hq.
    eapply counts_bind; [apply counts_OnStartFailed|]. intros c' r b [-> H1]. apply counts_ret. split; [done|].
    change (startFailDelivered_ (set_stop_requested c)) with (startFailDelivered_ c) in H1.
    change (hasStarted_ (set_stop_requested c)) with (hasStarted_ c) in H1. rewrite Hs in H1.
    destruct (startFailDelivered_ c) eqn:Hd; destruct H1 as [-> ->]; [|done]. split; [done|].
    unfold life, set_stop_requested. simpl. by rewrite Hs, Hd.
  - apply not_false_is_true in Hs. rewrite Hs. eapply counts_mono; [apply stop_law|].
    intros [c' ok] r b (H1 & -> & ->). done.
Qed.

Lemma oversized_run {B} (m : service B) t b t' : run o m t = (b, t') → (oversized t ≤ oversized t')%nat.
Proof.
  intros E. pose proof (wp_post o _ m t _ (wp_suffix m t)) as [u Hu]. rewrite E in Hu. simpl in Hu. subst t'.
  unfold oversized. rewrite tally_app. lia.
Qed.

(** A stop or a tip after which nothing has changed but the trace. *)
Lemma stage_quiet (c c' : ctx A) p n t t' :
  life c' = life c → results t' = results t → begun t' = begun t → (oversized t ≤ oversized t')%nat →
  stage_ok (mkLife c p n t) → stage_ok (mkLife c' p n t').
Proof.
  intros Hl Hr Hb Ho. unfold stage_ok. cbn [l_ctx l_trace l_reports l_admitted]. rewrite Hl, Hr, Hb.
  destruct (life c) as [[[] []] []]; try done. simpl.
  intros [? [?|(? & [?|(? & ? & Hs)])]]; split; auto. right. split; [done|]. right. repeat split; auto.
  intros. apply Hs. lia.
Qed.

Lemma counts_pool_start_stopped (c : ctx A) : life c = (false, true, true) →
  counts (pool_start c) (λ c' r b, life c' = life c ∧ r = 0 ∧ b = 0)%nat.
Proof.
  intros Hl. unfold pool_start, Start, OnStartFailed. pose proof Hl as [= H1 H2 H3]. rewrite H1, H2.
  repeat case_decide; try done. cbn. repeat count_step; try done; simpl in *; congruence.
Qed.

Lemma step_stage l l' : step l l' → stage_ok l → stage_ok l'.
Proof using Laws.
  intros Hst Hok. destruct Hst as [c n t c' t' E|c p n t c' ok t' E|c p n t src ty msg t' E|c p n t code attr c' t' Hn E].
  - unfold stage_ok in *. cbn [l_ctx l_trace l_reports l_admitted] in *. destruct (life c) as [[h q] d] eqn:Hl.
    destruct h, q, d; simpl in Hok; try (by intuition).
    + destruct (counts_elim _ _ _ _ _ (counts_pool_start_stopped c Hl) E) as (r & b & Hr & Hb & Hl' & -> & ->).
      rewrite Hl', Hl. simpl in *. lia.
    + destruct (counts_elim _ _ _ _ _ (counts_pool_start c Hl) E) as (r & b & Hr & Hb & P).
      simpl in Hok. destruct P as [[-> P]|(-> & -> & ->)]; simpl; [|lia]. split; [done|]. lia.
  - pose proof (oversized_run _ _ _ _ E) as Ho. destruct (counts_elim _ _ _ _ _ (counts_Stop c) E) as (r & b & Hr & Hb & -> & P).
    destruct (hasStarted_ c) eqn:Hs; [destruct P as [-> P]; apply (stage_quiet c c' p n t); auto; lia|].
    destruct (stopRequested_ c) eqn:Hq; [destruct P as [-> P]; apply (stage_quiet c c' p n t); auto; lia|].
    unfold stage_ok in *. cbn [l_ctx l_trace l_reports l_admitted] in *. unfold life in Hok.
    rewrite Hs, Hq in Hok. destruct (startFailDelivered_ c); [done|].
    destruct P as [-> P]. destruct Hok as (H1 & H2 & H3 & H4). rewrite P. simpl. lia.
  - pose proof (oversized_run _ _ _ _ E) as Ho.
    assert (counts (OnScheduleProcessed c src ty msg) (λ _ r b, r = 0 ∧ b = 0)%nat) as Hm.
    { apply counts_silent; [|done]. unfold OnScheduleProcessed. only_steps. }
    destruct (counts_elim _ _ _ _ _ Hm E) as (r & b & Hr & Hb & -> & ->). apply (stage_quiet c c p n t); auto; lia.
  - destruct (counts_elim _ _ _ _ _ (result_law c code attr) E) as (r & b & Hr & Hb & Hl & Hr1 & ->).
    destruct (tells_elim _ _ _ _ _ (result_told c code attr) E) as (r2 & s & Hr2 & Ho & Hr3 & Hs).
    unfold stage_ok in *. cbn [l_ctx l_trace l_reports l_admitted] in *. rewrite Hl.
    destruct (life c) as [[[] []] []]; simpl in *; try lia.
    destruct Hok as [? Hok]. split; [done|]. right. split; [lia|]. right. repeat split; [lia|lia|]. intros.
    assert (s = 0)%nat as Hs0 by lia. specialize (Hs Hs0). lia.
Qed.

Lemma reach_stage id a l : rtc step (born id a) l → stage_ok l.
Proof using Laws.
  intros Hr. assert (stage_ok (born id a)) as H by done. revert H. induction Hr; [done|].
  intros. eauto using step_stage.
Qed.

(** C8: however the pool, whoever stops it and its schedule treat a context,
    its caller is told a result at most once and at most one schedule is
    started; and the caller is still waiting only while the context is queued
    or its schedule has not reported, unless the engine handed over a secret
    that no attribute can hold. *)
Theorem context_answered_once id a l : rtc step (born id a) l →
  (results (l_trace l) ≤ 1)%nat ∧ (begun (l_trace l) ≤ 1)%nat ∧
  (results (l_trace l) = 0%nat →
    (l_admitted l = false ∧ stopRequested_ (l_ctx l) = false) ∨ (l_reports l < begun (l_trace l))%nat ∨
    (0 < oversized (l_trace l))%nat).
Proof using Laws.
  intros Hr%reach_stage. destruct l as [c p n t]. unfold stage_ok, life in Hr. simpl in *.
  destruct (hasStarted_ c), (stopRequested_ c), (startFailDelivered_ c); intuition lia.
Qed.
End Life.

(** An authentication that starts, is stopped, and reports. *)
Definition demo_auth : Authentication.t := Authentication.new 7
  (mkAuthPara 100 PIN 10000 1 1 [] false (str "app") 10000 TOKEN_NATIVE 0 false false [] [] AUTH_SCENE_DEFAULT 0).
Definition demo_report : Attributes := (SetUint8ArrayValue Attributes_new ATTR_RESULT [Byte.x01]).1.

Lemma context_answered_once_witness : ∃ l : life_state (A := Authentication.t),
  rtc (step (world true)) (born 7 demo_auth) l ∧ results (l_trace l) = 1%nat ∧ l_reports l = 1%nat ∧
  (begun (l_trace l) ≤ 1)%nat.
Proof.
  eassert (rtc (step (world true)) (born 7 demo_auth) _) as Hr.
  { eapply rtc_l; [eapply step_start; vm_compute; reflexivity|].
    eapply rtc_l; [eapply step_stop; vm_compute; reflexivity|].
    eapply rtc_l; [eapply (step_report _ _ _ _ _ SUCCESS (Some demo_report)); vm_compute; [lia|reflexivity]|].
    apply rtc_refl. }
  destruct (context_answered_once (world true) 7 demo_auth _ Hr) as (_ & Hb & _).
  eexists. split; [exact Hr|]. split; [by vm_compute|]. split; [done|exact Hb].
Defined.
