(* ===== verification/ContextResults.v ===== *)
(** * What the contexts without a user interface tell their callers

    The code of a result is the verdict of the schedule and the engine
    together, and what comes with it. *)

From S2P Require Import Prelude Defines Interaction ServiceTypes AttributesImpl Attributes Platform IpcCommon.
From S2P Require Import UserIdmDatabase NodeCommands EngineTalk Contexts ContextsThm.

(** ** Attributes that setters leave alone *)

Definition attr_of (a : Attributes) (k : Z) : option bytes := a ≫= λ m, m !! k.
Definition spares (k : Z) (s : Attributes → Attributes * bool) : Prop := ∀ a, attr_of (s a).1 k = attr_of a k.

Lemma spares_encoded k key e : k ≠ key → spares k (λ a, with_impl a (λ impl, set_encoded impl key e)).
Proof.
  intros Hk [m|]; [|done]. unfold with_impl, set_encoded, attr_of. destruct e as [d|]; [|done].
  case_decide; [done|]. simpl. by rewrite lookup_insert_ne.
Qed.

Lemma spares_i64 k key v : k ≠ key → spares k (λ a, SetInt64Value a key v).
Proof.
  intros Hk [m|]; [|done]. unfold SetInt64Value, with_impl, AttributesImpl.SetInt64Value, attr_of.
  destruct (EncodeInt64Value v); [|done]. case_decide; [done|]. destruct (m !! key) eqn:E; [done|].
  simpl. by rewrite lookup_insert_ne.
Qed.

Lemma set_all_spares k l : Forall (spares k) l → spares k (λ a, set_all a l).
Proof.
  induction 1 as [|s l Hs _ IH]; intros a; [done|]. simpl. pose proof (Hs a) as Ha.
  destruct (s a) as [a' ok]. case_decide; [|done]. by rewrite IH.
Qed.

Lemma spares_digest k r : k ≠ ATTR_CREDENTIAL_DIGEST → k ≠ ATTR_CREDENTIAL_COUNT →
  spares k (SimpleAuth.SetCredentialDigest r).
Proof.
  intros H1 H2. apply set_all_spares. repeat constructor; by apply spares_encoded.
Qed.

(** Only a success names the user and the credential. *)
Lemma failure_names_nobody r k : ar_result r ≠ SUCCESS → k = ATTR_USER_ID ∨ k = ATTR_CREDENTIAL_ID →
  attr_of (SimpleAuth.SetAuthResultAttributes r Attributes_new) k = None.
Proof.
  intros Hr Hk. unfold SimpleAuth.SetAuthResultAttributes.
  rewrite (set_all_spares k); [by destruct Hk as [-> | ->]|]. unfold SimpleAuth.when.
  rewrite (decide_False (P := ar_result r = SUCCESS)) by done. simpl.
  repeat case_decide; simpl; repeat constructor; try (apply spares_encoded; by destruct Hk as [-> | ->]);
    apply spares_digest; by destruct Hk as [-> | ->].
Qed.

(** What the setters put after others that cannot fail, and nothing changes
    afterwards. *)
Lemma set_bytes_last k v l m : room 1 m → Z.of_nat (length v) ≤ MAX_ATTR_LENGTH → Forall (spares k) l →
  GetUint8ArrayValue (set_all (Some m) ((λ a, SetUint8ArrayValue a k v) :: l)).1 k = Some v.
Proof.
  intros Hr Hv Hl. cbn [set_all]. rewrite (set_bytes 1 m k Hr v Hv). rewrite decide_True by done.
  pose proof (set_all_spares k l Hl (Some (<[k := encoded EncodeUint8ArrayValue v]> m))) as E. cbv beta in E.
  destruct (set_all _ l) as [[m'|] ok]; simpl in E; rewrite lookup_insert_eq in E; [|done].
  unfold GetUint8ArrayValue, AttributesImpl.GetUint8ArrayValue. simpl. rewrite E. simpl.
  by destruct (encoded_ok _ _ _ v bytes_codec Hv).
Qed.

(** The token goes with the result, whatever the code is. *)
Lemma failure_token r : ar_result r ≠ SUCCESS → ar_token r ≠ [] → Z.of_nat (length (ar_token r)) ≤ MAX_ATTR_LENGTH →
  GetUint8ArrayValue (SimpleAuth.SetAuthResultAttributes r Attributes_new) ATTR_SIGNATURE = Some (ar_token r).
Proof.
  intros Hr Ht Hl. unfold SimpleAuth.SetAuthResultAttributes, SimpleAuth.when.
  rewrite (decide_False (P := ar_result r = SUCCESS)) by done. rewrite (decide_True (P := ar_token r ≠ [])) by done.
  lazymatch goal with |- context [set_all _ (?a ++ ?b ++ ?d ++ [] ++ [?s] ++ ?l)] =>
    assert (∃ m, set_all Attributes_new (a ++ b) = (Some m, true) ∧ room 3 m) as (m & E & Hm) end.
  { apply set_all_ok; [repeat case_decide; simpl; repeat constructor; auto with attributes|].
    repeat case_decide; unfold room, MAX_ATTR_COUNT; rewrite map_size_empty; simpl; lia. }
  rewrite app_assoc, (set_all_app _ _ _ _ E).
  lazymatch goal with |- context [set_all _ (?d ++ [] ++ [?s] ++ ?l)] =>
    assert (∃ m2, set_all (Some m) d = (Some m2, true) ∧ room 1 m2) as (m2 & E2 & Hm2) end.
  { clear E. case_decide; [|exists m; split; [done|]; unfold room in *; lia].  simpl. unfold SimpleAuth.SetCredentialDigest.
    lazymatch goal with |- context [set_all (Some m) ?l] =>
      destruct (set_all_ok l 1 m) as (m2 & E2 & Hm2); [repeat constructor; auto with attributes|done|] end.
    exists m2. rewrite E2. by split. }
  rewrite (set_all_app _ _ _ _ E2). apply set_bytes_last; [done|done|].
  repeat case_decide; simpl; repeat constructor; by apply spares_encoded.
Qed.

(** ** The result of an authentication *)

(** The first failure counts: the schedule's, then what the engine found, then
    the engine's own. [eng] is what the engine answered, if it was asked. *)
Definition auth_verdict (code last : Z) (eng : option (Z * EngAuthResultInfo)) : Z :=
  if decide (code ≠ SUCCESS) then code
  else match eng with
       | None => last
       | Some (ret, info) => if decide (ea_result info ≠ SUCCESS) then ea_result info else ret
       end.

Section AuthResult.
Context {A : Type} `{HasAuth A}.
Implicit Types c : ctx A.

Definition schedule_result (attr : option Attributes) : option bytes :=
  attr ≫= λ attr, GetUint8ArrayValue attr ATTR_RESULT.

Definition token_of (r : AuthResultInfo) (eng : option (Z * EngAuthResultInfo)) : bytes :=
  match eng with Some (_, info) => ea_token info | None => ar_token r end.

(** What the engine was asked, and answered. *)
Definition engine_said c (attr : option Attributes) (t : trace) (eng : option (Z * EngAuthResultInfo)) : Prop :=
  match schedule_result attr with
  | None => eng = None
  | Some r => ∃ ret info state, eng = Some (ret, info) ∧
      existT (EngUpdateAuthenticationResult (Authentication.contextId_ (SimpleAuth.auth c)) r) (ret, info, state) ∈ t
  end.

Lemma update_verdict c code attr r t :
  wp (λ _ _, True) (SimpleAuth.UpdateScheduleResult c attr r) t (λ '(c', r', ok) t', ∃ eng,
    engine_said c attr t' eng ∧
    ar_result (SimpleAuth.final_result c' code r' ok) = auth_verdict code (latestError_ c) eng ∧
    ar_token (SimpleAuth.final_result c' code r' ok) = token_of r eng).
Proof.
  unfold SimpleAuth.UpdateScheduleResult, engine_said. fold (schedule_result attr).
  destruct (schedule_result attr) as [s|] eqn:Es; [|step; exists None; split; [done|]].
  2: { unfold SimpleAuth.final_result, auth_verdict. split; repeat case_decide; done. }
  unfold Authentication.Update. repeat step; [done|..]; (eexists; split;
    [eexists _, _, _; split; [done|]; apply elem_of_app; right; by apply list_elem_of_singleton|]); (split; [|by unfold SimpleAuth.final_result; repeat case_decide]).
  all: unfold SimpleAuth.final_result, auth_verdict, Authentication.GetLatestError, latest in *; simpl in *;
    unfold latest; repeat case_bool_decide; repeat case_decide; destruct_and?; try done; try congruence;
    try (intuition congruence); simpl; congruence.
Qed.

Lemma engine_said_app c attr t u eng : engine_said c attr t eng → engine_said c attr (t ++ u) eng.
Proof.
  unfold engine_said. case_match; [|done]. intros (ret & info & st & ? & ?). exists ret, info, st.
  split; [done|]. apply elem_of_app. by left.
Qed.

Lemma read_lockout_result ty values r : ar_result (SimpleAuth.read_lockout ty values r).1 = ar_result r.
Proof. unfold SimpleAuth.read_lockout. by repeat case_match. Qed.

Lemma read_lockout_token ty values r : ar_token (SimpleAuth.read_lockout ty values r).1 = ar_token r.
Proof. unfold SimpleAuth.read_lockout. by repeat case_match. Qed.

Lemma GetProperty_result c r t :
  wp (λ _ _, True) (SimpleAuth.GetPropertyForAuthResult c r) t (λ '(r', _) _, ar_result r' = ar_result r ∧ ar_token r' = ar_token r).
Proof.
  unfold SimpleAuth.GetPropertyForAuthResult. repeat step; try done.
  eapply wp_wand; [by apply wp_granted|]. intros ? t' _. repeat step; try done.
  lazymatch goal with |- context [SimpleAuth.read_lockout ?ty ?v ?r'] =>
    pose proof (read_lockout_result ty v r'); pose proof (read_lockout_token ty v r'); by destruct (SimpleAuth.read_lockout ty v r') end.
Qed.

(** The last call of a trace told the caller. *)
Definition told_last (t : trace) (code : Z) (extra : Attributes) : Prop :=
  ∃ u, t = u ++ [existT (Platform.OnResult true code extra) ()].

Lemma OnResult_told c code attr t :
  wp (λ _ _, True) (SimpleAuth.OnResult c code attr) t (λ _ t', ∃ eng r,
    engine_said c attr t' eng ∧ ar_result r = auth_verdict code (latestError_ c) eng ∧
    ar_token r = token_of AuthResultInfo_new eng ∧
    told_last t' (ar_result r) (SimpleAuth.SetAuthResultAttributes r Attributes_new)).
Proof.
  unfold SimpleAuth.OnResult. apply wp_bind. eapply wp_wand; [apply (update_verdict c code)|].
  intros [[c' r] ok] t1 (eng & He & Hv & Ht). apply wp_bind.
  eapply wp_wand; [apply wp_and; [apply wp_suffix|apply GetProperty_result]|].
  intros [r' z] t2 [[u ->] [Hr Hrt]]. apply wp_bind. eapply wp_wand; [apply wp_suffix|]. intros ? ? [u2 ->].
  apply wp_bind. eapply wp_wand; [apply wp_suffix|]. intros ? ? [u3 ->].
  unfold SimpleAuth.InvokeResultCallback, tell_caller. apply wp_bind, wp_bind.
  eapply wp_wand; [apply wp_suffix|]. intros ? ? [u4 ->]. apply (@wp_call _ answer _ (Platform.OnResult true _ _)); [done|]. intros []. apply wp_ret. exists eng, r'. split.
  - rewrite <- !app_assoc. by apply engine_said_app.
  - rewrite <- Hv, <- Hr, <- Ht, <- Hrt. split; [done|]. split; [done|]. unfold told_last. by eexists.
Qed.

(** C9: the code that the caller of an authentication is told, in the last
    call of [OnResult], is the first failure among the schedule's code, what
    the engine found and the engine's own code, or SUCCESS when all three
    agree; and a failure names neither a user nor a credential. *)
Theorem auth_result_told (o : env answer) c code attr :
  let '(_, t) := run o (SimpleAuth.OnResult c code attr) [] in
  ∃ eng extra, engine_said c attr t eng ∧
    told_last t (auth_verdict code (latestError_ c) eng) extra ∧
    (auth_verdict code (latestError_ c) eng ≠ SUCCESS →
     attr_of extra ATTR_USER_ID = None ∧ attr_of extra ATTR_CREDENTIAL_ID = None).
Proof.
  pose proof (wp_post o _ _ [] _ (OnResult_told c code attr [])) as K.
  destruct (run o (SimpleAuth.OnResult c code attr) []) as [c' t]. destruct K as (eng & r & He & Hr & _ & Ht).
  exists eng, (SimpleAuth.SetAuthResultAttributes r Attributes_new). rewrite Hr in Ht. split; [done|]. split; [done|].
  rewrite <- Hr. intros Hf. split; apply failure_names_nobody; auto.
Qed.

(** When the schedule failed, for instance because it was cancelled or its
    time was up, but the engine had a result all the same, the caller is told
    the failure together with the engine's token. *)
Theorem failed_auth_carries_token (o : env answer) c code attr :
  let '(_, t) := run o (SimpleAuth.OnResult c code attr) [] in
  ∃ eng extra, engine_said c attr t eng ∧ told_last t (auth_verdict code (latestError_ c) eng) extra ∧
    (code ≠ SUCCESS → auth_verdict code (latestError_ c) eng = code ∧
     ∀ ret info, eng = Some (ret, info) → ea_token info ≠ [] → Z.of_nat (length (ea_token info)) ≤ MAX_ATTR_LENGTH →
       GetUint8ArrayValue extra ATTR_SIGNATURE = Some (ea_token info)).
Proof.
  pose proof (wp_post o _ _ [] _ (OnResult_told c code attr [])) as K.
  destruct (run o (SimpleAuth.OnResult c code attr) []) as [c' t]. destruct K as (eng & r & He & Hr & Htok & Ht).
  exists eng, (SimpleAuth.SetAuthResultAttributes r Attributes_new). rewrite Hr in Ht. split; [done|]. split; [done|].
  intros Hcode. assert (auth_verdict code (latestError_ c) eng = code) as Hv by (unfold auth_verdict; by case_decide).
  split; [done|]. intros ret info -> H1 H2. simpl in Htok. rewrite <- Htok in *. apply failure_token; [congruence|done|done].
Qed.
End AuthResult.

(** ** The result of an identification *)

(** Whom the engine found; the schedule's code only counts when the engine has
    nothing to say. *)
Definition identify_verdict (code last : Z) (eng : option (Z * EngIdentifyResultInfo)) : Z :=
  match eng with
  | Some (ret, info) =>
    if decide (ret = SUCCESS) then eq_result info else if decide (code = SUCCESS) then ret else code
  | None => if decide (code = SUCCESS) then last else code
  end.

Section IdentifyResult.
Implicit Types c : ctx Identification.t.

Definition identify_said c (attr : option Attributes) (t : trace) (eng : option (Z * EngIdentifyResultInfo)) : Prop :=
  match schedule_result attr with
  | None => eng = None
  | Some r => ∃ ret info, eng = Some (ret, info) ∧
      existT (EngUpdateIdentificationResult (Identification.contextId_ (members c)) r) (ret, info) ∈ t
  end.

(** What the caller is told, if it is told. *)
Definition identify_telling c code attr (t : trace) (q : sys) : Prop :=
  match q with
  | Platform.OnResult _ told _ =>
      ∃ eng, identify_said c attr t eng ∧ told = identify_verdict code (latestError_ c) eng
  | _ => True
  end.

Lemma wp_identify_Invoke P r t : (∀ extra, P t (Platform.OnResult true (ir_result r) extra)) →
  wp P (Identify.InvokeResultCallback r) t (λ _ _, True).
Proof.
  intros HP. unfold Identify.InvokeResultCallback, tell_caller. destruct (Identify.result_attributes r) as [a ok].
  repeat step; auto.
Qed.

Lemma identify_tells_verdict c code attr t :
  wp (identify_telling c code attr) (Identify.OnResult c code attr) t (λ _ _, True).
Proof.
  unfold Identify.OnResult, Identify.UpdateScheduleResult, Identification.Update.
  fold (schedule_result attr). destruct (schedule_result attr) as [r|] eqn:E; repeat step; [done|..].
  all: eapply wp_wand; [apply wp_identify_Invoke; intros extra|intros; by step].
  all: try congruence; unfold identify_telling, identify_said; rewrite E; eexists; (split;
    [first [done|eexists _, _; split; [done|]; apply elem_of_app; right; by apply list_elem_of_singleton]|]).
  all: unfold identify_verdict, Identification.GetLatestError, latest in *; simpl in *; unfold latest;
    repeat case_decide; simplify_eq; try done.
Qed.

(** The code that the caller of an identification is told is what the
    engine says about the schedule's result, even when the schedule itself
    failed; only when the engine has no verdict does the schedule's failure
    count, and then the engine's error. *)
Theorem identify_result_told (o : env answer) c code attr :
  guarded (identify_telling c code attr) (run o (Identify.OnResult c code attr) []).2.
Proof. apply (wp_run_nil _ o _ _ (identify_tells_verdict c code attr [])). Qed.
End IdentifyResult.
