(* ===== verification/RemoteExecutor.v ===== *)
(** * Executors on another device

    Models both ends of a remote execution: [RemoteExecutorProxy]
    (services/core/src/remote_executor_proxy.cpp) stands on the verifying
    device for the executor of the collecting device, where
    [RemoteExecutorStub] (services/context/src/remote_executor_stub.cpp) drives
    the real one. [RemoteIamCallback] (remote_iam_callback.cpp) sends tips and
    results back to the device that asked.

    [SendMessage] hands a message to the soft bus; what is done with the answer
    is a function of its own ([..._reply]), called when the answer arrives. The
    objects hold each other by weak pointers, which are assumed to be alive
    when they are used, and a message of the bus is never null. *)

From S2P Require Import Prelude Defines Interaction ServiceTypes Attributes Platform IpcCommon RemoteMsg.
From S2P Require Import UserIdmDatabase.

(* @file P = src/services/core/src/remote_executor_proxy.cpp *)
(* @file PH = src/services/core/inc/remote_executor_proxy.h *)
(* @file S = src/services/context/src/remote_executor_stub.cpp *)
(* @file SH = src/services/context/inc/remote_executor_stub.h *)
(* @file C = src/services/context/src/remote_iam_callback.cpp *)

(** A copy of a message, if there is memory for it. *)
Definition copy_message (attr : Attributes) : service (option Attributes) :=
  ok ← call (MakeShared "Attributes");
  mret (if (ok : bool) then Some (Attributes_of_raw (Serialize attr)) else None).

(** A copy with more attributes, sent to an end point. *)
Definition send_with (connectionName src dest : bytes) (attr : Attributes)
    (setters : list (Attributes → Attributes * bool)) : service Z :=
  request ← copy_message attr;
  match request with
  | None => mret GENERAL_ERROR
  | Some request =>
    let '(request, ok) := set_all request setters in
    CHECK ok = true ELSE mret GENERAL_ERROR ;;
    sendMsgRet ← call (SendMessage connectionName src dest request);
    CHECK sendMsgRet = SUCCESS ELSE mret GENERAL_ERROR ;;
    mret SUCCESS
  end.

(** The answer to a message that was taken. *)
Definition acknowledge (resultCode : Z) (reply : Attributes) : Attributes :=
  if decide (resultCode = SUCCESS) then (SetInt32Value reply ATTR_RESULT_CODE SUCCESS).1 else reply.

Module Proxy.

(** [messenger_] tells whether there is one. *)
(* @src PH:57-65 RemoteExecutorProxy *)
Record t := mk {
  messenger_ : bool;
  executorIndex_ : Z;
  connectionName_ : bytes;
  registerInfo_ : ExecutorInfo;
}.
(* @src P RemoteExecutorProxy::RemoteExecutorProxy *)
Definition new (connectionName : bytes) (registerInfo : ExecutorInfo) : t := mk false 0 connectionName registerInfo.

(* @src P RemoteExecutorProxy::~RemoteExecutorProxy *)
Definition destroy (p : t) : service () :=
  call (UnregisterConnectionListener (connectionName_ p) EXECUTOR_PROXY_ENDPOINT_NAME);;
  call (UnregisterExecutor (executorIndex_ p)).

(* @src P RemoteExecutorProxy::Start *)
Definition Start (p : t) : service (t * Z) :=
  ok ← call (MakeShared "RemoteExecutorProxyMessageCallback");
  CHECK ok = true ELSE mret (p, GENERAL_ERROR) ;;
  registerResult ← call (RegisterConnectionListener (connectionName_ p) EXECUTOR_PROXY_ENDPOINT_NAME);
  CHECK registerResult = SUCCESS ELSE mret (p, GENERAL_ERROR) ;;
  ok ← call (MakeShared "RemoteExecutorProxyCallback");
  CHECK ok = true ELSE mret (p, GENERAL_ERROR) ;;
  executorIndex ← call (RegisterExecutor (registerInfo_ p));
  CHECK executorIndex ≠ INVALID_EXECUTOR_INDEX ELSE mret (p, GENERAL_ERROR) ;;
  mret (mk (messenger_ p) executorIndex (connectionName_ p) (registerInfo_ p), SUCCESS).

(* @src P RemoteExecutorProxy::OnMessengerReady *)
Definition OnMessengerReady (p : t) : t := mk true (executorIndex_ p) (connectionName_ p) (registerInfo_ p).

(** The collector's message becomes the schedule data. *)
(* @src P RemoteExecutorProxy::OnBeginExecute *)
Definition OnBeginExecute (p : t) (scheduleId : Z) (command : Attributes) : service Z :=
  request ← copy_message command;
  match request with
  | None => mret GENERAL_ERROR
  | Some request =>
    let '(request, ok) := set_all request [
      (λ a, SetInt32Value a ATTR_MSG_TYPE BEGIN_EXECUTE);
      (λ a, SetUint64Value a ATTR_SCHEDULE_ID scheduleId)] in
    CHECK ok = true ELSE mret GENERAL_ERROR ;;
    match GetUint8ArrayValue request ATTR_EXTRA_INFO with
    | None => mret GENERAL_ERROR
    | Some collectorMessage =>
      let '(request, ok) := SetUint8ArrayValue request ATTR_SCHEDULE_DATA collectorMessage in
      CHECK ok = true ELSE mret GENERAL_ERROR ;;
      sendMsgRet ← call (SendMessage (connectionName_ p) EXECUTOR_PROXY_ENDPOINT_NAME REMOTE_SERVICE_ENDPOINT_NAME request);
      CHECK sendMsgRet = SUCCESS ELSE mret GENERAL_ERROR ;;
      mret SUCCESS
    end
  end.

(* @src P RemoteExecutorProxy::OnEndExecute *)
Definition OnEndExecute (p : t) (scheduleId : Z) (command : Attributes) : service Z :=
  send_with (connectionName_ p) EXECUTOR_PROXY_ENDPOINT_NAME REMOTE_SERVICE_ENDPOINT_NAME command [
    (λ a, SetInt32Value a ATTR_MSG_TYPE END_EXECUTE);
    (λ a, SetUint64Value a ATTR_SCHEDULE_ID scheduleId)].

(* @src P RemoteExecutorProxy::OnSendData *)
Definition OnSendData (p : t) (scheduleId : Z) (data : Attributes) : service Z :=
  send_with (connectionName_ p) EXECUTOR_PROXY_ENDPOINT_NAME EXECUTOR_STUB_ENDPOINT_NAME data [
    (λ a, SetInt32Value a ATTR_MSG_TYPE SEND_DATA_TO_EXECUTOR);
    (λ a, SetUint64Value a ATTR_SCHEDULE_ID scheduleId)].

(* @src P RemoteExecutorProxy::ProcSendDataMsg *)
Definition ProcSendDataMsg (p : t) (data : Attributes) : service Z :=
  match GetUint64Value data ATTR_SCHEDULE_ID with
  | None => mret GENERAL_ERROR
  | Some scheduleId =>
    match GetInt32Value data ATTR_DEST_ROLE with
    | None => mret GENERAL_ERROR
    | Some dstRole =>
      msg ← call (MakeShared "AuthMessage");
      CHECK msg = true ELSE mret GENERAL_ERROR ;;
      CHECK messenger_ p = true ELSE mret GENERAL_ERROR ;;
      ret ← call (MessengerSendData scheduleId dstRole (Serialize data));
      CHECK ret = SUCCESS ELSE mret GENERAL_ERROR ;;
      mret ret
    end
  end.

(* @src P RemoteExecutorProxy::ProcFinishMsg *)
Definition ProcFinishMsg (p : t) (data : Attributes) : service Z :=
  match GetUint64Value data ATTR_SCHEDULE_ID with
  | None => mret GENERAL_ERROR
  | Some scheduleId =>
    match GetInt32Value data ATTR_RESULT_CODE with
    | None => mret GENERAL_ERROR
    | Some resultCode =>
      CHECK messenger_ p = true ELSE mret GENERAL_ERROR ;;
      ret ← call (MessengerFinish scheduleId resultCode data);
      CHECK ret = SUCCESS ELSE mret GENERAL_ERROR ;;
      mret ret
    end
  end.

(* @src P RemoteExecutorProxy::OnErrorFinish *)
Definition OnErrorFinish (p : t) (scheduleId : Z) : service () :=
  let '(request, ok) := set_all Attributes_new [
    (λ a, SetUint64Value a ATTR_SCHEDULE_ID scheduleId);
    (λ a, SetInt32Value a ATTR_RESULT_CODE GENERAL_ERROR)] in
  CHECK ok = true ELSE mret () ;;
  ProcFinishMsg p request;;
  mret ().

(** The answer to [OnBeginExecute] and to [OnSendData]: a failure ends the
    schedule. *)
(* @src P:245-259 RemoteExecutorProxy::OnBeginExecute *)
Definition execute_reply (p : t) (scheduleId : Z) (reply : Attributes) : service () :=
  match GetInt32Value reply ATTR_RESULT_CODE with
  | None => mret ()
  | Some resultCode =>
    WHEN resultCode ≠ SUCCESS RETURN OnErrorFinish p scheduleId ;;
    mret ()
  end.

(** What is left of the answer when the message is done. *)
(* @src P RemoteExecutorProxy::OnMessage *)
Definition OnMessage (p : t) (connectionName : bytes) (request reply : Attributes) : service Attributes :=
  CHECK connectionName_ p = connectionName ELSE mret reply ;;
  match GetInt32Value request ATTR_MSG_TYPE with
  | None => mret reply
  | Some msgType =>
    resultCode ← (
      if decide (msgType = EXECUTOR_SEND_DATA) then ProcSendDataMsg p request
      else if decide (msgType = EXECUTOR_FINISH) then ProcFinishMsg p request
      else mret GENERAL_ERROR);
    mret (acknowledge resultCode reply)
  end.
End Proxy.

Module Stub.

(** The schedule node of a stub: its id, whether it listens to the resource
    node pool, and the executor. *)
(* @src S:153-158 RemoteExecutorStubScheduleNode *)
Record node := mkNode { scheduleId_ : Z; resourceNodePoolListener_ : bool; collectorExecutor_ : Z }.

(** [connectionCallback_] tells whether there is one. *)
(* @src SH:52-58 RemoteExecutorStub *)
Record t := mk {
  connectionCallback_ : bool;
  remoteScheduleNode_ : option node;
  executorIndex_ : Z;
  connectionName_ : bytes;
  contextId_ : option Z;
}.
(* @src S RemoteExecutorStub::RemoteExecutorStub *)
Definition new : t := mk false None 0 [] None.

(* @src S:53-58 RemoteExecutorStubScheduleNode::~RemoteExecutorStubScheduleNode *)
Definition destroy_node (n : node) : service () :=
  if resourceNodePoolListener_ n then call DeregisterResourceNodePoolListener else mret ().

(** The members go after the body; nobody else holds the node. *)
(* @src S RemoteExecutorStub::~RemoteExecutorStub *)
Definition destroy (s : t) : service () :=
  (if connectionCallback_ s then call (UnregisterConnectionListener (connectionName_ s) EXECUTOR_STUB_ENDPOINT_NAME)
   else mret ());;
  match contextId_ s with Some contextId => call (PoolDelete contextId) | None => mret () end;;
  match remoteScheduleNode_ s with Some n => destroy_node n | None => mret () end.

(* @src S:112-120 RemoteExecutorStubScheduleNode::StartSchedule *)
Definition StartSchedule (n : node) : service (node * bool) :=
  ok ← call (MakeShared "ScheduleResourceNodeListener");
  CHECK ok = true ELSE mret (mkNode (scheduleId_ n) false (collectorExecutor_ n), false) ;;
  let n := mkNode (scheduleId_ n) true (collectorExecutor_ n) in
  registerRet ← call RegisterResourceNodePoolListener;
  CHECK registerRet = true ELSE mret (n, false) ;;
  mret (n, true).

Definition with_callback (s : t) : t :=
  mk true (remoteScheduleNode_ s) (executorIndex_ s) (connectionName_ s) (contextId_ s).
Definition with_name (s : t) (connectionName : bytes) : t :=
  mk (connectionCallback_ s) (remoteScheduleNode_ s) (executorIndex_ s) connectionName (contextId_ s).
Definition with_executor (s : t) (executorIndex : Z) : t :=
  mk (connectionCallback_ s) (remoteScheduleNode_ s) executorIndex (connectionName_ s) (contextId_ s).
Definition with_node (s : t) (n : node) : t :=
  mk (connectionCallback_ s) (Some n) (executorIndex_ s) (connectionName_ s) (contextId_ s).
Definition with_context (s : t) (contextId : Z) : t :=
  mk (connectionCallback_ s) (remoteScheduleNode_ s) (executorIndex_ s) (connectionName_ s) (Some contextId).

(** The part that begins with the schedule from the engine. *)
(* @src S:268-295 RemoteExecutorStub::ProcBeginExecuteRequest *)
Definition begin_schedule (s : t) (attr : Attributes) (info : EngScheduleInfo) (index : Z) (message : bytes) :
    service (t * Z) :=
  let s := with_executor s index in
  node ← call (SelectNode index);
  match node with
  | None => mret (s, GENERAL_ERROR)
  | Some node =>
    ok ← call (MakeShared "RemoteExecutorStubScheduleNode");
    CHECK ok = true ELSE mret (s, GENERAL_ERROR) ;;
    '(n, startScheduleRet) ← StartSchedule (mkNode (e_scheduleId info) false node);
    let s := with_node s n in
    CHECK startScheduleRet = true ELSE mret (s, GENERAL_ERROR) ;;
    newContextId ← call GetNewContextId;
    ok ← call (MakeShared "ScheduleHolderContext");
    CHECK ok = true ELSE mret (s, GENERAL_ERROR) ;;
    addContextRet ← call (PoolSchedule newContextId (ScheduleHolderContext (e_scheduleId info)));
    CHECK addContextRet = true ELSE mret (s, GENERAL_ERROR) ;;
    let s := with_context s newContextId in
    let '(attr, setExtraInfo) := SetUint8ArrayValue attr ATTR_EXTRA_INFO message in
    CHECK setExtraInfo = true ELSE mret (s, GENERAL_ERROR) ;;
    ret ← call (NodeBeginExecute node (e_scheduleId info) [] attr);
    mret (s, ret)
  end.

(** The stub, the schedule id that the request names (0 without one) and the
    result. *)
(* @src S:233-268 RemoteExecutorStub::ProcBeginExecuteRequest *)
Definition ProcBeginExecuteRequest (s : t) (attr : Attributes) : service (t * Z * Z) :=
  match GetUint64Value attr ATTR_SCHEDULE_ID with
  | None => mret (s, 0, GENERAL_ERROR)
  | Some scheduleId =>
    ok ← call (MakeShared "RemoteExecutorStubMessageCallback");
    CHECK ok = true ELSE mret (s, scheduleId, GENERAL_ERROR) ;;
    let s := with_callback s in
    match GetStringValue attr ATTR_CONNECTION_NAME with
    | None => mret (s, scheduleId, GENERAL_ERROR)
    | Some connectionName =>
      let s := with_name s connectionName in
      registerResult ← call (RegisterConnectionListener connectionName EXECUTOR_STUB_ENDPOINT_NAME);
      CHECK registerResult = SUCCESS ELSE mret (s, scheduleId, GENERAL_ERROR) ;;
      match GetStringValue attr ATTR_MSG_SRC_UDID, GetUint8ArrayValue attr ATTR_SCHEDULE_DATA with
      | Some srcUdid, Some scheduleData =>
        '(ret, info) ← call (EngGetLocalScheduleFromMessage srcUdid scheduleData);
        CHECK ret = SUCCESS ELSE mret (s, scheduleId, GENERAL_ERROR) ;;
        match e_executorIndexes info, e_executorMessages info with
        | [index], [message] =>
          '(s, ret) ← begin_schedule s attr info index message;
          mret (s, scheduleId, ret)
        | _, _ => mret (s, scheduleId, GENERAL_ERROR)
        end
      | _, _ => mret (s, scheduleId, GENERAL_ERROR)
      end
    end
  end.

(* @src S RemoteExecutorStub::ProcSendDataMsg *)
Definition ProcSendDataMsg (s : t) (attr : Attributes) : service Z :=
  match GetUint64Value attr ATTR_SCHEDULE_ID with
  | None => mret GENERAL_ERROR
  | Some scheduleId =>
    node ← call (SelectNode (executorIndex_ s));
    match node with
    | None => mret GENERAL_ERROR
    | Some node =>
      ret ← call (NodeSendData node scheduleId attr);
      CHECK ret = SUCCESS ELSE mret GENERAL_ERROR ;;
      mret ret
    end
  end.

(** A message from the bus. *)
(* @src S:297-324 RemoteExecutorStub::OnMessage *)
Definition OnMessage (s : t) (request reply : Attributes) : service Attributes :=
  match GetInt32Value request ATTR_MSG_TYPE with
  | None => mret reply
  | Some msgType =>
    resultCode ← (if decide (msgType = SEND_DATA_TO_EXECUTOR) then ProcSendDataMsg s request else mret GENERAL_ERROR);
    mret (acknowledge resultCode reply)
  end.

(** A message from the executor. *)
(* @src S:326-354 RemoteExecutorStub::OnMessage *)
Definition OnExecutorMessage (s : t) (dstRole : Z) (msg : bytes) : service Z :=
  match remoteScheduleNode_ s with
  | None => mret GENERAL_ERROR
  | Some n =>
    ok ← call (MakeShared "Attributes");
    CHECK ok = true ELSE mret GENERAL_ERROR ;;
    let '(request, ok) := set_all (Attributes_of_raw msg) [
      (λ a, SetInt32Value a ATTR_MSG_TYPE EXECUTOR_SEND_DATA);
      (λ a, SetUint64Value a ATTR_SCHEDULE_ID (scheduleId_ n));
      (λ a, SetInt32Value a ATTR_DEST_ROLE dstRole)] in
    CHECK ok = true ELSE mret GENERAL_ERROR ;;
    sendMsgRet ← call (SendMessage (connectionName_ s) EXECUTOR_STUB_ENDPOINT_NAME EXECUTOR_PROXY_ENDPOINT_NAME request);
    CHECK sendMsgRet = SUCCESS ELSE mret GENERAL_ERROR ;;
    mret SUCCESS
  end.

(** The executor has finished. *)
(* @src S:356-388 RemoteExecutorStub::ContinueSchedule *)
Definition ContinueSchedule (s : t) (resultCode : Z) (finalResult : Attributes) : service Z :=
  match remoteScheduleNode_ s with
  | None => mret GENERAL_ERROR
  | Some n =>
    send_with (connectionName_ s) EXECUTOR_STUB_ENDPOINT_NAME EXECUTOR_PROXY_ENDPOINT_NAME finalResult [
      (λ a, SetInt32Value a ATTR_MSG_TYPE EXECUTOR_FINISH);
      (λ a, SetUint64Value a ATTR_SCHEDULE_ID (scheduleId_ n));
      (λ a, SetInt32Value a ATTR_RESULT_CODE resultCode)]
  end.

(** The functions of the schedule node that reach the stub. *)
(* @src S:136-143 RemoteExecutorStubScheduleNode::SendMessage *)
Definition node_SendMessage (s : t) (dstRole : Z) (msg : bytes) : service bool :=
  ret ← OnExecutorMessage s dstRole msg; mret (bool_decide (ret = SUCCESS)).
(* @src S:144-151 RemoteExecutorStubScheduleNode::ContinueSchedule *)
Definition node_ContinueSchedule (s : t) (resultCode : Z) (finalResult : Attributes) : service bool :=
  ret ← ContinueSchedule s resultCode finalResult; mret (bool_decide (ret = SUCCESS)).
(** The executor has gone, for instance. *)
(* @src S:125-135 RemoteExecutorStubScheduleNode::StopSchedule *)
Definition node_StopSchedule (s : t) (errorCode : Z) : service bool :=
  ok ← call (MakeShared "Attributes");
  CHECK ok = true ELSE mret false ;;
  let '(finalResult, ok) := SetInt32Value Attributes_new ATTR_RESULT_CODE errorCode in
  CHECK ok = true ELSE mret false ;;
  node_ContinueSchedule s errorCode finalResult.
End Stub.

Module RemoteIamCallback.

(* @src C RemoteIamCallback::OnResult *)
Definition OnResult (connectionName : bytes) (resultCode : Z) (extraInfo : bytes) : service Z :=
  ok ← call (MakeShared "Attributes");
  CHECK ok = true ELSE mret GENERAL_ERROR ;;
  let '(request, ok) := set_all (Attributes_of_raw extraInfo) [
    (λ a, SetInt32Value a ATTR_MSG_TYPE SEND_REMOTE_AUTH_RESULT);
    (λ a, SetInt32Value a ATTR_RESULT resultCode)] in
  CHECK ok = true ELSE mret GENERAL_ERROR ;;
  sendMsgRet ← call (SendMessage connectionName REMOTE_CALLBACK_ENDPOINT_NAME REMOTE_AUTH_INVOKER_CONTEXT_ENDPOINT_NAME request);
  CHECK sendMsgRet = SUCCESS ELSE mret GENERAL_ERROR ;;
  mret SUCCESS.

(* @src C RemoteIamCallback::OnAcquireInfo *)
Definition OnAcquireInfo (connectionName : bytes) (module acquireInfo : Z) (extraInfo : bytes) : service Z :=
  ok ← call (MakeShared "Attributes");
  CHECK ok = true ELSE mret GENERAL_ERROR ;;
  let '(request, ok) := set_all (Attributes_of_raw extraInfo) [
    (λ a, SetInt32Value a ATTR_MSG_TYPE SEND_REMOTE_AUTH_TIP);
    (λ a, SetInt32Value a ATTR_DEST_ROLE module);
    (λ a, SetInt32Value a ATTR_TIP_INFO acquireInfo)] in
  CHECK ok = true ELSE mret GENERAL_ERROR ;;
  sendMsgRet ← call (SendMessage connectionName REMOTE_CALLBACK_ENDPOINT_NAME REMOTE_AUTH_INVOKER_CONTEXT_ENDPOINT_NAME request);
  CHECK sendMsgRet = SUCCESS ELSE mret GENERAL_ERROR ;;
  mret SUCCESS.
End RemoteIamCallback.
