(* ===== verification/ContextFactory.v ===== *)
(** * Making contexts

    Models services/context/src/context_factory.cpp. A context is made with a
    fresh id, or not at all ([None]) when an allocation or the name of the
    connection fails. [callback] says that the callback is not null. *)

From S2P Require Import Prelude Defines Interaction ServiceTypes Attributes Platform IpcCommon UserIdmDatabase.

(* @file F = src/services/context/src/context_factory.cpp *)

(** The id of a context and what it was made from. *)
Definition Context : Type := Z * NewContext.

Definition MakeShared_context (id : Z) (context : NewContext) : service (option Context) :=
  ok ← call (MakeShared "Context");
  mret (if (ok : bool) then Some (id, context) else None).

(* @src F ContextFactory::CreateSimpleAuthContext *)
Definition CreateSimpleAuthContext (para : AuthenticationPara) (needSubscribeAppState isPrimaryContext callback : bool) :
    service (option Context) :=
  CHECK callback = true ELSE mret None ;;
  newContextId ← call GetNewContextId;
  auth ← call (MakeShared "AuthenticationImpl");
  CHECK auth = true ELSE mret None ;;
  MakeShared_context newContextId (SimpleAuthContext para needSubscribeAppState isPrimaryContext).

(* @src F ContextFactory::CreateIdentifyContext *)
Definition CreateIdentifyContext (para : IdentificationPara) (callback : bool) : service (option Context) :=
  CHECK callback = true ELSE mret None ;;
  newContextId ← call GetNewContextId;
  identify ← call (MakeShared "IdentificationImpl");
  CHECK identify = true ELSE mret None ;;
  MakeShared_context newContextId (IdentifyContext para).

(* @src F ContextFactory::CreateEnrollContext *)
Definition CreateEnrollContext (para : EnrollmentPara) (needSubscribeAppState callback : bool) :
    service (option Context) :=
  CHECK callback = true ELSE mret None ;;
  newContextId ← call GetNewContextId;
  enroll ← call (MakeShared "EnrollmentImpl");
  CHECK enroll = true ELSE mret None ;;
  MakeShared_context newContextId (EnrollContext para needSubscribeAppState).

(* @src F ContextFactory::CreateWidgetContext *)
Definition CreateWidgetContext (para : AuthWidgetContextPara)
    (isPrimaryContext callback modalCallback remoteAuthCallback : bool) : service (option Context) :=
  CHECK callback = true ELSE mret None ;;
  newContextId ← call GetNewContextId;
  MakeShared_context newContextId (WidgetContext para isPrimaryContext modalCallback remoteAuthCallback).

(* @src F ContextFactory::CreateRemoteAuthContext *)
Definition CreateRemoteAuthContext (para : AuthenticationPara) (param : RemoteAuthContextParam)
    (isPrimaryContext callback : bool) : service (option Context) :=
  CHECK callback = true ELSE mret None ;;
  newContextId ← call GetNewContextId;
  auth ← call (MakeShared "AuthenticationImpl");
  CHECK auth = true ELSE mret None ;;
  name ← (if decide (rc_connectionName param = []) then call (GetConnectionName newContextId)
          else mret (Some (rc_connectionName param)));
  match name with
  | None => mret None
  | Some name =>
    MakeShared_context newContextId (RemoteAuthContext para
      (mkRemoteContext (rc_authType param) name (rc_collectorNetworkId param) (rc_executorInfoMsg param))
      isPrimaryContext)
  end.

(* @src F ContextFactory::CreateRemoteAuthInvokerContext *)
Definition CreateRemoteAuthInvokerContext (authParam : AuthParamInner) (param : RemoteAuthInvokerContextParam)
    (callback : bool) : service (option Context) :=
  CHECK callback = true ELSE mret None ;;
  newContextId ← call GetNewContextId;
  name ← call (GetConnectionName newContextId);
  match name with
  | None => mret None
  | Some name =>
    MakeShared_context newContextId (RemoteAuthInvokerContext authParam
      (mkRemoteInvoker name (ri_verifierNetworkId param) (ri_collectorNetworkId param) (ri_tokenId param)
        (ri_collectorTokenId param) (ri_callerName param) (ri_callerType param)))
  end.

(* @src F ContextFactory::CreateLocalRemoteAuthContext *)
Definition CreateLocalRemoteAuthContext (para : AuthenticationPara) (param : LocalRemoteAuthContextParam)
    (isPrimaryContext callback : bool) : service (option Context) :=
  CHECK callback = true ELSE mret None ;;
  newContextId ← call GetNewContextId;
  auth ← call (MakeShared "AuthenticationImpl");
  CHECK auth = true ELSE mret None ;;
  MakeShared_context newContextId (LocalRemoteAuthContext para param isPrimaryContext).

(* @src F ContextFactory::CreateDeleteContext *)
Definition CreateDeleteContext (para : DeleteParam) (callback : bool) : service (option Context) :=
  CHECK callback = true ELSE mret None ;;
  newContextId ← call GetNewContextId;
  deleteImpl ← call (MakeShared "DeleteImpl");
  CHECK deleteImpl = true ELSE mret None ;;
  MakeShared_context newContextId (DeleteContext para).

(* @src F ContextFactory::CreateSudoAuthContext *)
Definition CreateSudoAuthContext (para : SudoAuthContextPara) (callback : bool) : service (option Context) :=
  CHECK callback = true ELSE mret None ;;
  newContextId ← call GetNewContextId;
  MakeShared_context newContextId (SudoAuthContext para).

Lemma only_MakeShared_context id ctx : only silent (MakeShared_context id ctx).
Proof. unfold MakeShared_context. only_steps. Qed.
#[export] Hint Resolve only_MakeShared_context : service.
Lemma only_CreateSimpleAuthContext p b1 b2 cb : only silent (CreateSimpleAuthContext p b1 b2 cb).
Proof. unfold CreateSimpleAuthContext. only_steps. Qed.
Lemma only_CreateIdentifyContext p cb : only silent (CreateIdentifyContext p cb).
Proof. unfold CreateIdentifyContext. only_steps. Qed.
Lemma only_CreateEnrollContext p b cb : only silent (CreateEnrollContext p b cb).
Proof. unfold CreateEnrollContext. only_steps. Qed.
Lemma only_CreateWidgetContext p b cb m r : only silent (CreateWidgetContext p b cb m r).
Proof. unfold CreateWidgetContext. only_steps. Qed.
Lemma only_CreateRemoteAuthContext p q b cb : only silent (CreateRemoteAuthContext p q b cb).
Proof. unfold CreateRemoteAuthContext. only_steps. Qed.
Lemma only_CreateRemoteAuthInvokerContext p q cb : only silent (CreateRemoteAuthInvokerContext p q cb).
Proof. unfold CreateRemoteAuthInvokerContext. only_steps. Qed.
Lemma only_CreateLocalRemoteAuthContext p q b cb : only silent (CreateLocalRemoteAuthContext p q b cb).
Proof. unfold CreateLocalRemoteAuthContext. only_steps. Qed.
Lemma only_CreateDeleteContext p cb : only silent (CreateDeleteContext p cb).
Proof. unfold CreateDeleteContext. only_steps. Qed.
Lemma only_CreateSudoAuthContext p cb : only silent (CreateSudoAuthContext p cb).
Proof. unfold CreateSudoAuthContext. only_steps. Qed.
#[export] Hint Resolve only_CreateSimpleAuthContext only_CreateIdentifyContext only_CreateEnrollContext
  only_CreateWidgetContext only_CreateRemoteAuthContext only_CreateRemoteAuthInvokerContext
  only_CreateLocalRemoteAuthContext only_CreateDeleteContext only_CreateSudoAuthContext : service.

(** ** Starting a context

    Every service function that starts a context has this shape: a scope guard
    answers GENERAL_ERROR unless the pool takes the context; the cleaner, which
    removes the context from the pool when the caller is answered, is set
    before. [None] is a failure. *)
Definition start_context (setCleaner : bool) (create : service (option Context)) : service (option Z) :=
  let failGuard := call (OnResult true GENERAL_ERROR Attributes_new) in
  context ← create;
  match context with
  | None => failGuard ≫= λ _, mret None
  | Some (id, context) =>
    (if setCleaner then call (SetCleaner id) else mret ());;
    ret ← call (PoolSchedule id context);
    if (ret : bool) then mret (Some id) else failGuard ≫= λ _, mret None
  end.

(** ** Answers

    [answers P m]: from any trace, [m] ends with the caller answered or a
    context scheduled as [P] says of its result. The postcondition counts. *)
Definition answers {A} (m : service A) (P : A → nat → nat → Prop) : Prop := tallies is_result is_scheduled m P.

Lemma silent_uncounted e : silent (asked e) = true → is_result e = false ∧ is_scheduled e = false.
Proof. by destruct e as [[] ?]. Qed.

Lemma tally_silent t t' : extends silent t t' → results t' = results t ∧ scheduled t' = scheduled t.
Proof. intros E. split; (eapply tally_extends; [|exact E]); intros e He; by apply silent_uncounted. Qed.

Lemma answers_silent {A} (m : service A) (P : A → nat → nat → Prop) :
  only silent m → (∀ a, P a 0 0)%nat → answers m P.
Proof. apply tallies_only, silent_uncounted. Qed.

Lemma answers_ret {A} (a : A) (P : A → nat → nat → Prop) : P a 0%nat 0%nat → answers (mret a) P.
Proof. apply tallies_ret. Qed.

Lemma answers_bind {A B} (m : service A) (f : A → service B) (P : A → nat → nat → Prop) Q :
  answers m P → (∀ a r s, P a r s → answers (f a) (λ b r' s', Q b (r + r')%nat (s + s')%nat)) → answers (m ≫= f) Q.
Proof. apply tallies_bind. Qed.

Lemma answers_silent_bind {A B} (m : service A) (f : A → service B) Q :
  only silent m → (∀ a, answers (f a) Q) → answers (m ≫= f) Q.
Proof. apply tallies_only_bind, silent_uncounted. Qed.

Lemma answers_mono {A} (m : service A) (P Q : A → nat → nat → Prop) :
  answers m P → (∀ a r s, P a r s → Q a r s) → answers m Q.
Proof. apply tallies_mono. Qed.

(** Over a whole run. *)
Lemma answers_run {A} (o : env answer) (m : service A) (P : A → nat → nat → Prop) :
  answers m P → let '(a, t) := run o m [] in P a (results t) (scheduled t).
Proof.
  intros Hm. pose proof (tallies_run _ _ o m P [] Hm) as H. destruct (run o m []) as [a t].
  destruct H as (r & s & Hr & Hs & H). change (tally is_result t = r) in Hr. change (tally is_scheduled t = s) in Hs.
  unfold results, scheduled. by rewrite Hr, Hs.
Qed.

Lemma answers_result v code attr : answers (call (OnResult v code attr)) (λ _ r s, r = 1 ∧ s = 0)%nat.
Proof. by apply tallies_call. Qed.

Lemma answers_schedule id ctx :
  answers (call (PoolSchedule id ctx)) (λ b r s, r = 0 ∧ s = if (b : bool) then 1 else 0)%nat.
Proof. by apply tallies_call. Qed.

(** Runs a handler and counts. *)
Ltac count_step :=
  cbv zeta;
  lazymatch goal with
  | |- answers (mret _) _ => apply answers_ret
  | |- answers (call (OnResult ?v ?code ?attr)) _ =>
      eapply answers_mono; [apply (answers_result v code attr)|intros ? ? ? [-> ->]]
  | |- answers (call (OnResult ?v ?code ?attr) ≫= _) _ =>
      eapply answers_bind; [apply (answers_result v code attr)|intros ? ? ? [-> ->]]
  | |- answers (call (PoolSchedule ?id ?ctx) ≫= _) _ =>
      eapply answers_bind; [apply (answers_schedule id ctx)|intros ? ? ? [-> ->]]
  | |- answers (_ ≫= _) _ => apply answers_silent_bind; [solve [only_steps]|intros ?]
  | |- answers (match ?x with _ => _ end) _ => branch_on x
  end.

(** A context is scheduled, or the caller is told. *)
Lemma answers_start_context setCleaner create :
  only silent create →
  answers (start_context setCleaner create) (λ id r s, r + s = 1 ∧ (is_Some id ↔ s = 1))%nat.
Proof.
  intros Hc. unfold start_context. apply answers_silent_bind; [done|]. intros context.
  repeat count_step; subst; (split; [done|]); split; (done || by intros [] || eauto).
Qed.

(** ** What is scheduled

    A guard that only looks at what is given to the pool. *)
Definition on_schedule (G : trace → NewContext → Prop) (t : trace) (q : sys) : Prop :=
  match q with PoolSchedule _ ctx => G t ctx | _ => True end.

Lemma wp_silent G {A} (m : service A) t (Φ : A → trace → Prop) :
  only silent m → (∀ a t', extends silent t t' → Φ a t') → wp (on_schedule G) m t Φ.
Proof. intros H. apply wp_only; [exact H|]. by intros ? []. Qed.

Lemma wp_result G v code attr t (Φ : () → trace → Prop) :
  (∀ t', Φ tt t') → wp (on_schedule G) (call (OnResult v code attr)) t Φ.
Proof. intros H. apply (@wp_call _ answer _ (OnResult v code attr)); [done|]. intros []. apply H. Qed.

(** What a start calls besides the pool. *)
Definition starting_call (q : sys) : bool :=
  match q with MakeShared _ | GetNewContextId | GetConnectionName _ | SetCleaner _ | OnResult _ _ _ => true | _ => false end.

(** The context that a factory function makes is as [ok] says. *)
Definition makes (create : service (option Context)) (ok : NewContext → Prop) : Prop :=
  only silent create ∧ ∀ P t, (∀ t q, starting_call q = true → P t q) →
    wp P create t (λ r t', extends silent t t' ∧ match r with Some (_, ctx) => ok ctx | None => True end).

Lemma wp_start_with (P : trace → sys → Prop) f create t ok :
  makes create ok → (∀ t q, starting_call q = true → P t q) →
  (∀ id ctx t', extends silent t t' → ok ctx → P t' (PoolSchedule id ctx)) →
  wp P (start_context f create) t (λ _ _, True).
Proof.
  intros [_ Hc] HP HG.
  assert (∀ t, wp P (call (OnResult true GENERAL_ERROR Attributes_new) ≫= λ _, mret (None : option Z)) t (λ _ _, True))
    as Hfail.
  { intros t0. apply wp_bind, (@wp_call _ answer _ (OnResult true GENERAL_ERROR Attributes_new)); [by apply HP|].
    intros []. by apply wp_ret. }
  unfold start_context. apply wp_bind. eapply wp_wand; [by apply Hc|].
  intros [[id ctx]|] t1 [E1 Hok]; [|apply Hfail]. apply wp_bind.
  assert (∀ t2, extends silent t1 t2 → wp P (ret ← call (PoolSchedule id ctx);
    if (ret : bool) then mret (Some id) else call (OnResult true GENERAL_ERROR Attributes_new) ≫= λ _, mret None)
    t2 (λ _ _, True)) as Hrest.
  { intros t2 E2. apply wp_bind, (@wp_call _ answer _ (PoolSchedule id ctx)).
    - apply HG; [eauto using extends_trans|done].
    - intros []; [by apply wp_ret|apply Hfail]. }
  destruct f; [|apply wp_ret, Hrest, extends_refl].
  apply (@wp_call _ answer _ (SetCleaner id)); [by apply HP|]. intros []. apply Hrest.
  apply extends_snoc; [done|apply extends_refl].
Qed.

Lemma wp_start_context G f create t ok :
  makes create ok → (∀ ctx t', extends silent t t' → ok ctx → G t' ctx) →
  wp (on_schedule G) (start_context f create) t (λ _ _, True).
Proof. intros Hm HG. eapply wp_start_with; [exact Hm|by intros ? []|]. intros id. apply HG. Qed.

Ltac makes_steps :=
  split; [unfold MakeShared_context; only_steps|]; intros P t HP; unfold MakeShared_context; repeat step; try (by apply HP);
  (split; [|repeat case_match; simplify_eq; eauto]);
  repeat first [apply extends_refl | apply extends_snoc; [reflexivity|]].

Lemma makes_Simple p b1 b2 : makes (CreateSimpleAuthContext p b1 b2 true) (λ ctx, ctx = SimpleAuthContext p b1 b2).
Proof. unfold makes, CreateSimpleAuthContext. makes_steps. Qed.
Lemma makes_Identify p : makes (CreateIdentifyContext p true) (λ ctx, ctx = IdentifyContext p).
Proof. unfold makes, CreateIdentifyContext. makes_steps. Qed.
Lemma makes_Enroll p b : makes (CreateEnrollContext p b true) (λ ctx, ctx = EnrollContext p b).
Proof. unfold makes, CreateEnrollContext. makes_steps. Qed.
Lemma makes_Widget p b m r : makes (CreateWidgetContext p b true m r) (λ ctx, ctx = WidgetContext p b m r).
Proof. unfold makes, CreateWidgetContext. makes_steps. Qed.
Lemma makes_LocalRemote p q b :
  makes (CreateLocalRemoteAuthContext p q b true) (λ ctx, ctx = LocalRemoteAuthContext p q b).
Proof. unfold makes, CreateLocalRemoteAuthContext. makes_steps. Qed.
Lemma makes_Delete p : makes (CreateDeleteContext p true) (λ ctx, ctx = DeleteContext p).
Proof. unfold makes, CreateDeleteContext. makes_steps. Qed.
Lemma makes_Sudo p : makes (CreateSudoAuthContext p true) (λ ctx, ctx = SudoAuthContext p).
Proof. unfold makes, CreateSudoAuthContext. makes_steps. Qed.
Lemma makes_Remote p q b :
  makes (CreateRemoteAuthContext p q b true) (λ ctx, ∃ name, ctx = RemoteAuthContext p
    (mkRemoteContext (rc_authType q) name (rc_collectorNetworkId q) (rc_executorInfoMsg q)) b).
Proof. unfold makes, CreateRemoteAuthContext. makes_steps; eauto. Qed.
Lemma makes_Invoker p q :
  makes (CreateRemoteAuthInvokerContext p q true) (λ ctx, ∃ name, ctx = RemoteAuthInvokerContext p
    (mkRemoteInvoker name (ri_verifierNetworkId q) (ri_collectorNetworkId q) (ri_tokenId q) (ri_collectorTokenId q)
      (ri_callerName q) (ri_callerType q))).
Proof. unfold makes, CreateRemoteAuthInvokerContext. makes_steps; eauto. Qed.
