(* ===== verification/AuthWidgetHelper.v ===== *)
(** * Preparing a widget authentication

    Models services/context/src/auth_widget_helper.cpp: the profile of an
    authentication type (how often it may still be tried, and so on), the valid
    solution of the engine, and the reuse of an unlock result. *)

From S2P Require Import Prelude Defines Interaction ServiceTypes Attributes Platform IpcCommon UserIdmDatabase.

(* @file H = src/services/context/src/auth_widget_helper.cpp *)

Section Updates.
Context (p : AuthWidgetContextPara).

(** Assignments to single fields of [AuthWidgetContextPara]. *)
Definition set_authTypeList (v : list Z) : AuthWidgetContextPara :=
  mkWidgetPara (wc_userId p) (wc_sdkVersion p) (wc_tokenId p) (wc_callerName p) (wc_challenge p) v (wc_atl p)
    (wc_widgetParam p) (wc_authProfileMap p) (wc_callerType p) (wc_callingAppID p) (wc_callingAppIdentifier p)
    (wc_isPinExpired p) (wc_isOsAccountVerified p) (wc_isBackgroundApplication p) (wc_skipLockedBiometricAuth p)
    (wc_credentialIdList p) (wc_remoteCallerName p) (wc_callerPermissions p).
Definition set_authProfileMap (v : gmap Z AuthProfile) : AuthWidgetContextPara :=
  mkWidgetPara (wc_userId p) (wc_sdkVersion p) (wc_tokenId p) (wc_callerName p) (wc_challenge p) (wc_authTypeList p)
    (wc_atl p) (wc_widgetParam p) v (wc_callerType p) (wc_callingAppID p) (wc_callingAppIdentifier p)
    (wc_isPinExpired p) (wc_isOsAccountVerified p) (wc_isBackgroundApplication p) (wc_skipLockedBiometricAuth p)
    (wc_credentialIdList p) (wc_remoteCallerName p) (wc_callerPermissions p).
Definition set_isPinExpired (v : bool) : AuthWidgetContextPara :=
  mkWidgetPara (wc_userId p) (wc_sdkVersion p) (wc_tokenId p) (wc_callerName p) (wc_challenge p) (wc_authTypeList p)
    (wc_atl p) (wc_widgetParam p) (wc_authProfileMap p) (wc_callerType p) (wc_callingAppID p)
    (wc_callingAppIdentifier p) v (wc_isOsAccountVerified p) (wc_isBackgroundApplication p)
    (wc_skipLockedBiometricAuth p) (wc_credentialIdList p) (wc_remoteCallerName p) (wc_callerPermissions p).
Definition set_callerPermissions (v : Z) : AuthWidgetContextPara :=
  mkWidgetPara (wc_userId p) (wc_sdkVersion p) (wc_tokenId p) (wc_callerName p) (wc_challenge p) (wc_authTypeList p)
    (wc_atl p) (wc_widgetParam p) (wc_authProfileMap p) (wc_callerType p) (wc_callingAppID p)
    (wc_callingAppIdentifier p) (wc_isPinExpired p) (wc_isOsAccountVerified p) (wc_isBackgroundApplication p)
    (wc_skipLockedBiometricAuth p) (wc_credentialIdList p) (wc_remoteCallerName p) v.
Definition set_remoteCallerName (v : bytes) : AuthWidgetContextPara :=
  mkWidgetPara (wc_userId p) (wc_sdkVersion p) (wc_tokenId p) (wc_callerName p) (wc_challenge p) (wc_authTypeList p)
    (wc_atl p) (wc_widgetParam p) (wc_authProfileMap p) (wc_callerType p) (wc_callingAppID p)
    (wc_callingAppIdentifier p) (wc_isPinExpired p) (wc_isOsAccountVerified p) (wc_isBackgroundApplication p)
    (wc_skipLockedBiometricAuth p) (wc_credentialIdList p) v (wc_callerPermissions p).
Definition set_caller (tokenId : Z) (isOsAccountVerified : bool) : AuthWidgetContextPara :=
  mkWidgetPara (wc_userId p) (wc_sdkVersion p) tokenId (wc_callerName p) (wc_challenge p) (wc_authTypeList p)
    (wc_atl p) (wc_widgetParam p) (wc_authProfileMap p) (wc_callerType p) (wc_callingAppID p)
    (wc_callingAppIdentifier p) (wc_isPinExpired p) isOsAccountVerified (wc_isBackgroundApplication p)
    (wc_skipLockedBiometricAuth p) (wc_credentialIdList p) (wc_remoteCallerName p) (wc_callerPermissions p).
End Updates.

(* @src H AuthWidgetHelper::InitWidgetContextParam *)
Definition InitWidgetContextParam (authParam : AuthParamInner) (validType : list Z) (widgetParam : WidgetParamInner)
    (para : AuthWidgetContextPara) : AuthWidgetContextPara * bool :=
  let windowMode :=
    if decide (wi_windowMode widgetParam = UNKNOWN_WINDOW_MODE) then DIALOG_BOX else wi_windowMode widgetParam in
  (mkWidgetPara (wc_userId para) (wc_sdkVersion para) (wc_tokenId para) (wc_callerName para)
    (ap_challenge authParam) validType (ap_authTrustLevel authParam)
    (mkWidgetParam (wi_title widgetParam) (wi_navigationButtonText widgetParam) windowMode (wi_hasContext widgetParam))
    (wc_authProfileMap para) (wc_callerType para) (wc_callingAppID para) (wc_callingAppIdentifier para)
    (wc_isPinExpired para) (wc_isOsAccountVerified para) (wc_isBackgroundApplication para)
    (ap_skipLockedBiometricAuth authParam) (ap_credentialIdList authParam) (wc_remoteCallerName para)
    (wc_callerPermissions para), true).

(** The objects that were pushed, null pointers included. *)
Abbreviation credentials := (list (option CredentialInfoImpl)).

(* @src H AuthWidgetHelper::GetAuthCredentialList *)
Definition GetAuthCredentialList (userId authType : Z) (credentialIdList : list Z) : service (bool * credentials) :=
  if decide (credentialIdList = []) then
    '(ret, credentialInfos) ← GetCredentialInfo userId authType;
    CHECK ret = SUCCESS ELSE mret (false, map Some credentialInfos) ;;
    mret (true, map Some credentialInfos)
  else
    r ← for_until (λ (credentialInfos : credentials) credId,
        '(ret, credInfo) ← GetCredentialInfoById credId;
        CHECK ret = SUCCESS ELSE mret (inl credentialInfos) ;;
        mret (inr (credentialInfos ++ [credInfo]) : credentials + credentials)) [] credentialIdList;
    match r with
    | inl credentialInfos => mret (false, credentialInfos)
    | inr credentialInfos => mret (true, credentialInfos)
    end.

(* @src H AuthWidgetHelper::GetUint32PropertyKeys *)
Definition GetUint32PropertyKeys (authType : Z) : list Z :=
  let uint32Keys := [ATTR_REMAIN_TIMES; ATTR_FREEZING_TIME] in
  if decide (authType = PIN ∨ authType = PRIVATE_PIN) then
    uint32Keys ++ [ATTR_PIN_SUB_TYPE; ATTR_NEXT_FAIL_LOCKOUT_DURATION]
  else if decide (authType = FINGERPRINT) then uint32Keys ++ [ATTR_SENSOR_INFO]
  else if decide (authType = FACE) then uint32Keys ++ [ATTR_CAMERA_STATUS]
  else uint32Keys.

(** [values.GetXxx(key, field)]: the field is written if the attribute is there. *)
Definition get_into {V} (found : option V) (set : AuthProfile → V → AuthProfile) (profile : AuthProfile) :
    AuthProfile * bool :=
  match found with Some v => (set profile v, true) | None => (profile, false) end.

(* @src H AuthWidgetHelper::ParseAttributes *)
Definition ParseAttributes (values : Attributes) (authType : Z) (profile : AuthProfile) : AuthProfile * bool :=
  let '(profile, ok) :=
    if decide (authType = PIN ∨ authType = PRIVATE_PIN) then
      get_into (GetInt32Value values ATTR_PIN_SUB_TYPE)
        (λ p v, mkAuthProfile v (sensorInfo p) (remainTimes p) (freezingTime p) (nextPhaseFreezingTime p) (cameraStatus p))
        profile
    else (profile, true) in
  CHECK ok = true ELSE (profile, false) ;;
  let '(profile, ok) :=
    if decide (authType = FINGERPRINT) then
      get_into (GetStringValue values ATTR_SENSOR_INFO)
        (λ p v, mkAuthProfile (pinSubType p) v (remainTimes p) (freezingTime p) (nextPhaseFreezingTime p) (cameraStatus p))
        profile
    else (profile, true) in
  CHECK ok = true ELSE (profile, false) ;;
  let '(profile, ok) := get_into (GetInt32Value values ATTR_REMAIN_TIMES)
    (λ p v, mkAuthProfile (pinSubType p) (sensorInfo p) v (freezingTime p) (nextPhaseFreezingTime p) (cameraStatus p))
    profile in
  CHECK ok = true ELSE (profile, false) ;;
  let '(profile, ok) := get_into (GetInt32Value values ATTR_FREEZING_TIME)
    (λ p v, mkAuthProfile (pinSubType p) (sensorInfo p) (remainTimes p) v (nextPhaseFreezingTime p) (cameraStatus p))
    profile in
  CHECK ok = true ELSE (profile, false) ;;
  let '(profile, _) :=
    if decide (authType = PIN ∨ authType = PRIVATE_PIN) then
      get_into (GetInt32Value values ATTR_NEXT_FAIL_LOCKOUT_DURATION)
        (λ p v, mkAuthProfile (pinSubType p) (sensorInfo p) (remainTimes p) (freezingTime p) v (cameraStatus p)) profile
    else (profile, true) in
  let '(profile, ok) :=
    if decide (authType = FACE) then
      get_into (GetUint32Value values ATTR_CAMERA_STATUS)
        (λ p v, mkAuthProfile (pinSubType p) (sensorInfo p) (remainTimes p) (freezingTime p) (nextPhaseFreezingTime p) v)
        profile
    else (profile, true) in
  CHECK ok = true ELSE (profile, false) ;;
  (profile, true).

(** The condition that [GetUserAuthProfile] sends to the executor. *)
Definition profile_condition (authType : Z) (templateIds : list Z) : Attributes :=
  let attr := (SetInt32Value Attributes_new ATTR_AUTH_TYPE authType).1 in
  let attr := (SetUint32Value attr ATTR_PROPERTY_MODE PROPERTY_MODE_GET).1 in
  let attr := (SetUint64ArrayValue attr ATTR_TEMPLATE_ID_LIST templateIds).1 in
  (SetUint32ArrayValue attr ATTR_KEY_LIST (GetUint32PropertyKeys authType)).1.

(* @src H AuthWidgetHelper::GetUserAuthProfile *)
Definition GetUserAuthProfile (userId authType : Z) (profile : AuthProfile) (credentialIdList : list Z) :
    service (Z * AuthProfile) :=
  '(ok, credentialInfos) ← GetAuthCredentialList userId authType credentialIdList;
  CHECK ok = true ELSE mret (GENERAL_ERROR, profile) ;;
  match credentialInfos with
  | [] | None :: _ => mret (NOT_ENROLLED, profile)
  | Some first :: _ =>
    resourceNode ← call (SelectNode (GetExecutorIndex first));
    match resourceNode with
    | None =>
      WHEN authType = ENTERPRISE_ACCOUNT RETURN mret (SUCCESS, profile) ;;
      mret (GENERAL_ERROR, profile)
    | Some node =>
      let templateIds := omap (λ info, GetTemplateId <$> info) credentialInfos in
      '(result, values) ← call (NodeGetProperty node (profile_condition authType templateIds));
      CHECK result = SUCCESS ELSE mret (GENERAL_ERROR, profile) ;;
      let '(profile, parsed) := ParseAttributes values authType profile in
      CHECK parsed = true ELSE mret (GENERAL_ERROR, profile) ;;
      mret (SUCCESS, profile)
    end
  end.

(** The list of valid types is only written on success. *)
(* @src H AuthWidgetHelper::CheckValidSolution *)
Definition EngineValidSolution (userId : Z) (authTypeList : list Z) (atl : Z) (validTypeList : list Z) :
    service (Z * list Z) :=
  '(result, validTypes) ← call (EngGetValidSolution userId authTypeList atl);
  CHECK result = SUCCESS ELSE mret (result, validTypeList) ;;
  mret (result, validTypes).

(* @src H AuthWidgetHelper::SetReuseUnlockResult *)
Definition SetReuseUnlockResult (apiVersion : Z) (info : EngReuseUnlockInfo) (extraInfo : Attributes) :
    Attributes * Z :=
  let '(extraInfo, ok) := SetUint8ArrayValue extraInfo ATTR_SIGNATURE (er_token info) in
  CHECK ok = true ELSE (extraInfo, GENERAL_ERROR) ;;
  let '(extraInfo, ok) := SetInt32Value extraInfo ATTR_AUTH_TYPE (er_authType info) in
  CHECK ok = true ELSE (extraInfo, GENERAL_ERROR) ;;
  let '(extraInfo, ok) := SetInt32Value extraInfo ATTR_RESULT_CODE SUCCESS in
  CHECK ok = true ELSE (extraInfo, GENERAL_ERROR) ;;
  let credentialDigest := es_credentialDigest (er_enrolledState info) in
  let credentialDigest :=
    if decide (apiVersion < INNER_API_VERSION_10000) then Z.land credentialDigest UINT16_MAX else credentialDigest in
  let '(extraInfo, ok) := SetUint64Value extraInfo ATTR_CREDENTIAL_DIGEST credentialDigest in
  CHECK ok = true ELSE (extraInfo, GENERAL_ERROR) ;;
  let '(extraInfo, ok) :=
    SetUint16Value extraInfo ATTR_CREDENTIAL_COUNT (es_credentialCount (er_enrolledState info)) in
  CHECK ok = true ELSE (extraInfo, GENERAL_ERROR) ;;
  (extraInfo, SUCCESS).

Definition no_reuse_info : EngReuseUnlockInfo := mkReuseInfo 0 [] (mkEnrolledState 0 0).

(* @src H AuthWidgetHelper::QueryReusableAuthResult *)
Definition QueryReusableAuthResult (userId : Z) (authParam : AuthParamInner) : service (Z * EngReuseUnlockInfo) :=
  let reuse := ap_reuseUnlockResult authParam in
  WHEN isReuse reuse = false ∨ reuseDuration reuse = 0 ∨ MAX_ALLOWABLE_REUSE_DURATION < reuseDuration reuse ∨
    (reuseMode reuse ≠ AUTH_TYPE_RELEVANT ∧ reuseMode reuse ≠ AUTH_TYPE_IRRELEVANT ∧
     reuseMode reuse ≠ CALLER_IRRELEVANT_AUTH_TYPE_RELEVANT ∧ reuseMode reuse ≠ CALLER_IRRELEVANT_AUTH_TYPE_IRRELEVANT)
  RETURN mret (INVALID_PARAMETERS, no_reuse_info) ;;
  call (EngCheckReuseUnlockResult (mkReuseParam userId (ap_authTrustLevel authParam) (ap_challenge authParam)
    (ap_authTypes authParam) (reuseDuration reuse) (reuseMode reuse))).

(* @src H AuthWidgetHelper::CheckReuseUnlockResult *)
Definition CheckReuseUnlockResult (para : AuthWidgetContextPara) (authParam : AuthParamInner) (extraInfo : Attributes) :
    service (Z * Attributes) :=
  '(result, reuseResultInfo) ← QueryReusableAuthResult (wc_userId para) authParam;
  CHECK result = SUCCESS ELSE mret (result, extraInfo) ;;
  let '(extraInfo, ret) := SetReuseUnlockResult (wc_sdkVersion para) reuseResultInfo extraInfo in
  mret (ret, extraInfo).

Lemma only_GetUserAuthProfile u ty p ids : only silent (GetUserAuthProfile u ty p ids).
Proof. unfold GetUserAuthProfile, GetAuthCredentialList. only_steps. Qed.
Lemma only_EngineValidSolution u tys atl v : only silent (EngineValidSolution u tys atl v).
Proof. unfold EngineValidSolution. only_steps. Qed.
Lemma only_QueryReusableAuthResult u p : only silent (QueryReusableAuthResult u p).
Proof. unfold QueryReusableAuthResult. only_steps. Qed.
#[export] Hint Resolve only_GetUserAuthProfile only_EngineValidSolution only_QueryReusableAuthResult : service.
Lemma only_CheckReuseUnlockResult para p e : only silent (CheckReuseUnlockResult para p e).
Proof. unfold CheckReuseUnlockResult. only_steps. Qed.
#[export] Hint Resolve only_CheckReuseUnlockResult : service.
