(* ===== verification/SudoContext.v ===== *)
(** * The authentication that confirms a privileged command

    Models services/context/src/sudo_auth_context.cpp: a context that asks the
    PIN executor how often the PIN may still be tried and then runs a child
    context, silently with the PIN that came with the command, or in a dialog
    when one attempt is left. The functions that hold [sudoMutex_] are one step
    each; [OnStart] asks the executor without it and is split there
    ([OnStart_query], [OnStart_answer]). When the context is preempted is in
    ContextPool.v. *)

From S2P Require Import Prelude Defines Interaction ServiceTypes AttributesImpl Attributes Platform IpcCommon.
From S2P Require Import UserIdmDatabase NodeCommands EngineTalk Contexts ContextsThm ContextLife ContextFactory.
From S2P Require Import AuthWidgetHelper.

(* @file S = src/services/context/src/sudo_auth_context.cpp *)
(* @file SH = src/services/context/inc/sudo_auth_context.h *)

Module Sudo.

(* @src SH:struct SudoPhase *)
Inductive SudoPhase := PHASE_QUERY | PHASE_RUN | PHASE_END.
#[export] Instance SudoPhase_eq_dec : EqDecision SudoPhase.
Proof. solve_decision. Defined.

(* @src SH:73-79 SudoAuthContext *)
Record t := mk {
  para_ : SudoAuthContextPara;
  dialogActive_ : bool;
  phase_ : SudoPhase;
  childContextId_ : option Z;
  childIsWidget_ : bool;
  stopping_ : bool;
}.
Implicit Types c : ctx t.

(* @src S SudoAuthContext::SudoAuthContext *)
Definition new (para : SudoAuthContextPara) : t := mk para false PHASE_QUERY None false false.

(* @src S SudoAuthContext::GetTokenId *)
Definition GetTokenId c : Z := su_tokenId (para_ (members c)).
(* @src S SudoAuthContext::GetUserId *)
Definition GetUserId c : Z := su_userId (para_ (members c)).
(* @src S SudoAuthContext::GetCallerName *)
Definition GetCallerName c : bytes := su_callerName (para_ (members c)).
(* @src S SudoAuthContext::GetAuthTypeList *)
Definition GetAuthTypeList : list Z := [PIN].

Section Updates.
Context (c : ctx t) (x := members c).
Definition ended : ctx t := set_members c (mk (para_ x) false PHASE_END None (childIsWidget_ x) (stopping_ x)).
Definition launched (child : Z) : ctx t :=
  set_members c (mk (para_ x) (dialogActive_ x) PHASE_RUN (Some child) (childIsWidget_ x) (stopping_ x)).
Definition set_widget (v : bool) : ctx t :=
  set_members c (mk (para_ x) (dialogActive_ x) (phase_ x) (childContextId_ x) v (stopping_ x)).
Definition set_dialog : ctx t :=
  set_members c (mk (para_ x) true (phase_ x) (childContextId_ x) (childIsWidget_ x) (stopping_ x)).
Definition set_stopping : ctx t :=
  set_members c (mk (para_ x) (dialogActive_ x) (phase_ x) (childContextId_ x) (childIsWidget_ x) true).
End Updates.

(* @src S SudoAuthContext::EndWithResult *)
Definition EndWithResult c (resultCode : Z) (finalResult : Attributes) : service (ctx t) :=
  WHEN phase_ (members c) = PHASE_END RETURN mret c ;;
  let c := ended c in
  tell_caller resultCode finalResult;;
  mret c.

Definition locked_result (profile : AuthProfile) : Attributes :=
  let nextPhase := if decide (0 < nextPhaseFreezingTime profile) then nextPhaseFreezingTime profile
    else FIRST_LOCKOUT_DURATION_OF_PIN in
  let lockedResult := (SetInt32Value Attributes_new ATTR_RESULT_CODE LOCKED).1 in
  let lockedResult := (SetInt32Value lockedResult ATTR_REMAIN_TIMES 0).1 in
  let lockedResult := (SetInt32Value lockedResult ATTR_FREEZING_TIME (freezingTime profile)).1 in
  (SetInt32Value lockedResult ATTR_NEXT_FAIL_LOCKOUT_DURATION nextPhase).1.

(* @src S SudoAuthContext::EndWithLocked *)
Definition EndWithLocked c (profile : AuthProfile) : service (ctx t) :=
  EndWithResult c LOCKED (locked_result profile).

(** Whether there is one. *)
(* @src S SudoAuthContext::BuildChildCallback *)
Definition BuildChildCallback : service bool :=
  iamCallback ← call (MakeShared "SudoChildCallbackImpl");
  CHECK iamCallback = true ELSE mret false ;;
  call (MakeShared "ContextCallbackImpl").

(* @src S SudoAuthContext::LaunchChild *)
Definition LaunchChild c (child : Context) : service (ctx t * bool) :=
  let c := launched c child.1 in
  ok ← call (PoolSchedule child.1 child.2);
  mret (c, ok).

Definition silent_para (p : SudoAuthContextPara) : AuthenticationPara :=
  mkAuthPara (su_userId p) PIN (su_atl p) (su_tokenId p) 0 (su_challenge p) true (su_callerName p) (su_sdkVersion p)
    (su_callerType p) DEFAULT (su_isOsAccountVerified p) false [] [] AUTH_SCENE_DEFAULT 0.

(* @src S SudoAuthContext::StartSilentChild *)
Definition StartSilentChild c (profile : AuthProfile) : service (ctx t * bool) :=
  childCallback ← BuildChildCallback;
  CHECK childCallback = true ELSE mret (c, false) ;;
  child ← CreateSimpleAuthContext (silent_para (para_ (members c))) false false true;
  match child with
  | None => mret (c, false)
  | Some child =>
    call (SetCleaner child.1);;
    LaunchChild c child
  end.

Definition dialog_para (p : SudoAuthContextPara) (profile : AuthProfile) : AuthWidgetContextPara :=
  mkWidgetPara (su_userId p) (su_sdkVersion p) (su_tokenId p) (su_callerName p) (su_challenge p) [PIN] (su_atl p)
    (mkWidgetParam (su_additionalInfo p) [] DIALOG_BOX false) {[PIN := profile]} (su_callerType p) [] [] false
    (su_isOsAccountVerified p) (negb (su_needSubscribeAppState p)) false [] [] 0.

(* @src S SudoAuthContext::StartWidgetChild *)
Definition StartWidgetChild c (profile : AuthProfile) : service (ctx t * bool) :=
  childCallback ← BuildChildCallback;
  CHECK childCallback = true ELSE mret (c, false) ;;
  child ← CreateWidgetContext (dialog_para (para_ (members c)) profile) false true false false;
  match child with
  | None => mret (c, false)
  | Some child =>
    let c := set_dialog c in
    call NotifyPreemptStateChanged;;
    LaunchChild c child
  end.

(* @src S SudoAuthContext::DispatchByProfile *)
Definition DispatchByProfile c (profile : AuthProfile) : service (ctx t) :=
  WHEN phase_ (members c) ≠ PHASE_QUERY RETURN mret c ;;
  WHEN 0 < freezingTime profile RETURN EndWithLocked c profile ;;
  if decide (remainTimes profile = 1) then
    let c := set_widget c true in
    '(c, ok) ← StartWidgetChild c profile;
    CHECK ok = true ELSE EndWithResult (set_widget c false) GENERAL_ERROR Attributes_new ;;
    mret c
  else
    '(c, ok) ← StartSilentChild c profile;
    CHECK ok = true ELSE EndWithResult c GENERAL_ERROR Attributes_new ;;
    mret c.

(** [OnStart] until the executor has answered, and after. *)
(* @src S:152-153 SudoAuthContext::OnStart *)
Definition OnStart_query c : service (Z * AuthProfile) :=
  GetUserAuthProfile (su_userId (para_ (members c))) PIN AuthProfile_new [].
(* @src S:154-168 SudoAuthContext::OnStart *)
Definition OnStart_answer c (ret : Z) (profile : AuthProfile) : service (ctx t) :=
  WHEN ret = NOT_ENROLLED RETURN EndWithResult c NOT_ENROLLED Attributes_new ;;
  WHEN ret ≠ SUCCESS RETURN EndWithResult c GENERAL_ERROR Attributes_new ;;
  DispatchByProfile c profile.
(* @src S SudoAuthContext::OnStart *)
Definition OnStart c : service (ctx t * bool) :=
  '(ret, profile) ← OnStart_query c;
  c ← OnStart_answer c ret profile;
  mret (c, true).

(* @src S SudoAuthContext::OnChildResult *)
Definition OnChildResult c (resultCode : Z) (finalResult : Attributes) : service (ctx t) :=
  WHEN phase_ (members c) ≠ PHASE_RUN RETURN mret c ;;
  WHEN stopping_ (members c) = true ∨ resultCode = CANCELED RETURN EndWithResult c CANCELED finalResult ;;
  WHEN resultCode = SUCCESS ∨ childIsWidget_ (members c) = false RETURN EndWithResult c resultCode finalResult ;;
  '(ret, profile) ← GetUserAuthProfile (su_userId (para_ (members c))) PIN AuthProfile_new [];
  WHEN ret = SUCCESS ∧ 0 < freezingTime profile RETURN EndWithLocked c profile ;;
  EndWithResult c resultCode finalResult.

(** The child's result arrives serialized. *)
(* @src S:43-50 SudoChildCallbackImpl::OnResult *)
Definition child_OnResult c (resultCode : Z) (extraInfo : bytes) : service (ctx t) :=
  OnChildResult c resultCode (Attributes_of_raw extraInfo).

(* @src S SudoAuthContext::OnStop *)
Definition OnStop c : service (ctx t * bool) :=
  WHEN phase_ (members c) = PHASE_END RETURN mret (c, true) ;;
  match phase_ (members c), childContextId_ (members c) with
  | PHASE_RUN, Some childId =>
    let c := set_stopping c in
    call (PoolCancel childId);;
    mret (c, true)
  | _, _ =>
    c ← EndWithResult c CANCELED Attributes_new;
    mret (c, true)
  end.

(** It has no schedule of its own. *)
(* @src S SudoAuthContext::OnResult *)
Definition OnResult c (resultCode : Z) (scheduleResultAttr : option Attributes) : service (ctx t) := mret c.

End Sudo.

#[export] Instance sudo_kind : ContextKind Sudo.t := {|
  OnStart := Sudo.OnStart;
  OnResult := Sudo.OnResult;
  OnStop := Sudo.OnStop;
|}.

(** ** What the caller is told *)

(** The codes that the caller is told, in order. *)
Definition told (t : trace) : list Z :=
  omap (λ e, match asked e with Platform.OnResult true code _ => Some code | _ => None end) t.

Lemma told_app t u : told (t ++ u) = told t ++ told u.
Proof. unfold told. by rewrite omap_app. Qed.

Lemma silent_told u : Forall (λ e, silent (asked e) = true) u → told u = [] ∧ scheduled u = 0%nat.
Proof.
  induction 1 as [|e u He _ [IH1 IH2]]; [done|]. unfold told, scheduled, tally in *. rewrite filter_cons.
  destruct e as [[] r]; try discriminate He; simpl in *; auto.
Qed.

(** [speaks m P]: [m] tells the codes and gives the pool the number of contexts
    that [P] says. *)
Definition speaks {A} (m : service A) (P : A → list Z → nat → Prop) : Prop :=
  leaves m (λ a u, P a (told u) (scheduled u)).

Lemma speaks_ret {A} (a : A) (P : A → list Z → nat → Prop) : P a [] 0%nat → speaks (mret a) P.
Proof. apply (leaves_ret a (λ a u, P a (told u) (scheduled u))). Qed.
Lemma speaks_silent {A} (m : service A) (P : A → list Z → nat → Prop) :
  only silent m → (∀ a, P a [] 0%nat) → speaks m P.
Proof. intros Hm HP. eapply leaves_only; [exact Hm|]. intros a u [-> ->]%silent_told. auto. Qed.
Lemma speaks_mono {A} (m : service A) (P P' : A → list Z → nat → Prop) :
  speaks m P → (∀ a l n, P a l n → P' a l n) → speaks m P'.
Proof. intros Hm H. eapply leaves_mono; [exact Hm|]. simpl. auto. Qed.
Lemma speaks_bind {A B} (m : service A) (k : A → service B) (P : A → list Z → nat → Prop) P' :
  speaks m P → (∀ a l n, P a l n → speaks (k a) (λ b l' n', P' b (l ++ l') (n + n')%nat)) → speaks (m ≫= k) P'.
Proof.
  intros Hm Hk. eapply leaves_bind; [exact Hm|]. simpl. intros a u Ha. eapply leaves_mono; [by apply Hk|].
  simpl. intros b v. by rewrite told_app, scheduled_app.
Qed.
Lemma speaks_silent_bind {A B} (m : service A) (k : A → service B) P :
  only silent m → (∀ a, speaks (k a) P) → speaks (m ≫= k) P.
Proof.
  intros Hm Hk. eapply (speaks_bind _ _ (λ _ l n, l = [] ∧ n = 0%nat)); [by apply speaks_silent|].
  intros a l n [-> ->]. apply Hk.
Qed.
Lemma speaks_tell code attr : speaks (tell_caller code attr) (λ _ l n, l = [code] ∧ n = 0%nat).
Proof. by apply (@leaves_call _ answer (Platform.OnResult true code attr)). Qed.
Lemma speaks_schedule id context :
  speaks (call (PoolSchedule id context)) (λ b l n, l = [] ∧ n = if (b : bool) then 1 else 0)%nat.
Proof. apply (@leaves_call _ answer (PoolSchedule id context)). intros r. split; [done|]. by destruct r. Qed.

Ltac speak_step :=
  cbv zeta;
  lazymatch goal with
  | |- speaks (mret _) _ => apply speaks_ret
  | |- speaks (_ ≫= _) _ => apply speaks_silent_bind; [solve [eauto with service|only_steps]|intros ?]
  | |- speaks (match ?x with _ => _ end) _ => branch_on x
  end.

Section Functions.
Implicit Types c : ctx Sudo.t.
Import Sudo.

Abbreviation phase c := (phase_ (members c)).

Lemma only_BuildChildCallback : only silent BuildChildCallback.
Proof. unfold BuildChildCallback. only_steps. Qed.
#[local] Hint Resolve only_BuildChildCallback : service.

Lemma speaks_End c code attr : speaks (EndWithResult c code attr) (λ c' l n, n = 0%nat ∧
  if decide (phase c = PHASE_END) then l = [] ∧ c' = c else l = [code] ∧ c' = ended c).
Proof.
  unfold EndWithResult. case_decide; [by apply speaks_ret|]. eapply speaks_bind; [apply speaks_tell|].
  intros _ l n [-> ->]. by apply speaks_ret.
Qed.

(** A child was launched, or not. *)
Definition launch_post c (c' : ctx t) (ok : bool) (l : list Z) (n : nat) : Prop :=
  l = [] ∧ life c' = life c ∧ stopping_ (members c') = stopping_ (members c) ∧
  childIsWidget_ (members c') = childIsWidget_ (members c) ∧ phase c' ≠ PHASE_END ∧
  if ok then n = 1%nat ∧ phase c' = PHASE_RUN ∧ is_Some (childContextId_ (members c')) else n = 0%nat.

Lemma speaks_Launch c child : speaks (LaunchChild c child) (λ '(c', ok) l n, launch_post c c' ok l n).
Proof.
  unfold LaunchChild. eapply speaks_bind; [apply speaks_schedule|]. intros ok l n [-> ->]. apply speaks_ret.
  unfold launch_post. destruct ok; simpl; repeat split; eauto.
Qed.

Lemma speaks_Silent c profile : phase c = PHASE_QUERY →
  speaks (StartSilentChild c profile) (λ '(c', ok) l n, launch_post c c' ok l n).
Proof.
  intros Hp. unfold StartSilentChild. repeat speak_step; try (repeat split; by rewrite ?Hp). apply speaks_Launch.
Qed.

Lemma speaks_Dialog c profile : phase c = PHASE_QUERY →
  speaks (StartWidgetChild c profile) (λ '(c', ok) l n, launch_post c c' ok l n).
Proof.
  intros Hp. unfold StartWidgetChild. repeat speak_step; try (repeat split; by rewrite ?Hp).
  eapply speaks_mono; [apply speaks_Launch|]. intros [c' ok] l' n'. unfold launch_post. simpl. done.
Qed.

Definition failures : list Z := [NOT_ENROLLED; GENERAL_ERROR; LOCKED].

(** How the context goes on from a query: it ends with a code or its child runs. *)
Definition query_post c (c' : ctx t) (l : list Z) (n : nat) : Prop :=
  life c' = life c ∧ stopping_ (members c') = stopping_ (members c) ∧
  ((n = 0%nat ∧ phase c' = PHASE_END ∧ ∃ x, l = [x] ∧ x ∈ failures) ∨
   (n = 1%nat ∧ phase c' = PHASE_RUN ∧ is_Some (childContextId_ (members c')) ∧ l = [])).

Lemma speaks_End_query c0 c code attr : life c = life c0 → stopping_ (members c) = stopping_ (members c0) →
  phase c ≠ PHASE_END → code ∈ failures →
  speaks (EndWithResult c code attr) (λ c' l n, query_post c0 c' l n).
Proof.
  intros H1 H2 Hp Hc. eapply speaks_mono; [apply speaks_End|]. intros c' l n [-> P]. rewrite decide_False in P by done.
  destruct P as [-> ->]. split; [done|]. split; [done|]. left. eauto.
Qed.

(** A start of a child that ends the context when it fails. *)
Lemma speaks_launched c c1 (m : service (ctx t * bool)) (f : ctx t → ctx t) :
  speaks m (λ '(c', ok) l n, launch_post c1 c' ok l n) → life c1 = life c →
  stopping_ (members c1) = stopping_ (members c) →
  (∀ x, life (f x) = life x ∧ stopping_ (members (f x)) = stopping_ (members x) ∧ phase (f x) = phase x) →
  speaks ('(c', ok) ← m;
          CHECK ok = true ELSE EndWithResult (f c') GENERAL_ERROR Attributes_new ;;
          mret c') (query_post c).
Proof.
  intros Hm H1 H2 Hf. eapply speaks_bind; [exact Hm|]. intros [c' []] l n (-> & Hl & Hs & Hw & He & P); cbv zeta.
  - rewrite decide_True by done. destruct P as (-> & Hr & Hi). apply speaks_ret.
    split; [congruence|]. split; [congruence|]. right. auto.
  - rewrite decide_False by done. subst n. destruct (Hf c') as (F1 & F2 & F3).
    apply speaks_End_query; [congruence|congruence|congruence|]. apply list_elem_of_In. simpl. auto.
Qed.

Lemma speaks_Dispatch c profile : phase c = PHASE_QUERY → speaks (DispatchByProfile c profile) (query_post c).
Proof.
  intros Hp. unfold DispatchByProfile. rewrite decide_False by (by intros []). case_decide.
  { apply speaks_End_query; [done|done|by rewrite Hp|]. apply list_elem_of_In. simpl. auto. }
  case_decide.
  - apply (speaks_launched c (set_widget c true) _ (λ x, set_widget x false)); [by apply speaks_Dialog|done..].
  - apply (speaks_launched c c _ id); [by apply speaks_Silent|done..].
Qed.

Lemma speaks_answer c ret profile : phase c = PHASE_QUERY → speaks (OnStart_answer c ret profile) (query_post c).
Proof.
  intros Hp. unfold OnStart_answer. case_decide; [|case_decide; [|by apply speaks_Dispatch]].
  all: apply speaks_End_query; [done|done|by rewrite Hp|]; apply list_elem_of_In; simpl; auto.
Qed.

Lemma speaks_answer_late c ret profile : phase c = PHASE_END →
  speaks (OnStart_answer c ret profile) (λ c' l n, c' = c ∧ l = [] ∧ n = 0%nat).
Proof.
  intros Hp. unfold OnStart_answer, DispatchByProfile, EndWithResult. rewrite Hp.
  repeat case_decide; try done; by apply speaks_ret.
Qed.

(** The context ends with one of the codes [Q]. *)
Definition end_post c (Q : Z → Prop) (c' : ctx t) (l : list Z) (n : nat) : Prop :=
  n = 0%nat ∧ life c' = life c ∧ phase c' = PHASE_END ∧ ∃ x, l = [x] ∧ Q x.

Lemma speaks_End_with c code attr (Q : Z → Prop) : phase c ≠ PHASE_END → Q code →
  speaks (EndWithResult c code attr) (end_post c Q).
Proof.
  intros Hp HQ. eapply speaks_mono; [apply speaks_End|]. intros c' l n [-> P]. rewrite decide_False in P by done.
  destruct P as [-> ->]. repeat split; eauto.
Qed.

Lemma speaks_child c code raw : phase c = PHASE_RUN → speaks (child_OnResult c code raw) (end_post c (λ x,
  if stopping_ (members c) then x = CANCELED else x = code ∨ (x = LOCKED ∧ code ≠ SUCCESS ∧ code ≠ CANCELED))).
Proof.
  intros Hp. assert (phase c ≠ PHASE_END) as He by by rewrite Hp.
  unfold child_OnResult, OnChildResult. rewrite decide_False by auto.
  case_decide as H1; [|case_decide as H2].
  - apply speaks_End_with; [done|]. destruct (stopping_ (members c)); naive_solver.
  - apply speaks_End_with; [done|]. destruct (stopping_ (members c)); naive_solver.
  - apply speaks_silent_bind; [eauto with service|]. intros [ret profile].
    apply Decidable.not_or in H1 as [H1 H3]. apply Decidable.not_or in H2 as [H2 _].
    apply not_true_is_false in H1. rewrite H1. by case_decide; apply speaks_End_with; auto.
Qed.

Lemma speaks_child_late c code raw : phase c = PHASE_END →
  speaks (child_OnResult c code raw) (λ c' l n, c' = c ∧ l = [] ∧ n = 0%nat).
Proof.
  intros Hp. unfold child_OnResult, OnChildResult. rewrite Hp, decide_True by done. by apply speaks_ret.
Qed.

(** A stop: nothing any more, the child's turn, or the end. *)
Lemma speaks_OnStop c : speaks (OnStop c) (λ '(c', _) l n,
  match phase c with
  | PHASE_END => c' = c ∧ l = [] ∧ n = 0%nat
  | PHASE_RUN => is_Some (childContextId_ (members c)) → c' = set_stopping c ∧ l = [] ∧ n = 0%nat
  | PHASE_QUERY => end_post c (eq CANCELED) c' l n
  end).
Proof.
  unfold OnStop. case_decide as H0; [rewrite H0; by apply speaks_ret|].
  destruct (phase c) eqn:Hp; [| |done].
  - eapply speaks_bind; [apply (speaks_End_with c CANCELED _ (eq CANCELED)); [by rewrite Hp|done]|].
    intros c' l n H. apply speaks_ret. by rewrite app_nil_r, Nat.add_0_r.
  - destruct (childContextId_ (members c)).
    + apply speaks_silent_bind; [only_steps|]. intros _. by apply speaks_ret.
    + eapply speaks_bind; [apply speaks_End|]. intros c' l n _. apply speaks_ret. intros []. done.
Qed.

Lemma speaks_OnStartFailed c code : speaks (OnStartFailed c code) (λ c' l n, n = 0%nat ∧
  members c' = members c ∧ life c' = (hasStarted_ c, stopRequested_ c, true) ∧
  l = if startFailDelivered_ c then [] else [code]).
Proof.
  unfold OnStartFailed. case_decide as H.
  - apply speaks_ret. rewrite H. unfold life. by rewrite H.
  - apply not_true_is_false in H. rewrite H. cbv zeta. eapply speaks_bind; [apply speaks_tell|]. intros _ l n [-> ->].
    by apply speaks_ret.
Qed.

Lemma speaks_refused c : life c = (false, true, true) →
  speaks (pool_start c) (λ c' l n, life c' = life c ∧ l = [] ∧ n = 0%nat).
Proof.
  intros [= H1 H2 H3]. unfold pool_start, Start. rewrite H1, H2. repeat case_decide; try done. cbn.
  eapply speaks_mono; [apply speaks_OnStartFailed|]. unfold life. simpl. rewrite H1, H2, H3. by intros c' l n (-> & _ & -> & ->).
Qed.
End Functions.

(** ** The life of the context

    The pool starts it once, whoever wants stops it, the executor answers the
    query some time after the start, and the child reports, in any order. *)

Inductive sudo_event := EvStop | EvChild (code : Z).

(** The context, whether the pool has started it, the executor's answer that is
    under way, and what happened before the caller was told. *)
Record sudo_state := mkSudo {
  s_ctx : ctx Sudo.t;
  s_admitted : bool;
  s_pending : option (Z * AuthProfile);
  s_log : list sudo_event;
  s_trace : trace;
}.

Definition sudo_born (id : Z) (para : SudoAuthContextPara) : sudo_state :=
  mkSudo (ctx_new id (Sudo.new para)) false None [] [].

Definition note (t : trace) (log : list sudo_event) (e : sudo_event) : list sudo_event :=
  if decide (told t = []) then log ++ [e] else log.

Section Life.
Context (o : env answer).
Implicit Types c : ctx Sudo.t.

Inductive sudo_step : sudo_state → sudo_state → Prop :=
  | sudo_refused c log t c' t' : stopRequested_ c = true → run o (pool_start c) t = (c', t') →
      sudo_step (mkSudo c false None log t) (mkSudo c' true None log t')
  | sudo_begins c log t r t' : hasStarted_ c = false → stopRequested_ c = false →
      run o (Sudo.OnStart_query (set_started c)) t = (r, t') →
      sudo_step (mkSudo c false None log t) (mkSudo (set_started c) true (Some r) log t')
  | sudo_answered c a ret profile log t c' t' : run o (Sudo.OnStart_answer c ret profile) t = (c', t') →
      sudo_step (mkSudo c a (Some (ret, profile)) log t) (mkSudo c' a None log t')
  | sudo_stopped c a q log t c' ok t' : run o (Stop c) t = ((c', ok), t') →
      sudo_step (mkSudo c a q log t) (mkSudo c' a q (note t log EvStop) t')
  | sudo_child c a q log t code raw c' t' : (0 < scheduled t)%nat →
      run o (Sudo.child_OnResult c code raw) t = (c', t') →
      sudo_step (mkSudo c a q log t) (mkSudo c' a q (note t log (EvChild code)) t').

(** What the caller may be told after these events. *)
Definition sudo_verdict (log : list sudo_event) (x : Z) : Prop :=
  match log with
  | [] => x ∈ failures
  | EvStop :: _ => x = CANCELED
  | EvChild code :: _ => x = code ∨ (x = LOCKED ∧ code ≠ SUCCESS ∧ code ≠ CANCELED)
  end.

Definition stops_only (log : list sudo_event) : Prop := Forall (eq EvStop) log.

Definition sudo_stage (s : sudo_state) : Prop :=
  let c := s_ctx s in
  let l := told (s_trace s) in
  let n := scheduled (s_trace s) in
  match hasStarted_ c, stopRequested_ c with
  | false, false => startFailDelivered_ c = false ∧ s_admitted s = false ∧ s_pending s = None ∧ s_log s = [] ∧ l = [] ∧ n = 0%nat ∧
      Sudo.phase_ (members c) = Sudo.PHASE_QUERY ∧ Sudo.stopping_ (members c) = false
  | false, true => startFailDelivered_ c = true ∧ s_pending s = None ∧ n = 0%nat ∧ l = [CANCELED] ∧ sudo_verdict (s_log s) CANCELED
  | true, true => False
  | true, false =>
    startFailDelivered_ c = false ∧ s_admitted s = true ∧
    match Sudo.phase_ (members c) with
    | Sudo.PHASE_QUERY => s_log s = [] ∧ l = [] ∧ n = 0%nat ∧ is_Some (s_pending s) ∧ Sudo.stopping_ (members c) = false
    | Sudo.PHASE_RUN => stops_only (s_log s) ∧ l = [] ∧ n = 1%nat ∧ s_pending s = None ∧
        is_Some (Sudo.childContextId_ (members c)) ∧ (Sudo.stopping_ (members c) = true ↔ s_log s ≠ [])
    | Sudo.PHASE_END => (n ≤ 1)%nat ∧ ∃ x, l = [x] ∧ sudo_verdict (s_log s) x
    end
  end.

Lemma sudo_run {A} (m : service A) (P : A → list Z → nat → Prop) t a t' : speaks m P → run o m t = (a, t') →
  ∃ l n, told t' = told t ++ l ∧ scheduled t' = (scheduled t + n)%nat ∧ P a l n.
Proof.
  intros Hm E. destruct (leaves_run o m _ t a t' Hm E) as (u & -> & Hu). rewrite told_app, scheduled_app. eauto.
Qed.

Lemma stage_unchanged c a q log t t' l n :
  sudo_stage (mkSudo c a q log t) → l = [] → n = 0%nat → told t' = told t ++ l → scheduled t' = (scheduled t + n)%nat →
  sudo_stage (mkSudo c a q log t').
Proof.
  intros H -> -> Hl Hn. rewrite app_nil_r in Hl. rewrite Nat.add_0_r in Hn. unfold sudo_stage in *.
  cbn [s_ctx s_admitted s_pending s_log s_trace] in *. by rewrite Hl, Hn.
Qed.

Lemma note_told t log e x : told t = [x] → note t log e = log.
Proof. intros H. unfold note. by rewrite H. Qed.
Lemma note_new t log e : told t = [] → note t log e = log ++ [e].
Proof. intros H. unfold note. by rewrite H, decide_True. Qed.

Ltac open_stage := unfold sudo_stage in *; cbn [s_ctx s_admitted s_pending s_log s_trace] in *.

Lemma stage_refused c log t c' t' : stopRequested_ c = true → run o (pool_start c) t = (c', t') →
  sudo_stage (mkSudo c false None log t) → sudo_stage (mkSudo c' true None log t').
Proof.
  intros Hs E H. assert (life c = (false, true, true)) as Hc.
  { open_stage. rewrite Hs in H. unfold life. rewrite Hs. destruct (hasStarted_ c); [done|]. by destruct H as [-> _]. }
  destruct (sudo_run _ _ _ _ _ (speaks_refused c Hc) E) as (l & n & Hl & Hn & Hlife & -> & ->).
  rewrite Hc in Hlife. injection Hc as C1 C2 C3. injection Hlife as L1 L2 L3.
  eapply stage_unchanged; [|done|done|exact Hl|exact Hn]. open_stage. rewrite L1, L2, L3. rewrite C1, C2, C3 in H. done.
Qed.

Lemma stage_begins c log t r t' : hasStarted_ c = false → stopRequested_ c = false →
  run o (Sudo.OnStart_query (set_started c)) t = (r, t') →
  sudo_stage (mkSudo c false None log t) → sudo_stage (mkSudo (set_started c) true (Some r) log t').
Proof.
  intros Hh Hs E H.
  assert (speaks (Sudo.OnStart_query (set_started c)) (λ _ l n, l = [] ∧ n = 0%nat)) as Hq.
  { apply speaks_silent; [|done]. unfold Sudo.OnStart_query. eauto with service. }
  destruct (sudo_run _ _ _ _ _ Hq E) as (l & n & Hl & Hn & -> & ->).
  eapply stage_unchanged; [|done|done|exact Hl|exact Hn]. open_stage. simpl. rewrite Hh, Hs in H. rewrite Hs.
  destruct H as (H1 & _ & _ & -> & H2 & H3 & -> & H4). repeat split; eauto.
Qed.

Lemma verdict_snoc log e x : log ≠ [] → sudo_verdict log x → sudo_verdict (log ++ [e]) x.
Proof. by destruct log. Qed.

Lemma stage_answered c a ret profile log t c' t' : run o (Sudo.OnStart_answer c ret profile) t = (c', t') →
  sudo_stage (mkSudo c a (Some (ret, profile)) log t) → sudo_stage (mkSudo c' a None log t').
Proof.
  intros E H. open_stage.
  destruct (hasStarted_ c) eqn:Hh, (stopRequested_ c) eqn:Hs; try (by destruct H as (? & ? & [=] & _)); try done.
  destruct H as (H1 & H2 & H). destruct (Sudo.phase_ (members c)) eqn:Hp.
  - destruct H as (-> & Hl0 & Hn0 & _ & Hst).
    destruct (sudo_run _ _ _ _ _ (speaks_answer c ret profile Hp) E) as (l & n & Hl & Hn & Hlife & Hst' & P).
    unfold life in Hlife. injection Hlife as L1 L2 L3. rewrite L1, L2, L3, Hh, Hs, H1, Hl, Hn, Hl0, Hn0.
    split; [done|]. split; [done|]. destruct P as [(-> & -> & x & -> & Hx)|(-> & -> & Hi & ->)].
    + split; [lia|]. eauto.
    + rewrite Hst', Hst. do 5 (split; [by try constructor|]). split; [done|]. by intros [].
  - by destruct H as (? & ? & ? & [=] & _).
  - destruct (sudo_run _ _ _ _ _ (speaks_answer_late c ret profile Hp) E) as (l & n & Hl & Hn & -> & -> & ->).
    rewrite Hh, Hs, Hp, Hl, Hn, app_nil_r, Nat.add_0_r. done.
Qed.

Lemma stage_child c a q log t code raw c' t' : (0 < scheduled t)%nat →
  run o (Sudo.child_OnResult c code raw) t = (c', t') →
  sudo_stage (mkSudo c a q log t) → sudo_stage (mkSudo c' a q (note t log (EvChild code)) t').
Proof.
  intros Hpos E H. open_stage.
  destruct (hasStarted_ c) eqn:Hh, (stopRequested_ c) eqn:Hs; try done; try (exfalso; intuition lia).
  destruct H as (H1 & H2 & H). destruct (Sudo.phase_ (members c)) eqn:Hp; [exfalso; intuition lia| |].
  - destruct H as (Hlog & Hl0 & Hn0 & -> & Hi & Hst). rewrite (note_new _ _ _ Hl0).
    destruct (sudo_run _ _ _ _ _ (speaks_child c code raw Hp) E) as (l & n & Hl & Hn & -> & Hlife & Hp' & x & -> & Hx).
    unfold life in Hlife. injection Hlife as L1 L2 L3. rewrite L1, L2, L3, Hp', Hh, Hs, Hl, Hn, Hl0, Hn0.
    split; [done|]. split; [done|]. split; [lia|]. exists x. split; [done|]. destruct log as [|e log].
    + destruct (Sudo.stopping_ (members c)); [by destruct (proj1 Hst eq_refl)|]. exact Hx.
    + apply verdict_snoc; [done|]. rewrite (proj2 Hst) in Hx by done. apply Forall_cons in Hlog as [<- _]. done.
  - destruct (sudo_run _ _ _ _ _ (speaks_child_late c code raw Hp) E) as (l & n & Hl & Hn & -> & -> & ->).
    destruct H as (Hn1 & x & Hx & Hv). rewrite (note_told _ _ _ _ Hx).
    rewrite Hh, Hs, Hp, Hl, Hn, app_nil_r, Nat.add_0_r. eauto 6.
Qed.

Lemma stage_stopped c a q log t c' ok t' : run o (Stop c) t = ((c', ok), t') →
  sudo_stage (mkSudo c a q log t) → sudo_stage (mkSudo c' a q (note t log EvStop) t').
Proof.
  intros E H. unfold Stop in E. destruct (hasStarted_ c) eqn:Hh.
  - rewrite decide_False in E by done. open_stage. rewrite Hh in H. destruct (stopRequested_ c) eqn:Hs; [done|].
    destruct (sudo_run _ _ _ _ _ (speaks_OnStop c) E) as (l & n & Hl & Hn & P).
    destruct H as (H1 & H2 & H). destruct (Sudo.phase_ (members c)) eqn:Hp.
    + destruct H as (-> & Hl0 & Hn0 & Hq & _). destruct P as (-> & Hlife & Hp' & x & -> & <-).
      unfold life in Hlife. injection Hlife as L1 L2 L3. rewrite (note_new _ _ _ Hl0).
      rewrite L1, L2, L3, Hp', Hh, Hs, Hl, Hn, Hl0, Hn0. split; [done|]. split; [done|]. split; [lia|]. by exists CANCELED.
    + destruct H as (Hlog & Hl0 & Hn0 & -> & Hi & Hst). destruct (P Hi) as (-> & -> & ->).
      rewrite (note_new _ _ _ Hl0), Hl, Hn, Hl0, Hn0. simpl. rewrite Hh, Hs, Hp. repeat split; try done.
      * apply Forall_app. split; [done|]. by constructor.
      * intros _. by destruct log.
    + destruct P as (-> & -> & ->). destruct H as (Hn1 & x & Hx & Hv). rewrite (note_told _ _ _ _ Hx).
      rewrite Hh, Hs, Hp, Hl, Hn, app_nil_r, Nat.add_0_r. eauto 6.
  - rewrite decide_True in E by done. open_stage. rewrite Hh in H. destruct (stopRequested_ c) eqn:Hs.
    + rewrite decide_True in E by done. injection E as <- <- <-. destruct H as (H1 & -> & H2 & H3 & H4).
      rewrite (note_told _ _ _ _ H3), Hh, Hs. repeat split; auto.
    + rewrite decide_False in E by done. destruct H as (H1 & H2 & -> & -> & H3 & H4 & H5 & H6).
      assert (speaks (c ← OnStartFailed (set_stop_requested c) CANCELED; mret (c, true)) (λ '(c', _) l n,
        n = 0%nat ∧ life c' = (false, true, true) ∧ l = [CANCELED])) as Hm.
      { eapply speaks_bind; [apply speaks_OnStartFailed|]. intros c2 l n (-> & _ & Hlife & ->). apply speaks_ret.
        rewrite Hlife. simpl. by rewrite Hh, H1. }
      destruct (sudo_run _ _ _ _ _ Hm E) as (l & n & Hl & Hn & -> & [= -> -> ->] & ->).
      rewrite (note_new _ _ _ H3), Hl, Hn, H3, H4. repeat split; done.
Qed.

Lemma step_sudo_stage s s' : sudo_step s s' → sudo_stage s → sudo_stage s'.
Proof. destruct 1; eauto using stage_refused, stage_begins, stage_answered, stage_stopped, stage_child. Qed.

Lemma reach_sudo_stage id para s : rtc sudo_step (sudo_born id para) s → sudo_stage s.
Proof.
  intros Hr. assert (sudo_stage (sudo_born id para)) as H by done. revert H. induction Hr; [done|].
  eauto using step_sudo_stage.
Qed.

Definition sudo_outcome (s : sudo_state) : Prop :=
  (told (s_trace s) = [] ∧
    ((s_admitted s = false ∧ stopRequested_ (s_ctx s) = false) ∨ is_Some (s_pending s) ∨
     (scheduled (s_trace s) = 1%nat ∧ stops_only (s_log s)))) ∨
  (∃ x, told (s_trace s) = [x] ∧ sudo_verdict (s_log s) x ∧
    (x = SUCCESS → ∃ log, s_log s = EvChild SUCCESS :: log)).

(** C12: the caller of a sudo authentication is told one code at most, and the
    first thing that happened decides it: a stop gives CANCELED, the child's
    result its code, or LOCKED if the PIN is locked after a failure, and a
    failure of the query or the child's start one of three codes. So SUCCESS is
    told only when the child succeeded before anybody asked to stop. While the
    caller waits, the context is queued, the query is under way, or the child
    has been given to the pool and has not reported. *)
Theorem sudo_answer id para s : rtc sudo_step (sudo_born id para) s → sudo_outcome s.
Proof.
  intros H%reach_sudo_stage. unfold sudo_stage, sudo_outcome in *. destruct s as [c a q log t]. cbn [s_ctx s_admitted s_pending s_log s_trace] in *.
  assert (∀ x, sudo_verdict log x → x = SUCCESS → ∃ log', log = EvChild SUCCESS :: log') as Hv.
  { intros x Hx ->. destruct log as [|[|code] log]; simpl in Hx; [|done|destruct Hx as [<-|([=] & _)]; eauto].
    unfold failures in Hx. rewrite !elem_of_cons, elem_of_nil in Hx. intuition discriminate. }
  destruct (hasStarted_ c), (stopRequested_ c); [done| |right|left].
  - destruct H as (_ & _ & H). destruct (Sudo.phase_ (members c)); [left|left|right].
    + intuition.
    + destruct H as (? & ? & ? & _). auto.
    + destruct H as (_ & x & ? & ?). eauto.
  - destruct H as (_ & _ & _ & H1 & H2). eauto.
  - intuition.
Qed.
End Life.

(** The executor of the witness says how often the PIN may be tried. *)
Definition demo_sudo : SudoAuthContextPara :=
  mkSudoPara 100 1 10000 TOKEN_NATIVE (str "app") [] 10000 [] false true.
Definition pin_credential : EngCredentialInfo := mkEngCredential 1 0 1 1 0 3 5 false 0.
Definition pin_profile (remain freezing : Z) : Attributes :=
  (set_all Attributes_new [
    (λ a, SetInt32Value a ATTR_PIN_SUB_TYPE 10000);
    (λ a, SetInt32Value a ATTR_REMAIN_TIMES remain);
    (λ a, SetInt32Value a ATTR_FREEZING_TIME freezing)]).1.
Definition pin_world (remain freezing : Z) : env answer := λ t q,
  match q return answer q with
  | EngGetCredential _ _ => (SUCCESS, [pin_credential])
  | NodeGetProperty _ _ => (SUCCESS, pin_profile remain freezing)
  | q => world true t q
  end.

Lemma sudo_answer_witness : ∃ s, rtc (sudo_step (pin_world 5 0)) (sudo_born 7 demo_sudo) s ∧
  told (s_trace s) = [SUCCESS] ∧ s_log s = [EvChild SUCCESS] ∧ sudo_outcome s.
Proof.
  eassert (rtc (sudo_step (pin_world 5 0)) (sudo_born 7 demo_sudo) _) as Hr.
  { eapply rtc_l; [eapply sudo_begins; [done|done|vm_compute; reflexivity]|].
    eapply rtc_l; [eapply sudo_answered; vm_compute; reflexivity|].
    eapply rtc_l; [eapply (sudo_child _ _ _ _ _ _ SUCCESS []); [vm_compute; lia|vm_compute; reflexivity]|].
    eapply rtc_l; [eapply sudo_stopped; vm_compute; reflexivity|].
    apply rtc_refl. }
  eexists. split; [exact Hr|]. split; [by vm_compute|]. split; [by vm_compute|]. exact (sudo_answer _ _ _ _ Hr).
Defined.
