(* ===== verification/ExecutorSide.v ===== *)
(** * The executor framework: what it calls

    The other side of the executor interface (src/frameworks/native/executors)
    runs in the processes of the executors. It forwards what the services ask
    to a driver ([IAuthExecutorHdi], which every vendor implements) and the
    driver's answers to the services. One constructor per call; a driver call
    returns a result code. Traces are left out. *)

From S2P Require Import Prelude Defines Interaction ServiceTypes Attributes.

(* @file FT = src/interfaces/inner_api/iam_executor/iam_executor_framework_types.h *)
(* @file HD = src/interfaces/inner_api/iam_executor/iam_executor_iauth_executor_hdi.h *)
(* @file H = src/frameworks/native/executors/src/iauth_executor_hdi.cpp *)
(* @file IM = src/common/utils/iam_mem.h *)

(* @src FT:const USERAUTH_SUCCESS *)
Definition USERAUTH_SUCCESS : Z := 0.
(* @src FT:const USERAUTH_ERROR *)
Definition USERAUTH_ERROR : Z := 1.

(* @src FT:struct EnrollParam *)
Record EnrollParam := mkEnrollParam {
  ep_tokenId : Z;
  ep_extraInfo : bytes;
  ep_userId : Z;
  ep_additionalInfo : bytes;
}.
(* @src FT:struct AuthenticateParam *)
Record AuthenticateParam := mkAuthenticateParam {
  ht_tokenId : Z;
  ht_templateIdList : list Z;
  ht_extraInfo : bytes;
  ht_endAfterFirstFail : bool;
  ht_authIntent : Z;
  ht_userId : Z;
  ht_authScene : Z;
  ht_title : bytes;
}.
(* @src FT:struct CollectParam *)
Record CollectParam := mkCollectParam {
  co_tokenId : Z;
  co_collectorTokenId : Z;
  co_extraInfo : bytes;
}.
(* @src FT:struct IdentifyParam *)
Record IdentifyParam := mkIdentifyParam {
  ip_tokenId : Z;
  ip_extraInfo : bytes;
}.
(* @src FT:struct DeleteParam *)
Record AbandonParam := mkAbandonParam {
  ab_tokenId : Z;
  ab_userId : Z;
  ab_templateId : Z;
  ab_extraInfo : bytes;
}.
(* @src FT:struct Property *)
Record Property := mkProperty {
  pr_authSubType : Z;
  pr_lockoutDuration : Z;
  pr_remainAttempts : Z;
  pr_enrollmentProgress : bytes;
  pr_sensorInfo : bytes;
  pr_nextFailLockoutDuration : Z;
  pr_credentialLength : Z;
  pr_cameraStatus : Z;
}.

(** A driver's executor is named by [hdi]. *)
(* @src HD:56-186 IAuthExecutorHdi *)
Inductive fw :=
  | Alloc (what : string)
  | HdiGetExecutorInfo (hdi : Z)
  | HdiOnRegisterFinish (templateIdList : list Z) (publicKey extraInfo : bytes)
  | HdiCancel (scheduleId : Z)
  | HdiSendMessage (scheduleId srcRole : Z) (msg : bytes)
  | HdiEnroll (scheduleId : Z) (param : EnrollParam)
  | HdiAuthenticate (scheduleId : Z) (param : AuthenticateParam)
  | HdiCollect (scheduleId : Z) (param : CollectParam)
  | HdiIdentify (scheduleId : Z) (param : IdentifyParam)
  | HdiDelete (templateIdList : list Z)
  | HdiSendCommand (commandId : Z) (extraInfo : bytes)
  | HdiGetProperty (templateIdList keys : list Z)
  | HdiSetCachedTemplates (templateIdList : list Z)
  | HdiNotifyCollectorReady (scheduleId : Z)
  | HdiAbandon (scheduleId : Z) (param : AbandonParam)
  (* the services, through the messenger and the client of CoAuth *)
  | SendData (scheduleId dstRole : Z) (msg : bytes)
  | Finish (scheduleId resultCode : Z) (finalResult : Attributes)
  | MgrRegister (info : ExecutorInfo)
  | MgrUnregister (executorIndex : Z)
  (* the driver behind a [Driver], the framework's system parameter, timers *)
  | DriverGetExecutorList
  | DriverOnHdiDisconnect
  | DriverOnFrameworkDown
  | FwkReadyParam
  | RegisterRetryTimer (milliseconds : Z)
  | UnregisterRetryTimer (timerId : Z)
  | GetServiceManager
  | GetHdiService (name : bytes).

(** [HdiGetProperty] and [HdiGetExecutorInfo] have an out parameter; an empty
    pointer in the list of executors is [None]. *)
Definition fw_answer (q : fw) : Type :=
  match q with
  | Alloc _ | FwkReadyParam | GetServiceManager | GetHdiService _ => bool
  | HdiGetExecutorInfo _ => Z * ExecutorInfo
  | HdiGetProperty _ _ => Z * Property
  | DriverGetExecutorList => list (option Z)
  | MgrUnregister _ | DriverOnHdiDisconnect | DriverOnFrameworkDown | UnregisterRetryTimer _ => unit
  | _ => Z
  end.

Abbreviation fwk := (prog fw_answer).
Abbreviation fw_trace := (list (event fw_answer)).

(** What a driver answers that does not implement a function. *)
(* @src H IAuthExecutorHdi::Enroll *)
Definition not_implemented : Z := GENERAL_ERROR.

(* @src IM CombineUint16ToUint32 *)
Definition CombineUint16ToUint32 (upper lower : Z) : Z := Z.lor (Z.shiftl upper 16) lower.

(** Two 16-bit halves are kept apart. *)
Lemma combine_inj a b a' b' : in_u 16 a → in_u 16 b → in_u 16 a' → in_u 16 b' →
  CombineUint16ToUint32 a b = CombineUint16ToUint32 a' b' → a = a' ∧ b = b'.
Proof.
  unfold in_u, CombineUint16ToUint32. intros Ha Hb Ha' Hb'.
  assert (∀ x y, 0 ≤ y < 2 ^ 16 → Z.lor (Z.shiftl x 16) y = x * 2 ^ 16 + y) as E.
  { intros x y Hy. rewrite Z.shiftl_mul_pow2 by lia. rewrite <- Z.add_lor_land.
    assert (Z.land (x * 2 ^ 16) y = 0) as ->; [|lia]. apply Z.bits_inj'. intros n Hn.
    rewrite Z.land_spec, Z.bits_0. destruct (Z.lt_ge_cases n 16).
    - by rewrite Z.mul_pow2_bits_low by lia.
    - destruct (Z.eq_dec y 0) as [->|]; [by rewrite Z.bits_0, andb_false_r|].
      rewrite (Z.bits_above_log2 y n), andb_false_r; [done|lia|].
      apply Z.lt_le_trans with 16; [|done]. apply Z.log2_lt_pow2; lia. }
  rewrite !E by done. lia.
Qed.

(** A world for the examples: a driver that agrees to everything. *)
Definition fw_world : env fw_answer := λ _ q,
  match q return fw_answer q with
  | Alloc _ | FwkReadyParam | GetServiceManager | GetHdiService _ => true
  | HdiGetExecutorInfo _ => (SUCCESS, mkExecutorInfo PIN ALL_IN_ONE 1 0 ESL0 0 [] [] [])
  | HdiGetProperty _ _ => (SUCCESS, mkProperty 0 0 0 [] [] 0 0 0)
  | DriverGetExecutorList => [Some 1]
  | MgrUnregister _ | DriverOnHdiDisconnect | DriverOnFrameworkDown | UnregisterRetryTimer _ => tt
  | MgrRegister _ => 5
  | _ => SUCCESS
  end.
