(* ===== verification/AsyncCommand.v ===== *)
(** * Commands of the executor framework

    Models src/frameworks/native/executors: executor.cpp, the commands
    (async_command/*.cpp) and framework_executor_callback.cpp, through which the
    services reach an executor.

    A [Host] is one executor with its callback and its commands; a command is
    named by the address of its object. The executor is [None] once the driver
    has released it. A command is started in three pieces, between which other
    threads run: [start_add], [start_get] (the pointer to the driver's executor
    is read) and [start_send]. Names in logs, traces and locks are left out. *)

From S2P Require Import Prelude Defines Interaction ServiceTypes Attributes ExecutorSide.

(* @file X = src/frameworks/native/executors/src/executor.cpp *)
(* @file XH = src/frameworks/native/executors/include/executor.h *)
(* @file A = src/frameworks/native/executors/src/async_command/async_command_base.cpp *)
(* @file AH = src/frameworks/native/executors/include/async_command/async_command_base.h *)
(* @file EN = src/frameworks/native/executors/src/async_command/enroll_command.cpp *)
(* @file AU = src/frameworks/native/executors/src/async_command/auth_command.cpp *)
(* @file CO = src/frameworks/native/executors/src/async_command/collect_command.cpp *)
(* @file ID = src/frameworks/native/executors/src/async_command/identify_command.cpp *)
(* @file AB = src/frameworks/native/executors/src/async_command/abandon_command.cpp *)
(* @file CU = src/frameworks/native/executors/src/async_command/custom_command.cpp *)

(** ** State *)

(* @src XH:57-65 Executor *)
Record Executor := mkExecutor {
  executorCallback_ : bool;
  command2Respond_ : gset Z;
  executorHdi_ : bool;
  hdiId_ : Z;
  hdi_ : Z;
  authType_ : Z;
  executorRole_ : Z;
  executorIndex_ : option Z;
}.

Inductive CommandKind := KEnroll | KAuth | KCollect | KIdentify | KAbandon | KCustom.
#[export] Instance CommandKind_eq_dec : EqDecision CommandKind.
Proof. solve_decision. Defined.

(** [attributes_] is null when it could not be allocated; [result_] is the value
    of the promise of a custom command. *)
(* @src AH:61-69 AsyncCommandBase *)
Record Command := mkCommand {
  kind : CommandKind;
  scheduleId_ : Z;
  attributes_ : option Attributes;
  executorMessenger_ : bool;
  isFinished_ : bool;
  result_ : option Z;
}.

Record Host := mkHost {
  executor_ : option Executor;
  messenger_ : bool;
  commands : gmap Z Command;
}.
Implicit Types h : Host.

Section Updates.
Context (x : Executor).
Definition set_callback : Executor :=
  mkExecutor true (command2Respond_ x) (executorHdi_ x) (hdiId_ x) (hdi_ x) (authType_ x) (executorRole_ x) (executorIndex_ x).
Definition set_commands (s : gset Z) : Executor :=
  mkExecutor (executorCallback_ x) s (executorHdi_ x) (hdiId_ x) (hdi_ x) (authType_ x) (executorRole_ x) (executorIndex_ x).
Definition clear_hdi : Executor :=
  mkExecutor (executorCallback_ x) (command2Respond_ x) false (hdiId_ x) (hdi_ x) (authType_ x) (executorRole_ x)
    (executorIndex_ x).
Definition set_index (i : option Z) : Executor :=
  mkExecutor (executorCallback_ x) (command2Respond_ x) (executorHdi_ x) (hdiId_ x) (hdi_ x) (authType_ x)
    (executorRole_ x) i.
End Updates.
Definition set_executor h (x : option Executor) : Host := mkHost x (messenger_ h) (commands h).
Definition set_command h (id : Z) (c : Command) : Host := mkHost (executor_ h) (messenger_ h) (<[id := c]> (commands h)).

(** ** The executor *)

(** [GetExecutorInfo] failing leaves the type and the role unset. *)
(* @src X Executor::Executor *)
Definition Executor_new (hdi : Z) (hdiId : Z) : fwk Executor :=
  '(ret, info) ← call (HdiGetExecutorInfo hdi);
  CHECK ret = SUCCESS ELSE mret (mkExecutor false ∅ true hdiId hdi INVALID_AUTH_TYPE (-1) None) ;;
  mret (mkExecutor false ∅ true hdiId hdi (xi_authType info) (xi_executorRole info) None).

(* @src X Executor::AddCommand *)
Definition AddCommand (x : Executor) (command : Z) : Executor := set_commands x (command2Respond_ x ∪ {[command]}).
(* @src X Executor::RemoveCommand *)
Definition RemoveCommand (x : Executor) (command : Z) : Executor := set_commands x (command2Respond_ x ∖ {[command]}).
(* @src X Executor::GetExecutorHdi *)
Definition GetExecutorHdi (x : Executor) : bool := executorHdi_ x.
(* @src X Executor::GetAuthType *)
Definition GetAuthType (x : Executor) : Z := authType_ x.
(* @src X Executor::GetExecutorRole *)
Definition GetExecutorRole (x : Executor) : Z := executorRole_ x.

(* @src X Executor::UnregisterExecutorCallback *)
Definition UnregisterExecutorCallback (x : Executor) : fwk Executor :=
  match executorIndex_ x with
  | None => mret x
  | Some executorIndex =>
    call (MgrUnregister executorIndex);;
    mret (set_index x None)
  end.

Definition with_hint (info : ExecutorInfo) (hint : Z) : ExecutorInfo :=
  mkExecutorInfo (xi_authType info) (xi_executorRole info) hint (xi_executorMatcher info) (xi_esl info)
    (xi_maxTemplateAcl info) (xi_publicKey info) (xi_deviceUdid info) (xi_signedRemoteExecutorInfo info).

(* @src X Executor::RegisterExecutorCallback *)
Definition RegisterExecutorCallback (x : Executor) (executorInfo : ExecutorInfo) : fwk Executor :=
  let executorInfo :=
    with_hint executorInfo (CombineUint16ToUint32 (hdiId_ x) (wrapU 16 (xi_executorSensorHint executorInfo))) in
  ok ← (if executorCallback_ x then mret true else call (Alloc "FrameworkExecutorCallback"));
  CHECK ok = true ELSE mret x ;;
  let x := set_callback x in
  x ← UnregisterExecutorCallback x;
  executorIndex ← call (MgrRegister executorInfo);
  CHECK executorIndex ≠ INVALID_EXECUTOR_INDEX ELSE mret x ;;
  mret (set_index x (Some executorIndex)).

(* @src X Executor::Register *)
Definition Register (x : Executor) : fwk Executor :=
  CHECK GetExecutorHdi x = true ELSE mret x ;;
  '(ret, executorInfo) ← call (HdiGetExecutorInfo (hdi_ x));
  CHECK ret = SUCCESS ELSE mret x ;;
  RegisterExecutorCallback x executorInfo.

(** ** Sending a command to the driver

    The result is the code and whether the command answers itself with it. *)

(* @src EN EnrollCommand::SendRequest *)
Definition send_enroll (scheduleId : Z) (a : Attributes) : fwk Z :=
  match GetUint32Value a ATTR_ACCESS_TOKEN_ID, GetUint8ArrayValue a ATTR_EXTRA_INFO, GetInt32Value a ATTR_USER_ID with
  | Some tokenId, Some extraInfo, Some userId =>
    call (HdiEnroll scheduleId
      (mkEnrollParam tokenId extraInfo userId (default [] (GetStringValue a ATTR_ADDITIONAL_INFO))))
  | _, _, _ => mret GENERAL_ERROR
  end.

(* @src AU AuthCommand::SendRequest *)
Definition send_auth (scheduleId : Z) (a : Attributes) : fwk Z :=
  match GetUint64ArrayValue a ATTR_TEMPLATE_ID_LIST, GetUint32Value a ATTR_ACCESS_TOKEN_ID,
        GetBoolValue a ATTR_END_AFTER_FIRST_FAIL, GetUint8ArrayValue a ATTR_EXTRA_INFO,
        GetInt32Value a ATTR_AUTH_INTENTION, GetInt32Value a ATTR_USER_ID with
  | Some templateIdList, Some tokenId, Some endAfterFirstFail, Some extraInfo, Some authIntent, Some userId =>
    call (HdiAuthenticate scheduleId
      (mkAuthenticateParam tokenId templateIdList extraInfo endAfterFirstFail authIntent userId
        (default AUTH_SCENE_DEFAULT (GetInt32Value a ATTR_AUTH_SCENE)) (default [] (GetStringValue a ATTR_WIDGET_TITLE))))
  | _, _, _, _, _, _ => mret GENERAL_ERROR
  end.

(* @src CO CollectCommand::SendRequest *)
Definition send_collect (scheduleId : Z) (a : Attributes) : fwk Z :=
  match GetUint32Value a ATTR_COLLECTOR_TOKEN_ID, GetUint8ArrayValue a ATTR_EXTRA_INFO with
  | Some collectorTokenId, Some extraInfo => call (HdiCollect scheduleId (mkCollectParam 0 collectorTokenId extraInfo))
  | _, _ => mret GENERAL_ERROR
  end.

(* @src ID IdentifyCommand::SendRequest *)
Definition send_identify (scheduleId : Z) (a : Attributes) : fwk Z :=
  match GetUint32Value a ATTR_ACCESS_TOKEN_ID, GetUint8ArrayValue a ATTR_EXTRA_INFO with
  | Some tokenId, Some extraInfo => call (HdiIdentify scheduleId (mkIdentifyParam tokenId extraInfo))
  | _, _ => mret GENERAL_ERROR
  end.

(** Of several templates only the first is abandoned. *)
(* @src AB AbandonCommand::SendRequest *)
Definition send_abandon (scheduleId : Z) (a : Attributes) : fwk Z :=
  match GetUint32Value a ATTR_ACCESS_TOKEN_ID, GetUint8ArrayValue a ATTR_EXTRA_INFO, GetInt32Value a ATTR_USER_ID,
        GetUint64ArrayValue a ATTR_TEMPLATE_ID_LIST with
  | Some tokenId, Some extraInfo, Some userId, Some (templateId :: _) =>
    call (HdiAbandon scheduleId (mkAbandonParam tokenId userId templateId extraInfo))
  | _, _, _, _ => mret GENERAL_ERROR
  end.

(* @src CU CustomCommand::SendRequest *)
Definition send_custom (a : Attributes) : fwk (Z * bool) :=
  match GetUint32Value a ATTR_PROPERTY_MODE, GetUint8ArrayValue a ATTR_EXTRA_INFO with
  | Some commandId, Some extraInfo =>
    ret ← call (HdiSendCommand commandId extraInfo);
    mret (ret, bool_decide (ret ≠ SUCCESS))
  | _, _ => mret (GENERAL_ERROR, false)
  end.

(** [hdi] is what [GetExecutorHdi] gave. *)
Definition SendRequest (c : Command) (hdi : bool) : fwk (Z * bool) :=
  match attributes_ c with
  | None => mret (GENERAL_ERROR, false)
  | Some a =>
    CHECK hdi = true ELSE mret (GENERAL_ERROR, false) ;;
    match kind c with
    | KCustom => send_custom a
    | k =>
      ret ← match k with
            | KEnroll => send_enroll (scheduleId_ c) a
            | KAuth => send_auth (scheduleId_ c) a
            | KCollect => send_collect (scheduleId_ c) a
            | KIdentify => send_identify (scheduleId_ c) a
            | _ => send_abandon (scheduleId_ c) a
            end;
      mret (ret, false)
    end
  end.

(** ** Results *)

(* @src A AsyncCommandBase::MessengerFinish *)
Definition MessengerFinish (c : Command) (scheduleId resultCode : Z) (finalResult : Attributes) : fwk (Command * Z) :=
  CHECK executorMessenger_ c = true ELSE mret (c, USERAUTH_ERROR) ;;
  ret ← call (Finish scheduleId resultCode finalResult);
  mret (mkCommand (kind c) (scheduleId_ c) (attributes_ c) false (isFinished_ c) (result_ c), ret).

Definition result_attributes (result : Z) (extraInfo : bytes) : Attributes * bool :=
  set_all Attributes_new [
    (λ a, SetUint32Value a ATTR_RESULT_CODE (wrapU 32 result));
    (λ a, SetUint8ArrayValue a ATTR_RESULT extraInfo)].

(** The body that all [OnResultInner] but the custom command's share. *)
Definition finish_with (c : Command) (result : Z) (extraInfo : bytes) : fwk Command :=
  ok ← call (Alloc "Attributes");
  CHECK ok = true ELSE mret c ;;
  let '(authAttributes, set) := result_attributes result extraInfo in
  CHECK set = true ELSE mret c ;;
  '(c, _) ← MessengerFinish c (scheduleId_ c) result authAttributes;
  mret c.

(* @src EN EnrollCommand::OnResultInner *)
Definition Enroll_OnResultInner := finish_with.
(* @src AU AuthCommand::OnResultInner *)
Definition Auth_OnResultInner := finish_with.
(* @src CO CollectCommand::OnResultInner *)
Definition Collect_OnResultInner := finish_with.
(* @src ID IdentifyCommand::OnResultInner *)
Definition Identify_OnResultInner := finish_with.
(* @src AB AbandonCommand::OnResultInner *)
Definition Abandon_OnResultInner := finish_with.
(* @src CU CustomCommand::SetResult *)
Definition SetResult (c : Command) (resultCode : Z) : Command :=
  mkCommand (kind c) (scheduleId_ c) (attributes_ c) (executorMessenger_ c) (isFinished_ c) (Some resultCode).
(* @src CU CustomCommand::OnResultInner *)
Definition Custom_OnResultInner (c : Command) (result : Z) (extraInfo : bytes) : fwk Command := mret (SetResult c result).

Definition OnResultInner (c : Command) (result : Z) (extraInfo : bytes) : fwk Command :=
  match kind c with
  | KEnroll => Enroll_OnResultInner c result extraInfo
  | KAuth => Auth_OnResultInner c result extraInfo
  | KCollect => Collect_OnResultInner c result extraInfo
  | KIdentify => Identify_OnResultInner c result extraInfo
  | KAbandon => Abandon_OnResultInner c result extraInfo
  | KCustom => Custom_OnResultInner c result extraInfo
  end.

Definition finished (c : Command) : Command :=
  mkCommand (kind c) (scheduleId_ c) (attributes_ c) (executorMessenger_ c) true (result_ c).

(* @src A AsyncCommandBase::EndProcess *)
Definition EndProcess h (id : Z) : Host := set_executor h ((λ x, RemoveCommand x id) <$> executor_ h).

(* @src A:80-90 AsyncCommandBase::OnResult *)
Definition OnResult h (id : Z) (result : Z) (extraInfo : bytes) : fwk Host :=
  match commands h !! id with
  | None => mret h
  | Some c =>
    WHEN isFinished_ c = true RETURN mret h ;;
    c ← OnResultInner (finished c) result extraInfo;
    mret (EndProcess (set_command h id c) id)
  end.

(* @src A AsyncCommandBase::OnHdiDisconnect *)
Definition OnHdiDisconnect h (id : Z) : fwk Host := OnResult h id GENERAL_ERROR [].

(* @src A AsyncCommandBase::MessengerSendData *)
Definition MessengerSendData (c : Command) (scheduleId dstType : Z) (msg : bytes) : fwk Z :=
  CHECK executorMessenger_ c = true ELSE mret USERAUTH_ERROR ;;
  call (SendData scheduleId dstType msg).

Definition two_attributes (key v : Z) (extraInfo : bytes) : Attributes * bool :=
  set_all Attributes_new [
    (λ a, SetInt32Value a key v);
    (λ a, SetUint8ArrayValue a ATTR_EXTRA_INFO extraInfo)].

(** Custom commands do not support it. *)
(* @src A AsyncCommandBase::OnAcquireInfoInner *)
Definition OnAcquireInfoInner (c : Command) (acquire : Z) (extraInfo : bytes) : fwk () :=
  WHEN kind c = KCustom RETURN mret () ;;
  let '(attr, ok) := two_attributes ATTR_TIP_INFO acquire extraInfo in
  CHECK ok = true ELSE mret () ;;
  MessengerSendData c (scheduleId_ c) SCHEDULER (Serialize attr);;
  mret ().

(* @src A AsyncCommandBase::OnAcquireInfo *)
Definition OnAcquireInfo h (id : Z) (acquire : Z) (extraInfo : bytes) : fwk () :=
  match commands h !! id with
  | None => mret ()
  | Some c =>
    WHEN isFinished_ c = true RETURN mret () ;;
    OnAcquireInfoInner c acquire extraInfo
  end.

(* @src A AsyncCommandBase::OnMessageInner *)
Definition OnMessageInner h (c : Command) (destRole : Z) (msg : bytes) : fwk () :=
  WHEN kind c = KCustom RETURN mret () ;;
  match executor_ h with
  | None => mret ()
  | Some executor =>
    let '(attr, ok) := two_attributes ATTR_SRC_ROLE (GetExecutorRole executor) msg in
    CHECK ok = true ELSE mret () ;;
    MessengerSendData c (scheduleId_ c) destRole (Serialize attr);;
    mret ()
  end.

(* @src A AsyncCommandBase::OnMessage *)
Definition OnMessage h (id : Z) (destRole : Z) (msg : bytes) : fwk () :=
  match commands h !! id with
  | None => mret ()
  | Some c =>
    WHEN isFinished_ c = true RETURN mret () ;;
    OnMessageInner h c destRole msg
  end.

(** ** Starting a command *)

(** [None] when the executor was released. *)
(* @src A:59-64 AsyncCommandBase::StartProcess *)
Definition start_add h (id : Z) : option Host :=
  executor ← executor_ h;
  Some (set_executor h (Some (AddCommand executor id))).

(* @src A AsyncCommandBase::GetExecutorHdi *)
Definition start_get h : bool := match executor_ h with Some executor => GetExecutorHdi executor | None => false end.

Definition start_send h (id : Z) (hdi : bool) : fwk (Host * Z) :=
  match commands h !! id with
  | None => mret (h, GENERAL_ERROR)
  | Some c =>
    '(ret, answers) ← SendRequest c hdi;
    if (answers : bool) then h ← OnResult h id ret []; mret (h, ret) else mret (h, ret)
  end.

(* @src A AsyncCommandBase::StartProcess *)
Definition StartProcess h (id : Z) : fwk (Host * Z) :=
  match start_add h id with
  | None => mret (h, GENERAL_ERROR)
  | Some h =>
    '(h, ret) ← start_send h id (start_get h);
    CHECK ret = SUCCESS ELSE mret (EndProcess h id, ret) ;;
    mret (h, SUCCESS)
  end.

(** ** The executor's connection to the driver breaks *)

(* @src X:58-61 Executor::OnHdiDisconnect *)
Definition disconnect_hdi h : Host := set_executor h (clear_hdi <$> executor_ h).

(** The commands of a copy of the set, one after the other. *)
(* @src X Executor::RespondCallbackOnDisconnect *)
Definition RespondCallbackOnDisconnect h : fwk Host :=
  match executor_ h with
  | None => mret h
  | Some x => for_each OnHdiDisconnect h (elements (command2Respond_ x))
  end.

(* @src X Executor::OnHdiDisconnect *)
Definition Executor_OnHdiDisconnect h : fwk Host :=
  h ← RespondCallbackOnDisconnect (disconnect_hdi h);
  match executor_ h with
  | None => mret h
  | Some x => x ← UnregisterExecutorCallback x; mret (set_executor h (Some x))
  end.
