(* ===== verification/FrameworkCallback.v ===== *)
(** * What the services ask of an executor

    Models framework_executor_callback.cpp and executor_mgr_wrapper.cpp: the
    callback that an executor registers with the services, over the [Host] of
    AsyncCommand.v. [ProcessCustomCommand] waits a second for the answer, while
    other threads run; it is split at the wait. *)

From S2P Require Import Prelude Defines Interaction ServiceTypes Attributes ExecutorSide AsyncCommand.

(* @file F = src/frameworks/native/executors/src/framework/framework_executor_callback.cpp *)
(* @file C = src/frameworks/native/client/src/executor_callback_service.cpp *)
(* @file EN = src/frameworks/native/executors/src/async_command/enroll_command.cpp *)
(* @file CU = src/frameworks/native/executors/src/async_command/custom_command.cpp *)

Implicit Types h : Host.

(** A new command and its address; the store of a command is a copy of what the
    services sent. *)
(* @src EN EnrollCommand::EnrollCommand *)
Definition NewCommand h (k : CommandKind) (scheduleId : Z) (attributes : Attributes) (messenger : bool) :
    fwk (Host * option Z) :=
  ok ← call (Alloc "Command");
  CHECK ok = true ELSE mret (h, None) ;;
  copied ← call (Alloc "Attributes");
  let attributes := if (copied : bool) then Some (Attributes_of_raw (Serialize attributes)) else None in
  let id := fresh (dom (commands h)) in
  mret (set_command h id (mkCommand k scheduleId attributes messenger false None), Some id).

Definition start_new h (k : CommandKind) (scheduleId : Z) (attributes : Attributes) (messenger : bool) : fwk (Host * Z) :=
  '(h, command) ← NewCommand h k scheduleId attributes messenger;
  match command with
  | None => mret (h, GENERAL_ERROR)
  | Some id => StartProcess h id
  end.

(* @src F FrameworkExecutorCallback::ProcessEnrollCommand *)
Definition ProcessEnrollCommand h (scheduleId : Z) (properties : Attributes) : fwk (Host * Z) :=
  start_new h KEnroll scheduleId properties (messenger_ h).

(* @src F FrameworkExecutorCallback::ProcessAuthCommand *)
Definition ProcessAuthCommand h (scheduleId : Z) (properties : Attributes) : fwk (Host * Z) :=
  match executor_ h with
  | None => mret (h, GENERAL_ERROR)
  | Some executor =>
    start_new h (if decide (GetExecutorRole executor = COLLECTOR) then KCollect else KAuth) scheduleId properties
      (messenger_ h)
  end.

(* @src F FrameworkExecutorCallback::ProcessIdentifyCommand *)
Definition ProcessIdentifyCommand h (scheduleId : Z) (properties : Attributes) : fwk (Host * Z) :=
  start_new h KIdentify scheduleId properties (messenger_ h).

(* @src F FrameworkExecutorCallback::ProcessAbandonCommand *)
Definition ProcessAbandonCommand h (scheduleId : Z) (properties : Attributes) : fwk (Host * Z) :=
  start_new h KAbandon scheduleId properties (messenger_ h).

(** The driver's executor, if there is one. *)
Definition with_hdi {A} h (k : Executor → fwk A) (failed : A) : fwk A :=
  match executor_ h with
  | None => mret failed
  | Some executor =>
    CHECK GetExecutorHdi executor = true ELSE mret failed ;;
    k executor
  end.

(* @src F FrameworkExecutorCallback::ProcessCancelCommand *)
Definition ProcessCancelCommand h (scheduleId : Z) : fwk Z :=
  with_hdi h (λ _, call (HdiCancel scheduleId)) GENERAL_ERROR.

(* @src F FrameworkExecutorCallback::ProcessDeleteTemplateCommand *)
Definition ProcessDeleteTemplateCommand h (properties : Attributes) : fwk Z :=
  with_hdi h (λ _,
    match GetUint64Value properties ATTR_TEMPLATE_ID with
    | None => mret GENERAL_ERROR
    | Some templateId => call (HdiDelete [templateId])
    end) GENERAL_ERROR.

(* @src F FrameworkExecutorCallback::ProcessSetCachedTemplates *)
Definition ProcessSetCachedTemplates h (properties : Attributes) : fwk Z :=
  with_hdi h (λ _,
    match GetUint64ArrayValue properties ATTR_TEMPLATE_ID_LIST with
    | None => mret GENERAL_ERROR
    | Some templateIdList => call (HdiSetCachedTemplates templateIdList)
    end) GENERAL_ERROR.

(* @src F FrameworkExecutorCallback::ProcessNotifyExecutorReady *)
Definition ProcessNotifyExecutorReady h (properties : Attributes) : fwk Z :=
  with_hdi h (λ _,
    match GetUint64Value properties ATTR_SCHEDULE_ID with
    | None => mret GENERAL_ERROR
    | Some scheduleId => call (HdiNotifyCollectorReady scheduleId)
    end) GENERAL_ERROR.

(** The command that was started, or the code of a failure. *)
(* @src F FrameworkExecutorCallback::ProcessCustomCommand *)
Definition ProcessCustomCommand h (properties : Attributes) : fwk (Host * (Z + Z)) :=
  '(h, command) ← NewCommand h KCustom 0 properties false;
  match command with
  | None => mret (h, inr GENERAL_ERROR)
  | Some id =>
    '(h, ret) ← StartProcess h id;
    CHECK ret = SUCCESS ELSE mret (h, inr ret) ;;
    mret (h, inl id)
  end.

(** After the wait. *)
(* @src CU CustomCommand::GetResult *)
Definition GetResult h (id : Z) : Z :=
  match commands h !! id with
  | None => GENERAL_ERROR
  | Some c => default TIMEOUT (result_ c)
  end.

(* @src F FrameworkExecutorCallback::OnBeginExecuteInner *)
Definition OnBeginExecute h (scheduleId : Z) (publicKey : bytes) (commandAttrs : Attributes) : fwk (Host * Z) :=
  match GetInt32Value commandAttrs ATTR_SCHEDULE_MODE with
  | None => mret (h, GENERAL_ERROR)
  | Some commandId =>
    if decide (commandId = ENROLL) then ProcessEnrollCommand h scheduleId commandAttrs
    else if decide (commandId = AUTH) then ProcessAuthCommand h scheduleId commandAttrs
    else if decide (commandId = IDENTIFY) then ProcessIdentifyCommand h scheduleId commandAttrs
    else if decide (commandId = ABANDON) then ProcessAbandonCommand h scheduleId commandAttrs
    else mret (h, GENERAL_ERROR)
  end.

(* @src F FrameworkExecutorCallback::OnEndExecuteInner *)
Definition OnEndExecute h (scheduleId : Z) (consumerAttr : Attributes) : fwk Z := ProcessCancelCommand h scheduleId.

(* @src F FrameworkExecutorCallback::OnMessengerReady *)
Definition OnMessengerReady h (messenger : bool) (publicKey : bytes) (templateIdList : list Z) : fwk Host :=
  with_hdi h (λ _,
    call (HdiOnRegisterFinish templateIdList publicKey []);;
    mret (mkHost (executor_ h) messenger (commands h))) h.

(** A custom command is answered later. *)
(* @src F FrameworkExecutorCallback::OnSetPropertyInner *)
Definition OnSetProperty h (properties : Attributes) : fwk (Host * (Z + Z)) :=
  match GetUint32Value properties ATTR_PROPERTY_MODE with
  | None => mret (h, inr GENERAL_ERROR)
  | Some commandId =>
    if decide (commandId = PROPERTY_MODE_DEL) then ret ← ProcessDeleteTemplateCommand h properties; mret (h, inr ret)
    else if decide (commandId = PROPERTY_MODE_SET_CACHED_TEMPLATES) then
      ret ← ProcessSetCachedTemplates h properties; mret (h, inr ret)
    else if decide (commandId = PROPERTY_MODE_NOTIFY_COLLECTOR_READY) then
      ret ← ProcessNotifyExecutorReady h properties; mret (h, inr ret)
    else ProcessCustomCommand h properties
  end.

(* @src F FrameworkExecutorCallback::OnSendData *)
Definition OnSendData h (scheduleId : Z) (data : Attributes) : fwk Z :=
  match GetInt32Value data ATTR_SRC_ROLE, GetUint8ArrayValue data ATTR_EXTRA_INFO with
  | Some srcRole, Some extraInfo => with_hdi h (λ _, call (HdiSendMessage scheduleId srcRole extraInfo)) GENERAL_ERROR
  | _, _ => mret GENERAL_ERROR
  end.

(** ** Properties *)

(* @src F:42-79 FrameworkExecutorCallback::propertyFillers_ *)
Definition propertyFillers_ (key : Z) : option (Property → Attributes → Attributes * bool) :=
  if decide (key = ATTR_PIN_SUB_TYPE) then
    Some (λ p a, SetInt32Value a ATTR_PIN_SUB_TYPE (wrapS 32 (pr_authSubType p)))
  else if decide (key = ATTR_FREEZING_TIME) then Some (λ p a, SetInt32Value a ATTR_FREEZING_TIME (pr_lockoutDuration p))
  else if decide (key = ATTR_REMAIN_TIMES) then Some (λ p a, SetInt32Value a ATTR_REMAIN_TIMES (pr_remainAttempts p))
  else if decide (key = ATTR_ENROLL_PROGRESS) then
    Some (λ p a, SetStringValue a ATTR_ENROLL_PROGRESS (pr_enrollmentProgress p))
  else if decide (key = ATTR_SENSOR_INFO) then Some (λ p a, SetStringValue a ATTR_SENSOR_INFO (pr_sensorInfo p))
  else if decide (key = ATTR_NEXT_FAIL_LOCKOUT_DURATION) then
    Some (λ p a, SetInt32Value a ATTR_NEXT_FAIL_LOCKOUT_DURATION (pr_nextFailLockoutDuration p))
  else if decide (key = ATTR_CREDENTIAL_LENGTH) then
    Some (λ p a, if decide (pr_credentialLength p = 0) then (a, true)
                 else SetUint32Value a ATTR_CREDENTIAL_LENGTH (pr_credentialLength p))
  else if decide (key = ATTR_CAMERA_STATUS) then Some (λ p a, SetUint32Value a ATTR_CAMERA_STATUS (pr_cameraStatus p))
  else None.

(* @src F FrameworkExecutorCallback::FillPropertyToAttribute *)
Fixpoint FillPropertyToAttribute (keyList : list Z) (property : Property) (values : Attributes) : Attributes * Z :=
  match keyList with
  | [] => (values, SUCCESS)
  | key :: keyList =>
    match propertyFillers_ key with
    | None => (values, GENERAL_ERROR)
    | Some fill =>
      let '(values, ret) := fill property values in
      CHECK ret = true ELSE (values, GENERAL_ERROR) ;;
      FillPropertyToAttribute keyList property values
    end
  end.

(* @src F FrameworkExecutorCallback::ProcessGetPropertyCommand *)
Definition ProcessGetPropertyCommand h (conditions values : Attributes) : fwk (Attributes * Z) :=
  with_hdi h (λ _,
    match GetUint64ArrayValue conditions ATTR_TEMPLATE_ID_LIST, GetUint32ArrayValue conditions ATTR_KEY_LIST with
    | Some templateIdList, Some keyList =>
      '(getPropertyRet, property) ← call (HdiGetProperty templateIdList keyList);
      CHECK getPropertyRet = SUCCESS ELSE mret (values, GENERAL_ERROR) ;;
      let '(values, fillAttributeRet) := FillPropertyToAttribute keyList property values in
      CHECK fillAttributeRet = SUCCESS ELSE mret (values, GENERAL_ERROR) ;;
      mret (values, SUCCESS)
    | _, _ => mret (values, GENERAL_ERROR)
    end) (values, GENERAL_ERROR).

(* @src F FrameworkExecutorCallback::OnGetPropertyInner *)
Definition OnGetPropertyInner h (conditions values : Attributes) : fwk (Attributes * Z) :=
  match GetUint32Value conditions ATTR_PROPERTY_MODE with
  | None => mret (values, GENERAL_ERROR)
  | Some commandId =>
    CHECK commandId = PROPERTY_MODE_GET ELSE mret (values, GENERAL_ERROR) ;;
    ProcessGetPropertyCommand h conditions values
  end.

(** Copies of both stores; a failed copy of the conditions leaves a copy of the
    results. *)
(* @src F FrameworkExecutorCallback::OnGetProperty *)
Definition OnGetProperty h (conditions results : Attributes) : fwk (Attributes * Z) :=
  cond ← call (Alloc "Attributes");
  vals ← call (Alloc "Attributes");
  CHECK vals = true ELSE mret (results, GENERAL_ERROR) ;;
  let values := Attributes_of_raw (Serialize results) in
  CHECK cond = true ELSE mret (values, GENERAL_ERROR) ;;
  OnGetPropertyInner h (Attributes_of_raw (Serialize conditions)) values.

(** ** The functions that the services call

    They parse what arrives; [None] is an untouched out parameter. *)

(* @src C ExecutorCallbackService::OnBeginExecute *)
Definition Service_OnBeginExecute h (scheduleId : Z) (publicKey command : bytes) : fwk (Host * Z) :=
  OnBeginExecute h scheduleId publicKey (Attributes_of_raw command).
(* @src C ExecutorCallbackService::OnEndExecute *)
Definition Service_OnEndExecute h (scheduleId : Z) (command : bytes) : fwk Z :=
  OnEndExecute h scheduleId (Attributes_of_raw command).
(* @src C ExecutorCallbackService::OnSetProperty *)
Definition Service_OnSetProperty h (properties : bytes) : fwk (Host * (Z + Z)) :=
  OnSetProperty h (Attributes_of_raw properties).
(* @src C ExecutorCallbackService::OnGetProperty *)
Definition Service_OnGetProperty h (condition : bytes) : fwk (Z * option bytes) :=
  '(values, ret) ← OnGetProperty h (Attributes_of_raw condition) Attributes_new;
  mret (ret, if decide (ret = SUCCESS) then Some (Serialize values) else None).
(* @src C ExecutorCallbackService::OnSendData *)
Definition Service_OnSendData h (scheduleId : Z) (extraInfo : bytes) : fwk Z :=
  OnSendData h scheduleId (Attributes_of_raw extraInfo).
(* @src C ExecutorCallbackService::OnMessengerReady *)
Definition Service_OnMessengerReady h (publicKey : bytes) (templateIdList : list Z) : fwk (Host * Z) :=
  ok ← call (Alloc "ExecutorMessengerClient");
  CHECK ok = true ELSE mret (h, GENERAL_ERROR) ;;
  h ← OnMessengerReady h true publicKey templateIdList;
  mret (h, SUCCESS).
