(* ===== verification/AsyncCommandThm.v ===== *)
(** * No command of an executor is lost

    Commands are started by several threads at once, the driver answers from
    others, and the connection to the driver may break at any time. A step is
    what happens under one lock. Every command is answered at most once, and
    when the connection is gone, every command that was started has been
    answered. *)

From S2P Require Import Prelude Defines Interaction ServiceTypes Attributes ExecutorSide AsyncCommand FrameworkCallback.

(** Where the thread is that starts a command. *)
Inductive pc := PAdd | PGet | PSend (hdi : bool) | PEnd (ret : Z) | PDone (ret : Z).

(** Where the thread is that handles the break of the connection. *)
Inductive dpc := DIdle | DNull | DNotify (todo : list Z) | DDone.

Record side := mkSide {
  host : Host;
  threads : gmap Z pc;
  disc : dpc;
  log : fw_trace;
}.

Definition side_born (x : Executor) : side := mkSide (mkHost (Some x) false ∅) ∅ DIdle [].

Section Steps.
Context (o : env fw_answer).

Inductive side_step : side → side → Prop :=
  | s_new h ts d t k scheduleId attributes messenger h' id t' :
      run o (NewCommand h k scheduleId attributes messenger) t = ((h', Some id), t') →
      side_step (mkSide h ts d t) (mkSide h' (<[id := PAdd]> ts) d t')
  | s_add h ts d t id h' : ts !! id = Some PAdd → start_add h id = Some h' →
      side_step (mkSide h ts d t) (mkSide h' (<[id := PGet]> ts) d t)
  | s_add_failed h ts d t id : ts !! id = Some PAdd → start_add h id = None →
      side_step (mkSide h ts d t) (mkSide h (<[id := PDone GENERAL_ERROR]> ts) d t)
  | s_get h ts d t id : ts !! id = Some PGet →
      side_step (mkSide h ts d t) (mkSide h (<[id := PSend (start_get h)]> ts) d t)
  | s_send h ts d t id hdi h' ret t' : ts !! id = Some (PSend hdi) →
      run o (start_send h id hdi) t = ((h', ret), t') →
      side_step (mkSide h ts d t) (mkSide h' (<[id := if decide (ret = SUCCESS) then PDone SUCCESS else PEnd ret]> ts) d t')
  | s_end h ts d t id ret : ts !! id = Some (PEnd ret) →
      side_step (mkSide h ts d t) (mkSide (EndProcess h id) (<[id := PDone ret]> ts) d t)
  | s_answer h ts d t id code extraInfo h' t' : run o (OnResult h id code extraInfo) t = (h', t') →
      side_step (mkSide h ts d t) (mkSide h' ts d t')
  | s_tip h ts d t id acquire extraInfo t' : run o (OnAcquireInfo h id acquire extraInfo) t = ((), t') →
      side_step (mkSide h ts d t) (mkSide h ts d t')
  | s_break h ts t : side_step (mkSide h ts DIdle t) (mkSide (disconnect_hdi h) ts DNull t)
  | s_copy h ts t x : executor_ h = Some x →
      side_step (mkSide h ts DNull t) (mkSide h ts (DNotify (elements (command2Respond_ x))) t)
  | s_notify h ts t id todo h' t' : run o (OnHdiDisconnect h id) t = (h', t') →
      side_step (mkSide h ts (DNotify (id :: todo)) t) (mkSide h' ts (DNotify todo) t')
  | s_notified h ts t : side_step (mkSide h ts (DNotify []) t) (mkSide h ts DDone t)
  | s_released h ts t : side_step (mkSide h ts DDone t) (mkSide (set_executor h None) ts DDone t).

End Steps.

(** ** What the functions do to the host *)

Definition is_finish (e : event fw_answer) : bool := match asked e with Finish _ _ _ => true | _ => false end.
Abbreviation finishes t := (tally is_finish t).

(** The commands that were answered. *)
Definition answered (m : gmap Z Command) : gmap Z Command := filter (λ ic, isFinished_ ic.2 = true) m.

Lemma finished_by_inner c result extraInfo :
  leaves (OnResultInner (finished c) result extraInfo) (λ c' u, isFinished_ c' = true ∧ (finishes u ≤ 1)%nat).
Proof.
  assert (∀ c, isFinished_ c = true → leaves (finish_with c result extraInfo)
    (λ c' u, isFinished_ c' = true ∧ (finishes u ≤ 1)%nat)) as Hw.
  { intros c0 H0. unfold finish_with, MessengerFinish.
    eapply leaves_bind; [by apply (@leaves_call _ fw_answer (Alloc "Attributes") (λ _ u, finishes u = 0%nat))|].
    intros ok u Hu. case_decide; [|apply leaves_ret; rewrite app_nil_r, Hu; auto with lia].
    destruct (result_attributes result extraInfo) as [a set].
    case_decide; [|apply leaves_ret; rewrite app_nil_r, Hu; auto with lia].
    case_decide; simpl.
    - eapply (leaves_bind _ _ (λ p w, isFinished_ p.1 = true ∧ finishes w = 1%nat)).
      + eapply leaves_bind;
          [by apply (@leaves_call _ fw_answer (Finish (scheduleId_ c0) result a) (λ _ w, finishes w = 1%nat))|].
        intros ret v Hv. apply leaves_ret. by rewrite app_nil_r.
      + intros [c1 ret] v [Hc1 Hv]. apply leaves_ret. rewrite app_nil_r, tally_app, Hu, Hv. auto with lia.
    - apply leaves_ret. rewrite app_nil_r, Hu. auto with lia. }
  unfold OnResultInner. destruct (kind (finished c)); try (by apply Hw).
  apply leaves_ret. auto with lia.
Qed.

(** A command was answered, if it had not been; nothing else changed. *)
Definition answered_post h (id : Z) (h' : Host) (u : fw_trace) : Prop :=
  (h' = h ∧ finishes u = 0%nat ∧ (∀ c, commands h !! id = Some c → isFinished_ c = true)) ∨
  (∃ c c', commands h !! id = Some c ∧ isFinished_ c = false ∧ isFinished_ c' = true ∧ (finishes u ≤ 1)%nat ∧
    h' = EndProcess (set_command h id c') id).

Lemma leaves_OnResult h id result extraInfo : leaves (OnResult h id result extraInfo) (answered_post h id).
Proof.
  unfold OnResult. destruct (commands h !! id) as [c|] eqn:E; [|apply leaves_ret; left; by rewrite E].
  case_decide as Hf; [apply leaves_ret; left; rewrite E; naive_solver|]. apply not_true_is_false in Hf.
  eapply leaves_bind; [apply finished_by_inner|]. intros c' u [Hc Hu]. apply leaves_ret. right.
  rewrite app_nil_r. exists c, c'. auto.
Qed.

Lemma leaves_quiet {A} (m : fwk A) (P : A → fw_trace → Prop) :
  only (λ q, match q with Finish _ _ _ => false | _ => true end) m → (∀ a u, finishes u = 0%nat → P a u) → leaves m P.
Proof.
  intros Hm HP. eapply leaves_only; [exact Hm|]. intros a u Hu. apply HP.
  induction Hu as [|e u He _ IH]; [done|]. unfold tally in *. rewrite filter_cons, decide_False; [done|].
  destruct e as [[] ?]; done.
Qed.

Lemma only_send c hdi : only (λ q, match q with Finish _ _ _ => false | _ => true end) (SendRequest c hdi).
Proof.
  unfold SendRequest, send_enroll, send_auth, send_collect, send_identify, send_abandon, send_custom.
  repeat first [step | case_match; try done | done].
Qed.

(** Without the driver nothing is sent; the command may have answered itself. *)
Lemma leaves_send h id hdi : leaves (start_send h id hdi) (λ '(h', ret) u,
  (hdi = false → ret = GENERAL_ERROR ∧ h' = h ∧ finishes u = 0%nat) ∧
  ((h' = h ∧ finishes u = 0%nat) ∨ answered_post h id h' u)).
Proof.
  unfold start_send. destruct (commands h !! id) as [c|] eqn:E; [|apply leaves_ret; auto].
  eapply (leaves_bind _ _ (λ '(ret, answers) u, finishes u = 0%nat ∧ (hdi = false → ret = GENERAL_ERROR ∧ answers = false))).
  - destruct hdi.
    + apply leaves_quiet; [apply only_send|]. by intros [].
    + unfold SendRequest. destruct (attributes_ c); [rewrite decide_False by done|]; by apply leaves_ret.
  - intros [ret []] u [Hu Hh].
    + eapply leaves_bind; [apply leaves_OnResult|]. intros h' v Hv. apply leaves_ret.
      split; [intros Hf; by destruct (Hh Hf)|]. right. rewrite app_nil_r.
      destruct Hv as [(-> & Hn & Hd)|(c1 & c2 & H1 & H2 & H3 & H4 & ->)].
      * left. rewrite tally_app, Hu, Hn. auto.
      * right. exists c1, c2. rewrite tally_app, Hu. auto.
    + apply leaves_ret. rewrite app_nil_r. split; [|auto]. intros Hf. by destruct (Hh Hf).
Qed.

(** ** The invariant *)

Definition waits (p : pc) : Prop :=
  match p with PGet | PSend _ | PEnd _ => True | PDone ret => ret = SUCCESS | PAdd => False end.
(** The driver may still answer. *)
Definition handed (p : pc) : Prop := match p with PSend true => True | PDone ret => ret = SUCCESS | _ => False end.

#[export] Instance dpc_eq_dec : EqDecision dpc.
Proof. solve_decision. Defined.

Definition due (d : dpc) (id : Z) : Prop :=
  match d with DIdle | DNull => True | DNotify todo => id ∈ todo | DDone => False end.

Definition command_ok (h : Host) (d : dpc) (id : Z) (p : pc) : Prop :=
  ∀ c, commands h !! id = Some c → isFinished_ c = false →
    (waits p → ∀ x, executor_ h = Some x → id ∈ command2Respond_ x) ∧ (handed p → due d id).

Definition side_ok (s : side) : Prop :=
  dom (threads s) = dom (commands (host s)) ∧
  (∀ id p, threads s !! id = Some p → command_ok (host s) (disc s) id p) ∧
  (disc s ≠ DIdle → ∀ x, executor_ (host s) = Some x → executorHdi_ x = false) ∧
  (executor_ (host s) = None → disc s = DDone) ∧
  (∀ id, threads s !! id ≠ Some (PEnd SUCCESS)) ∧
  (finishes (log s) ≤ size (answered (commands (host s))))%nat.

(** Commands answer, and leave the set, in any order: what is known of the
    others stays. *)
Lemma ok_answered h d id h' u id' p : answered_post h id h' u → command_ok h d id' p → command_ok h' d id' p.
Proof.
  intros [(-> & _)|(c & c' & Hc & Hf & Hf' & _ & ->)] H; [done|]. intros c0 Hc0 Hu. simpl in Hc0.
  destruct (decide (id' = id)) as [->|Hne].
  - rewrite lookup_insert_eq in Hc0. simplify_eq. congruence.
  - rewrite lookup_insert_ne in Hc0 by done. destruct (H c0 Hc0 Hu) as [H1 H2]. split; [|done].
    intros Hw x Hx. unfold EndProcess in Hx. simpl in Hx. destruct (executor_ h) as [x0|]; [|done].
    injection Hx as <-. simpl. specialize (H1 Hw x0 eq_refl). set_solver.
Qed.

Lemma answered_size h id h' u : answered_post h id h' u →
  (size (answered (commands h')) = size (answered (commands h)) + finishes u)%nat ∨
  (finishes u ≤ 1 ∧ size (answered (commands h')) = S (size (answered (commands h))))%nat.
Proof.
  intros [(-> & -> & _)|(c & c' & Hc & Hf & Hf' & Hu & ->)]; [left; lia|right]. split; [done|]. simpl.
  unfold answered. rewrite map_filter_insert_True by done. rewrite map_size_insert_None; [done|].
  rewrite map_lookup_filter_None. right. intros c0 H0. simplify_eq. simpl. by rewrite Hf.
Qed.

Lemma answered_dom h id h' u : answered_post h id h' u → dom (commands h') = dom (commands h).
Proof. intros [(-> & _)|(c & c' & Hc & _ & _ & _ & ->)]; [done|]. simpl. apply dom_insert_lookup_L. eauto. Qed.

Lemma answered_executor h id h' u x' : answered_post h id h' u → executor_ h' = Some x' →
  ∃ x, executor_ h = Some x ∧ executorHdi_ x' = executorHdi_ x.
Proof.
  intros [(-> & _)|(c & c' & _ & _ & _ & _ & ->)] Hx; [eauto|]. unfold EndProcess in Hx. simpl in Hx.
  destruct (executor_ h) as [x|]; [|done]. injection Hx as <-. eauto.
Qed.
Lemma answered_alive h id h' u : answered_post h id h' u → executor_ h' = None → executor_ h = None.
Proof.
  intros [(-> & _)|(c & c' & _ & _ & _ & _ & ->)] Hx; [done|]. unfold EndProcess in Hx. simpl in Hx.
  by destruct (executor_ h).
Qed.

Lemma side_log h ts d t u : side_ok (mkSide h ts d t) → finishes u = 0%nat → side_ok (mkSide h ts d (t ++ u)).
Proof.
  intros (H1 & H2 & H3 & H4 & H6 & H5) Hu. unfold side_ok. simpl in *. rewrite tally_app, Hu, Nat.add_0_r. auto 6.
Qed.

(** An answer, whoever gives it. *)
Lemma side_answered h ts d t u id h' : side_ok (mkSide h ts d t) → answered_post h id h' u →
  side_ok (mkSide h' ts d (t ++ u)).
Proof.
  intros (H1 & H2 & H3 & H4 & H6 & H5) Ha. unfold side_ok in *. simpl in *. rewrite (answered_dom _ _ _ _ Ha).
  split; [done|]. split; [intros i p Hp; eapply ok_answered; eauto|]. split; [|split; [|split; [done|]]].
  - intros Hd x' Hx'. destruct (answered_executor _ _ _ _ _ Ha Hx') as (x & Hx & ->). eauto.
  - intros Hn. apply H4. by eapply answered_alive.
  - rewrite tally_app. destruct (answered_size _ _ _ _ Ha) as [E|[E1 E2]]; lia.
Qed.

(** The answered command needs no more; what a thread is about changes for one
    command. *)
Lemma side_thread h ts d t id p p' : side_ok (mkSide h ts d t) → ts !! id = Some p →
  p' ≠ PEnd SUCCESS → command_ok h d id p' → side_ok (mkSide h (<[id := p']> ts) d t).
Proof.
  intros (H1 & H2 & H3 & H4 & H6 & H5) Hp Hne Hok. unfold side_ok. simpl in *. split.
  { rewrite dom_insert_lookup_L by eauto. done. }
  split; [|repeat split; try done; intros i Hi; apply lookup_insert_Some in Hi as [[_ Hi]|[_ Hi]]; [done|by apply (H6 i)]]. intros i q Hq. apply lookup_insert_Some in Hq as [[<- <-]|[_ Hq]]; eauto.
Qed.

Lemma ok_weaker h d id p p' : (waits p' → waits p) → (handed p' → handed p) → command_ok h d id p → command_ok h d id p'.
Proof. intros H1 H2 H c Hc Hf. destruct (H c Hc Hf). split; auto. Qed.

Lemma ok_finished h d id p : (∀ c, commands h !! id = Some c → isFinished_ c = true) → command_ok h d id p.
Proof. intros H c Hc Hf. rewrite (H c Hc) in Hf. done. Qed.

Lemma New_post h k scheduleId attributes messenger :
  leaves (NewCommand h k scheduleId attributes messenger) (λ '(h', oid) u, finishes u = 0%nat ∧
    ∀ id, oid = Some id → (id ∉ dom (commands h)) ∧ (∃ c, isFinished_ c = false ∧ h' = set_command h id c)).
Proof.
  unfold NewCommand.
  eapply leaves_bind; [by apply (@leaves_call _ fw_answer (Alloc "Command") (λ _ u, finishes u = 0%nat))|].
  intros ok u Hu. case_decide; [|by apply leaves_ret; rewrite app_nil_r].
  eapply leaves_bind; [by apply (@leaves_call _ fw_answer (Alloc "Attributes") (λ _ u, finishes u = 0%nat))|].
  intros copied v Hv. apply leaves_ret. rewrite app_nil_r, tally_app, Hu, Hv. split; [done|]. intros id [= <-].
  split; [exact (is_fresh (dom (commands h)))|]. by eexists; split; [|reflexivity].
Qed.

Lemma side_new h ts d t u id c : side_ok (mkSide h ts d t) → finishes u = 0%nat → id ∉ dom (commands h) →
  isFinished_ c = false → side_ok (mkSide (set_command h id c) (<[id := PAdd]> ts) d (t ++ u)).
Proof.
  intros (H1 & H2 & H3 & H4 & H6 & H5) Hu Hid Hc. unfold side_ok. simpl in *.
  split; [by rewrite !dom_insert_L, H1|]. split; [|split; [done|split; [done|split]]].
  - intros i p Hp. apply lookup_insert_Some in Hp as [[<- <-]|[Hne Hp]]; [by intros c0 _ _|].
    intros c0 Hc0. simpl in Hc0. rewrite lookup_insert_ne in Hc0 by done. by apply H2.
  - intros i Hi. apply lookup_insert_Some in Hi as [[_ Hi]|[_ Hi]]; [done|by apply (H6 i)].
  - rewrite tally_app, Hu. unfold answered in *. rewrite map_filter_insert_False by (simpl; by rewrite Hc).
    rewrite delete_id by by apply not_elem_of_dom. lia.
Qed.

Lemma side_add h ts d t id h' : side_ok (mkSide h ts d t) → ts !! id = Some PAdd → start_add h id = Some h' →
  side_ok (mkSide h' (<[id := PGet]> ts) d t).
Proof.
  intros H Hp E. unfold start_add in E. destruct (executor_ h) as [x|] eqn:Hx; [|done]. injection E as <-.
  apply (side_thread _ _ _ _ _ PAdd); [|done|done|].
  - destruct H as (H1 & H2 & H3 & H4 & H6 & H5). unfold side_ok. simpl in *. split; [done|]. split; [|split; [|done]].
    + intros i p Hi c Hc Hf. destruct (H2 i p Hi c Hc Hf) as [K1 K2]. split; [|done]. intros Hw x' [= <-]. simpl.
      specialize (K1 Hw x Hx). set_solver.
    + intros Hd x' [= <-]. exact (H3 Hd x Hx).
  - intros c _ _. split; [|done]. intros _ x' [= <-]. simpl. set_solver.
Qed.

Lemma side_get h ts d t id : side_ok (mkSide h ts d t) → ts !! id = Some PGet →
  side_ok (mkSide h (<[id := PSend (start_get h)]> ts) d t).
Proof.
  intros H Hp. apply (side_thread _ _ _ _ _ PGet); [done|done|done|]. destruct H as (H1 & H2 & H3 & H4 & H6 & H5). simpl in *.
  intros c Hc Hf. destruct (H2 id PGet Hp c Hc Hf) as [K1 _]. split; [auto|]. unfold start_get, handed.
  destruct (executor_ h) as [x|] eqn:Hx; [|done]. destruct (GetExecutorHdi x) eqn:Hg; [|done]. intros _.
  destruct (decide (d = DIdle)) as [->|Hd]; [done|]. unfold GetExecutorHdi in Hg. by rewrite (H3 Hd x eq_refl) in Hg.
Qed.

Lemma side_end h ts d t id ret : side_ok (mkSide h ts d t) → ts !! id = Some (PEnd ret) →
  side_ok (mkSide (EndProcess h id) (<[id := PDone ret]> ts) d t).
Proof.
  intros (H1 & H2 & H3 & H4 & H6 & H5) Hp. unfold side_ok. simpl in *.
  assert (ret ≠ SUCCESS) as Hr by (intros ->; by apply (H6 id)).
  split; [by rewrite dom_insert_lookup_L by eauto|]. split; [|split; [|split; [|split; [|done]]]].
  - intros i p Hi c Hc Hf. apply lookup_insert_Some in Hi as [[<- <-]|[Hne Hi]]; [done|].
    destruct (H2 i p Hi c Hc Hf) as [K1 K2]. split; [|done]. intros Hw x Hx. simpl in Hx.
    destruct (executor_ h) as [x0|]; [|done]. injection Hx as <-. simpl. specialize (K1 Hw x0 eq_refl). set_solver.
  - intros Hd x Hx. destruct (executor_ h) as [x0|]; [|done]. injection Hx as <-. exact (H3 Hd x0 eq_refl).
  - intros Hx. apply H4. by destruct (executor_ h).
  - intros i Hi. apply lookup_insert_Some in Hi as [[_ [=]]|[_ Hi]]; by apply (H6 i).
Qed.

Lemma answered_known h id h' u : answered_post h id h' u → ∀ c, commands h' !! id = Some c → isFinished_ c = true.
Proof.
  intros [(-> & _ & H)|(c & c' & Hc & Hf & Hf' & _ & ->)] c0 Hc0; [by apply H|]. simpl in Hc0.
  rewrite lookup_insert_eq in Hc0. by simplify_eq.
Qed.

Lemma side_send o h ts d t id hdi h' ret t' : side_ok (mkSide h ts d t) → ts !! id = Some (PSend hdi) →
  run o (start_send h id hdi) t = ((h', ret), t') →
  side_ok (mkSide h' (<[id := if decide (ret = SUCCESS) then PDone SUCCESS else PEnd ret]> ts) d t').
Proof.
  intros H Hp E. destruct (leaves_run o _ _ _ _ _ (leaves_send h id hdi) E) as (u & -> & Hh & Hpost).
  assert (handed (if decide (ret = SUCCESS) then PDone SUCCESS else PEnd ret) → hdi = true) as Hd.
  { case_decide; [|done]. intros _. destruct hdi; [done|]. by destruct Hh as [-> _]. }
  assert ((if decide (ret = SUCCESS) then PDone SUCCESS else PEnd ret) ≠ PEnd SUCCESS) as Hne.
  { case_decide; [done|]. congruence. }
  destruct Hpost as [[-> Hu]|Hpost].
  - apply (side_thread _ _ _ _ _ (PSend hdi)); [| done|done|].
    + by apply side_log.
    + destruct H as (_ & H2 & _). apply (ok_weaker _ _ _ (PSend hdi)); [done|by intros ->%Hd|by apply H2].
  - apply (side_thread _ _ _ _ _ (PSend hdi)); [by eapply side_answered|done|done|].
    apply ok_finished. by eapply answered_known.
Qed.

Lemma side_break h ts t : side_ok (mkSide h ts DIdle t) → side_ok (mkSide (disconnect_hdi h) ts DNull t).
Proof.
  intros (H1 & H2 & H3 & H4 & H6 & H5). unfold side_ok. simpl in *. split; [done|]. split; [|split; [|split; [|done]]].
  - intros i p Hi c Hc Hf. destruct (H2 i p Hi c Hc Hf) as [K1 K2]. split; [|done]. intros Hw x Hx. simpl in Hx.
    destruct (executor_ h) as [x0|]; [|done]. injection Hx as <-. exact (K1 Hw x0 eq_refl).
  - intros _ x Hx. destruct (executor_ h); [|done]. by injection Hx as <-.
  - intros Hx. destruct (executor_ h); [done|]. by specialize (H4 eq_refl).
Qed.

Lemma handed_waits p : handed p → waits p.
Proof. by destruct p as [| |[]| |]. Qed.

Lemma side_copy h ts t x : side_ok (mkSide h ts DNull t) → executor_ h = Some x →
  side_ok (mkSide h ts (DNotify (elements (command2Respond_ x))) t).
Proof.
  intros (H1 & H2 & H3 & H4 & H6 & H5) Hx. unfold side_ok. simpl in *. split; [done|]. split; [|split; [|split; [|done]]].
  - intros i p Hi c Hc Hf. destruct (H2 i p Hi c Hc Hf) as [K1 K2]. split; [done|]. intros Hh. simpl.
    apply elem_of_elements, K1; [by apply handed_waits|done].
  - intros _. by apply H3.
  - intros Hn. by rewrite Hx in Hn.
Qed.

Lemma side_notify h ts t u id todo h' : side_ok (mkSide h ts (DNotify (id :: todo)) t) → answered_post h id h' u →
  side_ok (mkSide h' ts (DNotify todo) (t ++ u)).
Proof.
  intros H Ha. destruct (side_answered _ _ _ _ _ _ _ H Ha) as (H1 & H2 & H3 & H4 & H6 & H5).
  unfold side_ok. simpl in *. split; [done|]. split; [|split; [|split; [|done]]].
  - intros i p Hi c Hc Hf. destruct (H2 i p Hi c Hc Hf) as [K1 K2]. split; [done|]. intros Hh.
    specialize (K2 Hh). simpl in *. apply elem_of_cons in K2 as [->|K2]; [|done].
    by rewrite (answered_known _ _ _ _ Ha c Hc) in Hf.
  - intros _. by apply H3.
  - intros Hn. by specialize (H4 Hn).
Qed.

Lemma step_side o s s' : side_step o s s' → side_ok s → side_ok s'.
Proof.
  intros Hst H. destruct Hst as [h ts d t k sid a m h' id t' E|h ts d t id h' Hp E|h ts d t id Hp E|h ts d t id Hp|
    h ts d t id hdi h' ret t' Hp E|h ts d t id ret Hp|h ts d t id code e h' t' E|h ts d t id acq e t' E|h ts t|
    h ts t x Hx|h ts t id todo h' t' E|h ts t|h ts t].
  - destruct (leaves_run o _ _ _ _ _ (New_post _ _ _ _ _) E) as (u & -> & Hu & Hn).
    destruct (Hn id eq_refl) as (Hid & c & Hc & ->). by apply side_new.
  - by eapply side_add.
  - apply (side_thread _ _ _ _ _ PAdd); done.
  - by apply side_get.
  - by eapply side_send.
  - by apply side_end.
  - destruct (leaves_run o _ _ _ _ _ (leaves_OnResult _ _ _ _) E) as (u & -> & Hu). by eapply side_answered.
  - assert (leaves (OnAcquireInfo h id acq e) (λ _ u, finishes u = 0%nat)) as Hm.
    { apply leaves_quiet; [|done]. unfold OnAcquireInfo, OnAcquireInfoInner, MessengerSendData.
      repeat first [step | case_match; try done | done]. }
    destruct (leaves_run o _ _ _ _ _ Hm E) as (u & -> & Hu).
    by apply side_log.
  - by apply side_break.
  - by apply side_copy.
  - destruct (leaves_run o _ _ _ _ _ (leaves_OnResult _ _ _ _) E) as (u & -> & Hu). by eapply side_notify.
  - destruct H as (H1 & H2 & H3 & H4 & H6 & H5). unfold side_ok. simpl in *. split; [done|].
    split; [|split; [intros _; by apply H3|auto]].
    intros i p Hi c Hc Hf. destruct (H2 i p Hi c Hc Hf) as [K1 K2]. split; [done|]. intros Hh.
    specialize (K2 Hh). simpl in K2. by apply not_elem_of_nil in K2.
  - destruct H as (H1 & H2 & H3 & H4 & H6 & H5). unfold side_ok. simpl in *. split; [done|]. split; [|auto].
    + intros i p Hi c Hc Hf. destruct (H2 i p Hi c Hc Hf) as [K1 K2]. by split.
    + by repeat split.
Qed.

Lemma reach_side o x s : rtc (side_step o) (side_born x) s → side_ok s.
Proof.
  intros Hr. assert (side_ok (side_born x)) as H.
  { unfold side_ok. simpl. repeat split; try done. }
  revert H. induction Hr; [done|]. eauto using step_side.
Qed.

(** C13: when the handling of a broken connection is over, every command that
    was started has been answered, however starting threads, answers of the
    driver and the break interleave; before that, a command that waits is in the
    set that the handling goes through; and the services are told at most one
    result per answered command. *)
Theorem no_command_lost o x s : rtc (side_step o) (side_born x) s →
  (finishes (log s) ≤ size (answered (commands (host s))))%nat ∧
  ∀ id c, commands (host s) !! id = Some c → threads s !! id = Some (PDone SUCCESS) →
    isFinished_ c = true ∨
    (disc s ≠ DDone ∧ ∃ x, executor_ (host s) = Some x ∧ id ∈ command2Respond_ x).
Proof.
  intros (H1 & H2 & H3 & H4 & H6 & H5)%reach_side. split; [done|]. intros id c Hc Hp.
  destruct (isFinished_ c) eqn:Hf; [by left|right]. destruct (H2 id _ Hp c Hc Hf) as [K1 K2].
  assert (disc s ≠ DDone) as Hd by (intros E; specialize (K2 eq_refl); by rewrite E in K2). split; [done|].
  destruct (executor_ (host s)) as [y|] eqn:Hy; [|by destruct Hd; auto]. exists y. split; [done|]. by apply K1.
Qed.

Definition demo_command : Attributes :=
  (set_all Attributes_new [
    (λ a, SetUint32Value a ATTR_ACCESS_TOKEN_ID 1);
    (λ a, SetUint8ArrayValue a ATTR_EXTRA_INFO [Byte.x01]);
    (λ a, SetInt32Value a ATTR_USER_ID 100)]).1.
Definition demo_executor : Executor := mkExecutor true ∅ true 1 1 PIN ALL_IN_ONE (Some 5).

(** A command is sent while the connection breaks. *)
Lemma no_command_lost_witness : ∃ s, rtc (side_step fw_world) (side_born demo_executor) s ∧ disc s = DDone ∧
  (∃ id c, commands (host s) !! id = Some c ∧ threads s !! id = Some (PDone SUCCESS) ∧ isFinished_ c = true).
Proof.
  eassert (rtc (side_step fw_world) (side_born demo_executor) _) as Hr.
  { eapply rtc_l; [eapply (s_new _ _ _ _ _ KEnroll 9 demo_command true); vm_compute; reflexivity|].
    eapply rtc_l; [eapply (s_add _ _ _ _ _ 0); vm_compute; reflexivity|].
    eapply rtc_l; [eapply (s_get _ _ _ _ _ 0); vm_compute; reflexivity|].
    eapply rtc_l; [eapply s_break|].
    eapply rtc_l; [eapply s_copy; vm_compute; reflexivity|].
    eapply rtc_l; [eapply (s_send _ _ _ _ _ 0 true); vm_compute; reflexivity|].
    eapply rtc_l; [eapply s_notify; vm_compute; reflexivity|].
    eapply rtc_l; [eapply s_notified|]. apply rtc_refl. }
  destruct (no_command_lost fw_world demo_executor _ Hr) as [_ H]. eexists. split; [exact Hr|]. split; [done|].
  eexists 0, _. split; [by vm_compute|]. split; [by vm_compute|].
  edestruct (H 0) as [H0|[H0 _]]; [by vm_compute|by vm_compute|exact H0|by destruct H0].
Defined.
