(* ===== verification/Driver.v ===== *)
(** * Drivers and the registration of their executors

    Models driver.cpp, driver_manager.cpp and the two listeners of the executor
    framework (listener/*.cpp): a driver has a list of executors while its
    service runs, and they are registered with the authentication service while
    that is ready. The functions hold [mutex_] of the driver; the retry timer
    and the listeners call them from outside.

    [driver_registrations] says that executors are registered when they should
    be, and that no registration is left behind. *)

From S2P Require Import Prelude Defines Interaction ServiceTypes Attributes ExecutorSide AsyncCommand FrameworkCallback.

(* @file D = src/frameworks/native/executors/src/driver.cpp *)
(* @file DH = src/frameworks/native/executors/include/driver.h *)
(* @file M = src/frameworks/native/executors/src/driver_manager.cpp *)
(* @file R = src/frameworks/native/executors/src/listener/framework_ready_listener.cpp *)
(* @file L = src/frameworks/native/executors/src/listener/device_manager_listener.cpp *)

(** [frameworkReadyListener_] is the timer of the listener, when it exists. *)
(* @src DH:49-56 Driver *)
Record Driver := mkDriver {
  hdiConnected_ : bool;
  isFwkReady_ : bool;
  executorList_ : list Host;
  serviceName_ : bytes;
  driverId_ : Z;
  frameworkReadyListener_ : option (option Z);
}.
Implicit Types d : Driver.

(* @src D Driver::Driver *)
Definition Driver_new (serviceName : bytes) (id : Z) : Driver := mkDriver false false [] serviceName id None.

Section Updates.
Context (d : Driver).
Definition set_connected (b : bool) : Driver :=
  mkDriver b (isFwkReady_ d) (executorList_ d) (serviceName_ d) (driverId_ d) (frameworkReadyListener_ d).
Definition set_ready (b : bool) : Driver :=
  mkDriver (hdiConnected_ d) b (executorList_ d) (serviceName_ d) (driverId_ d) (frameworkReadyListener_ d).
Definition set_list (l : list Host) : Driver :=
  mkDriver (hdiConnected_ d) (isFwkReady_ d) l (serviceName_ d) (driverId_ d) (frameworkReadyListener_ d).
Definition set_listener (l : option (option Z)) : Driver :=
  mkDriver (hdiConnected_ d) (isFwkReady_ d) (executorList_ d) (serviceName_ d) (driverId_ d) l.
End Updates.

(** ** The listener for the framework *)

(* @src R FrameworkReadyListener::StopTimer *)
Definition StopTimer d : fwk Driver :=
  match frameworkReadyListener_ d with
  | Some (Some timerId) => call (UnregisterRetryTimer timerId);; mret (set_listener d (Some None))
  | _ => mret d
  end.

(* @src R:121-121 RETRY_CHECK_INTERVAL *)
Definition RETRY_CHECK_INTERVAL : Z := 20000.

(* @src R FrameworkReadyListener::EnsureRegisterExecutors *)
Definition EnsureRegisterExecutors d : fwk Driver :=
  match frameworkReadyListener_ d with
  | Some None =>
    timerId ← call (RegisterRetryTimer RETRY_CHECK_INTERVAL);
    mret (set_listener d (Some (Some timerId)))
  | _ => mret d
  end.

(** ** The driver *)

Definition register_host (h : Host) : fwk Host :=
  match executor_ h with
  | None => mret h
  | Some x => x ← Register x; mret (set_executor h (Some x))
  end.

(** [f] on each element, in order. *)
Fixpoint map_each {A B} (f : A → fwk B) (l : list A) : fwk (list B) :=
  match l with
  | [] => mret []
  | x :: l => y ← f x; ys ← map_each f l; mret (y :: ys)
  end.

(* @src D Driver::RegisterExecutors *)
Definition RegisterExecutors d : fwk Driver :=
  l ← map_each register_host (executorList_ d);
  mret (set_list d l).

(** Empty pointers are skipped, and executors that cannot be made. *)
Definition new_executors (id : Z) (executorHdiList : list (option Z)) : fwk (list Host) :=
  for_each (λ l executorHdi,
    match executorHdi with
    | None => mret l
    | Some hdi =>
      ok ← call (Alloc "Executor");
      CHECK ok = true ELSE mret l ;;
      x ← Executor_new hdi id;
      mret (l ++ [mkHost (Some x) false ∅])
    end) [] executorHdiList.

(* @src D Driver::OnHdiConnect *)
Definition OnHdiConnect d : fwk Driver :=
  WHEN hdiConnected_ d = true RETURN mret d ;;
  executorHdiList ← call DriverGetExecutorList;
  WHEN executorHdiList = [] RETURN mret d ;;
  executorMgrWrapper ← call (Alloc "ExecutorMgrWrapper");
  CHECK executorMgrWrapper = true ELSE mret d ;;
  let d := set_connected d true in
  added ← new_executors (driverId_ d) executorHdiList;
  let d := set_list d (executorList_ d ++ added) in
  if isFwkReady_ d then RegisterExecutors d else EnsureRegisterExecutors d.

(* @src D Driver::OnHdiDisconnect *)
Definition OnHdiDisconnect d : fwk Driver :=
  let d := set_connected d false in
  map_each Executor_OnHdiDisconnect (executorList_ d);;
  call DriverOnHdiDisconnect;;
  mret (set_list d []).

(* @src D Driver::OnFrameworkReady *)
Definition OnFrameworkReady d : fwk Driver :=
  d ← StopTimer d;
  WHEN isFwkReady_ d = true RETURN mret d ;;
  let d := set_ready d true in
  CHECK hdiConnected_ d = true ELSE mret d ;;
  RegisterExecutors d.

(* @src D Driver::OnFrameworkDown *)
Definition OnFrameworkDown d : fwk Driver :=
  d ← StopTimer d;
  CHECK isFwkReady_ d = true ELSE mret d ;;
  call DriverOnFrameworkDown;;
  mret (set_ready d false).

(* @src D Driver::SubscribeFrameworkReadyListener *)
Definition SubscribeFrameworkReadyListener d : fwk Driver :=
  ok ← call (Alloc "FrameworkReadyListener");
  CHECK ok = true ELSE mret (set_listener d None) ;;
  let d := set_listener d (Some None) in
  isFwkReady ← call FwkReadyParam;
  if (isFwkReady : bool) then OnFrameworkReady d else mret d.

(* @src D Driver::Init *)
Definition Init d : fwk Driver :=
  call (Alloc "DeviceManagerListener");;
  SubscribeFrameworkReadyListener d.

(* @src R:124-133 FrameworkReadyListener::EnsureRegisterExecutors *)
Definition retry_timer d : fwk Driver :=
  ready ← call FwkReadyParam;
  if (ready : bool) then OnFrameworkReady d else mret d.

(** The parameter of the framework changed; anything but "true" means down. *)
(* @src R:63-77 FrameworkReadyListener::SubscribeParameterWatcher *)
Definition parameter_changed d (isFrameworkKey isTrue : bool) : fwk Driver :=
  CHECK isFrameworkKey = true ELSE mret d ;;
  if isTrue then OnFrameworkReady d else OnFrameworkDown d.

Inductive ServiceStatus := SERVIE_STATUS_START | SERVIE_STATUS_STOP | SERVIE_STATUS_OTHER.

(* @src L:76-98 DeviceManagerListener::OnStart *)
Definition service_status d (serviceName : bytes) (status : ServiceStatus) : fwk Driver :=
  CHECK serviceName = serviceName_ d ELSE mret d ;;
  match status with
  | SERVIE_STATUS_START => OnHdiConnect d
  | SERVIE_STATUS_STOP => OnHdiDisconnect d
  | SERVIE_STATUS_OTHER => mret d
  end.

(** ** The manager of the drivers *)

(** A configuration: the name of the service, the id, whether there is a driver. *)
(* @src M DriverManager::HdiConfigIsValid *)
Fixpoint HdiConfigIsValid_from (idSet : gset Z) (hdiName2Config : list (bytes * Z * bool)) : bool :=
  match hdiName2Config with
  | [] => true
  | (_, id, driver) :: l =>
    WHEN id ∈ idSet RETURN false ;;
    WHEN driver = false RETURN false ;;
    HdiConfigIsValid_from ({[id]} ∪ idSet) l
  end.
Definition HdiConfigIsValid (hdiName2Config : list (bytes * Z * bool)) : bool := HdiConfigIsValid_from ∅ hdiName2Config.

(** The manager's drivers by the names of their services. *)
(* @src M DriverManager::Start *)
Definition Start (serviceName2Driver : gmap bytes Driver) (hdiName2Config : list (bytes * Z * bool)) (hasHdi : bool) :
    fwk (gmap bytes Driver * Z) :=
  CHECK HdiConfigIsValid hdiName2Config = true ELSE mret (serviceName2Driver, USERAUTH_ERROR) ;;
  servMgr ← call GetServiceManager;
  CHECK servMgr = true ELSE mret (serviceName2Driver, USERAUTH_ERROR) ;;
  m ← for_each (λ m '(hdiName, id, _),
    ok ← call (Alloc "Driver");
    CHECK ok = true ELSE mret m ;;
    WHEN is_Some (m !! hdiName) RETURN mret m ;;
    d ← Init (Driver_new hdiName id);
    connect ← (if hasHdi then call (GetHdiService hdiName) else mret true);
    d ← (if (connect : bool) then OnHdiConnect d else mret d);
    mret (<[hdiName := d]> m)) serviceName2Driver hdiName2Config;
  mret (m, USERAUTH_SUCCESS).

(** ** Registrations *)

(** The authentication service gave an index, or took one back. *)
Definition is_registered (e : event fw_answer) : bool :=
  match e with existT q r =>
    match q return fw_answer q → bool with
    | MgrRegister _ => λ i, bool_decide (i ≠ INVALID_EXECUTOR_INDEX) | _ => λ _, false end r
  end.
Definition is_unregistered (e : event fw_answer) : bool := match asked e with MgrUnregister _ => true | _ => false end.

(** Something that a registration needs failed. *)
Definition is_trouble (e : event fw_answer) : bool :=
  match e with existT q r =>
    match q return fw_answer q → bool with
    | MgrRegister _ => λ i, bool_decide (i = INVALID_EXECUTOR_INDEX)
    | Alloc _ => negb
    | HdiGetExecutorInfo _ => λ a, bool_decide (a.1 ≠ SUCCESS)
    | _ => λ _, false
    end r
  end.

Abbreviation given t := (tally is_registered t).
Abbreviation returned t := (tally is_unregistered t).
Abbreviation troubles t := (tally is_trouble t).

(** How many indexes an executor holds. *)
Definition held (h : Host) : nat :=
  match executor_ h with Some x => match executorIndex_ x with Some _ => 1 | None => 0 end | None => 0 end.
Definition usable (h : Host) : Prop := ∃ x, executor_ h = Some x ∧ executorHdi_ x = true.
Definition all_held (l : list Host) : nat := sum_list_with held l.

(** From [n] to [n'] indexes held. *)
Definition balanced (n n' : nat) (u : fw_trace) : Prop := (n + given u = n' + returned u)%nat.

Lemma balanced_app n n' n2 u v : balanced n n' u → balanced n' n2 v → balanced n n2 (u ++ v).
Proof. unfold balanced. rewrite !tally_app. lia. Qed.

Definition is_plain (q : fw) : bool :=
  match q with MgrRegister _ | MgrUnregister _ => false | _ => true end.

Lemma plain_counts u : Forall (λ e, is_plain (asked e) = true) u → given u = 0%nat ∧ returned u = 0%nat.
Proof.
  induction 1 as [|e u He _ [IH1 IH2]]; [done|]. unfold tally in *. rewrite !filter_cons.
  rewrite !decide_False; [auto|by destruct e as [[] ?]..].
Qed.

(** Neither gives nor takes an index. *)
Lemma leaves_plain {A} (m : fwk A) (P : A → fw_trace → Prop) :
  only is_plain m → (∀ a u, given u = 0%nat → returned u = 0%nat → P a u) → leaves m P.
Proof. intros Hm HP. eapply leaves_only; [exact Hm|]. intros a u [H1 H2]%plain_counts. auto. Qed.

Definition index_held (x : Executor) : nat := match executorIndex_ x with Some _ => 1 | None => 0 end.

Lemma leaves_Unregister x : leaves (UnregisterExecutorCallback x) (λ x' u,
  balanced (index_held x) 0 u ∧ x' = set_index x None ∧ troubles u = 0%nat).
Proof.
  unfold UnregisterExecutorCallback, index_held, balanced. destruct (executorIndex_ x) as [i|] eqn:E.
  - eapply leaves_bind; [by apply (@leaves_call _ fw_answer (MgrUnregister i) (λ _ u,
      given u = 0%nat ∧ returned u = 1%nat ∧ troubles u = 0%nat))|].
    intros _ u (H1 & H2 & H3). apply leaves_ret. rewrite app_nil_r. repeat split; [lia|done].
  - apply leaves_ret. repeat split. destruct x; simpl in *; by subst.
Qed.

Lemma leaves_MgrRegister info : leaves (call (MgrRegister info)) (λ i u, returned u = 0%nat ∧
  given u = (if decide (i = INVALID_EXECUTOR_INDEX) then 0 else 1)%nat ∧ (troubles u = 0%nat → i ≠ INVALID_EXECUTOR_INDEX)).
Proof.
  apply (@leaves_call _ fw_answer (MgrRegister info)). intros i. rewrite !tally_one. simpl.
  repeat case_bool_decide; case_decide; done.
Qed.

Lemma leaves_RegisterCallback x info : leaves (RegisterExecutorCallback x info) (λ x' u,
  balanced (index_held x) (index_held x') u ∧ executorHdi_ x' = executorHdi_ x ∧
  (troubles u = 0%nat → index_held x' = 1%nat)).
Proof.
  unfold RegisterExecutorCallback.
  eapply (leaves_bind _ _ (λ ok u, given u = 0%nat ∧ returned u = 0%nat ∧ (troubles u = 0%nat → ok = true))).
  { destruct (executorCallback_ x); [by apply leaves_ret|]. apply (@leaves_call _ fw_answer (Alloc _)). by intros []. }
  intros ok u (Hu1 & Hu2 & Hu3). case_decide as Hok.
  2:{ apply leaves_ret. rewrite app_nil_r. unfold balanced. repeat split; [lia|]. intros Ht. by destruct Hok; auto. }
  eapply leaves_bind; [apply leaves_Unregister|]. intros x1 v (Hv & -> & Hv3).
  eapply leaves_bind; [apply leaves_MgrRegister|]. intros i w (Hw1 & Hw2 & Hw3). unfold balanced in *.
  destruct (decide (i = INVALID_EXECUTOR_INDEX)) as [Hi|Hi].
  - rewrite decide_True in Hw2 by done. rewrite decide_False by auto. apply leaves_ret. rewrite app_nil_r, !tally_app.
    unfold index_held in *. simpl in *. repeat split; [lia|]. intros Ht. destruct Hw3; [lia|done].
  - rewrite decide_False in Hw2 by done. rewrite decide_True by auto. apply leaves_ret. rewrite app_nil_r, !tally_app.
    unfold index_held in *. simpl in *. repeat split. lia.
Qed.

Lemma leaves_Register x : leaves (Register x) (λ x' u,
  balanced (index_held x) (index_held x') u ∧ executorHdi_ x' = executorHdi_ x ∧
  (troubles u = 0%nat → executorHdi_ x = true → index_held x' = 1%nat)).
Proof.
  unfold Register, GetExecutorHdi. case_decide as Hh; [|apply leaves_ret; repeat split; done].
  eapply (leaves_bind _ _ (λ a u, given u = 0%nat ∧ returned u = 0%nat ∧ (troubles u = 0%nat → a.1 = SUCCESS))).
  { apply (@leaves_call _ fw_answer (HdiGetExecutorInfo _)). intros [ret info]. rewrite !tally_one. simpl.
    case_bool_decide as Hr; repeat split; [done|]. intros _. simpl. destruct (decide (ret = SUCCESS)); [done|by destruct Hr]. }
  intros [ret info] u (Hu1 & Hu2 & Hu3). unfold balanced in *. case_decide as Hr.
  - eapply leaves_mono; [apply leaves_RegisterCallback|]. intros x' v (Hv1 & Hv2 & Hv3). unfold balanced in *.
    rewrite !tally_app. repeat split; [lia|done|]. intros. apply Hv3. lia.
  - apply leaves_ret. rewrite app_nil_r. repeat split; [lia|]. intros Ht. by destruct Hr; auto.
Qed.

Lemma leaves_register_host h : leaves (register_host h) (λ h' u, balanced (held h) (held h') u ∧
  (usable h → usable h' ∧ (troubles u = 0%nat → held h' = 1%nat))).
Proof.
  unfold register_host, held, usable. destruct (executor_ h) as [x|] eqn:E.
  - eapply leaves_bind; [apply leaves_Register|]. intros x' u (H1 & H2 & H3). apply leaves_ret. simpl. rewrite app_nil_r.
    split; [done|]. intros (x0 & [= <-] & Hx). split; [|auto]. exists x'. by rewrite H2.
  - apply leaves_ret. rewrite E. split; [done|]. by intros (? & ? & _).
Qed.

Lemma leaves_register_all l : leaves (map_each register_host l) (λ l' u, balanced (all_held l) (all_held l') u ∧
  (Forall usable l → Forall usable l' ∧ (troubles u = 0%nat → Forall (λ h, held h = 1%nat) l'))).
Proof.
  induction l as [|h l IH]; simpl; [apply leaves_ret; repeat split; auto|].
  eapply leaves_bind; [apply leaves_register_host|]. intros h' u (Hu1 & Hu2).
  eapply leaves_bind; [apply IH|]. intros l' v (Hv1 & Hv2). apply leaves_ret. rewrite app_nil_r.
  unfold balanced in *. rewrite !tally_app. simpl. split; [lia|]. intros [Hh Hl]%Forall_cons.
  destruct (Hu2 Hh) as [K1 K2]. destruct (Hv2 Hl) as [K3 K4]. split; [by constructor|]. intros Ht.
  constructor; [apply K2; lia|apply K4; lia].
Qed.

(** What a function does to the driver. *)
Definition driver_inv d (t : fw_trace) : Prop :=
  (given t = all_held (executorList_ d) + returned t)%nat ∧
  Forall usable (executorList_ d) ∧
  (hdiConnected_ d = false → executorList_ d = []) ∧
  (troubles t = 0%nat → hdiConnected_ d = true → isFwkReady_ d = true → Forall (λ h, held h = 1%nat) (executorList_ d)).

Definition keeps (m : fwk Driver) (t : fw_trace) : Prop := leaves m (λ d' u, driver_inv d' (t ++ u)).

(** Calls that do not matter. *)
Definition is_idle (q : fw) : bool :=
  match q with MgrRegister _ | MgrUnregister _ | Alloc _ | HdiGetExecutorInfo _ => false | _ => true end.

Lemma idle_counts u : Forall (λ e, is_idle (asked e) = true) u →
  given u = 0%nat ∧ returned u = 0%nat ∧ troubles u = 0%nat.
Proof.
  induction 1 as [|e u He _ (IH1 & IH2 & IH3)]; [done|]. unfold tally in *. rewrite !filter_cons.
  rewrite !decide_False; [auto|by destruct e as [[] ?]..].
Qed.

Lemma driver_inv_idle d t u : Forall (λ e, is_idle (asked e) = true) u → driver_inv d t → driver_inv d (t ++ u).
Proof.
  intros (E1 & E2 & E3)%idle_counts (H1 & H2 & H3 & H4). unfold driver_inv. rewrite !tally_app, E1, E2, E3.
  rewrite !Nat.add_0_r. auto.
Qed.

Lemma keeps_idle_bind {A} (m : fwk A) (k : A → fwk Driver) (t : fw_trace) :
  only is_idle m → (∀ a u, Forall (λ e, is_idle (asked e) = true) u → keeps (k a) (t ++ u)) → keeps (m ≫= k) t.
Proof.
  intros Hm Hk. unfold keeps in *. eapply leaves_bind; [eapply leaves_only; [exact Hm|intros a u Hu; exact Hu]|].
  intros a u Hu. eapply leaves_mono; [exact (Hk a u Hu)|]. intros d v. cbv beta. by rewrite <- app_assoc.
Qed.

Lemma keeps_ret d t : driver_inv d t → keeps (mret d) t.
Proof. intros H. apply (leaves_ret d (λ d' u, driver_inv d' (t ++ u))). by rewrite app_nil_r. Qed.

Lemma leaves_StopTimer d : leaves (StopTimer d) (λ d' u,
  (∃ l, d' = set_listener d l) ∧ Forall (λ e, is_idle (asked e) = true) u).
Proof.
  assert (d = set_listener d (frameworkReadyListener_ d)) as Hd by by destruct d.
  unfold StopTimer. destruct (frameworkReadyListener_ d) as [[i|]|]; [|apply leaves_ret; eauto..].
  eapply leaves_bind; [by apply (@leaves_call _ fw_answer (UnregisterRetryTimer i)
    (λ _ u, Forall (λ e, is_idle (asked e) = true) u)); repeat constructor|].
  intros r u Hu. apply leaves_ret. rewrite app_nil_r. eauto.
Qed.

Lemma keeps_StopTimer d t (k : Driver → fwk Driver) :
  driver_inv d t → (∀ l u, driver_inv (set_listener d l) (t ++ u) → keeps (k (set_listener d l)) (t ++ u)) →
  keeps (StopTimer d ≫= k) t.
Proof.
  intros H Hk. unfold keeps. eapply leaves_bind; [apply leaves_StopTimer|]. intros d' u [(l & ->) Hu].
  eapply leaves_mono; [apply (Hk l u); by apply (driver_inv_idle (set_listener d l))|].
  intros d' v. cbv beta. by rewrite <- app_assoc.
Qed.

Lemma keeps_RegisterExecutors d t : (given t = all_held (executorList_ d) + returned t)%nat →
  Forall usable (executorList_ d) → hdiConnected_ d = true → keeps (RegisterExecutors d) t.
Proof.
  intros H1 H2 Hc. unfold RegisterExecutors, keeps. eapply leaves_bind; [apply leaves_register_all|].
  intros l u (Hb & Hu). apply leaves_ret. rewrite app_nil_r. destruct (Hu H2) as [K1 K2].
  unfold driver_inv, balanced in *. simpl. rewrite !tally_app. split; [lia|]. split; [done|].
  split; [by rewrite Hc|]. intros Ht _ _. apply K2. lia.
Qed.

(** New executors hold no index yet. *)
Lemma leaves_new_executors id l : leaves (new_executors id l) (λ l' u,
  given u = 0%nat ∧ returned u = 0%nat ∧ all_held l' = 0%nat ∧ Forall usable l').
Proof.
  unfold new_executors. assert (∀ l0 : list Host, all_held l0 = 0%nat → Forall usable l0 →
    leaves (for_each (λ l executorHdi, match executorHdi with
      | None => mret l
      | Some hdi => ok ← call (Alloc "Executor"); CHECK ok = true ELSE mret l ;;
                    x ← Executor_new hdi id; mret (l ++ [mkHost (Some x) false ∅]) end) l0 l)
      (λ l' u, given u = 0%nat ∧ returned u = 0%nat ∧ all_held l' = 0%nat ∧ Forall usable l')) as Hg; [|by apply Hg].
  induction l as [|o l IH]; intros l0 H0 Hu0; simpl; [by apply leaves_ret|].
  destruct o as [hdi|]; [|apply IH; done].
  eapply (leaves_bind _ _ (λ l' u, given u = 0%nat ∧ returned u = 0%nat ∧ all_held l' = 0%nat ∧ Forall usable l')).
  - eapply leaves_bind; [by apply (@leaves_call _ fw_answer (Alloc "Executor") (λ _ u, given u = 0%nat ∧ returned u = 0%nat))|].
    intros ok u [Hu1 Hu2]. case_decide; [|apply leaves_ret; rewrite app_nil_r; auto].
    eapply (leaves_bind _ _ (λ x u, given u = 0%nat ∧ returned u = 0%nat ∧ executorIndex_ x = None ∧ executorHdi_ x = true)).
    + unfold Executor_new. eapply leaves_bind; [by apply (@leaves_call _ fw_answer (HdiGetExecutorInfo hdi)
        (λ _ u, given u = 0%nat ∧ returned u = 0%nat))|].
      intros [ret info] v [Hv1 Hv2]. case_decide; apply leaves_ret; rewrite app_nil_r; auto.
    + intros x v (Hv1 & Hv2 & Hx1 & Hx2). apply leaves_ret. rewrite app_nil_r, !tally_app, Hu1, Hu2, Hv1, Hv2.
      split; [done|]. split; [done|]. split.
      * unfold all_held in *. rewrite sum_list_with_app, H0. simpl. unfold held. simpl. by rewrite Hx1.
      * apply Forall_app. split; [done|]. constructor; [|done]. exists x. auto.
  - intros l1 u (Hu1 & Hu2 & Hl1 & Hl2). eapply leaves_mono; [by apply IH|]. intros l2 v (Hv1 & Hv2 & Hv3 & Hv4).
    rewrite !tally_app. repeat split; [lia|lia|done|done].
Qed.

Lemma driver_inv_quiet d t u : driver_inv d t → given u = 0%nat → returned u = 0%nat → driver_inv d (t ++ u).
Proof.
  intros (H1 & H2 & H3 & H4) E1 E2. unfold driver_inv. rewrite !tally_app, E1, E2, !Nat.add_0_r.
  repeat split; [done..|]. intros Ht. apply H4. lia.
Qed.

Lemma keeps_after m t u : keeps m (t ++ u) → leaves m (λ d' v, driver_inv d' (t ++ u ++ v)).
Proof. intros H. eapply leaves_mono; [exact H|]. intros d v. cbv beta. by rewrite <- app_assoc. Qed.

Lemma leaves_Ensure d : leaves (EnsureRegisterExecutors d) (λ d' u,
  (∃ l, d' = set_listener d l) ∧ Forall (λ e, is_idle (asked e) = true) u).
Proof.
  assert (d = set_listener d (frameworkReadyListener_ d)) as Hd by by destruct d.
  unfold EnsureRegisterExecutors. destruct (frameworkReadyListener_ d) as [[i|]|]; [by apply leaves_ret; eauto| |by apply leaves_ret; eauto].
  eapply leaves_bind; [by apply (@leaves_call _ fw_answer (RegisterRetryTimer RETRY_CHECK_INTERVAL)
    (λ _ u, Forall (λ e, is_idle (asked e) = true) u)); repeat constructor|].
  intros r u Hu. apply leaves_ret. rewrite app_nil_r. eauto.
Qed.

Lemma keeps_Connect d t : driver_inv d t → keeps (OnHdiConnect d) t.
Proof.
  intros H. unfold OnHdiConnect. case_decide as Hc; [by apply keeps_ret|].
  apply keeps_idle_bind; [only_steps|]. intros hdis u Hu. pose proof (driver_inv_idle _ _ _ Hu H) as H1.
  case_decide; [by apply keeps_ret|]. revert H1. generalize (t ++ u). clear t u H Hu. intros t H.
  eapply leaves_bind; [by apply (@leaves_call _ fw_answer (Alloc _) (λ _ w, given w = 0%nat ∧ returned w = 0%nat))|].
  intros ok w [Hw1 Hw2]. apply keeps_after. pose proof (driver_inv_quiet _ _ _ H Hw1 Hw2) as H1.
  case_decide; [|by apply keeps_ret]. revert H1. generalize (t ++ w). clear t w H Hw1 Hw2. intros t H.
  eapply leaves_bind; [apply leaves_new_executors|]. intros added v (Hv1 & Hv2 & Hv3 & Hv4).
  apply keeps_after. apply not_true_is_false in Hc. destruct H as (K1 & _ & K3 & _). specialize (K3 Hc).
  rewrite K3 in K1. assert (executorList_ (set_connected d true) = []) as -> by done. simpl in K1. simpl app.
  change (isFwkReady_ (set_list _ _)) with (isFwkReady_ d). destruct (isFwkReady_ d) eqn:Hr.
  - apply keeps_RegisterExecutors; simpl; rewrite ?tally_app; [lia|done|done].
  - eapply leaves_mono; [apply leaves_Ensure|]. intros d' x [(l & ->) Hx]. apply driver_inv_idle; [done|].
    unfold driver_inv. simpl. rewrite !tally_app, Hr. repeat split; [lia|done|done|done].
Qed.

(** The index of an executor does not depend on its commands. *)
Definition host_index h : option (option Z) := executorIndex_ <$> executor_ h.

Lemma plain_finish_with c r x : only is_plain (OnResultInner c r x).
Proof.
  unfold OnResultInner, Enroll_OnResultInner, Auth_OnResultInner, Collect_OnResultInner, Identify_OnResultInner,
    Abandon_OnResultInner, Custom_OnResultInner, finish_with, MessengerFinish. only_steps.
Qed.

Lemma leaves_host_result h id r x : leaves (OnResult h id r x) (λ h' u,
  host_index h' = host_index h ∧ given u = 0%nat ∧ returned u = 0%nat).
Proof.
  unfold OnResult. destruct (commands h !! id) as [c|]; [|by apply leaves_ret]. case_decide; [by apply leaves_ret|].
  eapply leaves_bind; [apply (leaves_plain _ (λ _ u, given u = 0%nat ∧ returned u = 0%nat));
    [apply plain_finish_with|done]|].
  intros c' u [Hu1 Hu2]. apply leaves_ret. rewrite app_nil_r. split; [|done]. unfold host_index, EndProcess. simpl.
  by destruct (executor_ h).
Qed.

Lemma leaves_Respond l h : leaves (for_each AsyncCommand.OnHdiDisconnect h l) (λ h' u,
  host_index h' = host_index h ∧ given u = 0%nat ∧ returned u = 0%nat).
Proof.
  revert h. induction l as [|id l IH]; intros h; simpl; [by apply leaves_ret|].
  eapply leaves_bind; [apply leaves_host_result|]. intros h1 u (E1 & Hu1 & Hu2).
  eapply leaves_mono; [apply IH|]. intros h2 v (E2 & Hv1 & Hv2). rewrite !tally_app. repeat split; [congruence|lia|lia].
Qed.

Lemma held_index h : held h = match host_index h with Some (Some _) => 1%nat | _ => 0%nat end.
Proof. unfold held, host_index. by destruct (executor_ h). Qed.

(** A disconnected executor has given its index back. *)
Lemma leaves_disconnect h : leaves (Executor_OnHdiDisconnect h) (λ _ u, balanced (held h) 0 u).
Proof.
  unfold Executor_OnHdiDisconnect. eapply (leaves_bind _ _ (λ h' u,
    host_index h' = host_index h ∧ given u = 0%nat ∧ returned u = 0%nat)).
  - unfold RespondCallbackOnDisconnect. assert (host_index (disconnect_hdi h) = host_index h) as E.
    { unfold host_index, disconnect_hdi. simpl. by destruct (executor_ h). }
    rewrite <- E. destruct (executor_ (disconnect_hdi h)); [apply leaves_Respond|by apply leaves_ret].
  - intros h1 u (E & Hu1 & Hu2). rewrite held_index, <- E, <- held_index. unfold held, balanced.
    destruct (executor_ h1) as [x|].
    + eapply leaves_bind; [apply leaves_Unregister|]. intros x' v (Hv & _ & _). apply leaves_ret.
      rewrite app_nil_r, !tally_app, Hu1, Hu2. exact Hv.
    + apply leaves_ret. rewrite app_nil_r. lia.
Qed.

Lemma keeps_Disconnect d t : driver_inv d t → keeps (OnHdiDisconnect d) t.
Proof.
  intros (H1 & _ & _ & _). unfold OnHdiDisconnect, keeps.
  eapply (leaves_bind _ _ (λ _ u, balanced (all_held (executorList_ d)) 0 u)).
  { clear H1. simpl. induction (executorList_ d) as [|h l IH]; simpl; [by apply leaves_ret|].
    eapply leaves_bind; [apply leaves_disconnect|]. intros h' u Hu. eapply leaves_bind; [apply IH|].
    intros l' v Hv. apply leaves_ret. rewrite app_nil_r. unfold balanced in *. rewrite !tally_app. simpl. lia. }
  intros l u Hu. unfold balanced in Hu.
  eapply leaves_bind; [by apply (@leaves_call _ fw_answer DriverOnHdiDisconnect (λ _ w, given w = 0%nat ∧ returned w = 0%nat))|].
  intros r w [Hw1 Hw2]. apply leaves_ret. rewrite app_nil_r. unfold driver_inv. simpl. rewrite !tally_app.
  split; [lia|]. done.
Qed.

Lemma keeps_Ready d t : driver_inv d t → keeps (OnFrameworkReady d) t.
Proof.
  intros H. unfold OnFrameworkReady. apply keeps_StopTimer; [done|]. clear H. intros l u H. revert H.
  generalize (set_listener d l). clear d l. intros d H. case_decide; [by apply keeps_ret|]. destruct H as (H1 & H2 & H3 & _).
  case_decide as Hc; simpl in Hc.
  - by apply keeps_RegisterExecutors.
  - apply keeps_ret. apply not_true_is_false in Hc. unfold driver_inv. simpl. rewrite Hc.
    split; [done|]. split; [done|]. split; [auto|discriminate].
Qed.

Lemma keeps_Down d t : driver_inv d t → keeps (OnFrameworkDown d) t.
Proof.
  intros H. unfold OnFrameworkDown. apply keeps_StopTimer; [done|]. clear H. intros l u H. revert H.
  generalize (set_listener d l). clear d l. intros d H. case_decide; [|by apply keeps_ret].
  apply keeps_idle_bind; [only_steps|]. intros r v Hv. apply keeps_ret.
  destruct (driver_inv_idle _ _ _ Hv H) as (H1 & H2 & H3 & _). repeat split; [done..|]. intros _ _. done.
Qed.

Lemma keeps_read_param d t : driver_inv d t →
  keeps (ready ← call FwkReadyParam; if (ready : bool) then OnFrameworkReady d else mret d) t.
Proof.
  intros H. apply keeps_idle_bind; [only_steps|]. intros r u Hu. pose proof (driver_inv_idle _ _ _ Hu H).
  destruct r; [by apply keeps_Ready|by apply keeps_ret].
Qed.

Lemma keeps_Init d t : driver_inv d t → keeps (Init d) t.
Proof.
  intros H. unfold Init, SubscribeFrameworkReadyListener.
  assert (∀ what (k : bool → fwk Driver) t, driver_inv d t →
    (∀ ok t, driver_inv d t → keeps (k ok) t) → keeps (call (Alloc what) ≫= k) t) as Hk.
  { intros what k t0 H0 Hk. unfold keeps.
    eapply leaves_bind; [by apply (@leaves_call _ fw_answer (Alloc what) (λ _ w, given w = 0%nat ∧ returned w = 0%nat))|].
    intros ok w [Hw1 Hw2]. apply keeps_after, Hk. by apply driver_inv_quiet. }
  apply Hk; [done|]. intros ? t1 H1. apply Hk; [done|]. intros b t2 H2.
  case_decide; [by apply keeps_read_param|by apply keeps_ret].
Qed.

(** What happens to a driver from the outside. *)
Inductive outside :=
  | OInit
  | OService (serviceName : bytes) (status : ServiceStatus)
  | OParameter (isFrameworkKey isTrue : bool)
  | ORetry
  | OConnected.
Definition happens d (x : outside) : fwk Driver :=
  match x with
  | OInit => Init d
  | OService serviceName status => service_status d serviceName status
  | OParameter isFrameworkKey isTrue => parameter_changed d isFrameworkKey isTrue
  | ORetry => retry_timer d
  | OConnected => OnHdiConnect d
  end.

(** One happening after another; [mutex_] keeps them apart. *)
Definition driver_life : Driver → list outside → fwk Driver := for_each happens.

Lemma keeps_happens d x t : driver_inv d t → keeps (happens d x) t.
Proof.
  intros H. destruct x as [|name []|[] []| |]; simpl; unfold service_status, parameter_changed, retry_timer;
    repeat case_decide; eauto using keeps_Init, keeps_Connect, keeps_Disconnect, keeps_Ready, keeps_Down, keeps_read_param, keeps_ret.
Qed.

Lemma keeps_life l d t : driver_inv d t → keeps (driver_life d l) t.
Proof.
  revert d t. induction l as [|x l IH]; intros d t H; simpl; [by apply keeps_ret|].
  unfold keeps. eapply leaves_bind; [by apply keeps_happens|]. intros d1 u H1. by apply keeps_after, IH.
Qed.

(** C14: Registrations of a driver's executors. Whatever the driver's service,
    the framework's parameter and the timers do, and in whatever order: every
    index that the authentication service gave out is still held by an executor
    of the driver or was given back; a driver whose service is gone has no
    executor; and unless an allocation, a query or a registration failed, every
    executor of a connected driver is registered while the framework is ready. *)
Theorem driver_registrations serviceName id (l : list outside) (o : env fw_answer) :
  let '(d, t) := run o (driver_life (Driver_new serviceName id) l) [] in
  (given t = all_held (executorList_ d) + returned t)%nat ∧
  (hdiConnected_ d = false → executorList_ d = [] ∧ given t = returned t) ∧
  (troubles t = 0%nat → hdiConnected_ d = true → isFwkReady_ d = true → Forall (λ h, held h = 1%nat) (executorList_ d)).
Proof.
  destruct (run o _ []) as [d t] eqn:E.
  assert (keeps (driver_life (Driver_new serviceName id) l) []) as Hk by by apply keeps_life.
  destruct (leaves_run _ _ _ _ _ _ Hk E) as (u & -> & H1 & H2 & H3 & H4).
  split; [done|]. split; [|done]. intros Hc. split; [auto|]. rewrite (H3 Hc) in H1. exact H1.
Qed.

(** The driver's service starts and stops while the framework is ready. *)
Example driver_example :
  let '(d, t) := run fw_world (driver_life (Driver_new [] 1)
    [OInit; OService [] SERVIE_STATUS_START; OService [] SERVIE_STATUS_STOP; OService [] SERVIE_STATUS_START]) [] in
  (given t, returned t, all_held (executorList_ d), troubles t) = (2, 1, 1, 0)%nat.
Proof. vm_compute. reflexivity. Qed.
