(* ===== verification/WidgetCommands.v ===== *)
(** * What a widget context tells its dialog and the face algorithm

    Models the rest of services/context/src/widget_context.cpp: the command that
    starts the dialog, its rotation and order on the screen, the parameters of the
    children, and the commands that keep the face algorithm loaded. WidgetContext
    has the life of the context. *)

From S2P Require Import Prelude Defines Interaction ServiceTypes Attributes Platform NodeCommands WidgetJson.

(* @file W = src/services/context/src/widget_context.cpp *)
(* @file WH = src/services/context/inc/widget_context.h *)
(* @file D = src/interfaces/inner_api/iam_common_defines.h *)

(* @src W:const UI_EXTENSION_TYPE_SET *)
Definition UI_EXTENSION_TYPE_SET : bytes := str "sysDialog/userAuth".
(* @src W:const SYSDIALOG_ZORDER_DEFAULT *)
Definition SYSDIALOG_ZORDER_DEFAULT : Z := 1.
(* @src W:const SYSDIALOG_ZORDER_UPPER *)
Definition SYSDIALOG_ZORDER_UPPER : Z := 2.
(* @src W:const SYSDIALOG_FOCUS_STATE_ENABLE *)
Definition SYSDIALOG_FOCUS_STATE_ENABLE : Z := 1.
(* @src W:const ORIENTATION_LANDSCAPE *)
Definition ORIENTATION_LANDSCAPE : Z := 1.
(* @src W:const ORIENTATION_PORTRAIT_INVERTED *)
Definition ORIENTATION_PORTRAIT_INVERTED : Z := 2.
(* @src W:const ORIENTATION_LANDSCAPE_INVERTED *)
Definition ORIENTATION_LANDSCAPE_INVERTED : Z := 3.
(* @src W:const TO_PORTRAIT *)
Definition TO_PORTRAIT : bytes := str "90".
(* @src W:const TO_INVERTED *)
Definition TO_INVERTED : bytes := str "180".
(* @src W:const TO_PORTRAIT_INVERTED *)
Definition TO_PORTRAIT_INVERTED : bytes := str "270".
(* @src D:166-166 PROPERTY_INIT_ALGORITHM *)
Definition PROPERTY_INIT_ALGORITHM : Z := 1.

(** [std::to_string] of a number of at most twenty digits. *)
Fixpoint decimal (fuel : nat) (z : Z) : bytes :=
  match fuel with
  | O => []
  | S fuel => if decide (z < 10) then [hex_digit z] else decimal fuel (z `div` 10) ++ [hex_digit (z `mod` 10)]
  end.
Definition to_string (z : Z) : bytes := decimal 20 z.

(* @src WH:106-112 WidgetContext::WidgetRotatePara *)
Record WidgetRotatePara := mkRotate {
  ro_isReload : bool;
  ro_orientation : Z;
  ro_needRotate : Z;
  ro_alreadyLoad : Z;
  ro_rotateAuthType : Z;
}.

(** ** The command that starts the dialog *)

Section Start.
(** The configuration, the JSON library, and whether the screen is locked. *)
Context (jsonBuf_ : json) (dump : json → option bytes) (screenLocked : bool).
(** The members that the command depends on. *)
Context (contextId_ : Z) (para_ : AuthWidgetContextPara) (remoteAuthCallback_ : bool) (faceReload_ : Z).
Implicit Types (p : WidgetCmdParameters) (c : WidgetCommand).

Definition set_data p c : WidgetCmdParameters :=
  mkCmdParameters (wp_uiExtensionType p) c (wp_uiExtNodeAngle p) (wp_sysDialogZOrder p) (wp_focusState p).
Definition set_angle p (angle : bytes) : WidgetCmdParameters :=
  mkCmdParameters (wp_uiExtensionType p) (wp_useriamCmdData p) angle (wp_sysDialogZOrder p) (wp_focusState p).
Definition set_zorder p (zorder : Z) : WidgetCmdParameters :=
  mkCmdParameters (wp_uiExtensionType p) (wp_useriamCmdData p) (wp_uiExtNodeAngle p) zorder (wp_focusState p).
Definition set_pinSubType c (pin : bytes) : WidgetCommand :=
  mkCommand (wd_widgetContextId c) (wd_typeList c) (wd_title c) pin (wd_windowModeType c) (wd_navigationButtonText c)
    (wd_cmdList c) (wd_isReload c) (wd_rotateAuthType c) (wd_callingAppID c) (wd_callingProcessName c)
    (wd_widgetContextIdStr c) (wd_userId c) (wd_skipLockedBiometricAuth c).
Definition set_processName c (name : bytes) : WidgetCommand :=
  mkCommand (wd_widgetContextId c) (wd_typeList c) (wd_title c) (wd_pinSubType c) (wd_windowModeType c)
    (wd_navigationButtonText c) (wd_cmdList c) (wd_isReload c) (wd_rotateAuthType c) (wd_callingAppID c) name
    (wd_widgetContextIdStr c) (wd_userId c) (wd_skipLockedBiometricAuth c).
Definition set_reload c (isReload : Z) (rotateAuthType : bytes) : WidgetCommand :=
  mkCommand (wd_widgetContextId c) (wd_typeList c) (wd_title c) (wd_pinSubType c) (wd_windowModeType c)
    (wd_navigationButtonText c) (wd_cmdList c) isReload rotateAuthType (wd_callingAppID c) (wd_callingProcessName c)
    (wd_widgetContextIdStr c) (wd_userId c) (wd_skipLockedBiometricAuth c).
Definition set_types c (typeList : list bytes) (cmdList : list Cmd) (callingAppID : bytes) (userId : Z) (skip : bool) : WidgetCommand :=
  mkCommand (wd_widgetContextId c) typeList (wd_title c) (wd_pinSubType c) (wd_windowModeType c)
    (wd_navigationButtonText c) cmdList (wd_isReload c) (wd_rotateAuthType c) callingAppID (wd_callingProcessName c)
    (wd_widgetContextIdStr c) userId skip.

(* @src W WidgetContext::BuildStartPinSubType *)
Definition BuildStartPinSubType p : WidgetCmdParameters :=
  let it := match wc_authProfileMap para_ !! PIN with
            | Some profile => Some profile | None => wc_authProfileMap para_ !! PRIVATE_PIN end in
  match it with
  | None => p
  | Some profile => set_data p (set_pinSubType (wp_useriamCmdData p) (PinSubType2Str (pinSubType profile)))
  end.

(* @src W WidgetContext::SetSysDialogZOrder *)
Definition SetSysDialogZOrder p : WidgetCmdParameters :=
  let p := if screenLocked then set_zorder p SYSDIALOG_ZORDER_UPPER else p in
  let '(ok, processName) := GetProcessName jsonBuf_ [] in
  CHECK ok = true ELSE p ;;
  if decide (wc_callerName para_ ∈ processName ∧ wc_callerType para_ = TOKEN_NATIVE)
  then set_zorder (set_data p (set_processName (wp_useriamCmdData p) (wc_callerName para_))) SYSDIALOG_ZORDER_UPPER
  else p.

(* @src W WidgetContext::ProcessRotatePara *)
Definition ProcessRotatePara p (r : WidgetRotatePara) : WidgetCmdParameters :=
  let p := if ro_isReload r then
             set_data p (set_reload (wp_useriamCmdData p) (if decide (ro_rotateAuthType r = FACE) then faceReload_ else 1)
               (AuthType2Str (ro_rotateAuthType r)))
           else p in
  WHEN ro_needRotate r = 0 RETURN p ;;
  if decide (ro_orientation r = ORIENTATION_LANDSCAPE) then set_angle p TO_PORTRAIT
  else if decide (ro_orientation r = ORIENTATION_PORTRAIT_INVERTED) then set_angle p TO_INVERTED
  else if decide (ro_orientation r = ORIENTATION_LANDSCAPE_INVERTED) then set_angle p TO_PORTRAIT_INVERTED
  else p.

(* @src W WidgetContext::ProcessCmdData *)
Definition ProcessCmdData p : bytes := default [] (dump (parameters_to_json p)).

Definition CallingBundleName : bytes := if decide (wc_callerType para_ = TOKEN_HAP) then wc_callerName para_ else [].

(** The body of the loop over the profiles. *)
Definition profile_cmd (item : Z * AuthProfile) : Cmd :=
  let '(at_, profile) := item in
  mkCmd CMD_NOTIFY_AUTH_START NOTICE_VERSION_STR (AuthType2Str at_) (if wc_isPinExpired para_ then PIN_EXPIRED else -1)
    (freezingTime profile) (remainTimes profile)
    (if decide (at_ = FINGERPRINT ∧ sensorInfo profile ≠ []) then sensorInfo profile else []) (-1) []
    (mkExtra (if remoteAuthCallback_ then wc_remoteCallerName para_ else CallingBundleName) (wc_challenge para_)).

(** The profiles in the order of [std::map]. *)
Definition key_le (a b : Z * AuthProfile) : Prop := a.1 ≤ b.1.
#[local] Instance key_le_dec a b : Decision (key_le a b).
Proof. unfold key_le. apply _. Defined.
Definition profiles : list (Z * AuthProfile) := merge_sort key_le (map_to_list (wc_authProfileMap para_)).

(** The parameters that [BuildStartCommand] turns into text. *)
Definition start_parameters (r : WidgetRotatePara) : WidgetCmdParameters :=
  let c := mkCommand contextId_ [] (wi_title (wc_widgetParam para_)) []
    (WinModeType2Str (wi_windowMode (wc_widgetParam para_))) (wi_navigationButtonText (wc_widgetParam para_)) [] 0 [] [] []
    (to_string contextId_) (-1) false in
  let p := BuildStartPinSubType (mkCmdParameters UI_EXTENSION_TYPE_SET c [] 0 1) in
  let p := mkCmdParameters (wp_uiExtensionType p) (wp_useriamCmdData p) (wp_uiExtNodeAngle p) SYSDIALOG_ZORDER_DEFAULT
    SYSDIALOG_FOCUS_STATE_ENABLE in
  let p := SetSysDialogZOrder p in
  let p := set_data p (set_types (wp_useriamCmdData p) (map (λ item, AuthType2Str item.1) profiles)
    (map profile_cmd profiles) (wc_callingAppID para_) (wc_userId para_) (wc_skipLockedBiometricAuth para_)) in
  ProcessRotatePara p r.

(* @src W WidgetContext::BuildStartCommand *)
Definition BuildStartCommand (r : WidgetRotatePara) : bytes := ProcessCmdData (start_parameters r).

(* @src W WidgetContext::ProcessElementName *)
Definition ProcessElementName (bundleName abilityName : bytes) : bytes * bytes :=
  ((GetSceneboardBundleName jsonBuf_ bundleName).2, (GetSceneboardAbilityName jsonBuf_ abilityName).2).

(** [widgetAlreadyLoad_] makes no difference. *)
(* @src W WidgetContext::IsValidRotate *)
Definition IsValidRotate (widgetAlreadyLoad_ : Z) (r : WidgetRotatePara) : bool :=
  WHEN ro_needRotate r ≠ 0 ∧ ro_orientation r = ORIENTATION_PORTRAIT_INVERTED ∧ widgetAlreadyLoad_ = 0 RETURN true ;;
  true.

(** With the token that the widget client has, and the members that are not set. *)
(* @src W WidgetContext::BuildAuthenticationPara *)
Definition BuildAuthenticationPara (clientTokenId : Z) (challenge : bytes) (authType authTrustLevel : Z)
    (endAfterFirstFail : bool) (authIntent : Z) (fresh : AuthenticationPara) : AuthenticationPara :=
  mkAuthPara (wc_userId para_) authType authTrustLevel clientTokenId (pa_collectorTokenId fresh) challenge
    endAfterFirstFail (wc_callerName para_) (wc_sdkVersion para_) (wc_callerType para_) authIntent
    (wc_isOsAccountVerified para_) (wc_skipLockedBiometricAuth para_) (wc_credentialIdList para_)
    (wi_title (wc_widgetParam para_)) AUTH_SCENE_WIDGET_AUTH_NO_DISTURB (wc_callerPermissions para_).

End Start.

(** ** The face algorithm *)

Section FaceAlgo.

(** The face executors of the pool that do all by themselves: the index of each,
    unless it is gone. *)
Context (faceNodes : list (option Z)).

(* @src W WidgetContext::SendFaceAlgoCommand *)
Definition SendFaceAlgoCommand (faceAlgoCaller_ operation : bytes) : service () :=
  match faceNodes with
  | [] | None :: _ => mret ()
  | Some executorIndex :: _ =>
    let quote := [Byte.x22] in
    SendMsgToExecutor executorIndex PROPERTY_INIT_ALGORITHM
      (str "{" ++ quote ++ str "operation" ++ quote ++ str ":" ++ quote ++ operation ++ quote ++ str "," ++
       quote ++ str "caller" ++ quote ++ str ":" ++ quote ++ faceAlgoCaller_ ++ quote ++ str "}")
  end.

(** The caller, and the next number of the counter, which wraps. *)
(* @src W WidgetContext::InitFaceAlgo *)
Definition InitFaceAlgo (faceAlgoCallerSeq_ : Z) : service (bytes * Z) :=
  let faceAlgoCaller_ := str "widget_" ++ to_string faceAlgoCallerSeq_ in
  SendFaceAlgoCommand faceAlgoCaller_ (str "init");;
  mret (faceAlgoCaller_, wrapU 32 (faceAlgoCallerSeq_ + 1)).

(* @src W WidgetContext::UninitFaceAlgo *)
Definition UninitFaceAlgo (faceAlgoCaller_ : bytes) : service () := SendFaceAlgoCommand faceAlgoCaller_ (str "uninit").

End FaceAlgo.

(** * Theorems *)

(** ** What the dialog is told at its start *)

Section StartThm.
Context (jsonBuf_ : json) (dump : json → option bytes) (screenLocked : bool).
Context (contextId_ : Z) (para_ : AuthWidgetContextPara) (remoteAuthCallback_ : bool) (faceReload_ : Z).

Lemma command_find c :
  jfind (GetJsonCmd c) JSON_AUTH_CMD = Some (JArray (map json_cmd (wd_cmdList c))) ∧
  jfind (GetJsonCmd c) JSON_AUTH_TYPE = Some (jstrings (wd_typeList c)) ∧
  jfind (GetJsonCmd c) JSON_WIDGET_CTX_ID = Some (JUint (wd_widgetContextId c)).
Proof.
  unfold GetJsonCmd, jset_if. destruct (bool_decide (wd_pinSubType c ≠ [])), (bool_decide (wd_windowModeType c ≠ [])),
    (bool_decide (wd_navigationButtonText c ≠ [])); split_and!; reflexivity.
Qed.

Lemma payload_find cmd :
  let p := GetJsonPayload JNull cmd in
  jfind (json_cmd cmd) JSON_AUTH_PAYLOAD = Some p ∧
  jfind p JSON_AUTH_TYPE = Some (JString (cmd_type cmd)) ∧
  jfind p JSON_LOCKOUT_DURATION = (if bool_decide (cmd_lockoutDuration cmd ≠ -1) then Some (JInt (cmd_lockoutDuration cmd)) else None) ∧
  jfind p JSON_REMAIN_ATTEMPTS = (if bool_decide (cmd_remainAttempts cmd ≠ -1) then Some (JInt (cmd_remainAttempts cmd)) else None) ∧
  jfind p JSON_AUTH_RESULT = (if bool_decide (cmd_event cmd = CMD_NOTIFY_AUTH_RESULT ∨ cmd_result cmd = PIN_EXPIRED)
                              then Some (JInt (cmd_result cmd)) else None).
Proof.
  simpl. split; [reflexivity|]. unfold GetJsonPayload, jset_if.
  destruct (bool_decide (cmd_lockoutDuration cmd ≠ -1)), (bool_decide (cmd_remainAttempts cmd ≠ -1)),
    (bool_decide (cmd_event cmd = CMD_NOTIFY_AUTH_RESULT ∨ cmd_result cmd = PIN_EXPIRED)),
    (bool_decide (cmd_event cmd = CMD_NOTIFY_AUTH_TIP)), (bool_decide (cmd_sensorInfo cmd ≠ []));
    split_and!; reflexivity.
Qed.

Lemma start_data r :
  let c := wp_useriamCmdData (start_parameters jsonBuf_ screenLocked contextId_ para_ remoteAuthCallback_ faceReload_ r) in
  wd_widgetContextId c = contextId_ ∧ wd_typeList c = map (λ item, AuthType2Str item.1) (profiles para_) ∧
  wd_cmdList c = map (profile_cmd para_ remoteAuthCallback_) (profiles para_).
Proof.
  unfold start_parameters, ProcessRotatePara, SetSysDialogZOrder, BuildStartPinSubType.
  repeat first [case_decide | case_match]; simpl; auto; by destruct (ro_isReload r).
Qed.

Lemma elem_of_profiles ty profile : (ty, profile) ∈ profiles para_ ↔ wc_authProfileMap para_ !! ty = Some profile.
Proof. unfold profiles. rewrite merge_sort_Permutation. apply elem_of_map_to_list. Qed.

(** The dialog gets the number of its context and one command for every profile;
    the command has the type, and the attempts and the lockout of the profile. *)
Theorem start_command_tells r :
  let d := parameters_to_json (start_parameters jsonBuf_ screenLocked contextId_ para_ remoteAuthCallback_ faceReload_ r) in
  ∃ data cmds, jfind d JSON_USER_IAM_CMD_DATA = Some data ∧
    jfind data JSON_WIDGET_CTX_ID = Some (JUint contextId_) ∧ jfind data JSON_AUTH_CMD = Some (JArray cmds) ∧
    length cmds = size (wc_authProfileMap para_) ∧
    ∀ ty profile, wc_authProfileMap para_ !! ty = Some profile →
      ∃ cmd payload, cmd ∈ cmds ∧ jfind cmd JSON_AUTH_PAYLOAD = Some payload ∧
        jfind payload JSON_AUTH_TYPE = Some (JString (AuthType2Str ty)) ∧
        (remainTimes profile ≠ -1 → jfind payload JSON_REMAIN_ATTEMPTS = Some (JInt (remainTimes profile))) ∧
        (freezingTime profile ≠ -1 → jfind payload JSON_LOCKOUT_DURATION = Some (JInt (freezingTime profile))) ∧
        jfind payload JSON_AUTH_RESULT = (if wc_isPinExpired para_ then Some (JInt PIN_EXPIRED) else None).
Proof.
  destruct (start_data r) as (Hid & _ & Hc). set (p := start_parameters _ _ _ _ _ _ r) in *. simpl.
  destruct (command_find (wp_useriamCmdData p)) as (F1 & _ & F3). rewrite Hc in F1. rewrite Hid in F3.
  eexists _, _. split; [reflexivity|]. split; [exact F3|]. split; [exact F1|]. split.
  - rewrite !length_map. unfold profiles. by rewrite (Permutation_length (merge_sort_Permutation _ _)), length_map_to_list.
  - intros ty profile Hp%elem_of_profiles. set (cmd := profile_cmd para_ remoteAuthCallback_ (ty, profile)).
    exists (json_cmd cmd), (GetJsonPayload JNull cmd). destruct (payload_find cmd) as (P1 & P2 & P3 & P4 & P5).
    split. { apply list_elem_of_fmap. exists cmd. split; [done|]. apply list_elem_of_fmap. by eexists. }
    split_and!; [done|done| | |].
    + intros Hr. rewrite P4. by rewrite bool_decide_true.
    + intros Hr. rewrite P3. by rewrite bool_decide_true.
    + rewrite P5. simpl. by destruct (wc_isPinExpired para_).
Qed.

End StartThm.

(** ** The names of the callers of the face algorithm *)

Section Names.

Lemma decimal_ne n z : decimal (S n) z ≠ [].
Proof. simpl. case_decide; [done|]. by intros [_ ?]%app_eq_nil. Qed.

Lemma decimal_inj n a b : 0 ≤ a < 10 ^ Z.of_nat n → 0 ≤ b < 10 ^ Z.of_nat n → decimal n a = decimal n b → a = b.
Proof.
  revert a b. induction n as [|n IH]; intros a b Ha Hb; [lia|].
  rewrite Nat2Z.inj_succ, Z.pow_succ_r in Ha, Hb by lia.
  assert (∀ z, ¬ z < 10 → z < 10 * 10 ^ Z.of_nat n → decimal n (z `div` 10) ≠ []) as Hne.
  { intros z H1 H2. destruct n; [simpl in H2; lia|]. apply decimal_ne. }
  simpl. case_decide as Ca; case_decide as Cb.
  - intros [= E]. apply hex_digit_inj in E; lia.
  - intros E%(f_equal length). rewrite length_app in E. simpl in E. destruct (Hne b Cb ltac:(lia)). apply nil_length_inv. lia.
  - intros E%(f_equal length). rewrite length_app in E. simpl in E. destruct (Hne a Ca ltac:(lia)). apply nil_length_inv. lia.
  - intros [E1 E2]%app_inj_2; [|done]. injection E2 as E2.
    apply hex_digit_inj in E2; [|pose proof (Z.mod_pos_bound a 10); lia|pose proof (Z.mod_pos_bound b 10); lia].
    apply IH in E1; [|split; [apply Z.div_pos|apply Z.div_lt_upper_bound]; lia..].
    rewrite (Z.div_mod a 10), (Z.div_mod b 10) by lia. lia.
Qed.

Lemma to_string_inj a b : in_u 64 a → in_u 64 b → to_string a = to_string b → a = b.
Proof. unfold in_u. intros Ha Hb. apply decimal_inj; simpl; lia. Qed.

(** Contexts that load the algorithm have names of their own until the counter
    has wrapped around. *)
Lemma callers_distinct o t faces a b :
  in_u 32 a → in_u 32 b →
  (run o (InitFaceAlgo faces a) t).1.1 = (run o (InitFaceAlgo faces b) t).1.1 → a = b.
Proof.
  intros Ha Hb. unfold InitFaceAlgo. assert (∀ z, (run o (SendFaceAlgoCommand faces (str "widget_" ++ to_string z) (str "init");;
    mret (str "widget_" ++ to_string z, wrapU 32 (z + 1))) t).1.1 = str "widget_" ++ to_string z) as H.
  { intros z. rewrite run_bind. by destruct (run o (SendFaceAlgoCommand _ _ _) t). }
  rewrite !H. intros E%app_inv_head. unfold in_u in *. apply to_string_inj; unfold in_u; [lia|lia|done].
Qed.

End Names.

(** ** Examples *)

Definition ex_para : AuthWidgetContextPara :=
  mkWidgetPara 100 10000 1 (str "shop") [Byte.x01; Byte.x02] [PIN; FACE] 10000 (mkWidgetParam (str "Pay") [] DIALOG_BOX false)
    {[FACE := mkAuthProfile 0 [] 3 0 0 0; PIN := mkAuthProfile PIN_SIX [] 5 30000 0 0]} TOKEN_HAP [] [] false true false
    false [] [] 0.
Definition ex_rotate : WidgetRotatePara := mkRotate true ORIENTATION_PORTRAIT_INVERTED 1 1 FACE.

Example start_command_example :
  let d := parameters_to_json (start_parameters JNull true 4660 ex_para false 1 ex_rotate) in
  jfind d JSON_SYS_DIALOG_ZORDER = Some (JUint SYSDIALOG_ZORDER_UPPER) ∧
  jfind d JSON_UI_EXT_NODE_ANGLE = Some (JString TO_INVERTED) ∧
  (jfind d JSON_USER_IAM_CMD_DATA ≫= λ c, jfind c JSON_AUTH_TYPE) = Some (jstrings [AUTH_TYPE_PIN; AUTH_TYPE_FACE]) ∧
  (jfind d JSON_USER_IAM_CMD_DATA ≫= λ c, jfind c JSON_WIDGET_CTX_ID_STR) = Some (JString (str "4660")).
Proof. by vm_compute. Qed.
