(* ===== verification/UserAuthService.v ===== *)
(** * The authentication service

    Models services/ipc/src/user_auth_service.cpp: what the service does for a
    request of the caller [c] of another process. A callback argument is
    [true] when the pointer is not null, a context callback when it could be
    made. Out parameters are results; [contextId] is the value of the variable
    that the stub passes in. The second half of the service, its configuration,
    is user_auth_service_global_config.cpp. *)

From S2P Require Import Prelude Defines Interaction ServiceTypes Attributes Platform IpcCommon UserIdmDatabase.
From S2P Require Import ContextFactory AuthWidgetHelper.

(* @file S = src/services/ipc/src/user_auth_service.cpp *)
(* @file G = src/services/ipc/src/user_auth_service_global_config.cpp *)
(* @file H = src/frameworks/common/src/user_auth_helper.cpp *)
(* @file R = src/services/context/src/remote_auth_service.cpp *)
(* @file M = src/services/core/src/remote_auth_callback_manager.cpp *)
(* @file CD = src/interfaces/inner_api/user_auth_client_defines.h *)

(* @src S:const MINIMUM_VERSION *)
Definition MINIMUM_VERSION : Z := 0.
(* @src S:const CURRENT_VERSION *)
Definition CURRENT_VERSION : Z := 1.
(* @src S:const NETWORK_ID_LENGTH *)
Definition NETWORK_ID_LENGTH : nat := 64.

(** ** Helpers of the framework *)

(* @src H UserAuthHelper::CheckUserAuthType *)
Definition CheckUserAuthType (authType : Z) : bool :=
  bool_decide (authType ∈ [PIN; FACE; FINGERPRINT; PRIVATE_PIN; COMPANION_DEVICE; CUSTOM_AUTH]).

(* @src H UserAuthHelper::CheckAuthTrustLevel *)
Definition Helper_CheckAuthTrustLevel (authTrustLevel : Z) : bool :=
  bool_decide (authTrustLevel ∈ [ATL1; ATL2; ATL3; ATL4]).

(** How many bytes the loop skips for a byte at the start of a character. *)
Definition utf8_width (c : Z) : nat :=
  if decide (Z.land c 0xE0 = 0xC0) then 2
  else if decide (Z.land c 0xF0 = 0xE0) then 3
  else if decide (Z.land c 0xF8 = 0xF0) then 4
  else 1.

(** The loop over the rest of the string; every turn drops at least one byte. *)
Fixpoint utf8_count (fuel : nat) (s : bytes) : Z :=
  match fuel, s with
  | S fuel, c :: _ => 1 + utf8_count fuel (drop (utf8_width (byte.unsigned c)) s)
  | _, _ => 0
  end.

(* @src H UserAuthHelper::GetUtf8CharCount *)
Definition GetUtf8CharCount (s : bytes) : Z := utf8_count (length s) s.

(* @src M RemoteAuthCallbackManager::GetRemoteAuthCallerName *)
Definition GetRemoteAuthCallerName (tokenId : Z) : service bytes :=
  '(found, callerName, _) ← GetCallerNameByTokenId tokenId [];
  CHECK found = true ELSE mret [] ;;
  mret callerName.

(** ** Parameters that came over IPC *)

(* @src S UserAuthService::InitAuthParam *)
Definition InitAuthParam (ipc : IpcAuthParamInner) : AuthParamInner :=
  let reuse := ia_reuseUnlockResult ipc in
  mkAuthParam (ia_userId ipc) (ia_isUserIdSpecified ipc) (ia_challenge ipc) (ia_authType ipc) (ia_authTypes ipc)
    (wrapU 32 (ia_authTrustLevel ipc))
    (mkReuse (iu_isReuse reuse) (wrapU 32 (iu_reuseMode reuse)) (iu_reuseDuration reuse))
    (ia_authIntent ipc) (ia_skipLockedBiometricAuth ipc) (ia_credentialIdList ipc)
    (if ia_isHasRemoteTokenId ipc then Some (ia_remoteTokenId ipc) else None) (ia_additionalInfo ipc).

(* @src S UserAuthService::InitRemoteAuthParam *)
Definition InitRemoteAuthParam (ipc : IpcRemoteAuthParam) : option RemoteAuthParam :=
  if ir_isHasRemoteAuthParam ipc then
    Some (mkRemoteAuthParam
      (if ir_isHasVerifierNetworkId ipc then Some (ir_verifierNetworkId ipc) else None)
      (if ir_isHasCollectorNetworkId ipc then Some (ir_collectorNetworkId ipc) else None)
      (if ir_isHasCollectorTokenId ipc then Some (ir_collectorTokenId ipc) else None))
  else None.

(* @src S UserAuthService::InitWidgetParam *)
Definition InitWidgetParam (ipc : IpcWidgetParamInner) : WidgetParamInner :=
  mkWidgetParam (iw_title ipc) (iw_navigationButtonText ipc) (iw_windowMode ipc) (iw_hasContext ipc).

(** ** Checks *)

(* @src S UserAuthService::CheckAuthTrustLevel *)
Definition CheckAuthTrustLevel (authTrustLevel authType : Z) : bool :=
  WHEN authType = COMPANION_DEVICE RETURN true ;;
  WHEN authTrustLevel ≠ ATL1 ∧ authTrustLevel ≠ ATL2 ∧ authTrustLevel ≠ ATL3 ∧ authTrustLevel ≠ ATL4 RETURN false ;;
  true.

(* @src S IsTemplateIdListRequired *)
Definition IsTemplateIdListRequired (keys : list Z) : bool :=
  existsb (λ key, bool_decide (key ∈ [ATTR_PIN_SUB_TYPE; ATTR_REMAIN_TIMES; ATTR_FREEZING_TIME;
    ATTR_NEXT_FAIL_LOCKOUT_DURATION; ATTR_CREDENTIAL_LENGTH])) keys.

(* @src S IsSensorInfoRequested *)
Definition IsSensorInfoRequested (keys : list Z) : bool := bool_decide (ATTR_SENSOR_INFO ∈ keys).

(* @src S UserAuthService::CheckAuthTypeOnly *)
Definition CheckAuthTypeOnly (checkedTypes onlyContainTypes : list Z) : bool :=
  forallb (λ ty, bool_decide (ty ∈ onlyContainTypes)) checkedTypes.

(* @src S UserAuthService::CheckAuthWidgetType *)
Definition CheckAuthWidgetType (authType : list Z) : Z :=
  WHEN authType = [] ∨ MAX_AUTH_TYPE_SIZE < Z.of_nat (length authType) RETURN INVALID_PARAMETERS ;;
  WHEN CheckAuthTypeOnly authType [PIN; FACE; FINGERPRINT; PRIVATE_PIN; COMPANION_DEVICE] = false
  RETURN TYPE_NOT_SUPPORT ;;
  WHEN size (list_to_set authType : gset Z) ≠ length authType RETURN INVALID_PARAMETERS ;;
  WHEN PIN ∈ authType ∧ PRIVATE_PIN ∈ authType RETURN INVALID_PARAMETERS ;;
  WHEN COMPANION_DEVICE ∈ authType ∧ length authType ≠ 1%nat RETURN INVALID_PARAMETERS ;;
  SUCCESS.

(* @src S UserAuthService::CheckPrivatePinEnroll *)
Definition CheckPrivatePinEnroll (authType validType : list Z) : bool :=
  WHEN PRIVATE_PIN ∉ authType RETURN true ;;
  WHEN length validType = 2%nat ∧ FACE ∈ validType ∧ FINGERPRINT ∈ validType RETURN false ;;
  true.

(* @src S UserAuthService::CheckAuthWidgetParam *)
Definition CheckAuthWidgetParam (authParam : AuthParamInner) (widgetParam : WidgetParamInner) : Z :=
  WHEN wi_navigationButtonText widgetParam = [] ∧ length (ap_authTypes authParam) = 2%nat ∧
    CheckAuthTypeOnly (ap_authTypes authParam) [FACE; FINGERPRINT] = true
  RETURN INVALID_PARAMETERS ;;
  WHEN 60 < GetUtf8CharCount (wi_navigationButtonText widgetParam) RETURN INVALID_PARAMETERS ;;
  WHEN wi_title widgetParam = [] ∨ TITLE_MAX < GetUtf8CharCount (wi_title widgetParam) RETURN INVALID_PARAMETERS ;;
  SUCCESS.

(* @src S UserAuthService::CheckSudoAuthParam *)
Definition CheckSudoAuthParam (authParam : AuthParamInner) (remoteAuthParam : option RemoteAuthParam) : Z :=
  WHEN is_Some remoteAuthParam RETURN INVALID_PARAMETERS ;;
  WHEN ap_authType authParam ≠ PIN RETURN INVALID_PARAMETERS ;;
  WHEN ap_additionalInfo authParam = [] ∨ TITLE_MAX < GetUtf8CharCount (ap_additionalInfo authParam)
  RETURN INVALID_PARAMETERS ;;
  WHEN isReuse (ap_reuseUnlockResult authParam) = true RETURN INVALID_PARAMETERS ;;
  SUCCESS.

Section Request.
Context (c : Caller).

(** [A || B] and [!A && !B] of the code ask the second question only if the
    first answer leaves it open. *)
Definition or_else (first second : service bool) : service bool :=
  ok ← first; if (ok : bool) then mret true else second.
Definition and_then (first second : service bool) : service bool :=
  ok ← first; if (ok : bool) then second else mret false.

(* @src S UserAuthService::CompleteRemoteAuthParam *)
Definition CompleteRemoteAuthParam (p : RemoteAuthParam) (localNetworkId : bytes) : RemoteAuthParam * bool :=
  let bad_size (id : option bytes) :=
    match id with Some id => negb (Nat.eqb (length id) NETWORK_ID_LENGTH) | None => false end in
  WHEN bad_size (rp_verifierNetworkId p) = true RETURN (p, false) ;;
  WHEN bad_size (rp_collectorNetworkId p) = true RETURN (p, false) ;;
  WHEN rp_verifierNetworkId p = None ∧ rp_collectorNetworkId p = None RETURN (p, false) ;;
  let verifier := default localNetworkId (rp_verifierNetworkId p) in
  let collector := default localNetworkId (rp_collectorNetworkId p) in
  let p := mkRemoteAuthParam (Some verifier) (Some collector) (rp_collectorTokenId p) in
  WHEN verifier ≠ localNetworkId ∧ collector ≠ localNetworkId RETURN (p, false) ;;
  WHEN verifier = collector ∧ verifier ≠ localNetworkId RETURN (p, false) ;;
  WHEN collector ≠ localNetworkId ∧ rp_collectorTokenId p = None RETURN (p, false) ;;
  (if decide (collector = localNetworkId ∧ rp_collectorTokenId p = None)
   then mkRemoteAuthParam (Some verifier) (Some collector) (Some (GetAccessTokenId c)) else p, true).

(** ** Queries *)

(* @src S UserAuthService::GetAvailableStatusInner *)
Definition GetAvailableStatusInner (apiVersion userId authType authTrustLevel : Z) : service Z :=
  WHEN CheckAuthTrustLevel authTrustLevel authType = false RETURN mret TRUST_LEVEL_NOT_SUPPORT ;;
  '(result, checkRet) ← call (EngGetAvailableStatus userId authType authTrustLevel);
  CHECK result = SUCCESS ELSE mret GENERAL_ERROR ;;
  mret checkRet.

(* @src S#1 UserAuthService::GetAvailableStatusImpl *)
Definition GetAvailableStatusImpl (apiVersion userId authType authTrustLevel : Z) : service Z :=
  ok ← CheckPermission c ACCESS_USER_AUTH_INTERNAL_PERMISSION;
  CHECK ok = true ELSE mret CHECK_PERMISSION_FAILED ;;
  GetAvailableStatusInner apiVersion userId authType authTrustLevel.

(* @src S#2 UserAuthService::GetAvailableStatusImpl *)
Definition GetAvailableStatusImpl_caller (apiVersion authType authTrustLevel : Z) : service Z :=
  ok ← or_else (CheckPermission c ACCESS_USER_AUTH_INTERNAL_PERMISSION) (CheckPermission c ACCESS_BIOMETRIC_PERMISSION);
  CHECK ok = true ELSE mret CHECK_PERMISSION_FAILED ;;
  WHEN apiVersion ≤ API_VERSION_8 ∧ authType = PIN RETURN mret TYPE_NOT_SUPPORT ;;
  '(ret, userId) ← GetCallingUserId c INVALID_USER_ID;
  CHECK ret = SUCCESS ELSE mret GENERAL_ERROR ;;
  GetAvailableStatusInner apiVersion userId authType authTrustLevel.

(** The result code of the call and [funcResult]. *)
(* @src S#1 UserAuthService::GetAvailableStatus *)
Definition GetAvailableStatus (apiVersion userId authType authTrustLevel : Z) : service (Z * Z) :=
  funcResult ← GetAvailableStatusImpl apiVersion userId authType authTrustLevel;
  mret (SUCCESS, funcResult).

(* @src S#2 UserAuthService::GetAvailableStatus *)
Definition GetAvailableStatus_caller (apiVersion authType authTrustLevel : Z) : service (Z * Z) :=
  funcResult ← GetAvailableStatusImpl_caller apiVersion authType authTrustLevel;
  mret (SUCCESS, funcResult).

(* @src S UserAuthService::FillGetPropertyKeys *)
Definition FillGetPropertyKeys (authType : Z) (keys : list Z) : list Z :=
  filter (λ key, ¬ (key = ATTR_NEXT_FAIL_LOCKOUT_DURATION ∧ authType ≠ PIN)) keys.

(* @src S UserAuthService::FillGetPropertyValue *)
Definition FillGetPropertyValue (authType : Z) (keys : list Z) (values : Attributes) : Attributes :=
  if decide (ATTR_NEXT_FAIL_LOCKOUT_DURATION ∈ keys ∧ authType ≠ PIN)
  then (SetInt32Value values ATTR_NEXT_FAIL_LOCKOUT_DURATION FIRST_LOCKOUT_DURATION_EXCEPT_PIN).1 else values.

(* @src S GetTemplatesByAuthType *)
Definition GetTemplatesByAuthType (userId authType : Z) : service (Z * list Z) :=
  '(ret, credentialInfos) ← GetCredentialInfo userId authType;
  CHECK ret = SUCCESS ELSE mret (GENERAL_ERROR, []) ;;
  mret (SUCCESS, map GetTemplateId credentialInfos).

(** The nodes whose weak pointer could be locked, as (node, type, role). *)
(* @src S GetResourceNodeByTypeAndRole *)
Definition GetResourceNodeByTypeAndRole (authType role : Z) : service (list Z) :=
  nodes ← call EnumerateNodes;
  mret (omap (λ '(node, ty, ro), if decide (ty = authType ∧ ro = role) then Some node else None)
    (nodes : list (Z * Z * Z))).

(* @src S UserAuthService::GetResourseNode *)
Definition GetResourseNode (authType : Z) : service (option Z) :=
  authTypeNodes ← GetResourceNodeByTypeAndRole authType ALL_IN_ONE;
  match authTypeNodes with
  | [node] => ok ← call (LockNode node); mret (if (ok : bool) then Some node else None)
  | _ => mret None
  end.

(** The condition that [GetPropertyInner] sends to the executor. *)
Definition property_condition (templateIds uint32Keys : list Z) : Attributes :=
  let attr := (SetUint32Value Attributes_new ATTR_PROPERTY_MODE PROPERTY_MODE_GET).1 in
  let attr := (SetUint64ArrayValue attr ATTR_TEMPLATE_ID_LIST templateIds).1 in
  (SetUint32ArrayValue attr ATTR_KEY_LIST uint32Keys).1.

(** Answers the callback of a property query. *)
Definition answer_property (result : Z) (values : Attributes) : service () :=
  call (OnGetExecutorPropertyResult result (Serialize values)).
Definition answer_set_property (result : Z) : service () := call (OnSetExecutorPropertyResult result).

(* @src S UserAuthService::GetPropertyInner *)
Definition GetPropertyInner (authType : Z) (keys templateIds : list Z) : service Z :=
  resourceNode ← GetResourseNode authType;
  match resourceNode with
  | None => answer_property GENERAL_ERROR Attributes_new;; mret SUCCESS
  | Some node =>
    let uint32Keys := FillGetPropertyKeys authType keys in
    '(result, values) ← call (NodeGetProperty node (property_condition templateIds uint32Keys));
    answer_property result (FillGetPropertyValue authType keys values);;
    mret SUCCESS
  end.

(* @src S UserAuthService::GetPropertyHelper *)
Definition GetPropertyHelper (userId authType : Z) (keys : list Z) : service Z :=
  if decide (IsTemplateIdListRequired keys = true) then
    '(ret, templateIds) ← GetTemplatesByAuthType userId authType;
    WHEN ret ≠ SUCCESS RETURN (answer_property GENERAL_ERROR Attributes_new;; mret SUCCESS) ;;
    WHEN templateIds = [] RETURN (answer_property NOT_ENROLLED Attributes_new;; mret SUCCESS) ;;
    GetPropertyInner authType keys templateIds
  else if decide (IsSensorInfoRequested keys = true) then
    '(_, templateIds) ← GetTemplatesByAuthType userId authType;
    GetPropertyInner authType keys templateIds
  else GetPropertyInner authType keys [].

(* @src S UserAuthService::GetProperty *)
Definition GetProperty (userId authType : Z) (keys : list Z) (callback : bool) : service Z :=
  CHECK callback = true ELSE mret INVALID_PARAMETERS ;;
  ok ← CheckPermission c ACCESS_USER_AUTH_INTERNAL_PERMISSION;
  WHEN ok = false RETURN (answer_property CHECK_PERMISSION_FAILED Attributes_new;; mret SUCCESS) ;;
  call (PostTask (TaskGetProperty userId authType keys));;
  mret SUCCESS.

(* @src S UserAuthService::GetPropertyById *)
Definition GetPropertyById (credentialId : Z) (keys : list Z) (callback : bool) : service Z :=
  CHECK callback = true ELSE mret INVALID_PARAMETERS ;;
  ok ← CheckPermission c ACCESS_USER_AUTH_INTERNAL_PERMISSION;
  WHEN ok = false RETURN (answer_property CHECK_PERMISSION_FAILED Attributes_new;; mret SUCCESS) ;;
  call (PostTask (TaskGetPropertyById credentialId keys));;
  mret SUCCESS.

(* @src S UserAuthService::SetProperty *)
Definition SetProperty (userId authType : Z) (attributes : bytes) (callback : bool) : service Z :=
  CHECK callback = true ELSE mret INVALID_PARAMETERS ;;
  ok ← CheckPermission c ACCESS_USER_AUTH_INTERNAL_PERMISSION;
  WHEN ok = false RETURN (answer_set_property CHECK_PERMISSION_FAILED;; mret CHECK_PERMISSION_FAILED) ;;
  call (PostTask (TaskSetProperty authType attributes));;
  mret SUCCESS.

(** The bodies of the three tasks, which run on a thread of their own. *)
Definition run_GetProperty (userId authType : Z) (keys : list Z) : service () :=
  GetPropertyHelper userId authType keys;; mret ().

(* @src S:421-445 UserAuthService::GetPropertyById *)
Definition run_GetPropertyById (credentialId : Z) (keys : list Z) : service () :=
  '(ret, credInfo) ← GetCredentialInfoById credentialId;
  WHEN ret ≠ SUCCESS RETURN answer_property ret Attributes_new ;;
  match credInfo with
  | None => answer_property GENERAL_ERROR Attributes_new
  | Some credInfo => GetPropertyInner (GetAuthType credInfo) keys [GetTemplateId credInfo];; mret ()
  end.

(* @src S:465-488 UserAuthService::SetProperty *)
Definition run_SetProperty (authType : Z) (attributes : bytes) : service () :=
  authTypeNodes ← GetResourceNodeByTypeAndRole authType ALL_IN_ONE;
  match authTypeNodes with
  | [node] =>
    ok ← call (LockNode node);
    WHEN ok = false RETURN answer_set_property GENERAL_ERROR ;;
    result ← call (NodeSetProperty node (Attributes_of_raw attributes));
    answer_set_property result
  | _ => answer_set_property GENERAL_ERROR
  end.

(** ** Starting a context *)

(** [contextCallback->OnResult(code, extraInfo)]. *)
Definition tell (code : Z) : service () := call (OnResult true code Attributes_new).
(** [userAuthCallback->OnResult(code, extraInfo)], past the context callback. *)
Definition tell_raw (code : Z) : service () := call (OnResult false code Attributes_new).

(** Also the second overload, which differs in what it traces. *)
(* @src S#1 UserAuthService::GetAuthContextCallback *)
Definition GetAuthContextCallback (callback : bool) : service bool :=
  CHECK callback = true ELSE mret false ;;
  made ← call (MakeShared "ContextCallbackImpl");
  WHEN made = false RETURN (tell_raw GENERAL_ERROR;; mret false) ;;
  mret true.

(** A start function returns the id of the context, [BAD_CONTEXT_ID] on failure. *)
Definition context_id (id : option Z) : Z := default BAD_CONTEXT_ID id.

(* @src S UserAuthService::StartAuthContext *)
Definition StartAuthContext (para : AuthenticationPara) (needSubscribeAppState : bool) : service Z :=
  id ← start_context true (CreateSimpleAuthContext para needSubscribeAppState true true);
  mret (context_id id).

(* @src S UserAuthService::StartRemoteAuthInvokerContext *)
Definition StartRemoteAuthInvokerContext (authParam : AuthParamInner) (param : RemoteAuthInvokerContextParam) :
    service Z :=
  id ← start_context true (CreateRemoteAuthInvokerContext authParam param true);
  mret (context_id id).

(* @src S UserAuthService::StartLocalRemoteAuthContext *)
Definition StartLocalRemoteAuthContext (para : AuthenticationPara) (param : LocalRemoteAuthContextParam) : service Z :=
  id ← start_context true (CreateLocalRemoteAuthContext para param true true);
  mret (context_id id).

(** The id and [lastError], which starts as [lastError]. *)
(* @src R RemoteAuthServiceImpl::StartRemoteAuthContext *)
Definition StartRemoteAuthContext (para : AuthenticationPara) (param : RemoteAuthContextParam) (callback : bool)
    (lastError : Z) : service (Z * Z) :=
  CHECK callback = true ELSE mret (BAD_CONTEXT_ID, lastError) ;;
  context ← CreateRemoteAuthContext para param true callback;
  match context with
  | None => tell GENERAL_ERROR;; mret (BAD_CONTEXT_ID, lastError)
  | Some (id, context) =>
    call (SetCleaner id);;
    ret ← call (PoolSchedule id context);
    if (ret : bool) then mret (id, SUCCESS)
    else
      lastError ← call (ContextLatestError id);
      tell GENERAL_ERROR;;
      mret (BAD_CONTEXT_ID, lastError)
  end.

(* @src S UserAuthService::StartAuth *)
Definition StartAuth (para : AuthenticationPara) : service (Z * Z) :=
  contextId ← StartAuthContext para true;
  WHEN contextId = BAD_CONTEXT_ID RETURN mret (GENERAL_ERROR, contextId) ;;
  mret (SUCCESS, contextId).

(* @src S#1 UserAuthService::CheckAuthPermissionAndParam *)
Definition CheckAuthPermissionAndParam_Auth (authType : Z) (callerType : TokenType) (callerName : bytes)
    (authTrustLevel : Z) : service Z :=
  ok ← CheckPermission c ACCESS_BIOMETRIC_PERMISSION;
  CHECK ok = true ELSE mret CHECK_PERMISSION_FAILED ;;
  foreground ← (if decide (callerType = TOKEN_HAP) then CheckForegroundApplication callerName else mret true);
  CHECK foreground = true ELSE mret CHECK_PERMISSION_FAILED ;;
  WHEN authType = PIN RETURN mret TYPE_NOT_SUPPORT ;;
  CHECK CheckAuthTrustLevel authTrustLevel authType = true ELSE mret TRUST_LEVEL_NOT_SUPPORT ;;
  mret SUCCESS.

(** The result code and [contextId]. *)
(* @src S UserAuthService::Auth *)
Definition Auth (apiVersion : Z) (ipc : IpcAuthParamInner) (callback : bool) (contextId : Z) : service (Z * Z) :=
  contextCallback ← GetAuthContextCallback callback;
  CHECK contextCallback = true ELSE mret (GENERAL_ERROR, contextId) ;;
  '(found, callerName, callerType) ← GetCallerName c [];
  WHEN found = false RETURN (tell GENERAL_ERROR;; mret (GENERAL_ERROR, contextId)) ;;
  checkRet ← CheckAuthPermissionAndParam_Auth (ia_authType ipc) callerType callerName (wrapU 32 (ia_authTrustLevel ipc));
  WHEN checkRet ≠ SUCCESS RETURN (tell checkRet;; mret (checkRet, contextId)) ;;
  '(ret, userId) ← GetCallingUserId c INVALID_USER_ID;
  WHEN ret ≠ SUCCESS RETURN (tell GENERAL_ERROR;; mret (CHECK_PERMISSION_FAILED, contextId)) ;;
  isOsAccountVerified ← IsOsAccountVerified userId;
  StartAuth (mkAuthPara userId (ia_authType ipc) (wrapU 32 (ia_authTrustLevel ipc)) (GetAccessTokenId c) 0
    (ia_challenge ipc) true callerName apiVersion callerType DEFAULT isOsAccountVerified false [] []
    AUTH_SCENE_DEFAULT 0).

(** ** Authentication of a user by an internal caller *)

(* @src S#2 UserAuthService::CheckAuthPermissionAndParam *)
Definition CheckAuthPermissionAndParam_AuthUser (authType authTrustLevel : Z) : service bool :=
  WHEN CheckAuthTrustLevel authTrustLevel authType = false
  RETURN (tell TRUST_LEVEL_NOT_SUPPORT;; mret false) ;;
  ok ← CheckPermission c ACCESS_USER_AUTH_INTERNAL_PERMISSION;
  WHEN ok = false RETURN (tell CHECK_PERMISSION_FAILED;; mret false) ;;
  mret true.

Definition set_collectorTokenId (p : AuthenticationPara) (v : Z) : AuthenticationPara :=
  mkAuthPara (pa_userId p) (pa_authType p) (pa_atl p) (pa_tokenId p) v (pa_challenge p) (pa_endAfterFirstFail p)
    (pa_callerName p) (pa_sdkVersion p) (pa_callerType p) (pa_authIntent p) (pa_isOsAccountVerified p)
    (pa_skipLockedBiometricAuth p) (pa_credentialIdList p) (pa_title p) (pa_authScene p) (pa_callerPermissions p).

(* @src S UserAuthService::ProcessAuthParamForRemoteAuth *)
Definition ProcessAuthParamForRemoteAuth (para : AuthenticationPara) (remoteAuthParam : RemoteAuthParam)
    (localNetworkId : bytes) : AuthenticationPara * RemoteAuthParam * bool :=
  WHEN pa_authType para ≠ PIN RETURN (para, remoteAuthParam, false) ;;
  let '(remoteAuthParam, completeRet) := CompleteRemoteAuthParam remoteAuthParam localNetworkId in
  CHECK completeRet = true ELSE (para, remoteAuthParam, false) ;;
  (set_collectorTokenId para (default (pa_tokenId para) (rp_collectorTokenId remoteAuthParam)), remoteAuthParam, true).

(** The id and [failReason]. [value()] is only reached with the optional set. *)
(* @src S UserAuthService::AuthRemoteUser *)
Definition AuthRemoteUser (authParam : AuthParamInner) (para : AuthenticationPara) (remoteAuthParam : RemoteAuthParam) :
    service (Z * Z) :=
  localNetworkId ← call GetLocalDeviceNetWorkId;
  match localNetworkId with
  | None => mret (BAD_CONTEXT_ID, GENERAL_ERROR)
  | Some localNetworkId =>
    let '(para, remoteAuthParam, ok) := ProcessAuthParamForRemoteAuth para remoteAuthParam localNetworkId in
    WHEN ok = false RETURN mret (BAD_CONTEXT_ID, INVALID_PARAMETERS) ;;
    let verifier := default [] (rp_verifierNetworkId remoteAuthParam) in
    let collector := default [] (rp_collectorNetworkId remoteAuthParam) in
    if decide (verifier = localNetworkId ∧ collector = localNetworkId) then
      id ← StartLocalRemoteAuthContext para (mkLocalRemote collector);
      mret (id, GENERAL_ERROR)
    else if decide (collector = localNetworkId) then
      id ← StartRemoteAuthInvokerContext authParam
        (mkRemoteInvoker [] verifier collector (pa_tokenId para) (pa_collectorTokenId para) (pa_callerName para)
          (pa_callerType para));
      mret (id, GENERAL_ERROR)
    else
      '(id, _) ← StartRemoteAuthContext para (mkRemoteContext (ap_authType authParam) [] collector []) true 0;
      mret (id, GENERAL_ERROR)
  end.

(* @src S UserAuthService::StartAuthUser *)
Definition StartAuthUser (authParam : AuthParamInner) (remoteAuthParam : option RemoteAuthParam)
    (para : AuthenticationPara) : service (Z * Z) :=
  match remoteAuthParam with
  | None =>
    background ← CheckPermission c USER_AUTH_FROM_BACKGROUND;
    contextId ← StartAuthContext para (negb background);
    WHEN contextId = BAD_CONTEXT_ID RETURN mret (GENERAL_ERROR, contextId) ;;
    mret (SUCCESS, contextId)
  | Some remoteAuthParam =>
    '(contextId, failReason) ← AuthRemoteUser authParam para remoteAuthParam;
    WHEN contextId = BAD_CONTEXT_ID RETURN (tell failReason;; mret (failReason, contextId)) ;;
    mret (SUCCESS, contextId)
  end.

(* @src S UserAuthService::StartSudoAuthContext *)
Definition StartSudoAuthContext (authParam : AuthParamInner) (para : AuthenticationPara) : service Z :=
  background ← CheckPermission c USER_AUTH_FROM_BACKGROUND;
  let sudoPara := mkSudoPara (pa_userId para) (pa_tokenId para) (pa_sdkVersion para) (pa_callerType para)
    (pa_callerName para) (pa_challenge para) (pa_atl para) (ap_additionalInfo authParam)
    (pa_isOsAccountVerified para) (negb background) in
  id ← start_context true (CreateSudoAuthContext sudoPara true);
  mret (context_id id).

(* @src S UserAuthService::StartSudoAuthUser *)
Definition StartSudoAuthUser (authParam : AuthParamInner) (remoteAuthParam : option RemoteAuthParam)
    (para : AuthenticationPara) (contextId : Z) : service (Z * Z) :=
  callerType ← GetDirectCallerType c;
  allowed ← (if decide (callerType ≠ TOKEN_NATIVE) then CheckPermission c IS_SYSTEM_APP else mret true);
  WHEN allowed = false RETURN (tell CHECK_PERMISSION_FAILED;; mret (CHECK_PERMISSION_FAILED, contextId)) ;;
  let sudoCheckRet := CheckSudoAuthParam authParam remoteAuthParam in
  WHEN sudoCheckRet ≠ SUCCESS RETURN (tell sudoCheckRet;; mret (sudoCheckRet, contextId)) ;;
  contextId ← StartSudoAuthContext authParam para;
  mret (if decide (contextId = BAD_CONTEXT_ID) then GENERAL_ERROR else SUCCESS, contextId).

(* @src S UserAuthService::AuthUser *)
Definition AuthUser (ipc : IpcAuthParamInner) (ipcRemote : IpcRemoteAuthParam) (callback : bool) : service (Z * Z) :=
  let contextId := BAD_CONTEXT_ID in
  let authParam := InitAuthParam ipc in
  let remoteAuthParam := InitRemoteAuthParam ipcRemote in
  contextCallback ← GetAuthContextCallback callback;
  CHECK contextCallback = true ELSE mret (GENERAL_ERROR, contextId) ;;
  '(found, callerName, callerType) ← GetCallerName c [];
  WHEN found = false RETURN (tell GENERAL_ERROR;; mret (GENERAL_ERROR, contextId)) ;;
  ok ← CheckAuthPermissionAndParam_AuthUser (ap_authType authParam) (ap_authTrustLevel authParam);
  CHECK ok = true ELSE mret (CHECK_PERMISSION_FAILED, contextId) ;;
  isOsAccountVerified ← IsOsAccountVerified (ap_userId authParam);
  let para := mkAuthPara (ap_userId authParam) (ap_authType authParam) (ap_authTrustLevel authParam)
    (GetAccessTokenId c) 0 (ap_challenge authParam) false callerName INNER_API_VERSION_10000 callerType
    (ap_authIntent authParam) isOsAccountVerified (ap_skipLockedBiometricAuth authParam)
    (ap_credentialIdList authParam) [] AUTH_SCENE_DEFAULT 0 in
  if decide (ap_authIntent authParam = SUDO_PIN_AUTH)
  then StartSudoAuthUser authParam remoteAuthParam para contextId
  else StartAuthUser authParam remoteAuthParam para.

(** ** Identification, cancellation, version *)

(** For a null context the cleaner does nothing and the pool refuses. *)
(* @src S UserAuthService::Identify *)
Definition Identify (challenge : bytes) (authType : Z) (callback : bool) : service (Z * Z) :=
  let contextId := BAD_CONTEXT_ID in
  CHECK callback = true ELSE mret (INVALID_PARAMETERS, contextId) ;;
  contextCallback ← call (MakeShared "ContextCallbackImpl");
  WHEN contextCallback = false
  RETURN (tell_raw GENERAL_ERROR;; mret (GENERAL_ERROR, contextId)) ;;
  WHEN authType = PIN RETURN (tell TYPE_NOT_SUPPORT;; mret (GENERAL_ERROR, contextId)) ;;
  ok ← CheckPermission c ACCESS_USER_AUTH_INTERNAL_PERMISSION;
  WHEN ok = false RETURN (tell CHECK_PERMISSION_FAILED;; mret (CHECK_PERMISSION_FAILED, contextId)) ;;
  id ← start_context true (CreateIdentifyContext (mkIdentify authType (GetAccessTokenId c) challenge) true);
  match id with
  | None => mret (GENERAL_ERROR, contextId)
  | Some contextId => mret (SUCCESS, contextId)
  end.

(* @src S UserAuthService::CancelAuthOrIdentify *)
Definition CancelAuthOrIdentify (contextId cancelReason : Z) : service Z :=
  ok ← or_else (CheckPermission c ACCESS_USER_AUTH_INTERNAL_PERMISSION) (CheckPermission c ACCESS_BIOMETRIC_PERMISSION);
  CHECK ok = true ELSE mret CHECK_PERMISSION_FAILED ;;
  context ← call (PoolSelect contextId);
  match context with
  | None => mret INVALID_CONTEXT_ID
  | Some tokenId =>
    WHEN tokenId ≠ GetAccessTokenId c RETURN mret CHECK_PERMISSION_FAILED ;;
    (if decide (cancelReason = MODAL_CREATE_ERROR ∨ cancelReason = MODAL_RUN_ERROR)
     then call ReportAuthWidgetFault else mret ());;
    call (PoolCancel contextId);;
    mret SUCCESS
  end.

(** The result code and [version]. *)
(* @src S UserAuthService::GetVersion *)
Definition GetVersion : service (Z * Z) :=
  ok ← or_else (CheckPermission c ACCESS_USER_AUTH_INTERNAL_PERMISSION) (CheckPermission c ACCESS_BIOMETRIC_PERMISSION);
  CHECK ok = true ELSE mret (CHECK_PERMISSION_FAILED, MINIMUM_VERSION) ;;
  mret (SUCCESS, CURRENT_VERSION).

(** ** Preparing a remote authentication *)

(* @src S UserAuthService::DoPrepareRemoteAuth *)
Definition DoPrepareRemoteAuth (networkId : bytes) : service Z :=
  udid ← call (GetUdidByNetworkId networkId);
  match udid with
  | None => mret GENERAL_ERROR
  | Some udid =>
    ret ← call (EngPrepareRemoteAuth udid);
    WHEN ret = DEVICE_CAPABILITY_NOT_SUPPORT ∨ ret = REMOTE_DEVICE_CONNECTION_FAIL RETURN mret ret ;;
    CHECK ret = SUCCESS ELSE mret GENERAL_ERROR ;;
    mret SUCCESS
  end.

(* @src S UserAuthService::PrepareRemoteAuthInner *)
Definition PrepareRemoteAuthInner (networkId : bytes) (callback : bool) : service Z :=
  WHEN networkId = [] RETURN mret INVALID_PARAMETERS ;;
  CHECK callback = true ELSE mret INVALID_PARAMETERS ;;
  ok ← CheckPermission c ACCESS_USER_AUTH_INTERNAL_PERMISSION;
  CHECK ok = true ELSE mret CHECK_PERMISSION_FAILED ;;
  handler ← call GetSingleThreadInstance;
  CHECK handler = true ELSE mret GENERAL_ERROR ;;
  call (PostTask (TaskPrepareRemoteAuth networkId));;
  mret SUCCESS.

(* @src S UserAuthService::PrepareRemoteAuth *)
Definition PrepareRemoteAuth (networkId : bytes) (callback : bool) : service Z :=
  CHECK callback = true ELSE mret INVALID_PARAMETERS ;;
  ret ← PrepareRemoteAuthInner networkId callback;
  (if decide (ret ≠ SUCCESS) then tell_raw ret else mret ());;
  mret SUCCESS.

(** The task on the service thread; [service] tells whether the service is there. *)
(* @src S:875-891 UserAuthService::PrepareRemoteAuthInner *)
Definition run_PrepareRemoteAuth (networkId : bytes) (service_ : bool) : service () :=
  CHECK service_ = true ELSE tell_raw GENERAL_ERROR ;;
  ret ← DoPrepareRemoteAuth networkId;
  tell_raw ret.

(** ** Authentication with the widget *)

(* @src S UserAuthService::CheckCallerPermissionForPrivatePin *)
Definition CheckCallerPermissionForPrivatePin (authParam : AuthParamInner) : service Z :=
  WHEN PRIVATE_PIN ∉ ap_authTypes authParam RETURN mret SUCCESS ;;
  ok ← or_else (CheckPermission c ACCESS_USER_AUTH_INTERNAL_PERMISSION) (CheckPermission c IS_SYSTEM_APP);
  mret (if (ok : bool) then SUCCESS else CHECK_PERMISSION_FAILED).

(* @src S UserAuthService::CheckCallerPermissionForUserId *)
Definition CheckCallerPermissionForUserId (authParam : AuthParamInner) : service Z :=
  if decide (ap_isUserIdSpecified authParam = false) then
    ok ← CheckPermission c ACCESS_BIOMETRIC_PERMISSION;
    mret (if (ok : bool) then SUCCESS else CHECK_PERMISSION_FAILED)
  else
    inner ← CheckPermission c ACCESS_USER_AUTH_INTERNAL_PERMISSION;
    WHEN inner = true RETURN mret SUCCESS ;;
    '(ret, userId) ← GetCallingUserId c INVALID_USER_ID;
    CHECK ret = SUCCESS ELSE mret GENERAL_ERROR ;;
    ok ← and_then (CheckPermission c ACCESS_BIOMETRIC_PERMISSION)
      (or_else (CheckPermission c IS_SYSTEM_APP) (mret (bool_decide (ap_userId authParam = userId))));
    mret (if (ok : bool) then SUCCESS else CHECK_PERMISSION_FAILED).

(* @src S UserAuthService::CheckWindowMode *)
Definition CheckWindowMode (widgetParam : WidgetParamInner) : service Z :=
  isSystemApp ← CheckPermission c IS_SYSTEM_APP;
  WHEN isSystemApp = false ∧ wi_windowMode widgetParam = NONE_INTERRUPTION_DIALOG_BOX
  RETURN mret CHECK_SYSTEM_APP_FAILED ;;
  isSystemApp ← CheckPermission c IS_SYSTEM_APP;
  WHEN isSystemApp = false ∧ wi_windowMode widgetParam ≠ UNKNOWN_WINDOW_MODE RETURN mret INVALID_PARAMETERS ;;
  mret SUCCESS.

(* @src S#3 UserAuthService::CheckAuthPermissionAndParam *)
Definition CheckAuthPermissionAndParam_Widget (authParam : AuthParamInner) (widgetParam : WidgetParamInner)
    (isBackgroundApplication : bool) : service Z :=
  WHEN MAX_USER_CREDENTIAL_SIZE < Z.of_nat (length (ap_credentialIdList authParam)) RETURN mret INVALID_PARAMETERS ;;
  checkRet ← CheckWindowMode widgetParam;
  CHECK checkRet = SUCCESS ELSE mret checkRet ;;
  privatePin ← CheckCallerPermissionForPrivatePin authParam;
  CHECK privatePin = SUCCESS ELSE mret CHECK_PERMISSION_FAILED ;;
  forUserId ← CheckCallerPermissionForUserId authParam;
  CHECK forUserId = SUCCESS ELSE mret CHECK_PERMISSION_FAILED ;;
  mayRun ← (if isBackgroundApplication then CheckPermission c USER_AUTH_FROM_BACKGROUND else mret true);
  CHECK mayRun = true ELSE mret CHECK_PERMISSION_FAILED ;;
  let ret := CheckAuthWidgetType (ap_authTypes authParam) in
  CHECK ret = SUCCESS ELSE mret ret ;;
  CHECK CheckAuthTrustLevel (ap_authTrustLevel authParam) (ap_authType authParam) = true
  ELSE mret TRUST_LEVEL_NOT_SUPPORT ;;
  mret (CheckAuthWidgetParam authParam widgetParam).

(** [para] after the assignments in front, and what became of the start. *)
(* @src S UserAuthService::StartWidgetContext *)
Definition StartWidgetContext (authParam : AuthParamInner) (widgetParam : WidgetParamInner) (validType : list Z)
    (para : AuthWidgetContextPara) (modalCallback : bool) : service Z :=
  isOsAccountVerified ← IsOsAccountVerified (wc_userId para);
  let para := set_caller para (GetAccessTokenId c) isOsAccountVerified in
  let '(para, ok) := InitWidgetContextParam authParam validType widgetParam para in
  WHEN ok = false RETURN (tell GENERAL_ERROR;; mret BAD_CONTEXT_ID) ;;
  remote ← match ap_remoteTokenId authParam with
    | None => mret (Some (para, false))
    | Some remoteTokenId =>
      remoteAuthCallback ← call (GetRemoteAuthCallback remoteTokenId);
      CHECK remoteAuthCallback = true ELSE mret None ;;
      callerName ← GetRemoteAuthCallerName remoteTokenId;
      mret (Some (if decide (callerName ≠ []) then set_remoteCallerName para callerName else para, true))
    end;
  match remote with
  | None => tell GENERAL_ERROR;; mret BAD_CONTEXT_ID
  | Some (para, remoteAuthCallback) =>
    id ← start_context false (CreateWidgetContext para true true modalCallback remoteAuthCallback);
    mret (context_id id)
  end.

(** The loop over [validType]: what is kept, and the profiles found. *)
Definition profile_step (para : AuthWidgetContextPara) (authParam : AuthParamInner)
    (kept : list Z * gmap Z AuthProfile) (type : Z) : service (list Z * gmap Z AuthProfile) :=
  let '(validType, profiles) := kept in
  '(ret, profile) ← GetUserAuthProfile (wc_userId para) type AuthProfile_new (ap_credentialIdList authParam);
  WHEN ret ≠ SUCCESS ∧ ret ≠ NOT_ENROLLED RETURN mret (validType, profiles) ;;
  WHEN ap_skipLockedBiometricAuth authParam = true ∧ remainTimes profile = 0 ∧ type ≠ PIN ∧ type ≠ PRIVATE_PIN
  RETURN mret (validType, delete type profiles) ;;
  mret (validType ++ [type], <[type := profile]> profiles).

(* @src S UserAuthService::CheckSkipLockedBiometricAuth *)
Definition CheckSkipLockedBiometricAuth (para : AuthWidgetContextPara) (authParam : AuthParamInner)
    (widgetParam : WidgetParamInner) (validType : list Z) : service (Z * AuthWidgetContextPara * list Z) :=
  WHEN validType = [] RETURN mret (TYPE_NOT_SUPPORT, para, validType) ;;
  '(validType, profiles) ← for_each (profile_step para authParam) ([], wc_authProfileMap para) validType;
  let para := set_authProfileMap para profiles in
  WHEN wi_navigationButtonText widgetParam ≠ [] ∧ validType = [] RETURN mret (CANCELED_FROM_WIDGET, para, validType) ;;
  WHEN validType = [] RETURN mret (LOCKED, para, validType) ;;
  mret (SUCCESS, para, validType).

(** [SUCCESS] comes with a credential. *)
(* @src S UserAuthService::GetAuthTypesFromCredentialIds *)
Definition GetAuthTypesFromCredentialIds (authParam : AuthParamInner) : service (list Z) :=
  WHEN ap_credentialIdList authParam = [] RETURN mret (ap_authTypes authParam) ;;
  let credList := remove_dups (merge_sort Z.le (ap_credentialIdList authParam)) in
  for_each (λ authTypeList credId,
    '(ret, credInfo) ← GetCredentialInfoById credId;
    match credInfo with
    | Some credInfo =>
      CHECK ret = SUCCESS ELSE mret authTypeList ;;
      mret (authTypeList ++ [GetAuthType credInfo])
    | None => mret authTypeList
    end) [] credList.

(* @src S UserAuthService::FilterFaceNotAvailable *)
Definition FilterFaceNotAvailable (para : AuthWidgetContextPara) (validType : list Z) :
    AuthWidgetContextPara * list Z :=
  WHEN length validType = 1%nat RETURN (para, validType) ;;
  match wc_authProfileMap para !! FACE with
  | Some face =>
    CHECK cameraStatus face = CAMERA_NOT_AVAILABLE ELSE (para, validType) ;;
    (set_authProfileMap para (delete FACE (wc_authProfileMap para)), filter (λ ty, ty ≠ FACE) validType)
  | None => (para, validType)
  end.

(** The types that do not need the user to have unlocked since the start. *)
Definition no_biometrics (validType : list Z) : list Z :=
  filter (λ ty, ty = PIN ∨ ty = PRIVATE_PIN ∨ ty = ENTERPRISE_ACCOUNT) validType.

(* @src S UserAuthService::CheckValidSolution *)
Definition CheckValidSolution (para : AuthWidgetContextPara) (authParam : AuthParamInner)
    (widgetParam : WidgetParamInner) (validType : list Z) : service (Z * AuthWidgetContextPara * list Z) :=
  authTypes ← GetAuthTypesFromCredentialIds authParam;
  '(ret, validType) ← EngineValidSolution (wc_userId para) authTypes (ap_authTrustLevel authParam) validType;
  CHECK ret = SUCCESS ELSE mret (ret, para, validType) ;;
  WHEN wi_navigationButtonText widgetParam ≠ [] ∧ CheckAuthTypeOnly validType [FACE; FINGERPRINT] = false
  RETURN mret (INVALID_PARAMETERS, para, validType) ;;
  WHEN wi_windowMode widgetParam = FULLSCREEN ∧ CheckAuthTypeOnly validType [FACE; FINGERPRINT] = true
  RETURN mret (INVALID_PARAMETERS, para, validType) ;;
  CHECK CheckPrivatePinEnroll (ap_authTypes authParam) validType = true
  ELSE mret (INVALID_PARAMETERS, para, validType) ;;
  verified ← IsOsAccountVerified (wc_userId para);
  let validType := if (verified : bool) then validType else no_biometrics validType in
  CheckSkipLockedBiometricAuth para authParam widgetParam validType.

(* @src S UserAuthService::ProcessPinExpired *)
Definition ProcessPinExpired (ret : Z) (authParam : AuthParamInner) (validType : list Z) (para : AuthWidgetContextPara) :
    service (Z * list Z * AuthWidgetContextPara) :=
  WHEN ret ≠ PIN_EXPIRED RETURN mret (SUCCESS, validType, para) ;;
  let para := set_isPinExpired para true in
  let pinType := if decide (PRIVATE_PIN ∈ ap_authTypes authParam) then PRIVATE_PIN else PIN in
  let validType := if decide (pinType = PRIVATE_PIN) then [PRIVATE_PIN] else validType ++ [PIN] in
  WHEN is_Some (wc_authProfileMap para !! pinType) RETURN mret (SUCCESS, validType, para) ;;
  '(queryRet, profile) ← GetUserAuthProfile (wc_userId para) pinType AuthProfile_new (ap_credentialIdList authParam);
  WHEN queryRet ≠ SUCCESS ∧ queryRet ≠ NOT_ENROLLED RETURN mret (GENERAL_ERROR, validType, para) ;;
  mret (SUCCESS, validType, set_authProfileMap para (<[pinType := profile]> (wc_authProfileMap para))).

(* @src S UserAuthService::StartAuthWidget *)
Definition StartAuthWidget (authParam : AuthParamInner) (widgetParam : WidgetParamInner) (para : AuthWidgetContextPara)
    (modalCallback : bool) (contextId : Z) : service (Z * Z) :=
  '(checkRet, para, validType) ← CheckValidSolution para authParam widgetParam [];
  WHEN checkRet ≠ SUCCESS ∧ checkRet ≠ PIN_EXPIRED RETURN (tell checkRet;; mret (checkRet, contextId)) ;;
  '(pinExpiredRet, validType, para) ← ProcessPinExpired checkRet authParam validType para;
  WHEN pinExpiredRet ≠ SUCCESS RETURN (tell pinExpiredRet;; mret (pinExpiredRet, contextId)) ;;
  let '(para, validType) := FilterFaceNotAvailable para validType in
  contextId ← StartWidgetContext authParam widgetParam validType para modalCallback;
  WHEN contextId = BAD_CONTEXT_ID RETURN mret (GENERAL_ERROR, contextId) ;;
  mret (SUCCESS, contextId).

(* @src S UserAuthService::GetCallerInfo *)
Definition GetCallerInfo (isUserIdSpecified : bool) (userId apiVersion : Z) : service (Z * AuthWidgetContextPara) :=
  '(_, callerName, callerType) ← GetCallerName c [];
  '(_, callingAppID, callingAppIdentifier) ← GetCallingAppID c;
  foreground ← (if decide (apiVersion < INNER_API_VERSION_10000 ∧ callerType = TOKEN_HAP)
    then CheckForegroundApplication callerName else mret true);
  let para := λ userId, mkWidgetPara userId apiVersion 0 callerName [] [] ATL1 (mkWidgetParam [] [] 0 false) ∅
    callerType callingAppID callingAppIdentifier false false (negb foreground) false [] [] 0 in
  WHEN isUserIdSpecified = true RETURN mret (SUCCESS, para userId) ;;
  '(ret, userId) ← GetCallingUserId c INVALID_USER_ID;
  CHECK ret = SUCCESS ELSE mret (GENERAL_ERROR, para userId) ;;
  mret (SUCCESS, para userId).

(** The overload of [GetAuthContextCallback] only traces more. *)
(* @src S UserAuthService::AuthWidget *)
Definition AuthWidget (apiVersion : Z) (ipc : IpcAuthParamInner) (ipcWidget : IpcWidgetParamInner)
    (callback modalCallback : bool) (contextId : Z) : service (Z * Z) :=
  let authParam := InitAuthParam ipc in
  let widgetParam := InitWidgetParam ipcWidget in
  contextCallback ← GetAuthContextCallback callback;
  CHECK contextCallback = true ELSE mret (GENERAL_ERROR, contextId) ;;
  '(checkRet, para) ← GetCallerInfo (ap_isUserIdSpecified authParam) (ap_userId authParam) apiVersion;
  WHEN checkRet ≠ SUCCESS RETURN (tell checkRet;; mret (checkRet, contextId)) ;;
  checkRet ← CheckAuthPermissionAndParam_Widget authParam widgetParam (wc_isBackgroundApplication para);
  WHEN checkRet ≠ SUCCESS RETURN (tell checkRet;; mret (checkRet, contextId)) ;;
  manageSecurity ← CheckPermission c ENTERPRISE_MANAGE_SECURITY;
  let para := if (manageSecurity : bool)
    then set_callerPermissions para (Z.lor (wc_callerPermissions para) ENG_CALLER_PERM_ENTERPRISE_MANAGE_SECURITY)
    else para in
  '(reuse, extraInfo) ← CheckReuseUnlockResult para authParam Attributes_new;
  WHEN reuse = SUCCESS
  RETURN (call (OnResult true SUCCESS extraInfo);; mret (SUCCESS, REUSE_AUTH_RESULT_CONTEXT_ID)) ;;
  StartAuthWidget authParam widgetParam para modalCallback contextId.

(** ** The widget's own requests *)

(** [IS_SYSTEM_APP] and then [permission]. *)
Definition check_system_app (permission : Permission) (next : service Z) : service Z :=
  isSystemApp ← CheckPermission c IS_SYSTEM_APP;
  CHECK isSystemApp = true ELSE mret CHECK_SYSTEM_APP_FAILED ;;
  ok ← CheckPermission c permission;
  CHECK ok = true ELSE mret CHECK_PERMISSION_FAILED ;;
  next.

(* @src S UserAuthService::Notice *)
Definition Notice (noticeType : Z) (eventData : bytes) : service Z :=
  check_system_app SUPPORT_USER_AUTH (call (WidgetOnNotice noticeType eventData)).

(** [std::stoi(NOTICE_VERSION_STR)] is 1. *)
(* @src S UserAuthService::RegisterWidgetCallback *)
Definition RegisterWidgetCallback (version : Z) (widgetCallback : bool) : service Z :=
  check_system_app SUPPORT_USER_AUTH (
    WHEN version ≠ 1 RETURN mret INVALID_PARAMETERS ;;
    CHECK widgetCallback = true ELSE mret INVALID_PARAMETERS ;;
    call SetWidgetCallback;;
    call (SetAuthTokenId (GetTokenId c));;
    mret SUCCESS).

(** ** Enrolled and lock state *)

(** The result code and [ipcEnrolledState]. *)
(* @src S UserAuthService::GetEnrolledStateImpl *)
Definition GetEnrolledStateImpl (apiVersion authType : Z) (ipcEnrolledState : EngEnrolledState) :
    service (Z * EngEnrolledState) :=
  ok ← CheckPermission c ACCESS_BIOMETRIC_PERMISSION;
  CHECK ok = true ELSE mret (CHECK_PERMISSION_FAILED, ipcEnrolledState) ;;
  WHEN apiVersion < API_VERSION_12 RETURN mret (TYPE_NOT_SUPPORT, ipcEnrolledState) ;;
  '(ret, userId) ← GetCallingUserId c INVALID_USER_ID;
  CHECK ret = SUCCESS ELSE mret (GENERAL_ERROR, ipcEnrolledState) ;;
  '(result, hdiEnrolledState) ← call (EngGetEnrolledState userId authType);
  CHECK result = SUCCESS ELSE mret (result, ipcEnrolledState) ;;
  let digest := es_credentialDigest hdiEnrolledState in
  let digest := if decide (apiVersion < INNER_API_VERSION_10000) then Z.land digest UINT16_MAX else digest in
  mret (SUCCESS, mkEnrolledState digest (es_credentialCount hdiEnrolledState)).

(* @src S UserAuthService::GetEnrolledState *)
Definition GetEnrolledState (apiVersion authType : Z) (ipcEnrolledState : EngEnrolledState) :
    service (Z * EngEnrolledState * Z) :=
  '(funcResult, state) ← GetEnrolledStateImpl apiVersion authType ipcEnrolledState;
  mret (SUCCESS, state, funcResult).

(* @src S UserAuthService::GetAuthLockState *)
Definition GetAuthLockState (authType : Z) (callback : bool) : service Z :=
  CHECK callback = true ELSE mret INVALID_PARAMETERS ;;
  ok ← CheckPermission c ACCESS_BIOMETRIC_PERMISSION;
  WHEN ok = false RETURN (answer_property CHECK_PERMISSION_FAILED Attributes_new;; mret SUCCESS) ;;
  '(ret, userId) ← GetCallingUserId c INVALID_USER_ID;
  WHEN ret ≠ SUCCESS RETURN (answer_property GENERAL_ERROR Attributes_new;; mret SUCCESS) ;;
  GetPropertyHelper userId authType [ATTR_REMAIN_TIMES; ATTR_FREEZING_TIME].

(** ** Listeners *)

(* @src S UserAuthService::RegistUserAuthSuccessEventListener *)
Definition RegistUserAuthSuccessEventListener (listener : bool) : service Z :=
  CHECK listener = true ELSE mret INVALID_PARAMETERS ;;
  ok ← CheckPermission c ACCESS_USER_AUTH_INTERNAL_PERMISSION;
  CHECK ok = true ELSE mret CHECK_PERMISSION_FAILED ;;
  call (RegistEventListener false).

(* @src S UserAuthService::UnRegistUserAuthSuccessEventListener *)
Definition UnRegistUserAuthSuccessEventListener (listener : bool) : service Z :=
  CHECK listener = true ELSE mret INVALID_PARAMETERS ;;
  ok ← CheckPermission c ACCESS_USER_AUTH_INTERNAL_PERMISSION;
  CHECK ok = true ELSE mret CHECK_PERMISSION_FAILED ;;
  call (UnRegistEventListener false).

(** ** Passive user recognition *)

(** The permission, then the capability, then [next]. *)
Definition check_recognition (next : service Z) : service Z :=
  ok ← CheckPermission c ACCESS_USER_PASSIVE_RECOGNITION_PERMISSION;
  CHECK ok = true ELSE mret CHECK_PERMISSION_FAILED ;;
  capability ← call EngGetCapability;
  WHEN Z.land capability SUPPORT_USER_RECOGNITION = 0 RETURN mret DEVICE_CAPABILITY_NOT_SUPPORT ;;
  next.

(** The result code and [checkResult]. *)
(* @src S UserAuthService::CheckUserRecognitionCapability *)
Definition CheckUserRecognitionCapability : service (Z * Z) :=
  checkResult ← check_recognition (mret SUCCESS);
  mret (SUCCESS, checkResult).

(** The result code, [result] if it is written, and [funcResult]. *)
(* @src S UserAuthService::GetUserRecognitionResult *)
Definition GetUserRecognitionResult (result : Z) : service (Z * Z * Z) :=
  ok ← CheckPermission c ACCESS_USER_PASSIVE_RECOGNITION_PERMISSION;
  CHECK ok = true ELSE mret (SUCCESS, result, CHECK_PERMISSION_FAILED) ;;
  capability ← call EngGetCapability;
  WHEN Z.land capability SUPPORT_USER_RECOGNITION = 0
  RETURN mret (SUCCESS, result, DEVICE_CAPABILITY_NOT_SUPPORT) ;;
  result ← call GetCachedUserRecognitionResult;
  mret (SUCCESS, result, SUCCESS).

(* @src S UserAuthService::RegisterUserRecognitionEventListener *)
Definition RegisterUserRecognitionEventListener (listener : bool) : service Z :=
  CHECK listener = true ELSE mret INVALID_PARAMETERS ;;
  check_recognition (call RegisterRecognitionListener).

(* @src S UserAuthService::UnregisterUserRecognitionEventListener *)
Definition UnregisterUserRecognitionEventListener (listener : bool) : service Z :=
  CHECK listener = true ELSE mret INVALID_PARAMETERS ;;
  check_recognition (call UnregisterRecognitionListener).

(** ** Tokens *)

(* @src S UserAuthService::GetAuthTokenAttr *)
Definition GetAuthTokenAttr (tokenPlain : EngUserAuthTokenPlain) (rootSecret : bytes) (extraInfo : Attributes) :
    Attributes * bool :=
  set_all extraInfo ([
    (λ e, SetUint32Value e ATTR_TOKEN_VERSION (tp_version tokenPlain));
    (λ e, SetInt32Value e ATTR_USER_ID (tp_userId tokenPlain));
    (λ e, SetUint8ArrayValue e ATTR_CHALLENGE (tp_challenge tokenPlain));
    (λ e, SetUint64Value e ATTR_TOKEN_TIME_INTERVAL (tp_timeInterval tokenPlain));
    (λ e, SetUint32Value e ATTR_AUTH_TRUST_LEVEL (tp_authTrustLevel tokenPlain));
    (λ e, SetInt32Value e ATTR_AUTH_TYPE (tp_authType tokenPlain));
    (λ e, SetInt32Value e ATTR_TOKEN_TYPE (tp_tokenType tokenPlain));
    (λ e, SetUint64Value e ATTR_SEC_USER_ID (tp_secureUid tokenPlain));
    (λ e, SetUint64Value e ATTR_CREDENTIAL_DIGEST (tp_enrolledId tokenPlain));
    (λ e, SetUint64Value e ATTR_CREDENTIAL_ID (tp_credentialId tokenPlain))] ++
    if decide (rootSecret = []) then [] else [(λ e, SetUint8ArrayValue e ATTR_ROOT_SECRET rootSecret)]).

(** Answers the callback of [VerifyAuthToken] and returns the code. *)
Definition answer_verify (code : Z) (extraInfo : Attributes) : service Z :=
  call (OnVerifyTokenResult code (Serialize extraInfo));; mret code.

(* @src S UserAuthService::VerifyAuthToken *)
Definition VerifyAuthToken (tokenIn : bytes) (allowableDuration : Z) (callback : bool) : service Z :=
  CHECK callback = true ELSE mret INVALID_PARAMETERS ;;
  WHEN tokenIn = [] RETURN answer_verify INVALID_PARAMETERS Attributes_new ;;
  ok ← CheckPermission c USE_USER_ACCESS_MANAGER;
  CHECK ok = true ELSE answer_verify CHECK_PERMISSION_FAILED Attributes_new ;;
  callerType ← GetDirectCallerType c;
  allowed ← (if decide (callerType ≠ TOKEN_NATIVE) then CheckPermission c IS_SYSTEM_APP else mret true);
  CHECK allowed = true ELSE answer_verify CHECK_SYSTEM_APP_FAILED Attributes_new ;;
  '(result, tokenPlain, rootSecret) ← call (EngVerifyAuthToken tokenIn allowableDuration);
  CHECK result = SUCCESS ELSE answer_verify result Attributes_new ;;
  let '(extraInfo, filled) := GetAuthTokenAttr tokenPlain rootSecret Attributes_new in
  CHECK filled = true ELSE answer_verify GENERAL_ERROR extraInfo ;;
  answer_verify SUCCESS extraInfo.

Definition set_userId (p : AuthParamInner) (v : Z) : AuthParamInner :=
  mkAuthParam v (ap_isUserIdSpecified p) (ap_challenge p) (ap_authType p) (ap_authTypes p) (ap_authTrustLevel p)
    (ap_reuseUnlockResult p) (ap_authIntent p) (ap_skipLockedBiometricAuth p) (ap_credentialIdList p)
    (ap_remoteTokenId p) (ap_additionalInfo p).

(** The result code and [token]. *)
(* @src S UserAuthService::QueryReusableAuthResult *)
Definition QueryReusableAuthResult (ipc : IpcAuthParamInner) (token : bytes) : service (Z * bytes) :=
  ok ← CheckPermission c ACCESS_USER_AUTH_INTERNAL_PERMISSION;
  CHECK ok = true ELSE mret (CHECK_PERMISSION_FAILED, token) ;;
  callerType ← GetDirectCallerType c;
  systemApp ← (if decide (callerType = TOKEN_HAP) then CheckPermission c IS_SYSTEM_APP else mret false);
  CHECK systemApp = true ELSE mret (CHECK_SYSTEM_APP_FAILED, token) ;;
  let authParam := InitAuthParam ipc in
  CHECK Helper_CheckAuthTrustLevel (ap_authTrustLevel authParam) = true ELSE mret (TRUST_LEVEL_NOT_SUPPORT, token) ;;
  CHECK forallb CheckUserAuthType (ap_authTypes authParam) = true ELSE mret (TYPE_NOT_SUPPORT, token) ;;
  '(ret, userId) ← (if decide (ap_isUserIdSpecified authParam = false)
    then GetCallingUserId c (ap_userId authParam) else mret (SUCCESS, ap_userId authParam));
  CHECK ret = SUCCESS ELSE mret (GENERAL_ERROR, token) ;;
  '(result, reuseResultInfo) ← AuthWidgetHelper.QueryReusableAuthResult userId (set_userId authParam userId);
  CHECK result = SUCCESS ELSE mret (result, token) ;;
  mret (SUCCESS, er_token reuseResultInfo).

(** ** Callbacks for remote authentication *)

(* @src S UserAuthService::RegisterRemoteAuthCallback *)
Definition RegisterRemoteAuthCallback (remoteAuthCallback : bool) : service Z :=
  CHECK remoteAuthCallback = true ELSE mret INVALID_PARAMETERS ;;
  check_system_app ACCESS_USER_AUTH_INTERNAL_PERMISSION (
    '(found, _, _) ← GetCallerName c [];
    CHECK found = true ELSE mret GENERAL_ERROR ;;
    call (AddRemoteAuthCallback (GetAccessTokenId c))).

(* @src S UserAuthService::UnregisterRemoteAuthCallback *)
Definition UnregisterRemoteAuthCallback : service Z :=
  check_system_app ACCESS_USER_AUTH_INTERNAL_PERMISSION (
    call (DelRemoteAuthCallback (GetAccessTokenId c));;
    mret SUCCESS).
End Request.

(** ** Configuration *)

(* @src CD:const PIN_EXPIRED_PERIOD *)
Definition PIN_EXPIRED_PERIOD : Z := 1.
(* @src CD:const ENABLE_STATUS *)
Definition ENABLE_STATUS : Z := 2.
(* @src CD:const PIN_ALGO_TYPE *)
Definition PIN_ALGO_TYPE : Z := 3.
(* @src CD:const DISABLE_PIN_DELETION *)
Definition DISABLE_PIN_DELETION : Z := 4.
(* @src CD:const AES_GCM *)
Definition AES_GCM : Z := 0.
(* @src CD:const SM4 *)
Definition SM4 : Z := 1.

(* @src G CheckPinAlgoType *)
Definition CheckPinAlgoType (pinAlgoType : Z) : bool :=
  WHEN pinAlgoType ≠ AES_GCM ∧ pinAlgoType ≠ SM4 RETURN false ;;
  true.

(* @src G CheckParam *)
Definition CheckParam (ipc : IpcGlobalConfigParam) : bool :=
  WHEN MAX_USER < Z.of_nat (length (ig_userIds ipc)) ∨ MAX_AUTH_TYPE_SIZE < Z.of_nat (length (ig_authTypes ipc)) ∨
    ig_authTypes ipc = [] RETURN false ;;
  if decide (ig_type ipc ∈ [PIN_EXPIRED_PERIOD; PIN_ALGO_TYPE; DISABLE_PIN_DELETION])
  then bool_decide (ig_authTypes ipc = [PIN])
  else bool_decide (ig_type ipc = ENABLE_STATUS).

(* @src G FillGlobalConfigValue *)
Definition FillGlobalConfigValue (ipc : IpcGlobalConfigParam) : option EngGlobalConfigValue :=
  let value := ig_value ipc in
  if decide (ig_type ipc = PIN_EXPIRED_PERIOD) then Some (pinExpiredPeriod (wrapS 64 (ig_pinExpiredPeriod value)))
  else if decide (ig_type ipc = ENABLE_STATUS) then Some (enableStatus (ig_enableStatus value))
  else if decide (ig_type ipc = PIN_ALGO_TYPE) then
    CHECK CheckPinAlgoType (ig_pinAlgoType value) = true ELSE None ;;
    Some (pinAlgoType (ig_pinAlgoType value))
  else if decide (ig_type ipc = DISABLE_PIN_DELETION) then Some (disablePinDeletion (ig_disablePinDeletion value))
  else None.

(* @src G BuildEngGlobalConfigParam *)
Definition BuildEngGlobalConfigParam (ipc : IpcGlobalConfigParam) : option EngGlobalConfigParam :=
  CHECK CheckParam ipc = true ELSE None ;;
  value ← FillGlobalConfigValue ipc;
  Some (mkEngGlobalConfig (ig_type ipc) value (ig_userIds ipc) (ig_authTypes ipc)).

(* @src G UserAuthService::IsUserIdValid *)
Definition IsUserIdValid (userId : Z) : service bool :=
  WHEN userId = 0 RETURN mret true ;;
  '(ret, userIds) ← GetAllUserId [];
  CHECK ret = SUCCESS ELSE mret false ;;
  mret (bool_decide (userId ∈ userIds)).

Section Config.
Context (c : Caller).

(* @src G UserAuthService::SetGlobalConfigParam *)
Definition SetGlobalConfigParam (ipc : IpcGlobalConfigParam) : service Z :=
  ok ← and_then (CheckPermission c ACCESS_USER_AUTH_INTERNAL_PERMISSION) (CheckPermission c ENTERPRISE_DEVICE_MGR);
  CHECK ok = true ELSE mret CHECK_PERMISSION_FAILED ;;
  match BuildEngGlobalConfigParam ipc with
  | None => mret INVALID_PARAMETERS
  | Some paramConfig => call (EngSetGlobalConfigParam paramConfig)
  end.

(** A native caller or a system application, then the access manager. *)
Definition check_access_manager {A} (failed : Z → A) (next : service A) : service A :=
  callerType ← GetDirectCallerType c;
  allowed ← (if decide (callerType = TOKEN_NATIVE) then mret true else CheckPermission c IS_SYSTEM_APP);
  CHECK allowed = true ELSE mret (failed CHECK_SYSTEM_APP_FAILED) ;;
  ok ← CheckPermission c USE_USER_ACCESS_MANAGER;
  CHECK ok = true ELSE mret (failed CHECK_PERMISSION_FAILED) ;;
  next.

(* @src G UserAuthService::SetUserConfigParam *)
Definition SetUserConfigParam (ipc : IpcGlobalConfigParam) : service Z :=
  check_access_manager id (
    match ig_userIds ipc with
    | [userId] =>
      valid ← IsUserIdValid userId;
      CHECK valid = true ELSE mret INVALID_PARAMETERS ;;
      match BuildEngGlobalConfigParam ipc with
      | None => mret INVALID_PARAMETERS
      | Some paramConfig => call (EngSetUserConfigParam paramConfig)
      end
    | _ => mret INVALID_PARAMETERS
    end).

(** The result and [ipcGlobalConfigValue]. *)
(* @src G UserAuthService::GetUserConfigParamInner *)
Definition GetUserConfigParamInner (userId authType type : Z) (value : IpcGlobalConfigValue) :
    service (Z * IpcGlobalConfigValue) :=
  valid ← IsUserIdValid userId;
  CHECK valid = true ELSE mret (INVALID_PARAMETERS, value) ;;
  '(result, period, disableDeletion) ← call (EngGetUserConfigParam userId authType type);
  CHECK result = SUCCESS ELSE mret (result, value) ;;
  if decide (type = PIN_EXPIRED_PERIOD) then
    mret (SUCCESS, mkIpcGlobalConfigValue (wrapU 64 period) (ig_enableStatus value) (ig_pinAlgoType value)
      (ig_disablePinDeletion value))
  else if decide (type = DISABLE_PIN_DELETION) then
    mret (SUCCESS, mkIpcGlobalConfigValue (ig_pinExpiredPeriod value) (ig_enableStatus value) (ig_pinAlgoType value)
      disableDeletion)
  else mret (INVALID_PARAMETERS, value).

(** The result code, [ipcGlobalConfigValue] and [funcResult]. *)
(* @src G UserAuthService::GetUserConfigParam *)
Definition GetUserConfigParam (userId authType type : Z) (value : IpcGlobalConfigValue) (funcResult : Z) :
    service (Z * IpcGlobalConfigValue * Z) :=
  check_access_manager (λ code, (code, value, funcResult)) (
    '(funcResult, value) ← GetUserConfigParamInner userId authType type value;
    mret (SUCCESS, value, funcResult)).
End Config.

Lemma only_or_else C m1 m2 : only C m1 → only C m2 → only C (or_else m1 m2).
Proof. intros H1 H2. unfold or_else. apply only_bind; [done|]. intros []; [by apply only_ret|done]. Qed.
Lemma only_and_then C m1 m2 : only C m1 → only C m2 → only C (and_then m1 m2).
Proof. intros H1 H2. unfold and_then. apply only_bind; [done|]. intros []; [done|by apply only_ret]. Qed.
Lemma only_mret C {A} (a : A) : only C (mret a : service A).
Proof. apply only_ret. Qed.
#[export] Hint Resolve only_or_else only_and_then only_mret : service.
