(* ===== verification/RemoteService.v ===== *)
(** * The service for other devices

    Models services/context/src/remote_auth_service.cpp, which answers the
    messages of other devices: it starts an authentication for them, tells
    which executors there are, and runs an executor for them through a
    [RemoteExecutorStub], kept by schedule id. [GetQueryExecutorInfoReply] is in
    services/core/src/remote_msg_util.cpp.

    [TokenType_of] gives the meaning of the access token kit's numbers for types
    of callers. The trace that is reported about an execution is left out. *)

From S2P Require Import Prelude Defines Interaction ServiceTypes Attributes Platform IpcCommon RemoteMsg.
From S2P Require Import UserIdmDatabase RemoteExecutor ContextFactory UserAuthService.

(* @file R = src/services/context/src/remote_auth_service.cpp *)
(* @file M = src/services/core/src/remote_msg_util.cpp *)
(* @file S = src/services/context/src/remote_executor_stub.cpp *)

(** The executors of this device of the type and role that are asked for. *)
Definition local_executors (authType executorRole : Z) (localUdid : bytes) (nodes : list ExecutorInfo) :
    list ExecutorInfo :=
  map (λ n, mkExecutorInfo (xi_authType n) (xi_executorRole n) (xi_executorSensorHint n) (xi_executorMatcher n)
    (xi_esl n) 0 (xi_publicKey n) (xi_deviceUdid n) [])
  (filter (λ n, xi_authType n = authType ∧ xi_executorRole n = executorRole ∧ xi_deviceUdid n = localUdid) nodes).

(** The reply and the result; some attributes may be set when it fails. *)
(* @src M RemoteMsgUtil::GetQueryExecutorInfoReply *)
Definition GetQueryExecutorInfoReply (authTypes : list Z) (executorRole : Z) (remoteUdid : bytes) (attr : Attributes) :
    service (Attributes * Z) :=
  match authTypes with
  | [authType] =>
    '(ret, signedExecutorInfo) ← call (EngGetSignedExecutorInfo authTypes executorRole remoteUdid);
    WHEN ret = DEVICE_CAPABILITY_NOT_SUPPORT ∨ ret = REMOTE_DEVICE_CONNECTION_FAIL RETURN mret (attr, ret) ;;
    CHECK ret = SUCCESS ELSE mret (attr, GENERAL_ERROR) ;;
    localUdid ← call GetLocalDeviceUdid;
    match localUdid with
    | None => mret (attr, GENERAL_ERROR)
    | Some localUdid =>
      nodes ← call EnumerateExecutors;
      let '(attr, ok) := EncodeQueryExecutorInfoReply (local_executors authType executorRole localUdid nodes)
        signedExecutorInfo attr in
      CHECK ok = true ELSE mret (attr, GENERAL_ERROR) ;;
      mret (attr, SUCCESS)
    end
  | _ => mret (attr, INVALID_PARAMETERS)
  end.

Section RemoteService.
Context (TokenType_of : Z → TokenType).

(** [scheduleId2executorStub_] *)
Abbreviation stubs := (gmap Z Stub.t).

(* @src R RemoteAuthServiceImpl::Start *)
Definition Start : service bool :=
  ok ← call (MakeShared "RemoteAuthServiceImplConnectionListener");
  CHECK ok = true ELSE mret false ;;
  registerResult ← call (RegisterEndPointListener REMOTE_SERVICE_ENDPOINT_NAME);
  CHECK registerResult = SUCCESS ELSE mret false ;;
  mret true.

(** The callback that sends everything to the other device. *)
(* @src R RemoteAuthServiceImpl::GetRemoteAuthContextCallback *)
Definition GetRemoteAuthContextCallback : service bool := call (MakeShared "ContextCallbackImpl").

(** The parameters of the authentication for another device. *)
Definition remote_para (p : AuthParamInner) (userId collectorTokenId : Z) (callerName : bytes) (callerType : Z) :
    AuthenticationPara :=
  mkAuthPara userId (ap_authType p) (ap_authTrustLevel p) 0 collectorTokenId (ap_challenge p) false callerName
    INNER_API_VERSION_10000 (TokenType_of callerType) 0 false false [] [] AUTH_SCENE_DEFAULT 0.

(* @src R RemoteAuthServiceImpl::ProcStartRemoteAuthRequest *)
Definition ProcStartRemoteAuthRequest (connectionName : bytes) (request reply : Attributes) :
    service (Attributes * Z) :=
  let '(authParam, getAuthParamRet) := DecodeAuthParam request AuthParam_new in
  CHECK getAuthParamRet = true ELSE mret (reply, GENERAL_ERROR) ;;
  '(ret, userId) ← (if decide (ap_userId authParam = INVALID_USER_ID) then
      '(ret, activeUserId) ← GetActiveUserId None;
      mret (ret, default 0 activeUserId)
    else mret (SUCCESS, ap_userId authParam));
  CHECK ret = SUCCESS ELSE mret (reply, GENERAL_ERROR) ;;
  match GetStringValue request ATTR_COLLECTOR_NETWORK_ID, GetUint32Value request ATTR_COLLECTOR_TOKEN_ID,
        GetStringValue request ATTR_CALLER_NAME, GetInt32Value request ATTR_CALLER_TYPE with
  | Some collectorNetworkId, Some collectorTokenId, Some callerName, Some callerType =>
    let para := remote_para authParam userId collectorTokenId callerName callerType in
    contextCallback ← GetRemoteAuthContextCallback;
    CHECK contextCallback = true ELSE mret (reply, GENERAL_ERROR) ;;
    '(contextId, lastError) ← StartRemoteAuthContext para
      (mkRemoteContext (ap_authType authParam) connectionName collectorNetworkId (Serialize request)) true GENERAL_ERROR;
    CHECK contextId ≠ BAD_CONTEXT_ID ELSE mret (reply, lastError) ;;
    let '(reply, setContextIdRet) := SetUint64Value reply ATTR_CONTEXT_ID contextId in
    CHECK setContextIdRet = true ELSE mret (reply, GENERAL_ERROR) ;;
    mret (reply, SUCCESS)
  | _, _, _, _ => mret (reply, GENERAL_ERROR)
  end.

(* @src R RemoteAuthServiceImpl::ProcQueryExecutorInfoRequest *)
Definition ProcQueryExecutorInfoRequest (request reply : Attributes) : service (Attributes * Z) :=
  match GetInt32ArrayValue request ATTR_AUTH_TYPES, GetInt32Value request ATTR_EXECUTOR_ROLE,
        GetStringValue request ATTR_MSG_SRC_UDID with
  | Some authTypes, Some executorRole, Some srcUdid =>
    GetQueryExecutorInfoReply authTypes executorRole srcUdid reply
  | _, _, _ => mret (reply, GENERAL_ERROR)
  end.

(** A stub that is not filed goes at once: because it failed, or because there
    is one for the schedule already ([emplace]). *)
(* @src R RemoteAuthServiceImpl::ProcBeginExecuteRequest *)
Definition ProcBeginExecuteRequest (m : stubs) (request : Attributes) : service (stubs * Z) :=
  ok ← call (MakeShared "RemoteExecutorStub");
  CHECK ok = true ELSE mret (m, GENERAL_ERROR) ;;
  '(stub, scheduleId, operationResult) ← Stub.ProcBeginExecuteRequest Stub.new request;
  if decide (operationResult = SUCCESS) then
    match m !! scheduleId with
    | Some _ => Stub.destroy stub;; mret (m, SUCCESS)
    | None => mret (<[scheduleId := stub]> m, SUCCESS)
    end
  else
    Stub.destroy stub;;
    mret (m, GENERAL_ERROR).

(* @src R RemoteAuthServiceImpl::ProcEndExecuteRequest *)
Definition ProcEndExecuteRequest (m : stubs) (request : Attributes) : service (stubs * Z) :=
  match GetUint64Value request ATTR_SCHEDULE_ID with
  | None => mret (m, GENERAL_ERROR)
  | Some scheduleId =>
    match m !! scheduleId with
    | None => mret (m, GENERAL_ERROR)
    | Some stub => Stub.destroy stub;; mret (delete scheduleId m, SUCCESS)
    end
  end.

(** What a handler for stubs does to the reply: nothing. *)
Definition with_reply (reply : Attributes) (handler : service (stubs * Z)) : service (stubs * Attributes * Z) :=
  '(m, resultCode) ← handler; mret (m, reply, resultCode).
Definition with_stubs (m : stubs) (handler : service (Attributes * Z)) : service (stubs * Attributes * Z) :=
  '(reply, resultCode) ← handler; mret (m, reply, resultCode).

(* @src R#1 RemoteAuthServiceImpl::OnMessage *)
Definition OnMessage (m : stubs) (connectionName : bytes) (request reply : Attributes) : service (stubs * Attributes) :=
  match GetInt32Value request ATTR_MSG_TYPE with
  | None => mret (m, reply)
  | Some msgType =>
    '(m, reply, resultCode) ← (
      if decide (msgType = START_REMOTE_AUTH) then with_stubs m (ProcStartRemoteAuthRequest connectionName request reply)
      else if decide (msgType = QUERY_EXECUTOR_INFO) then with_stubs m (ProcQueryExecutorInfoRequest request reply)
      else if decide (msgType = BEGIN_EXECUTE) then with_reply reply (ProcBeginExecuteRequest m request)
      else if decide (msgType = END_EXECUTE) then with_reply reply (ProcEndExecuteRequest m request)
      else if decide (msgType = KEEP_ALIVE) then mret (m, reply, SUCCESS)
      else mret (m, reply, GENERAL_ERROR));
    mret (m, (SetInt32Value reply ATTR_RESULT_CODE resultCode).1)
  end.

(** The connection of a stub is down; a task of its own ends the execution. *)
(* @src S:184-206 RemoteExecutorStubMessageCallback::OnConnectStatus *)
Definition stub_disconnected (m : stubs) (scheduleId : Z) : service (stubs * Z) :=
  ok ← call (MakeShared "Attributes");
  CHECK ok = true ELSE mret (m, GENERAL_ERROR) ;;
  let '(request, setScheduleIdRet) := SetUint64Value Attributes_new ATTR_SCHEDULE_ID scheduleId in
  CHECK setScheduleIdRet = true ELSE mret (m, GENERAL_ERROR) ;;
  ok ← call (MakeShared "Attributes");
  CHECK ok = true ELSE mret (m, GENERAL_ERROR) ;;
  ProcEndExecuteRequest m request.
End RemoteService.
