(* ===== verification/RemoteContexts.v ===== *)
(** * Contexts for remote authentication

    Models services/context/src/local_remote_auth_context.cpp (this device
    collects and verifies for another), remote_auth_context.cpp (this device
    verifies what another collects) and remote_auth_invoker_context.cpp (this
    device asks another to verify). What happens when a timer fires, the
    connection changes or an answer arrives is a function of its own, called
    with the context that the weak pointer of the listener leads to.

    [TokenType_to] gives the access token kit's numbers for types of callers. *)

From S2P Require Import Prelude Defines Interaction ServiceTypes Attributes Platform IpcCommon RemoteMsg.
From S2P Require Import UserIdmDatabase NodeCommands EngineTalk ListenerManager Contexts RemoteExecutor RemoteService.

(* @file L = src/services/context/src/local_remote_auth_context.cpp *)
(* @file LH = src/services/context/inc/local_remote_auth_context.h *)
(* @file R = src/services/context/src/remote_auth_context.cpp *)
(* @file RH = src/services/context/inc/remote_auth_context.h *)
(* @file I = src/services/context/src/remote_auth_invoker_context.cpp *)
(* @file IH = src/services/context/inc/remote_auth_invoker_context.h *)

(** The timer of a context. *)
Definition register_timer (milliseconds : Z) : service Z := call (RegisterTimer milliseconds).
Definition unregister_timer (timerId : option Z) : service () :=
  match timerId with Some timerId => call (UnregisterTimer timerId) | None => mret () end.

(** After a start, exactly one schedule runs. *)
Definition one_schedule {A} (c : ctx A) : bool := match scheduleList_ c with [_] => true | _ => false end.

(** ** LocalRemoteAuthContext *)

Module LocalRemote.

(* @src LH:48-50 LocalRemoteAuthContext *)
Record t := mk { auth : Authentication.t; collectorNetworkId_ : bytes; cancelTimerId_ : option Z }.
#[export] Instance local_remote_auth : HasAuth t := {|
  auth_ := auth;
  set_auth_ := λ x a, mk a (collectorNetworkId_ x) (cancelTimerId_ x);
|}.

(* @src L:34-34 AUTH_TIME_OUT_MS *)
Definition AUTH_TIME_OUT_MS : Z := 3 * 60 * 1000.

(* @src L LocalRemoteAuthContext::LocalRemoteAuthContext *)
Definition new (contextId : Z) (a : Authentication.t) (param : LocalRemoteAuthContextParam) : ctx t :=
  ctx_new contextId (mk a (lr_collectorNetworkId param) None).

Definition set_timer (c : ctx t) (timerId : Z) : ctx t :=
  set_members c (mk (auth (members c)) (collectorNetworkId_ (members c)) (Some timerId)).

(* @src L LocalRemoteAuthContext::OnStart *)
Definition OnStart (c : ctx t) : service (ctx t * bool) :=
  collectorUdid ← call (GetUdidByNetworkId (collectorNetworkId_ (members c)));
  match collectorUdid with
  | None => mret (c, false)
  | Some collectorUdid =>
    let c := SimpleAuth.set_auth c (Authentication.SetCollectorUdid (SimpleAuth.auth c) collectorUdid) in
    timerId ← register_timer AUTH_TIME_OUT_MS;
    '(c, startAuthRet) ← SimpleAuth.OnStart (set_timer c timerId);
    CHECK startAuthRet = true ELSE mret (c, false) ;;
    mret (c, one_schedule c)
  end.

(* @src L:90-98 LocalRemoteAuthContext::OnTimeOut *)
Definition OnTimeOut : service () := tell_caller TIMEOUT Attributes_new.

(* @src L LocalRemoteAuthContext::~LocalRemoteAuthContext *)
Definition destroy (c : ctx t) : service () :=
  unregister_timer (cancelTimerId_ (members c));;
  SimpleAuth.destroy c.

#[export] Instance local_remote_kind : ContextKind t := {|
  Contexts.OnStart := OnStart;
  Contexts.OnResult := SimpleAuth.OnResult;
  Contexts.OnStop := SimpleAuth.OnStop;
|}.
End LocalRemote.

(** ** RemoteAuthContext *)

Module RemoteAuth.

(* @src RH:61-70 RemoteAuthContext *)
Record t := mk {
  auth : Authentication.t;
  authType_ : Z;
  connectionName_ : bytes;
  collectorNetworkId_ : bytes;
  executorInfoMsg_ : bytes;
  needSetupConnection_ : bool;
  remoteExecutorProxy_ : option Proxy.t;
  cancelTimerId_ : option Z;
}.
#[export] Instance remote_auth : HasAuth t := {|
  auth_ := auth;
  set_auth_ := λ x a, mk a (authType_ x) (connectionName_ x) (collectorNetworkId_ x) (executorInfoMsg_ x)
    (needSetupConnection_ x) (remoteExecutorProxy_ x) (cancelTimerId_ x);
|}.
Implicit Types c : ctx t.

(* @src R:37-37 SETUP_CONNECTION_TIME_OUT_MS *)
Definition SETUP_CONNECTION_TIME_OUT_MS : Z := 3 * 60 * 1000.

(* @src R RemoteAuthContext::RemoteAuthContext *)
Definition new (contextId : Z) (a : Authentication.t) (param : RemoteAuthContextParam) : service (ctx t) :=
  let needSetupConnection := bool_decide (rc_executorInfoMsg param = []) in
  (if needSetupConnection then call (CreateThreadHandler (rc_connectionName param)) else mret ());;
  mret (ctx_new contextId (mk a (rc_authType param) (rc_connectionName param) (rc_collectorNetworkId param)
    (rc_executorInfoMsg param) needSetupConnection None None)).

Definition set_timer c (timerId : Z) : ctx t :=
  let x := members c in
  set_members c (mk (auth x) (authType_ x) (connectionName_ x) (collectorNetworkId_ x) (executorInfoMsg_ x)
    (needSetupConnection_ x) (remoteExecutorProxy_ x) (Some timerId)).
Definition set_proxy c (proxy : option Proxy.t) : ctx t :=
  let x := members c in
  set_members c (mk (auth x) (authType_ x) (connectionName_ x) (collectorNetworkId_ x) (executorInfoMsg_ x)
    (needSetupConnection_ x) proxy (cancelTimerId_ x)).
(* @src R RemoteAuthContext::SetExecutorInfoMsg *)
Definition SetExecutorInfoMsg c (msg : bytes) : ctx t :=
  let x := members c in
  set_members c (mk (auth x) (authType_ x) (connectionName_ x) (collectorNetworkId_ x) msg
    (needSetupConnection_ x) (remoteExecutorProxy_ x) (cancelTimerId_ x)).

Definition destroy_proxy c : service () :=
  match remoteExecutorProxy_ (members c) with Some proxy => Proxy.destroy proxy | None => mret () end.

(** A new proxy for the first executor of the message; one that is there goes. *)
Definition start_proxy c (executorInfo : ExecutorInfo) : service (ctx t * bool) :=
  made ← call (MakeShared "RemoteExecutorProxy");
  destroy_proxy c;;
  CHECK made = true ELSE mret (set_proxy c None, false) ;;
  '(proxy, startExecutorRet) ← Proxy.Start (Proxy.new (connectionName_ (members c)) executorInfo);
  mret (set_proxy c (Some proxy), bool_decide (startExecutorRet = SUCCESS)).

(** The executors that a message lists; the reader of the array does not run
    out of fuel. *)
Definition listed_executors (msg : bytes) : list ExecutorInfo :=
  match DecodeQueryExecutorInfoReply (Attributes_of_raw msg) [] with Some (true, infos) => infos | _ => [] end.

(* @src R RemoteAuthContext::StartAuth *)
Definition StartAuth c : service (ctx t * bool) :=
  match listed_executors (executorInfoMsg_ (members c)) with
  | [] => mret (c, false)
  | executorInfo :: _ =>
    WHEN executorInfoMsg_ (members c) = [] RETURN mret (c, false) ;;
    '(c, started) ← start_proxy c executorInfo;
    CHECK started = true ELSE mret (c, false) ;;
    collectorUdid ← call (GetUdidByNetworkId (collectorNetworkId_ (members c)));
    match collectorUdid with
    | None => mret (c, false)
    | Some collectorUdid =>
      localUdid ← call GetLocalDeviceUdid;
      match localUdid with
      | None => mret (c, false)
      | Some _ =>
        let c := SimpleAuth.set_auth c (Authentication.SetCollectorUdid (SimpleAuth.auth c) collectorUdid) in
        '(c, startAuthRet) ← SimpleAuth.OnStart c;
        CHECK startAuthRet = true ELSE mret (c, false) ;;
        mret (c, one_schedule c)
      end
    end
  end.

(* @src R RemoteAuthContext::StartAuthDelayed *)
Definition StartAuthDelayed c : service (ctx t) :=
  '(c, ret) ← StartAuth c;
  WHEN ret = false RETURN (tell_caller (GetLatestError c) Attributes_new;; mret c) ;;
  mret c.

(** The answer of the other device. *)
(* @src R:231-261 RemoteAuthContext::SendQueryExecutorInfoMsg *)
Definition query_reply c (reply : Attributes) : service (ctx t) :=
  match GetInt32Value reply ATTR_RESULT_CODE with
  | None => mret c
  | Some resultCode =>
    WHEN resultCode ≠ SUCCESS RETURN (tell_caller resultCode Attributes_new;; mret c) ;;
    let c := SetExecutorInfoMsg c (Serialize reply) in
    handler ← call GetSingleThreadInstance;
    CHECK handler = true ELSE mret c ;;
    post_task TaskStartAuthDelayed;;
    mret c
  end.

(* @src R RemoteAuthContext::SendQueryExecutorInfoMsg *)
Definition SendQueryExecutorInfoMsg c : service bool :=
  made ← call (MakeShared "Attributes");
  CHECK made = true ELSE mret false ;;
  let '(request, ok) := set_all Attributes_new [
    (λ a, SetInt32Value a ATTR_MSG_TYPE QUERY_EXECUTOR_INFO);
    (λ a, SetInt32ArrayValue a ATTR_AUTH_TYPES [authType_ (members c)]);
    (λ a, SetInt32Value a ATTR_EXECUTOR_ROLE COLLECTOR)] in
  CHECK ok = true ELSE mret false ;;
  localUdid ← call GetLocalDeviceUdid;
  CHECK is_Some localUdid ELSE mret false ;;
  sendMsgRet ← call (SendMessage (connectionName_ (members c)) REMOTE_AUTH_CONTEXT_ENDPOINT_NAME
    REMOTE_SERVICE_ENDPOINT_NAME request);
  mret (bool_decide (sendMsgRet = SUCCESS)).

(* @src R RemoteAuthContext::SetupConnection *)
Definition SetupConnection c : service (ctx t * bool) :=
  made ← call (MakeShared "RemoteAuthContextMessageCallback");
  CHECK made = true ELSE mret (c, false) ;;
  let name := connectionName_ (members c) in
  registerResult ← call (RegisterConnectionListener name REMOTE_AUTH_CONTEXT_ENDPOINT_NAME);
  CHECK registerResult = SUCCESS ELSE mret (c, false) ;;
  connectResult ← call (OpenConnection name (collectorNetworkId_ (members c)) (SimpleAuth.GetTokenId c));
  CHECK connectResult = SUCCESS ELSE mret (SetLatestError c REMOTE_DEVICE_CONNECTION_FAIL, false) ;;
  mret (c, true).

(* @src R RemoteAuthContext::OnStart *)
Definition OnStart c : service (ctx t * bool) :=
  timerId ← register_timer SETUP_CONNECTION_TIME_OUT_MS;
  let c := set_timer c timerId in
  if needSetupConnection_ (members c) then SetupConnection c else StartAuth c.

(* @src R:297-321 RemoteAuthContext::OnConnectStatus *)
Definition OnConnectStatus c (connectionName : bytes) (connectStatus : ConnectStatus) : service () :=
  CHECK connectionName_ (members c) = connectionName ELSE mret () ;;
  match connectStatus with
  | DISCONNECTED => tell_caller REMOTE_DEVICE_CONNECTION_FAIL Attributes_new
  | CONNECTED =>
    sendMsgRet ← SendQueryExecutorInfoMsg c;
    WHEN sendMsgRet = false RETURN tell_caller GENERAL_ERROR Attributes_new ;;
    mret ()
  end.

(* @src R:323-331 RemoteAuthContext::OnTimeOut *)
Definition OnTimeOut : service () := tell_caller TIMEOUT Attributes_new.

(** The members and the base go after the body. *)
(* @src R RemoteAuthContext::~RemoteAuthContext *)
Definition destroy c : service () :=
  let x := members c in
  unregister_timer (cancelTimerId_ x);;
  call (UnregisterConnectionListener (connectionName_ x) REMOTE_AUTH_CONTEXT_ENDPOINT_NAME);;
  (if needSetupConnection_ x then
    call (CloseConnection (connectionName_ x));;
    call (DestroyThreadHandler (connectionName_ x))
  else mret ());;
  destroy_proxy c;;
  SimpleAuth.destroy c.

#[export] Instance remote_auth_kind : ContextKind t := {|
  Contexts.OnStart := OnStart;
  Contexts.OnResult := SimpleAuth.OnResult;
  Contexts.OnStop := SimpleAuth.OnStop;
|}.
End RemoteAuth.

(** ** RemoteAuthInvokerContext *)

Module Invoker.
Section Invoker.
Context (TokenType_to : TokenType → Z).

(* @src IH:71-86 RemoteAuthInvokerContext *)
Record t := mk {
  authParam_ : AuthParamInner;
  connectionName_ : bytes;
  verifierNetworkId_ : bytes;
  collectorNetworkId_ : bytes;
  tokenId_ : Z;
  collectorTokenId_ : Z;
  callerName_ : bytes;
  callerType_ : TokenType;
  verifierUdid_ : bytes;
  verifierContextId_ : option Z;
  cancelTimerId_ : option Z;
}.
Implicit Types c : ctx t.

(* @src I:39-39 TIME_OUT_MS *)
Definition TIME_OUT_MS : Z := 3 * 60 * 1000.

(* @src I RemoteAuthInvokerContext::RemoteAuthInvokerContext *)
Definition new (contextId : Z) (authParam : AuthParamInner) (param : RemoteAuthInvokerContextParam) : service (ctx t) :=
  call (CreateThreadHandler (ri_connectionName param));;
  mret (ctx_new contextId (mk authParam (ri_connectionName param) (ri_verifierNetworkId param)
    (ri_collectorNetworkId param) (ri_tokenId param) (ri_collectorTokenId param) (ri_callerName param)
    (ri_callerType param) [] None None)).

Definition set_timer c (timerId : Z) : ctx t :=
  let x := members c in
  set_members c (mk (authParam_ x) (connectionName_ x) (verifierNetworkId_ x) (collectorNetworkId_ x) (tokenId_ x)
    (collectorTokenId_ x) (callerName_ x) (callerType_ x) (verifierUdid_ x) (verifierContextId_ x) (Some timerId)).
Definition set_udid c (udid : bytes) : ctx t :=
  let x := members c in
  set_members c (mk (authParam_ x) (connectionName_ x) (verifierNetworkId_ x) (collectorNetworkId_ x) (tokenId_ x)
    (collectorTokenId_ x) (callerName_ x) (callerType_ x) udid (verifierContextId_ x) (cancelTimerId_ x)).
(* @src I RemoteAuthInvokerContext::SetVerifierContextId *)
Definition SetVerifierContextId c (contextId : Z) : ctx t :=
  let x := members c in
  set_members c (mk (authParam_ x) (connectionName_ x) (verifierNetworkId_ x) (collectorNetworkId_ x) (tokenId_ x)
    (collectorTokenId_ x) (callerName_ x) (callerType_ x) (verifierUdid_ x) (Some contextId) (cancelTimerId_ x)).
(* @src I RemoteAuthInvokerContext::GetTokenId *)
Definition GetTokenId c : Z := tokenId_ (members c).

(* @src I RemoteAuthInvokerContext::OnStart *)
Definition OnStart c : service (ctx t * bool) :=
  timerId ← register_timer TIME_OUT_MS;
  let c := set_timer c timerId in
  verifierUdid ← call (GetUdidByNetworkId (verifierNetworkId_ (members c)));
  match verifierUdid with
  | None => mret (c, false)
  | Some verifierUdid =>
    let c := set_udid c verifierUdid in
    localUdid ← call GetLocalDeviceUdid;
    CHECK is_Some localUdid ELSE mret (c, false) ;;
    made ← call (MakeShared "RemoteAuthInvokerContextMessageCallback");
    CHECK made = true ELSE mret (c, false) ;;
    let name := connectionName_ (members c) in
    registerResult ← call (RegisterConnectionListener name REMOTE_AUTH_INVOKER_CONTEXT_ENDPOINT_NAME);
    CHECK registerResult = SUCCESS ELSE mret (c, false) ;;
    connectResult ← call (OpenConnection name (verifierNetworkId_ (members c)) (GetTokenId c));
    CHECK connectResult = SUCCESS ELSE mret (SetLatestError c REMOTE_DEVICE_CONNECTION_FAIL, false) ;;
    mret (c, true)
  end.

(* @src I:238-263 RemoteAuthInvokerContext::SendRequest *)
Definition SendRequest c : service (ctx t * bool) :=
  let x := members c in
  made ← call (MakeShared "Attributes");
  CHECK made = true ELSE mret (c, false) ;;
  '(request, getExecutorInfoRet) ← GetQueryExecutorInfoReply [ap_authType (authParam_ x)] COLLECTOR (verifierUdid_ x)
    Attributes_new;
  CHECK getExecutorInfoRet = SUCCESS ELSE mret (SetLatestError c getExecutorInfoRet, false) ;;
  let '(request, ok) := set_all request [
    (λ a, SetInt32Value a ATTR_MSG_TYPE START_REMOTE_AUTH);
    (λ a, EncodeAuthParam (authParam_ x) a);
    (λ a, SetUint32Value a ATTR_COLLECTOR_TOKEN_ID (collectorTokenId_ x));
    (λ a, SetStringValue a ATTR_CALLER_NAME (callerName_ x));
    (λ a, SetInt32Value a ATTR_CALLER_TYPE (TokenType_to (callerType_ x)));
    (λ a, SetStringValue a ATTR_COLLECTOR_NETWORK_ID (collectorNetworkId_ x))] in
  CHECK ok = true ELSE mret (c, false) ;;
  sendMsgRet ← call (SendMessage (connectionName_ x) REMOTE_AUTH_INVOKER_CONTEXT_ENDPOINT_NAME
    REMOTE_SERVICE_ENDPOINT_NAME request);
  mret (c, bool_decide (sendMsgRet = SUCCESS)).

(** The answer of the other device. *)
(* @src I:264-288 RemoteAuthInvokerContext::SendRequest *)
Definition start_reply c (reply : Attributes) : service (ctx t) :=
  match GetInt32Value reply ATTR_RESULT_CODE with
  | None => mret c
  | Some resultCode =>
    WHEN resultCode ≠ SUCCESS RETURN (tell_caller resultCode Attributes_new;; mret c) ;;
    match GetUint64Value reply ATTR_CONTEXT_ID with
    | None => mret c
    | Some contextId => mret (SetVerifierContextId c contextId)
    end
  end.

(* @src I:158-184 RemoteAuthInvokerContext::OnConnectStatus *)
Definition OnConnectStatus c (connectionName : bytes) (connectStatus : ConnectStatus) : service (ctx t) :=
  CHECK connectionName_ (members c) = connectionName ELSE mret c ;;
  match connectStatus with
  | DISCONNECTED => tell_caller REMOTE_DEVICE_CONNECTION_FAIL Attributes_new;; mret c
  | CONNECTED =>
    '(c, sendRequestRet) ← SendRequest c;
    WHEN sendRequestRet = false RETURN (tell_caller (GetLatestError c) Attributes_new;; mret c) ;;
    mret c
  end.

(* @src I RemoteAuthInvokerContext::ProcAuthTipMsg *)
Definition ProcAuthTipMsg (message : Attributes) : service Z :=
  match GetInt32Value message ATTR_DEST_ROLE with
  | None => mret GENERAL_ERROR
  | Some destRole =>
    match GetInt32Value message ATTR_TIP_INFO with
    | None => mret GENERAL_ERROR
    | Some tipInfo => call (OnAcquireInfo destRole tipInfo (Serialize message));; mret SUCCESS
    end
  end.

(** What goes to the caller of a result that the engine confirmed; the two
    attributes of the lockout have the names of the freezing time and of the
    remaining times. *)
Definition confirmed_setters (info : EngAuthResultInfo) : list (Attributes → Attributes * bool) :=
  let resultCode := ea_result info in
  SimpleAuth.when (resultCode = FAIL ∨ resultCode = LOCKED ∨ resultCode = SUCCESS) [
    (λ a, SetInt32Value a ATTR_FREEZING_TIME (ea_lockoutDuration info));
    (λ a, SetInt32Value a ATTR_REMAIN_TIMES (ea_remainAttempts info))] ++
  SimpleAuth.when (resultCode = SUCCESS) [
    (λ a, SetUint8ArrayValue a ATTR_SIGNATURE (ea_token info));
    (λ a, SetBoolValue a ATTR_TOKEN_FROM_REMOTE_DEVICE true);
    (λ a, SetInt32Value a ATTR_USER_ID (ea_userId info))].

(** The last step: the code among the attributes. *)
Definition finish_result (resultCode : Z) (attr : Attributes) : Z * Attributes * Z :=
  let '(attr, ok) := SetInt32Value attr ATTR_RESULT resultCode in
  (resultCode, attr, if (ok : bool) then SUCCESS else GENERAL_ERROR).

(** The out parameters [resultCode] and [attr], and the result. *)
(* @src I RemoteAuthInvokerContext::ProcAuthResultMsgInner *)
Definition ProcAuthResultMsgInner c (message : Attributes) : service (Z * Attributes * Z) :=
  match GetInt32Value message ATTR_RESULT with
  | None => mret (GENERAL_ERROR, Attributes_new, GENERAL_ERROR)
  | Some resultCode =>
    match GetUint8ArrayValue message ATTR_SIGNED_AUTH_RESULT with
    | Some remoteAuthResult =>
      '(ret, info) ← call (EngGetAuthResultFromMessage (verifierUdid_ (members c)) remoteAuthResult);
      CHECK ret = SUCCESS ELSE mret (resultCode, Attributes_new, GENERAL_ERROR) ;;
      let '(attr, ok) := set_all Attributes_new (confirmed_setters info) in
      CHECK ok = true ELSE mret (ea_result info, attr, GENERAL_ERROR) ;;
      mret (finish_result (ea_result info) attr)
    | None => mret (finish_result (if decide (resultCode = SUCCESS) then GENERAL_ERROR else resultCode) Attributes_new)
    end
  end.

(* @src I RemoteAuthInvokerContext::ProcAuthResultMsg *)
Definition ProcAuthResultMsg c (message : Attributes) : service Z :=
  '(authResultCode, attr, ret) ← ProcAuthResultMsgInner c message;
  tell_caller authResultCode attr;;
  mret ret.

(* @src I:131-156 RemoteAuthInvokerContext::OnMessage *)
Definition OnMessage c (request reply : Attributes) : service Attributes :=
  match GetInt32Value request ATTR_MSG_TYPE with
  | None => mret reply
  | Some msgType =>
    resultCode ← (
      if decide (msgType = SEND_REMOTE_AUTH_TIP) then ProcAuthTipMsg request
      else if decide (msgType = SEND_REMOTE_AUTH_RESULT) then ProcAuthResultMsg c request
      else mret GENERAL_ERROR);
    mret (acknowledge resultCode reply)
  end.

(* @src I RemoteAuthInvokerContext::OnResult *)
Definition OnResult c (resultCode : Z) (scheduleResultAttr : option Attributes) : service (ctx t) := mret c.

(* @src I RemoteAuthInvokerContext::OnStop *)
Definition OnStop c : service (ctx t * bool) := tell_caller CANCELED Attributes_new;; mret (c, true).

(* @src I:400-408 RemoteAuthInvokerContext::OnTimeOut *)
Definition OnTimeOut : service () := tell_caller TIMEOUT Attributes_new.

(* @src I RemoteAuthInvokerContext::~RemoteAuthInvokerContext *)
Definition destroy c : service () :=
  let x := members c in
  unregister_timer (cancelTimerId_ x);;
  call (UnregisterConnectionListener (connectionName_ x) REMOTE_AUTH_INVOKER_CONTEXT_ENDPOINT_NAME);;
  call (CloseConnection (connectionName_ x));;
  call (DestroyThreadHandler (connectionName_ x)).
End Invoker.

#[export] Instance invoker_kind : ContextKind t := {|
  Contexts.OnStart := OnStart;
  Contexts.OnResult := OnResult;
  Contexts.OnStop := OnStop;
|}.
End Invoker.
