(* ===== verification/RemoteThm.v ===== *)
(** * What the remote side guarantees

    The result that a device is told for another ([invoker_result_told]), the
    executions that the service for other devices keeps
    ([executions_balanced]), and what a second request on a busy connection
    does to the first ([begin_on_busy_connection]). *)

From S2P Require Import Prelude Defines Interaction ServiceTypes AttributesImpl Attributes Platform IpcCommon RemoteMsg.
From S2P Require Import UserIdmDatabase NodeCommands EngineTalk ListenerManager Contexts ContextsThm ContextResults.
From S2P Require Import RemoteExecutor ContextFactory UserAuthService RemoteService RemoteContexts.

(** ** The result of a remote authentication *)

(** [eng] is what the engine said of the signed result, if there was one. *)
Definition invoker_verdict (message : Attributes) (eng : option (Z * EngAuthResultInfo)) : Z :=
  match GetInt32Value message ATTR_RESULT with
  | None => GENERAL_ERROR
  | Some code =>
    match eng with
    | None => if decide (code = SUCCESS) then GENERAL_ERROR else code
    | Some (ret, info) => if decide (ret = SUCCESS) then ea_result info else code
    end
  end.

Definition invoker_said (c : ctx Invoker.t) (message : Attributes) (t : trace) (eng : option (Z * EngAuthResultInfo)) : Prop :=
  match GetInt32Value message ATTR_RESULT, GetUint8ArrayValue message ATTR_SIGNED_AUTH_RESULT with
  | Some _, Some signed => ∃ ret info, eng = Some (ret, info) ∧
      existT (EngGetAuthResultFromMessage (Invoker.verifierUdid_ (members c)) signed) (ret, info) ∈ t
  | _, _ => eng = None
  end.

(** Only a confirmed success has a token. *)
Lemma confirmed_token info : ea_result info ≠ SUCCESS →
  spares ATTR_SIGNATURE (λ a, set_all a (Invoker.confirmed_setters info)).
Proof.
  intros H. apply set_all_spares. unfold Invoker.confirmed_setters, SimpleAuth.when.
  rewrite (decide_False (P := ea_result info = SUCCESS)) by done.
  case_decide; simpl; repeat constructor; by apply spares_encoded.
Qed.

Lemma finish_token code attr :
  attr_of (Invoker.finish_result code attr).1.2 ATTR_SIGNATURE = attr_of attr ATTR_SIGNATURE.
Proof.
  assert (spares ATTR_SIGNATURE (λ a, SetInt32Value a ATTR_RESULT code)) as H by by apply spares_encoded.
  specialize (H attr). cbv beta in H. unfold Invoker.finish_result. by destruct (SetInt32Value attr ATTR_RESULT code).
Qed.

Lemma inner_verdict c message t :
  wp (λ _ _, True) (Invoker.ProcAuthResultMsgInner c message) t (λ '(code, attr, _) t', ∃ eng,
    invoker_said c message t' eng ∧ code = invoker_verdict message eng ∧
    (is_Some (attr_of attr ATTR_SIGNATURE) → ∃ info, eng = Some (SUCCESS, info) ∧ ea_result info = SUCCESS)).
Proof.
  unfold Invoker.ProcAuthResultMsgInner, invoker_said, invoker_verdict.
  destruct (GetInt32Value message ATTR_RESULT) as [code|]; [|step; exists None; by repeat split; intros [? ?]].
  destruct (GetUint8ArrayValue message ATTR_SIGNED_AUTH_RESULT) as [signed|].
  - apply wp_bind, (@wp_call _ answer _ (EngGetAuthResultFromMessage (Invoker.verifierUdid_ (members c)) signed)); [done|].
    intros [ret info]. assert (∀ u : trace, ∃ ret' info', Some (ret, info) = Some (ret', info') ∧
      existT (EngGetAuthResultFromMessage (Invoker.verifierUdid_ (members c)) signed) (ret', info') ∈
        u ++ [existT (EngGetAuthResultFromMessage (Invoker.verifierUdid_ (members c)) signed) (ret, info)]) as Hs.
    { intros u. exists ret, info. split; [done|]. apply elem_of_app. right. by apply list_elem_of_singleton. }
    case_decide as Hret; [|step; exists (Some (ret, info)); split; [apply Hs|]; rewrite decide_False by done;
      by split; [|intros [? ?]]].
    pose proof (confirmed_token info) as Htok. destruct (set_all Attributes_new (Invoker.confirmed_setters info)) as [attr ok] eqn:E.
    assert (is_Some (attr_of attr ATTR_SIGNATURE) → ∃ info', Some (ret, info) = Some (SUCCESS, info') ∧ ea_result info' = SUCCESS) as Ht.
    { intros Hk. exists info. split; [by rewrite Hret|]. destruct (decide (ea_result info = SUCCESS)) as [|Hne]; [done|].
      specialize (Htok Hne Attributes_new). cbv beta in Htok. rewrite E in Htok. simpl in Htok. by rewrite Htok in Hk; destruct Hk. }
    case_decide; step; [|exists (Some (ret, info)); rewrite decide_True by done; auto].
    pose proof (finish_token (ea_result info) attr) as Hf. unfold Invoker.finish_result in *.
    destruct (SetInt32Value attr ATTR_RESULT (ea_result info)) as [attr' ok']. simpl in Hf.
    exists (Some (ret, info)). rewrite decide_True by done. rewrite Hf. auto.
  - step. pose proof (finish_token (if decide (code = SUCCESS) then GENERAL_ERROR else code) Attributes_new) as Hf.
    unfold Invoker.finish_result in *. destruct (SetInt32Value Attributes_new ATTR_RESULT _) as [attr ok]. simpl in Hf.
    exists None. split; [done|]. split; [done|]. rewrite Hf. by intros [? ?].
Qed.

(** C10: what the caller of a remote authentication is told when the result
    message arrives: the code that the engine finds in the signed result, or,
    without a signed result, the unsigned code of the message unless it is
    SUCCESS; but when the engine rejects the signed result, the unsigned code
    is believed, SUCCESS included. A token only comes with a success that the
    engine confirmed. *)
Theorem invoker_result_told (o : env answer) c message :
  let '(_, t) := run o (Invoker.ProcAuthResultMsg c message) [] in
  ∃ eng attr, invoker_said c message t eng ∧ told_last t (invoker_verdict message eng) attr ∧
    (is_Some (attr_of attr ATTR_SIGNATURE) → ∃ info, eng = Some (SUCCESS, info) ∧ ea_result info = SUCCESS).
Proof.
  assert (wp (λ _ _, True) (Invoker.ProcAuthResultMsg c message) [] (λ _ t, ∃ eng attr, invoker_said c message t eng ∧
    told_last t (invoker_verdict message eng) attr ∧
    (is_Some (attr_of attr ATTR_SIGNATURE) → ∃ info, eng = Some (SUCCESS, info) ∧ ea_result info = SUCCESS))) as K.
  { unfold Invoker.ProcAuthResultMsg, tell_caller. apply wp_bind. eapply wp_wand; [apply inner_verdict|].
    intros [[code attr] ret] t (eng & Hs & -> & Ht). apply wp_bind, (@wp_call _ answer _ (Platform.OnResult true _ _)); [done|].
    intros []. apply wp_ret. exists eng, attr. split; [|split; [by exists t|done]].
    revert Hs. unfold invoker_said. repeat case_match; try done. intros (ret' & info & ? & ?). exists ret', info.
    split; [done|]. apply elem_of_app. by left. }
  apply (wp_post o) in K. by destruct (run o (Invoker.ProcAuthResultMsg c message) []).
Qed.

(** ** Executions *)

(** A holder context was given to the pool; one was taken back. *)
Definition is_held (e : event answer) : bool :=
  match e with existT q r =>
    match q return answer q → bool with PoolSchedule _ (ScheduleHolderContext _) => λ b, b | _ => λ _, false end r
  end.
Definition is_deleted (e : event answer) : bool := match asked e with PoolDelete _ => true | _ => false end.
Definition moves {A} (m : service A) (P : A → nat → nat → Prop) : Prop := tallies is_held is_deleted m P.

(** Calls that touch neither. *)
Definition still (q : sys) : bool := match q with PoolSchedule _ (ScheduleHolderContext _) | PoolDelete _ => false | _ => true end.

Lemma still_calm e : still (asked e) = true → is_held e = false ∧ is_deleted e = false.
Proof. destruct e as [[] r]; try done. by destruct context. Qed.

Lemma moves_ret {A} (a : A) (P : A → nat → nat → Prop) : P a 0%nat 0%nat → moves (mret a) P.
Proof. apply tallies_ret. Qed.
Lemma moves_mono {A} (m : service A) (P P' : A → nat → nat → Prop) :
  moves m P → (∀ a r s, P a r s → P' a r s) → moves m P'.
Proof. apply tallies_mono. Qed.
Lemma moves_bind {A B} (m : service A) (k : A → service B) (P : A → nat → nat → Prop) P' :
  moves m P → (∀ a r s, P a r s → moves (k a) (λ b r' s', P' b (r + r')%nat (s + s')%nat)) → moves (m ≫= k) P'.
Proof. apply tallies_bind. Qed.
Lemma moves_still {A} (m : service A) (P : A → nat → nat → Prop) : only still m → (∀ a, P a 0 0)%nat → moves m P.
Proof. apply tallies_only, still_calm. Qed.
Lemma moves_still_bind {A B} (m : service A) (k : A → service B) P :
  only still m → (∀ a, moves (k a) P) → moves (m ≫= k) P.
Proof. apply tallies_only_bind, still_calm. Qed.

Ltac move_step :=
  cbv zeta;
  lazymatch goal with
  | |- moves (mret _) _ => apply moves_ret
  | |- moves (_ ≫= _) _ => apply moves_still_bind; [solve [eauto with service|only_steps]|intros ?]
  | |- moves (match ?x with _ => _ end) _ => branch_on x
  end.

Definition weight (s : Stub.t) : nat := match Stub.contextId_ s with Some _ => 1 | None => 0 end.

Lemma only_still_StartSchedule n : only still (Stub.StartSchedule n).
Proof. unfold Stub.StartSchedule. only_steps. Qed.
Lemma only_still_destroy_node n : only still (Stub.destroy_node n).
Proof. unfold Stub.destroy_node. only_steps. Qed.
#[export] Hint Resolve only_still_StartSchedule only_still_destroy_node : service.

Lemma moves_destroy s : moves (Stub.destroy s) (λ _ r d, r = 0 ∧ d = weight s)%nat.
Proof.
  unfold Stub.destroy, weight. move_step. destruct (Stub.contextId_ s) as [id|].
  - eapply moves_bind; [by apply (tallies_call is_held is_deleted (PoolDelete id) (λ _ r d, r = 0 ∧ d = 1)%nat)|].
    intros _ r d [-> ->]. apply moves_still; [only_steps|done].
  - apply moves_still; [only_steps|done].
Qed.

Lemma moves_hold id x :
  moves (call (PoolSchedule id (ScheduleHolderContext x))) (λ b r d, d = 0 ∧ r = if (b : bool) then 1 else 0)%nat.
Proof. by apply (tallies_call is_held is_deleted (PoolSchedule id (ScheduleHolderContext x))). Qed.

Lemma moves_begin_schedule s attr info index message : Stub.contextId_ s = None →
  moves (Stub.begin_schedule s attr info index message) (λ '(s', ret) r d,
    d = 0 ∧ r = weight s' ∧ (ret = SUCCESS → weight s' = 1))%nat.
Proof.
  intros Hs. unfold Stub.begin_schedule, weight.
  repeat move_step; try (simpl; rewrite ?Hs; done).
  eapply moves_bind; [apply moves_hold|]. intros b' r d [-> ->].
  destruct b'; repeat move_step; try done; simpl; rewrite ?Hs; done.
Qed.

Lemma moves_ProcBegin s attr : Stub.contextId_ s = None →
  moves (Stub.ProcBeginExecuteRequest s attr) (λ '(s', _, ret) r d,
    d = 0 ∧ r = weight s' ∧ (ret = SUCCESS → weight s' = 1))%nat.
Proof.
  intros Hs. unfold Stub.ProcBeginExecuteRequest.
  repeat move_step; try (unfold weight; simpl; rewrite ?Hs; done).
  eapply moves_bind; [by apply moves_begin_schedule|]. intros [s' ret] r d (-> & -> & H). apply moves_ret.
  rewrite Nat.add_0_r. auto.
Qed.

(** Every stub that is kept holds a context of the pool. *)
Definition covered (m : gmap Z Stub.t) : Prop := map_Forall (λ _ s, weight s = 1%nat) m.

(** What is held and was held before balances with what is held afterwards and
    was taken back. *)
Definition balance (m m' : gmap Z Stub.t) (r d : nat) : Prop :=
  (covered m → covered m' ∧ r + size m = d + size m')%nat.

Lemma balance_refl m : balance m m 0 0.
Proof. done. Qed.

Lemma moves_Begin m request : moves (ProcBeginExecuteRequest m request) (λ '(m', _) r d, balance m m' r d).
Proof.
  unfold ProcBeginExecuteRequest. move_step. move_step; [|by apply moves_ret].
  eapply moves_bind; [by apply moves_ProcBegin|]. intros [[s id] ret] r d (-> & -> & Hw). case_decide as Hret.
  - destruct (m !! id) as [s0|] eqn:E.
    + eapply moves_bind; [apply moves_destroy|]. intros _ r d [-> ->]. apply moves_ret. intros Hm. split; [done|lia].
    + apply moves_ret. intros Hm. split; [by apply map_Forall_insert_2; auto|].
      rewrite map_size_insert_None by done. rewrite Hw by done. lia.
  - eapply moves_bind; [apply moves_destroy|]. intros _ r d [-> ->]. apply moves_ret. intros Hm. split; [done|lia].
Qed.

Lemma moves_End m request : moves (ProcEndExecuteRequest m request) (λ '(m', _) r d, balance m m' r d).
Proof.
  unfold ProcEndExecuteRequest. move_step; [|by apply moves_ret]. destruct (m !! z) as [s|] eqn:E; [|by apply moves_ret].
  eapply moves_bind; [apply moves_destroy|]. intros _ r d [-> ->]. apply moves_ret. intros Hm.
  split; [by apply map_Forall_delete|]. rewrite (Hm _ _ E). rewrite map_size_delete_Some by eauto.
  assert (size m ≠ 0%nat); [|lia]. intros Hz%map_size_empty_iff. subst m. by rewrite lookup_empty in E.
Qed.

Lemma only_still_Create para param b cb : only still (CreateRemoteAuthContext para param b cb).
Proof. unfold CreateRemoteAuthContext, MakeShared_context. only_steps. Qed.
Lemma only_still_GetActiveUserId u : only still (GetActiveUserId u).
Proof. unfold GetActiveUserId. only_steps. Qed.
Lemma only_still_Query l role udid attr : only still (GetQueryExecutorInfoReply l role udid attr).
Proof. unfold GetQueryExecutorInfoReply. only_steps. Qed.
#[export] Hint Resolve only_still_Create only_still_GetActiveUserId only_still_Query : service.

Section Service.
Context (TokenType_of : Z → TokenType).

(** A context for the other device is not a holder. *)
Definition not_holder (context : NewContext) : Prop :=
  match context with ScheduleHolderContext _ => False | _ => True end.

Lemma moves_Create para param b cb : moves (CreateRemoteAuthContext para param b cb)
  (λ c r d, r = 0%nat ∧ d = 0%nat ∧ match c with Some (_, context) => not_holder context | None => True end).
Proof. unfold CreateRemoteAuthContext, MakeShared_context. repeat move_step; repeat split; repeat case_match; by simplify_eq. Qed.

Lemma moves_PoolSchedule id context : not_holder context →
  moves (call (PoolSchedule id context)) (λ _ r d, r = 0 ∧ d = 0)%nat.
Proof. intros H. apply (tallies_call is_held is_deleted (PoolSchedule id context)). by destruct context. Qed.

Lemma moves_StartRemote para param e : moves (StartRemoteAuthContext para param true e) (λ _ r d, r = 0 ∧ d = 0)%nat.
Proof.
  unfold StartRemoteAuthContext, tell. rewrite decide_True by done.
  eapply moves_bind; [apply moves_Create|]. intros [[id context]|] r d (-> & -> & Hc); [|by repeat move_step].
  move_step. eapply moves_bind; [by apply moves_PoolSchedule|]. intros ok r d [-> ->]. destruct ok; by repeat move_step.
Qed.

Lemma moves_Start name request reply :
  moves (ProcStartRemoteAuthRequest TokenType_of name request reply) (λ _ r d, r = 0 ∧ d = 0)%nat.
Proof.
  unfold ProcStartRemoteAuthRequest, GetRemoteAuthContextCallback. repeat move_step; try done.
  all: eapply moves_bind; [apply moves_StartRemote|]. all: intros [? ?] ? ? [-> ->]. all: by repeat move_step.
Qed.

Lemma moves_OnMessage m name request reply :
  moves (OnMessage TokenType_of m name request reply) (λ '(m', _) r d, balance m m' r d).
Proof.
  unfold OnMessage, with_stubs, with_reply. destruct (GetInt32Value request ATTR_MSG_TYPE) as [ty|]; [|by apply moves_ret].
  eapply (moves_bind _ _ (λ '(m', _, _) r d, balance m m' r d)).
  - repeat case_decide; try (by apply moves_ret).
    + eapply moves_bind; [apply moves_Start|]. intros [a code] r d [-> ->]. by apply moves_ret.
    + unfold ProcQueryExecutorInfoRequest. by repeat move_step.
    + eapply moves_bind; [apply moves_Begin|]. intros [m1 code] r d Hb. apply moves_ret. by rewrite !Nat.add_0_r.
    + eapply moves_bind; [apply moves_End|]. intros [m1 code] r d Hb. apply moves_ret. by rewrite !Nat.add_0_r.
  - intros [[m1 a] code] r d Hb. apply moves_ret. by rewrite !Nat.add_0_r.
Qed.

Lemma moves_disconnected m id : moves (stub_disconnected m id) (λ '(m', _) r d, balance m m' r d).
Proof. unfold stub_disconnected. repeat move_step; try done. all: apply moves_End. Qed.

(** The service after messages and lost connections, in any order. *)
Inductive served (o : env answer) : gmap Z Stub.t → trace → Prop :=
  | served_new : served o ∅ []
  | served_message m t name request reply m' reply' t' : served o m t →
      run o (OnMessage TokenType_of m name request reply) t = ((m', reply'), t') → served o m' t'
  | served_disconnected m t id m' code t' : served o m t →
      run o (stub_disconnected m id) t = ((m', code), t') → served o m' t'.

(** C11: whatever other devices send and whenever their connections break, every
    execution that the service keeps holds one context of the pool, and as many
    contexts were given to the pool as were taken back or are still kept: no
    failure on the way leaves one behind. *)
Theorem executions_balanced (o : env answer) m t : served o m t →
  covered m ∧ tally is_held t = (tally is_deleted t + size m)%nat.
Proof.
  induction 1 as [|m t name request reply m' reply' t' _ [Hc IH] E|m t id m' code t' _ [Hc IH] E].
  - split; [apply map_Forall_empty|]. by rewrite map_size_empty.
  - pose proof (tallies_run _ _ o _ _ t (moves_OnMessage m name request reply)) as K. rewrite E in K.
    destruct K as (r & d & -> & -> & Hb). destruct (Hb Hc) as [H1 H2]. split; [done|lia].
  - pose proof (tallies_run _ _ o _ _ t (moves_disconnected m id)) as K. rewrite E in K.
    destruct K as (r & d & -> & -> & Hb). destruct (Hb Hc) as [H1 H2]. split; [done|lia].
Qed.
End Service.

(** An execution begins, and its connection breaks. *)
Definition begin_request : Attributes :=
  (set_all Attributes_new [
    (λ a, SetInt32Value a ATTR_MSG_TYPE BEGIN_EXECUTE);
    (λ a, SetUint64Value a ATTR_SCHEDULE_ID 9);
    (λ a, SetStringValue a ATTR_CONNECTION_NAME (str "device"));
    (λ a, SetStringValue a ATTR_MSG_SRC_UDID (str "udid"));
    (λ a, SetUint8ArrayValue a ATTR_SCHEDULE_DATA [Byte.x01])]).1.
Definition any_type (_ : Z) : TokenType := TOKEN_NATIVE.
(** The engine finds one executor in the message. *)
Definition one_executor : EngScheduleInfo := mkEngScheduleInfo 9 [] 0 0 0 [3] [[Byte.x01]].
Definition collector_world : env answer := λ t q,
  match q return answer q with
  | EngGetLocalScheduleFromMessage _ _ => (SUCCESS, one_executor)
  | q => world true t q
  end.

Lemma executions_balanced_witness : ∃ m t m' t', served any_type collector_world m t ∧ size m = 1%nat ∧
  served any_type collector_world m' t' ∧ tally is_held t' = 1%nat ∧
  tally is_held t' = (tally is_deleted t' + size m')%nat.
Proof.
  eassert (served any_type collector_world _ _) as H1.
  { eapply (served_message _ _ ∅ [] (str "device") begin_request Attributes_new); [apply served_new|].
    vm_compute. reflexivity. }
  eassert (served any_type collector_world _ _) as H2.
  { eapply (served_disconnected _ _ _ _ 9); [exact H1|]. vm_compute. reflexivity. }
  eexists _, _, _, _. split; [exact H1|]. split; [by vm_compute|]. split; [exact H2|]. split; [by vm_compute|].
  apply (executions_balanced _ _ _ _ H2).
Defined.

(** ** A second request on a busy connection *)

(** One call of a run. *)
Ltac run_step :=
  lazymatch goal with
  | |- context [run ?o (call ?q ≫= ?f) ?t] =>
      change (run o (call q ≫= f) t) with (run o (f (o t q)) (t ++ [existT q (o t q)])); cbv beta
  | |- context [run ?o (?m ≫= ?f) ?t] => rewrite (run_bind o m f t)
  end.

Section Busy.
Context {L : Type} (mine : L).
Implicit Types l : list (ListenerInfo L).

(** The listeners of the connections after the calls of a trace; [mine] is
    registered. *)
Definition listen_step l (e : event answer) : list (ListenerInfo L) :=
  match asked e with
  | RegisterConnectionListener name endPoint => (RegisterListener l name endPoint mine).1
  | UnregisterConnectionListener name endPoint => (UnregisterListener l name endPoint).1
  | _ => l
  end.
Definition replay l (t : trace) : list (ListenerInfo L) := foldl listen_step l t.

(** Registrations are answered by the listener manager; there is memory. *)
Definition managed (o : env answer) l : Prop :=
  (∀ t name endPoint, o t (RegisterConnectionListener name endPoint) = (RegisterListener (replay l t) name endPoint mine).2) ∧
  (∀ t what, o t (MakeShared what) = true).

(** When somebody listens for the executor on a connection already, a
    request of the same device to begin another execution there fails, and
    takes the listener of the running execution away, which then neither gets
    data nor learns that the connection breaks. *)
Theorem begin_on_busy_connection (o : env answer) l m request name x id :
  managed o l → FindListener l name EXECUTOR_STUB_ENDPOINT_NAME = Some x →
  GetUint64Value request ATTR_SCHEDULE_ID = Some id → GetStringValue request ATTR_CONNECTION_NAME = Some name →
  let '(m', ret, t) := run o (ProcBeginExecuteRequest m request) [] in
  m' = m ∧ ret = GENERAL_ERROR ∧
  ∃ i info, l !! i = Some info ∧ listener info = x ∧ replay l t = delete i l.
Proof.
  intros [Hreg Hmem] Hx Hid Hname. unfold FindListener in Hx.
  destruct (find_entry l name EXECUTOR_STUB_ENDPOINT_NAME) as [[i info]|] eqn:E; [|done]. injection Hx as <-.
  assert (l !! i = Some info) as Hi by (unfold find_entry in E; by apply list_find_Some in E as [? _]).
  unfold ProcBeginExecuteRequest, Stub.ProcBeginExecuteRequest. rewrite Hid, Hname.
  assert ((RegisterListener l name EXECUTOR_STUB_ENDPOINT_NAME mine).2 = GENERAL_ERROR) as Hrefused.
  { unfold RegisterListener. by rewrite E. }
  run_step. rewrite Hmem, decide_True by done. do 2 run_step. rewrite Hmem, decide_True by done. run_step.
  rewrite Hreg. lazymatch goal with |- context [replay l ?t] => change (replay l t) with l end. rewrite Hrefused, decide_False by done. rewrite run_ret, decide_False by done.
  unfold Stub.destroy. repeat run_step. simpl. split; [done|]. split; [done|].
  exists i, info. split; [done|]. split; [done|].
  unfold replay, listen_step, RegisterListener, UnregisterListener. simpl. by rewrite E; simpl; rewrite E.
Qed.
End Busy.

(** The engine's answers do not matter. *)
Definition busy_listeners : list (ListenerInfo bool) := [mkListener (str "device") EXECUTOR_STUB_ENDPOINT_NAME true].
Definition busy_world : env answer := λ t q,
  match q return answer q with
  | RegisterConnectionListener name endPoint => (RegisterListener (replay false busy_listeners t) name endPoint false).2
  | q => world true t q
  end.

Lemma begin_on_busy_connection_witness :
  let '(m', ret, t) := run busy_world (ProcBeginExecuteRequest ∅ begin_request) [] in
  m' = ∅ ∧ ret = GENERAL_ERROR ∧
  ∃ i info, busy_listeners !! i = Some info ∧ listener info = true ∧ replay false busy_listeners t = delete i busy_listeners.
Proof.
  apply (begin_on_busy_connection false busy_world busy_listeners ∅ begin_request (str "device") true 9);
    [done|by vm_compute|by vm_compute|by vm_compute].
Defined.
