(* ===== verification/Gate.v ===== *)
(** * Gates

    The shape of an access control property: a call is made only if it just
    looks at the caller, is free, or the trace shows that the caller may
    ([gate]). The tactics here run a handler of a service and collect what its
    checks prove. *)

From S2P Require Import Prelude Defines Interaction ServiceTypes Platform IpcCommon UserAuthService.

(** ** Callers *)

(** The direct caller is a system service, or a system application. *)
Definition trusted_caller (c : Caller) (t : trace) : Prop :=
  answered t (GetTokenTypeFlag (callingTokenId c)) TOKEN_NATIVE ∨ granted c IS_SYSTEM_APP t.

(** The caller is no application, or one that is in the foreground; a widget
    request does not mind if the name of the application is [unknown]. *)
Definition in_foreground (c : Caller) (unknown : bool) (t : trace) : Prop :=
  ∃ ty, answered t (GetTokenTypeFlag (GetAccessTokenId c)) ty ∧
    (ty = TOKEN_HAP → ∃ name apps, (bundle c name t ∨ unknown = true ∧ name = []) ∧
      answered t GetForegroundApplications (Some apps) ∧ name ∈ apps).

(** ** Facts survive *)

Lemma in_foreground_extends C c k t t' : extends C t t' → in_foreground c k t → in_foreground c k t'.
Proof.
  intros E (ty & H1 & H2). exists ty. split; [by eapply answered_extends|]. intros Hty.
  destruct (H2 Hty) as (name & apps & H3 & H4 & H5). exists name, apps.
  split; [|split; [by eapply answered_extends|done]]. destruct H3; [left; by eapply bundle_extends|by right].
Qed.

Lemma trusted_extends C c t t' : extends C t t' → trusted_caller c t → trusted_caller c t'.
Proof. intros E [H|H]; [left; by eapply answered_extends|right; by eapply granted_extends]. Qed.

Lemma extends_app (t u : trace) : extends (λ _, true) t (t ++ u).
Proof. exists u. split; [done|]. by apply Forall_true. Qed.

Create HintDb gate discriminated.
#[export] Hint Resolve answered_extends granted_extends bundle_extends calling_user_extends in_foreground_extends
  trusted_extends extends_refl : gate.

(** ** The gate *)

Section Gate.
Context (free : sys → bool) (needs : trace → Prop).

(** A call that is not free is made on behalf of a caller who may. *)
Definition gate (t : trace) (q : sys) : Prop := kit q = true ∨ free q = true ∨ needs t.

Lemma gate_kit t q : kit q = true → gate t q.
Proof. by left. Qed.

(** Once the request has what it needs, everything may follow. *)
Lemma wp_needed {A} (m : service A) t (Φ : A → trace → Prop) :
  (∀ t u, needs t → needs (t ++ u)) → needs t → (∀ a t', needs t' → Φ a t') → wp gate m t Φ.
Proof. intros H. apply (wp_stable _ needs); [intros; by apply H|by right; right]. Qed.

Lemma wp_free q t (Φ : answer q → trace → Prop) :
  free q = true → (∀ r, Φ r (t ++ [existT q r])) → wp gate (call q) t Φ.
Proof. intros H HΦ. apply (@wp_call _ answer); [by right; left|done]. Qed.

Lemma wp_kit_call q t (Φ : answer q → trace → Prop) :
  kit q = true → (∀ r t', extends kit t t' → answered t' q r → Φ r t') → wp gate (call q) t Φ.
Proof.
  intros H HΦ. apply (@wp_call _ answer); [by apply gate_kit|]. intros r.
  apply HΦ; auto with service.
Qed.
End Gate.

(** The branches of [||] and [&&]. *)
Lemma wp_or_else (P : trace → sys → Prop) (m1 m2 : service bool) t (Φ : bool → trace → Prop) :
  wp P m1 t (λ b t', if b then Φ true t' else wp P m2 t' Φ) → wp P (or_else m1 m2) t Φ.
Proof. intros H. apply wp_bind. eapply wp_wand; [exact H|]. by intros [] t'. Qed.

Lemma wp_and_then (P : trace → sys → Prop) (m1 m2 : service bool) t (Φ : bool → trace → Prop) :
  wp P m1 t (λ b t', if b then wp P m2 t' Φ else Φ false t') → wp P (and_then m1 m2) t Φ.
Proof. intros H. apply wp_bind. eapply wp_wand; [exact H|]. by intros [] t'. Qed.

(** Brings the facts about an older trace to the newest one. *)
Ltac carry E :=
  repeat match goal with
  | H : granted _ _ _ |- _ => apply (granted_extends _ _ _ _ _ E) in H
  | H : answered _ _ _ |- _ => apply (answered_extends _ _ _ _ _ E) in H
  | H : bundle _ _ _ |- _ => apply (bundle_extends _ _ _ _ _ E) in H
  | H : calling_user _ _ _ |- _ => apply (calling_user_extends _ _ _ _ _ E) in H
  | H : in_foreground _ _ _ |- _ => apply (in_foreground_extends _ _ _ _ _ E) in H
  | H : trusted_caller _ _ |- _ => apply (trusted_extends _ _ _ _ E) in H
  end.

(** After a branch on a result code: what the code says holds. *)
Ltac told :=
  repeat match goal with
  | H : ¬ (_ ≠ _) |- _ => apply dec_stable in H
  | H : ?r = SUCCESS → _, E : ?r = SUCCESS |- _ => specialize (H E)
  | H : _ ∧ _ |- _ => destruct H
  end.

(** An answer that tells no success. *)
Ltac free_ok := first [reflexivity | solve [apply bool_decide_eq_true_2; done]].

(** One step of a handler: a check, a query about the caller, an answer, a
    branch. *)
Ltac kit_ok := intros ? ?; apply gate_kit.
Ltac gate_step :=
  cbv zeta;
  lazymatch goal with
  | |- wp _ (CheckPermission _ _) _ _ =>
      let E := fresh "E" in apply wp_check; [kit_ok|intros ? E ?; carry E|intros ? E; carry E]
  | |- wp _ (GetCallerName _ _) _ _ =>
      let E := fresh "E" in apply wp_GetCallerName; [kit_ok|intros ? ? ? ? E ? ?; carry E]
  | |- wp _ (GetCallingUserId _ _) _ _ =>
      let E := fresh "E" in apply wp_GetCallingUserId; [kit_ok|intros ? ? ? E ?; carry E]
  | |- wp _ (CheckForegroundApplication _) _ _ =>
      let E := fresh "E" in apply wp_CheckForegroundApplication; [kit_ok|intros ? ? E ?; carry E]
  | |- wp _ (call ?q) _ _ =>
      first [apply (wp_free _ _ q); [free_ok|intros ?]
            |let E := fresh "E" in apply (wp_kit_call _ _ q); [reflexivity|intros ? ? E ?; carry E]]
  | |- wp _ (mret _) _ _ => apply wp_ret
  | |- wp _ (or_else _ _) _ _ => apply wp_or_else
  | |- wp _ (and_then _ _) _ _ => apply wp_and_then
  | |- wp _ (_ ≫= _) _ _ => apply wp_bind
  | |- wp _ (match ?x with _ => _ end) _ _ => branch_on x; told
  end.
