(* ===== verification/UserAuthGate.v ===== *)
(** * The authentication service: who may do what

    [serve_auth c req] runs the handler of an IPC request of the caller [c].
    Nothing behind the service is touched before the trace shows the
    permissions that the request needs. *)

From S2P Require Import Prelude Defines Interaction ServiceTypes Attributes Platform IpcCommon UserIdmDatabase.
From S2P Require Import ContextFactory AuthWidgetHelper UserAuthService Gate.

(** ** The requests *)

Inductive AuthRequest :=
  | Req_GetAvailableStatus (apiVersion userId authType authTrustLevel : Z)
  | Req_GetAvailableStatus_caller (apiVersion authType authTrustLevel : Z)
  | Req_GetProperty (userId authType : Z) (keys : list Z) (callback : bool)
  | Req_GetPropertyById (credentialId : Z) (keys : list Z) (callback : bool)
  | Req_SetProperty (userId authType : Z) (attributes : bytes) (callback : bool)
  | Req_AuthUser (ipc : IpcAuthParamInner) (ipcRemote : IpcRemoteAuthParam) (callback : bool)
  | Req_Auth (apiVersion : Z) (ipc : IpcAuthParamInner) (callback : bool) (contextId : Z)
  | Req_AuthWidget (apiVersion : Z) (ipc : IpcAuthParamInner) (ipcWidget : IpcWidgetParamInner)
      (callback modalCallback : bool) (contextId : Z)
  | Req_Identify (challenge : bytes) (authType : Z) (callback : bool)
  | Req_CancelAuthOrIdentify (contextId cancelReason : Z)
  | Req_GetVersion
  | Req_Notice (noticeType : Z) (eventData : bytes)
  | Req_RegisterWidgetCallback (version : Z) (widgetCallback : bool)
  | Req_GetEnrolledState (apiVersion authType : Z) (ipcEnrolledState : EngEnrolledState)
  | Req_GetAuthLockState (authType : Z) (callback : bool)
  | Req_RegistUserAuthSuccessEventListener (listener : bool)
  | Req_UnRegistUserAuthSuccessEventListener (listener : bool)
  | Req_CheckUserRecognitionCapability
  | Req_GetUserRecognitionResult (result : Z)
  | Req_RegisterUserRecognitionEventListener (listener : bool)
  | Req_UnregisterUserRecognitionEventListener (listener : bool)
  | Req_PrepareRemoteAuth (networkId : bytes) (callback : bool)
  | Req_VerifyAuthToken (tokenIn : bytes) (allowableDuration : Z) (callback : bool)
  | Req_QueryReusableAuthResult (ipc : IpcAuthParamInner) (token : bytes)
  | Req_RegisterRemoteAuthCallback (callback : bool)
  | Req_UnregisterRemoteAuthCallback
  | Req_SetGlobalConfigParam (ipc : IpcGlobalConfigParam)
  | Req_SetUserConfigParam (ipc : IpcGlobalConfigParam)
  | Req_GetUserConfigParam (userId authType type : Z) (value : IpcGlobalConfigValue) (funcResult : Z).

(** The reply is dropped: only the calls matter here. *)
Definition ignore {A} (m : service A) : service () := _ ← m; mret ().

Definition serve_auth (c : Caller) (req : AuthRequest) : service () :=
  match req with
  | Req_GetAvailableStatus v u ty atl => ignore (GetAvailableStatus c v u ty atl)
  | Req_GetAvailableStatus_caller v ty atl => ignore (GetAvailableStatus_caller c v ty atl)
  | Req_GetProperty u ty keys cb => ignore (GetProperty c u ty keys cb)
  | Req_GetPropertyById id keys cb => ignore (GetPropertyById c id keys cb)
  | Req_SetProperty u ty attrs cb => ignore (SetProperty c u ty attrs cb)
  | Req_AuthUser ipc remote cb => ignore (AuthUser c ipc remote cb)
  | Req_Auth v ipc cb id => ignore (Auth c v ipc cb id)
  | Req_AuthWidget v ipc w cb modal id => ignore (AuthWidget c v ipc w cb modal id)
  | Req_Identify ch ty cb => ignore (Identify c ch ty cb)
  | Req_CancelAuthOrIdentify id reason => ignore (CancelAuthOrIdentify c id reason)
  | Req_GetVersion => ignore (GetVersion c)
  | Req_Notice ty data => ignore (Notice c ty data)
  | Req_RegisterWidgetCallback v cb => ignore (RegisterWidgetCallback c v cb)
  | Req_GetEnrolledState v ty st => ignore (GetEnrolledState c v ty st)
  | Req_GetAuthLockState ty cb => ignore (GetAuthLockState c ty cb)
  | Req_RegistUserAuthSuccessEventListener l => ignore (RegistUserAuthSuccessEventListener c l)
  | Req_UnRegistUserAuthSuccessEventListener l => ignore (UnRegistUserAuthSuccessEventListener c l)
  | Req_CheckUserRecognitionCapability => ignore (CheckUserRecognitionCapability c)
  | Req_GetUserRecognitionResult r => ignore (GetUserRecognitionResult c r)
  | Req_RegisterUserRecognitionEventListener l => ignore (RegisterUserRecognitionEventListener c l)
  | Req_UnregisterUserRecognitionEventListener l => ignore (UnregisterUserRecognitionEventListener c l)
  | Req_PrepareRemoteAuth n cb => ignore (PrepareRemoteAuth c n cb)
  | Req_VerifyAuthToken tok d cb => ignore (VerifyAuthToken c tok d cb)
  | Req_QueryReusableAuthResult ipc tok => ignore (QueryReusableAuthResult c ipc tok)
  | Req_RegisterRemoteAuthCallback cb => ignore (RegisterRemoteAuthCallback c cb)
  | Req_UnregisterRemoteAuthCallback => ignore (UnregisterRemoteAuthCallback c)
  | Req_SetGlobalConfigParam p => ignore (SetGlobalConfigParam c p)
  | Req_SetUserConfigParam p => ignore (SetUserConfigParam c p)
  | Req_GetUserConfigParam u ty k v f => ignore (GetUserConfigParam c u ty k v f)
  end.

(** ** What a request needs *)

(** What the widget request needs besides: the private PIN is for internal
    callers and system applications, and so is the window mode. *)
Definition widget_allowed (c : Caller) (ipc : IpcAuthParamInner) (ipcWidget : IpcWidgetParamInner) (t : trace) : Prop :=
  (PRIVATE_PIN ∈ ia_authTypes ipc →
    granted c ACCESS_USER_AUTH_INTERNAL_PERMISSION t ∨ granted c IS_SYSTEM_APP t) ∧
  (ia_isUserIdSpecified ipc = false → granted c ACCESS_BIOMETRIC_PERMISSION t) ∧
  (ia_isUserIdSpecified ipc = true →
    granted c ACCESS_USER_AUTH_INTERNAL_PERMISSION t ∨
    granted c ACCESS_BIOMETRIC_PERMISSION t ∧ (granted c IS_SYSTEM_APP t ∨ calling_user c (ia_userId ipc) t)) ∧
  (iw_windowMode ipcWidget ≠ UNKNOWN_WINDOW_MODE → granted c IS_SYSTEM_APP t).

Definition needs (c : Caller) (req : AuthRequest) (t : trace) : Prop :=
  match req with
  | Req_GetAvailableStatus _ _ _ _ | Req_GetProperty _ _ _ _ | Req_GetPropertyById _ _ _ | Req_SetProperty _ _ _ _
  | Req_Identify _ _ _ | Req_RegistUserAuthSuccessEventListener _ | Req_UnRegistUserAuthSuccessEventListener _
  | Req_PrepareRemoteAuth _ _ => granted c ACCESS_USER_AUTH_INTERNAL_PERMISSION t
  | Req_GetAvailableStatus_caller _ _ _ | Req_CancelAuthOrIdentify _ _ | Req_GetVersion =>
      granted c ACCESS_USER_AUTH_INTERNAL_PERMISSION t ∨ granted c ACCESS_BIOMETRIC_PERMISSION t
  | Req_AuthUser ipc _ _ => granted c ACCESS_USER_AUTH_INTERNAL_PERMISSION t ∧
      (ia_authIntent ipc = SUDO_PIN_AUTH → trusted_caller c t)
  | Req_Auth _ _ _ _ => granted c ACCESS_BIOMETRIC_PERMISSION t ∧ in_foreground c false t
  | Req_AuthWidget v ipc w _ _ _ => widget_allowed c ipc w t ∧
      (v < INNER_API_VERSION_10000 → in_foreground c true t ∨ granted c USER_AUTH_FROM_BACKGROUND t)
  | Req_Notice _ _ | Req_RegisterWidgetCallback _ _ => granted c IS_SYSTEM_APP t ∧ granted c SUPPORT_USER_AUTH t
  | Req_GetEnrolledState _ _ _ | Req_GetAuthLockState _ _ => granted c ACCESS_BIOMETRIC_PERMISSION t
  | Req_CheckUserRecognitionCapability | Req_GetUserRecognitionResult _
  | Req_RegisterUserRecognitionEventListener _ | Req_UnregisterUserRecognitionEventListener _ =>
      granted c ACCESS_USER_PASSIVE_RECOGNITION_PERMISSION t
  | Req_VerifyAuthToken _ _ _ | Req_SetUserConfigParam _ | Req_GetUserConfigParam _ _ _ _ _ =>
      granted c USE_USER_ACCESS_MANAGER t ∧ trusted_caller c t
  | Req_QueryReusableAuthResult _ _ =>
      granted c ACCESS_USER_AUTH_INTERNAL_PERMISSION t ∧ granted c IS_SYSTEM_APP t
  | Req_RegisterRemoteAuthCallback _ | Req_UnregisterRemoteAuthCallback =>
      granted c IS_SYSTEM_APP t ∧ granted c ACCESS_USER_AUTH_INTERNAL_PERMISSION t
  | Req_SetGlobalConfigParam _ =>
      granted c ACCESS_USER_AUTH_INTERNAL_PERMISSION t ∧ granted c ENTERPRISE_DEVICE_MGR t
  end.

(** Telling the caller of a failure needs nothing. *)
Definition to_caller (q : sys) : bool :=
  match q with
  | OnResult _ code _ | OnSetExecutorPropertyResult code | OnGetExecutorPropertyResult code _
  | OnVerifyTokenResult code _ => bool_decide (code ≠ SUCCESS)
  | _ => false
  end.

(** Every other call is made on behalf of a caller who may. *)
Definition auth_gate (c : Caller) (req : AuthRequest) : trace → sys → Prop := gate to_caller (needs c req).

(** ** Nothing is touched without the permissions *)

Lemma needs_app c req t u : needs c req t → needs c req (t ++ u).
Proof.
  pose proof (extends_app t u) as E.
  destruct req; simpl; unfold widget_allowed; intuition eauto 4 with gate.
Qed.

(** The request has what it needs: the rest is free. *)
Ltac needed :=
  lazymatch goal with
  | H : needs _ _ ?t |- wp _ _ ?t _ => apply wp_needed; [apply needs_app|exact H|]
  | |- wp _ _ _ _ =>
      apply wp_needed; [apply needs_app|solve [simpl; unfold trusted_caller; subst; intuition congruence]|]
  end; clear; intros ? ? ?.

(** Runs a handler up to its result. *)
Ltac gate_open := repeat first [gate_step | needed]; try done.

Definition simple (req : AuthRequest) : bool :=
  match req with
  | Req_AuthUser _ _ _ | Req_Auth _ _ _ _ | Req_AuthWidget _ _ _ _ _ _ => false
  | _ => true
  end.

Lemma gate_simple c req : simple req = true → wp (auth_gate c req) (serve_auth c req) [] (λ _ _, True).
Proof.
  destruct req; try done; intros _; unfold serve_auth, ignore, GetAvailableStatus, GetAvailableStatusImpl,
    GetAvailableStatus_caller, GetAvailableStatusImpl_caller, GetProperty, GetPropertyById, SetProperty,
    Identify, CancelAuthOrIdentify, GetVersion, Notice, RegisterWidgetCallback, GetEnrolledState,
    GetEnrolledStateImpl, GetAuthLockState, RegistUserAuthSuccessEventListener,
    UnRegistUserAuthSuccessEventListener, CheckUserRecognitionCapability, GetUserRecognitionResult,
    RegisterUserRecognitionEventListener, UnregisterUserRecognitionEventListener, check_recognition,
    PrepareRemoteAuth, PrepareRemoteAuthInner, VerifyAuthToken, answer_verify,
    QueryReusableAuthResult, RegisterRemoteAuthCallback, UnregisterRemoteAuthCallback, check_system_app,
    SetGlobalConfigParam, SetUserConfigParam, GetUserConfigParam, check_access_manager, GetDirectCallerType,
    answer_property, answer_set_property, tell, tell_raw.
  all: gate_open.
Qed.

(** A check that only looks, and what its success proves. *)
Definition checks (m : service Z) (t : trace) (ok : trace → Prop) : Prop :=
  ∀ P Φ, (∀ t q, kit q = true → P t q) → (∀ r t', extends kit t t' → (r = SUCCESS → ok t') → Φ r t') → wp P m t Φ.

Lemma check_Auth c ty callerType name atl t :
  answered t (GetTokenTypeFlag (GetAccessTokenId c)) callerType → (callerType = TOKEN_HAP → bundle c name t) →
  checks (CheckAuthPermissionAndParam_Auth c ty callerType name atl) t
    (λ t', granted c ACCESS_BIOMETRIC_PERMISSION t' ∧ in_foreground c false t').
Proof.
  intros Hty Hname P Φ HP HΦ. unfold CheckAuthPermissionAndParam_Auth. apply wp_bind, wp_check; [done|..].
  2: { intros t1 E1. step; [done|]. step. by apply HΦ. }
  intros t1 E1 Hg. carry E1. step; [|done]. step. step; [specialize (Hname e0)|].
  - carry E1. apply wp_CheckForegroundApplication; [done|]. intros b t2 E2 Hb. carry E2.
    pose proof (extends_trans _ _ _ _ E1 E2) as E. repeat step; (apply HΦ; [done|]); try done; intros _;
      (split; [done|]; exists callerType; split; [done|]; intros _; destruct Hb as (apps & H1 & H2); [done|];
       exists name, apps; auto).
  - repeat step; (apply HΦ; [done|]); try done; intros _;
      (split; [done|]; exists callerType; split; [done|]; congruence).
Qed.

Lemma gate_Auth c v ipc cb id :
  wp (auth_gate c (Req_Auth v ipc cb id)) (serve_auth c (Req_Auth v ipc cb id)) [] (λ _ _, True).
Proof.
  unfold serve_auth, ignore, Auth, GetAuthContextCallback, tell_raw, tell.
  repeat lazymatch goal with
  | |- wp _ (CheckAuthPermissionAndParam_Auth _ _ _ _ _) _ _ =>
      let E := fresh "E" in apply check_Auth; [done|naive_solver|kit_ok|intros ? ? E ?; carry E]
  | |- _ => first [gate_step | needed]
  end; try done.
Qed.

Lemma gate_AuthUser c ipc rem cb :
  wp (auth_gate c (Req_AuthUser ipc rem cb)) (serve_auth c (Req_AuthUser ipc rem cb)) [] (λ _ _, True).
Proof.
  unfold serve_auth, ignore, AuthUser, GetAuthContextCallback, CheckAuthPermissionAndParam_AuthUser,
    StartSudoAuthUser, GetDirectCallerType, IsOsAccountVerified, tell_raw, tell.
  gate_open.
Qed.

(** ** The widget request *)

Lemma check_PrivatePin c p t :
  checks (CheckCallerPermissionForPrivatePin c p) t (λ t', PRIVATE_PIN ∈ ap_authTypes p →
    granted c ACCESS_USER_AUTH_INTERNAL_PERMISSION t' ∨ granted c IS_SYSTEM_APP t').
Proof.
  intros P Φ HP HΦ. unfold CheckCallerPermissionForPrivatePin. step.
  { step. apply HΦ; [apply extends_refl|done]. }
  apply wp_bind, wp_or_else, wp_check; [done|..]; intros t1 E1.
  - intros Hg. step. apply HΦ; auto.
  - apply wp_check; [done|..]; intros t2 E2; [intros Hg|]; step; (apply HΦ; [eauto using extends_trans|]); try done; auto.
Qed.

Lemma check_UserId c p t :
  checks (CheckCallerPermissionForUserId c p) t (λ t',
    (ap_isUserIdSpecified p = false → granted c ACCESS_BIOMETRIC_PERMISSION t') ∧
    (ap_isUserIdSpecified p = true → granted c ACCESS_USER_AUTH_INTERNAL_PERMISSION t' ∨
      granted c ACCESS_BIOMETRIC_PERMISSION t' ∧ (granted c IS_SYSTEM_APP t' ∨ calling_user c (ap_userId p) t'))).
Proof.
  intros P Φ HP HΦ. unfold CheckCallerPermissionForUserId. step.
  - apply wp_bind, wp_check; [done|..]; intros t1 E1; [intros Hg|]; step; (apply HΦ; [done|]); try done.
    intros _. split; congruence.
  - apply wp_bind, wp_check; [done|..]; intros t1 E1.
    { intros Hg. repeat step; [|done]. apply HΦ; [done|]. intros _. split; [congruence|auto]. }
    step; [done|]. apply wp_bind, wp_GetCallingUserId; [done|]. intros ret u t2 E2 Hu.
    pose proof (extends_trans _ _ _ _ E1 E2) as E12. step; [|step; by apply HΦ]. told.
    apply wp_bind, wp_and_then, wp_check; [done|..]; intros t3 E3.
    + intros Hg. carry E3. pose proof (extends_trans _ _ _ _ E12 E3) as E13.
      apply wp_or_else, wp_check; [done|..]; intros t4 E4; [intros Hs|]; carry E4;
        pose proof (extends_trans _ _ _ _ E13 E4) as E14; repeat step; (apply HΦ; [done|]); try done.
      * intros _. split; [congruence|]. auto.
      * case_bool_decide; [|done]. subst. intros _. split; [congruence|]. auto.
    + step. apply HΦ; [eauto using extends_trans|done].
Qed.

Lemma check_WindowMode c w t :
  checks (CheckWindowMode c w) t (λ t', wi_windowMode w ≠ UNKNOWN_WINDOW_MODE → granted c IS_SYSTEM_APP t').
Proof.
  intros P Φ HP HΦ. unfold CheckWindowMode. apply wp_bind, wp_check; [done|..]; intros t1 E1.
  all: try intros Hg; step; [step; by apply HΦ|].
  all: apply wp_bind, wp_check; [done|..]; intros t2 E2; try intros Hg2.
  all: pose proof (extends_trans _ _ _ _ E1 E2) as E12; repeat step; (apply HΦ; [done|]); try done.
  all: intros _ H; destruct n0; auto.
Qed.

Lemma widget_allowed_extends C c ipc w t t' : extends C t t' → widget_allowed c ipc w t → widget_allowed c ipc w t'.
Proof. intros E. unfold widget_allowed. intuition eauto 4 with gate. Qed.

Lemma check_Widget c ipc w background t :
  checks (CheckAuthPermissionAndParam_Widget c (InitAuthParam ipc) (InitWidgetParam w) background) t (λ t',
    widget_allowed c ipc w t' ∧ (background = true → granted c USER_AUTH_FROM_BACKGROUND t')).
Proof.
  intros P Φ HP HΦ. unfold CheckAuthPermissionAndParam_Widget.
  step; [step; apply HΦ; [apply extends_refl|done]|].
  apply wp_bind, check_WindowMode; [done|]. intros r1 t1 E1 H1. step; [|by step; apply HΦ].
  apply wp_bind, check_PrivatePin; [done|]. intros r2 t2 E2 H2. pose proof (extends_trans _ _ _ _ E1 E2) as E12.
  step; [|by step; apply HΦ].
  apply wp_bind, check_UserId; [done|]. intros r3 t3 E3 H3. pose proof (extends_trans _ _ _ _ E12 E3) as E13.
  step; [|by step; apply HΦ]. told.
  assert (widget_allowed c ipc w t3) as HW.
  { pose proof (extends_trans _ _ _ _ E2 E3) as E23. simpl in *. unfold widget_allowed. intuition eauto 4 with gate. }
  apply wp_bind. step.
  - apply wp_check; [done|..]; intros t4 E4; [intros Hg|]; pose proof (extends_trans _ _ _ _ E13 E4) as E14;
      repeat step; (apply HΦ; [done|]); try done; intros _; (split; [exact (widget_allowed_extends _ _ _ _ _ _ E4 HW)|done]).
  - repeat step; (apply HΦ; [done|]); try done; intros _; (split; [done|done]).
Qed.

Lemma wp_GetCallerInfo P c spec u v t (Φ : Z * AuthWidgetContextPara → trace → Prop) :
  (∀ t q, kit q = true → P t q) →
  (∀ ret para t', extends kit t t' →
    (v < INNER_API_VERSION_10000 → wc_isBackgroundApplication para = false → in_foreground c true t') →
    wc_isPinExpired para = false → Φ (ret, para) t') →
  wp P (GetCallerInfo c spec u v) t Φ.
Proof.
  intros HP HΦ. unfold GetCallerInfo. apply wp_bind, wp_GetCallerName; [done|]. intros found name ty t1 E1 Hty Hname.
  cbn beta iota. apply wp_bind, wp_kit; [by eauto with service|done|]. intros [[f id] ident] t2 E2. carry E2.
  pose proof (extends_trans _ _ _ _ E1 E2) as E12. cbn beta iota.
  assert (ty = TOKEN_HAP → bundle c name t2 ∨ true = true ∧ name = []) as Hn.
  { intros H. destruct (Hname H) as [[_ Hb]|[_ Hb]]; [left; exact (bundle_extends _ _ _ _ _ E2 Hb)|by right]. }
  apply wp_bind. assert (∀ fg t3, extends kit t2 t3 →
    (v < INNER_API_VERSION_10000 → fg = true → in_foreground c true t3) →
    wp P (let para := λ userId : Z, mkWidgetPara userId v 0 name [] [] ATL1 (mkWidgetParam [] [] 0 false) ∅ ty id ident
        false false (negb fg) false [] [] 0 in
      WHEN spec = true RETURN mret (SUCCESS, para u) ;;
      '(ret, userId) ← GetCallingUserId c INVALID_USER_ID;
      CHECK ret = SUCCESS ELSE mret (GENERAL_ERROR, para userId) ;; mret (SUCCESS, para userId)) t3 Φ) as Hrest.
  { intros fg t3 E3 Hfg. pose proof (extends_trans _ _ _ _ E12 E3) as E13.
    step; [step; apply HΦ; [done| |done]; simpl; destruct fg; auto|].
    apply wp_bind, wp_GetCallingUserId; [done|]. intros ret user t4 E4 _.
    repeat step; (apply HΦ; [eauto using extends_trans| |done]); simpl; intros Hv Hb; destruct fg; try done;
      eapply in_foreground_extends; eauto. }
  step.
  - apply wp_CheckForegroundApplication; [done|]. intros fg t3 E3 Hfg. apply Hrest; [done|]. intros Hv ->.
    carry E3. destruct Hfg as (apps & H1 & H2); [done|]. exists ty. split; [done|]. intros H. exists name, apps.
    split; [|done]. destruct (Hn H) as [Hb|]; [left; exact (bundle_extends _ _ _ _ _ E3 Hb)|by right].
  - step. apply Hrest; [apply extends_refl|]. intros Hv _. exists ty. split; [done|]. intros H. by destruct n.
Qed.

Lemma widget_needs c v ipc w cb modal id background t t' :
  extends kit t t' → (v < INNER_API_VERSION_10000 → background = false → in_foreground c true t) →
  widget_allowed c ipc w t' → (background = true → granted c USER_AUTH_FROM_BACKGROUND t') →
  needs c (Req_AuthWidget v ipc w cb modal id) t'.
Proof.
  intros E H1 H2 H3. split; [done|]. intros Hv. destruct background; [right; auto|left].
  apply (in_foreground_extends _ _ _ _ _ E). auto.
Qed.

Lemma gate_AuthWidget c v ipc w cb modal id :
  wp (auth_gate c (Req_AuthWidget v ipc w cb modal id)) (serve_auth c (Req_AuthWidget v ipc w cb modal id)) []
    (λ _ _, True).
Proof.
  unfold serve_auth, ignore, AuthWidget, GetAuthContextCallback, tell_raw, tell.
  repeat lazymatch goal with
  | E : extends kit ?t ?t', H1 : _ → _ → in_foreground _ _ ?t, H2 : widget_allowed _ _ _ ?t' |- wp _ _ ?t' _ =>
      apply wp_needed; [apply needs_app|eapply widget_needs; [exact E|exact H1|exact H2|done]|]; clear; intros ? ? ?
  | |- wp _ (GetCallerInfo _ _ _ _) _ _ =>
      let E := fresh "E" in apply wp_GetCallerInfo; [kit_ok|intros ? ? ? E ? _; carry E]
  | |- wp _ (CheckAuthPermissionAndParam_Widget _ _ _ _) _ _ =>
      let E := fresh "E" in apply check_Widget; [kit_ok|intros ? ? E ?]
  | |- _ => first [gate_step | needed]
  end; try done.
Qed.

(** C1: for every caller, every request and every behaviour of the rest of the
    system: a call that does not just look at the caller or tell him of a failure is made
    only after the access token kit confirmed, in this very request, every
    permission that the request needs. So no user is authenticated, no
    property read or written, no token verified, no listener or configuration
    changed for a caller without them; and a widget request for another user
    comes from an internal caller, a system application or that user. *)
Theorem auth_service_gate c req (o : env answer) : guarded (auth_gate c req) (run o (serve_auth c req) []).2.
Proof.
  eapply wp_run_nil. destruct (simple req) eqn:Hs; [by apply gate_simple|].
  destruct req; try done; [apply gate_AuthUser|apply gate_Auth|apply gate_AuthWidget].
Qed.
