(* ===== verification/UserAuthAnswers.v ===== *)
(** * The authentication service: who is answered

    The requests that start a context end with one result for the caller or one
    context in the pool. *)

From S2P Require Import Prelude Defines Interaction ServiceTypes Attributes Platform IpcCommon UserIdmDatabase.
From S2P Require Import ContextFactory AuthWidgetHelper UserAuthService.

(** ** Every start request is answered *)

(** The four requests that start a context, by whether the callback is there
    and whether another device takes part. *)
Inductive starting (c : Caller) : bool → bool → service (Z * Z) → Prop :=
  | starting_Auth v ipc cb id : starting c cb false (Auth c v ipc cb id)
  | starting_AuthUser ipc rem cb :
      starting c cb (ir_isHasRemoteAuthParam rem && negb (bool_decide (ia_authIntent ipc = SUDO_PIN_AUTH)))
        (AuthUser c ipc rem cb)
  | starting_AuthWidget v ipc w cb modal id : starting c cb false (AuthWidget c v ipc w cb modal id)
  | starting_Identify ch ty cb : starting c cb false (Identify c ch ty cb).

(** [r] results and [s] scheduled contexts go with this reply. *)
Definition outcome (remote : bool) (reply : Z * Z) (r s : nat) : Prop :=
  let '(code, id) := reply in
  (remote = false → r + s = 1)%nat ∧ (1 ≤ r + s ≤ 2)%nat ∧
  (code = SUCCESS → r + s = 1 ∧ (s = 1 ∨ id = REUSE_AUTH_RESULT_CONTEXT_ID))%nat ∧
  (s = 1%nat → code = SUCCESS ∨ id = BAD_CONTEXT_ID).

Lemma answers_tell code : answers (tell code) (λ _ r s, r = 1 ∧ s = 0)%nat.
Proof. apply answers_result. Qed.

Lemma answers_context_id create f :
  only silent create →
  answers (id ← start_context f create; mret (context_id id)) (λ id r s, (r + s = 1)%nat ∧ (id ≠ BAD_CONTEXT_ID → s = 1%nat)).
Proof.
  intros H. eapply answers_bind; [by apply answers_start_context|]. intros id r s [H1 H2]. apply answers_ret.
  rewrite !Nat.add_0_r. split; [done|]. destruct id as [id|]; [intros _; by apply H2|done].
Qed.

Section Answers.
Context (c : Caller).

Lemma answers_GetAuthContextCallback cb :
  answers (GetAuthContextCallback cb) (λ made r s, s = 0 ∧ (if (made : bool) then cb = true ∧ r = 0 else r = if cb then 1 else 0))%nat.
Proof. unfold GetAuthContextCallback, tell_raw. destruct cb; repeat count_step; naive_solver. Qed.

Lemma answers_StartRemoteAuthContext para param e :
  answers (StartRemoteAuthContext para param true e)
    (λ '(id, _) r s, (r + s = 1)%nat ∧ (id ≠ BAD_CONTEXT_ID → s = 1%nat)).
Proof.
  unfold StartRemoteAuthContext, tell. rewrite decide_True by done.
  apply answers_silent_bind; [auto with service|].
  intros [[id ctx]|]; repeat count_step; subst; (split; [reflexivity|done]).
Qed.

(** What the start functions give back: an id that is not bad is scheduled. *)
Definition one_start (id : Z) (r s : nat) : Prop := (r + s = 1)%nat ∧ (id ≠ BAD_CONTEXT_ID → s = 1%nat).

Lemma answers_StartAuthContext para b : answers (StartAuthContext para b) one_start.
Proof. apply answers_context_id. auto with service. Qed.
Lemma answers_StartRemoteAuthInvokerContext p q : answers (StartRemoteAuthInvokerContext p q) one_start.
Proof. apply answers_context_id. auto with service. Qed.
Lemma answers_StartLocalRemoteAuthContext p q : answers (StartLocalRemoteAuthContext p q) one_start.
Proof. apply answers_context_id. auto with service. Qed.
Lemma answers_StartSudoAuthContext p para : answers (StartSudoAuthContext c p para) one_start.
Proof. apply answers_silent_bind; [auto with service|]. intros ?. apply answers_context_id. auto with service. Qed.

Lemma answers_StartWidgetContext p w tys para modal : answers (StartWidgetContext c p w tys para modal) one_start.
Proof.
  unfold StartWidgetContext, tell. apply answers_silent_bind; [auto with service|]. intros ?. cbv zeta.
  unfold InitWidgetContextParam. rewrite decide_False by done.
  apply answers_silent_bind; [unfold GetRemoteAuthCallerName; only_steps|].
  intros [[para' b]|]; [apply answers_context_id; auto with service|].
  repeat count_step. by split.
Qed.

(** A failing remote start may have told the caller, or not. *)
Lemma answers_AuthRemoteUser p para rem :
  answers (AuthRemoteUser c p para rem)
    (λ '(id, reason) r s, (r + s ≤ 1)%nat ∧ (id ≠ BAD_CONTEXT_ID → s = 1 ∧ r = 0)%nat ∧ reason ≠ SUCCESS).
Proof.
  unfold AuthRemoteUser. apply answers_silent_bind; [only_steps|]. intros [net|]; [|repeat count_step; naive_solver lia].
  destruct (ProcessAuthParamForRemoteAuth c para rem net) as [[para' rem'] ok].
  repeat lazymatch goal with
  | |- answers (StartLocalRemoteAuthContext _ _ ≫= _) _ =>
      eapply answers_bind; [apply answers_StartLocalRemoteAuthContext|intros ? ? ? [? ?]]
  | |- answers (StartRemoteAuthInvokerContext _ _ ≫= _) _ =>
      eapply answers_bind; [apply answers_StartRemoteAuthInvokerContext|intros ? ? ? [? ?]]
  | |- answers (StartRemoteAuthContext _ _ _ _ ≫= _) _ =>
      eapply answers_bind; [apply answers_StartRemoteAuthContext|intros [? ?] ? ? [? ?]]
  | |- _ => count_step
  end; (split; [lia|split; [naive_solver lia|done]]).
Qed.

Lemma answers_StartAuthUser p rem para :
  answers (StartAuthUser c p rem para) (outcome (bool_decide (is_Some rem))).
Proof.
  unfold StartAuthUser, tell. destruct rem as [rem|].
  - eapply answers_bind; [apply answers_AuthRemoteUser|]. intros [id reason] r s (H1 & H2 & H3).
    repeat count_step; unfold outcome; rewrite ?bool_decide_true by eauto; naive_solver lia.
  - apply answers_silent_bind; [only_steps|]. intros b.
    eapply answers_bind; [apply answers_StartAuthContext|]. intros id r s [H1 H2].
    repeat count_step; unfold outcome; naive_solver lia.
Qed.

Lemma outcome_told remote code id : code ≠ SUCCESS → outcome remote (code, id) 1 0.
Proof. intros H. unfold outcome. naive_solver lia. Qed.

Lemma answers_StartSudoAuthUser p rem para id : answers (StartSudoAuthUser c p rem para id) (outcome false).
Proof.
  unfold StartSudoAuthUser, tell. repeat lazymatch goal with
  | |- answers (StartSudoAuthContext _ _ _ ≫= _) _ =>
      eapply answers_bind; [apply answers_StartSudoAuthContext|intros ? ? ? [? ?]]
  | |- _ => count_step
  end; try (by apply outcome_told).
  rewrite !Nat.add_0_r. unfold outcome. case_decide; naive_solver lia.
Qed.

Lemma only_CheckValidSolution para p w tys : only silent (CheckValidSolution para p w tys).
Proof.
  unfold CheckValidSolution, GetAuthTypesFromCredentialIds, CheckSkipLockedBiometricAuth, profile_step. only_steps.
Qed.
Lemma only_ProcessPinExpired r p tys para : only silent (ProcessPinExpired r p tys para).
Proof. unfold ProcessPinExpired. only_steps. Qed.

Lemma answers_StartAuthWidget p w para modal id : answers (StartAuthWidget c p w para modal id) (outcome false).
Proof.
  unfold StartAuthWidget, tell. repeat lazymatch goal with
  | |- answers (StartWidgetContext _ _ _ _ _ _ ≫= _) _ =>
      eapply answers_bind; [apply answers_StartWidgetContext|intros ? ? ? [? ?]]
  | |- answers (CheckValidSolution _ _ _ _ ≫= _) _ => apply answers_silent_bind; [apply only_CheckValidSolution|intros ?]
  | |- answers (ProcessPinExpired _ _ _ _ ≫= _) _ => apply answers_silent_bind; [apply only_ProcessPinExpired|intros ?]
  | |- _ => count_step
  end; try (apply outcome_told; naive_solver); rewrite !Nat.add_0_r; unfold outcome; naive_solver lia.
Qed.

Lemma only_CheckWidget p w b : only silent (CheckAuthPermissionAndParam_Widget c p w b).
Proof.
  unfold CheckAuthPermissionAndParam_Widget, CheckWindowMode, CheckCallerPermissionForPrivatePin,
    CheckCallerPermissionForUserId. only_steps.
Qed.
Lemma only_GetCallerInfo b u v : only silent (GetCallerInfo c b u v).
Proof. unfold GetCallerInfo. only_steps. Qed.
Hint Resolve only_CheckWidget only_GetCallerInfo : service.

(** What holds of a request with this callback. *)
Definition replied (cb remote : bool) (reply : Z * Z) (r s : nat) : Prop :=
  if cb then outcome remote reply r s else r = 0%nat ∧ s = 0%nat ∧ reply.1 ≠ SUCCESS.

Lemma answers_started (cb remote : bool) (m : service (Z * Z)) id :
  answers m (outcome remote) →
  answers (contextCallback ← GetAuthContextCallback cb;
    CHECK contextCallback = true ELSE mret (GENERAL_ERROR, id) ;; m) (replied cb remote).
Proof.
  intros H. eapply answers_bind; [apply answers_GetAuthContextCallback|]. intros [] r s [-> Hr].
  - destruct Hr as [-> ->]. rewrite decide_True by done. exact H.
  - rewrite decide_False by done. apply answers_ret. subst. destruct cb; [by apply outcome_told|done].
Qed.

Lemma answers_Auth v ipc cb id : answers (Auth c v ipc cb id) (replied cb false).
Proof.
  apply answers_started. unfold tell, CheckAuthPermissionAndParam_Auth, StartAuth.
  repeat lazymatch goal with
  | |- answers (StartAuthContext _ _ ≫= _) _ => eapply answers_bind; [apply answers_StartAuthContext|intros ? ? ? [? ?]]
  | |- _ => count_step
  end; try (by apply outcome_told); rewrite ?Nat.add_0_r; unfold outcome; naive_solver lia.
Qed.

Lemma answers_check_AuthUser ty atl :
  answers (CheckAuthPermissionAndParam_AuthUser c ty atl)
    (λ ok r s, s = 0 ∧ r = if (ok : bool) then 0 else 1)%nat.
Proof. unfold CheckAuthPermissionAndParam_AuthUser, tell. repeat count_step; auto. Qed.

Lemma answers_AuthUser ipc rem cb :
  answers (AuthUser c ipc rem cb)
    (replied cb (ir_isHasRemoteAuthParam rem && negb (bool_decide (ia_authIntent ipc = SUDO_PIN_AUTH)))).
Proof.
  apply answers_started. unfold tell.
  repeat lazymatch goal with
  | |- answers (CheckAuthPermissionAndParam_AuthUser _ _ _ ≫= _) _ =>
      eapply answers_bind; [apply answers_check_AuthUser|intros [] ? ? [-> ->]]
  | |- answers (StartSudoAuthUser _ _ _ _ _) _ => eapply answers_mono; [apply answers_StartSudoAuthUser|]
  | |- answers (StartAuthUser _ _ _ _) _ => eapply answers_mono; [apply answers_StartAuthUser|]
  | |- _ => count_step
  end; subst; try done; try (by apply outcome_told); intros reply r s.
  - rewrite bool_decide_true, andb_false_r by done. done.
  - rewrite (bool_decide_false (ia_authIntent ipc = SUDO_PIN_AUTH)), andb_true_r by done. unfold InitRemoteAuthParam. by destruct ir_isHasRemoteAuthParam.
Qed.

Lemma answers_AuthWidget v ipc w cb modal id : answers (AuthWidget c v ipc w cb modal id) (replied cb false).
Proof.
  apply answers_started. unfold tell.
  repeat lazymatch goal with
  | |- answers (StartAuthWidget _ _ _ _ _ _) _ => eapply answers_mono; [apply answers_StartAuthWidget|done]
  | |- _ => count_step
  end; try (by apply outcome_told); unfold outcome; naive_solver lia.
Qed.

Lemma answers_Identify ch ty cb : answers (Identify c ch ty cb) (replied cb false).
Proof.
  unfold Identify, tell, tell_raw. destruct cb; [|by repeat count_step].
  repeat lazymatch goal with
  | |- answers (start_context _ _ ≫= _) _ =>
      eapply answers_bind; [apply answers_start_context; auto with service|intros ? ? ? [? ?]]
  | |- _ => count_step
  end; try done; try (by apply outcome_told); rewrite ?Nat.add_0_r; unfold replied, outcome.
  - assert (s = 1%nat) by naive_solver. naive_solver lia.
  - naive_solver lia.
Qed.

End Answers.


Definition demo_caller : Caller := mkCaller 0 11 3058 11.
Definition demo_ipc (intent : Z) : IpcAuthParamInner :=
  mkIpcAuthParam 100 true [] PIN [PIN] 10000 (mkIpcReuse false 0 0) intent false [] false 0 [].
Definition demo_remote : IpcRemoteAuthParam := mkIpcRemoteAuthParam true true (replicate 64 Byte.x61) false [] false 0.


(** A remote authentication that the pool refuses is reported to the
    caller twice: the guard of the start function tells him, and so does
    [StartAuthUser]. *)
Theorem remote_failure_told_twice :
  ∃ (c : Caller) ipc rem (o : env answer),
    let '(reply, t) := run o (AuthUser c ipc rem true) [] in
    reply = (GENERAL_ERROR, BAD_CONTEXT_ID) ∧ scheduled t = 0%nat ∧ results t = 2%nat.
Proof.
  exists demo_caller, (demo_ipc DEFAULT), demo_remote, (world false). vm_compute. repeat split.
Qed.
