(* ===== verification/WidgetRequest.v ===== *)
(** * The authentication service: what the widget is asked to show

    The authentication types that reach a widget context, followed from the
    engine's answer through the filters of the service. *)

From S2P Require Import Prelude Defines Interaction ServiceTypes Attributes Platform IpcCommon UserIdmDatabase.
From S2P Require Import ContextFactory AuthWidgetHelper UserAuthService Gate UserAuthGate UserAuthAnswers.

(** ** What the widget is asked to show *)

(** A type with its profile: not a locked biometric, if those are skipped. *)
Definition fit (skip : bool) (profiles : gmap Z AuthProfile) (ty : Z) : Prop :=
  ∃ profile, profiles !! ty = Some profile ∧
    (skip = true → remainTimes profile ≠ 0 ∨ ty = PIN ∨ ty = PRIVATE_PIN).

(** The engine offered [engineTypes] for this user and trust level. *)
Definition offered (ipc : IpcAuthParamInner) (userId : Z) (engineTypes : list Z) (t : trace) : Prop :=
  ∃ types, answered t (EngGetValidSolution userId types (wrapU 32 (ia_authTrustLevel ipc))) (SUCCESS, engineTypes).

Definition expired_pin (ipc : IpcAuthParamInner) : Z :=
  if decide (PRIVATE_PIN ∈ ia_authTypes ipc) then PRIVATE_PIN else PIN.

(** The types that are shown are as the engine and the account allow. If the
    engine names no type twice, there is one, each has its profile, and the face
    is not among others while the camera is away. *)
Definition shown (ipc : IpcAuthParamInner) (para : AuthWidgetContextPara) (tys : list Z) (t : trace) : Prop :=
  ∃ engineTypes, offered ipc (wc_userId para) engineTypes t ∧ tys `sublist_of` engineTypes ∧
    (answered t (QueryOsAccountVerified (wc_userId para)) (Some true) ∨
     Forall (λ ty, ty = PIN ∨ ty = PRIVATE_PIN ∨ ty = ENTERPRISE_ACCOUNT) tys) ∧
    (NoDup engineTypes → tys ≠ [] ∧
      Forall (fit (ia_skipLockedBiometricAuth ipc) (wc_authProfileMap para)) tys ∧
      (FACE ∈ tys → tys = [FACE] ∨ ∀ face, wc_authProfileMap para !! FACE = Some face →
        cameraStatus face ≠ CAMERA_NOT_AVAILABLE)).

(** The PIN is expired: only the PIN, with its profile. *)
Definition expired (ipc : IpcAuthParamInner) (para : AuthWidgetContextPara) (tys : list Z) (t : trace) : Prop :=
  (∃ types l, answered t (EngGetValidSolution (wc_userId para) types (wrapU 32 (ia_authTrustLevel ipc))) (PIN_EXPIRED, l)) ∧
  tys = [expired_pin ipc] ∧ is_Some (wc_authProfileMap para !! expired_pin ipc).

Definition presentable (ipc : IpcAuthParamInner) (para : AuthWidgetContextPara) (t : trace) : Prop :=
  wc_challenge para = ia_challenge ipc ∧ wc_atl para = wrapU 32 (ia_authTrustLevel ipc) ∧
  (if wc_isPinExpired para then expired else shown) ipc para (wc_authTypeList para) t.

(** What a widget context must satisfy when the pool gets it. *)
Definition widget_ok (ipc : IpcAuthParamInner) (t : trace) (ctx : NewContext) : Prop :=
  match ctx with WidgetContext para _ _ _ => presentable ipc para t | _ => True end.
Definition widget_guard (ipc : IpcAuthParamInner) : trace → sys → Prop := on_schedule (widget_ok ipc).

Lemma guard_silent ipc t q : silent q = true → widget_guard ipc t q.
Proof. by destruct q. Qed.

Lemma fit_same skip m m' tys :
  (∀ ty, ty ∈ tys → m' !! ty = m !! ty) → Forall (fit skip m) tys → Forall (fit skip m') tys.
Proof.
  rewrite !Forall_forall. intros Hm H ty Hty. destruct (H ty Hty) as (p & Hp & ?). exists p.
  by rewrite (Hm ty Hty).
Qed.

Lemma NoDup_middle (kept l : list Z) x ty : NoDup (kept ++ ty :: l) → x ∈ kept → x ≠ ty.
Proof. rewrite NoDup_app. intros (_ & H & _) Hx ->. apply (H ty Hx). by left. Qed.

Lemma profile_loop para p l kept m t P :
  (∀ t q, silent q = true → P t q) →
  wp P (for_each (profile_step para p) (kept, m) l) t (λ r t', extends silent t t' ∧ r.1 `sublist_of` kept ++ l ∧
    (NoDup (kept ++ l) → Forall (fit (ap_skipLockedBiometricAuth p) m) kept →
     Forall (fit (ap_skipLockedBiometricAuth p) r.2) r.1)).
Proof.
  intros HP. revert kept m t. induction l as [|ty l IH]; intros kept m t.
  { apply wp_ret. rewrite app_nil_r. simpl. auto using extends_refl. }
  apply wp_bind. unfold profile_step. apply wp_bind.
  eapply wp_only; [apply only_GetUserAuthProfile|exact HP|]. intros [ret profile] t1 E1.
  assert (∀ kept' m', kept' `sublist_of` kept ++ [ty] →
    (NoDup (kept ++ ty :: l) → Forall (fit (ap_skipLockedBiometricAuth p) m) kept →
     Forall (fit (ap_skipLockedBiometricAuth p) m') kept') →
    wp P (for_each (profile_step para p) (kept', m') l) t1 (λ r t', extends silent t t' ∧
      r.1 `sublist_of` kept ++ ty :: l ∧
      (NoDup (kept ++ ty :: l) → Forall (fit (ap_skipLockedBiometricAuth p) m) kept →
       Forall (fit (ap_skipLockedBiometricAuth p) r.2) r.1))) as Hgo.
  { intros kept' m' Hsub Hfit. eapply wp_wand; [apply IH|]. intros r t2 (E2 & Hr & Hf).
    assert (kept' ++ l `sublist_of` kept ++ ty :: l) as Hs.
    { rewrite (assoc_L (++) kept [ty] l : kept ++ ty :: l = (kept ++ [ty]) ++ l). by apply sublist_app. }
    split; [eauto using extends_trans|]. split; [by etrans|].
    intros Hnd Hk. apply Hf; [by eapply sublist_NoDup|auto]. }
  repeat step; apply Hgo; rewrite ?app_nil_r; try done; try (by apply sublist_inserts_r); intros Hnd Hk.
  - eapply fit_same; [|exact Hk]. intros x Hx. rewrite lookup_delete_ne; [done|]. intros ->.
    by eapply NoDup_middle.
  - apply Forall_app. split; [|apply Forall_singleton; exists profile].
    + eapply fit_same; [|exact Hk]. intros x Hx. rewrite lookup_insert_ne; [done|]. intros ->.
      by eapply NoDup_middle.
    + rewrite lookup_insert_eq. split; [done|]. intros Hs. destruct (decide (remainTimes profile = 0)); [|by left].
      right. destruct (decide (ty = PIN)); [by left|]. destruct (decide (ty = PRIVATE_PIN)); [by right|]. by destruct n0.
Qed.

(** What [CheckValidSolution] returns. *)
Definition solution (ipc : IpcAuthParamInner) (para : AuthWidgetContextPara) (tys : list Z) (t : trace) : Prop :=
  ∃ engineTypes, offered ipc (wc_userId para) engineTypes t ∧ tys `sublist_of` engineTypes ∧
    (answered t (QueryOsAccountVerified (wc_userId para)) (Some true) ∨
     Forall (λ ty, ty = PIN ∨ ty = PRIVATE_PIN ∨ ty = ENTERPRISE_ACCOUNT) tys) ∧ tys ≠ [] ∧
    (NoDup engineTypes → Forall (fit (ia_skipLockedBiometricAuth ipc) (wc_authProfileMap para)) tys).

Lemma no_biometrics_sublist tys : no_biometrics tys `sublist_of` tys.
Proof. unfold no_biometrics. induction tys as [|ty tys IH]; [done|]. rewrite filter_cons. case_decide; by constructor. Qed.

Lemma wp_CheckSkip P ipc para w tys t :
  (∀ t q, silent q = true → P t q) →
  wp P (CheckSkipLockedBiometricAuth para (InitAuthParam ipc) w tys) t (λ '(ret, para', tys') t', extends silent t t' ∧
    ret ≠ PIN_EXPIRED ∧ wc_userId para' = wc_userId para ∧ wc_isPinExpired para' = wc_isPinExpired para ∧
    (ret = SUCCESS → tys' `sublist_of` tys ∧ tys' ≠ [] ∧
      (NoDup tys → Forall (fit (ia_skipLockedBiometricAuth ipc) (wc_authProfileMap para')) tys'))).
Proof.
  intros HP. unfold CheckSkipLockedBiometricAuth. step; [step; split_and!; (apply extends_refl || done)|].
  apply wp_bind. eapply wp_wand; [apply profile_loop; exact HP|]. intros [tys' m] t1 (E & Hs & Hf). simpl in *.
  repeat step; split_and!; try done. intros _. split_and!; [done|naive_solver|]. intros Hnd. by apply Hf.
Qed.

Lemma wp_CheckValidSolution P ipc para w t :
  (∀ t q, silent q = true → P t q) →
  wp P (CheckValidSolution para (InitAuthParam ipc) w []) t (λ '(ret, para', tys) t', extends silent t t' ∧
    wc_userId para' = wc_userId para ∧ wc_isPinExpired para' = wc_isPinExpired para ∧
    (ret = SUCCESS → solution ipc para' tys t') ∧
    (ret = PIN_EXPIRED → tys = [] ∧
      ∃ types l, answered t' (EngGetValidSolution (wc_userId para) types (wrapU 32 (ia_authTrustLevel ipc))) (PIN_EXPIRED, l))).
Proof.
  intros HP. unfold CheckValidSolution. apply wp_bind.
  eapply wp_only; [unfold GetAuthTypesFromCredentialIds; only_steps|exact HP|]. intros types t1 E1.
  apply wp_bind. unfold EngineValidSolution. apply wp_bind. step; [by apply HP|]. destruct r as [ret tys].
  match goal with |- wp _ _ ?x _ => set (t2 := x) end. assert (extends silent t t2) as E2 by (by apply extends_snoc).
  assert (answered t2 (EngGetValidSolution (wc_userId para) types (wrapU 32 (ia_authTrustLevel ipc))) (ret, tys)) as Ha
    by apply answered_snoc.
  cbn beta iota. step; repeat step; try congruence;
    try (split_and!; done || naive_solver).
  apply wp_IsOsAccountVerified; [done|]. intros verified t3 E3 Hv.
  eapply wp_wand; [apply wp_CheckSkip; exact HP|]. intros [[ret' para'] tys'] t4 (E4 & Hr & Hu & Hp & Hs).
  split_and!; [eauto using extends_trans|done|done| |done]. intros Hok. destruct (Hs Hok) as (Hs1 & Hs2 & Hs3).
  assert ((if verified then tys else no_biometrics tys) `sublist_of` tys) as Hsub
    by (destruct verified; [done|apply no_biometrics_sublist]).
  exists tys. rewrite Hu. split_and!.
  - exists types. subst ret. by eapply answered_extends; [exact E4|eapply answered_extends].
  - by etrans.
  - destruct verified; [left; eapply answered_extends; [exact E4|]; auto|right].
    apply Forall_forall. intros ty Hty. assert (ty ∈ no_biometrics tys) as H by (by eapply elem_of_sublist).
    apply list_elem_of_filter in H. tauto.
  - done.
  - intros Hnd. apply Hs3. by eapply sublist_NoDup.
Qed.

(** Before the last filter. *)
Definition ready (ipc : IpcAuthParamInner) (para : AuthWidgetContextPara) (tys : list Z) (t : trace) : Prop :=
  (if wc_isPinExpired para then expired else solution) ipc para tys t.

Lemma wp_ProcessPinExpired P ipc code para tys t :
  (∀ t q, silent q = true → P t q) → wc_isPinExpired para = false →
  (code = SUCCESS → solution ipc para tys t) →
  (code = PIN_EXPIRED → tys = [] ∧
    ∃ types l, answered t (EngGetValidSolution (wc_userId para) types (wrapU 32 (ia_authTrustLevel ipc))) (PIN_EXPIRED, l)) →
  (code = SUCCESS ∨ code = PIN_EXPIRED) →
  wp P (ProcessPinExpired code (InitAuthParam ipc) tys para) t (λ '(ret, tys', para') t', extends silent t t' ∧
    (ret = SUCCESS → ready ipc para' tys' t')).
Proof.
  intros HP Hpara Hok Hexp Hcode. unfold ProcessPinExpired. step.
  { step. split; [apply extends_refl|]. intros _. unfold ready. rewrite Hpara. naive_solver. }
  apply dec_stable in n. destruct (Hexp n) as [-> (types & l & Ha)]. cbv zeta.
  change (if decide (PRIVATE_PIN ∈ ap_authTypes (InitAuthParam ipc)) then PRIVATE_PIN else PIN) with (expired_pin ipc).
  replace (if decide (expired_pin ipc = PRIVATE_PIN) then [PRIVATE_PIN] else [] ++ [PIN]) with [expired_pin ipc]
    by (unfold expired_pin; repeat case_decide; done).
  step.
  - step. split; [apply extends_refl|]. intros _. unfold ready, expired. simpl. eauto.
  - apply wp_bind. eapply wp_only; [apply only_GetUserAuthProfile|exact HP|]. intros [queryRet profile] t1 E1.
    repeat step; (split; [done|]); [done|]. intros _. unfold ready, expired. simpl. split_and!; [|done|].
    + exists types, l. by eapply answered_extends.
    + rewrite lookup_insert_eq. eauto.
Qed.

Lemma solution_shown ipc para tys t :
  solution ipc para tys t →
  (FACE ∈ tys → tys = [FACE] ∨ ∀ face, wc_authProfileMap para !! FACE = Some face →
    cameraStatus face ≠ CAMERA_NOT_AVAILABLE) →
  shown ipc para tys t.
Proof. intros (engineTypes & Ho & Hs & Hv & Hne & Hfit) Hface. exists engineTypes. auto 8. Qed.

(** Without the face, of several types. *)
Lemma solution_no_face ipc para tys t :
  solution ipc para tys t → length tys ≠ 1%nat →
  shown ipc (set_authProfileMap para (delete FACE (wc_authProfileMap para))) (filter (λ ty, ty ≠ FACE) tys) t.
Proof.
  intros (engineTypes & Ho & Hs & Hv & Hne & Hfit) Hlen. exists engineTypes. simpl. split_and!; [done|..].
  - etrans; [|exact Hs]. clear. induction tys as [|ty tys IH]; [done|]. rewrite filter_cons. case_decide; by constructor.
  - destruct Hv as [|Hv]; [by left|right]. rewrite Forall_forall in Hv |- *. intros ty [_ Hty]%list_elem_of_filter. auto.
  - intros Hnd. specialize (Hfit Hnd). assert (NoDup tys) as Hn by (by eapply sublist_NoDup). split_and!.
    + intros Hempty. destruct tys as [|x [|y tys]]; [done..|].
      assert (x ≠ FACE ∨ y ≠ FACE) as Hxy.
      { destruct (decide (x = FACE)) as [->|]; [right|by left]. intros ->. apply NoDup_cons in Hn as [Hn _]. by destruct Hn; left. }
      assert (x ∈ @nil Z ∨ y ∈ @nil Z) as [H|H]; [|by apply elem_of_nil in H..].
      rewrite <- Hempty, !list_elem_of_filter. destruct Hxy; [left|right]; (split; [done|]); [by left|by right; left].
    + eapply fit_same; [|eapply Forall_forall; intros ty [_ Hty]%list_elem_of_filter; rewrite Forall_forall in Hfit; by apply Hfit].
      intros ty [Hty _]%list_elem_of_filter. by rewrite lookup_delete_ne.
    + intros [? _]%list_elem_of_filter. done.
Qed.

Lemma FilterFace_final ipc para tys t para' tys' :
  FilterFaceNotAvailable para tys = (para', tys') → ready ipc para tys t →
  wc_userId para' = wc_userId para ∧ wc_isPinExpired para' = wc_isPinExpired para ∧
  (if wc_isPinExpired para' then expired else shown) ipc para' tys' t.
Proof.
  unfold FilterFaceNotAvailable. intros Hf Hr. unfold ready in Hr. destruct (wc_isPinExpired para) eqn:Hp.
  { destruct Hr as (H1 & -> & H3). simpl in Hf. injection Hf as <- <-. rewrite Hp. unfold expired. eauto. }
  case_decide as Hlen.
  { injection Hf as <- <-. rewrite Hp. split_and!; [done..|]. apply solution_shown; [done|].
    destruct tys as [|ty [|]]; try done. intros H%list_elem_of_singleton. left. by subst. }
  destruct (wc_authProfileMap para !! FACE) as [face|] eqn:Hface; [case_decide as Hcam|].
  - injection Hf as <- <-. simpl. rewrite Hp. split_and!; [done..|]. by apply solution_no_face.
  - injection Hf as <- <-. rewrite Hp. split_and!; [done..|]. apply solution_shown; [done|].
    intros _. right. rewrite Hface. by intros ? [= ->].
  - injection Hf as <- <-. rewrite Hp. split_and!; [done..|]. apply solution_shown; [done|].
    intros _. right. by rewrite Hface.
Qed.

Lemma presentable_intro ipc para tys para' t t' C :
  extends C t t' → (if wc_isPinExpired para then expired else shown) ipc para tys t →
  wc_userId para' = wc_userId para → wc_isPinExpired para' = wc_isPinExpired para →
  wc_authProfileMap para' = wc_authProfileMap para → wc_authTypeList para' = tys →
  wc_challenge para' = ia_challenge ipc → wc_atl para' = wrapU 32 (ia_authTrustLevel ipc) →
  presentable ipc para' t'.
Proof.
  intros E H Hu Hp Hm Ht Hc Ha. unfold presentable. split_and!; [done..|]. rewrite Hp, Ht.
  destruct (wc_isPinExpired para).
  - destruct H as ((types & l & H1) & H2). unfold expired. rewrite Hu, Hm. split; [|done].
    exists types, l. by eapply answered_extends.
  - destruct H as (e & (types & H1) & H2 & H3 & H4). exists e. rewrite Hu, Hm. split_and!; [|done| |done].
    + exists types. by eapply answered_extends.
    + destruct H3; [left; by eapply answered_extends|by right].
Qed.

Section Widget.
Context (c : Caller) (ipc : IpcAuthParamInner).

Lemma wp_guard_start f para b1 b2 b3 t :
  (∀ t', extends silent t t' → presentable ipc para t') →
  wp (widget_guard ipc) (start_context f (CreateWidgetContext para b1 true b2 b3)) t (λ _ _, True).
Proof. intros Hp. eapply wp_start_context; [apply makes_Widget|]. intros ctx t' E ->. by apply Hp. Qed.

Lemma wp_StartWidgetContext w tys para modal t :
  (if wc_isPinExpired para then expired else shown) ipc para tys t →
  wp (widget_guard ipc) (StartWidgetContext c (InitAuthParam ipc) w tys para modal) t (λ _ _, True).
Proof.
  intros H. unfold StartWidgetContext. apply wp_bind, wp_silent; [auto with service|]. intros verified t1 E1.
  unfold InitWidgetContextParam. cbv zeta beta iota. rewrite decide_False by done. apply wp_bind.
  match goal with |- context [mret (Some (?p, false))] => set (q := p) end.
  assert (∀ q' t', extends silent t t' → (q' = q ∨ ∃ name, q' = set_remoteCallerName q name) → presentable ipc q' t') as Hq.
  { intros q' t' E' Hq'. eapply presentable_intro; [exact E'|exact H|..]; by destruct Hq' as [->|[name ->]]. }
  assert (∀ q' b t', extends silent t t' → (q' = q ∨ ∃ name, q' = set_remoteCallerName q name) →
    wp (widget_guard ipc) (id ← start_context false (CreateWidgetContext q' true true modal b); mret (context_id id)) t'
      (λ _ _, True)) as Hstart.
  { intros q' b t' E' Hq'. apply wp_bind. eapply wp_wand; [apply wp_guard_start|done].
    intros t'' E''. apply Hq; [eauto using extends_trans|done]. }
  step.
  - apply wp_bind, wp_silent; [only_steps|]. intros cb t2 E2. step.
    + apply wp_bind, wp_silent; [unfold GetRemoteAuthCallerName; only_steps|]. intros name t3 E3. step.
      apply Hstart; [eauto using extends_trans|]. case_decide; eauto.
    + step. apply wp_bind, wp_result. intros ?. by step.
  - step. apply Hstart; [done|by left].
Qed.

Lemma wp_StartAuthWidget w para modal id t :
  wc_isPinExpired para = false →
  wp (widget_guard ipc) (StartAuthWidget c (InitAuthParam ipc) w para modal id) t (λ _ _, True).
Proof.
  intros Hp. unfold StartAuthWidget. apply wp_bind. eapply wp_wand; [apply wp_CheckValidSolution, guard_silent|].
  intros [[code para1] tys1] t1 (E1 & Hu1 & Hp1 & Hok & Hexp). step.
  { apply wp_bind, wp_result. intros ?. by step. }
  apply wp_bind. eapply wp_wand; [apply wp_ProcessPinExpired; [apply guard_silent|congruence|done| |]|].
  { intros H. rewrite Hu1. auto. }
  { destruct (decide (code = SUCCESS)); [by left|]. destruct (decide (code = PIN_EXPIRED)); [by right|]. by destruct n. }
  intros [[ret tys2] para2] t2 (E2 & Hready). step.
  { apply wp_bind, wp_result. intros ?. by step. }
  apply dec_stable in n0. destruct (FilterFaceNotAvailable para2 tys2) as [para3 tys3] eqn:Hf.
  destruct (FilterFace_final ipc para2 tys2 t2 para3 tys3 Hf (Hready n0)) as (_ & _ & H3).
  apply wp_bind. eapply wp_wand; [by apply wp_StartWidgetContext|]. intros ? ? _. by repeat step.
Qed.
End Widget.

