(* ===== verification/UserAuthStart.v ===== *)
(** * The authentication service: which context an internal caller gets

    [AuthUser] starts one of five kinds of context. The kind and the parameters
    of the context follow from the request, the network id of this device and
    the answers about the caller. *)

From S2P Require Import Prelude Defines Interaction ServiceTypes Attributes Platform IpcCommon UserIdmDatabase.
From S2P Require Import ContextFactory AuthWidgetHelper UserAuthService Gate UserAuthGate.

(** ** Completing the remote parameter *)

Definition verifier_of (p : RemoteAuthParam) (local : bytes) : bytes := default local (rp_verifierNetworkId p).
Definition collector_of (p : RemoteAuthParam) (local : bytes) : bytes := default local (rp_collectorNetworkId p).

(** A usable parameter: the given ids have the right size, one is given, this
    device is one of the two, and a collector elsewhere comes with its token. *)
Definition usable (p : RemoteAuthParam) (local : bytes) : Prop :=
  (∀ id, rp_verifierNetworkId p = Some id → length id = NETWORK_ID_LENGTH) ∧
  (∀ id, rp_collectorNetworkId p = Some id → length id = NETWORK_ID_LENGTH) ∧
  (is_Some (rp_verifierNetworkId p) ∨ is_Some (rp_collectorNetworkId p)) ∧
  (verifier_of p local = local ∨ collector_of p local = local) ∧
  (collector_of p local = local ∨ is_Some (rp_collectorTokenId p)).

Definition completed (c : Caller) (p : RemoteAuthParam) (local : bytes) : RemoteAuthParam :=
  mkRemoteAuthParam (Some (verifier_of p local)) (Some (collector_of p local))
    (Some (default (GetAccessTokenId c) (rp_collectorTokenId p))).

(** The parameter of a remote authentication is accepted exactly if it is
    usable; then both ids and the token are filled in, the missing ones with
    this device and the caller. *)
Lemma complete_remote_param c p local :
  (CompleteRemoteAuthParam c p local).2 = true ∧ usable p local ∧
    (CompleteRemoteAuthParam c p local).1 = completed c p local ∨
  (CompleteRemoteAuthParam c p local).2 = false ∧ ¬ usable p local.
Proof.
  unfold CompleteRemoteAuthParam, usable, completed, verifier_of, collector_of. destruct p as [v co tok]; simpl.
  set (bad := λ id : option bytes, match id with
    | Some id => negb (Nat.eqb (length id) NETWORK_ID_LENGTH) | None => false end).
  assert (∀ id, bad id = true ↔ ¬ ∀ i, id = Some i → length i = NETWORK_ID_LENGTH) as Hbad.
  { intros [i|]; simpl; [|by split; [|intros []]]. rewrite negb_true_iff, Nat.eqb_neq. naive_solver. }
  assert (∀ id, bad id ≠ true → ∀ i, id = Some i → length i = NETWORK_ID_LENGTH) as Hgood.
  { intros [i|] H i' [= <-]. simpl in H. apply not_true_is_false, negb_false_iff, Nat.eqb_eq in H. done. }
  case_decide as Hv; [right; apply Hbad in Hv; tauto|]. case_decide as Hc; [right; apply Hbad in Hc; tauto|].
  case_decide as Hn; [right; destruct Hn as [-> ->]; naive_solver|]. case_decide as Hl; [right; tauto|].
  case_decide as Hs; [right; destruct Hs as [Hs1 Hs2]; rewrite Hs1 in *; tauto|].
  case_decide as Ht; [right; destruct Ht as [Ht ->]; naive_solver|].
  left. split; [done|]. split; [split_and!|].
  - by apply Hgood.
  - by apply Hgood.
  - destruct v; [left; eauto|]. destruct co; [right; eauto|]. by destruct Hn.
  - destruct (decide (default local v = local)); [tauto|]. destruct (decide (default local co = local)); tauto.
  - destruct (decide (default local co = local)); [tauto|]. destruct tok; [right; eauto|]. tauto.
  - simpl. case_decide as Hx; [by destruct Hx as [_ ->]|]. destruct tok; [done|].
    destruct (decide (default local co = local)); tauto.
Qed.

(** ** The five kinds of context *)

(** The parameters that every kind takes over from the request; the account
    counts as verified only if its manager said so. *)
Definition auth_para (c : Caller) (ipc : IpcAuthParamInner) (collectorToken : Z) (para : AuthenticationPara) (t : trace) :
    Prop :=
  pa_userId para = ia_userId ipc ∧ pa_authType para = ia_authType ipc ∧
  pa_atl para = wrapU 32 (ia_authTrustLevel ipc) ∧ pa_tokenId para = GetAccessTokenId c ∧
  pa_collectorTokenId para = collectorToken ∧ pa_challenge para = ia_challenge ipc ∧
  pa_authIntent para = ia_authIntent ipc ∧ pa_credentialIdList para = ia_credentialIdList ipc ∧
  (pa_isOsAccountVerified para = true → answered t (QueryOsAccountVerified (ia_userId ipc)) (Some true)).

(** A remote authentication between [verifier] and [collector], one of which is
    this device. *)
Definition remote_between (c : Caller) (ipc : IpcAuthParamInner) (rem : IpcRemoteAuthParam) (t : trace)
    (k : bytes → bytes → bytes → Z → Prop) : Prop :=
  ∃ p local, InitRemoteAuthParam rem = Some p ∧ answered t GetLocalDeviceNetWorkId (Some local) ∧
    ia_authIntent ipc ≠ SUDO_PIN_AUTH ∧ ia_authType ipc = PIN ∧ usable p local ∧
    k local (verifier_of p local) (collector_of p local) (default (GetAccessTokenId c) (rp_collectorTokenId p)).

Definition context_for (c : Caller) (ipc : IpcAuthParamInner) (rem : IpcRemoteAuthParam) (t : trace) (ctx : NewContext) :
    Prop :=
  match ctx with
  | SimpleAuthContext para needSubscribeAppState _ =>
    InitRemoteAuthParam rem = None ∧ ia_authIntent ipc ≠ SUDO_PIN_AUTH ∧ auth_para c ipc 0 para t ∧
    (needSubscribeAppState = false → granted c USER_AUTH_FROM_BACKGROUND t)
  | SudoAuthContext para =>
    InitRemoteAuthParam rem = None ∧ ia_authIntent ipc = SUDO_PIN_AUTH ∧ ia_authType ipc = PIN ∧
    su_userId para = ia_userId ipc ∧ su_additionalInfo para = ia_additionalInfo ipc ∧
    su_additionalInfo para ≠ [] ∧ GetUtf8CharCount (su_additionalInfo para) ≤ TITLE_MAX ∧
    iu_isReuse (ia_reuseUnlockResult ipc) = false ∧ trusted_caller c t ∧
    (su_needSubscribeAppState para = false → granted c USER_AUTH_FROM_BACKGROUND t)
  | LocalRemoteAuthContext para param _ => remote_between c ipc rem t (λ local verifier collector token,
      verifier = local ∧ collector = local ∧ lr_collectorNetworkId param = local ∧ auth_para c ipc token para t)
  | RemoteAuthInvokerContext authParam param => remote_between c ipc rem t (λ local verifier collector token,
      verifier ≠ local ∧ collector = local ∧ authParam = InitAuthParam ipc ∧
      ri_verifierNetworkId param = verifier ∧ ri_collectorNetworkId param = collector ∧
      ri_tokenId param = GetAccessTokenId c ∧ ri_collectorTokenId param = token)
  | RemoteAuthContext para param _ => remote_between c ipc rem t (λ local verifier collector token,
      verifier = local ∧ collector ≠ local ∧ rc_authType param = PIN ∧ rc_collectorNetworkId param = collector ∧
      auth_para c ipc token para t)
  | _ => False
  end.

Definition user_guard (c : Caller) (ipc : IpcAuthParamInner) (rem : IpcRemoteAuthParam) : trace → sys → Prop :=
  on_schedule (context_for c ipc rem).

Lemma sudo_params p rem :
  CheckSudoAuthParam p rem = SUCCESS →
  rem = None ∧ ap_authType p = PIN ∧ ap_additionalInfo p ≠ [] ∧ GetUtf8CharCount (ap_additionalInfo p) ≤ TITLE_MAX ∧
  isReuse (ap_reuseUnlockResult p) = false.
Proof.
  unfold CheckSudoAuthParam. repeat case_decide; try done. intros _. destruct rem; [by destruct H; eauto|].
  split_and!; [done|done|by intros E; apply H1; left| |by destruct isReuse].
  destruct (decide (GetUtf8CharCount (ap_additionalInfo p) ≤ TITLE_MAX)); [done|]. destruct H1. right. lia.
Qed.

Section Start.
Context (c : Caller) (ipc : IpcAuthParamInner) (rem : IpcRemoteAuthParam).

Lemma auth_para_extends C token para t t' :
  extends C t t' → auth_para c ipc token para t → auth_para c ipc token para t'.
Proof. intros E (? & ? & ? & ? & ? & ? & ? & ? & H). unfold auth_para. split_and!; try done. intros Hv. eapply answered_extends; eauto. Qed.

Lemma auth_para_remote para token t t' C :
  extends C t t' → auth_para c ipc 0 para t → auth_para c ipc token (set_collectorTokenId para token) t'.
Proof.
  intros E (? & ? & ? & ? & ? & ? & ? & ? & H). unfold auth_para. simpl. split_and!; try done.
  intros Hv. eapply answered_extends; eauto.
Qed.

Lemma wp_started G f create t ok :
  makes create ok → (∀ ctx t', extends silent t t' → ok ctx → G t' ctx) →
  wp (on_schedule G) (id ← start_context f create; mret (context_id id)) t (λ _ _, True).
Proof. intros Hm HG. apply wp_bind. eapply wp_wand; [by eapply wp_start_context|]. intros. by step. Qed.

Lemma wp_AuthRemoteUser para p t :
  InitRemoteAuthParam rem = Some p → ia_authIntent ipc ≠ SUDO_PIN_AUTH → auth_para c ipc 0 para t →
  wp (user_guard c ipc rem) (AuthRemoteUser c (InitAuthParam ipc) para p) t (λ _ _, True).
Proof.
  intros Hp Hs Ha. unfold AuthRemoteUser. apply wp_bind. step; [done|]. destruct r as [local|]; [|by step].
  match goal with |- wp _ _ ?x _ => set (t1 := x) end.
  assert (extends silent t t1) as E1 by (apply extends_snoc; [done|apply extends_refl]).
  assert (answered t1 GetLocalDeviceNetWorkId (Some local)) as Hl by apply answered_snoc.
  unfold ProcessAuthParamForRemoteAuth. case_decide as Hty; [by repeat step|].
  destruct (complete_remote_param c p local) as [(H1 & Hu & H2)|[H1 _]];
    destruct (CompleteRemoteAuthParam c p local) as [p' ok]; simpl in *; subst; [|by repeat step].
  rewrite decide_True by done. cbv zeta beta iota. rewrite decide_False by done. simpl.
  pose proof (auth_para_remote para (default (GetAccessTokenId c) (rp_collectorTokenId p)) t t1 silent E1 Ha) as Ha1.
  assert (∀ k t', extends silent t1 t' →
    k local (verifier_of p local) (collector_of p local) (default (GetAccessTokenId c) (rp_collectorTokenId p)) →
    remote_between c ipc rem t' k) as Hb.
  { intros k t' E Hk. exists p, local. destruct Ha as (_ & Ht & _). split_and!; try done; [|by rewrite <- Ht].
    by eapply answered_extends. }
  case_decide as H1; [|case_decide as H2]; apply wp_bind.
  - eapply wp_wand; [eapply wp_started; [apply makes_LocalRemote|]|by intros; step].
    intros ctx t2 E2 ->. apply Hb; [done|]. split_and!; [tauto..|by eapply auth_para_extends].
  - eapply wp_wand; [eapply wp_started; [apply makes_Invoker|]|by intros; step].
    intros ctx t2 E2 [name ->]. apply Hb; [done|]. split_and!; try done; [tauto|].
    by destruct Ha as (_ & _ & _ & Htok & _).
  - unfold StartRemoteAuthContext. rewrite decide_True by done. apply wp_bind.
    eapply wp_wand; [apply makes_Remote; by intros ? []|]. intros [[id ctx]|] t2 [E2 Hctx].
    2: { apply wp_bind, wp_result. intros ?. by repeat step. }
    destruct Hctx as [name ->]. apply wp_bind, wp_silent; [only_steps|]. intros _ t3 E3. apply wp_bind.
    pose proof (extends_trans _ _ _ _ E2 E3) as E13. apply (@wp_call _ answer _ (PoolSchedule id _)).
    + apply Hb; [done|]. destruct Hu as (_ & _ & _ & Hu & _). destruct Ha as (_ & Ht & _).
      split_and!; [tauto|done|by rewrite <- Ht|done|by eapply auth_para_extends].
    + intros []; [by repeat step|]. apply wp_bind, wp_silent; [only_steps|]. intros e t4 _.
      apply wp_bind, wp_result. intros ?. by repeat step.
Qed.

Lemma wp_StartAuthUser para t :
  ia_authIntent ipc ≠ SUDO_PIN_AUTH → auth_para c ipc 0 para t →
  wp (user_guard c ipc rem) (StartAuthUser c (InitAuthParam ipc) (InitRemoteAuthParam rem) para) t (λ _ _, True).
Proof.
  intros Hs Ha. unfold StartAuthUser. destruct (InitRemoteAuthParam rem) as [p|] eqn:Hrem.
  - apply wp_bind. eapply wp_wand; [by apply wp_AuthRemoteUser|]. intros [id reason] t1 _.
    repeat lazymatch goal with |- wp _ (tell _) _ _ => apply wp_result; intros ? | |- _ => step end; done.
  - apply wp_bind, wp_check; [by intros ? []|..]; intros t1 E1; [intros Hg|]; apply wp_bind;
      (eapply wp_wand; [eapply wp_started; [apply makes_Simple|]|by intros; repeat step]);
      intros ctx t2 E2 ->; simpl; (split_and!; try done; try (eapply auth_para_extends, auth_para_extends; done)).
    intros _. by eapply granted_extends.
Qed.

Lemma wp_StartSudoAuthUser para id t :
  ia_authIntent ipc = SUDO_PIN_AUTH → auth_para c ipc 0 para t →
  wp (user_guard c ipc rem) (StartSudoAuthUser c (InitAuthParam ipc) (InitRemoteAuthParam rem) para id) t (λ _ _, True).
Proof.
  intros Hs Ha. unfold StartSudoAuthUser, GetDirectCallerType. apply wp_bind. step; [done|]. apply wp_bind.
  eapply wp_wand with (Φ := λ a t', a = true → trusted_caller c t').
  { step; [|step; intros _; left; apply dec_stable in n; subst; apply answered_snoc].
    apply wp_check; [by intros ? []|..]; intros t1 E1; [intros Hg _; by right|done]. }
  intros allowed t1 Htrust. step; [apply wp_bind, wp_result; intros ?; by step|].
  destruct allowed; [|done]. specialize (Htrust eq_refl).
  cbv zeta. step; [apply wp_bind, wp_result; intros ?; by step|]. apply dec_stable, sudo_params in n0.
  destruct n0 as (Hrem & Hty & Hinfo & Hlen & Hreuse). apply wp_bind. unfold StartSudoAuthContext. apply wp_bind.
  destruct Ha as (Hu & _).
  apply wp_check; [by intros ? []|..]; intros t2 E2; [intros Hg|]; cbv zeta;
    (eapply wp_wand; [eapply wp_started; [apply makes_Sudo|]|by intros; step]);
    intros ctx t3 E3 ->; simpl; split_and!; try done; try (eapply trusted_extends, trusted_extends; done).
  intros _. by eapply granted_extends.
Qed.
End Start.

(** C4: the context that a call of [AuthUser] starts is of the kind and has the
    parameters that the request asks for. Without remote parameter it is a simple
    or, for the sudo intent, a sudo authentication, the latter only for the PIN,
    with a text of at most TITLE_MAX characters and for a system service or a
    system application; a context may run in the background only if the caller
    has the permission. With a remote parameter the ids are completed and tell
    who verifies: this device for its own or another collector, or another
    device for the collector here. Only the PIN is authenticated that way. *)
Theorem auth_user_starts c ipc rem cb (o : env answer) :
  guarded (user_guard c ipc rem) (run o (AuthUser c ipc rem cb) []).2.
Proof.
  eapply wp_run_nil with (Φ := λ _ _, True).
  unfold AuthUser, GetAuthContextCallback, CheckAuthPermissionAndParam_AuthUser, tell_raw.
  repeat lazymatch goal with
  | |- wp _ (StartAuthUser _ _ _ _) _ _ => apply wp_StartAuthUser; [done|split_and!; done]
  | |- wp _ (StartSudoAuthUser _ _ _ _ _) _ _ => apply wp_StartSudoAuthUser; [done|split_and!; done]
  | |- wp _ (CheckPermission _ _) _ _ => apply wp_silent; [auto with service|intros]
  | |- wp _ (GetCallerName _ _) _ _ => apply wp_silent; [auto with service|intros]
  | |- wp _ (IsOsAccountVerified _) _ _ => apply wp_IsOsAccountVerified; [by intros ? []|intros ? ? ? ?]
  | |- wp _ (tell _) _ _ => apply wp_result; intros
  | |- _ => step
  end; done.
Qed.
