(* ===== verification/UserAuthParams.v ===== *)
(** * The authentication service: texts and configuration

    The length of a text is counted in characters, and a configuration reaches
    the engine only if it is well formed. *)

From S2P Require Import Prelude Defines Interaction ServiceTypes Attributes Platform IpcCommon UserIdmDatabase.
From S2P Require Import ContextFactory AuthWidgetHelper UserAuthService.

(** ** UTF-8

    The encoding of a code point, as the standard defines it. *)
Definition utf8_encode (cp : Z) : bytes :=
  map byte.of_Z (
    if decide (cp < 0x80) then [cp]
    else if decide (cp < 0x800) then [0xC0 + cp `div` 64; 0x80 + cp `mod` 64]
    else if decide (cp < 0x10000) then [0xE0 + cp `div` 4096; 0x80 + (cp `div` 64) `mod` 64; 0x80 + cp `mod` 64]
    else [0xF0 + cp `div` 262144; 0x80 + (cp `div` 4096) `mod` 64; 0x80 + (cp `div` 64) `mod` 64; 0x80 + cp `mod` 64]).

Definition code_point (cp : Z) : Prop := 0 ≤ cp < 0x110000.

(** How wide a character is by its first byte. *)
Definition lead_width (b : Z) : nat :=
  if decide (b < 0xC0) then 1 else if decide (b < 0xE0) then 2 else if decide (b < 0xF0) then 3
  else if decide (b < 0xF8) then 4 else 1.

Lemma utf8_width_lead b : 0 ≤ b < 256 → utf8_width b = lead_width b.
Proof.
  intros Hb. assert (Forall (λ b, utf8_width b = lead_width b) (seqZ 0 256)) as H
    by (apply (bool_decide_unpack _); vm_compute; exact I).
  rewrite Forall_forall in H. apply H, elem_of_seqZ. lia.
Qed.

Lemma utf8_width_pos b : (1 ≤ utf8_width b)%nat.
Proof. unfold utf8_width. repeat case_decide; lia. Qed.

Lemma utf8_count_fuel fuel fuel' s :
  (length s ≤ fuel)%nat → (length s ≤ fuel')%nat → utf8_count fuel s = utf8_count fuel' s.
Proof.
  revert fuel' s. induction fuel as [|fuel IH]; intros fuel' s Hf Hf'.
  - destruct s; [|simpl in Hf; lia]. by destruct fuel'.
  - destruct s as [|b s]; [by destruct fuel'|]. destruct fuel' as [|fuel']; [simpl in Hf'; lia|].
    cbn [utf8_count]. f_equal. pose proof (utf8_width_pos (byte.unsigned b)). simpl in Hf, Hf'.
    apply IH; rewrite length_drop; simpl; lia.
Qed.

(** The first byte tells the length of the encoding. *)
Lemma utf8_encode_lead cp :
  code_point cp → ∃ b s, utf8_encode cp = b :: s ∧ utf8_width (byte.unsigned b) = length (b :: s).
Proof.
  intros [Hlo Hhi]. unfold utf8_encode. repeat case_decide; simpl; eexists _, _; (split; [reflexivity|]);
    rewrite byte.unsigned_of_Z; unfold byte.wrap; simpl length.
  - rewrite Z.mod_small by lia. rewrite utf8_width_lead by lia. unfold lead_width. by rewrite decide_True by lia.
  - assert (2 ≤ cp `div` 64 < 32) by (split; [apply Z.div_le_lower_bound|apply Z.div_lt_upper_bound]; lia).
    rewrite Z.mod_small by lia. rewrite utf8_width_lead by lia. unfold lead_width.
    rewrite decide_False, decide_True by lia. done.
  - assert (0 ≤ cp `div` 4096 < 16) by (split; [apply Z.div_le_lower_bound|apply Z.div_lt_upper_bound]; lia).
    rewrite Z.mod_small by lia. rewrite utf8_width_lead by lia. unfold lead_width.
    rewrite !decide_False, decide_True by lia. done.
  - assert (0 ≤ cp `div` 262144 < 5) by (split; [apply Z.div_le_lower_bound|apply Z.div_lt_upper_bound]; lia).
    rewrite Z.mod_small by lia. rewrite utf8_width_lead by lia. unfold lead_width.
    rewrite !decide_False, decide_True by lia. done.
Qed.

Lemma utf8_count_bounds fuel s : 0 ≤ utf8_count fuel s ≤ Z.of_nat (length s).
Proof.
  revert s. induction fuel as [|fuel IH]; intros [|b s]; cbn [utf8_count]; try (simpl; lia).
  pose proof (utf8_width_pos (byte.unsigned b)) as Hw.
  specialize (IH (drop (utf8_width (byte.unsigned b)) (b :: s))). rewrite length_drop in IH. simpl in *. lia.
Qed.

Definition utf8_text (cps : list Z) : bytes := mjoin (utf8_encode <$> cps).

(** Of a well-formed text [GetUtf8CharCount] counts the code points, and of
    any text at most its bytes, none only if there are none; so the limits of
    TITLE_MAX and 60 are limits on characters. *)
Theorem utf8_count_correct s :
  (∀ cps, Forall code_point cps → s = utf8_text cps → GetUtf8CharCount s = Z.of_nat (length cps)) ∧
  0 ≤ GetUtf8CharCount s ≤ Z.of_nat (length s) ∧ (GetUtf8CharCount s = 0 → s = []).
Proof.
  unfold GetUtf8CharCount. split_and!.
  - intros cps Hcps ->. induction Hcps as [|cp cps Hcp _ IH]; [done|].
    destruct (utf8_encode_lead cp Hcp) as (b & s & Hs & Hw). unfold utf8_text in *. rewrite fmap_cons, mjoin_cons, Hs.
    cbn [app length utf8_count]. rewrite app_comm_cons, Hw, drop_app_length, (utf8_count_fuel _ (length (mjoin (utf8_encode <$> cps))));
      [|rewrite length_app; lia|done]. rewrite IH. lia.
  - apply utf8_count_bounds.
  - apply utf8_count_bounds.
  - destruct s as [|b s]; [done|]. cbn [length utf8_count].
    pose proof (utf8_count_bounds (length s) (drop (utf8_width (byte.unsigned b)) (b :: s))). lia.
Qed.

(** ** Configuration *)

(** The value that goes with a type. *)
Inductive config_value (value : IpcGlobalConfigValue) : Z → EngGlobalConfigValue → Prop :=
  | config_period : config_value value PIN_EXPIRED_PERIOD (pinExpiredPeriod (wrapS 64 (ig_pinExpiredPeriod value)))
  | config_enable : config_value value ENABLE_STATUS (enableStatus (ig_enableStatus value))
  | config_algo :
      ig_pinAlgoType value = AES_GCM ∨ ig_pinAlgoType value = SM4 →
      config_value value PIN_ALGO_TYPE (pinAlgoType (ig_pinAlgoType value))
  | config_deletion : config_value value DISABLE_PIN_DELETION (disablePinDeletion (ig_disablePinDeletion value)).

(** A well-formed request and what it asks of the engine. *)
Definition config_of (ipc : IpcGlobalConfigParam) (param : EngGlobalConfigParam) : Prop :=
  Z.of_nat (length (ig_userIds ipc)) ≤ MAX_USER ∧ ig_authTypes ipc ≠ [] ∧
  Z.of_nat (length (ig_authTypes ipc)) ≤ MAX_AUTH_TYPE_SIZE ∧
  (ig_type ipc ≠ ENABLE_STATUS → ig_authTypes ipc = [PIN]) ∧
  ∃ value, config_value (ig_value ipc) (ig_type ipc) value ∧
    param = mkEngGlobalConfig (ig_type ipc) value (ig_userIds ipc) (ig_authTypes ipc).

Lemma CheckPinAlgoType_spec v : CheckPinAlgoType v = true ↔ v = AES_GCM ∨ v = SM4.
Proof. unfold CheckPinAlgoType. case_decide as H; destruct (decide (v = AES_GCM)), (decide (v = SM4)); naive_solver. Qed.

Lemma FillGlobalConfigValue_spec ipc value :
  FillGlobalConfigValue ipc = Some value ↔ config_value (ig_value ipc) (ig_type ipc) value.
Proof.
  unfold FillGlobalConfigValue. split.
  - repeat case_decide; try done; intros [= <-]; rewrite H || rewrite H0 || rewrite H1 || rewrite H2; try constructor.
    by apply CheckPinAlgoType_spec.
  - intros H. inversion H; subst; try done. by destruct H1 as [-> | ->].
Qed.

Lemma CheckParam_spec ipc :
  CheckParam ipc = true ↔
  Z.of_nat (length (ig_userIds ipc)) ≤ MAX_USER ∧ ig_authTypes ipc ≠ [] ∧
  Z.of_nat (length (ig_authTypes ipc)) ≤ MAX_AUTH_TYPE_SIZE ∧
  (ig_type ipc = ENABLE_STATUS ∨
   ig_type ipc ∈ [PIN_EXPIRED_PERIOD; PIN_ALGO_TYPE; DISABLE_PIN_DELETION] ∧ ig_authTypes ipc = [PIN]).
Proof.
  unfold CheckParam. case_decide as H1.
  { split; [done|]. intros (? & ? & ? & _). destruct H1 as [|[|]]; [lia|lia|done]. }
  case_decide as H2; rewrite bool_decide_eq_true.
  - split; [intros H; split_and!; try lia; [by rewrite H|by right]|]. intros (_ & _ & _ & [H|[_ H]]); [|done].
    rewrite H in H2. by rewrite !elem_of_cons, elem_of_nil in H2; naive_solver.
  - split; [intros H|by intros (_ & _ & _ & [H|[H _]])]. split_and!; [lia| |lia|by left].
    intros E. apply H1. auto.
Qed.

Lemma BuildEngGlobalConfigParam_spec ipc param :
  BuildEngGlobalConfigParam ipc = Some param ↔ config_of ipc param.
Proof.
  unfold BuildEngGlobalConfigParam, config_of. case_decide as H.
  - rewrite bind_Some. setoid_rewrite FillGlobalConfigValue_spec. apply CheckParam_spec in H as (H1 & H2 & H3 & H4).
    split.
    + intros (value & Hv & [= <-]). split_and!; [done..| |by exists value]. by destruct H4 as [->|[_ H4]].
    + intros (_ & _ & _ & _ & value & Hv & ->). by exists value.
  - split; [done|]. intros (H1 & H2 & H3 & H4 & value & Hv & _). destruct H. apply CheckParam_spec. split_and!; [done..|].
    destruct (decide (ig_type ipc = ENABLE_STATUS)) as [->|Hne]; [by left|right]. split; [|auto].
    inversion Hv; try done; by rewrite !elem_of_cons; auto.
Qed.

(** What may be asked of the engine while a configuration request is served:
    what the request says, if it is well formed; for one user, an existing one. *)
Definition config_guard (ipc : IpcGlobalConfigParam) (t : trace) (q : sys) : Prop :=
  match q with
  | EngSetGlobalConfigParam param => config_of ipc param
  | EngSetUserConfigParam param => config_of ipc param ∧
      ∃ userId, ig_userIds ipc = [userId] ∧
        (userId = 0 ∨ ∃ ids, answered t QueryAllCreatedOsAccounts (Some ids) ∧ userId ∈ ids)
  | _ => True
  end.

Definition refusal (r : Z) : Prop := r = CHECK_SYSTEM_APP_FAILED ∨ r = CHECK_PERMISSION_FAILED ∨ r = INVALID_PARAMETERS.

(** The outcome for a request that is not well formed. *)
Definition refuses (ipc : IpcGlobalConfigParam) (r : Z) (t : trace) : Prop :=
  (∀ param, ¬ config_of ipc param) → refusal r.

Lemma config_kit ipc t q : kit q = true → config_guard ipc t q.
Proof. by destruct q. Qed.

Lemma wp_SetGlobalConfigParam c ipc : wp (config_guard ipc) (SetGlobalConfigParam c ipc) [] (refuses ipc).
Proof.
  unfold SetGlobalConfigParam. apply wp_bind, wp_kit; [auto 6 with service|apply config_kit|]. intros ok t E.
  step; [|step; by right; left]. destruct (BuildEngGlobalConfigParam ipc) as [param|] eqn:Hb.
  - apply BuildEngGlobalConfigParam_spec in Hb. apply (@wp_call _ answer _ (EngSetGlobalConfigParam param)); [done|].
    intros r H. by destruct (H param).
  - step. by right; right.
Qed.

Lemma wp_IsUserIdValid ipc userId t (Φ : bool → trace → Prop) :
  (∀ b t', (b = true → userId = 0 ∨ ∃ ids, answered t' QueryAllCreatedOsAccounts (Some ids) ∧ userId ∈ ids) → Φ b t') →
  wp (config_guard ipc) (IsUserIdValid userId) t Φ.
Proof.
  intros HΦ. unfold IsUserIdValid, GetAllUserId. step; [step; apply HΦ; auto|].
  repeat step; try done; apply HΦ; try done; intros H%bool_decide_eq_true.
  right. eexists. split; [apply answered_snoc|done].
Qed.

Lemma wp_SetUserConfigParam c ipc : wp (config_guard ipc) (SetUserConfigParam c ipc) [] (refuses ipc).
Proof.
  unfold SetUserConfigParam, check_access_manager. apply wp_bind, wp_kit; [auto 6 with service|apply config_kit|].
  intros ty t E. apply wp_bind, wp_kit; [by only_steps|apply config_kit|]. intros allowed t1 E1.
  step; [|step; by left]. apply wp_bind, wp_kit; [auto 6 with service|apply config_kit|]. intros ok t2 E2.
  step; [|step; by right; left]. destruct (ig_userIds ipc) as [|userId [|]] eqn:Hids; try (step; by right; right).
  apply wp_bind, wp_IsUserIdValid. intros valid t3 Hvalid. step; [|step; by right; right].
  destruct (BuildEngGlobalConfigParam ipc) as [param|] eqn:Hb; [|step; by right; right].
  apply BuildEngGlobalConfigParam_spec in Hb. apply (@wp_call _ answer _ (EngSetUserConfigParam param)).
  - split; [done|]. exists userId. auto.
  - intros r H. by destruct (H param).
Qed.

(** A configuration reaches the engine exactly as requested and only if it
    has at most MAX_USER users, 1 to MAX_AUTH_TYPE_SIZE types, which are the PIN
    alone unless a capability is enabled, a known type and, for the algorithm, a
    known value; a configuration for a user only for the one user named, who
    exists. Any other request is refused with INVALID_PARAMETERS or for lack of
    permission, before the engine is asked. *)
Theorem config_changes_checked c ipc (o : env answer) m :
  m = SetGlobalConfigParam c ipc ∨ m = SetUserConfigParam c ipc →
  guarded (config_guard ipc) (run o m []).2 ∧ ((∀ param, ¬ config_of ipc param) → refusal (run o m []).1).
Proof.
  assert (wp (config_guard ipc) m [] (refuses ipc) → guarded (config_guard ipc) (run o m []).2 ∧
    refuses ipc (run o m []).1 (run o m []).2) as H by apply wp_run_nil.
  intros [-> | ->]; apply H; [apply wp_SetGlobalConfigParam|apply wp_SetUserConfigParam].
Qed.

Definition demo_config : IpcGlobalConfigParam := mkIpcGlobalConfigParam 1 (mkIpcGlobalConfigValue 0 false 0 false) [] [FACE].
Lemma config_changes_checked_witness :
  let c := mkCaller 0 11 3058 11 in
  (run (world true) (SetGlobalConfigParam c demo_config) []).1 = INVALID_PARAMETERS ∧
  guarded (config_guard demo_config) (run (world true) (SetGlobalConfigParam c demo_config) []).2.
Proof.
  intros c. split; [vm_compute; reflexivity|].
  exact (proj1 (config_changes_checked c demo_config (world true) _ (or_introl eq_refl))).
Defined.
