(* ===== verification/UserIdmService.v ===== *)
(** * The identity management service

    Models services/ipc/src/user_idm_service.cpp: what the service does for a
    request of the caller [c]. Its state is the token of the last session,
    [sessionTokenId_], which is threaded through the two functions that use it.
    A callback argument is [true] when the pointer is not null. The functions
    that take [mutex_] are run one after the other. *)

From S2P Require Import Prelude Defines Interaction ServiceTypes Attributes Platform IpcCommon UserIdmDatabase.
From S2P Require Import NodeCommands ContextFactory UserAuthService.

(* @file S = src/services/ipc/src/user_idm_service.cpp *)

(** ** Helpers *)

(** Two digits per byte. *)
Definition hex_byte (b : byte) : bytes := hex_digits 2 (byte.unsigned b).

(* @src S UserIdmService::GetSessionInfoMasked *)
Definition GetSessionInfoMasked (challenge : bytes) : bytes := concat (map hex_byte (take 2 challenge)).

(* @src S UserIdmService::ConvertGetCredentialResult *)
Definition ConvertGetCredentialResult (resultCode : Z) (isNotEnrollReturnSuccess : bool) : Z :=
  WHEN resultCode = SUCCESS RETURN SUCCESS ;;
  WHEN resultCode = NOT_ENROLLED RETURN (if isNotEnrollReturnSuccess then SUCCESS else NOT_ENROLLED) ;;
  WHEN resultCode = INVALID_PARAMETERS ∨ resultCode = CHECK_PERMISSION_FAILED RETURN resultCode ;;
  GENERAL_ERROR.

Definition cancel (contextId : Z) : service () := call (PoolCancel contextId).

(** [Select(CONTEXT_ENROLL)]: the contexts that are still there, with their tokens. *)
(* @src S UserIdmService::CancelCurrentEnrollIfExist *)
Definition CancelCurrentEnrollIfExist : service () :=
  contextList ← call PoolSelectEnroll;
  for_each (λ _ context,
    match context with
    | Some (id, _) => cancel id
    | None => mret ()
    end) () (contextList : list (option (Z * Z))).

(* @src S UserIdmService::ClearUnavailableCredential *)
Definition ClearUnavailableCredential (userId : Z) : service () :=
  '(ret, credInfos) ← UserIdmDatabase.ClearUnavailableCredential userId;
  CHECK ret = SUCCESS ELSE mret () ;;
  WHEN credInfos = [] RETURN mret () ;;
  NotifyExecutorToDeleteTemplates credInfos (str "ClearExpiredTemplate");;
  mret ().

(** What the listeners hear of one deleted credential, and whether it was a
    PIN; an abandoned PIN is passed over. *)
Definition notify_deleted (userId eventType : Z) (callerName : bytes) (callerType : TokenType)
    (isExistPin : bool) (cred : CredentialInfoImpl) : service bool :=
  WHEN GetAuthType cred = PIN ∧ GetAbandonFlag cred = true RETURN mret isExistPin ;;
  call (OnNotifyCredChangeEvent userId (GetAuthType cred) eventType
    (mkCredChange callerName callerType 0 (GetCredentialId cred) false));;
  mret (isExistPin || bool_decide (GetAuthType cred = PIN)).

(** [changeInfo] carries the caller only. *)
(* @src S UserIdmService::PostProcessForDelete *)
Definition PostProcessForDelete (userId : Z) (credInfos : list CredentialInfoImpl) (changeReasonTrace : bytes)
    (eventType : Z) (callerName : bytes) (callerType : TokenType) : service () :=
  NotifyExecutorToDeleteTemplates credInfos changeReasonTrace;;
  call (PublishDeletedEvent userId);;
  isExistPin ← for_each (notify_deleted userId eventType callerName callerType) false credInfos;
  if (isExistPin : bool) then call (ProcessUserDeleted userId) else mret ().

(* @src S UserIdmService::EnforceDelUserInner *)
Definition EnforceDelUserInner (userId : Z) (changeReasonTrace : bytes) (callerName : bytes) (callerType : TokenType) :
    service Z :=
  '(ret, credInfos) ← DeleteUserEnforce userId;
  CHECK ret = SUCCESS ELSE mret ret ;;
  PostProcessForDelete userId credInfos changeReasonTrace ENFORCE_DEL_USER callerName callerType;;
  mret SUCCESS.

(** The callback of every user is a dummy, which only traces. *)
(* @src S UserIdmService::ClearRedundancyCredentialInner *)
Definition ClearRedundancyCredentialInner (callerName : bytes) (callerType : TokenType) : service Z :=
  '(ret, accountInfo) ← GetAllUserId [];
  CHECK ret = SUCCESS ELSE mret IPC_ERROR ;;
  '(ret, userInfos) ← GetAllExtUserInfo;
  WHEN ret = NOT_ENROLLED RETURN mret SUCCESS ;;
  CHECK ret = SUCCESS ELSE mret ret ;;
  for_each (λ _ userId,
    callbackForTrace ← call (MakeShared "DummyContextCallback");
    WHEN callbackForTrace = false RETURN mret () ;;
    WHEN userId ∈ accountInfo RETURN mret () ;;
    EnforceDelUserInner userId (str "DeleteRedundancy") callerName callerType;;
    mret ()) () userInfos;;
  mret SUCCESS.

Section Request.
Context (c : Caller).

(** ** Sessions *)

(** The result code, [challenge] and [sessionTokenId_]. *)
(* @src S UserIdmService::OpenSession *)
Definition OpenSession (userId : Z) (challenge : bytes) (sessionTokenId_ : option Z) : service (Z * bytes * option Z) :=
  ok ← CheckPermission c MANAGE_USER_IDM_PERMISSION;
  CHECK ok = true ELSE mret (CHECK_PERMISSION_FAILED, challenge, sessionTokenId_) ;;
  CancelCurrentEnrollIfExist;;
  '(ret, challenge) ← call (EngOpenSession userId);
  CHECK ret = SUCCESS ELSE mret (GENERAL_ERROR, challenge, sessionTokenId_) ;;
  call (SetSessionInfo (GetSessionInfoMasked challenge));;
  mret (SUCCESS, challenge, Some (GetAccessTokenId c)).

(* @src S UserIdmService::CloseSession *)
Definition CloseSession (userId : Z) (sessionTokenId_ : option Z) : service Z :=
  ok ← CheckPermission c MANAGE_USER_IDM_PERMISSION;
  CHECK ok = true ELSE mret CHECK_PERMISSION_FAILED ;;
  WHEN sessionTokenId_ ≠ Some (GetAccessTokenId c) RETURN mret SUCCESS ;;
  ret ← call (EngCloseSession userId);
  CHECK ret = SUCCESS ELSE mret GENERAL_ERROR ;;
  mret SUCCESS.

(** ** Queries *)

(** What a client learns of a credential. *)
Definition client_info (credInfo : CredentialInfoImpl) : CredentialInfo :=
  mkCredentialInfo (GetAuthType credInfo) (Some (GetAuthSubType credInfo)) (GetCredentialId credInfo)
    (GetTemplateId credInfo) (GetAbandonFlag credInfo) (GetValidPeriod credInfo).

(** The result code and [credInfoList], which is empty on entry. *)
(* @src S UserIdmService::GetCredentialInfoInner *)
Definition GetCredentialInfoInner (userId authType : Z) : service (Z * list CredentialInfo) :=
  ok ← CheckPermission c USE_USER_IDM_PERMISSION;
  CHECK ok = true ELSE mret (CHECK_PERMISSION_FAILED, []) ;;
  '(ret, credInfos) ← GetCredentialInfo userId authType;
  CHECK ret = SUCCESS ELSE mret (ret, []) ;;
  WHEN credInfos = [] RETURN mret (NOT_ENROLLED, []) ;;
  mret (SUCCESS, map client_info credInfos).

(** Abandoned credentials that are no longer valid are not shown. *)
Definition unavailable (info : CredentialInfo) : bool :=
  ci_isAbandoned info && bool_decide (ci_validityPeriod info = 0).

Definition ipc_info (info : CredentialInfo) : IpcCredentialInfo :=
  mkIpcCredentialInfo (ci_authType info) (default PIN_SIX (ci_pinType info)) (ci_credentialId info)
    (ci_templateId info) (ci_isAbandoned info) (ci_validityPeriod info).

Definition ipc_infos (infos : list CredentialInfo) : list IpcCredentialInfo :=
  map ipc_info (filter (λ info, unavailable info = false) infos).

(* @src S UserIdmService::GetCredentialInfoImpl *)
Definition GetCredentialInfoImpl (userId authType : Z) (callback : bool) : service Z :=
  CHECK callback = true ELSE mret INVALID_PARAMETERS ;;
  '(ret, credInfoList) ← GetCredentialInfoInner userId authType;
  let '(ret, credInfoList) :=
    if decide (ret ≠ SUCCESS) then (ConvertGetCredentialResult ret false, []) else (ret, credInfoList) in
  call (OnCredentialInfos ret (ipc_infos credInfoList));;
  (if existsb unavailable credInfoList then ClearUnavailableCredential userId else mret ());;
  mret ret.

(** The result code of the call and [funcResult]. *)
(* @src S UserIdmService::GetCredentialInfo *)
Definition GetCredentialInfo (userId authType : Z) (callback : bool) : service (Z * Z) :=
  funcResult ← GetCredentialInfoImpl userId authType callback;
  mret (SUCCESS, funcResult).

(** The result code and [ipcCredentialInfoList], which is [out] on entry. *)
(* @src S UserIdmService::GetCredentialInfoSync *)
Definition GetCredentialInfoSync (userId authType : Z) (out : list IpcCredentialInfo) :
    service (Z * list IpcCredentialInfo) :=
  '(ret, credentialInfoList) ← GetCredentialInfoInner userId authType;
  let '(ret, credentialInfoList) :=
    if decide (ret ≠ SUCCESS) then (ConvertGetCredentialResult ret true, []) else (ret, credentialInfoList) in
  (if existsb unavailable credentialInfoList then ClearUnavailableCredential userId else mret ());;
  mret (ret, out ++ ipc_infos credentialInfoList).

(** The database gives a user or an error. *)
(* @src S UserIdmService::GetSecInfoInner *)
Definition GetSecInfoInner (userId : Z) (secUserInfo : SecUserInfo) : service (Z * SecUserInfo) :=
  ok ← CheckPermission c USE_USER_IDM_PERMISSION;
  CHECK ok = true ELSE mret (CHECK_PERMISSION_FAILED, secUserInfo) ;;
  '(ret, userInfos) ← GetSecUserInfo userId;
  CHECK ret = SUCCESS ELSE mret (ret, secUserInfo) ;;
  match userInfos with
  | None => mret (GENERAL_ERROR, secUserInfo)
  | Some userInfos =>
    mret (SUCCESS, mkSecUserInfo (su_secUserId userInfos) (si_enrolledInfo secUserInfo ++ su_enrolledInfo userInfos))
  end.

(* @src S UserIdmService::GetSecInfo *)
Definition GetSecInfo (userId : Z) (callback : bool) : service Z :=
  CHECK callback = true ELSE mret INVALID_PARAMETERS ;;
  '(ret, secUserInfo) ← GetSecInfoInner userId (mkSecUserInfo 0 []);
  let secUserInfo := if decide (ret ≠ SUCCESS) then mkSecUserInfo 0 [] else secUserInfo in
  call (OnSecureUserInfo ret (si_secureUid secUserInfo) (si_enrolledInfo secUserInfo));;
  mret ret.

(** The result code and [latestEnrollmentTime]. *)
(* @src S UserIdmService::GetLatestEnrollmentTime *)
Definition GetLatestEnrollmentTime (userId authType latestEnrollmentTime : Z) : service (Z * Z) :=
  ok ← CheckPermission c USE_USER_IDM_PERMISSION;
  CHECK ok = true ELSE mret (CHECK_PERMISSION_FAILED, latestEnrollmentTime) ;;
  UserIdmDatabase.GetLatestEnrollmentTime userId authType.

(** ** Enrollment *)

(* @src S UserIdmService::StartEnroll *)
Definition StartEnroll (para : EnrollmentPara) (needSubscribeAppState : bool) : service Z :=
  id ← start_context true (CreateEnrollContext para needSubscribeAppState true);
  mret (match id with Some _ => SUCCESS | None => GENERAL_ERROR end).

(** [ParseJsonBool] is the boolean at [key] if the text is a JSON object that
    has one. *)
(* @src S UserIdmService::GetNeedSubscribeAppState *)
Definition GetNeedSubscribeAppState (jsonText : bytes) (key : string) : service bool :=
  background ← CheckPermission c USER_AUTH_FROM_BACKGROUND;
  WHEN background = true RETURN mret false ;;
  WHEN jsonText = [] RETURN mret true ;;
  value ← call (ParseJsonBool jsonText key);
  match value with
  | None => mret true
  | Some isEnrollBackGround => mret (negb isEnrollBackGround)
  end.

(** [ContextCallback::NewInstance], and the answer past it when it fails. *)
Definition with_callback (next : service Z) : service Z :=
  contextCallback ← call (MakeShared "ContextCallbackImpl");
  WHEN contextCallback = false RETURN (tell_raw GENERAL_ERROR;; mret GENERAL_ERROR) ;;
  next.

(** [contextCallback->OnResult(code, extraInfo)] and [return code]. *)
Definition refuse (code : Z) : service Z := tell code;; mret code.

(* @src S UserIdmService::AddCredential *)
Definition AddCredential (userId : Z) (para : IpcCredentialPara) (callback isUpdate : bool) : service Z :=
  CHECK callback = true ELSE mret INVALID_PARAMETERS ;;
  with_callback (
    '(_, callerName, callerType) ← GetCallerName c [];
    ok ← CheckPermission c MANAGE_USER_IDM_PERMISSION;
    CHECK ok = true ELSE refuse CHECK_PERMISSION_FAILED ;;
    CancelCurrentEnrollIfExist;;
    let enroll := mkEnroll userId (ic_authType para) (ic_pinType para) isUpdate (GetAccessTokenId c) (ic_token para)
      callerName INNER_API_VERSION_10000 callerType (ic_additionalInfo para) in
    needSubscribeAppState ← GetNeedSubscribeAppState (ic_additionalInfo para) "isEnrollBackground";
    StartEnroll enroll needSubscribeAppState).

(* @src S UserIdmService::UpdateCredential *)
Definition UpdateCredential (userId : Z) (para : IpcCredentialPara) (callback : bool) : service Z :=
  CHECK callback = true ELSE mret INVALID_PARAMETERS ;;
  '(ret, credInfos) ← UserIdmDatabase.GetCredentialInfo userId (ic_authType para);
  WHEN ret ≠ SUCCESS RETURN (tell_raw GENERAL_ERROR;; mret GENERAL_ERROR) ;;
  WHEN credInfos = [] RETURN (tell_raw NOT_ENROLLED;; mret SUCCESS) ;;
  AddCredential userId para callback true.

(* @src S UserIdmService::Cancel *)
Definition Cancel (userId : Z) : service Z :=
  ok ← CheckPermission c MANAGE_USER_IDM_PERMISSION;
  CHECK ok = true ELSE mret CHECK_PERMISSION_FAILED ;;
  contextList ← call PoolSelectEnroll;
  for_each (λ ret context,
    match context with
    | Some (id, tokenId) =>
      CHECK tokenId = GetAccessTokenId c ELSE mret ret ;;
      cancel id;;
      mret SUCCESS
    | None => mret ret
    end) GENERAL_ERROR (contextList : list (option (Z * Z))).

(** ** Deletion *)

(** [idmCallback->OnResult(code, extraInfo)] and [return code]. *)
Definition refuse_raw (code : Z) : service Z := tell_raw code;; mret code.

(* @src S UserIdmService::DeleteSubProfile *)
Definition DeleteSubProfile (userId subProfileId : Z) (callback : bool) : service Z :=
  CHECK callback = true ELSE mret INVALID_PARAMETERS ;;
  ok ← CheckPermission c ENFORCE_USER_IDM;
  CHECK ok = true ELSE refuse_raw CHECK_PERMISSION_FAILED ;;
  '(ret, hdiInfos) ← call (EngDeleteSubProfile userId subProfileId);
  CHECK ret = SUCCESS ELSE refuse_raw ret ;;
  '(ret, credInfos) ← wrap_credentials userId hdiInfos [];
  CHECK ret = SUCCESS ELSE refuse_raw GENERAL_ERROR ;;
  NotifyExecutorToDeleteTemplates credInfos (str "DeleteSubProfile");;
  refuse_raw SUCCESS.

(** The permission, after the name of the caller was asked for the trace. *)
Definition checked_caller (permission : Permission) (next : bytes → TokenType → service Z) : service Z :=
  '(_, callerName, callerType) ← GetCallerName c [];
  ok ← CheckPermission c permission;
  CHECK ok = true ELSE refuse CHECK_PERMISSION_FAILED ;;
  CancelCurrentEnrollIfExist;;
  next callerName callerType.

(* @src S UserIdmService::EnforceDelUser *)
Definition EnforceDelUser (userId : Z) (callback : bool) : service Z :=
  CHECK callback = true ELSE mret INVALID_PARAMETERS ;;
  with_callback (checked_caller ENFORCE_USER_IDM (λ callerName callerType,
    '(ret, userInfo) ← GetSecUserInfo userId;
    CHECK ret = SUCCESS ELSE refuse ret ;;
    WHEN userInfo = None RETURN refuse GENERAL_ERROR ;;
    ret ← EnforceDelUserInner userId (str "EnforceDeleteUser") callerName callerType;
    WHEN ret ≠ SUCCESS RETURN
      (call (OnResult true ret (SetUint64Value Attributes_new ATTR_CREDENTIAL_ID 0).1);; mret ret) ;;
    refuse SUCCESS)).

(* @src S UserIdmService::DelUser *)
Definition DelUser (userId : Z) (authToken : bytes) (callback : bool) : service Z :=
  CHECK callback = true ELSE mret INVALID_PARAMETERS ;;
  with_callback (checked_caller MANAGE_USER_IDM_PERMISSION (λ callerName callerType,
    '(ret, credInfos, rootSecret) ← DeleteUser userId authToken;
    CHECK ret = SUCCESS ELSE refuse ret ;;
    let '(extraInfo, ok) := SetUint8ArrayValue Attributes_new ATTR_OLD_ROOT_SECRET rootSecret in
    WHEN ok = false RETURN (call (OnResult true ret extraInfo);; mret ret) ;;
    call (OnResult true ret extraInfo);;
    PostProcessForDelete userId credInfos (str "DeleteUser") DEL_USER callerName callerType;;
    mret SUCCESS)).

(* @src S UserIdmService::StartDelete *)
Definition StartDelete (para : DeleteParam) : service Z :=
  id ← start_context true (CreateDeleteContext para true);
  mret (match id with Some _ => SUCCESS | None => GENERAL_ERROR end).

(* @src S UserIdmService::DelCredential *)
Definition DelCredential (userId credentialId : Z) (authToken : bytes) (callback : bool) : service Z :=
  CHECK callback = true ELSE mret INVALID_PARAMETERS ;;
  with_callback (checked_caller MANAGE_USER_IDM_PERMISSION (λ callerName callerType,
    StartDelete (mkDelete userId credentialId (GetAccessTokenId c) callerName callerType authToken))).

(* @src S UserIdmService::ClearRedundancyCredential *)
Definition ClearRedundancyCredential (callback : bool) : service Z :=
  CHECK callback = true ELSE mret INVALID_PARAMETERS ;;
  with_callback (checked_caller CLEAR_REDUNDANCY_PERMISSION (λ callerName callerType,
    ret ← ClearRedundancyCredentialInner callerName callerType;
    refuse ret)).

(** ** Listeners *)

(* @src S UserIdmService::RegistCredChangeEventListener *)
Definition RegistCredChangeEventListener (listener : bool) : service Z :=
  CHECK listener = true ELSE mret INVALID_PARAMETERS ;;
  ok ← CheckPermission c USE_USER_IDM_PERMISSION;
  CHECK ok = true ELSE mret CHECK_PERMISSION_FAILED ;;
  call (RegistEventListener true).

(* @src S UserIdmService::UnRegistCredChangeEventListener *)
Definition UnRegistCredChangeEventListener (listener : bool) : service Z :=
  CHECK listener = true ELSE mret INVALID_PARAMETERS ;;
  ok ← CheckPermission c USE_USER_IDM_PERMISSION;
  CHECK ok = true ELSE mret CHECK_PERMISSION_FAILED ;;
  call (UnRegistEventListener true).
End Request.
