(* ===== verification/UserIdmGate.v ===== *)
(** * The identity management service: who may do what

    [serve_idm c req session] runs the handler of an IPC request of the caller
    [c] when [session] is the token of the last session. *)

From S2P Require Import Prelude Defines Interaction ServiceTypes Attributes Platform IpcCommon UserIdmDatabase.
From S2P Require Import ContextFactory UserAuthService Gate UserIdmService.

(** ** The requests *)

Inductive IdmRequest :=
  | Idm_OpenSession (userId : Z) (challenge : bytes)
  | Idm_CloseSession (userId : Z)
  | Idm_GetCredentialInfo (userId authType : Z) (callback : bool)
  | Idm_GetCredentialInfoSync (userId authType : Z) (out : list IpcCredentialInfo)
  | Idm_GetSecInfo (userId : Z) (callback : bool)
  | Idm_GetLatestEnrollmentTime (userId authType latestEnrollmentTime : Z)
  | Idm_AddCredential (userId : Z) (para : IpcCredentialPara) (callback isUpdate : bool)
  | Idm_UpdateCredential (userId : Z) (para : IpcCredentialPara) (callback : bool)
  | Idm_Cancel (userId : Z)
  | Idm_DeleteSubProfile (userId subProfileId : Z) (callback : bool)
  | Idm_EnforceDelUser (userId : Z) (callback : bool)
  | Idm_DelUser (userId : Z) (authToken : bytes) (callback : bool)
  | Idm_DelCredential (userId credentialId : Z) (authToken : bytes) (callback : bool)
  | Idm_ClearRedundancyCredential (callback : bool)
  | Idm_RegistCredChangeEventListener (listener : bool)
  | Idm_UnRegistCredChangeEventListener (listener : bool).

Definition keep {A} (session : option Z) (m : service A) : service (option Z) := _ ← m; mret session.

(** What is left is the session. *)
Definition serve_idm (c : Caller) (req : IdmRequest) (session : option Z) : service (option Z) :=
  match req with
  | Idm_OpenSession u ch => '(_, _, session) ← OpenSession c u ch session; mret session
  | Idm_CloseSession u => keep session (CloseSession c u session)
  | Idm_GetCredentialInfo u ty cb => keep session (GetCredentialInfo c u ty cb)
  | Idm_GetCredentialInfoSync u ty out => keep session (GetCredentialInfoSync c u ty out)
  | Idm_GetSecInfo u cb => keep session (GetSecInfo c u cb)
  | Idm_GetLatestEnrollmentTime u ty time => keep session (GetLatestEnrollmentTime c u ty time)
  | Idm_AddCredential u para cb upd => keep session (AddCredential c u para cb upd)
  | Idm_UpdateCredential u para cb => keep session (UpdateCredential c u para cb)
  | Idm_Cancel u => keep session (Cancel c u)
  | Idm_DeleteSubProfile u p cb => keep session (DeleteSubProfile c u p cb)
  | Idm_EnforceDelUser u cb => keep session (EnforceDelUser c u cb)
  | Idm_DelUser u tok cb => keep session (DelUser c u tok cb)
  | Idm_DelCredential u id tok cb => keep session (DelCredential c u id tok cb)
  | Idm_ClearRedundancyCredential cb => keep session (ClearRedundancyCredential c cb)
  | Idm_RegistCredChangeEventListener l => keep session (RegistCredChangeEventListener c l)
  | Idm_UnRegistCredChangeEventListener l => keep session (UnRegistCredChangeEventListener c l)
  end.

(** ** What a request needs *)

Definition idm_permission (req : IdmRequest) : Permission :=
  match req with
  | Idm_OpenSession _ _ | Idm_CloseSession _ | Idm_AddCredential _ _ _ _ | Idm_UpdateCredential _ _ _ | Idm_Cancel _
  | Idm_DelUser _ _ _ | Idm_DelCredential _ _ _ _ => MANAGE_USER_IDM_PERMISSION
  | Idm_GetCredentialInfo _ _ _ | Idm_GetCredentialInfoSync _ _ _ | Idm_GetSecInfo _ _
  | Idm_GetLatestEnrollmentTime _ _ _ | Idm_RegistCredChangeEventListener _
  | Idm_UnRegistCredChangeEventListener _ => USE_USER_IDM_PERMISSION
  | Idm_DeleteSubProfile _ _ _ | Idm_EnforceDelUser _ _ => ENFORCE_USER_IDM
  | Idm_ClearRedundancyCredential _ => CLEAR_REDUNDANCY_PERMISSION
  end.

Definition idm_needs (c : Caller) (req : IdmRequest) (t : trace) : Prop := granted c (idm_permission req) t.

(** Free are the report of a failure, which tells nothing else, and the query
    with which [UpdateCredential] begins. *)
Definition idm_free (req : IdmRequest) (q : sys) : bool :=
  match q with
  | OnResult _ code _ => bool_decide (code ≠ SUCCESS)
  | OnCredentialInfos code [] => bool_decide (code ≠ SUCCESS)
  | OnSecureUserInfo code 0 [] => bool_decide (code ≠ SUCCESS)
  | EngGetCredential userId authType =>
      match req with
      | Idm_UpdateCredential u para true => bool_decide (userId = u ∧ authType = ic_authType para)
      | _ => false
      end
  | _ => false
  end.

Definition idm_gate (c : Caller) (req : IdmRequest) : trace → sys → Prop := gate (idm_free req) (idm_needs c req).

Lemma idm_needs_app c req t u : idm_needs c req t → idm_needs c req (t ++ u).
Proof. apply granted_app. Qed.

Ltac idm_needed :=
  apply wp_needed; [apply idm_needs_app|
    first [eassumption | match goal with H : granted _ _ _ |- _ => exact H end]|]; clear; intros ? ? ?.

(** One free or inspecting call after another. *)
Ltac idm_open := repeat first [gate_step | idm_needed]; try done.

Lemma idm_gate_update c userId para callback session :
  wp (idm_gate c (Idm_UpdateCredential userId para callback))
    (serve_idm c (Idm_UpdateCredential userId para callback) session) [] (λ _ _, True).
Proof.
  unfold serve_idm, keep, UpdateCredential, AddCredential, with_callback, refuse, tell, tell_raw.
  repeat lazymatch goal with
  | |- wp _ (UserIdmDatabase.GetCredentialInfo _ _) _ _ => unfold UserIdmDatabase.GetCredentialInfo
  | |- wp _ (wrap_credentials _ _ _) _ _ => apply wp_kit; [auto with service|kit_ok|intros]
  | |- wp _ (call (EngGetCredential _ _)) _ _ =>
      apply (@wp_call _ answer _ (EngGetCredential _ _)); [subst; right; left; by apply bool_decide_eq_true|intros ?]
  | |- _ => first [gate_step | idm_needed]
  end; done.
Qed.

(** C2: for every caller, every request to the identity management service and
    every behaviour of the rest of the system: a call that does not just look at
    the caller or tell him of a failure is made only after the access token kit
    confirmed the permission of the request; deletion by force is besides for
    the one process on the white list. So no credential, user or session is
    touched, no context started or cancelled and nothing told of the enrolled
    credentials without it. The one exception is [UpdateCredential], which asks
    the engine for the credentials of the user before it checks anything. *)
Theorem idm_service_gate c req session (o : env answer) :
  guarded (idm_gate c req) (run o (serve_idm c req session) []).2.
Proof.
  eapply wp_run_nil with (Φ := λ _ _, True).
  destruct req; try apply idm_gate_update; unfold serve_idm, keep, OpenSession, CloseSession, GetCredentialInfo,
    GetCredentialInfoImpl, GetCredentialInfoSync, GetCredentialInfoInner, GetSecInfo, GetSecInfoInner,
    GetLatestEnrollmentTime, AddCredential, Cancel, DeleteSubProfile, EnforceDelUser, DelUser, DelCredential,
    ClearRedundancyCredential, RegistCredChangeEventListener, UnRegistCredChangeEventListener, with_callback,
    checked_caller, refuse, refuse_raw, tell, tell_raw.
  all: idm_open.
Qed.

(** ** What the exception tells *)

(** A system that grants nothing, and in which the engine answers [creds] for
    the user. *)
Definition unprivileged (o : env answer) (userId authType : Z) (creds : list EngCredentialInfo) : Prop :=
  (∀ t tok perm, o t (VerifyAccessToken tok perm) = false) ∧ (∀ t what, o t (MakeShared what) = true) ∧
  (∀ t, o t (EngGetCredential userId authType) = (SUCCESS, creds)).

Lemma update_reply c userId para :
  wp (λ _ _, True) (UpdateCredential c userId para true) [] (λ code t,
    granted c MANAGE_USER_IDM_PERMISSION t ∨ (∃ what, answered t (MakeShared what) false) ∨
    ∃ r creds, answered t (EngGetCredential userId (ic_authType para)) (r, creds) ∧
      (r = SUCCESS → code = if decide (creds = []) then SUCCESS else CHECK_PERMISSION_FAILED)).
Proof.
  unfold UpdateCredential, UserIdmDatabase.GetCredentialInfo, wrap_credentials, tell_raw. rewrite decide_True by done.
  do 2 apply wp_bind. step; [done|]. destruct r as [r creds].
  set (t0 := [] ++ _). assert (answered t0 (EngGetCredential userId (ic_authType para)) (r, creds)) as H0 by apply answered_snoc.
  cbn beta iota. step; [|repeat step; try done; right; right; exists r, creds; split; [by apply answered_app|done]].
  subst r. apply wp_wrap_each; [done|..].
  2: { intros res t1 E1 HM. cbn beta iota. rewrite decide_True by done. repeat step; try done. right. left. eauto with service. }
  intros t1 E1. carry E1. cbn [app]. cbn beta iota. step; [done|].
  step; [repeat step; try done; right; right; exists SUCCESS, creds; split; [by apply answered_app|intros _];
    rewrite decide_True by (by apply map_eq_nil in e); done|].
  assert (creds ≠ []) as Hc by (intros ->; by apply n0).
  unfold AddCredential, with_callback, tell_raw, refuse, tell. rewrite decide_True by done. apply wp_bind. step; [done|].
  step; [repeat step; try done; right; left; exists "ContextCallbackImpl"; apply answered_app; subst; apply answered_snoc|].
  apply wp_bind, wp_kit; [auto with service|done|]. intros [[? ?] ?] t2 E2. cbn beta iota.
  assert (extends kit t1 t2) as E12 by (eapply extends_trans; [|exact E2]; auto with service). carry E12.
  apply wp_bind, wp_check; [done|..]; intros t3 E3; [intros Hg|]; carry E3.
  - eapply (wp_stable _ (granted c MANAGE_USER_IDM_PERMISSION)); [intros; by apply granted_app|done|done|]. intros ? ? ?. by left.
  - repeat step; try done. right; right. exists SUCCESS, creds. split; [by apply answered_app|]. intros _.
    by rewrite decide_False.
Qed.

(** [UpdateCredential] tells callers without any permission whether a user
    has a credential of a type: without one it returns SUCCESS, as it does for
    privileged callers, and with one it returns CHECK_PERMISSION_FAILED. *)
Theorem update_tells_enrollment c userId para creds (o : env answer) :
  unprivileged o userId (ic_authType para) creds →
  (run o (UpdateCredential c userId para true) []).1 =
    if decide (creds = []) then SUCCESS else CHECK_PERMISSION_FAILED.
Proof.
  intros (Hp & Hm & He). destruct (wp_run_nil _ o _ _ (update_reply c userId para)) as [_ H].
  pose proof (run_answers o (UpdateCredential c userId para true) []) as Ho.
  destruct (run o _ []) as [code t]. simpl in *. destruct H as [H|[[what H]|(r & cr & H & Hr)]].
  - destruct H as [H _]. apply Ho in H as [[]%not_elem_of_nil|[u H]]. simpl in H. by rewrite Hp in H.
  - apply Ho in H as [[]%not_elem_of_nil|[u H]]. simpl in H. by rewrite Hm in H.
  - apply Ho in H as [[]%not_elem_of_nil|[u H]]. simpl in H. rewrite He in H. injection H as -> ->. by apply Hr.
Qed.

Definition stranger (creds : list EngCredentialInfo) : env answer := λ t q,
  match q return answer q with
  | VerifyAccessToken _ _ => false
  | EngGetCredential _ _ => (SUCCESS, creds)
  | q => world true t q
  end.

Lemma update_tells_enrollment_witness :
  unprivileged (stranger [no_credential]) 100 PIN [no_credential] ∧
  (run (stranger [no_credential]) (UpdateCredential (mkCaller 0 11 3058 11) 100 (mkIpcCredentialPara PIN PIN_SIX [] []) true) []).1
    = CHECK_PERMISSION_FAILED.
Proof.
  assert (unprivileged (stranger [no_credential]) 100 PIN [no_credential]) as H by (split_and!; done).
  split; [exact H|]. exact (update_tells_enrollment _ 100 (mkIpcCredentialPara PIN PIN_SIX [] []) _ _ H).
Defined.
