(* ===== verification/UserIdmThm.v ===== *)
(** * The identity management service: what is done for a request

    Who is answered, what is started, cancelled and deleted, and what follows
    a deletion. *)

From S2P Require Import Prelude Defines Interaction ServiceTypes Attributes Platform IpcCommon UserIdmDatabase.
From S2P Require Import NodeCommands ContextFactory UserAuthService Gate UserIdmService UserIdmGate.

(** ** Every request is answered *)

(** The requests that answer their callback, by whether it is there. *)
Inductive answering (c : Caller) : bool → service Z → Prop :=
  | answering_AddCredential u para cb upd : answering c cb (AddCredential c u para cb upd)
  | answering_UpdateCredential u para cb : answering c cb (UpdateCredential c u para cb)
  | answering_DeleteSubProfile u p cb : answering c cb (DeleteSubProfile c u p cb)
  | answering_EnforceDelUser u cb : answering c cb (EnforceDelUser c u cb)
  | answering_DelUser u tok cb : answering c cb (DelUser c u tok cb)
  | answering_DelCredential u id tok cb : answering c cb (DelCredential c u id tok cb)
  | answering_ClearRedundancyCredential cb : answering c cb (ClearRedundancyCredential c cb).

(** One result, or one context that will report it; a context means success. *)
Definition reported (cb : bool) (code : Z) (r s : nat) : Prop :=
  if cb then (r + s = 1)%nat ∧ (s = 1%nat → code = SUCCESS)
  else r = 0%nat ∧ s = 0%nat ∧ code = INVALID_PARAMETERS.

Lemma only_CancelCurrentEnrollIfExist : only silent CancelCurrentEnrollIfExist.
Proof. unfold CancelCurrentEnrollIfExist, cancel. only_steps. Qed.
#[export] Hint Resolve only_CancelCurrentEnrollIfExist : service.
Lemma only_PostProcess u infos why e n ty : only silent (PostProcessForDelete u infos why e n ty).
Proof. unfold PostProcessForDelete, notify_deleted. only_steps. Qed.
#[export] Hint Resolve only_PostProcess : service.
Lemma only_EnforceDelUserInner u why n ty : only silent (EnforceDelUserInner u why n ty).
Proof. unfold EnforceDelUserInner. only_steps. Qed.
#[export] Hint Resolve only_EnforceDelUserInner : service.
Lemma only_ClearRedundancyInner n ty : only silent (ClearRedundancyCredentialInner n ty).
Proof. unfold ClearRedundancyCredentialInner. only_steps. Qed.
Lemma only_NeedSubscribe c text key : only silent (GetNeedSubscribeAppState c text key).
Proof. unfold GetNeedSubscribeAppState. only_steps. Qed.
#[export] Hint Resolve only_ClearRedundancyInner only_NeedSubscribe : service.

Lemma answers_idm_start create :
  only silent create →
  answers (id ← start_context true create; mret (match id with Some _ => SUCCESS | None => GENERAL_ERROR end))
    (reported true).
Proof.
  intros H. eapply answers_bind; [by apply answers_start_context|]. intros id r s [H1 H2]. apply answers_ret.
  rewrite !Nat.add_0_r. split; [done|]. intros Hs. destruct id; [done|]. by destruct (proj2 H2 Hs).
Qed.

Ltac report :=
  repeat lazymatch goal with
  | |- answers (StartEnroll _ _) _ => eapply answers_mono; [apply answers_idm_start; auto with service|]
  | |- answers (StartDelete _) _ => eapply answers_mono; [apply answers_idm_start; auto with service|]
  | |- _ => count_step
  end; try done.

Section Answers.
Context (c : Caller).

Lemma answers_AddCredential u para cb upd : answers (AddCredential c u para cb upd) (reported cb).
Proof. unfold AddCredential, with_callback, tell_raw, refuse, tell. report; subst; try done; by destruct cb. Qed.

Ltac report_open :=
  unfold checked_caller, with_callback, refuse_raw, refuse, tell_raw, tell; report; subst; try done; by match goal with |- reported ?cb _ _ _ => destruct cb end.

Lemma answers_UpdateCredential u para cb : answers (UpdateCredential c u para cb) (reported cb).
Proof.
  unfold UpdateCredential, tell_raw. repeat lazymatch goal with
  | |- answers (AddCredential _ _ _ _ _) _ => apply answers_AddCredential
  | |- _ => count_step
  end; subst; try done; by destruct cb.
Qed.
Lemma answers_DeleteSubProfile u p cb : answers (DeleteSubProfile c u p cb) (reported cb).
Proof. unfold DeleteSubProfile. report_open. Qed.
Lemma answers_EnforceDelUser u cb : answers (EnforceDelUser c u cb) (reported cb).
Proof. unfold EnforceDelUser. report_open. Qed.
Lemma answers_DelUser u tok cb : answers (DelUser c u tok cb) (reported cb).
Proof. unfold DelUser. report_open. Qed.
Lemma answers_DelCredential u id tok cb : answers (DelCredential c u id tok cb) (reported cb).
Proof. unfold DelCredential. report_open. Qed.
Lemma answers_ClearRedundancy cb : answers (ClearRedundancyCredential c cb) (reported cb).
Proof. unfold ClearRedundancyCredential. report_open. Qed.

Lemma answers_request cb m : answering c cb m → answers m (reported cb).
Proof.
  destruct 1; [apply answers_AddCredential|apply answers_UpdateCredential|apply answers_DeleteSubProfile|
    apply answers_EnforceDelUser|apply answers_DelUser|apply answers_DelCredential|apply answers_ClearRedundancy].
Qed.
End Answers.

(** C7: a request to add, update or delete that comes with a callback reports
    exactly once: either the callback gets one result, or one context is in the
    pool that will report, and then the request returns SUCCESS. Without a
    callback it does nothing and returns INVALID_PARAMETERS. *)
Theorem idm_service_answers c cb m (o : env answer) :
  answering c cb m →
  let '(code, t) := run o m [] in reported cb code (results t) (scheduled t).
Proof.
  intros H. by apply (answers_run o m _), answers_request with c.
Qed.

Definition demo_para : IpcCredentialPara := mkIpcCredentialPara FACE 0 [] [].
Definition idm_caller : Caller := mkCaller 0 11 3058 11.

Lemma idm_service_answers_witness :
  answering idm_caller true (AddCredential idm_caller 100 demo_para true false) ∧
  let '(code, t) := run (world true) (AddCredential idm_caller 100 demo_para true false) [] in
  code = SUCCESS ∧ scheduled t = 1%nat ∧ reported true code (results t) (scheduled t).
Proof.
  assert (answering idm_caller true (AddCredential idm_caller 100 demo_para true false)) as H by constructor.
  split; [exact H|]. pose proof (idm_service_answers _ _ _ (world true) H) as Ha.
  assert ((run (world true) (AddCredential idm_caller 100 demo_para true false) []).1 = SUCCESS) as E1
    by (vm_compute; reflexivity).
  assert (scheduled (run (world true) (AddCredential idm_caller 100 demo_para true false) []).2 = 1%nat) as E2
    by (vm_compute; reflexivity).
  destruct (run _ _ _) as [code t]. split; [exact E1|]. split; [exact E2|exact Ha].
Defined.

(** ** What is done *)

(** All enrollments that the pool listed were cancelled. *)
Definition cancelled_first (t : trace) : Prop :=
  ∃ l, answered t PoolSelectEnroll l ∧ ∀ id token, Some (id, token) ∈ l → answered t (PoolCancel id) ().

(** The context of a request. It may run in the background only if the caller
    may, or if the JSON of the request says so. *)
Definition idm_context (c : Caller) (req : IdmRequest) (t : trace) (ctx : NewContext) : Prop :=
  match req, ctx with
  | Idm_AddCredential u para true upd, EnrollContext e background =>
    en_userId e = u ∧ en_authType e = ic_authType para ∧ en_token e = ic_token para ∧
    en_tokenId e = GetAccessTokenId c ∧ en_isUpdate e = upd ∧
    (background = false → granted c USER_AUTH_FROM_BACKGROUND t ∨
      answered t (ParseJsonBool (ic_additionalInfo para) "isEnrollBackground") (Some true))
  | Idm_UpdateCredential u para true, EnrollContext e background =>
    en_userId e = u ∧ en_authType e = ic_authType para ∧ en_token e = ic_token para ∧
    en_tokenId e = GetAccessTokenId c ∧ en_isUpdate e = true ∧
    (∃ creds, answered t (EngGetCredential u (ic_authType para)) (SUCCESS, creds) ∧ creds ≠ []) ∧
    (background = false → granted c USER_AUTH_FROM_BACKGROUND t ∨
      answered t (ParseJsonBool (ic_additionalInfo para) "isEnrollBackground") (Some true))
  | Idm_DelCredential u id token true, DeleteContext d =>
    de_userId d = u ∧ de_credentialId d = id ∧ de_token d = token ∧ de_tokenId d = GetAccessTokenId c
  | _, _ => False
  end.

(** A user that the driver knows and the account manager does not. *)
Definition redundant (userId : Z) (t : trace) : Prop :=
  ∃ accounts users, answered t QueryAllCreatedOsAccounts (Some accounts) ∧ (userId ∉ accounts) ∧
    answered t EngGetAllExtUserInfo (SUCCESS, users) ∧ userId ∈ map xu_userId users.

Definition idm_guard (c : Caller) (req : IdmRequest) (session : option Z) (t : trace) (q : sys) : Prop :=
  match q with
  | PoolSchedule _ ctx => cancelled_first t ∧ idm_context c req t ctx
  | PoolCancel id => ∃ l token, answered t PoolSelectEnroll l ∧ Some (id, token) ∈ l ∧
      (∀ u, req = Idm_Cancel u → token = GetAccessTokenId c)
  | EngOpenSession u => cancelled_first t ∧ (∃ ch, req = Idm_OpenSession u ch)
  | EngCloseSession u => req = Idm_CloseSession u ∧ session = Some (GetAccessTokenId c)
  | EngDeleteUser u token => cancelled_first t ∧ req = Idm_DelUser u token true
  | EngEnforceDeleteUser u => cancelled_first t ∧
      (req = Idm_EnforceDelUser u true ∨ req = Idm_ClearRedundancyCredential true ∧ redundant u t)
  | EngDeleteSubProfile u p => req = Idm_DeleteSubProfile u p true
  | EngClearUnavailableCredential us =>
      ∃ u ty, us = [u] ∧ (req = Idm_GetCredentialInfo u ty true ∨ (∃ out, req = Idm_GetCredentialInfoSync u ty out))
  | _ => True
  end.

(** The calls that the guard does not mind. *)
Definition inert (q : sys) : bool :=
  match q with
  | PoolSchedule _ _ | PoolCancel _ | EngOpenSession _ | EngCloseSession _ | EngDeleteUser _ _
  | EngEnforceDeleteUser _ | EngDeleteSubProfile _ _ | EngClearUnavailableCredential _ => false
  | _ => true
  end.

Lemma inert_guard c req session t q : inert q = true → idm_guard c req session t q.
Proof. by destruct q. Qed.

Lemma only_inert {A} (m : service A) : only kit m → only inert m.
Proof. apply only_mono. by intros []. Qed.
#[export] Hint Resolve only_inert : service.

Lemma inert_GetSecUserInfo u : only inert (GetSecUserInfo u).
Proof. unfold GetSecUserInfo. only_steps. Qed.
Lemma inert_GetLatestEnrollmentTime u ty : only inert (UserIdmDatabase.GetLatestEnrollmentTime u ty).
Proof. unfold UserIdmDatabase.GetLatestEnrollmentTime. only_steps. Qed.
Lemma inert_Notify infos why : only inert (NotifyExecutorToDeleteTemplates infos why).
Proof. unfold NotifyExecutorToDeleteTemplates. only_steps. Qed.
#[export] Hint Resolve inert_GetSecUserInfo inert_GetLatestEnrollmentTime inert_Notify : service.
Lemma inert_PostProcess u infos why e n ty : only inert (PostProcessForDelete u infos why e n ty).
Proof. unfold PostProcessForDelete, notify_deleted. only_steps. Qed.
Lemma inert_CredentialInfoInner c u ty : only inert (GetCredentialInfoInner c u ty).
Proof. unfold GetCredentialInfoInner, UserIdmDatabase.GetCredentialInfo. only_steps. Qed.
Lemma inert_refuse code : only inert (refuse code).
Proof. unfold refuse, tell. only_steps. Qed.
Lemma inert_refuse_raw code : only inert (refuse_raw code).
Proof. unfold refuse_raw, tell_raw. only_steps. Qed.
#[export] Hint Resolve inert_PostProcess inert_CredentialInfoInner inert_refuse inert_refuse_raw : service.

Section Guard.
Context (c : Caller) (req : IdmRequest) (session : option Z).
Implicit Types t : trace.

Lemma wp_inert {A} (m : service A) t (Φ : A → trace → Prop) :
  only inert m → (∀ a t', extends inert t t' → Φ a t') → wp (idm_guard c req session) m t Φ.
Proof. intros H. apply wp_only; [exact H|]. intros. by apply inert_guard. Qed.

Lemma wp_inert_call q t (Φ : answer q → trace → Prop) :
  inert q = true → (∀ r, Φ r (t ++ [existT q r])) → wp (idm_guard c req session) (call q) t Φ.
Proof. intros H HΦ. apply (@wp_call _ answer _ q); [by apply inert_guard|done]. Qed.

Lemma wp_cancel_each l all t (Φ : () → trace → Prop) :
  (∀ u, req ≠ Idm_Cancel u) → answered t PoolSelectEnroll all → (∀ x, x ∈ l → x ∈ all) →
  (∀ t', extends (λ _, true) t t' → (∀ id token, Some (id, token) ∈ l → answered t' (PoolCancel id) ()) → Φ () t') →
  wp (idm_guard c req session) (for_each (λ _ context,
    match context with Some (id, _) => cancel id | None => mret () end) () (l : list (option (Z * Z)))) t Φ.
Proof.
  intros Hreq. revert t. induction l as [|x l IH]; intros t Hall Hl HΦ; cbn [for_each].
  { step. apply HΦ; [apply extends_refl|]. intros ? ? []%not_elem_of_nil. }
  apply wp_bind. destruct x as [[id token]|].
  - apply (@wp_call _ answer _ (PoolCancel id)).
    { exists all, token. split_and!; [done|apply Hl; by left|naive_solver]. }
    intros []. assert (extends (λ _, true) t (t ++ [existT (PoolCancel id) ()])) as E by apply extends_app.
    apply IH; [by eapply answered_extends|intros; apply Hl; by right|]. intros t' E' H.
    apply HΦ; [by eapply extends_trans|]. intros id' token' [[= -> ->]|Hin]%elem_of_cons; [|by eapply H].
    eapply answered_extends; [exact E'|]. apply answered_snoc.
  - step. apply IH; [done|intros; apply Hl; by right|]. intros t' E' H. apply HΦ; [done|].
    intros id token [?|Hin]%elem_of_cons; [done|by eapply H].
Qed.

Lemma wp_CancelCurrent t (Φ : () → trace → Prop) :
  (∀ u, req ≠ Idm_Cancel u) → (∀ t', extends (λ _, true) t t' → cancelled_first t' → Φ () t') →
  wp (idm_guard c req session) CancelCurrentEnrollIfExist t Φ.
Proof.
  intros Hreq HΦ. unfold CancelCurrentEnrollIfExist. apply wp_bind, (wp_inert_call PoolSelectEnroll); [done|]. intros l.
  apply (wp_cancel_each l l); [done|apply answered_snoc|done|]. intros t' E H.
  assert (extends (λ _, true) t t') as E' by (eapply extends_trans; [apply extends_app|exact E]).
  apply HΦ; [done|]. exists l. split; [|done]. eapply answered_extends; [exact E|]. apply answered_snoc.
Qed.

Lemma cancelled_extends C t t' : extends C t t' → cancelled_first t → cancelled_first t'.
Proof.
  intros E (l & H1 & H2). exists l. split; [by eapply answered_extends|]. intros id token Hin.
  eapply answered_extends; [exact E|by eapply H2].
Qed.

(** A context that is made as the request says. *)
Lemma wp_idm_start create t ok :
  makes create ok → cancelled_first t → (∀ ctx t', extends silent t t' → ok ctx → idm_context c req t' ctx) →
  wp (idm_guard c req session)
    (id ← start_context true create; mret (match id with Some _ => SUCCESS | None => GENERAL_ERROR end)) t (λ _ _, True).
Proof.
  intros Hm Hc HG. apply wp_bind. eapply wp_wand; [|intros; by step].
  eapply wp_start_with; [exact Hm|by intros ? []|]. intros id ctx t' E Hok.
  split; [by eapply cancelled_extends|by apply HG].
Qed.

Lemma wp_act q t (Φ : answer q → trace → Prop) :
  idm_guard c req session t q → (∀ r t', extends (λ _, true) t t' → answered t' q r → Φ r t') →
  wp (idm_guard c req session) (call q) t Φ.
Proof.
  intros H HΦ. apply (@wp_call _ answer _ q); [done|]. intros r. apply HΦ; [apply extends_app|apply answered_snoc].
Qed.

Lemma guard_kit t q : kit q = true → idm_guard c req session t q.
Proof. by destruct q. Qed.
End Guard.

Ltac carry_idm E :=
  carry E; repeat match goal with H : cancelled_first _ |- _ => apply (cancelled_extends _ _ _ E) in H end.

(** One step of a handler under the guard. *)
Ltac idm_step :=
  cbv zeta;
  lazymatch goal with
  | |- wp _ (CheckPermission _ _) _ _ =>
      let E := fresh "E" in apply wp_check; [intros ? ?; apply guard_kit|intros ? E ?; carry_idm E|intros ? E; carry_idm E]
  | |- wp _ CancelCurrentEnrollIfExist _ _ =>
      let E := fresh "E" in apply wp_CancelCurrent; [done|intros ? E ?; carry_idm E]
  | |- wp _ (wrap_each _ _ _ _) _ _ =>
      let E := fresh "E" in apply wp_wrap_each; [intros ? ?; apply guard_kit|intros ? E; carry_idm E|intros ? ? E ?; carry_idm E]
  | |- wp _ (call ?q) _ _ =>
      let E := fresh "E" in apply (wp_act _ _ _ q); [try done|intros ? ? E ?; carry_idm E]
  | |- wp _ (mret _) _ _ => apply wp_ret
  | |- wp _ (for_each _ _ _) _ _ => idtac
  | |- wp _ (_ ≫= _) _ _ => apply wp_bind
  | |- wp _ (match ?x with _ => _ end) _ _ => branch_on x; told
  | |- wp _ _ _ _ => let E := fresh "E" in apply wp_inert; [solve [only_steps]|intros ? ? E; carry_idm E]
  end.

Section Requests.
Context (c : Caller) (session : option Z).

Lemma guard_DeleteSubProfile u p cb :
  wp (idm_guard c (Idm_DeleteSubProfile u p cb) session) (serve_idm c (Idm_DeleteSubProfile u p cb) session) [] (λ _ _, True).
Proof. unfold serve_idm, keep, DeleteSubProfile, wrap_credentials. repeat idm_step; try done. by subst. Qed.
Lemma guard_OpenSession u ch :
  wp (idm_guard c (Idm_OpenSession u ch) session) (serve_idm c (Idm_OpenSession u ch) session) [] (λ _ _, True).
Proof. unfold serve_idm, keep, OpenSession. repeat idm_step; try done. split; [done|eauto]. Qed.
Lemma guard_CloseSession u :
  wp (idm_guard c (Idm_CloseSession u) session) (serve_idm c (Idm_CloseSession u) session) [] (λ _ _, True).
Proof. unfold serve_idm, keep, CloseSession. repeat idm_step; done. Qed.
Lemma guard_DelUser u tok cb :
  wp (idm_guard c (Idm_DelUser u tok cb) session) (serve_idm c (Idm_DelUser u tok cb) session) [] (λ _ _, True).
Proof.
  unfold serve_idm, keep, DelUser, with_callback, checked_caller, DeleteUser, wrap_credentials.
  repeat idm_step; subst; done.
Qed.

Lemma guard_GetCredentialInfo u ty cb :
  wp (idm_guard c (Idm_GetCredentialInfo u ty cb) session) (serve_idm c (Idm_GetCredentialInfo u ty cb) session) []
    (λ _ _, True).
Proof.
  unfold serve_idm, keep, GetCredentialInfo, GetCredentialInfoImpl, ClearUnavailableCredential,
    UserIdmDatabase.ClearUnavailableCredential, wrap_credentials.
  repeat idm_step; try done; subst; exists u, ty; auto.
Qed.

Lemma guard_GetCredentialInfoSync u ty out :
  wp (idm_guard c (Idm_GetCredentialInfoSync u ty out) session)
    (serve_idm c (Idm_GetCredentialInfoSync u ty out) session) [] (λ _ _, True).
Proof.
  unfold serve_idm, keep, GetCredentialInfoSync, ClearUnavailableCredential,
    UserIdmDatabase.ClearUnavailableCredential, wrap_credentials.
  repeat idm_step; try done; subst; exists u, ty; eauto.
Qed.

(** The answer that lets an enrollment run in the background. *)
Lemma wp_NeedSubscribe req text key t (Φ : bool → trace → Prop) :
  (∀ b t', extends (λ _, true) t t' →
    (b = false → granted c USER_AUTH_FROM_BACKGROUND t' ∨ answered t' (ParseJsonBool text key) (Some true)) → Φ b t') →
  wp (idm_guard c req session) (GetNeedSubscribeAppState c text key) t Φ.
Proof.
  intros HΦ. unfold GetNeedSubscribeAppState. apply wp_bind, wp_check; [intros ? ?; apply guard_kit|..]; intros t1 E1.
  all: assert (extends (λ _, true) t t1) as E1' by (destruct E1 as (w & -> & _); apply extends_app).
  - intros Hg. step; [|done]. step. apply HΦ; auto.
  - step; [done|]. step; [step; by apply HΦ|]. apply wp_bind, (wp_act _ _ _ (ParseJsonBool text key)); [done|]. intros [[]|] t2 E2 H2; step;
      (apply HΦ; [by eapply extends_trans|]); try done. intros _. by right.
Qed.

Lemma guard_enroll req para need t :
  cancelled_first t → (∀ t', extends silent t t' → idm_context c req t' (EnrollContext para need)) →
  wp (idm_guard c req session) (StartEnroll para need) t (λ _ _, True).
Proof. intros H1 H2. eapply wp_idm_start; [apply makes_Enroll|done|]. by intros ctx t' E ->; auto. Qed.

(** [AddCredential] for itself or for [UpdateCredential]. *)
Lemma guard_add req u para upd t :
  (∀ u, req ≠ Idm_Cancel u) →
  (∀ t' name type need, extends (λ _, true) t t' →
    (need = false → granted c USER_AUTH_FROM_BACKGROUND t' ∨
      answered t' (ParseJsonBool (ic_additionalInfo para) "isEnrollBackground") (Some true)) →
    idm_context c req t' (EnrollContext (mkEnroll u (ic_authType para) (ic_pinType para) upd (GetAccessTokenId c)
      (ic_token para) name INNER_API_VERSION_10000 type (ic_additionalInfo para)) need)) →
  wp (idm_guard c req session) (AddCredential c u para true upd) t (λ _ _, True).
Proof.
  intros Hreq Hctx. unfold AddCredential, with_callback. rewrite decide_True by done.
  apply wp_bind, (wp_act _ _ _ (MakeShared _)); [done|]. intros made t1 E1 _. step; [repeat idm_step; done|].
  apply wp_bind, wp_inert; [only_steps|]. intros [[found name] type] t2 E2. cbn beta iota.
  apply wp_bind, wp_check; [intros ? ?; apply guard_kit|..]; intros t3 E3; [intros _|]; [|repeat idm_step; done].
  step; [|done]. apply wp_bind, wp_CancelCurrent; [done|]. intros t4 E4 Hc. cbv zeta.
  apply wp_bind, wp_NeedSubscribe. intros need t5 E5 Hn. apply guard_enroll; [by eapply cancelled_extends|].
  intros t6 E6. apply Hctx.
  - destruct E1 as (?&->&_), E2 as (?&->&_), E3 as (?&->&_), E4 as (?&->&_), E5 as (?&->&_), E6 as (?&->&_).
    rewrite <- !app_assoc. apply extends_app.
  - intros Hneed. destruct (Hn Hneed) as [Hg|Ha]; [left; by eapply granted_extends|right; by eapply answered_extends].
Qed.

Lemma guard_AddCredential u para cb upd :
  wp (idm_guard c (Idm_AddCredential u para cb upd) session) (serve_idm c (Idm_AddCredential u para cb upd) session) []
    (λ _ _, True).
Proof.
  unfold serve_idm, keep. apply wp_bind. apply (wp_wand _ _ _ (λ _ _, True)); [|intros; by step]. destruct cb; [|by unfold AddCredential; repeat idm_step].
  apply guard_add; [done|]. intros t' name type need _ H. by split_and!.
Qed.

Lemma guard_UpdateCredential u para cb :
  wp (idm_guard c (Idm_UpdateCredential u para cb) session) (serve_idm c (Idm_UpdateCredential u para cb) session) []
    (λ _ _, True).
Proof.
  unfold serve_idm, keep. apply wp_bind. apply (wp_wand _ _ _ (λ _ _, True)); [|intros; by step]. destruct cb; [|by unfold UpdateCredential; repeat idm_step].
  unfold UpdateCredential, UserIdmDatabase.GetCredentialInfo, wrap_credentials. rewrite decide_True by done.
  do 2 apply wp_bind. apply (wp_act _ _ _ (EngGetCredential _ _)); [done|]. intros [r creds] t1 E1 H1. cbn beta iota.
  step; [|repeat idm_step; done]. subst r.
  apply wp_wrap_each; [intros ? ?; apply guard_kit|..]; [intros t2 E2|intros res t2 E2 _]; cbn beta iota.
  2: { rewrite decide_True by done. repeat idm_step; done. }
  step; [done|]. step; [repeat idm_step; done|]. apply guard_add; [done|].
  intros t' name type need E' H. split_and!; try done. exists creds. split; [|by intros ->].
  carry E2. by carry E'.
Qed.

Lemma guard_Cancel u :
  wp (idm_guard c (Idm_Cancel u) session) (serve_idm c (Idm_Cancel u) session) [] (λ _ _, True).
Proof.
  unfold serve_idm, keep, Cancel, cancel. repeat idm_step; try done.
  match goal with H : answered _ PoolSelectEnroll ?l |- _ => rename l into all, H into Hall end.
  apply (wp_wand _ _ _ (λ _ t, answered t PoolSelectEnroll all)); [|intros; by step].
  apply (wp_for_each _ _ (λ _ t, answered t PoolSelectEnroll all)); [|done]. intros ret [[id token]|] t Hin Hall'; [|by step]. step; [|by step]. subst. apply wp_bind, (wp_act _ _ _ (PoolCancel id)).
  { exists all, (GetAccessTokenId c). split_and!; try done. }
  intros _ t2 E2 _. step. by eapply answered_extends.
Qed.

Lemma guard_EnforceDelUser u cb :
  wp (idm_guard c (Idm_EnforceDelUser u cb) session) (serve_idm c (Idm_EnforceDelUser u cb) session) [] (λ _ _, True).
Proof.
  unfold serve_idm, keep, EnforceDelUser, with_callback, checked_caller, EnforceDelUserInner, DeleteUserEnforce,
    wrap_credentials.
  repeat idm_step; subst; try done. split; [done|by left].
Qed.

Lemma guard_DelCredential u id tok cb :
  wp (idm_guard c (Idm_DelCredential u id tok cb) session) (serve_idm c (Idm_DelCredential u id tok cb) session) []
    (λ _ _, True).
Proof.
  unfold serve_idm, keep, DelCredential, with_callback, checked_caller. repeat lazymatch goal with
  | |- wp _ (StartDelete _) _ _ => eapply wp_wand; [eapply wp_idm_start; [apply makes_Delete|done|]|intros]
  | |- _ => idm_step
  end; try done. intros ? ? ? ->. by subst.
Qed.

(** Every user that is deleted is redundant. *)
Lemma guard_clear_users accounts users name type t :
  cancelled_first t → answered t QueryAllCreatedOsAccounts (Some accounts) →
  answered t EngGetAllExtUserInfo (SUCCESS, users) →
  wp (idm_guard c (Idm_ClearRedundancyCredential true) session) (for_each (λ _ userId,
    callbackForTrace ← call (MakeShared "DummyContextCallback");
    WHEN callbackForTrace = false RETURN mret () ;;
    WHEN userId ∈ accounts RETURN mret () ;;
    EnforceDelUserInner userId (str "DeleteRedundancy") name type;;
    mret ()) () (map xu_userId users)) t (λ _ _, True).
Proof.
  intros H1 H2 H3.
  set (Inv := λ (_ : ()) t, cancelled_first t ∧ answered t QueryAllCreatedOsAccounts (Some accounts) ∧
    answered t EngGetAllExtUserInfo (SUCCESS, users)).
  eapply wp_wand; [apply (wp_for_each _ _ Inv); [|done]|done].
  intros [] userId t1 Hin (Hc & Ha & Hu). unfold EnforceDelUserInner, DeleteUserEnforce, wrap_credentials.
  repeat idm_step; try done; try (by split_and!).
  split; [done|]. right. split; [done|]. by exists accounts, users.
Qed.

Lemma guard_ClearRedundancy cb :
  wp (idm_guard c (Idm_ClearRedundancyCredential cb) session) (serve_idm c (Idm_ClearRedundancyCredential cb) session) []
    (λ _ _, True).
Proof.
  unfold serve_idm, keep, ClearRedundancyCredential, with_callback, checked_caller, ClearRedundancyCredentialInner,
    GetAllUserId, GetAllExtUserInfo.
  repeat idm_step; try done; subst; cbn [app];
    (eapply wp_wand; [apply guard_clear_users; done|]); intros [] t1 _; repeat idm_step; done.
Qed.

Lemma guard_inert req :
  only inert (serve_idm c req session) → wp (idm_guard c req session) (serve_idm c req session) [] (λ _ _, True).
Proof. intros H. by apply wp_inert. Qed.
End Requests.

(** C3: whatever the rest of the system answers, a request does what it asks
    for and no more. A session is opened, a user deleted and an enrollment or
    deletion started only after every running enrollment was cancelled; the
    context carries the user, the credential, the token and the caller of the
    request, an update needs an enrolled credential, and an enrollment may run
    in the background only with the permission or the mark in its parameters.
    [Cancel] stops enrollments of the caller only, [CloseSession] closes only
    his own session. By force only the named user is deleted, or, when
    redundant credentials are cleared, users without an account. *)
Theorem idm_acts_as_asked c req session (o : env answer) :
  guarded (idm_guard c req session) (run o (serve_idm c req session) []).2.
Proof.
  eapply wp_run_nil with (Φ := λ _ _, True). destruct req.
  - apply guard_OpenSession.
  - apply guard_CloseSession.
  - apply guard_GetCredentialInfo.
  - apply guard_GetCredentialInfoSync.
  - apply guard_inert. unfold serve_idm, keep, GetSecInfo, GetSecInfoInner. only_steps.
  - apply guard_inert. unfold serve_idm, keep, GetLatestEnrollmentTime. only_steps.
  - apply guard_AddCredential.
  - apply guard_UpdateCredential.
  - apply guard_Cancel.
  - apply guard_DeleteSubProfile.
  - apply guard_EnforceDelUser.
  - apply guard_DelUser.
  - apply guard_DelCredential.
  - apply guard_ClearRedundancy.
  - apply guard_inert. unfold serve_idm, keep, RegistCredChangeEventListener. only_steps.
  - apply guard_inert. unfold serve_idm, keep, UnRegistCredChangeEventListener. only_steps.
Qed.

(** ** After a deletion *)

(** What the listeners should hear: every credential but the abandoned PINs. *)
Definition deleted_notes (userId eventType : Z) (name : bytes) (type : TokenType) (creds : list CredentialInfoImpl) :
    list sys :=
  map (λ cred, OnNotifyCredChangeEvent userId (GetAuthType cred) eventType
    (mkCredChange name type 0 (GetCredentialId cred) false))
    (filter (λ cred, ¬ (GetAuthType cred = PIN ∧ GetAbandonFlag cred = true)) creds).

Definition is_note (q : sys) : bool :=
  match q with OnNotifyCredChangeEvent _ _ _ _ | ProcessUserDeleted _ | PublishDeletedEvent _ => true | _ => false end.
Definition notes (t : trace) : list sys := filter (λ q, is_note q = true) (map asked t).

(** The executors that were asked to delete a template. *)
Definition deletions (t : trace) : list (Z * Attributes) :=
  omap (λ q, match q with NodeSetProperty node p => Some (node, p) | _ => None end) (map asked t).

(** The nodes that were looked up, and what was found. *)
Definition lookup_of (e : event answer) : option (Z * option Z) :=
  match e with existT q r =>
    match q return answer q → option (Z * option Z) with SelectNode i => λ r, Some (i, r) | _ => λ _, None end r
  end.
Definition lookups (t : trace) : list (Z * option Z) := omap lookup_of t.

(** What the executors should be told: each to delete its template. *)
Definition expected_deletions (why : bytes) (creds : list CredentialInfoImpl) (nodes : list (option Z)) :
    list (Z * Attributes) :=
  omap (λ '(cred, node), (λ n, (n, delete_template (GetTemplateId cred) why)) <$> node) (zip creds nodes).

Lemma notes_app t u : notes (t ++ u) = notes t ++ notes u.
Proof. unfold notes. by rewrite map_app, filter_app. Qed.
Lemma deletions_app t u : deletions (t ++ u) = deletions t ++ deletions u.
Proof. unfold deletions. by rewrite map_app, omap_app. Qed.
Lemma lookups_app t u : lookups (t ++ u) = lookups t ++ lookups u.
Proof. apply omap_app. Qed.

(** What a step adds to the three views of a trace. *)
Definition adds (t t' : trace) (n : list sys) (d : list (Z * Attributes)) (l : list (Z * option Z)) : Prop :=
  notes t' = notes t ++ n ∧ deletions t' = deletions t ++ d ∧ lookups t' = lookups t ++ l.

Lemma adds_nil t : adds t t [] [] [].
Proof. unfold adds. by rewrite !app_nil_r. Qed.

Lemma adds_snoc t e : adds t (t ++ [e]) (notes [e]) (deletions [e]) (lookups [e]).
Proof. unfold adds. by rewrite notes_app, deletions_app, lookups_app. Qed.

Lemma adds_trans t1 t2 t3 n d l n' d' l' :
  adds t1 t2 n d l → adds t2 t3 n' d' l' → adds t1 t3 (n ++ n') (d ++ d') (l ++ l').
Proof. intros (E1 & E2 & E3) (F1 & F2 & F3). unfold adds. by rewrite F1, F2, F3, E1, E2, E3, !app_assoc. Qed.

Lemma adds_call q t (Φ : answer q → trace → Prop) :
  (∀ r t', adds t t' (notes [existT q r]) (deletions [existT q r]) (lookups [existT q r]) → Φ r t') →
  wp (λ _ _, True) (call q) t Φ.
Proof. intros H. apply (@wp_call _ answer _ q); [done|]. intros r. apply H, adds_snoc. Qed.

Lemma wp_Notify creds why t (Φ : Z → trace → Prop) :
  (∀ ret t' nodes, length nodes = length creds →
    adds t t' [] (expected_deletions why creds nodes) (zip (map GetExecutorIndex creds) nodes) → Φ ret t') →
  wp (λ _ _, True) (NotifyExecutorToDeleteTemplates creds why) t Φ.
Proof.
  intros HΦ. unfold NotifyExecutorToDeleteTemplates. step; [step; subst; apply (HΦ _ _ []); [done|apply adds_nil]|].
  apply wp_bind.
  assert (∀ creds t (Ψ : () → trace → Prop),
    (∀ t' nodes, length nodes = length creds →
      adds t t' [] (expected_deletions why creds nodes) (zip (map GetExecutorIndex creds) nodes) → Ψ () t') →
    wp (λ _ _, True) (for_each (λ _ info,
      resourceNode ← call (SelectNode (GetExecutorIndex info));
      match resourceNode with
      | None => mret ()
      | Some node => call (NodeSetProperty node (delete_template (GetTemplateId info) why));; mret ()
      end) () creds) t Ψ) as Hloop; [|apply Hloop; intros t' nodes Hl Ha; step; by eapply HΦ].
  clear. intros creds. induction creds as [|cred creds IH]; intros t Ψ HΨ; cbn [for_each].
  { step. apply (HΨ _ []); [done|apply adds_nil]. }
  do 2 apply wp_bind. apply (adds_call (SelectNode _)). intros [node|] t1 A1.
  - apply wp_bind. apply (adds_call (NodeSetProperty _ _)). intros r t2 A2. step. apply IH. intros t3 nodes Hl A3.
    apply (HΨ _ (Some node :: nodes)); [simpl; by rewrite Hl|].
    exact (adds_trans _ _ _ _ _ _ _ _ _ A1 (adds_trans _ _ _ _ _ _ _ _ _ A2 A3)).
  - step. apply IH. intros t3 nodes Hl A3. apply (HΨ _ (None :: nodes)); [simpl; by rewrite Hl|].
    exact (adds_trans _ _ _ _ _ _ _ _ _ A1 A3).
Qed.

Definition has_pin (creds : list CredentialInfoImpl) : bool :=
  existsb (λ cred, bool_decide (GetAuthType cred = PIN) && negb (GetAbandonFlag cred)) creds.

Lemma wp_notify_each creds u e name type b t (Φ : bool → trace → Prop) :
  (∀ t', adds t t' (deleted_notes u e name type creds) [] [] → Φ (b || has_pin creds) t') →
  wp (λ _ _, True) (for_each (notify_deleted u e name type) b creds) t Φ.
Proof.
  revert b t. induction creds as [|cred creds IH]; intros b t HΦ; cbn [for_each].
  { step. rewrite <- (orb_false_r b). apply HΦ, adds_nil. }
  apply wp_bind. unfold notify_deleted at 1. step.
  - step. apply IH. intros t1 A1. destruct a as [Hp Ha]. unfold deleted_notes, has_pin in *.
    cbn [existsb] in HΦ. rewrite Ha, andb_false_r in HΦ. apply HΦ. rewrite filter_cons_False by tauto. done.
  - apply wp_bind. apply (adds_call (OnNotifyCredChangeEvent _ _ _ _)). intros [] t1 A1. step. apply IH. intros t2 A2.
    replace ((b || bool_decide (GetAuthType cred = PIN)) || has_pin creds) with (b || has_pin (cred :: creds)).
    + apply HΦ. unfold deleted_notes in *. rewrite filter_cons_True by tauto. exact (adds_trans _ _ _ _ _ _ _ _ _ A1 A2).
    + cbn [has_pin existsb]. rewrite <- orb_assoc. f_equal. fold (has_pin creds). f_equal.
      case_bool_decide as Hp; [|done]. destruct (GetAbandonFlag cred); tauto.
Qed.

Definition post_processed (userId : Z) (creds : list CredentialInfoImpl) (why : bytes) (event : Z) (name : bytes)
    (type : TokenType) (t : trace) : Prop :=
  notes t = PublishDeletedEvent userId :: deleted_notes userId event name type creds ++
    (if has_pin creds then [ProcessUserDeleted userId] else []) ∧
  ∃ nodes, length nodes = length creds ∧ lookups t = zip (map GetExecutorIndex creds) nodes ∧
    deletions t = expected_deletions why creds nodes.

(** After the credentials of a user were deleted from the driver, the
    executor of each of them, in order, is looked up and, if it is there, told to
    delete the template; then the deletion of the user is published, the
    listeners hear of every credential in order except of abandoned PINs, and
    exactly if one of the others is a PIN the user's deletion is processed. *)
Theorem delete_post_process userId creds why event name type (o : env answer) :
  post_processed userId creds why event name type
    (run o (PostProcessForDelete userId creds why event name type) []).2.
Proof.
  apply (wp_run_nil (λ _ _, True) o _ (λ _ t, post_processed userId creds why event name type t)).
  unfold PostProcessForDelete, post_processed. apply wp_bind, wp_Notify. intros _ t1 nodes Hl A1.
  apply wp_bind, (adds_call (PublishDeletedEvent _)). intros [] t2 A2. pose proof (adds_trans _ _ _ _ _ _ _ _ _ A1 A2) as A12.
  apply wp_bind, wp_notify_each. intros t3 A3. pose proof (adds_trans _ _ _ _ _ _ _ _ _ A12 A3) as A13. simpl orb.
  destruct (has_pin creds).
  - apply (adds_call (ProcessUserDeleted _)). intros [] t4 A4.
    destruct (adds_trans _ _ _ _ _ _ _ _ _ A13 A4) as (N & D & L). cbn in N, D, L. rewrite !app_nil_r in *.
    split; [rewrite N; reflexivity|]. exists nodes. by split_and!.
  - step. destruct A13 as (N & D & L). cbn in N, D, L. rewrite !app_nil_r in *.
    split; [rewrite N; reflexivity|]. exists nodes. by split_and!.
Qed.
