(* ===== verification/Fsm.v ===== *)
(** * The finite state machine of the service

    Models services/base: [FiniteStateMachineBuilder] (the tables of a machine
    under construction) and [FiniteStateMachineImpl] (the running machine: a
    current state, a queue of pending events, and one task posted to the
    service thread for every scheduled event). Schedule nodes and widget
    schedule nodes are machines of this kind.

    [SafeQueue] belongs to the C utilities library: it is the class below, and
    the theorems use its documented first-in first-out behaviour only. A
    handler ([FiniteStateMachine::Action]) is a function of the owner's state
    and its argument that returns the owner's new state and the calls it made
    to the machine, in order; no handler of the framework reads the machine.
    [posted_] holds the machine's tasks in the service thread's queue. *)

From S2P Require Import Prelude.

(* @file B = src/services/base/src/finite_state_machine_builder.cpp *)
(* @file BH = src/services/base/src/finite_state_machine_builder.h *)
(* @file M = src/services/base/src/finite_state_machine_impl.cpp *)
(* @file H = src/services/base/src/finite_state_machine_impl.h *)

(** ** The event queue: an interface *)

Class SafeQueue (Q : Type) := {
  sq_empty : Q;
  sq_push : Q → Z → Q;
  sq_pop : Q → option (Z * Q);       (** [Pop] returns [false] on an empty queue *)
}.

Class SafeQueueLaws (Q : Type) `{SafeQueue Q} := {
  sq_items : Q → list Z;
  sq_items_empty : sq_items sq_empty = [];
  sq_items_push q e : sq_items (sq_push q e) = sq_items q ++ [e];
  sq_items_pop q :
    match sq_pop q with
    | Some (e, q') => sq_items q = e :: sq_items q'
    | None => sq_items q = []
    end;
}.

(** The reference queue. *)
#[export] Instance list_queue : SafeQueue (list Z) := {
  sq_empty := [];
  sq_push q e := q ++ [e];
  sq_pop q := match q with [] => None | e :: q => Some (e, q) end;
}.

#[export] Program Instance list_queue_laws : SafeQueueLaws (list Z) := { sq_items q := q }.
Next Obligation. done. Qed.
Next Obligation. done. Qed.
Next Obligation. by intros []. Qed.

(** ** Data *)

(** A call of a handler to the machine: [Inner::Schedule] on its argument, or
    [Schedule] on the machine itself. *)
Inductive kick :=
  | Inner (event : Z)
  | Outer (event : Z).

(** [std::function] may be empty. *)
Abbreviation Action S := (option (S → Z → S * list kick)).

(* @src H:42-44 FiniteStateMachineImpl::TransitionMap *)
Record FsmTable (S : Type) := mkTable {
  transitionMap_ : gmap Z (Z * Action S);
  enterMap_ : gmap Z (Action S);
  leaveMap_ : gmap Z (Action S);
}.
Arguments mkTable {S} _ _ _.
Arguments transitionMap_ {S} _.
Arguments enterMap_ {S} _.
Arguments leaveMap_ {S} _.

(** [ownerLifetime_] names the attached owner, if any; [threadHandler_] tells
    whether the pointer is set. *)
(* @src H:68-78 FiniteStateMachineImpl *)
Record Fsm (Q : Type) := mkFsm {
  currentState_ : Z;
  pendingEvents_ : Q;
  threadHandler_ : bool;
  ownerLifetime_ : option Z;
  posted_ : list (option Z);
}.
Arguments mkFsm {Q} _ _ _ _ _.
Arguments currentState_ {Q} _.
Arguments pendingEvents_ {Q} _.
Arguments threadHandler_ {Q} _.
Arguments ownerLifetime_ {Q} _.
Arguments posted_ {Q} _.

(* @src H:60-64 FiniteStateMachineImpl::GetTransitionIndex *)
Definition GetTransitionIndex (state event : Z) : Z :=
  Z.lor (wrapU 64 (Z.shiftl state 32)) event.

(* @src H:59-59 MAX_SCHEDULE_TIMES *)
Definition MAX_SCHEDULE_TIMES : nat := 100.

(** ** The machine *)

Section Machine.
Context {Q : Type} `{SafeQueue Q} {S : Type}.
Implicit Types (m : Fsm Q) (tbl : FsmTable S) (s : S).

(* @src M:52-79 FiniteStateMachineImpl::Schedule *)
Definition Schedule m (event : Z) : Fsm Q :=
  CHECK threadHandler_ m = true ELSE m ;;
  mkFsm (currentState_ m) (sq_push (pendingEvents_ m) event) (threadHandler_ m)
    (ownerLifetime_ m) (posted_ m ++ [ownerLifetime_ m]).

(* @src M FiniteStateMachineImpl::Inner::Schedule *)
Definition Inner_Schedule m (event : Z) : Fsm Q :=
  mkFsm (currentState_ m) (sq_push (pendingEvents_ m) event) (threadHandler_ m)
    (ownerLifetime_ m) (posted_ m).

(* @src M FiniteStateMachineImpl::AttachOwnerLifetime *)
Definition AttachOwnerLifetime m (owner : Z) : Fsm Q :=
  mkFsm (currentState_ m) (pendingEvents_ m) (threadHandler_ m) (Some owner) (posted_ m).

(* @src M FiniteStateMachineImpl::SetThreadHandler *)
Definition SetThreadHandler m (threadHandler : bool) : Fsm Q :=
  mkFsm (currentState_ m) (pendingEvents_ m) threadHandler (ownerLifetime_ m) (posted_ m).

(* @src M FiniteStateMachineImpl::GetCurrentState *)
Definition GetCurrentState m : Z := currentState_ m.

Definition set_state m (state : Z) : Fsm Q :=
  mkFsm state (pendingEvents_ m) (threadHandler_ m) (ownerLifetime_ m) (posted_ m).

Definition set_pending m (q : Q) : Fsm Q :=
  mkFsm (currentState_ m) q (threadHandler_ m) (ownerLifetime_ m) (posted_ m).

Definition set_posted m (tasks : list (option Z)) : Fsm Q :=
  mkFsm (currentState_ m) (pendingEvents_ m) (threadHandler_ m) (ownerLifetime_ m) tasks.

Definition apply_kick m (k : kick) : Fsm Q :=
  match k with Inner e => Inner_Schedule m e | Outer e => Schedule m e end.

(** [if (invoker) { invoker(machine, arg); }] *)
Definition invoke (invoker : Action S) m s (arg : Z) : Fsm Q * S :=
  match invoker with
  | None => (m, s)
  | Some f => let '(s, ks) := f s arg in (foldl apply_kick m ks, s)
  end.

Definition invoke_found (found : option (Action S)) m s (arg : Z) : Fsm Q * S :=
  match found with None => (m, s) | Some invoker => invoke invoker m s arg end.

(* @src M FiniteStateMachineImpl::DealWithStateLeaveAndEnter *)
Definition DealWithStateLeaveAndEnter tbl m s (oldState newState : Z) : Fsm Q * S :=
  WHEN oldState = newState RETURN (m, s) ;;
  let '(m, s) := invoke_found (leaveMap_ tbl !! oldState) m s oldState in
  invoke_found (enterMap_ tbl !! newState) m s newState.

(** What one round logs: the old state, the event and the new state. *)
Definition round : Type := Z * Z * Z.

(** The body of the loop on a popped event. *)
(* @src M:92-107 FiniteStateMachineImpl::ScheduleInner *)
Definition schedule_event tbl m s (event : Z) : Fsm Q * S * round :=
  let oldState := currentState_ m in
  match transitionMap_ tbl !! GetTransitionIndex oldState event with
  | None =>
      let '(m, s) := DealWithStateLeaveAndEnter tbl m s oldState oldState in
      (m, s, (oldState, event, oldState))
  | Some (newState, invoker) =>
      let '(m, s) := invoke invoker m s event in
      let '(m, s) := DealWithStateLeaveAndEnter tbl (set_state m newState) s oldState newState in
      (m, s, (oldState, event, newState))
  end.

Fixpoint schedule_loop (times : nat) tbl m s : Fsm Q * S * list round :=
  match times with
  | O => (m, s, [])
  | Datatypes.S times =>
    match sq_pop (pendingEvents_ m) with
    | None => (m, s, [])
    | Some (event, q) =>
      let '(m, s, r) := schedule_event tbl (set_pending m q) s event in
      let '(m, s, rs) := schedule_loop times tbl m s in
      (m, s, r :: rs)
    end
  end.

(* @src M FiniteStateMachineImpl::ScheduleInner *)
Definition ScheduleInner tbl m s : Fsm Q * S * list round :=
  schedule_loop MAX_SCHEDULE_TIMES tbl m s.

(** The task that [Schedule] posted first: it drops the event when the owner
    attached at posting time is gone. *)
(* @src M:65-78 FiniteStateMachineImpl::Schedule *)
Definition run_posted (alive : Z → bool) tbl m s : Fsm Q * S * list round :=
  match posted_ m with
  | [] => (m, s, [])
  | owner :: tasks =>
    let m := set_posted m tasks in
    match owner with
    | Some o => CHECK alive o = true ELSE (m, s, []) ;; ScheduleInner tbl m s
    | None => ScheduleInner tbl m s
    end
  end.
End Machine.

(** ** The builder *)

(* @src BH:45-50 FiniteStateMachineBuilder *)
Record Builder (S : Type) := mkBuilder {
  initstate_ : Z;
  valid_ : bool;
  tables_ : FsmTable S;
}.
Arguments mkBuilder {S} _ _ _.
Arguments initstate_ {S} _.
Arguments valid_ {S} _.
Arguments tables_ {S} _.

Section Build.
Context {S : Type}.
Implicit Types (b : Builder S).

(* @src B FiniteStateMachineBuilder::FiniteStateMachineBuilder *)
Definition Builder_New (initialState : Z) : Builder S :=
  mkBuilder initialState true (mkTable ∅ ∅ ∅).

(** [try_emplace]: the map and whether the key was new. *)
Definition try_emplace {V} (key : Z) (v : V) (map : gmap Z V) : gmap Z V * bool :=
  match map !! key with
  | Some _ => (map, false)
  | None => (<[key := v]> map, true)
  end.

(* @src B:42-51 FiniteStateMachineBuilder::MakeTransition *)
Definition MakeTransition b (state event nextState : Z) (action : Action S) : Builder S :=
  let t := tables_ b in
  let '(map, inserted) :=
    try_emplace (GetTransitionIndex state event) (nextState, action) (transitionMap_ t) in
  mkBuilder (initstate_ b) (if inserted then valid_ b else false)
    (mkTable map (enterMap_ t) (leaveMap_ t)).

(* @src B:60-69 FiniteStateMachineBuilder::MakeOnStateEnter *)
Definition MakeOnStateEnter b (state : Z) (action : Action S) : Builder S :=
  let t := tables_ b in
  let '(map, inserted) := try_emplace state action (enterMap_ t) in
  mkBuilder (initstate_ b) (if inserted then valid_ b else false)
    (mkTable (transitionMap_ t) map (leaveMap_ t)).

(* @src B:71-80 FiniteStateMachineBuilder::MakeOnStateLeave *)
Definition MakeOnStateLeave b (state : Z) (action : Action S) : Builder S :=
  let t := tables_ b in
  let '(map, inserted) := try_emplace state action (leaveMap_ t) in
  mkBuilder (initstate_ b) (if inserted then valid_ b else false)
    (mkTable (transitionMap_ t) (enterMap_ t) map).

(* @src M:28-38 FiniteStateMachineImpl::FiniteStateMachineImpl *)
Definition Fsm_new {Q} `{SafeQueue Q} (initialState : Z) : Fsm Q :=
  mkFsm initialState sq_empty true None [].

(** The machine and its tables, or a null pointer; the builder's maps were
    moved from and it is used up. *)
(* @src B:82-90 FiniteStateMachineBuilder::Build *)
Definition Build {Q} `{SafeQueue Q} b : Builder S * option (Fsm Q * FsmTable S) :=
  CHECK valid_ b = true ELSE (b, None) ;;
  (mkBuilder (initstate_ b) false (mkTable ∅ ∅ ∅), Some (Fsm_new (initstate_ b), tables_ b)).
End Build.

(** * Properties *)

(** ** Transition keys *)

Lemma GetTransitionIndex_eq state event :
  in_u 32 state → in_u 32 event → GetTransitionIndex state event = state * 2 ^ 32 + event.
Proof.
  unfold GetTransitionIndex, in_u. intros Hs He.
  rewrite Z.shiftl_mul_pow2, wrapU_id by (unfold in_u; lia).
  symmetry. apply Z.add_nocarry_lor. apply Z.bits_inj'. intros n Hn.
  rewrite Z.land_spec, Z.bits_0. destruct (decide (n < 32)).
  - by rewrite Z.mul_pow2_bits_low by lia.
  - rewrite <- (Z.mod_small event (2 ^ 32)), Z.mod_pow2_bits_high by lia. apply andb_false_r.
Qed.

Lemma GetTransitionIndex_inj s1 e1 s2 e2 :
  in_u 32 s1 → in_u 32 e1 → in_u 32 s2 → in_u 32 e2 →
  GetTransitionIndex s1 e1 = GetTransitionIndex s2 e2 → s1 = s2 ∧ e1 = e2.
Proof. intros. rewrite !GetTransitionIndex_eq in * by done. unfold in_u in *. lia. Qed.

(** ** A machine over any queue refines the machine over lists *)

Section Refinement.
Context {Q : Type} `{SafeQueueLaws Q} {S : Type}.
Implicit Types (m : Fsm Q) (tbl : FsmTable S) (s : S).

(** The abstraction: the queue as the list of its events. *)
Definition fsm_abs m : Fsm (list Z) :=
  mkFsm (currentState_ m) (sq_items (pendingEvents_ m)) (threadHandler_ m)
    (ownerLifetime_ m) (posted_ m).

Lemma abs_Schedule m e : fsm_abs (Schedule m e) = Schedule (fsm_abs m) e.
Proof.
  unfold Schedule. destruct m as [c q [] o p]; simpl; [|done].
  unfold fsm_abs. simpl. by rewrite sq_items_push.
Qed.

Lemma abs_Inner m e : fsm_abs (Inner_Schedule m e) = Inner_Schedule (fsm_abs m) e.
Proof. unfold fsm_abs, Inner_Schedule. simpl. by rewrite sq_items_push. Qed.

Lemma abs_kicks ks m : fsm_abs (foldl apply_kick m ks) = foldl apply_kick (fsm_abs m) ks.
Proof.
  revert m. induction ks as [|[e|e] ks IH]; intros m; simpl; [done| |];
    rewrite IH; by rewrite ?abs_Inner, ?abs_Schedule.
Qed.

Definition abs_result (r : Fsm Q * S) : Fsm (list Z) * S := (fsm_abs r.1, r.2).

Lemma abs_invoke act m s arg : invoke act (fsm_abs m) s arg = abs_result (invoke act m s arg).
Proof.
  destruct act as [f|]; simpl; [|done]. destruct (f s arg). unfold abs_result. simpl.
  by rewrite abs_kicks.
Qed.

Lemma abs_invoke_found found m s arg :
  invoke_found found (fsm_abs m) s arg = abs_result (invoke_found found m s arg).
Proof. destruct found; simpl; [apply abs_invoke|done]. Qed.

Lemma abs_leave_enter tbl m s old new :
  DealWithStateLeaveAndEnter tbl (fsm_abs m) s old new =
  abs_result (DealWithStateLeaveAndEnter tbl m s old new).
Proof.
  unfold DealWithStateLeaveAndEnter. case_decide; [done|].
  rewrite abs_invoke_found. destruct (invoke_found _ m s old) as [m1 s1].
  unfold abs_result at 1. simpl. apply abs_invoke_found.
Qed.

Lemma abs_schedule_event tbl m s e :
  schedule_event tbl (fsm_abs m) s e =
  let '(m', s', r) := schedule_event tbl m s e in (fsm_abs m', s', r).
Proof.
  unfold schedule_event. simpl (currentState_ (fsm_abs m)).
  destruct (transitionMap_ tbl !! _) as [[new act]|].
  - rewrite abs_invoke. destruct (invoke act m s e) as [m1 s1]. unfold abs_result. simpl.
    change (set_state (fsm_abs m1) new) with (fsm_abs (set_state m1 new)).
    rewrite abs_leave_enter. by destruct (DealWithStateLeaveAndEnter _ _ _ _ _).
  - rewrite abs_leave_enter. by destruct (DealWithStateLeaveAndEnter _ _ _ _ _).
Qed.

Lemma abs_schedule_loop n tbl m s :
  schedule_loop n tbl (fsm_abs m) s =
  let '(m', s', rs) := schedule_loop n tbl m s in (fsm_abs m', s', rs).
Proof.
  revert m s. induction n as [|n IH]; intros m s; simpl; [done|].
  pose proof (sq_items_pop (pendingEvents_ m)) as Hp.
  destruct (sq_pop (pendingEvents_ m)) as [[e q]|]; rewrite Hp; [|done].
  change (set_pending (fsm_abs m) (sq_items q)) with (fsm_abs (set_pending m q)).
  rewrite abs_schedule_event. destruct (schedule_event tbl _ s e) as [[m1 s1] r].
  rewrite IH. by destruct (schedule_loop n tbl m1 s1) as [[m2 s2] rs].
Qed.
End Refinement.

(** ** Rounds *)

Section Rounds.
Context {S : Type}.
Implicit Types (m : Fsm (list Z)) (tbl : FsmTable S) (s : S).

(** The state the table prescribes for an event. *)
Definition next_state tbl (state event : Z) : Z :=
  match transitionMap_ tbl !! GetTransitionIndex state event with
  | Some (new, _) => new
  | None => state
  end.

(** A sequence of rounds that follows the table from one state to another. *)
Fixpoint follows tbl (state : Z) (rs : list round) (final : Z) : Prop :=
  match rs with
  | [] => state = final
  | (old, event, new) :: rs =>
      old = state ∧ new = next_state tbl state event ∧ follows tbl new rs final
  end.

(** The events the rounds consumed, in order. *)
Definition events_of (rs : list round) : list Z := map (λ r, r.1.2) rs.
#[local] Arguments events_of : simpl never.

(** What handlers can do to a machine: append events and post tasks. *)
Definition extends m m' : Prop :=
  currentState_ m' = currentState_ m ∧ threadHandler_ m' = threadHandler_ m ∧
  ownerLifetime_ m' = ownerLifetime_ m ∧
  ∃ gen, pendingEvents_ m' = pendingEvents_ m ++ gen.

#[export] Instance extends_refl : Reflexive extends.
Proof. intros m. split_and!; try done. exists []. by rewrite app_nil_r. Qed.

#[export] Instance extends_trans : Transitive extends.
Proof.
  intros m1 m2 m3 (H1 & H2 & H3 & g1 & Hg1) (H4 & H5 & H6 & g2 & Hg2).
  split_and!; try congruence. exists (g1 ++ g2). by rewrite Hg2, Hg1, app_assoc.
Qed.

Lemma extends_kicks ks m : extends m (foldl apply_kick m ks).
Proof.
  revert m. induction ks as [|k ks IH]; intros m; simpl; [done|].
  etrans; [|apply IH]. destruct k as [e|e]; simpl.
  - split_and!; try done. by exists [e].
  - unfold Schedule. case_decide; [|done]. split_and!; try done. by exists [e].
Qed.

Lemma extends_invoke act m s arg : extends m (invoke act m s arg).1.
Proof. destruct act as [f|]; simpl; [|done]. destruct (f s arg). apply extends_kicks. Qed.

Lemma extends_invoke_found found m s arg : extends m (invoke_found found m s arg).1.
Proof. destruct found; [apply extends_invoke|done]. Qed.

Lemma extends_leave_enter tbl m s old new :
  extends m (DealWithStateLeaveAndEnter tbl m s old new).1.
Proof.
  unfold DealWithStateLeaveAndEnter. case_decide; [done|].
  destruct (invoke_found (leaveMap_ tbl !! old) m s old) as [m1 s1] eqn:E1.
  pose proof (extends_invoke_found (leaveMap_ tbl !! old) m s old) as H1. rewrite E1 in H1.
  etrans; [exact H1|]. apply extends_invoke_found.
Qed.

Lemma schedule_event_spec tbl m s e m' s' r :
  schedule_event tbl m s e = (m', s', r) →
  r = (currentState_ m, e, next_state tbl (currentState_ m) e) ∧
  extends (set_state m (next_state tbl (currentState_ m) e)) m'.
Proof.
  unfold schedule_event, next_state.
  destruct (transitionMap_ tbl !! _) as [[new act]|].
  - destruct (invoke act m s e) as [m1 s1] eqn:E1.
    pose proof (extends_invoke act m s e) as H1. rewrite E1 in H1. simpl in H1.
    destruct (DealWithStateLeaveAndEnter tbl (set_state m1 new) s1 (currentState_ m) new)
      as [m2 s2] eqn:E2.
    pose proof (extends_leave_enter tbl (set_state m1 new) s1 (currentState_ m) new) as H2.
    rewrite E2 in H2. intros [= <- <- <-]. split; [done|]. etrans; [|exact H2].
    destruct H1 as (? & ? & ? & ? & ?). split_and!; simpl; eauto.
  - unfold DealWithStateLeaveAndEnter. rewrite decide_True by done.
    intros [= <- <- <-]. split; [done|]. by destruct m.
Qed.

Lemma schedule_loop_spec n tbl m s m' s' rs :
  schedule_loop n tbl m s = (m', s', rs) →
  follows tbl (currentState_ m) rs (currentState_ m') ∧
  threadHandler_ m' = threadHandler_ m ∧ ownerLifetime_ m' = ownerLifetime_ m ∧
  (length rs ≤ n)%nat ∧ ((length rs < n)%nat → pendingEvents_ m' = []) ∧
  ∃ gen, events_of rs ++ pendingEvents_ m' = pendingEvents_ m ++ gen.
Proof.
  revert m s rs. induction n as [|n IH]; intros m s rs; simpl.
  { intros [= <- <- <-]. split_and!; try done; [simpl; lia|]. exists []. by rewrite app_nil_r. }
  destruct m as [c [|e q] th o p]; simpl.
  { intros [= <- <- <-]. split_and!; try done; [simpl; lia|]. by exists []. }
  destruct (schedule_event tbl _ s e) as [[m1 s1] r] eqn:E1.
  destruct (schedule_loop n tbl m1 s1) as [[m2 s2] rs2] eqn:E2.
  intros [= <- <- <-]. apply schedule_event_spec in E1 as (-> & Hc & Ht & Ho & gen & Hg).
  apply IH in E2 as (Hf & Ht2 & Ho2 & Hle & Hlt & gen2 & Hg2). simpl in *. split_and!.
  - done.
  - done.
  - by rewrite <- Hc.
  - congruence.
  - congruence.
  - lia.
  - intros. apply Hlt. lia.
  - exists (gen ++ gen2). by rewrite Hg2, Hg, <- app_assoc.
Qed.
End Rounds.

(** ** Builders *)

Section Builders.
Context {S : Type}.

(** A call to the builder. *)
Inductive build_op :=
  | MkTransition (state event nextState : Z) (action : Action S)
  | MkEnter (state : Z) (action : Action S)
  | MkLeave (state : Z) (action : Action S).

Definition build_step (b : Builder S) (op : build_op) : Builder S :=
  match op with
  | MkTransition s e n a => MakeTransition b s e n a
  | MkEnter s a => MakeOnStateEnter b s a
  | MkLeave s a => MakeOnStateLeave b s a
  end.

Definition transitions (ops : list build_op) : list (Z * Z * (Z * Action S)) :=
  omap (λ op, match op with MkTransition s e n a => Some (s, e, (n, a)) | _ => None end) ops.
Definition enters (ops : list build_op) : list (Z * Action S) :=
  omap (λ op, match op with MkEnter s a => Some (s, a) | _ => None end) ops.
Definition leaves (ops : list build_op) : list (Z * Action S) :=
  omap (λ op, match op with MkLeave s a => Some (s, a) | _ => None end) ops.

Definition op_in_range (op : build_op) : Prop :=
  match op with MkTransition s e _ _ => in_u 32 s ∧ in_u 32 e | _ => True end.

(** [map] holds the entries of [l], all with different keys, exactly when
    every insertion found its key free. *)
Definition holds {K V} (key : K → Z) (l : list (K * V)) (map : gmap Z V) (ok : bool) : Prop :=
  (ok = true ↔ NoDup (key <$> l.*1)) ∧
  (∀ k v, map !! k = Some v → ∃ x, (x, v) ∈ l ∧ key x = k) ∧
  (∀ x v, (x, v) ∈ l → is_Some (map !! key x)).

Lemma holds_emplace {K V} (key : K → Z) (l : list (K * V)) map ok x v :
  holds key l map ok →
  let '(map', inserted) := try_emplace (key x) v map in
  holds key (l ++ [(x, v)]) map' (if inserted then ok else false).
Proof.
  intros (Hok & Hin & Hall). unfold try_emplace.
  assert (key <$> (l ++ [(x, v)]).*1 = (key <$> l.*1) ++ [key x]) as E
    by (by rewrite fmap_app, fmap_app).
  assert (is_Some (map !! key x) ↔ key x ∈ (key <$> l.*1)) as Hk.
  { split.
    - intros [w Hw]. destruct (Hin _ _ Hw) as (y & Hy & <-).
      by apply list_elem_of_fmap_2, (list_elem_of_fmap_2 fst _ _ Hy).
    - intros (y & -> & Hy)%list_elem_of_fmap. apply list_elem_of_fmap in Hy as ([z w] & -> & Hz).
      by apply (Hall z w). }
  destruct (map !! key x) as [w|] eqn:Hx; unfold holds; rewrite E; split_and!.
  - split; [done|]. intros (_ & Hd & _)%NoDup_app. exfalso. apply (Hd (key x)); [|set_solver].
    apply Hk. by eexists.
  - intros k u Hu. destruct (Hin _ _ Hu) as (y & Hy & <-). exists y. set_solver.
  - intros y u [Hy|Hy%list_elem_of_singleton]%elem_of_app; [by apply (Hall y u)|].
    injection Hy as -> ->. by eexists.
  - rewrite Hok, NoDup_app. split; [|by intros (? & _)]. intros Hnd. split_and!; [done| |].
    + intros k Hk1 ->%list_elem_of_singleton. apply Hk in Hk1 as [? ?]. done.
    + apply NoDup_singleton.
  - intros k u. destruct (decide (key x = k)) as [<-|Hne].
    + rewrite lookup_insert_eq. intros [= ->]. exists x. set_solver.
    + rewrite lookup_insert_ne by done. intros Hu. destruct (Hin _ _ Hu) as (y & Hy & <-).
      exists y. set_solver.
  - intros y u Hy. destruct (decide (key x = key y)) as [->|Hne].
    + rewrite lookup_insert_eq. by eexists.
    + rewrite lookup_insert_ne by done.
      apply elem_of_app in Hy as [Hy|Hy%list_elem_of_singleton]; [by apply (Hall y u)|].
      injection Hy as -> ->. done.
Qed.

Lemma holds_lookup {K V} (key : K → Z) (l : list (K * V)) map x v :
  holds key l map true → (x, v) ∈ l → map !! key x = Some v.
Proof.
  intros (Hok & Hin & Hall) Hx. destruct (Hall _ _ Hx) as [w Hw]. rewrite Hw.
  destruct (Hin _ _ Hw) as (y & Hy & Hkey).
  assert (NoDup (key <$> l.*1)) as Hnd by (by apply Hok).
  apply list_elem_of_lookup in Hx as [i Hi], Hy as [j Hj].
  assert (i = j) as ->.
  { apply (NoDup_lookup _ _ _ (key x) Hnd); rewrite !list_lookup_fmap.
    - by rewrite Hi.
    - rewrite Hj. simpl. by rewrite Hkey. }
  congruence.
Qed.

Definition index (x : Z * Z) : Z := GetTransitionIndex x.1 x.2.

Definition build_ops (initialState : Z) (ops : list (build_op)) : Builder S :=
  foldl build_step (Builder_New initialState) ops.

Lemma build_ops_holds init ops :
  let b := build_ops init ops in
  initstate_ b = init ∧
  ∃ okt oke okl, valid_ b = okt && oke && okl ∧
    holds index (transitions ops) (transitionMap_ (tables_ b)) okt ∧
    holds id (enters ops) (enterMap_ (tables_ b)) oke ∧
    holds id (leaves ops) (leaveMap_ (tables_ b)) okl.
Proof.
  induction ops as [|op ops IH] using rev_ind.
  { split; [done|]. exists true, true, true. split; [done|].
    split_and!; (split; [split; [intros _; constructor|done]|]);
      (split; [intros k v; simpl; by rewrite lookup_empty|]);
      intros x v Hx; by apply not_elem_of_nil in Hx. }
  unfold build_ops, transitions, enters, leaves in *. rewrite foldl_snoc, !omap_app.
  destruct IH as (Hi & okt & oke & okl & Hv & Ht & He & Hl).
  destruct (foldl build_step _ ops) as [i v [mt me ml]]; simpl in *; subst.
  destruct op as [s e n a|s a|s a]; simpl; rewrite ?app_nil_r.
  - pose proof (holds_emplace index _ _ _ (s, e) (n, a) Ht) as H. unfold MakeTransition. simpl.
    change (index (s, e)) with (GetTransitionIndex s e) in H.
    destruct (try_emplace _ _ mt) as [mt' ins]. split; [done|].
    exists (if ins then okt else false), oke, okl. by destruct ins.
  - pose proof (holds_emplace id _ _ _ s a He) as H. unfold MakeOnStateEnter, id in *. simpl.
    destruct (try_emplace _ _ me) as [me' ins]. split; [done|].
    exists okt, (if ins then oke else false), okl.
    destruct ins; [done|]. by rewrite andb_false_r.
  - pose proof (holds_emplace id _ _ _ s a Hl) as H. unfold MakeOnStateLeave, id in *. simpl.
    destruct (try_emplace _ _ ml) as [ml' ins]. split; [done|].
    exists okt, oke, (if ins then okl else false).
    destruct ins; [done|]. by rewrite !andb_false_r.
Qed.

Lemma NoDup_index ops :
  Forall op_in_range ops → (NoDup (index <$> (transitions ops).*1) ↔ NoDup (transitions ops).*1).
Proof.
  intros Hr. split; [apply NoDup_fmap_1|].
  assert (Forall (λ x, in_u 32 x.1 ∧ in_u 32 x.2) (transitions ops).*1) as Hf.
  { induction Hr as [|op ops Hop Hr IH]; [constructor|].
    destruct op; simpl; try done. constructor; done. }
  intros Hnd. induction Hnd as [|x l Hx Hnd IH]; [constructor|].
  apply Forall_cons in Hf as [Hx1 Hf]. rewrite fmap_cons. constructor; [|by apply IH].
  intros (y & Hy & Hin)%list_elem_of_fmap. rewrite Forall_forall in Hf. specialize (Hf y Hin).
  destruct x as [s1 e1], y as [s2 e2]. unfold index in Hy. simpl in *.
  apply GetTransitionIndex_inj in Hy as [-> ->]; naive_solver.
Qed.
End Builders.
Arguments build_op S : clear implicits.

(** ** The properties *)

(** The machine's behaviour depends on its queue only through the queue's
    first-in first-out laws. A machine over any lawful queue takes exactly the
    steps of the machine over a plain list of events: scheduling an event and
    running a posted task commute with the abstraction, with the same owner
    state and the same rounds. *)
Theorem machine_refines_list {Q S} `{SafeQueueLaws Q} (alive : Z → bool) (tbl : FsmTable S)
    (m : Fsm Q) (s : S) (e : Z) :
  fsm_abs (Schedule m e) = Schedule (fsm_abs m) e ∧
  run_posted alive tbl (fsm_abs m) s =
    (let '(m', s', rs) := run_posted alive tbl m s in (fsm_abs m', s', rs)).
Proof.
  split; [apply abs_Schedule|]. unfold run_posted. simpl (posted_ (fsm_abs m)).
  destruct (posted_ m) as [|[o|] tasks]; [done| |].
  - change (set_posted (fsm_abs m) tasks) with (fsm_abs (set_posted m tasks)).
    destruct (decide (alive o = true)); [apply abs_schedule_loop|done].
  - change (set_posted (fsm_abs m) tasks) with (fsm_abs (set_posted m tasks)).
    apply abs_schedule_loop.
Qed.

(** A queue made of two stacks: another lawful queue. *)
#[export] Instance two_stacks : SafeQueue (list Z * list Z) := {
  sq_empty := ([], []);
  sq_push q e := (q.1, e :: q.2);
  sq_pop q :=
    match q.1 ++ rev q.2 with [] => None | e :: f => Some (e, (f, [])) end;
}.

#[export] Program Instance two_stacks_laws : SafeQueueLaws (list Z * list Z) :=
  { sq_items q := q.1 ++ rev q.2 }.
Next Obligation. done. Qed.
Next Obligation. intros [f b] e. simpl. by rewrite app_assoc. Qed.
Next Obligation. intros [f b]. simpl. destruct (f ++ rev b); [done|]. simpl. by rewrite app_nil_r. Qed.

(** A two-state machine whose only handler counts and schedules again. *)
Definition ping_table : FsmTable nat :=
  mkTable (<[GetTransitionIndex 0 5 := (1, Some (λ n _, (Datatypes.S n, [Inner 6])))]>
           (<[GetTransitionIndex 1 6 := (0, None)]> ∅)) ∅ ∅.

Lemma machine_refines_list_witness :
  let m := Schedule (Fsm_new (Q := list Z * list Z) 0) 5 in
  run_posted (λ _, true) ping_table (fsm_abs m) 0%nat =
  (mkFsm 0 [] true None [], 1%nat, [(0, 5, 1); (1, 6, 0)]).
Proof.
  destruct (machine_refines_list (λ _, true) ping_table
    (Schedule (Fsm_new (Q := list Z * list Z) 0) 5) 0%nat 0) as [_ H].
  cbv zeta. rewrite H. vm_compute. reflexivity.
Defined.



(** The builder's contract. [Build] returns a machine exactly when no
    (state, event) pair, entered state or left state was given twice, in any
    order of calls; the machine starts in the initial state and its tables
    hold exactly the given transitions and actions (keys of distinct pairs
    never collide); and a builder builds at most once. *)
Theorem builder_correct {S} (init : Z) (ops : list (build_op S)) :
  Forall op_in_range ops →
  let b := build_ops init ops in
  let unique := NoDup (transitions ops).*1 ∧ NoDup (enters ops).*1 ∧ NoDup (leaves ops).*1 in
  (Build (Q := list Z) (Build (Q := list Z) b).1).2 = None ∧
  match (Build (Q := list Z) b).2 with
  | None => ¬ unique
  | Some (m, tbl) =>
      unique ∧ currentState_ m = init ∧ pendingEvents_ m = [] ∧
      (∀ st e n a, in_u 32 st → in_u 32 e →
        transitionMap_ tbl !! GetTransitionIndex st e = Some (n, a) ↔ ((st, e), (n, a)) ∈ transitions ops) ∧
      (∀ st a, enterMap_ tbl !! st = Some a ↔ (st, a) ∈ enters ops) ∧
      (∀ st a, leaveMap_ tbl !! st = Some a ↔ (st, a) ∈ leaves ops)
  end.
Proof.
  intros Hr b unique.
  destruct (build_ops_holds init ops) as (Hi & okt & oke & okl & Hv & Ht & He & Hl).
  fold b in Hi, Hv, Ht, He, Hl.
  assert (unique ↔ okt = true ∧ oke = true ∧ okl = true) as Hu.
  { unfold unique. rewrite (proj1 Ht), (proj1 He), (proj1 Hl), !list_fmap_id.
    by rewrite (NoDup_index ops Hr). }
  unfold Build. split.
  { destruct (decide (valid_ b = true)) as [H|H]; simpl; [done|]. by rewrite decide_False. }
  case_decide as Hvalid; simpl.
  - rewrite Hv, !andb_true_iff in Hvalid. destruct Hvalid as [[-> ->] ->].
    split_and!; [by apply Hu|done|done| | |].
    + intros st e n a Hst Hev. split; [|intros Hin; by apply (holds_lookup index (transitions ops) _ (st, e) (n, a) Ht)].
      intros Hlk. destruct Ht as (_ & Hin & _). destruct (Hin _ _ Hlk) as ([s2 e2] & Hx & Hkey).
      assert (in_u 32 s2 ∧ in_u 32 e2) as [H1 H2].
      { apply list_elem_of_omap in Hx as (op & Hop & Heq). rewrite Forall_forall in Hr.
        specialize (Hr op Hop). destruct op; naive_solver. }
      by destruct (GetTransitionIndex_inj s2 e2 st e H1 H2 Hst Hev Hkey) as [-> ->].
    + intros st a. split; [|by apply (holds_lookup id (enters ops) _ st a He)].
      intros Hlk. destruct He as (_ & Hin & _). by destruct (Hin _ _ Hlk) as (? & ? & <-).
    + intros st a. split; [|by apply (holds_lookup id (leaves ops) _ st a Hl)].
      intros Hlk. destruct Hl as (_ & Hin & _). by destruct (Hin _ _ Hlk) as (? & ? & <-).
  - intros (-> & -> & ->)%Hu. apply Hvalid. by rewrite Hv.
Qed.

Lemma builder_correct_witness :
  (Build (Q := list Z) (build_ops (S := unit) 0 [MkTransition 0 1 2 None; MkEnter 2 None])).2 ≠ None ∧
  ¬ NoDup ((transitions (S := unit) [MkTransition 0 1 2 None; MkTransition 0 1 3 None]).*1).
Proof.
  split; [vm_compute; discriminate|].
  destruct (builder_correct (S := unit) 0 [MkTransition 0 1 2 None; MkTransition 0 1 3 None]) as [_ H].
  - apply Forall_cons. split; [vm_compute; split; split; done|].
    apply Forall_cons. split; [vm_compute; split; split; done|]. constructor.
  - vm_compute in H. intros Hnd. apply H. split; [exact Hnd|]. split; constructor.
Defined.
