(* ===== verification/ResourceNode.v ===== *)
(** * Resource nodes: executors seen from the framework

    Models services/core/src/resource_node_impl.cpp. A resource node wraps a
    registered executor: calls to it are forwarded to the executor's callback
    with serialized attributes, and its registration with the driver ends when
    the node is deleted or destroyed.

    [World] is what the nodes live in: the heap of nodes under their addresses
    (a weak pointer locks exactly when its address is still there) and the log
    of the calls to the driver and to the executors, each with its answer. The
    answers come from outside the program: [Env] gives them as functions of the
    log so far, so they may depend on everything that happened. [callback_] is
    whether the callback pointer is set. *)

From S2P Require Import Prelude Defines AttributesImpl Attributes.

(* @file R = src/services/core/src/resource_node_impl.cpp *)
(* @file RH = src/services/core/inc/resource_node.h *)
(* @file I = src/frameworks/native/ipc/common_defines/co_auth_interface.h *)

(** ** Data *)

(* @src I:33-43 CoAuthInterface::ExecutorRegisterInfo *)
Record ExecutorRegisterInfo := mkRegisterInfo {
  authType : Z;
  executorRole : Z;
  executorSensorHint : Z;
  executorMatcher : Z;
  esl : Z;
  maxTemplateAcl : Z;
  publicKey : bytes;
  deviceUdid : bytes;
  signedRemoteExecutorInfo : bytes;
}.

(* @src R:66-71 ResourceNodeImpl *)
Record ResourceNode := mkNode {
  info_ : ExecutorRegisterInfo;
  callback_ : bool;
  executorIndex_ : Z;
  addedToEngine_ : bool;
}.

(** Calls that leave the program, with their answers. *)
Inductive Call :=
  | AddExecutor (info : ExecutorRegisterInfo) (result index : Z)
  | DeleteExecutor (index result : Z)
  | OnBeginExecute (node scheduleId : Z) (publicKey command : bytes) (result : Z)
  | OnEndExecute (node scheduleId : Z) (command : bytes) (result : Z)
  | OnSetProperty (node : Z) (properties : bytes) (result : Z)
  | OnGetProperty (node : Z) (condition values : bytes) (result : Z)
  | OnSendData (node scheduleId : Z) (data : bytes) (result : Z).

Record World := mkWorld {
  nodes : gmap Z ResourceNode;
  calls : list Call;
}.

Record Env := mkEnv {
  GetLocalDeviceUdid : option bytes;
(** result, executor index, framework public key, template ids *)
on_add : list Call → ExecutorRegisterInfo → Z * Z * bytes * list Z;
on_delete : list Call → Z → Z;
(** an executor's answer to a call of the given schedule (0 for properties) *)
on_begin : list Call → Z → Z → Z;
on_end : list Call → Z → Z → Z;
on_set_property : list Call → Z → bytes → Z;
on_get_property : list Call → Z → bytes → Z * bytes;
on_send_data : list Call → Z → Z → bytes → Z;
}.

Definition log_call (w : World) (c : Call) : World := mkWorld (nodes w) (calls w ++ [c]).
Definition set_node (w : World) (h : Z) (n : ResourceNode) : World :=
  mkWorld (<[h := n]> (nodes w)) (calls w).

(** ** The interface the rest of the program uses

    [ResourceNode] is an abstract class; its clients hold weak pointers to
    nodes. [lock] tells whether a weak pointer still has its object. *)

(* @src RH:35-52 ResourceNode *)
Class ResourceNodeOps (W : Type) := {
  lock : W → Z → bool;
  GetExecutorIndex : W → Z → Z;
  GetAuthType : W → Z → Z;
  GetExecutorRole : W → Z → Z;
  GetExecutorMatcher : W → Z → Z;
  GetExecutorEsl : W → Z → Z;
  GetExecutorPublicKey : W → Z → bytes;
  BeginExecute : W → Z → Z → bytes → Attributes → W * Z;
  EndExecute : W → Z → Z → Attributes → W * Z;
  SetProperty : W → Z → Attributes → W * Z;
  GetProperty : W → Z → Attributes → Attributes → W * Z * Attributes;
  SendData : W → Z → Z → Attributes → W * Z;
  DeleteFromEngine : W → Z → W;
  DetachFromEngine : W → Z → W;
}.

(** ** The implementation *)

Module NodeImpl.
Section Nodes.
Variable env : Env.
Implicit Types (w : World) (h : Z).

(** A member called on the node at [h]; a pointer to a node always has its
    object, so the default is never used. *)
Definition on_node {A} w h (default : A) (f : ResourceNode → A) : A :=
  match nodes w !! h with Some n => f n | None => default end.

(* @src R ResourceNodeImpl::GetExecutorIndex *)
Definition GetExecutorIndex w h : Z := on_node w h 0 executorIndex_.

(* @src R ResourceNodeImpl::GetOwnerPid *)
Definition GetOwnerPid w h : Z := SUCCESS.

(* @src R ResourceNodeImpl::GetAuthType *)
Definition GetAuthType w h : Z := on_node w h 0 (λ n, authType (info_ n)).

(* @src R ResourceNodeImpl::GetExecutorRole *)
Definition GetExecutorRole w h : Z := on_node w h 0 (λ n, executorRole (info_ n)).

(* @src R ResourceNodeImpl::GetExecutorSensorHint *)
Definition GetExecutorSensorHint w h : Z := on_node w h 0 (λ n, executorSensorHint (info_ n)).

(* @src R ResourceNodeImpl::GetExecutorMatcher *)
Definition GetExecutorMatcher w h : Z := on_node w h 0 (λ n, executorMatcher (info_ n)).

(* @src R ResourceNodeImpl::GetExecutorEsl *)
Definition GetExecutorEsl w h : Z := on_node w h 0 (λ n, esl (info_ n)).

(* @src R ResourceNodeImpl::GetExecutorPublicKey *)
Definition GetExecutorPublicKey w h : bytes := on_node w h [] (λ n, publicKey (info_ n)).

(* @src R ResourceNodeImpl::GetExecutorDeviceUdid *)
Definition GetExecutorDeviceUdid w h : bytes := on_node w h [] (λ n, deviceUdid (info_ n)).

(* @src R ResourceNodeImpl::BeginExecute *)
Definition BeginExecute w h (scheduleId : Z) (publicKey : bytes) (command : Attributes) : World * Z :=
  on_node w h (w, GENERAL_ERROR) (λ n,
    WHEN callback_ n = true RETURN
      (let result := on_begin env (calls w) h scheduleId in
       (log_call w (OnBeginExecute h scheduleId publicKey (Serialize command) result), result)) ;;
    (w, GENERAL_ERROR)).

(* @src R ResourceNodeImpl::EndExecute *)
Definition EndExecute w h (scheduleId : Z) (command : Attributes) : World * Z :=
  on_node w h (w, GENERAL_ERROR) (λ n,
    WHEN callback_ n = true RETURN
      (let result := on_end env (calls w) h scheduleId in
       (log_call w (OnEndExecute h scheduleId (Serialize command) result), result)) ;;
    (w, GENERAL_ERROR)).

(* @src R ResourceNodeImpl::SetProperty *)
Definition SetProperty w h (properties : Attributes) : World * Z :=
  on_node w h (w, GENERAL_ERROR) (λ n,
    WHEN callback_ n = true RETURN
      (let result := on_set_property env (calls w) h (Serialize properties) in
       (log_call w (OnSetProperty h (Serialize properties) result), result)) ;;
    (w, GENERAL_ERROR)).

(** The third component is [values] after the call. *)
(* @src R ResourceNodeImpl::GetProperty *)
Definition GetProperty w h (condition values : Attributes) : World * Z * Attributes :=
  on_node w h (w, GENERAL_ERROR, values) (λ n,
    WHEN callback_ n = true RETURN
      (let '(ret, attribute) := on_get_property env (calls w) h (Serialize condition) in
       let w := log_call w (OnGetProperty h (Serialize condition) attribute ret) in
       WHEN ret = SUCCESS RETURN (w, ret, Attributes_of_raw attribute) ;;
       (w, ret, values)) ;;
    (w, GENERAL_ERROR, values)).

(* @src R ResourceNodeImpl::SendData *)
Definition SendData w h (scheduleId : Z) (data : Attributes) : World * Z :=
  on_node w h (w, GENERAL_ERROR) (λ n,
    WHEN callback_ n = true RETURN
      (let result := on_send_data env (calls w) h scheduleId (Serialize data) in
       (log_call w (OnSendData h scheduleId (Serialize data) result), result)) ;;
    (w, GENERAL_ERROR)).

(* @src R ResourceNodeImpl::DeleteExecutorFromEngine *)
Definition DeleteExecutorFromEngine w (executorIndex : Z) : World :=
  log_call w (DeleteExecutor executorIndex (on_delete env (calls w) executorIndex)).

Definition set_added (n : ResourceNode) (added : bool) : ResourceNode :=
  mkNode (info_ n) (callback_ n) (executorIndex_ n) added.

(* @src R ResourceNodeImpl::DeleteFromEngine *)
Definition DeleteFromEngine w h : World :=
  on_node w h w (λ n,
    let w := if addedToEngine_ n then DeleteExecutorFromEngine w (executorIndex_ n) else w in
    set_node w h (set_added n false)).

(* @src R ResourceNodeImpl::DetachFromEngine *)
Definition DetachFromEngine w h : World :=
  on_node w h w (λ n, set_node w h (set_added n false)).

(* @src R:73-81 ResourceNodeImpl::ResourceNodeImpl *)
Definition ResourceNodeImpl (info : ExecutorRegisterInfo) (callback : bool) : ResourceNode :=
  let n := mkNode info callback 0 false in
  WHEN deviceUdid info ≠ [] RETURN n ;;
  match GetLocalDeviceUdid env with
  | None => n
  | Some udid =>
      mkNode (mkRegisterInfo (authType info) (executorRole info) (executorSensorHint info)
                (executorMatcher info) (esl info) (maxTemplateAcl info) (publicKey info) udid
                (signedRemoteExecutorInfo info))
        callback 0 false
  end.

(** The destructor, run when the last shared pointer to the node goes. *)
(* @src R:83-90 ResourceNodeImpl::~ResourceNodeImpl *)
Definition destroy w h : World :=
  on_node w h w (λ n,
    let w := mkWorld (delete h (nodes w)) (calls w) in
    CHECK addedToEngine_ n = true ELSE w ;;
    DeleteExecutorFromEngine w (executorIndex_ n)).

(** Result, framework public key and template ids. *)
(* @src R ResourceNodeImpl::AddToEngine *)
Definition AddToEngine w h : World * (Z * bytes * list Z) :=
  on_node w h (w, (GENERAL_ERROR, [], [])) (λ n,
    let '(result, index, fwkPublicKey, templateIdList) := on_add env (calls w) (info_ n) in
    let w := log_call w (AddExecutor (info_ n) result index) in
    WHEN result ≠ SUCCESS RETURN
      (set_node w h (mkNode (info_ n) (callback_ n) index (addedToEngine_ n)),
       (GENERAL_ERROR, fwkPublicKey, templateIdList)) ;;
    (set_node w h (mkNode (info_ n) (callback_ n) index true),
     (SUCCESS, fwkPublicKey, templateIdList))).

(** [h] is the address the allocator chose; the result is the new node, or a
    null pointer (the node was destroyed again). *)
(* @src R ResourceNode::MakeNewResource *)
Definition MakeNewResource w h (info : ExecutorRegisterInfo) (callback : bool) :
    World * option (Z * bytes * list Z) :=
  let w := set_node w h (ResourceNodeImpl info callback) in
  let '(w, (result, fwkPublicKey, templateIdList)) := AddToEngine w h in
  WHEN result ≠ 0 RETURN (destroy w h, None) ;;
  (w, Some (h, fwkPublicKey, templateIdList)).

#[export] Instance world_nodes : ResourceNodeOps World := {
  lock w h := bool_decide (is_Some (nodes w !! h));
  GetExecutorIndex := GetExecutorIndex;
  GetAuthType := GetAuthType;
  GetExecutorRole := GetExecutorRole;
  GetExecutorMatcher := GetExecutorMatcher;
  GetExecutorEsl := GetExecutorEsl;
  GetExecutorPublicKey := GetExecutorPublicKey;
  BeginExecute := BeginExecute;
  EndExecute := EndExecute;
  SetProperty := SetProperty;
  GetProperty := GetProperty;
  SendData := SendData;
  DeleteFromEngine := DeleteFromEngine;
  DetachFromEngine := DetachFromEngine;
}.
End Nodes.
End NodeImpl.
