(* ===== verification/ResourceNodePool.v ===== *)
(** * The pool of resource nodes

    Models services/core/src/resource_node_pool_impl.cpp (the pool: a counted
    map from executor indexes to nodes, and its listeners),
    resource_node_utils.cpp (commands sent to the executors behind the nodes)
    and schedule_resource_node_listener.cpp (the listener that stops a schedule
    whose executor goes away).

    The pool is written against the interface [ResourceNodeOps] of the nodes.
    The order in which an [unordered_map] or a set of pointers is walked has no
    meaning in the source; here it is the order of [map_to_list] and
    [elements]. The calls to the listeners are returned, in order. *)

From S2P Require Import Prelude Defines AttributesImpl Attributes ResourceNode.

(* @file P = src/services/core/src/resource_node_pool_impl.cpp *)
(* @file U = src/services/core/src/resource_node_utils.cpp *)
(* @file L = src/services/core/src/schedule_resource_node_listener.cpp *)
(* @file C = src/services/ipc/src/co_auth_service.cpp *)

(** ** Data *)

(* @src P:47-50 ResourceNodePoolImpl::ResourceNodeParam *)
Record ResourceNodeParam := mkParam {
  count : Z;
  node : option Z;
}.

Inductive Note :=
  | OnResourceNodePoolInsert (listener : Z) (resource : option Z)
  | OnResourceNodePoolDelete (listener : Z) (resource : option Z)
  | OnResourceNodePoolUpdate (listener : Z) (resource : option Z).

(* @src P:51-53 ResourceNodePoolImpl *)
Record Pool (W : Type) := mkPool {
  world : W;
  resourceNodeMap_ : gmap Z ResourceNodeParam;
  listenerSet_ : gset (option Z);
}.
Arguments mkPool {W} _ _ _.
Arguments world {W} _.
Arguments resourceNodeMap_ {W} _.
Arguments listenerSet_ {W} _.

Definition UINT32_MAX : Z := 2 ^ 32 - 1.

Section Operations.
Context {W : Type} `{ResourceNodeOps W}.
Implicit Types (p : Pool W).

(** [for (const auto &listener : set) { if (listener != nullptr) listener->note(...); }] *)
Definition notify (set : gset (option Z)) (note : Z → Note) : list Note :=
  omap (option_map note) (elements set).

Definition detach p (n : option Z) : W :=
  match n with None => world p | Some h => DetachFromEngine (world p) h end.

(* @src P ResourceNodePoolImpl::Insert *)
Definition Insert p (resource : option Z) : Pool W * bool * list Note :=
  match resource with
  | None => (p, false, [])
  | Some h =>
    let executorIndex := GetExecutorIndex (world p) h in
    match resourceNodeMap_ p !! executorIndex with
    | Some param =>
        WHEN count param >= UINT32_MAX RETURN (p, false, []) ;;
        let w := detach p (node param) in
        (mkPool w (<[executorIndex := mkParam (count param + 1) resource]> (resourceNodeMap_ p))
           (listenerSet_ p), true,
         notify (listenerSet_ p) (λ l, OnResourceNodePoolUpdate l resource))
    | None =>
        (mkPool (world p) (<[executorIndex := mkParam 1 resource]> (resourceNodeMap_ p))
           (listenerSet_ p), true,
         notify (listenerSet_ p) (λ l, OnResourceNodePoolInsert l resource))
    end
  end.

(* @src P ResourceNodePoolImpl::Delete *)
Definition Delete p (executorIndex : Z) : Pool W * bool * list Note :=
  match resourceNodeMap_ p !! executorIndex with
  | None => (p, false, [])
  | Some param =>
    WHEN count param > 1 RETURN
      (mkPool (world p) (<[executorIndex := mkParam (count param - 1) (node param)]> (resourceNodeMap_ p))
         (listenerSet_ p), true, []) ;;
    let map := delete executorIndex (resourceNodeMap_ p) in
    match node param with
    | None => (mkPool (world p) map (listenerSet_ p), false, [])
    | Some h =>
        (mkPool (DeleteFromEngine (world p) h) map (listenerSet_ p), true,
         notify (listenerSet_ p) (λ l, OnResourceNodePoolDelete l (Some h)))
    end
  end.

Definition delete_from_engine (w : W) (n : option Z) : W :=
  match n with None => w | Some h => DeleteFromEngine w h end.

(** The nodes of the map, in the order in which it is walked. *)
Definition pool_nodes p : list (option Z) := (λ kv, node kv.2) <$> map_to_list (resourceNodeMap_ p).

(* @src P ResourceNodePoolImpl::DeleteAll *)
Definition DeleteAll p : Pool W * list Note :=
  let w := foldl delete_from_engine (world p) (pool_nodes p) in
  (mkPool w ∅ (listenerSet_ p),
   pool_nodes p ≫= λ n, notify (listenerSet_ p) (λ l, OnResourceNodePoolDelete l n)).

(** The weak pointer returned, if any ([None] is the empty weak pointer). *)
(* @src P ResourceNodePoolImpl::Select *)
Definition Select p (executorIndex : Z) : option Z :=
  param ← resourceNodeMap_ p !! executorIndex; node param.

(** [Select(...).lock()]. *)
Definition Select_lock p (executorIndex : Z) : option Z :=
  h ← Select p executorIndex; if lock (world p) h then Some h else None.

(** The calls of [action], in order; none if [action] is empty. *)
(* @src P ResourceNodePoolImpl::Enumerate *)
Definition Enumerate {A} p (action : option (option Z → A → A)) (a : A) : A :=
  match action with
  | None => a
  | Some f => foldl (λ a n, f n a) a (pool_nodes p)
  end.

(* @src P ResourceNodePoolImpl::GetPoolSize *)
Definition GetPoolSize p : Z := wrapU 32 (Z.of_nat (size (resourceNodeMap_ p))).

(* @src P ResourceNodePoolImpl::RegisterResourceNodePoolListener *)
Definition RegisterResourceNodePoolListener p (listener : option Z) : Pool W * bool :=
  CHECK listener ≠ None ELSE (p, false) ;;
  (mkPool (world p) (resourceNodeMap_ p) ({[listener]} ∪ listenerSet_ p), true).

(* @src P ResourceNodePoolImpl::DeregisterResourceNodePoolListener *)
Definition DeregisterResourceNodePoolListener p (listener : option Z) : Pool W * bool :=
  (mkPool (world p) (resourceNodeMap_ p) (listenerSet_ p ∖ {[listener]}),
   bool_decide (listener ∈ listenerSet_ p)).

(* @src P ResourceNodePoolImpl::GetResourceNodeByTypeAndRole *)
Definition GetResourceNodeByTypeAndRole p (authType role : Z) : list Z :=
  Enumerate p (Some (λ n nodes,
    match n with
    | None => nodes
    | Some h =>
        CHECK lock (world p) h = true ELSE nodes ;;
        WHEN GetAuthType (world p) h ≠ authType RETURN nodes ;;
        WHEN GetExecutorRole (world p) h ≠ role RETURN nodes ;;
        nodes ++ [h]
    end)) [].

Definition with_world p (w : W) : Pool W := mkPool w (resourceNodeMap_ p) (listenerSet_ p).

(** ** resource_node_utils.cpp *)

(** What the functions read of a [CredentialInfoInterface]; [None] is a null
    pointer in the list. *)
Record Credential := mkCredential { cred_executorIndex : Z; cred_templateId : Z }.

Definition DeleteTemplate p (changeReasonTrace : bytes) (info : option Credential) : Pool W :=
  match info with
  | None => p
  | Some c =>
    match Select_lock p (cred_executorIndex c) with
    | None => p
    | Some h =>
        let properties := Attributes_new in
        let properties := (SetUint32Value properties ATTR_PROPERTY_MODE PROPERTY_MODE_DEL).1 in
        let properties := (SetUint64Value properties ATTR_TEMPLATE_ID (cred_templateId c)).1 in
        let properties := (SetStringValue properties ATTR_TEMPLATE_CHANGE_REASON changeReasonTrace).1 in
        with_world p (SetProperty (world p) h properties).1
    end
  end.

(* @src U ResourceNodeUtils::NotifyExecutorToDeleteTemplates *)
Definition NotifyExecutorToDeleteTemplates p (infos : list (option Credential)) (changeReasonTrace : bytes) :
    Pool W * Z :=
  WHEN infos = [] RETURN (p, INVALID_PARAMETERS) ;;
  (foldl (λ p info, DeleteTemplate p changeReasonTrace info) p infos, SUCCESS).

(* @src U ResourceNodeUtils::SendMsgToExecutor *)
Definition SendMsgToExecutor p (executorIndex commandId : Z) (msg : bytes) : Pool W :=
  match Select_lock p executorIndex with
  | None => p
  | Some h =>
      let '(properties, setAuthPropertyModeRet) := SetInt32Value Attributes_new ATTR_PROPERTY_MODE commandId in
      CHECK setAuthPropertyModeRet = true ELSE p ;;
      let '(properties, setExtraInfoRet) := SetUint8ArrayValue properties ATTR_EXTRA_INFO msg in
      CHECK setExtraInfoRet = true ELSE p ;;
      with_world p (SetProperty (world p) h properties).1
  end.

(* @src U ResourceNodeUtils::SetCachedTemplates *)
Definition SetCachedTemplates p (executorIndex : Z) (infos : list (option Credential)) : Pool W :=
  match Select_lock p executorIndex with
  | None => p
  | Some h =>
      let templateIds := cred_templateId <$> omap id infos in
      let attr := (SetUint32Value Attributes_new ATTR_PROPERTY_MODE PROPERTY_MODE_SET_CACHED_TEMPLATES).1 in
      let attr := (SetUint64ArrayValue attr ATTR_TEMPLATE_ID_LIST templateIds).1 in
      with_world p (SetProperty (world p) h attr).1
  end.
End Operations.

(** [out] keeps what was classified before the null credential. *)
(* @src U ResourceNodeUtils::ClassifyCredInfoByExecutor *)
Fixpoint ClassifyCredInfoByExecutor (in_ : list (option Credential))
    (out : gmap Z (list Credential)) : gmap Z (list Credential) * Z :=
  match in_ with
  | [] => (out, SUCCESS)
  | None :: _ => (out, GENERAL_ERROR)
  | Some cred :: in_ =>
      let executorIndex := cred_executorIndex cred in
      let out := match out !! executorIndex with None => <[executorIndex := []]> out | Some _ => out end in
      ClassifyCredInfoByExecutor in_ (alter (λ v, v ++ [cred]) executorIndex out)
  end.

(** The listener of a schedule, on the schedule's own executors: the result
    code with which it stops the schedule, if it does. *)
(* @src L ScheduleResourceNodeListener::OnResourceNodePoolDelete *)
Definition schedule_listener (scheduleNode : bool) (collector verifier : option Z)
    (resource : option Z) : option Z :=
  CHECK resource ≠ None ELSE None ;;
  CHECK scheduleNode = true ELSE None ;;
  WHEN collector = resource ∨ verifier = resource RETURN Some GENERAL_ERROR ;;
  None.

(** ** The life of the executors

    What happens to the pool over time: executors register and unregister, the
    driver goes away, and nodes that left the pool are destroyed once their
    last user is done with them. *)

Inductive pool_op :=
  | Register (h : Z) (info : ExecutorRegisterInfo) (callback : bool)
  | Unregister (executorIndex : Z)
  | EngineUnavailable
  | Release (h : Z).

Section Life.
Variable env : Env.
Implicit Types (p : Pool World) (w : World).
#[local] Instance nodes_ops : ResourceNodeOps World := NodeImpl.world_nodes env.
#[local] Arguments DeleteFromEngine : simpl never.
#[local] Arguments DetachFromEngine : simpl never.
#[local] Arguments GetExecutorIndex : simpl never.

(** The core of [CoAuthService::ExecutorRegister]: the new node is destroyed
    again when it cannot be inserted. *)
(* @src C:204-213 CoAuthService::ExecutorRegister *)
Definition register p (h : Z) (info : ExecutorRegisterInfo) (callback : bool) : Pool World * list Note :=
  let '(w, made) := NodeImpl.MakeNewResource env (world p) h info callback in
  match made with
  | None => (with_world p w, [])
  | Some _ =>
      let '(p, ok, notes) := Insert (with_world p w) (Some h) in
      CHECK ok = true ELSE (with_world p (NodeImpl.destroy env (world p) h), notes) ;;
      (p, notes)
  end.

(** The allocator never returns the address of a live node, and a node is
    destroyed only when no shared pointer, hence not the pool, holds it. *)
Definition pool_step p (op : pool_op) : Pool World * list Note :=
  match op with
  | Register h info callback =>
      WHEN is_Some (nodes (world p) !! h) RETURN (p, []) ;; register p h info callback
  | Unregister executorIndex => let '(p, _, notes) := Delete p executorIndex in (p, notes)
  | EngineUnavailable => DeleteAll p
  | Release h =>
      WHEN Some h ∈ pool_nodes p RETURN (p, []) ;;
      (with_world p (NodeImpl.destroy env (world p) h), [])
  end.

Definition pool_run p (ops : list pool_op) : Pool World := foldl (λ p op, (pool_step p op).1) p ops.

(** The executors the driver was asked to add and not asked to delete. *)
Definition engine_step (s : gset Z) (c : Call) : gset Z :=
  match c with
  | AddExecutor _ result index => if decide (result = SUCCESS) then {[index]} ∪ s else s
  | DeleteExecutor index _ => s ∖ {[index]}
  | _ => s
  end.
Definition registered (cs : list Call) : gset Z := foldl engine_step ∅ cs.

Lemma registered_snoc cs c : registered (cs ++ [c]) = engine_step (registered cs) c.
Proof. unfold registered. by rewrite foldl_app. Qed.

(** [n] bounds the counts. *)
Record pool_inv (n : nat) p : Prop := {
  inv_pooled : ∀ i prm, resourceNodeMap_ p !! i = Some prm →
    ∃ h nd, node prm = Some h ∧ nodes (world p) !! h = Some nd ∧ executorIndex_ nd = i ∧
      addedToEngine_ nd = true ∧ 1 ≤ count prm ≤ Z.of_nat n;
  inv_added : ∀ h nd, nodes (world p) !! h = Some nd → addedToEngine_ nd = true →
    ∃ prm, resourceNodeMap_ p !! executorIndex_ nd = Some prm ∧ node prm = Some h;
  inv_driver : registered (calls (world p)) = dom (resourceNodeMap_ p);
}.

Lemma pool_nodes_elem p n :
  n ∈ pool_nodes p ↔ ∃ i prm, resourceNodeMap_ p !! i = Some prm ∧ node prm = n.
Proof.
  unfold pool_nodes. rewrite list_elem_of_fmap. split.
  - intros ([i prm] & -> & Hin%elem_of_map_to_list). eauto.
  - intros (i & prm & Hi & <-). exists (i, prm). by rewrite elem_of_map_to_list.
Qed.

Lemma DeleteFromEngine_nodes w h :
  nodes (DeleteFromEngine w h) = alter (λ nd, NodeImpl.set_added nd false) h (nodes w).
Proof.
  change (DeleteFromEngine w h) with (NodeImpl.DeleteFromEngine env w h).
  unfold NodeImpl.DeleteFromEngine, NodeImpl.on_node.
  destruct (nodes w !! h) as [nd|] eqn:Hh.
  - trans (<[h:=NodeImpl.set_added nd false]> (nodes w)); [by destruct (addedToEngine_ nd)|].
    symmetry. apply map_eq. intros k. destruct (decide (k = h)) as [->|].
    + by rewrite lookup_alter_eq, lookup_insert_eq, Hh.
    + by rewrite lookup_alter_ne, lookup_insert_ne by done.
  - symmetry. apply map_eq. intros k. destruct (decide (k = h)) as [->|].
    + by rewrite lookup_alter_eq, Hh.
    + by rewrite lookup_alter_ne by done.
Qed.

Lemma DeleteFromEngine_registered w h i :
  i ∈ registered (calls (DeleteFromEngine w h)) ↔
  i ∈ registered (calls w) ∧
  ∀ nd, nodes w !! h = Some nd → addedToEngine_ nd = true → executorIndex_ nd ≠ i.
Proof.
  change (DeleteFromEngine w h) with (NodeImpl.DeleteFromEngine env w h).
  unfold NodeImpl.DeleteFromEngine, NodeImpl.on_node.
  destruct (nodes w !! h) as [nd|] eqn:Hh; [|by split; [intros ?; split|intros []]].
  destruct (addedToEngine_ nd) eqn:Ha; simpl;
    [|by split; [intros ?; split; [done|congruence]|intros []]].
  rewrite registered_snoc. simpl. split; [set_solver|].
  intros [Hi Hn]. specialize (Hn nd eq_refl Ha). set_solver.
Qed.

(** Deleting a list of nodes from the driver. *)
Lemma delete_all_nodes ns w h :
  nodes (foldl delete_from_engine w ns) !! h =
  if bool_decide (Some h ∈ ns) then (λ nd, NodeImpl.set_added nd false) <$> nodes w !! h
  else nodes w !! h.
Proof.
  revert w. induction ns as [|[h0|] ns IH]; intros w; cbn [foldl delete_from_engine].
  - by rewrite bool_decide_eq_false_2 by apply not_elem_of_nil.
  - rewrite IH, DeleteFromEngine_nodes. destruct (decide (h = h0)) as [->|Hne].
    + rewrite lookup_alter_eq, (bool_decide_eq_true_2 (Some h0 ∈ Some h0 :: ns)) by constructor.
      destruct (bool_decide (Some h0 ∈ ns)), (nodes w !! h0); done.
    + rewrite lookup_alter_ne by done.
      by rewrite (bool_decide_ext (Some h ∈ Some h0 :: ns) (Some h ∈ ns)) by set_solver.
  - rewrite IH. by rewrite (bool_decide_ext (Some h ∈ None :: ns) (Some h ∈ ns)) by set_solver.
Qed.

Lemma delete_all_registered ns w i :
  i ∈ registered (calls (foldl delete_from_engine w ns)) →
  i ∈ registered (calls w) ∧
  ∀ h nd, Some h ∈ ns → nodes w !! h = Some nd → addedToEngine_ nd = true → executorIndex_ nd ≠ i.
Proof.
  revert w. induction ns as [|[h0|] ns IH]; intros w; simpl.
  - intros Hi. split; [done|]. intros h nd []%not_elem_of_nil.
  - intros [Hi Hn]%IH.
    apply DeleteFromEngine_registered in Hi as [Hi Hh0]. split; [done|].
    intros h nd Hin Hh Ha. destruct (decide (h = h0)) as [->|Hne]; [by apply Hh0|].
    apply (Hn h nd); [set_solver| |done]. by rewrite DeleteFromEngine_nodes, lookup_alter_ne.
  - intros [Hi Hn]%IH. split; [done|]. intros h nd Hin. apply Hn. set_solver.
Qed.

Lemma inv_mono n p : pool_inv n p → pool_inv (S n) p.
Proof.
  intros [H1 H2 H3]. split; [|done|done]. intros i prm Hi.
  destruct (H1 i prm Hi) as (h & nd & ? & ? & ? & ? & ?). exists h, nd. split_and!; try done; lia.
Qed.

Lemma inv_DeleteAll n p : pool_inv n p → pool_inv n (DeleteAll p).1.
Proof.
  intros [H1 H2 H3]. split; simpl.
  - intros i prm. by rewrite lookup_empty.
  - intros h nd. rewrite delete_all_nodes. case_bool_decide as Hin.
    + intros (nd0 & Hnd & ->)%fmap_Some_1. done.
    + intros Hh Ha. destruct (H2 h nd Hh Ha) as (prm & Hp & Hn). destruct Hin.
      apply pool_nodes_elem. eauto.
  - rewrite dom_empty_L. apply set_eq. intros i. split; [|set_solver].
    intros [Hi Hn]%delete_all_registered. exfalso. rewrite H3 in Hi.
    apply elem_of_dom in Hi as [prm Hp]. destruct (H1 i prm Hp) as (h & nd & Hnode & Hh & Hidx & Ha & _).
    apply (Hn h nd); [|done|done|done]. apply pool_nodes_elem. eauto.
Qed.

Lemma inv_Delete n p i : pool_inv n p → pool_inv n (Delete p i).1.1.
Proof.
  intros [H1 H2 H3]. unfold Delete. destruct (resourceNodeMap_ p !! i) as [prm|] eqn:Hp; [|done].
  destruct (H1 i prm Hp) as (h & nd & Hnode & Hh & Hidx & Ha & Hc).
  case_decide as Hcount; simpl.
  - split; simpl.
    + intros j prm'. rewrite lookup_insert_Some. intros [[<- <-]|[Hne Hj]]; [|by apply H1].
      exists h, nd. simpl. split_and!; try done; lia.
    + intros h' nd' Hh' Ha'. destruct (H2 h' nd' Hh' Ha') as (prm' & Hp' & Hn').
      destruct (decide (executorIndex_ nd' = i)) as [Heq|Hne].
      * exists (mkParam (count prm - 1) (node prm)). rewrite Heq, lookup_insert_eq. split; [done|].
        simpl. rewrite Heq, Hp in Hp'. congruence.
      * exists prm'. by rewrite lookup_insert_ne.
    + rewrite dom_insert_L, H3. apply elem_of_dom_2 in Hp. set_solver.
  - rewrite Hnode. simpl.
    split; simpl.
    + intros j prm' [Hne Hj]%lookup_delete_Some.
      destruct (H1 j prm' Hj) as (h' & nd' & Hn' & Hh' & Hidx' & Ha' & Hc').
      exists h', nd'. rewrite DeleteFromEngine_nodes. split_and!; try done; try lia.
      rewrite lookup_alter_ne; [done|]. intros <-. congruence.
    + intros h' nd'. rewrite DeleteFromEngine_nodes. destruct (decide (h' = h)) as [->|Hne].
      { rewrite lookup_alter_eq, Hh. simpl. by intros [= <-]. }
      rewrite lookup_alter_ne by done. intros Hh' Ha'.
      destruct (H2 h' nd' Hh' Ha') as (prm' & Hp' & Hn'). exists prm'.
      rewrite lookup_delete_ne; [done|]. intros Heq. rewrite <- Heq, Hp in Hp'. congruence.
    + apply set_eq. intros j. rewrite DeleteFromEngine_registered, H3, dom_delete_L. split.
      * intros [Hj Hn]. specialize (Hn nd Hh Ha). set_solver.
      * intros Hj. split; [set_solver|]. intros nd' Hnd' _ <-. assert (nd' = nd) as -> by congruence.
        set_solver.
Qed.

Lemma MakeNewResource_spec w h info callback :
  nodes w !! h = None →
  let '(w', made) := NodeImpl.MakeNewResource env w h info callback in
  match made with
  | None => nodes w' = nodes w ∧ registered (calls w') = registered (calls w)
  | Some (h', _, _) => h' = h ∧ ∃ nd, nodes w' = <[h := nd]> (nodes w) ∧ addedToEngine_ nd = true ∧
      registered (calls w') = {[executorIndex_ nd]} ∪ registered (calls w)
  end.
Proof.
  intros Hh. unfold NodeImpl.MakeNewResource, NodeImpl.AddToEngine, NodeImpl.on_node.
  set (nd := NodeImpl.ResourceNodeImpl env info callback). simpl. rewrite lookup_insert_eq.
  assert (addedToEngine_ nd = false) as Hadd.
  { unfold nd, NodeImpl.ResourceNodeImpl. case_decide; [done|]. by destruct (GetLocalDeviceUdid env). }
  destruct (on_add env (calls w) (info_ nd)) as [[[result index] pk] tl].
  destruct (decide (result ≠ SUCCESS)) as [Hr|Hr]; simpl.
  - unfold NodeImpl.destroy, NodeImpl.on_node. simpl. rewrite lookup_insert_eq, Hadd. simpl.
    rewrite !insert_insert_eq, delete_insert_id by done. split; [done|].
    rewrite registered_snoc. simpl. by rewrite decide_False.
  - split; [done|]. eexists. rewrite insert_insert_eq. split; [done|]. split; [done|].
    rewrite registered_snoc. simpl. by rewrite decide_True by (apply dec_stable; done).
Qed.

Lemma DetachFromEngine_nodes w h :
  nodes (DetachFromEngine w h) = alter (λ nd, NodeImpl.set_added nd false) h (nodes w) ∧
  calls (DetachFromEngine w h) = calls w.
Proof.
  change (DetachFromEngine w h) with (NodeImpl.DetachFromEngine w h).
  unfold NodeImpl.DetachFromEngine, NodeImpl.on_node.
  destruct (nodes w !! h) as [nd|] eqn:Hh; simpl; (split; [|done]); symmetry; apply map_eq; intros k;
    (destruct (decide (k = h)) as [->|]; [rewrite lookup_alter_eq, Hh|rewrite lookup_alter_ne by done]).
  - by rewrite lookup_insert_eq.
  - by rewrite lookup_insert_ne.
  - done.
  - done.
Qed.

(** Inserting a node that was just added to the driver. *)
Lemma inv_Insert n p w h nd :
  pool_inv n p → Z.of_nat n < UINT32_MAX → nodes (world p) !! h = None →
  nodes w = <[h := nd]> (nodes (world p)) → addedToEngine_ nd = true →
  registered (calls w) = {[executorIndex_ nd]} ∪ registered (calls (world p)) →
  let '(p', ok, _) := Insert (with_world p w) (Some h) in ok = true ∧ pool_inv (S n) p'.
Proof.
  intros [H1 H2 H3] Hn Hfresh Hw Ha Hr. unfold Insert. simpl.
  assert (GetExecutorIndex w h = executorIndex_ nd) as ->.
  { unfold GetExecutorIndex. simpl. unfold NodeImpl.GetExecutorIndex, NodeImpl.on_node.
    by rewrite Hw, lookup_insert_eq. }
  assert (∀ h' nd', nodes (world p) !! h' = Some nd' → h' ≠ h) as Hother by (intros ??? ->; congruence).
  destruct (resourceNodeMap_ p !! executorIndex_ nd) as [prm|] eqn:Hp.
  - destruct (H1 _ prm Hp) as (h0 & nd0 & Hn0 & Hh0 & Hi0 & Ha0 & Hc0).
    rewrite decide_False by lia. split; [done|]. unfold detach. simpl. rewrite Hn0.
    destruct (DetachFromEngine_nodes w h0) as [Hd1 Hd2]. split; simpl.
    + intros j prm'. rewrite lookup_insert_Some. intros [[<- <-]|[Hne Hj]]; simpl.
      * exists h, nd. rewrite Hd1, Hw, lookup_alter_ne by eauto. rewrite lookup_insert_eq.
        split_and!; try done; lia.
      * destruct (H1 j prm' Hj) as (h' & nd' & Hn' & Hh' & Hi' & Ha' & Hc'). exists h', nd'.
        rewrite Hd1, Hw, lookup_alter_ne by (intros ->; congruence).
        rewrite lookup_insert_ne by (symmetry; eauto). split_and!; try done; lia.
    + intros h' nd'. rewrite Hd1, Hw. destruct (decide (h' = h0)) as [->|Hne0].
      { rewrite lookup_alter_eq, lookup_insert_ne by (symmetry; eauto). rewrite Hh0. by intros [= <-]. }
      rewrite lookup_alter_ne by done. destruct (decide (h' = h)) as [->|Hne].
      { rewrite lookup_insert_eq. intros [= <-] _. rewrite lookup_insert_eq. eauto. }
      rewrite lookup_insert_ne by done. intros Hh' Ha'.
      destruct (H2 h' nd' Hh' Ha') as (prm' & Hp' & Hn'). exists prm'.
      rewrite lookup_insert_ne; [done|]. intros Heq. rewrite <- Heq, Hp in Hp'. congruence.
    + rewrite Hd2, Hr, H3, dom_insert_L. apply elem_of_dom_2 in Hp. set_solver.
  - split; [done|]. split; simpl.
    + intros j prm'. rewrite lookup_insert_Some. intros [[<- <-]|[Hne Hj]]; simpl.
      * exists h, nd. rewrite Hw, lookup_insert_eq. split_and!; try done; lia.
      * destruct (H1 j prm' Hj) as (h' & nd' & Hn' & Hh' & Hi' & Ha' & Hc'). exists h', nd'.
        rewrite Hw, lookup_insert_ne by (symmetry; eauto). split_and!; try done; lia.
    + intros h' nd'. rewrite Hw. destruct (decide (h' = h)) as [->|Hne].
      { rewrite lookup_insert_eq. intros [= <-] _. rewrite lookup_insert_eq. eauto. }
      rewrite lookup_insert_ne by done. intros Hh' Ha'.
      destruct (H2 h' nd' Hh' Ha') as (prm' & Hp' & Hn'). exists prm'.
      rewrite lookup_insert_ne; [done|]. intros Heq. rewrite <- Heq, Hp in Hp'. congruence.
    + by rewrite Hr, H3, dom_insert_L.
Qed.

Lemma inv_Release n p h : pool_inv n p → Some h ∉ pool_nodes p →
  pool_inv n (with_world p (NodeImpl.destroy env (world p) h)).
Proof.
  intros [H1 H2 H3] Hout. unfold NodeImpl.destroy, NodeImpl.on_node.
  destruct (nodes (world p) !! h) as [nd|] eqn:Hh; [|done].
  rewrite decide_False. 2: { intros Ha. destruct (H2 h nd Hh Ha) as (prm & Hp & Hn).
    apply Hout, pool_nodes_elem. eauto. }
  split; simpl; [| |done].
  - intros i prm Hi. destruct (H1 i prm Hi) as (h' & nd' & Hn' & Hh' & Hrest). exists h', nd'.
    rewrite lookup_delete_ne; [done|]. intros <-. apply Hout, pool_nodes_elem. eauto.
  - intros h' nd' [Hne Hh']%lookup_delete_Some Ha'. by apply H2.
Qed.

Lemma inv_step n p op : pool_inv n p → Z.of_nat n < UINT32_MAX → pool_inv (S n) (pool_step p op).1.
Proof.
  intros Hinv Hn. destruct op as [h info callback|i| |h]; simpl.
  - destruct (decide (is_Some (nodes (world p) !! h))) as [|Hf]; [by apply inv_mono|].
    apply eq_None_not_Some in Hf. unfold register.
    pose proof (MakeNewResource_spec (world p) h info callback Hf) as Hm.
    destruct (NodeImpl.MakeNewResource env (world p) h info callback) as [w [[[h' pk] tl]|]].
    + destruct Hm as (-> & nd & Hw & Ha & Hr).
      pose proof (inv_Insert n p w h nd Hinv Hn Hf Hw Ha Hr) as Hi.
      destruct (Insert (with_world p w) (Some h)) as [[p' ok] notes]. destruct Hi as [-> Hi]. done.
    + destruct Hm as [Hw Hr]. apply inv_mono. destruct Hinv as [H1 H2 H3].
      split; simpl; rewrite ?Hw, ?Hr; done.
  - apply inv_mono. pose proof (inv_Delete n p i Hinv). by destruct (Delete p i) as [[? ?] ?].
  - by apply inv_mono, inv_DeleteAll.
  - apply inv_mono. case_decide; [done|]. by apply inv_Release.
Qed.

Lemma inv_run ops p n : pool_inv n p → Z.of_nat (n + length ops) ≤ UINT32_MAX →
  pool_inv (n + length ops) (pool_run p ops).
Proof.
  revert p n. unfold pool_run. induction ops as [|op ops IH]; intros p n Hinv Hlen; simpl in *.
  - by rewrite Nat.add_0_r.
  - rewrite <- Nat.add_succ_comm. apply IH; [apply inv_step; [done|lia]|lia].
Qed.

Definition empty_pool (listeners : gset (option Z)) : Pool World := mkPool (mkWorld ∅ []) ∅ listeners.

Lemma inv_empty ls : pool_inv 0 (empty_pool ls).
Proof. split; [intros i prm; simpl; by rewrite lookup_empty|intros h nd; simpl; by rewrite lookup_empty|done]. Qed.

(** ** What a listener sees *)

(** A listener's picture of the pool. *)
Definition see (l : Z) w (v : gmap Z Z) (note : Note) : gmap Z Z :=
  match note with
  | OnResourceNodePoolInsert l' (Some h) | OnResourceNodePoolUpdate l' (Some h) =>
      if decide (l' = l) then <[GetExecutorIndex w h := h]> v else v
  | OnResourceNodePoolDelete l' (Some h) =>
      if decide (l' = l) then delete (GetExecutorIndex w h) v else v
  | _ => v
  end.

Definition watch (l : Z) (pv : Pool World * gmap Z Z) (op : pool_op) : Pool World * gmap Z Z :=
  let '(p, notes) := pool_step pv.1 op in (p, foldl (see l (world p)) pv.2 notes).

Lemma watch_run l ops p v : (foldl (watch l) (p, v) ops).1 = pool_run p ops.
Proof.
  unfold pool_run. revert p v. induction ops as [|op ops IH]; intros p v; simpl; [done|].
  unfold watch at 2. simpl. destruct (pool_step p op) as [p' notes]. apply IH.
Qed.

(** One event sent to every listener: ours sees it once or more to the same effect. *)
Lemma see_notify (l : Z) w (v : gmap Z Z) (set : gset (option Z)) (note : Z → Note) :
  Some l ∈ set →
  (∀ l' (v : gmap Z Z), l' ≠ l → see l w v (note l') = v) →
  (∀ v : gmap Z Z, see l w (see l w v (note l)) (note l) = see l w v (note l)) →
  foldl (see l w) v (notify set note) = see l w v (note l).
Proof.
  intros Hin Hother Hidem. unfold notify. rewrite <- elem_of_elements in Hin.
  assert (∀ ls (v : gmap Z Z), foldl (see l w) (see l w v (note l)) (omap (option_map note) ls) =
    see l w v (note l)) as Hdone.
  { clear Hin v. induction ls as [|[x|] ls IH]; intros v; simpl; [done| |apply IH].
    destruct (decide (x = l)) as [->|Hne]; [rewrite Hidem|rewrite Hother by done]; apply IH. }
  revert Hin v. induction (elements set) as [|x ls IH]; intros Hin v; [by apply elem_of_nil in Hin|].
  destruct (decide (x = Some l)) as [->|Hne]; [apply Hdone|].
  assert (Some l ∈ ls) as Hls by set_solver.
  destruct x as [x|]; simpl; [rewrite Hother by congruence|]; by apply IH.
Qed.

Definition view_ok p (v : gmap Z Z) : Prop := ∀ i, v !! i = Select p i.

Lemma index_of p n i prm h : pool_inv n p → resourceNodeMap_ p !! i = Some prm → node prm = Some h →
  GetExecutorIndex (world p) h = i.
Proof.
  intros Hinv Hp Hn. destruct (inv_pooled _ _ Hinv i prm Hp) as (h' & nd & Hn' & Hh & Hi & _).
  assert (h' = h) as -> by congruence. unfold GetExecutorIndex. simpl.
  unfold NodeImpl.GetExecutorIndex, NodeImpl.on_node. by rewrite Hh.
Qed.

(** Adding and removing nodes of the driver leaves the index of a node alone. *)
Lemma index_delete w h h' : GetExecutorIndex (DeleteFromEngine w h) h' = GetExecutorIndex w h'.
Proof.
  unfold GetExecutorIndex. simpl. unfold NodeImpl.GetExecutorIndex, NodeImpl.on_node.
  rewrite DeleteFromEngine_nodes. destruct (decide (h' = h)) as [->|].
  - rewrite lookup_alter_eq. by destruct (nodes w !! h).
  - by rewrite lookup_alter_ne.
Qed.

Lemma index_detach w h h' : GetExecutorIndex (DetachFromEngine w h) h' = GetExecutorIndex w h'.
Proof.
  unfold GetExecutorIndex. simpl. unfold NodeImpl.GetExecutorIndex, NodeImpl.on_node.
  rewrite (proj1 (DetachFromEngine_nodes w h)). destruct (decide (h' = h)) as [->|].
  - rewrite lookup_alter_eq. by destruct (nodes w !! h).
  - by rewrite lookup_alter_ne.
Qed.

Lemma index_delete_all ns w h : GetExecutorIndex (foldl delete_from_engine w ns) h = GetExecutorIndex w h.
Proof.
  revert w. induction ns as [|[h0|] ns IH]; intros w; cbn [foldl delete_from_engine];
    [done| |apply IH]. by rewrite IH, index_delete.
Qed.

Lemma view_DeleteAll n p v l : pool_inv n p → Some l ∈ listenerSet_ p → view_ok p v →
  view_ok (DeleteAll p).1 (foldl (see l (world (DeleteAll p).1)) v (DeleteAll p).2).
Proof.
  intros Hinv Hl Hv i. simpl. set (w := foldl delete_from_engine (world p) (pool_nodes p)).
  assert (∀ ns (v : gmap Z Z),
    let v' := foldl (see l w) v (ns ≫= λ n, notify (listenerSet_ p) (λ l, OnResourceNodePoolDelete l n)) in
    v' !! i = None ∨ v' !! i = v !! i ∧ ∀ h, Some h ∈ ns → GetExecutorIndex (world p) h ≠ i) as Hgen.
  { clear v Hv. induction ns as [|n0 ns IH]; intros v; simpl.
    { right. split; [done|]. intros h []%not_elem_of_nil. }
    rewrite foldl_app, (see_notify l w v _ (λ l, OnResourceNodePoolDelete l n0) Hl).
    - destruct n0 as [h0|]; simpl.
      + rewrite decide_True by done. unfold w. rewrite index_delete_all. fold w.
        destruct (IH (delete (GetExecutorIndex (world p) h0) v)) as [Hi|[Hi Hns]]; [by left|].
        destruct (decide (GetExecutorIndex (world p) h0 = i)) as [<-|Hne].
        * left. etrans; [exact Hi|apply lookup_delete_eq].
        * right. split; [etrans; [exact Hi|by apply lookup_delete_ne]|]. set_solver.
      + destruct (IH v) as [Hi|[Hi Hns]]; [by left|]. right. split; [done|]. set_solver.
    - intros l' v' Hne. destruct n0; simpl; [by rewrite decide_False|done].
    - intros v'. destruct n0; simpl; [|done]. rewrite !decide_True by done. apply delete_delete_eq. }
  unfold Select. simpl. rewrite lookup_empty. simpl.
  destruct (Hgen (pool_nodes p) v) as [Hi|[Hi Hns]]; [done|]. rewrite Hi, Hv. unfold Select.
  destruct (resourceNodeMap_ p !! i) as [prm|] eqn:Hp; [|done]. simpl.
  destruct (inv_pooled _ _ Hinv i prm Hp) as (h & nd & Hn & _).
  destruct (Hns h); [|by eapply index_of]. apply pool_nodes_elem. eauto.
Qed.

Lemma view_Delete n p v l i : pool_inv n p → Some l ∈ listenerSet_ p → view_ok p v →
  let '(p', _, notes) := Delete p i in view_ok p' (foldl (see l (world p')) v notes).
Proof.
  intros Hinv Hl Hv. unfold Delete. destruct (resourceNodeMap_ p !! i) as [prm|] eqn:Hp; [|done].
  case_decide as Hc; simpl.
  { intros j. rewrite Hv. unfold Select. simpl. destruct (decide (j = i)) as [->|Hne].
    - by rewrite lookup_insert_eq, Hp.
    - by rewrite lookup_insert_ne. }
  destruct (inv_pooled _ _ Hinv i prm Hp) as (h & nd & Hn & _). rewrite Hn. simpl.
  rewrite (see_notify l _ v _ (λ l, OnResourceNodePoolDelete l (Some h)) Hl).
  - simpl. rewrite decide_True by done. rewrite index_delete, (index_of p n i prm h) by done.
    intros j. unfold Select. simpl. destruct (decide (j = i)) as [->|Hne].
    + by rewrite !lookup_delete_eq.
    + rewrite !lookup_delete_ne by done. apply Hv.
  - intros l' v' Hne. simpl. by rewrite decide_False.
  - intros v'. simpl. rewrite !decide_True by done. apply delete_delete_eq.
Qed.

Lemma view_Insert p v l h : Some l ∈ listenerSet_ p → view_ok p v →
  let '(p', _, notes) := Insert p (Some h) in view_ok p' (foldl (see l (world p')) v notes).
Proof.
  intros Hl Hv. unfold Insert.
  assert (∀ (w : World) note c,
    GetExecutorIndex w h = GetExecutorIndex (world p) h →
    note = OnResourceNodePoolInsert ∨ note = OnResourceNodePoolUpdate →
    view_ok (mkPool w (<[GetExecutorIndex (world p) h := mkParam c (Some h)]> (resourceNodeMap_ p))
      (listenerSet_ p))
      (foldl (see l w) v (notify (listenerSet_ p) (λ l, note l (Some h))))) as Hgen.
  { intros w note c Hw Hnote. rewrite (see_notify l w v _ (λ l, note l (Some h)) Hl).
    - intros j. unfold Select. simpl.
      assert (see l w v (note l (Some h)) = <[GetExecutorIndex (world p) h := h]> v) as ->.
      { destruct Hnote as [-> | ->]; simpl; by rewrite decide_True, Hw. }
      destruct (decide (j = GetExecutorIndex (world p) h)) as [->|Hne].
      + by rewrite !lookup_insert_eq.
      + rewrite !lookup_insert_ne by done. apply Hv.
    - intros l' v' Hne. destruct Hnote as [-> | ->]; simpl; by rewrite decide_False.
    - intros v'. destruct Hnote as [-> | ->]; simpl; rewrite !decide_True by done; apply insert_insert_eq. }
  destruct (resourceNodeMap_ p !! _) as [prm|]; [|apply Hgen; auto].
  case_decide; [done|]. apply Hgen; [|auto]. unfold detach. destruct (node prm); [apply index_detach|done].
Qed.

Lemma pool_step_listeners p op : listenerSet_ (pool_step p op).1 = listenerSet_ p.
Proof.
  destruct op as [h info cb|i| |h]; simpl.
  - case_decide; [done|]. unfold register. destruct (NodeImpl.MakeNewResource env (world p) h info cb) as [w [?|]]; [|done].
    unfold Insert. simpl. destruct (resourceNodeMap_ p !! _); [|by case_decide].
    by destruct (decide (count _ >= UINT32_MAX)).
  - unfold Delete. destruct (resourceNodeMap_ p !! i) as [prm|]; [|done]. case_decide; [done|].
    by destruct (node prm).
  - done.
  - by case_decide.
Qed.

Lemma view_step n p v l op : pool_inv n p → Z.of_nat n < UINT32_MAX → Some l ∈ listenerSet_ p → view_ok p v →
  let '(p', v') := watch l (p, v) op in view_ok p' v'.
Proof.
  intros Hinv Hn Hl Hv. unfold watch. simpl. destruct op as [h info cb|i| |h]; simpl.
  - destruct (decide (is_Some (nodes (world p) !! h))) as [|Hf]; [done|].
    apply eq_None_not_Some in Hf. unfold register.
    pose proof (MakeNewResource_spec (world p) h info cb Hf) as Hm.
    destruct (NodeImpl.MakeNewResource env (world p) h info cb) as [w [[[h' pk] tl]|]]; [|done].
    destruct Hm as (-> & nd & Hw & Ha & Hr).
    pose proof (inv_Insert n p w h nd Hinv Hn Hf Hw Ha Hr) as Hi.
    pose proof (view_Insert (with_world p w) v l h Hl Hv) as Hview.
    destruct (Insert (with_world p w) (Some h)) as [[p' ok] notes]. destruct Hi as [-> _]. done.
  - pose proof (view_Delete n p v l i Hinv Hl Hv). by destruct (Delete p i) as [[? ?] ?].
  - by apply (view_DeleteAll n).
  - by case_decide.
Qed.

Lemma view_run l ops p v n : pool_inv n p → Z.of_nat (n + length ops) ≤ UINT32_MAX →
  Some l ∈ listenerSet_ p → view_ok p v →
  let '(p', v') := foldl (watch l) (p, v) ops in view_ok p' v'.
Proof.
  revert p v n. induction ops as [|op ops IH]; intros p v n Hinv Hlen Hl Hv; simpl in *; [done|].
  pose proof (view_step n p v l op Hinv ltac:(lia) Hl Hv) as Hstep.
  pose proof (inv_step n p op Hinv ltac:(lia)) as Hinv'.
  pose proof (pool_step_listeners p op) as Hls.
  assert (watch l (p, v) op = ((pool_step p op).1, (watch l (p, v) op).2)) as Hw.
  { unfold watch. simpl. by destruct (pool_step p op). }
  rewrite Hw in Hstep |- *. apply (IH _ _ (S n)); [done|lia|by rewrite Hls|done].
Qed.
End Life.

(** ** The properties *)

(** The pool and the driver agree. Whatever sequence of registrations,
    unregistrations, driver failures and node destructions happens, with any
    answers of the driver to the registrations, the executors the driver was
    asked to add and not asked to delete are exactly those in the pool. In
    particular, destroying a node that was replaced by a newer one of the same
    executor never deletes that executor from the driver. *)
Theorem pool_engine_agree (env : Env) (listeners : gset (option Z)) (ops : list pool_op) :
  Z.of_nat (length ops) ≤ UINT32_MAX →
  let p := pool_run env (empty_pool listeners) ops in
  registered (calls (world p)) = dom (resourceNodeMap_ p).
Proof. intros Hlen. exact (inv_driver _ _ (inv_run env ops _ 0 (inv_empty listeners) Hlen)). Qed.

(** The notifications describe the pool. A listener registered from the
    start that enters inserted and updated nodes in a map under their executor
    index, and removes deleted ones, always has the map that [Select] reads. *)
Theorem pool_listener_view (env : Env) (listeners : gset (option Z)) (l : Z) (ops : list pool_op) (i : Z) :
  Z.of_nat (length ops) ≤ UINT32_MAX → Some l ∈ listeners →
  let '(p, v) := foldl (watch env l) (empty_pool listeners, ∅) ops in
  p = pool_run env (empty_pool listeners) ops ∧ v !! i = Select p i.
Proof.
  intros Hlen Hl. pose proof (view_run env l ops (empty_pool listeners) ∅ 0 (inv_empty listeners) Hlen Hl) as H.
  rewrite <- (watch_run env l ops (empty_pool listeners) ∅).
  destruct (foldl (watch env l) (empty_pool listeners, ∅) ops) as [p v]. split; [done|]. by apply H.
Qed.

(** An environment whose driver numbers executors by their authentication
    type and accepts everything. *)
Definition example_env : Env :=
  mkEnv (Some []) (λ _ info, (SUCCESS, authType info, [], [])) (λ _ _, SUCCESS) (λ _ _ _, SUCCESS)
    (λ _ _ _, SUCCESS) (λ _ _ _, SUCCESS) (λ _ _ _, (SUCCESS, [])) (λ _ _ _ _, SUCCESS).
Definition example_info (type role : Z) : ExecutorRegisterInfo :=
  mkRegisterInfo type role 0 0 0 0 [] [Byte.x01] [].
(** A face executor registers twice and unregisters once; the first node dies. *)
Definition example_ops : list pool_op :=
  [Register 100 (example_info FACE ALL_IN_ONE) true; Register 101 (example_info PIN ALL_IN_ONE) true;
   Register 102 (example_info FACE ALL_IN_ONE) true; Release 100; Unregister FACE].

Lemma pool_engine_agree_witness :
  registered (calls (world (pool_run example_env (empty_pool ∅) example_ops))) = {[FACE; PIN]} ∧
  Select (pool_run example_env (empty_pool ∅) example_ops) FACE = Some 102.
Proof.
  split; [|vm_compute; reflexivity].
  rewrite (pool_engine_agree example_env ∅ example_ops) by (vm_compute; discriminate).
  vm_compute. reflexivity.
Defined.

Lemma pool_listener_view_witness :
  Select (pool_run example_env (empty_pool {[Some 7]}) example_ops) FACE = Some 102 ∧
  (foldl (watch example_env 7) (empty_pool {[Some 7]}, ∅) example_ops).2 !! FACE = Some 102.
Proof.
  pose proof (pool_listener_view example_env {[Some 7]} 7 example_ops FACE) as H.
  destruct (foldl (watch example_env 7) _ _) as [p v]. cbn [snd].
  destruct H as [Hp Hv]; [vm_compute; discriminate|apply (bool_decide_unpack _); vm_compute; exact I|].
  rewrite Hv, Hp. split; vm_compute; reflexivity.
Defined.

(** The credentials before the first null pointer. *)
Fixpoint before_null {A} (l : list (option A)) : list A :=
  match l with Some a :: l => a :: before_null l | _ => [] end.

(** Classification groups the credentials by executor. It succeeds exactly
    when no credential is null; every executor's list is what it was followed
    by its credentials in their order (those before the first null pointer if
    there is one); and no list is made for other executors. *)
Theorem classify_groups (in_ : list (option Credential)) (out : gmap Z (list Credential)) (i : Z) :
  let '(out', r) := ClassifyCredInfoByExecutor in_ out in
  let mine := filter (λ c, cred_executorIndex c = i) (before_null in_) in
  (r = SUCCESS ↔ None ∉ in_) ∧ (r = SUCCESS ∨ r = GENERAL_ERROR) ∧
  out' !! i = match out !! i, mine with
              | None, [] => None
              | old, _ => Some (default [] old ++ mine)
              end.
Proof.
  revert out. induction in_ as [|[c|] in_ IH]; intros out; simpl.
  - split_and!; [|by left|destruct (out !! i); simpl; by rewrite ?app_nil_r].
    split; [intros _ []%not_elem_of_nil|done].
  - set (out1 := match out !! cred_executorIndex c with None => _ | _ => _ end).
    specialize (IH (alter (λ v, v ++ [c]) (cred_executorIndex c) out1)).
    destruct (ClassifyCredInfoByExecutor in_ _) as [out' r]. destruct IH as (H1 & H2 & H3).
    split_and!; [rewrite H1; set_solver|done|]. rewrite H3. clear H1 H2 H3.
    destruct (decide (cred_executorIndex c = i)) as [<-|Hne].
    + rewrite lookup_alter_eq, filter_cons_True by done. unfold out1.
      destruct (out !! cred_executorIndex c) as [old|] eqn:Ho; simpl.
      * rewrite Ho. simpl. by rewrite <- app_assoc.
      * rewrite lookup_insert_eq. done.
    + rewrite lookup_alter_ne, filter_cons_False by done. unfold out1.
      destruct (out !! cred_executorIndex c); [done|]. by rewrite lookup_insert_ne.
  - split_and!; [|by right|destruct (out !! i); simpl; by rewrite ?app_nil_r].
    split; [done|]. intros Hn. destruct Hn. constructor.
Qed.
