(* ===== verification/LoadModeHandler.v ===== *)
(** * Load modes

    Models load_mode_handler.cpp with its two implementations,
    load_mode_handler_dynamic.cpp and load_mode_handler_default.cpp, and
    engine_state_manager.cpp. The handler is an interface ([LoadModeHandler]); its
    clients (CoAuthService.v) are written and proved against it.

    The singletons are the fields of one state, [Framework]. An operation runs
    as a whole; where the code lets go of its lock before it calls other
    components, the trace still shows the order. Trace events are left out. *)

From S2P Require Import Prelude Defines Interaction ServiceTypes Attributes Platform IpcCommon UserIdmDatabase.
From S2P Require Import ResourceNode ResourceNodePool LoadMode.

(* @file Y = src/services/load_mode/src/load_mode_handler_dynamic.cpp *)
(* @file L = src/services/load_mode/src/load_mode_handler.cpp *)
(* @file YH = src/services/load_mode/inc/load_mode_handler_dynamic.h *)
(* @file N = src/services/load_mode/src/load_mode_handler_default.cpp *)
(* @file NH = src/services/load_mode/inc/load_mode_handler_default.h *)
(* @file IH = src/services/load_mode/inc/load_mode_handler.h *)
(* @file E = src/services/core/src/engine_state_manager.cpp *)
(* @file EH = src/services/core/inc/engine_state_manager.h *)
(* @file A = src/common/utils/system_ability_listener.cpp *)
(* @file CH = src/services/ipc/inc/co_auth_service.h *)
(* @file SH = src/services/ipc/inc/service_init_manager.h *)

(** ** State *)

(** [constructed] is false until the first use of the singleton. *)
(* @src YH:59-67 LoadModeHandlerDynamic *)
Record HandlerState := mkHandler {
  constructed : bool;
  isSubscribed_ : bool;
  isPinEnrolled_ : bool;
  pinAuthServiceListener_ : bool;
  isExecutorRegistered_ : bool;
  isPinAuthServiceReady_ : bool;
  commonEventServiceListener_ : bool;
  credentialUpdatedListener_ : bool;
  checkServiceReadyTimerId_ : option Z;
}.
Implicit Types h : HandlerState.

(** The functions that are registered for changes of the engine. *)
Inductive EngineUpdateCallback := HandlerReady | HandlerUnavailable | CoAuthReady | CoAuthUnavailable.

(* @src EH:42-46 EngineStateManager *)
Record EngineState := mkEngineState {
  es_isSubscribed_ : bool;
  isEngineRunning_ : option bool;
  startCallbacks_ : list EngineUpdateCallback;
  stopCallbacks_ : list EngineUpdateCallback;
}.
Definition set_es_running (e : EngineState) (b : bool) : EngineState :=
  mkEngineState (es_isSubscribed_ e) (Some b) (startCallbacks_ e) (stopCallbacks_ e).

(* @src CH:69-73 CoAuthService *)
Record CoAuthState := mkCoAuth {
  isReady_ : bool;
  accessTokenReady_ : bool;
  accessTokenListener_ : bool;
}.

(* @src SH:44-48 ServiceInitManager *)
Record InitState := mkInit {
  isUserAuthServiceStart_ : bool;
  isCoAuthServiceStart_ : bool;
  isIdmServiceStart_ : bool;
}.

(** Everything; [next_node] is an address that no resource node has had. *)
Record Framework := mkFramework {
  watchers : Watchers;
  loader : EngineLoadManager.Loader;
  unloader : ServiceUnloadManager.Unloader;
  handler : HandlerState;
  engine : EngineState;
  coauth : CoAuthState;
  services : InitState;
  pool : Pool World;
  next_node : Z;
}.
Implicit Types s : Framework.

Definition Framework_new : Framework :=
  mkFramework [] EngineLoadManager.Loader_new ServiceUnloadManager.Unloader_new
    (mkHandler false false false false false false false false None) (mkEngineState false None [] [])
    (mkCoAuth false false false) (mkInit false false false) (empty_pool ∅) 1.

Section Updates.
Context (s : Framework).
Definition set_watchers (w : Watchers) : Framework :=
  mkFramework w (loader s) (unloader s) (handler s) (engine s) (coauth s) (services s) (pool s) (next_node s).
Definition set_loader (l : EngineLoadManager.Loader) : Framework :=
  mkFramework (watchers s) l (unloader s) (handler s) (engine s) (coauth s) (services s) (pool s) (next_node s).
Definition set_unloader (u : ServiceUnloadManager.Unloader) : Framework :=
  mkFramework (watchers s) (loader s) u (handler s) (engine s) (coauth s) (services s) (pool s) (next_node s).
Definition set_handler (h : HandlerState) : Framework :=
  mkFramework (watchers s) (loader s) (unloader s) h (engine s) (coauth s) (services s) (pool s) (next_node s).
Definition set_engine (e : EngineState) : Framework :=
  mkFramework (watchers s) (loader s) (unloader s) (handler s) e (coauth s) (services s) (pool s) (next_node s).
Definition set_coauth (c : CoAuthState) : Framework :=
  mkFramework (watchers s) (loader s) (unloader s) (handler s) (engine s) c (services s) (pool s) (next_node s).
Definition set_services (i : InitState) : Framework :=
  mkFramework (watchers s) (loader s) (unloader s) (handler s) (engine s) (coauth s) i (pool s) (next_node s).
Definition set_pool (p : Pool World) (n : Z) : Framework :=
  mkFramework (watchers s) (loader s) (unloader s) (handler s) (engine s) (coauth s) (services s) p n.
End Updates.

Section HandlerUpdates.
Context (h : HandlerState).
Definition set_constructed : HandlerState :=
  mkHandler true (isSubscribed_ h) (isPinEnrolled_ h) (pinAuthServiceListener_ h) (isExecutorRegistered_ h)
    (isPinAuthServiceReady_ h) (commonEventServiceListener_ h) (credentialUpdatedListener_ h) (checkServiceReadyTimerId_ h).
Definition set_subscribed (b pinListener : bool) : HandlerState :=
  mkHandler (constructed h) b (isPinEnrolled_ h) pinListener (isExecutorRegistered_ h)
    (isPinAuthServiceReady_ h) (commonEventServiceListener_ h) (credentialUpdatedListener_ h) (checkServiceReadyTimerId_ h).
Definition set_enrolled (b : bool) : HandlerState :=
  mkHandler (constructed h) (isSubscribed_ h) b (pinAuthServiceListener_ h) (isExecutorRegistered_ h)
    (isPinAuthServiceReady_ h) (commonEventServiceListener_ h) (credentialUpdatedListener_ h) (checkServiceReadyTimerId_ h).
Definition set_pin_function (executor service : bool) : HandlerState :=
  mkHandler (constructed h) (isSubscribed_ h) (isPinEnrolled_ h) (pinAuthServiceListener_ h) executor
    service (commonEventServiceListener_ h) (credentialUpdatedListener_ h) (checkServiceReadyTimerId_ h).
Definition set_event_listeners (commonEvent credential : bool) : HandlerState :=
  mkHandler (constructed h) (isSubscribed_ h) (isPinEnrolled_ h) (pinAuthServiceListener_ h) (isExecutorRegistered_ h)
    (isPinAuthServiceReady_ h) commonEvent credential (checkServiceReadyTimerId_ h).
Definition set_check_timer (t : option Z) : HandlerState :=
  mkHandler (constructed h) (isSubscribed_ h) (isPinEnrolled_ h) (pinAuthServiceListener_ h) (isExecutorRegistered_ h)
    (isPinAuthServiceReady_ h) (commonEventServiceListener_ h) (credentialUpdatedListener_ h) t.
End HandlerUpdates.

(** ** The interface *)

(* @src IH:24-46 LoadModeHandler *)
Class LoadModeHandler := {
  GetInstance : Framework → loadk Framework;
  OnFwkReady : Framework → loadk Framework;
  OnExecutorRegistered : Framework → Z → Z → loadk Framework;
  OnExecutorUnregistered : Framework → Z → Z → loadk Framework;
  OnCredentialUpdated : Framework → Z → loadk Framework;
  OnPinAuthServiceReady : Framework → loadk Framework;
  OnPinAuthServiceStop : Framework → loadk Framework;
  OnEngineReady : Framework → loadk Framework;
  OnEngineUnavailable : Framework → loadk Framework;
  SubscribeCredentialUpdatedListener : Framework → loadk Framework;
  OnCommonEventSaStart : Framework → loadk Framework;
  StartCheckServiceReadyTimer : Framework → loadk Framework;
  CancelCheckServiceReadyTimer : Framework → loadk Framework;
  TriggerAllServiceStart : Framework → loadk Framework;
  StartSubscribe : Framework → loadk Framework;
}.

(** [LoadModeHandler::GetInstance().f(...)] *)
Definition on_handler `{LoadModeHandler} (f : Framework → loadk Framework) s : loadk Framework := s ← GetInstance s; f s.

(** ** System abilities *)

(** Whether a listener was made. *)
(* @src A SystemAbilityListener::Subscribe *)
Definition Subscribe (ability : Ability) : loadk bool :=
  sam ← call GetAbilityManager : loadk bool;
  CHECK sam = true ELSE mret false ;;
  listener ← call (NewInstance "SystemAbilityListener") : loadk bool;
  CHECK listener = true ELSE mret false ;;
  ret ← call (SubscribeAbility ability) : loadk Z;
  mret (bool_decide (ret = 0)).

(* @src A SystemAbilityListener::UnSubscribe *)
Definition UnSubscribe (ability : Ability) : loadk Z :=
  sam ← call GetAbilityManager : loadk bool;
  CHECK sam = true ELSE mret 0 ;;
  call (UnSubscribeAbility ability).

(** ** The state of the engine *)

Module EngineStateManager.

(** [run_callback] runs what is registered. *)
Section Callbacks.
Context (run_callback : EngineUpdateCallback → Framework → loadk Framework).

(* @src E EngineStateManager::OnEngineReady *)
Definition OnEngineReady s : loadk Framework :=
  WHEN isEngineRunning_ (engine s) = Some true RETURN mret s ;;
  let s := set_engine s (set_es_running (engine s) true) in
  for_each (λ s callback, run_callback callback s) s (startCallbacks_ (engine s)).

(* @src E EngineStateManager::OnEngineUnavailable *)
Definition OnEngineUnavailable s : loadk Framework :=
  CHECK isEngineRunning_ (engine s) = Some true ELSE mret s ;;
  let s := set_engine s (set_es_running (engine s) false) in
  SetParam FWK_READY_KEY FALSE_STR;;
  SetParam IS_PIN_FUNCTION_READY_KEY FALSE_STR;;
  for_each (λ s callback, run_callback callback s) s (stopCallbacks_ (engine s)).

(* @src E EngineStateManager::RegisterEngineReadyCallback *)
Definition RegisterEngineReadyCallback s (callback : option EngineUpdateCallback) : loadk Framework :=
  match callback with
  | None => mret s
  | Some callback =>
    let e := engine s in
    let s := set_engine s (mkEngineState (es_isSubscribed_ e) (isEngineRunning_ e) (startCallbacks_ e ++ [callback]) (stopCallbacks_ e)) in
    if decide (isEngineRunning_ e = Some true) then run_callback callback s else mret s
  end.

(* @src E EngineStateManager::RegisterEngineUnavailableCallback *)
Definition RegisterEngineUnavailableCallback s (callback : option EngineUpdateCallback) : loadk Framework :=
  match callback with
  | None => mret s
  | Some callback =>
    let e := engine s in
    let s := set_engine s (mkEngineState (es_isSubscribed_ e) (isEngineRunning_ e) (startCallbacks_ e) (stopCallbacks_ e ++ [callback])) in
    if decide (isEngineRunning_ e = Some false) then run_callback callback s else mret s
  end.
End Callbacks.

(* @src E EngineStateManager::StartSubscribe *)
Definition StartSubscribe s : loadk Framework :=
  WHEN es_isSubscribed_ (engine s) = true RETURN mret s ;;
  subscribed ← call EngineSetStatusCallback : loadk bool;
  CHECK subscribed = true ELSE mret s ;;
  let e := engine s in
  mret (set_engine s (mkEngineState true (isEngineRunning_ e) (startCallbacks_ e) (stopCallbacks_ e))).

End EngineStateManager.

(** ** The dynamic mode *)

(** Whether one of the users has a credential of a type; [None] when it is
    not known. *)
Definition any_user (has : Z → service (option bool)) (userIds : list Z) : service (option bool) :=
  r ← for_until (λ _ userId,
      ret ← has userId;
      match ret with
      | None => mret (inl None)
      | Some true => mret (inl (Some true))
      | Some false => mret (inr ())
      end) () userIds;
  match r with inl answer => mret answer | inr _ => mret (Some false) end.

Module Dynamic.

(* @src Y:38-38 WAIT_TIME_FOR_SERVICE_READY *)
Definition WAIT_TIME_FOR_SERVICE_READY : Z := 5000.

(* @src Y:225-244 LoadModeHandlerDynamic::AnyUserHasPinCredential *)
Definition has_pin (userId : Z) : service (option bool) :=
  '(getCredRet, credInfos) ← GetCredentialInfo userId PIN;
  CHECK getCredRet = SUCCESS ELSE
    mret (if decide (getCredRet = ENGINE_UNAVAILABLE) then None else Some false) ;;
  mret (Some (bool_decide (credInfos ≠ []))).

(* @src Y:216-224 LoadModeHandlerDynamic::AnyUserHasPinCredential *)
Definition AnyUserHasPinCredential : service (option bool) :=
  osAccountInfo ← call QueryAllCreatedOsAccounts;
  match osAccountInfo with
  | None => mret None
  | Some ids => any_user has_pin ids
  end.

(** The report of a mismatch only traces; the read before it is kept. *)
(* @src Y LoadModeHandlerDynamic::RefreshIsPinEnrolled *)
Definition RefreshIsPinEnrolled s (shouldReportBigData : bool) : loadk Framework :=
  ret ← lift AnyUserHasPinCredential;
  match ret with
  | None => mret s
  | Some enrolled =>
    let s := set_handler s (set_enrolled (handler s) enrolled) in
    (if shouldReportBigData then GetFlag IS_PIN_ENROLLED_KEY;; mret () else mret ());;
    SetParam IS_PIN_ENROLLED_KEY (if enrolled then TRUE_STR else FALSE_STR);;
    mret s
  end.

(* @src Y LoadModeHandlerDynamic::RefreshIsPinFunctionReady *)
Definition RefreshIsPinFunctionReady s : loadk () :=
  let isPinFunctionReady := isExecutorRegistered_ (handler s) && isPinAuthServiceReady_ (handler s) in
  SetParam IS_PIN_FUNCTION_READY_KEY (if isPinFunctionReady then TRUE_STR else FALSE_STR).

(* @src Y LoadModeHandlerDynamic::OnCredentialUpdated *)
Definition OnCredentialUpdated s (authType : Z) : loadk Framework :=
  CHECK authType = PIN ELSE mret s ;;
  RefreshIsPinEnrolled s false.

(* @src Y LoadModeHandlerDynamic::SubscribeCredentialUpdatedListener *)
Definition SubscribeCredentialUpdatedListener s : loadk Framework :=
  listener ← (if credentialUpdatedListener_ (handler s) then mret true
              else call (Service (MakeShared "CredentialUpdatedListener"))) : loadk bool;
  let s := set_handler s (set_event_listeners (handler s) (commonEventServiceListener_ (handler s)) listener) in
  CHECK listener = true ELSE mret s ;;
  call SubscribeCommonEvent;;
  mret s.

(* @src Y LoadModeHandlerDynamic::SubscribeCommonEventServiceListener *)
Definition SubscribeCommonEventServiceListener s : loadk Framework :=
  listener ← Subscribe CommonEventService;
  mret (set_handler s (set_event_listeners (handler s) listener (credentialUpdatedListener_ (handler s)))).

(* @src Y LoadModeHandlerDynamic::OnCommonEventSaStart *)
Definition OnCommonEventSaStart s : loadk Framework :=
  s ← SubscribeCredentialUpdatedListener s;
  OnCredentialUpdated s PIN.

(* @src Y LoadModeHandlerDynamic::OnEngineReady *)
Definition OnEngineReady s : loadk Framework :=
  l ← EngineLoadManager.OnEngineReady (loader s);
  mret (set_loader s l).

(* @src Y LoadModeHandlerDynamic::OnEngineUnavailable *)
Definition OnEngineUnavailable s : loadk Framework :=
  l ← EngineLoadManager.OnEngineUnavailable (loader s);
  mret (set_loader s l).

(** The callbacks that the constructor registers. *)
Definition own_callback (callback : EngineUpdateCallback) s : loadk Framework :=
  match callback with
  | HandlerReady => OnEngineReady s
  | HandlerUnavailable => OnEngineUnavailable s
  | _ => mret s
  end.

(* @src Y LoadModeHandlerDynamic::LoadModeHandlerDynamic *)
Definition construct s : loadk Framework :=
  let s := set_handler s (set_constructed (handler s)) in
  s ← SubscribeCommonEventServiceListener s;
  s ← EngineStateManager.RegisterEngineReadyCallback own_callback s (Some HandlerReady);
  EngineStateManager.RegisterEngineUnavailableCallback own_callback s (Some HandlerUnavailable).

(* @src Y LoadModeHandlerDynamic::StartSubscribe *)
Definition StartSubscribe s : loadk Framework :=
  WHEN isSubscribed_ (handler s) = true RETURN mret s ;;
  '(l, w) ← EngineLoadManager.StartSubscribe (loader s) (watchers s);
  let s := set_watchers (set_loader s l) w in
  '(u, w) ← ServiceUnloadManager.StartSubscribe (unloader s) (watchers s);
  let s := set_watchers (set_unloader s u) w in
  listener ← if pinAuthServiceListener_ (handler s) then mret true else Subscribe PinAuthService;
  mret (set_handler s (set_subscribed (handler s) listener listener)).

(* @src Y LoadModeHandlerDynamic::OnFwkReady *)
Definition OnFwkReady s : loadk Framework :=
  s ← RefreshIsPinEnrolled s true;
  SetParam IS_CREDENTIAL_CHECKED_KEY TRUE_STR;;
  '(u, isStopSa) ← ServiceUnloadManager.OnFwkReady (unloader s);
  let s := set_unloader s u in
  (if isStopSa : bool then mret () else SetParamTwice FWK_READY_KEY FALSE_STR TRUE_STR);;
  mret s.

(* @src Y LoadModeHandlerDynamic::OnExecutorRegistered *)
Definition OnExecutorRegistered s (authType executorRole : Z) : loadk Framework :=
  WHEN authType ≠ PIN ∨ executorRole ≠ ALL_IN_ONE RETURN mret s ;;
  let s := set_handler s (set_pin_function (handler s) true (isPinAuthServiceReady_ (handler s))) in
  RefreshIsPinFunctionReady s;;
  mret s.

(* @src Y LoadModeHandlerDynamic::OnExecutorUnregistered *)
Definition OnExecutorUnregistered s (authType executorRole : Z) : loadk Framework :=
  WHEN authType ≠ PIN ∨ executorRole ≠ ALL_IN_ONE RETURN mret s ;;
  let s := set_handler s (set_pin_function (handler s) false (isPinAuthServiceReady_ (handler s))) in
  RefreshIsPinFunctionReady s;;
  mret s.

(* @src Y LoadModeHandlerDynamic::OnPinAuthServiceReady *)
Definition OnPinAuthServiceReady s : loadk Framework :=
  let s := set_handler s (set_pin_function (handler s) (isExecutorRegistered_ (handler s)) true) in
  RefreshIsPinFunctionReady s;;
  mret s.

(* @src Y LoadModeHandlerDynamic::OnPinAuthServiceStop *)
Definition OnPinAuthServiceStop s : loadk Framework :=
  let s := set_handler s (set_pin_function (handler s) (isExecutorRegistered_ (handler s)) false) in
  RefreshIsPinFunctionReady s;;
  isPinEnrolled ← GetFlag IS_PIN_ENROLLED_KEY;
  WHEN isPinEnrolled = true RETURN mret s ;;
  isStopSa ← GetFlag STOP_SA_KEY;
  WHEN isStopSa = true RETURN mret s ;;
  SetParamTwice STOP_SA_KEY FALSE_STR TRUE_STR;;
  mret s.

(* @src Y LoadModeHandlerDynamic::StartCheckServiceReadyTimer *)
Definition StartCheckServiceReadyTimer s : loadk Framework :=
  CHECK checkServiceReadyTimerId_ (handler s) = None ELSE mret s ;;
  t ← call (StartTimer CheckServiceReady WAIT_TIME_FOR_SERVICE_READY) : loadk Z;
  mret (set_handler s (set_check_timer (handler s) (Some t))).

(* @src Y LoadModeHandlerDynamic::CancelCheckServiceReadyTimer *)
Definition CancelCheckServiceReadyTimer s : loadk Framework :=
  match checkServiceReadyTimerId_ (handler s) with
  | None => mret s
  | Some t => call (CancelTimer t);; mret (set_handler s (set_check_timer (handler s) None))
  end.

(* @src Y LoadModeHandlerDynamic::TriggerAllServiceStart *)
Definition TriggerAllServiceStart s : loadk Framework :=
  s ← CancelCheckServiceReadyTimer s;
  stopped ← GetFlag STOP_SA_KEY;
  WHEN stopped = true RETURN mret s ;;
  SetParamTwice START_SA_INNER_KEY FALSE_STR TRUE_STR;;
  mret s.

#[export] Instance handler_dynamic : LoadModeHandler := {
  GetInstance s := if constructed (handler s) then mret s else construct s;
  OnFwkReady := OnFwkReady;
  OnExecutorRegistered := OnExecutorRegistered;
  OnExecutorUnregistered := OnExecutorUnregistered;
  OnCredentialUpdated := OnCredentialUpdated;
  OnPinAuthServiceReady := OnPinAuthServiceReady;
  OnPinAuthServiceStop := OnPinAuthServiceStop;
  OnEngineReady := OnEngineReady;
  OnEngineUnavailable := OnEngineUnavailable;
  SubscribeCredentialUpdatedListener := SubscribeCredentialUpdatedListener;
  OnCommonEventSaStart := OnCommonEventSaStart;
  StartCheckServiceReadyTimer := StartCheckServiceReadyTimer;
  CancelCheckServiceReadyTimer := CancelCheckServiceReadyTimer;
  TriggerAllServiceStart := TriggerAllServiceStart;
  StartSubscribe := StartSubscribe;
}.

(** The common event of an updated credential. *)
(* @src Y:47-61 CredentialUpdatedListener::OnReceiveEvent *)
Definition OnReceiveEvent (action authType : bytes) s : loadk Framework :=
  CHECK action = str "USER_CREDENTIAL_UPDATED_EVENT" ELSE mret s ;;
  CHECK authType = str "1" ELSE mret s ;;
  on_handler (λ s, LoadModeHandler.OnCredentialUpdated s PIN) s.

End Dynamic.

(** ** The default mode *)

Module Default.

(** The vector that the first query may have begun to fill is used again by
    the second one. *)
(* @src N:130-145 LoadModeHandlerDefault::AnyUserHasCompanionDeviceCredential *)
Definition has_companion (userId : Z) : service (option bool) :=
  '(getCredRet, credInfos) ← GetCredentialInfo userId COMPANION_DEVICE;
  WHEN getCredRet = SUCCESS ∧ credInfos ≠ [] RETURN mret (Some true) ;;
  '(getCredRet, more) ← GetCredentialInfo userId CUSTOM_AUTH;
  WHEN getCredRet = SUCCESS ∧ credInfos ++ more ≠ [] RETURN mret (Some true) ;;
  mret (Some false).

(* @src N:112-129 LoadModeHandlerDefault::AnyUserHasCompanionDeviceCredential *)
Definition AnyUserHasCompanionDeviceCredential : service (option bool) :=
  osAccountInfo ← call QueryAllCreatedOsAccounts;
  match osAccountInfo with
  | None => mret None
  | Some ids => any_user has_companion ids
  end.

(* @src N LoadModeHandlerDefault::CheckStartCompanionDeviceSa *)
Definition CheckStartCompanionDeviceSa : loadk () :=
  samgr ← call GetAbilityManager : loadk bool;
  CHECK samgr = true ELSE mret () ;;
  object ← call (CheckAbility CompanionDeviceAuth) : loadk bool;
  WHEN object = true RETURN mret () ;;
  SetParam CDA_IS_FUNCTION_READY_KEY FALSE_STR;;
  hasCredentialRet ← lift AnyUserHasCompanionDeviceCredential;
  CHECK hasCredentialRet = Some true ELSE mret () ;;
  SetParamTwice CDA_START_SA_KEY FALSE_STR TRUE_STR.

(* @src N LoadModeHandlerDefault::OnFwkReady *)
Definition OnFwkReady s : loadk Framework :=
  SetParamTwice FWK_READY_KEY FALSE_STR TRUE_STR;;
  CheckStartCompanionDeviceSa;;
  mret s.

(* @src N LoadModeHandlerDefault::OnCredentialUpdated *)
Definition OnCredentialUpdated s (authType : Z) : loadk Framework :=
  WHEN authType ≠ COMPANION_DEVICE ∧ authType ≠ CUSTOM_AUTH RETURN mret s ;;
  CheckStartCompanionDeviceSa;;
  mret s.

(* @src N LoadModeHandlerDefault::StartSubscribe *)
Definition StartSubscribe s : loadk Framework :=
  WHEN isSubscribed_ (handler s) = true RETURN mret s ;;
  mret (set_handler s (set_subscribed (handler s) true (pinAuthServiceListener_ (handler s)))).

(** The other operations do nothing. *)
#[export] Instance handler_default : LoadModeHandler := {
  GetInstance s := mret (set_handler s (set_constructed (handler s)));
  OnFwkReady := OnFwkReady;
  OnExecutorRegistered s _ _ := mret s;
  OnExecutorUnregistered s _ _ := mret s;
  OnCredentialUpdated := OnCredentialUpdated;
  OnPinAuthServiceReady := mret;
  OnPinAuthServiceStop := mret;
  OnEngineReady := mret;
  OnEngineUnavailable := mret;
  SubscribeCredentialUpdatedListener := mret;
  OnCommonEventSaStart := mret;
  StartCheckServiceReadyTimer := mret;
  CancelCheckServiceReadyTimer := mret;
  TriggerAllServiceStart := mret;
  StartSubscribe := StartSubscribe;
}.

End Default.

(** The instance that the build chooses. *)
(* @src L LoadModeHandler::GetInstance *)
Definition load_mode_handler (ENABLE_DYNAMIC_LOAD : bool) : LoadModeHandler :=
  if ENABLE_DYNAMIC_LOAD then Dynamic.handler_dynamic else Default.handler_default.
