(* ===== verification/CoAuthService.v ===== *)
(** * The registration service and the start of the services

    Models co_auth_service.cpp (executors register with the pool of resource
    nodes; the framework becomes ready with the engine and the access token
    service), executor_messenger_service.cpp and message_callback_service.cpp
    (messages to schedules) and service_init_manager.cpp (what starts when the
    three services have started), all against the interface of the load mode.

    [happens] lists what can happen to the framework: requests, the engine, timers,
    parameter changes, system abilities, the death of executors. *)

From S2P Require Import Prelude Defines Interaction ServiceTypes AttributesImpl Attributes Platform IpcCommon UserIdmDatabase.
From S2P Require Import ResourceNode ResourceNodePool LoadMode LoadModeHandler.

(* @file C = src/services/ipc/src/co_auth_service.cpp *)
(* @file M = src/services/ipc/src/executor_messenger_service.cpp *)
(* @file B = src/services/ipc/src/message_callback_service.cpp *)
(* @file I = src/services/ipc/src/service_init_manager.cpp *)
(* @file A = src/common/utils/system_ability_listener.cpp *)
(* @file P = src/common/utils/system_param_manager.cpp *)
(* @file E = src/services/core/src/engine_state_manager.cpp *)
(* @file S = src/services/load_mode/src/service_unload_manager.cpp *)
(* @file L = src/services/load_mode/src/engine_load_manager.cpp *)

Implicit Types s : Framework.

(* @src C:58-58 USERIAM_IPC_THREAD_NUM *)
Definition USERIAM_IPC_THREAD_NUM : Z := 4.

(** ** Messages to schedules *)

(* @src M ExecutorMessengerService::SendData *)
Definition SendData (scheduleId dstRole : Z) (msg : bytes) : loadk Z :=
  scheduleNode ← call (SelectScheduleNode scheduleId) : loadk (option Z);
  match (scheduleNode : option Z) with
  | None => mret GENERAL_ERROR
  | Some schedule =>
    result ← call (ScheduleSendMessage schedule dstRole msg) : loadk bool;
    mret (if (result : bool) then SUCCESS else GENERAL_ERROR)
  end.

(* @src M ExecutorMessengerService::Finish *)
Definition Finish (scheduleId resultCode : Z) (finalResult : bytes) : loadk Z :=
  scheduleNode ← call (SelectScheduleNode scheduleId) : loadk (option Z);
  match (scheduleNode : option Z) with
  | None => mret GENERAL_ERROR
  | Some schedule =>
    attributes ← call (Service (MakeShared "Attributes")) : loadk bool;
    CHECK attributes = true ELSE mret GENERAL_ERROR ;;
    result ← call (ScheduleContinue schedule resultCode (Attributes_of_raw finalResult)) : loadk bool;
    mret (if (result : bool) then SUCCESS else GENERAL_ERROR)
  end.

(* @src B MessageCallbackService::OnMessage *)
Definition OnMessage (scheduleId destRole : Z) (msg : bytes) : loadk Z :=
  scheduleNode ← call (SelectScheduleNode scheduleId) : loadk (option Z);
  match (scheduleNode : option Z) with
  | None => mret GENERAL_ERROR
  | Some schedule =>
    let '(attr, roleRet) := SetInt32Value Attributes_new ATTR_SRC_ROLE SCHEDULER in
    CHECK roleRet = true ELSE mret GENERAL_ERROR ;;
    let '(attr, setExtraInfoRet) := SetUint8ArrayValue attr ATTR_EXTRA_INFO msg in
    CHECK setExtraInfoRet = true ELSE mret GENERAL_ERROR ;;
    ret ← call (ScheduleSendMessage schedule destRole (Serialize attr)) : loadk bool;
    mret (if (ret : bool) then SUCCESS else GENERAL_ERROR)
  end.

(* @src B MessageCallbackService::OnEngineConnect *)
Definition OnEngineConnect : loadk () := call EngineRegisterMessageCallback;; mret ().

(** ** The registration service *)

Definition set_ready s (b : bool) : Framework :=
  set_coauth s (mkCoAuth b (accessTokenReady_ (coauth s)) (accessTokenListener_ (coauth s))).

(* @src C CoAuthService::SetIsReady *)
Definition SetIsReady s (isReady : bool) : Framework := set_ready s isReady.

(* @src C CoAuthService::SetAccessTokenReady *)
Definition SetAccessTokenReady s (isReady : bool) : Framework :=
  set_coauth s (mkCoAuth (isReady_ (coauth s)) isReady (accessTokenListener_ (coauth s))).

(* @src C CoAuthService::IsFwkReady *)
Definition IsFwkReady s : bool := isReady_ (coauth s) && accessTokenReady_ (coauth s).

(* @src C CoAuthService::InitExecutorRegisterInfo *)
Definition InitExecutorRegisterInfo (i : ExecutorRegisterInfo) : ExecutorRegisterInfo :=
  mkRegisterInfo (authType i) (executorRole i) (executorSensorHint i) (executorMatcher i) (esl i) (maxTemplateAcl i)
    (publicKey i) (deviceUdid i) (signedRemoteExecutorInfo i).

Section Service.
Context `{Mode : LoadModeHandler} (env : Env).
#[local] Hint Extern 0 (ResourceNodeOps World) => exact (ResourceNodePool.nodes_ops env) : typeclass_instances.

(* @src C CoAuthService::NotifyFwkReady *)
Definition NotifyFwkReady s : loadk Framework :=
  if IsFwkReady s then on_handler OnFwkReady s else mret s.

(* @src C:121-142 CoAuthService::AddExecutorDeathRecipient *)
Definition AddExecutorDeathRecipient (executorIndex authType role callback : Z) : loadk () :=
  obj ← call (AsObject callback) : loadk bool;
  CHECK obj = true ELSE mret () ;;
  call (AddDeathRecipient callback executorIndex authType role);; mret ().

(** What the death recipient does. *)
(* @src C:128-142 CoAuthService::AddExecutorDeathRecipient *)
Definition executor_died s (executorIndex authType role : Z) : loadk Framework :=
  let s := match Select_lock (pool s) executorIndex with
    | None => s
    | Some _ => let '(p, result, notes) := Delete (pool s) executorIndex in set_pool s p (next_node s)
    end in
  on_handler (λ s, OnExecutorUnregistered s authType role) s.

(** The task that a registration posts. *)
(* @src C:154-170 CoAuthService::ProcExecutorRegisterSuccess *)
Definition registered_task s (h executorIndex callback : Z) (fwkPublicKey : bytes) (templateIdList : list Z) :
    loadk Framework :=
  let w := world (pool s) in
  CHECK is_Some (nodes w !! h) ELSE mret s ;;
  messenger ← call (NewInstance "ExecutorMessengerService") : loadk bool;
  CHECK messenger = true ELSE mret s ;;
  call (OnMessengerReady callback fwkPublicKey templateIdList);;
  s ← on_handler (λ s, OnExecutorRegistered s (GetAuthType w h) (GetExecutorRole w h)) s;
  AddExecutorDeathRecipient executorIndex (GetAuthType w h) (GetExecutorRole w h) callback;;
  call (UpdateTemplateCache (GetAuthType w h));;
  call SyncRiskEvents;;
  mret s.

(* @src C:145-153 CoAuthService::ProcExecutorRegisterSuccess *)
Definition ProcExecutorRegisterSuccess s (h callback : Z) (templateIdList : list Z) (fwkPublicKey : bytes) : loadk Z :=
  let executorIndex := GetExecutorIndex (world (pool s)) h in
  handler ← call (Service GetSingleThreadInstance) : loadk bool;
  CHECK handler = true ELSE mret GENERAL_ERROR ;;
  call (PostRegistered h executorIndex callback fwkPublicKey templateIdList);;
  mret SUCCESS.

(** The code, and [executorIndex]. The node that cannot be inserted is
    destroyed again. *)
(* @src C CoAuthService::ExecutorRegister *)
Definition ExecutorRegister s (c : Caller) (ipcExecutorRegisterInfo : ExecutorRegisterInfo) (executorCallback : option Z) :
    loadk (Framework * Z * Z) :=
  let INVALID_EXECUTOR_INDEX := 0 in
  match executorCallback with
  | None => mret (s, INVALID_PARAMETERS, INVALID_EXECUTOR_INDEX)
  | Some callback =>
    CHECK IsFwkReady s = true ELSE mret (s, GENERAL_ERROR, INVALID_EXECUTOR_INDEX) ;;
    ok ← lift (CheckPermission c ACCESS_AUTH_RESPOOL);
    CHECK ok = true ELSE mret (s, CHECK_PERMISSION_FAILED, INVALID_EXECUTOR_INDEX) ;;
    let h := next_node s in
    let '(w, made) := NodeImpl.MakeNewResource env (world (pool s)) h (InitExecutorRegisterInfo ipcExecutorRegisterInfo) true in
    let s := set_pool s (with_world (pool s) w) (h + 1) in
    match made with
    | None => mret (s, GENERAL_ERROR, INVALID_EXECUTOR_INDEX)
    | Some (_, fwkPublicKey, templateIdList) =>
      let '(p, ok, notes) := Insert (pool s) (Some h) in
      CHECK ok = true ELSE
        mret (set_pool s (with_world p (NodeImpl.destroy env (world p) h)) (next_node s), GENERAL_ERROR, INVALID_EXECUTOR_INDEX) ;;
      let s := set_pool s p (next_node s) in
      ret ← ProcExecutorRegisterSuccess s h callback templateIdList fwkPublicKey;
      mret (s, ret, GetExecutorIndex (world (pool s)) h)
    end
  end.

(* @src C CoAuthService::ExecutorUnregister *)
Definition ExecutorUnregister s (c : Caller) (executorIndex : Z) : loadk (Framework * Z) :=
  CHECK IsFwkReady s = true ELSE mret (s, SUCCESS) ;;
  ok ← lift (CheckPermission c ACCESS_AUTH_RESPOOL);
  CHECK ok = true ELSE mret (s, CHECK_PERMISSION_FAILED) ;;
  match Select_lock (pool s) executorIndex with
  | None => mret (s, GENERAL_ERROR)
  | Some h =>
    let w := world (pool s) in
    s ← on_handler (λ s, OnExecutorUnregistered s (GetAuthType w h) (GetExecutorRole w h)) s;
    let '(p, result, notes) := Delete (pool s) executorIndex in
    mret (set_pool s p (next_node s), if (result : bool) then SUCCESS else GENERAL_ERROR)
  end.

(* @src C CoAuthService::OnEngineReady *)
Definition OnEngineReady s : loadk Framework :=
  WHEN isReady_ (coauth s) = true RETURN mret s ;;
  localUdid ← lift (call Platform.GetLocalDeviceUdid : service (option bytes));
  match (localUdid : option bytes) with
  | None => mret s
  | Some localUdid =>
    initRet ← call (EngineInit localUdid) : loadk Z;
    CHECK initRet = SUCCESS ELSE mret s ;;
    callbackService ← call (NewInstance "MessageCallbackService") : loadk bool;
    CHECK callbackService = true ELSE mret s ;;
    OnEngineConnect;;
    NotifyFwkReady (SetIsReady s true)
  end.

(* @src C CoAuthService::OnEngineUnavailable *)
Definition OnEngineUnavailable s : Framework :=
  CHECK isReady_ (coauth s) = true ELSE s ;;
  let '(p, notes) := DeleteAll (pool s) in
  SetIsReady (set_pool s p (next_node s)) false.

Definition set_token_listener s (b : bool) : Framework :=
  set_coauth s (mkCoAuth (isReady_ (coauth s)) (accessTokenReady_ (coauth s)) b).

(* @src C:312-320 CoAuthService::RegisterAccessTokenListener *)
Definition RegisterAccessTokenListener s : loadk (Framework * Z) :=
  WHEN accessTokenListener_ (coauth s) = true RETURN mret (s, SUCCESS) ;;
  listener ← Subscribe AccessTokenService;
  mret (set_token_listener s listener, if (listener : bool) then SUCCESS else GENERAL_ERROR).

(** What the listener does when the access token service has started. *)
(* @src C:321-331 CoAuthService::RegisterAccessTokenListener *)
Definition access_token_ready s : loadk Framework := NotifyFwkReady (SetAccessTokenReady s true).

(* @src C CoAuthService::UnRegisterAccessTokenListener *)
Definition UnRegisterAccessTokenListener s : loadk (Framework * Z) :=
  CHECK accessTokenListener_ (coauth s) = true ELSE mret (s, SUCCESS) ;;
  ret ← UnSubscribe AccessTokenService;
  CHECK ret = SUCCESS ELSE mret (s, GENERAL_ERROR) ;;
  mret (set_token_listener s false, SUCCESS).

(** [CoAuthService::GetInstance() != nullptr]; the instance is made once. *)
(* @src C CoAuthService::GetInstance *)
Definition coauth_instance : loadk bool := call (NewInstance "CoAuthService").

(** What the dump prints. *)
Inductive DumpLine := DumpUsage | DumpNode (executorIndex authType role : Z) | DumpInvalidOption.

Definition dump_node s (node : option Z) (out : list DumpLine) : list DumpLine :=
  let w := world (pool s) in
  match node with
  | Some h => out ++ [DumpNode (GetExecutorIndex w h) (GetAuthType w h) (GetExecutorRole w h)]
  | None => out
  end.

(* @src C CoAuthService::Dump *)
Definition Dump s (fd : Z) (args : list bytes) : Z * list DumpLine :=
  WHEN fd < 0 RETURN (INVALID_PARAMETERS, []) ;;
  let arg0 := default [] (head args) in
  WHEN arg0 = [] ∨ arg0 = str "-h" RETURN (SUCCESS, [DumpUsage]) ;;
  WHEN arg0 = str "-l" RETURN (SUCCESS, Enumerate (pool s) (Some (dump_node s)) []) ;;
  (GENERAL_ERROR, [DumpInvalidOption]).

(** ** The start of the services *)

(** What is registered with the state of the engine. *)
(* @src I:121-136 ServiceInitManager::CheckAllServiceStart *)
Definition run_callback (callback : EngineUpdateCallback) s : loadk Framework :=
  match callback with
  | HandlerReady => on_handler LoadModeHandler.OnEngineReady s
  | HandlerUnavailable => on_handler LoadModeHandler.OnEngineUnavailable s
  | CoAuthReady => instance ← coauth_instance; if (instance : bool) then OnEngineReady s else mret s
  | CoAuthUnavailable => instance ← coauth_instance; mret (if (instance : bool) then OnEngineUnavailable s else s)
  end.

Definition register_callbacks s : loadk Framework :=
  s ← EngineStateManager.RegisterEngineReadyCallback run_callback s (Some CoAuthReady);
  EngineStateManager.RegisterEngineUnavailableCallback run_callback s (Some CoAuthUnavailable).

(* @src I ServiceInitManager::CheckAllServiceStart *)
Definition CheckAllServiceStart s : loadk Framework :=
  let i := services s in
  let isAllServiceStart := isIdmServiceStart_ i && isCoAuthServiceStart_ i && isUserAuthServiceStart_ i in
  s ← on_handler LoadModeHandler.StartSubscribe s;
  CHECK isAllServiceStart = true ELSE on_handler StartCheckServiceReadyTimer s ;;
  s ← on_handler CancelCheckServiceReadyTimer s;
  call RemoteConnectStart;;
  call RemoteAuthStart;;
  coAuthService ← coauth_instance;
  CHECK coAuthService = true ELSE mret s ;;
  '(s, ret) ← RegisterAccessTokenListener s;
  call OsAccountsStartSubscribe;;
  call PoolStartSubscribeOsAccountSaStatus;;
  call StrongAuthStartSubscribe;;
  s ← register_callbacks s;
  EngineStateManager.StartSubscribe s.

(* @src I ServiceInitManager::CheckAllServiceStop *)
Definition CheckAllServiceStop s : loadk Framework :=
  let i := services s in
  let isAllServiceStop := negb (isIdmServiceStart_ i) && negb (isCoAuthServiceStart_ i) && negb (isUserAuthServiceStart_ i) in
  CHECK isAllServiceStop = true ELSE mret s ;;
  call RemoteConnectStop;;
  coAuthService ← coauth_instance;
  CHECK coAuthService = true ELSE mret s ;;
  '(s, ret) ← UnRegisterAccessTokenListener s;
  mret s.

Definition start_idm s (b : bool) : Framework :=
  set_services s (mkInit (isUserAuthServiceStart_ (services s)) (isCoAuthServiceStart_ (services s)) b).
Definition start_coauth s (b : bool) : Framework :=
  set_services s (mkInit (isUserAuthServiceStart_ (services s)) b (isIdmServiceStart_ (services s))).
Definition start_userauth s (b : bool) : Framework :=
  set_services s (mkInit b (isCoAuthServiceStart_ (services s)) (isIdmServiceStart_ (services s))).

(* @src I ServiceInitManager::OnIdmServiceStart *)
Definition OnIdmServiceStart s : loadk Framework := CheckAllServiceStart (start_idm s true).
(* @src I ServiceInitManager::OnIdmServiceStop *)
Definition OnIdmServiceStop s : loadk Framework := CheckAllServiceStop (start_idm s false).
(* @src I ServiceInitManager::OnCoAuthServiceStart *)
Definition OnCoAuthServiceStart s : loadk Framework := CheckAllServiceStart (start_coauth s true).
(* @src I ServiceInitManager::OnCoAuthServiceStop *)
Definition OnCoAuthServiceStop s : loadk Framework := CheckAllServiceStop (start_coauth s false).
(* @src I ServiceInitManager::OnUserAuthServiceStart *)
Definition OnUserAuthServiceStart s : loadk Framework := CheckAllServiceStart (start_userauth s true).
(* @src I ServiceInitManager::OnUserAuthServiceStop *)
Definition OnUserAuthServiceStop s : loadk Framework := CheckAllServiceStop (start_userauth s false).

(* @src C CoAuthService::OnStart *)
Definition OnStart s : loadk Framework :=
  call (SetMaxWorkThreadNum USERIAM_IPC_THREAD_NUM);;
  published ← call Publish : loadk bool;
  CHECK published = true ELSE mret s ;;
  OnCoAuthServiceStart s.

(* @src C CoAuthService::OnStop *)
Definition OnStop s : loadk Framework := OnCoAuthServiceStop s.

(** ** What happens *)

(** The functions that were given to [WatchParam]. *)
(* @src S:43-73 ServiceUnloadManager::StartSubscribe *)
Definition param_callback (callback : SystemParamCallback) (value : bytes) s : loadk Framework :=
  match callback with
  | OnStopSa => l ← EngineLoadManager.OnSaStopping (loader s) (is_true value); mret (set_loader s l)
  | OnPinEnrolled => u ← ServiceUnloadManager.OnIsPinEnrolledChange (unloader s) (is_true value); mret (set_unloader s u)
  | OnStartSa => u ← ServiceUnloadManager.OnStartSaChange (unloader s) (is_true value); mret (set_unloader s u)
  | OnCredentialChecked => u ← ServiceUnloadManager.OnCredentialCheckedChange (unloader s) (is_true value); mret (set_unloader s u)
  end.

(* @src P SystemParamManager::OnParamChange *)
Definition OnParamChange (key value : bytes) s : loadk Framework :=
  for_each (λ s item, if decide (item.1 = key) then param_callback item.2 value s else mret s) s (watchers s).

(* @src E:42-48 EngineStateManager::StartSubscribe *)
Definition engine_status (running : bool) s : loadk Framework :=
  if running then EngineStateManager.OnEngineReady run_callback s
  else EngineStateManager.OnEngineUnavailable run_callback s.

(** What the listeners of abilities do; [own] is the id of the listener. *)
(* @src A SystemAbilityListener::OnAddSystemAbility *)
Definition OnAddSystemAbility (own systemAbilityId : Ability) s : loadk Framework :=
  match own, systemAbilityId with
  | PinAuthService, PinAuthService => on_handler OnPinAuthServiceReady s
  | CommonEventService, CommonEventService => on_handler OnCommonEventSaStart s
  | AccessTokenService, AccessTokenService =>
    instance ← coauth_instance; if (instance : bool) then access_token_ready s else mret s
  | _, _ => mret s
  end.

(** Only the listener of the PIN service has a [removeFunc_]. *)
(* @src A SystemAbilityListener::OnRemoveSystemAbility *)
Definition OnRemoveSystemAbility (own systemAbilityId : Ability) s : loadk Framework :=
  match own, systemAbilityId with
  | PinAuthService, PinAuthService => on_handler OnPinAuthServiceStop s
  | _, _ => mret s
  end.

Definition fire (timer : LoadTimer) s : loadk Framework :=
  match timer with
  | EngineTimeout => l ← EngineLoadManager.OnTimeout (loader s); mret (set_loader s l)
  | UnloadTimeout => u ← ServiceUnloadManager.OnTimeout (unloader s); mret (set_unloader s u)
  | CheckServiceReady => on_handler TriggerAllServiceStart s
  end.

Inductive happening :=
  | IdmStart | IdmStop | CoAuthStart | CoAuthStop | UserAuthStart | UserAuthStop
  | EngineStatus (running : bool)
  | ParamChange (key value : bytes)
  | TimerFires (timer : LoadTimer)
  | AbilityAdded (own ability : Ability)
  | AbilityRemoved (own ability : Ability)
  | CredentialUpdated (authType : Z)
  | ExecutorRegisters (c : Caller) (info : ExecutorRegisterInfo) (callback : option Z)
  | ExecutorUnregisters (c : Caller) (executorIndex : Z)
  | RegisteredTask (h executorIndex callback : Z) (fwkPublicKey : bytes) (templateIdList : list Z)
  | ExecutorDies (executorIndex authType role : Z)
  | NodeReleased (h : Z).

(** A node is released by its last user, which is not the pool. *)
Definition release_node s (h : Z) : Framework :=
  WHEN Some h ∈ pool_nodes (pool s) RETURN s ;;
  set_pool s (with_world (pool s) (NodeImpl.destroy env (world (pool s)) h)) (next_node s).

Definition happens s (x : happening) : loadk Framework :=
  match x with
  | IdmStart => OnIdmServiceStart s
  | IdmStop => OnIdmServiceStop s
  | CoAuthStart => OnStart s
  | CoAuthStop => OnStop s
  | UserAuthStart => OnUserAuthServiceStart s
  | UserAuthStop => OnUserAuthServiceStop s
  | EngineStatus running => engine_status running s
  | ParamChange key value => OnParamChange key value s
  | TimerFires timer => fire timer s
  | AbilityAdded own ability => OnAddSystemAbility own ability s
  | AbilityRemoved own ability => OnRemoveSystemAbility own ability s
  | CredentialUpdated authType => on_handler (λ s, OnCredentialUpdated s authType) s
  | ExecutorRegisters c info callback => '(s, ret, index) ← ExecutorRegister s c info callback; mret s
  | ExecutorUnregisters c executorIndex => '(s, ret) ← ExecutorUnregister s c executorIndex; mret s
  | RegisteredTask h executorIndex callback key templates => registered_task s h executorIndex callback key templates
  | ExecutorDies executorIndex authType role => executor_died s executorIndex authType role
  | NodeReleased h => mret (release_node s h)
  end.

End Service.
