(* ===== verification/CoAuthThm.v ===== *)
(** * What the registration service guarantees

    The service is written against the load mode; [LoadModeHandlerLaws] is what
    it relies on, and both modes keep it. [framework_registrations]: the driver has
    the executors of the pool, and none while the framework is not ready.
    [framework_announced]: who tells the system that the framework is ready.
    [executor_register]: what a registration answers. *)

From S2P Require Import Prelude Defines Interaction ServiceTypes AttributesImpl Attributes Platform IpcCommon UserIdmDatabase.
From S2P Require Import ResourceNode ResourceNodePool LoadMode LoadModeThm LoadModeHandler CoAuthService.

Implicit Types s : Framework.

(** ** What the mode may do *)

(** It may register its own callbacks, but leaves the registration service and
    the pool alone. *)
Record calm s s' : Prop := {
  calm_coauth : coauth s' = coauth s;
  calm_pool : pool s' = pool s;
  calm_next : next_node s' = next_node s;
  calm_running : isEngineRunning_ (engine s') = isEngineRunning_ (engine s);
  calm_start : ∀ c, c ∈ startCallbacks_ (engine s') → c ∈ startCallbacks_ (engine s) ∨ c = HandlerReady;
  calm_stop : ∀ c, c ∈ stopCallbacks_ (engine s') → c ∈ stopCallbacks_ (engine s) ∨ c = HandlerUnavailable;
}.

Lemma calm_refl s : calm s s.
Proof. by split; auto. Qed.

Lemma calm_trans s1 s2 s3 : calm s1 s2 → calm s2 s3 → calm s1 s3.
Proof.
  intros [A1 A2 A3 Ar A4 A5] [B1 B2 B3 Br B4 B5]. split; [congruence..| |].
  - intros c [Hc| ->]%B4; [by apply A4|by right].
  - intros c [Hc| ->]%B5; [by apply A5|by right].
Qed.

(** The call that tells the system that the framework is ready. *)
Definition announces (q : load) : bool :=
  match q with SetParameter key value => bool_decide (key = FWK_READY_KEY) && bool_decide (value = TRUE_STR) | _ => false end.
Definition discreet (q : load) : bool := negb (announces q).

Inductive handler_op :=
  | OpGetInstance | OpFwkReady
  | OpRegistered (authType role : Z) | OpUnregistered (authType role : Z) | OpUpdated (authType : Z)
  | OpPinReady | OpPinStop | OpEngineReady | OpEngineUnavailable
  | OpSubscribeCredential | OpCommonEvent | OpStartTimer | OpCancelTimer | OpTrigger | OpSubscribe.

Definition handler_step `{LoadModeHandler} (op : handler_op) s : loadk Framework :=
  match op with
  | OpGetInstance => GetInstance s
  | OpFwkReady => OnFwkReady s
  | OpRegistered authType role => OnExecutorRegistered s authType role
  | OpUnregistered authType role => OnExecutorUnregistered s authType role
  | OpUpdated authType => OnCredentialUpdated s authType
  | OpPinReady => OnPinAuthServiceReady s
  | OpPinStop => OnPinAuthServiceStop s
  | OpEngineReady => LoadModeHandler.OnEngineReady s
  | OpEngineUnavailable => LoadModeHandler.OnEngineUnavailable s
  | OpSubscribeCredential => SubscribeCredentialUpdatedListener s
  | OpCommonEvent => OnCommonEventSaStart s
  | OpStartTimer => StartCheckServiceReadyTimer s
  | OpCancelTimer => CancelCheckServiceReadyTimer s
  | OpTrigger => TriggerAllServiceStart s
  | OpSubscribe => LoadModeHandler.StartSubscribe s
  end.

(** The system is told that the framework is ready, or to stop the service; the
    first of two values may be the one that cannot be set. *)
Definition decisive (e : event load_answer) : Prop :=
  ∃ key value, asked e = SetParameter key value ∧ (key = FWK_READY_KEY ∨ key = STOP_SA_KEY).

Class LoadModeHandlerLaws `{LoadModeHandler} : Prop := {
  handler_calm op s : gives (handler_step op s) (calm s);
  handler_discreet op s : op ≠ OpFwkReady → only discreet (handler_step op s);
  handler_decides s : leaves (OnFwkReady s) (λ _ u, Exists decisive u);
}.

(** ** Both modes *)

#[export] Hint Resolve calm_refl : core.
#[export] Hint Extern 2 (calm _ _) => solve [split; simpl; auto] : core.

Lemma calm_bind s (m : loadk Framework) (k : Framework → loadk Framework) :
  gives m (calm s) → (∀ s', gives (k s') (calm s')) → gives (m ≫= k) (calm s).
Proof.
  intros Hm Hk. eapply gives_bind; [exact Hm|]. intros s' H. eapply gives_mono; [apply Hk|].
  intros s'' H'. by eapply calm_trans.
Qed.

(** The state changes and the program goes on. *)
Lemma calm_then s s' (m : loadk Framework) : calm s s' → gives m (calm s') → gives m (calm s).
Proof. intros H Hm. eapply gives_mono; [exact Hm|]. intros s'' H'. by eapply calm_trans. Qed.

Lemma only_lift C {A} (m : service A) : (∀ q, C (Service q) = true) → only C (lift m).
Proof.
  intros HC. induction m as [a|q k IH]; simpl; [apply only_ret|].
  change (only C (call (Service q : load) ≫= (λ r, lift (k r)))). apply only_bind; [by apply (@only_call load load_answer _ (Service q))|exact IH].
Qed.

Lemma leaves_SetParamTwice key v v' : key = FWK_READY_KEY ∨ key = STOP_SA_KEY →
  leaves (SetParamTwice key v v') (λ _ u, Exists decisive u).
Proof.
  intros Hk. unfold SetParamTwice.
  assert (∀ value : bytes, leaves (call (SetParameter key value) : loadk Z) (λ _ u, Exists decisive u)) as K.
  { intros value. apply (@leaves_call load load_answer (SetParameter key value)). intros r. constructor. by exists key, value. }
  eapply leaves_bind; [apply leaves_any|]. intros cur u _. case_decide as Hc.
  - eapply leaves_bind; [apply K|]. intros ret u1 Hu1. eapply leaves_mono; [apply leaves_any|].
    intros _ w _. apply Exists_app. right. apply Exists_app. by left.
  - eapply leaves_bind; [apply (leaves_ret 0 (λ ret u1, ret = 0)); done|]. intros ret u1 ->. rewrite decide_True by done.
    eapply leaves_bind; [apply K|]. intros r u2 Hu2. apply leaves_ret. rewrite app_nil_r.
    apply Exists_app. right. apply Exists_app. by right.
Qed.

Ltac calm_steps :=
  repeat first
    [ progress cbv zeta
    | apply gives_ret; solve [auto]
    | case_decide
    | match goal with
      | |- gives (_ ≫= _) (calm _) => first [apply calm_bind; [solve [auto]|intros ?]|apply gives_skip; intros ?]
      | |- gives (match ?x with _ => _ end) _ => destruct x
      end ].

(** Setting another parameter announces nothing. *)
Lemma discreet_SetParam k v : discreet (SetParameter k v) = true → only discreet (SetParam k v).
Proof. intros H. unfold SetParam, GetParam. only_steps. Qed.
Lemma discreet_SetParamTwice k v v' : discreet (SetParameter k v) = true → discreet (SetParameter k v') = true →
  only discreet (SetParamTwice k v v').
Proof. intros H H'. unfold SetParamTwice, GetParam. only_steps. Qed.
Lemma discreet_GetFlag k : only discreet (GetFlag k).
Proof. unfold GetFlag, GetParam. only_steps. Qed.
Lemma discreet_WatchParam w k c : only discreet (WatchParam w k c).
Proof. unfold WatchParam. only_steps. Qed.
Lemma discreet_Subscribe a : only discreet (Subscribe a).
Proof. unfold Subscribe. only_steps. Qed.
#[export] Hint Extern 0 (discreet _ = true) => reflexivity : service.
#[export] Hint Resolve discreet_SetParam discreet_SetParamTwice discreet_GetFlag discreet_WatchParam discreet_Subscribe : service.

Section Managers.
Import EngineLoadManager ServiceUnloadManager.
Lemma discreet_Process l : only discreet (ProcessServiceStatus l).
Proof. unfold ProcessServiceStatus, Load, Unload. only_steps. Qed.
#[local] Hint Resolve discreet_Process : service.
Lemma discreet_loader l op : only discreet (LoaderLaws.loader_step l op).
Proof. destruct op; simpl; unfold EngineLoadManager.StartSubscribe; only_steps; apply discreet_Process. Qed.
Lemma discreet_StopTimer u : only discreet (StopTimer u).
Proof. unfold StopTimer. only_steps. Qed.
Lemma discreet_RestartTimer u : only discreet (RestartTimer u).
Proof. unfold RestartTimer, StopTimer. only_steps. Qed.
#[local] Hint Resolve discreet_StopTimer discreet_RestartTimer : service.
Lemma discreet_unloader u op : only discreet (UnloaderLaws.unload_step u op).
Proof.
  destruct op; simpl; unfold ServiceUnloadManager.StartSubscribe, ServiceUnloadManager.OnTimeout, OnIsPinEnrolledChange,
    OnStartSaChange, OnCredentialCheckedChange, ServiceUnloadManager.OnFwkReady; only_steps.
Qed.
Lemma discreet_StartLoader l w : only discreet (EngineLoadManager.StartSubscribe l w).
Proof. unfold EngineLoadManager.StartSubscribe, EngineLoadManager.OnSaStopping. only_steps. Qed.
Lemma discreet_StartUnloader u w : only discreet (ServiceUnloadManager.StartSubscribe u w).
Proof. unfold ServiceUnloadManager.StartSubscribe, OnIsPinEnrolledChange, OnStartSaChange, OnCredentialCheckedChange. only_steps. Qed.
End Managers.
#[export] Hint Resolve discreet_StartLoader discreet_StartUnloader : service.

Module DynamicLaws.
Import Dynamic.

Lemma calm_refresh s b : gives (RefreshIsPinEnrolled s b) (calm s).
Proof. unfold RefreshIsPinEnrolled. calm_steps. Qed.
#[local] Hint Resolve calm_refresh : core.

Lemma calm_listener s : gives (SubscribeCommonEventServiceListener s) (calm s).
Proof. unfold SubscribeCommonEventServiceListener. calm_steps. Qed.
Lemma calm_credential s : gives (SubscribeCredentialUpdatedListener s) (calm s).
Proof. unfold SubscribeCredentialUpdatedListener. calm_steps. Qed.
Lemma calm_updated s ty : gives (OnCredentialUpdated s ty) (calm s).
Proof. unfold OnCredentialUpdated. calm_steps. auto. Qed.
Lemma calm_cancel s : gives (CancelCheckServiceReadyTimer s) (calm s).
Proof. unfold CancelCheckServiceReadyTimer. calm_steps. Qed.
#[local] Hint Resolve calm_listener calm_credential calm_updated calm_cancel : core.

Lemma calm_own c s : gives (own_callback c s) (calm s).
Proof. destruct c; simpl; unfold OnEngineReady, OnEngineUnavailable; calm_steps. Qed.

Lemma calm_construct s : gives (construct s) (calm s).
Proof.
  unfold construct, EngineStateManager.RegisterEngineReadyCallback, EngineStateManager.RegisterEngineUnavailableCallback.
  cbv zeta. eapply calm_then; [|apply calm_bind; [apply calm_listener|intros s1]]; [auto|].
  apply calm_bind; [|intros s2].
  - assert (calm s1 (set_engine s1 (mkEngineState (es_isSubscribed_ (engine s1)) (isEngineRunning_ (engine s1))
      (startCallbacks_ (engine s1) ++ [HandlerReady]) (stopCallbacks_ (engine s1))))) as H.
    { split; simpl; auto. intros c [H|H%list_elem_of_singleton]%elem_of_app; auto. }
    case_decide; [eapply calm_then; [exact H|apply calm_own]|by apply gives_ret].
  - assert (calm s2 (set_engine s2 (mkEngineState (es_isSubscribed_ (engine s2)) (isEngineRunning_ (engine s2))
      (startCallbacks_ (engine s2)) (stopCallbacks_ (engine s2) ++ [HandlerUnavailable])))) as H.
    { split; simpl; auto. intros c [H|H%list_elem_of_singleton]%elem_of_app; auto. }
    case_decide; [eapply calm_then; [exact H|apply calm_own]|by apply gives_ret].
Qed.
#[local] Hint Resolve calm_construct : core.

Lemma calm_step op s : gives (handler_step op s) (calm s).
Proof.
  destruct op; simpl; auto;
    unfold OnFwkReady, OnExecutorRegistered, OnExecutorUnregistered, OnPinAuthServiceReady,
      OnPinAuthServiceStop, OnEngineReady, OnEngineUnavailable, OnCommonEventSaStart,
      StartCheckServiceReadyTimer, TriggerAllServiceStart, StartSubscribe; calm_steps; auto.
Qed.

(** Nothing but [OnFwkReady] announces. *)
(** Nothing but [OnFwkReady] announces. *)
Lemma discreet_param q : param_read q = true → discreet q = true.
Proof. by destruct q. Qed.

Lemma discreet_refresh s b : only discreet (RefreshIsPinEnrolled s b).
Proof.
  unfold RefreshIsPinEnrolled. apply only_bind; [by apply only_lift|]. intros [e|]; [|by apply only_ret].
  only_steps; apply discreet_SetParam; by destruct e.
Qed.
#[local] Hint Resolve discreet_refresh : service.
Lemma discreet_engine s : only discreet (OnEngineReady s) ∧ only discreet (OnEngineUnavailable s).
Proof. split; unfold OnEngineReady, OnEngineUnavailable; apply only_bind; [apply (discreet_loader _ LoaderLaws.LoReady)|intros; apply only_ret|apply (discreet_loader _ LoaderLaws.LoUnavailable)|intros; apply only_ret]. Qed.
Lemma discreet_function s : only discreet (RefreshIsPinFunctionReady s).
Proof. by apply discreet_SetParam. Qed.
Lemma discreet_OnUpdated s ty : only discreet (OnCredentialUpdated s ty).
Proof. unfold OnCredentialUpdated. only_steps. Qed.
Lemma discreet_cancel s : only discreet (CancelCheckServiceReadyTimer s).
Proof. unfold CancelCheckServiceReadyTimer. only_steps. Qed.
Lemma discreet_own c s : only discreet (own_callback c s).
Proof. destruct c; simpl; [apply discreet_engine..|by apply only_ret|by apply only_ret]. Qed.
#[local] Hint Resolve discreet_function discreet_OnUpdated discreet_cancel discreet_own : service.

Lemma discreet_step op s : op ≠ OpFwkReady → only discreet (handler_step op s).
Proof.
  intros Hop. destruct op; simpl; try done; try apply discreet_engine;
    unfold construct, OnExecutorRegistered, OnExecutorUnregistered, OnPinAuthServiceReady, OnPinAuthServiceStop,
      OnCommonEventSaStart, SubscribeCredentialUpdatedListener, SubscribeCommonEventServiceListener,
      EngineStateManager.RegisterEngineReadyCallback, EngineStateManager.RegisterEngineUnavailableCallback,
      StartCheckServiceReadyTimer, TriggerAllServiceStart, StartSubscribe; only_steps.
Qed.

Lemma decides s : leaves (OnFwkReady s) (λ _ u, Exists decisive u).
Proof.
  unfold OnFwkReady. eapply leaves_bind; [apply leaves_any|]. intros s1 u1 _.
  eapply leaves_bind; [apply leaves_any|]. intros _ u2 _.
  eapply (leaves_bind _ _ (λ r v, r.2 = true → Exists decisive v)).
  - unfold ServiceUnloadManager.OnFwkReady. eapply leaves_bind; [apply leaves_any|]. intros b v _. cbv zeta.
    do 2 (case_decide; [by apply leaves_ret|]). eapply leaves_bind; [apply leaves_SetParamTwice; by right|].
    intros [] w Hw. apply leaves_ret. intros _. rewrite app_nil_r. apply Exists_app. by right.
  - intros [u []] v Hv; simpl in *.
    + apply leaves_ret. rewrite app_nil_r, !Exists_app. auto.
    + eapply leaves_bind; [apply leaves_SetParamTwice; by left|]. intros [] w Hw. apply leaves_ret. rewrite !Exists_app. auto.
Qed.

#[export] Instance dynamic_laws : LoadModeHandlerLaws :=
  { handler_calm := calm_step; handler_discreet := discreet_step; handler_decides := decides }.
End DynamicLaws.

Module DefaultLaws.
Import Default.

Lemma discreet_check : only discreet CheckStartCompanionDeviceSa.
Proof.
  unfold CheckStartCompanionDeviceSa, SetParam, SetParamTwice, GetParam.
  repeat first [apply only_lift; done | step]; done.
Qed.

#[export] Instance default_laws : LoadModeHandlerLaws.
Proof.
  split.
  - intros op s. destruct op; simpl; unfold OnFwkReady, OnCredentialUpdated, StartSubscribe; calm_steps.
  - intros op s Hop. destruct op; simpl; unfold OnCredentialUpdated, StartSubscribe; try done; repeat step; apply discreet_check.
  - intros s. simpl. unfold OnFwkReady. eapply leaves_bind; [apply leaves_SetParamTwice; by left|]. intros [] u Hu.
    eapply leaves_mono; [apply leaves_any|]. intros _ v _. apply Exists_app. by left.
Qed.
End DefaultLaws.

Lemma load_mode_laws b : @LoadModeHandlerLaws (load_mode_handler b).
Proof. destruct b; [exact DynamicLaws.dynamic_laws|exact DefaultLaws.default_laws]. Qed.

(** ** The driver, the pool and the framework *)

Section Nodes.
Context (env : Env).
#[local] Hint Extern 0 (ResourceNodeOps World) => exact (ResourceNodePool.nodes_ops env) : typeclass_instances.
#[local] Arguments DeleteFromEngine : simpl never.
#[local] Arguments DetachFromEngine : simpl never.
#[local] Arguments GetExecutorIndex : simpl never.

(** All nodes have addresses below [next]. *)
Definition below (next : Z) (w : World) : Prop := ∀ h, is_Some (nodes w !! h) → h < next.

Lemma below_sub next w w' : (∀ h, is_Some (nodes w' !! h) → is_Some (nodes w !! h)) → below next w → below next w'.
Proof. intros H Hb h Hh. apply Hb, H, Hh. Qed.

Lemma alter_some (f : ResourceNode → ResourceNode) (m : gmap Z ResourceNode) k h : is_Some (alter f k m !! h) → is_Some (m !! h).
Proof. rewrite <- !elem_of_dom, dom_alter_L. done. Qed.

Lemma below_Delete next p i : below next (world p) → below next (world (Delete p i).1.1).
Proof.
  apply below_sub. intros h. unfold Delete. destruct (resourceNodeMap_ p !! i) as [prm|]; [|done].
  case_decide; [done|]. simpl. destruct (node prm) as [h0|]; [|done]. simpl. rewrite (DeleteFromEngine_nodes env). apply alter_some.
Qed.

Lemma below_DeleteAll next p : below next (world p) → below next (world (DeleteAll p).1).
Proof.
  apply below_sub. intros h. simpl. rewrite (delete_all_nodes env). case_bool_decide; [by rewrite fmap_is_Some|done].
Qed.

Lemma below_Insert next p w h : below next w → below next (world (Insert (with_world p w) (Some h)).1.1).
Proof.
  apply below_sub. intros k. unfold Insert. simpl. destruct (resourceNodeMap_ p !! _) as [prm|]; [|done].
  case_decide; [done|]. simpl. unfold detach. destruct (node prm) as [h0|]; [|done]. simpl.
  rewrite (proj1 (DetachFromEngine_nodes env w h0)). apply alter_some.
Qed.

Lemma below_destroy next w h : below next w → below next (NodeImpl.destroy env w h).
Proof.
  apply below_sub. intros k. unfold NodeImpl.destroy, NodeImpl.on_node. destruct (nodes w !! h); [|done].
  case_decide; simpl; [|]; rewrite <- !elem_of_dom, dom_delete_L; set_solver.
Qed.

End Nodes.

Section Laws.
Context {Mode : LoadModeHandler} {Laws : LoadModeHandlerLaws} (env : Env).
#[local] Hint Extern 0 (ResourceNodeOps World) => exact (ResourceNodePool.nodes_ops env) : typeclass_instances.
#[local] Arguments DeleteFromEngine : simpl never.
#[local] Arguments DetachFromEngine : simpl never.
#[local] Arguments GetExecutorIndex : simpl never.
#[local] Arguments Insert : simpl never.

(** [n] bounds how often an executor was registered. *)
Record fw_ok (n : nat) s : Prop := {
  ok_pool : pool_inv n (pool s);
  ok_below : below (next_node s) (world (pool s));
  ok_empty : isReady_ (coauth s) = false → resourceNodeMap_ (pool s) = ∅;
  ok_start : ∀ c, c ∈ startCallbacks_ (engine s) → c = HandlerReady ∨ c = CoAuthReady;
  ok_stop : ∀ c, c ∈ stopCallbacks_ (engine s) → c = HandlerUnavailable ∨ c = CoAuthUnavailable;
}.

Lemma ok_calm n s s' : calm s s' → fw_ok n s → fw_ok n s'.
Proof.
  intros [E1 E2 E3 _ H4 H5] [A1 A2 A3 A4 A5]. split; rewrite ?E1, ?E2, ?E3; [done..| |].
  - intros c [Hc| ->]%H4; [by apply A4|by left].
  - intros c [Hc| ->]%H5; [by apply A5|by left].
Qed.

Lemma fw_mono n s : fw_ok n s → fw_ok (S n) s.
Proof. intros []. split; auto. by apply inv_mono. Qed.

Lemma ok_handler n op s : fw_ok n s → gives (on_handler (handler_step op) s) (fw_ok n).
Proof using Laws.
  intros H. unfold on_handler. eapply gives_bind; [apply (handler_calm OpGetInstance)|]. intros s1 H1.
  eapply gives_mono; [apply handler_calm|]. intros s2 H2. by eapply ok_calm, ok_calm.
Qed.

Lemma ok_set_pool n s p next : fw_ok n s → pool_inv n p → below next (world p) →
  (resourceNodeMap_ (pool s) = ∅ → resourceNodeMap_ p = ∅) → fw_ok n (set_pool s p next).
Proof. intros [A1 A2 A3 A4 A5] H1 H2 H3. split; simpl; auto. Qed.

Lemma ok_token n s b b' : fw_ok n s → fw_ok n (set_coauth s (mkCoAuth (isReady_ (coauth s)) b b')).
Proof. intros []. split; simpl; auto. Qed.

Lemma ok_ready n s : fw_ok n s → fw_ok n (SetIsReady s true).
Proof. intros []. split; simpl; auto. done. Qed.

Lemma Delete_empty (p : Pool World) i : resourceNodeMap_ p = ∅ → resourceNodeMap_ (Delete p i).1.1 = ∅.
Proof. intros E. unfold Delete. by rewrite E, lookup_empty. Qed.

Lemma ok_Delete n s i : fw_ok n s → fw_ok n (set_pool s (Delete (pool s) i).1.1 (next_node s)).
Proof.
  intros H. pose proof H as []. apply ok_set_pool; [done|by apply inv_Delete|by apply below_Delete|by apply Delete_empty].
Qed.

Lemma ok_Notify n s : fw_ok n s → gives (NotifyFwkReady s) (fw_ok n).
Proof using Laws. intros H. unfold NotifyFwkReady. destruct (IsFwkReady s); [by apply (ok_handler n OpFwkReady)|by apply gives_ret]. Qed.

Lemma ok_OnEngineReady n s : fw_ok n s → gives (OnEngineReady s) (fw_ok n).
Proof using Laws.
  intros H. unfold OnEngineReady. case_decide; [by apply gives_ret|]. apply gives_skip. intros [udid|]; [|by apply gives_ret].
  apply gives_skip. intros r. case_decide; [|by apply gives_ret]. apply gives_skip. intros b.
  case_decide; [|by apply gives_ret]. apply gives_skip. intros _. by apply ok_Notify, ok_ready.
Qed.

Lemma ok_OnEngineUnavailable n s : fw_ok n s → fw_ok n (OnEngineUnavailable env s).
Proof.
  intros H. unfold OnEngineUnavailable. case_decide; [|done]. pose proof H as [].
  destruct (DeleteAll (pool s)) as [p notes] eqn:E. pose proof (inv_DeleteAll env n (pool s)) as K1.
  pose proof (below_DeleteAll env (next_node s) (pool s)) as K2. rewrite E in K1, K2. simpl in *.
  split; simpl; auto. intros _. unfold DeleteAll in E. by injection E as <- <-.
Qed.

Lemma ok_register n s c info callback : fw_ok n s → Z.of_nat n < UINT32_MAX →
  gives (ExecutorRegister env s c info callback) (λ r, fw_ok (S n) r.1.1).
Proof.
  intros H Hn. pose proof H as [A1 A2 A3 A4 A5]. unfold ExecutorRegister.
  destruct callback as [cb|]; [|by apply gives_ret, fw_mono]. case_decide as Hr; [|by apply gives_ret, fw_mono].
  apply gives_skip. intros ok. case_decide; [|by apply gives_ret, fw_mono]. cbv zeta.
  assert (nodes (world (pool s)) !! next_node s = None) as Hf.
  { apply eq_None_not_Some. intros Hh%A2. lia. }
  pose proof (MakeNewResource_spec env (world (pool s)) (next_node s) (InitExecutorRegisterInfo info) true Hf) as Hm.
  assert (isReady_ (coauth s) = true) as Hready by (unfold IsFwkReady in Hr; by destruct (isReady_ (coauth s))).
  destruct (NodeImpl.MakeNewResource _ _ _ _ _) as [w [[[h' pk] tl]|]].
  - destruct Hm as (-> & nd & Hw & Ha & Hreg). simpl.
    pose proof (inv_Insert env n (pool s) w (next_node s) nd A1 Hn Hf Hw Ha Hreg) as Hi.
    assert (below (next_node s + 1) w) as Hbw.
    { intros h. rewrite Hw. intros [x [[<- _]|[_ Hx]]%lookup_insert_Some]; [lia|]. assert (h < next_node s) by (apply A2; eauto). lia. }
    pose proof (below_Insert env _ (pool s) w (next_node s) Hbw) as Hb.
    destruct (Insert _ _) as [[p' ok'] notes]. destruct Hi as [-> Hi]. simpl in *.
    apply gives_skip. intros ret. apply gives_ret. simpl. split; simpl; auto. congruence.
  - destruct Hm as [Hw Hreg]. apply gives_ret. simpl. apply fw_mono. split; simpl; auto.
    + destruct A1 as [B1 B2 B3]. split; simpl; rewrite ?Hw, ?Hreg; done.
    + intros h. rewrite Hw. intros Hh%A2. lia.
Qed.

(** The handlers of the mode, as the code calls them. *)
Lemma ok_GetInstance n s : fw_ok n s → gives (GetInstance s) (fw_ok n).
Proof using Laws. intros H. eapply gives_mono; [apply (handler_calm OpGetInstance)|]. intros s1 Hs1. by eapply ok_calm. Qed.

Lemma ok_step n op s f : (∀ s, f s = handler_step op s) → fw_ok n s → gives (on_handler f s) (fw_ok n).
Proof using Laws.
  intros Hf H. unfold on_handler. eapply gives_bind; [by apply ok_GetInstance|]. intros s1 Hs1. rewrite Hf.
  eapply gives_mono; [apply handler_calm|]. intros s2 Hs2. by eapply ok_calm.
Qed.

Lemma ok_unregister n s c i : fw_ok n s → gives (ExecutorUnregister env s c i) (λ r, fw_ok n r.1).
Proof using Laws.
  intros H. unfold ExecutorUnregister. case_decide; [|by apply gives_ret]. apply gives_skip. intros ok.
  case_decide; [|by apply gives_ret]. destruct (Select_lock _ _) as [h|]; [|by apply gives_ret]. cbv zeta.
  eapply gives_bind; [eapply (ok_step n (OpUnregistered _ _)); [intros; reflexivity|done]|]. intros s1 Hs1. pose proof (ok_Delete n s1 i Hs1) as K.
  destruct (Delete (pool s1) i) as [[p r] notes]. by apply gives_ret.
Qed.

Lemma ok_died n s i ty role : fw_ok n s → gives (executor_died env s i ty role) (fw_ok n).
Proof using Laws.
  intros H. unfold executor_died. cbv zeta. apply (ok_step n (OpUnregistered ty role)); [done|].
  destruct (Select_lock _ _); [|done]. pose proof (ok_Delete n s i H) as K. by destruct (Delete (pool s) i) as [[p r] notes].
Qed.

Lemma ok_task n s h i cb key templates : fw_ok n s → gives (registered_task env s h i cb key templates) (fw_ok n).
Proof using Laws.
  intros H. unfold registered_task. cbv zeta. case_decide; [|by apply gives_ret]. apply gives_skip. intros b.
  case_decide; [|by apply gives_ret]. apply gives_skip. intros _.
  eapply gives_bind; [eapply (ok_step n (OpRegistered _ _)); [intros; reflexivity|done]|]. intros s1 Hs1. do 3 (apply gives_skip; intros _). by apply gives_ret.
Qed.

Lemma ok_callback n c s : fw_ok n s → gives (run_callback env c s) (fw_ok n).
Proof using Laws.
  intros H. destruct c; simpl; [by apply (ok_step n OpEngineReady)|by apply (ok_step n OpEngineUnavailable)| |].
  - apply gives_skip. intros []; [by apply ok_OnEngineReady|by apply gives_ret].
  - apply gives_skip. intros []; apply gives_ret; [by apply ok_OnEngineUnavailable|done].
Qed.

Lemma ok_callbacks n s : fw_ok n s → gives (register_callbacks env s) (fw_ok n).
Proof using Laws.
  intros H. unfold register_callbacks, EngineStateManager.RegisterEngineReadyCallback, EngineStateManager.RegisterEngineUnavailableCallback.
  cbv zeta. eapply (gives_bind _ _ (fw_ok n)).
  - assert (fw_ok n (set_engine s (mkEngineState (es_isSubscribed_ (engine s)) (isEngineRunning_ (engine s))
      (startCallbacks_ (engine s) ++ [CoAuthReady]) (stopCallbacks_ (engine s))))) as K.
    { destruct H as []. split; simpl; auto. intros c [Hc|Hc%list_elem_of_singleton]%elem_of_app; auto. }
    case_decide; [by apply (ok_callback n CoAuthReady)|by apply gives_ret].
  - intros s1 [A1 A2 A3 A4 A5]. assert (fw_ok n (set_engine s1 (mkEngineState (es_isSubscribed_ (engine s1)) (isEngineRunning_ (engine s1))
      (startCallbacks_ (engine s1)) (stopCallbacks_ (engine s1) ++ [CoAuthUnavailable])))) as K.
    { split; simpl; auto. intros c [Hc|Hc%list_elem_of_singleton]%elem_of_app; auto. }
    case_decide; [by apply (ok_callback n CoAuthUnavailable)|by apply gives_ret].
Qed.

Lemma ok_services n s i : fw_ok n s → fw_ok n (set_services s i).
Proof. intros []. by split. Qed.

Lemma ok_engine_state n s b r : fw_ok n s →
  fw_ok n (set_engine s (mkEngineState b r (startCallbacks_ (engine s)) (stopCallbacks_ (engine s)))).
Proof. intros []. by split. Qed.

Lemma ok_AllStart n s : fw_ok n s → gives (CheckAllServiceStart env s) (fw_ok n).
Proof using Laws.
  intros H. unfold CheckAllServiceStart. cbv zeta. eapply gives_bind; [by apply (ok_step n OpSubscribe)|]. intros s1 Hs1.
  case_decide; [|by apply (ok_step n OpStartTimer)]. eapply gives_bind; [by apply (ok_step n OpCancelTimer)|]. intros s2 Hs2.
  do 3 (apply gives_skip; intros ?). case_decide; [|by apply gives_ret].
  eapply (gives_bind _ _ (λ r, fw_ok n r.1)).
  - unfold RegisterAccessTokenListener. case_decide; [by apply gives_ret|]. apply gives_skip. intros b. by apply gives_ret, ok_token.
  - intros [s3 ret] Hs3. do 3 (apply gives_skip; intros ?). eapply gives_bind; [by apply ok_callbacks|]. intros s4 Hs4.
    unfold EngineStateManager.StartSubscribe. case_decide; [by apply gives_ret|]. apply gives_skip. intros b.
    case_decide; [|by apply gives_ret]. by apply gives_ret, ok_engine_state.
Qed.

Lemma ok_AllStop n s : fw_ok n s → gives (CheckAllServiceStop s) (fw_ok n).
Proof.
  intros H. unfold CheckAllServiceStop. cbv zeta. case_decide; [|by apply gives_ret]. do 2 (apply gives_skip; intros ?).
  case_decide; [|by apply gives_ret]. eapply (gives_bind _ _ (λ r, fw_ok n r.1)); [|intros [s1 r] Hs1; by apply gives_ret].
  unfold UnRegisterAccessTokenListener. case_decide; [|by apply gives_ret]. apply gives_skip. intros r.
  case_decide; apply gives_ret; [by apply ok_token|done].
Qed.

Lemma ok_engine n b s : fw_ok n s → gives (engine_status env b s) (fw_ok n).
Proof using Laws.
  intros H. destruct b; simpl.
  - unfold EngineStateManager.OnEngineReady. case_decide; [by apply gives_ret|]. cbv zeta.
    apply gives_for_each; [by apply ok_engine_state|]. intros s1 c _. by apply ok_callback.
  - unfold EngineStateManager.OnEngineUnavailable. case_decide; [|by apply gives_ret]. cbv zeta.
    do 2 (apply gives_skip; intros _). apply gives_for_each; [by apply ok_engine_state|]. intros s1 c _. by apply ok_callback.
Qed.

Lemma ok_loader n s l : fw_ok n s → fw_ok n (set_loader s l).
Proof. intros []. by split. Qed.
Lemma ok_unloader n s u : fw_ok n s → fw_ok n (set_unloader s u).
Proof. intros []. by split. Qed.
#[local] Hint Resolve ok_loader ok_unloader ok_token : core.

Lemma ok_param n key value s : fw_ok n s → gives (OnParamChange key value s) (fw_ok n).
Proof.
  intros H. apply gives_for_each; [done|]. intros s1 [k cb] _ Hs1. simpl. case_decide; [|by apply gives_ret].
  destruct cb; simpl; apply gives_skip; intros x; apply gives_ret; auto.
Qed.

Lemma ok_fire n t s : fw_ok n s → gives (fire t s) (fw_ok n).
Proof using Laws.
  intros H. destruct t; simpl; [apply gives_skip; intros x; apply gives_ret; auto..|]. by apply (ok_step n OpTrigger).
Qed.

Lemma ok_ability n a a' s : fw_ok n s → gives (OnAddSystemAbility a a' s) (fw_ok n) ∧ gives (OnRemoveSystemAbility a a' s) (fw_ok n).
Proof using Laws.
  intros H. split; destruct a, a'; simpl; try by apply gives_ret.
  - by apply (ok_step n OpPinReady).
  - by apply (ok_step n OpCommonEvent).
  - apply gives_skip. intros []; [|by apply gives_ret]. unfold access_token_ready. by apply ok_Notify, ok_token.
  - by apply (ok_step n OpPinStop).
Qed.

Lemma fw_release n s h : fw_ok n s → fw_ok n (release_node env s h).
Proof.
  intros H. unfold release_node. case_decide as Hh; [done|]. pose proof H as []. apply ok_set_pool; [done| | |done].
  - by apply inv_Release.
  - by apply below_destroy.
Qed.

Lemma fw_happens n s x : fw_ok n s → Z.of_nat n < UINT32_MAX → gives (happens env s x) (fw_ok (S n)).
Proof using Laws.
  intros H Hn. assert (∀ m : loadk Framework, gives m (fw_ok n) → gives m (fw_ok (S n))) as K.
  { intros m Hm. eapply gives_mono; [exact Hm|]. intros s' Hs'. by apply fw_mono. }
  destruct x; simpl.
  - by apply K, ok_AllStart, ok_services.
  - by apply K, ok_AllStop, ok_services.
  - apply K. unfold OnStart. apply gives_skip. intros _. apply gives_skip. intros b.
    case_decide; [by apply ok_AllStart, ok_services|by apply gives_ret].
  - by apply K, ok_AllStop, ok_services.
  - by apply K, ok_AllStart, ok_services.
  - by apply K, ok_AllStop, ok_services.
  - by apply K, ok_engine.
  - by apply K, ok_param.
  - by apply K, ok_fire.
  - by apply K, ok_ability.
  - by apply K, ok_ability.
  - by apply K, (ok_step n (OpUpdated authType)).
  - eapply gives_bind; [by apply (ok_register n)|]. intros [[s1 ret] index] Hs1. by apply gives_ret.
  - apply K. eapply gives_bind; [by apply (ok_unregister n)|]. intros [s1 ret] Hs1. by apply gives_ret.
  - by apply K, ok_task.
  - by apply K, ok_died.
  - by apply K, gives_ret, fw_release.
Qed.

Lemma ok_run n s l o t : fw_ok n s → Z.of_nat (n + length l) ≤ UINT32_MAX →
  fw_ok (n + length l) (run o (for_each (happens env) s l) t).1.
Proof using Laws.
  revert n s t. induction l as [|x l IH]; intros n s t H Hl; simpl in *; [by rewrite Nat.add_0_r|].
  rewrite run_bind. destruct (run o (happens env s x) t) as [s1 t1] eqn:E.
  replace (n + S (length l))%nat with (S n + length l)%nat by lia. apply IH; [|lia].
  pose proof (gives_run o _ _ t (fw_happens n s x H ltac:(lia))) as K. by rewrite E in K.
Qed.

Lemma fw_new : fw_ok 0 Framework_new.
Proof.
  split; [apply inv_empty|intros h; simpl; rewrite lookup_empty; by intros []|done|..]; intros c []%not_elem_of_nil.
Qed.

(** C15: Registrations and the driver. In either load mode, whatever happens
    to the framework, in whatever order and with whatever failures: the
    executors that the driver was asked to add and not to delete are those of
    the pool; every entry of the pool leads to a living node with this index;
    and while the engine is not ready for the framework there are none. *)
Theorem framework_registrations (l : list happening) (o : Interaction.env load_answer) :
  Z.of_nat (length l) ≤ UINT32_MAX →
  let s := (run o (for_each (happens env) Framework_new l) []).1 in
  registered (calls (world (pool s))) = dom (resourceNodeMap_ (pool s)) ∧
  (∀ i prm, resourceNodeMap_ (pool s) !! i = Some prm → ∃ h nd,
     node prm = Some h ∧ nodes (world (pool s)) !! h = Some nd ∧ executorIndex_ nd = i) ∧
  (isReady_ (coauth s) = false → registered (calls (world (pool s))) = ∅).
Proof using Laws.
  intros Hl s. destruct (ok_run 0 Framework_new l o [] fw_new Hl) as [[A1 A2 A3] _ A4 _ _]. fold s in A1, A3, A4.
  split; [done|]. split.
  - intros i prm Hi. destruct (A1 i prm Hi) as (h & nd & ? & ? & ? & _). eauto.
  - intros Hr. by rewrite A3, A4, dom_empty_L.
Qed.
End Laws.
