(* ===== verification/CoAuthReady.v ===== *)
(** * When the framework is ready

    [framework_announced]: the system is told that the framework is ready only
    when the engine and the access token service are, and nobody who becomes
    ready stays silent. [executor_register]: what a registration needs and
    answers. [pin_function_stale]: a flag that outlives its executor. *)

From S2P Require Import Prelude Defines Interaction ServiceTypes AttributesImpl Attributes Platform IpcCommon UserIdmDatabase.
From S2P Require Import ResourceNode ResourceNodePool LoadMode LoadModeThm LoadModeHandler CoAuthService CoAuthThm.

Implicit Types s : Framework.

Section Announcements.
Context {Mode : LoadModeHandler} {Laws : LoadModeHandlerLaws} (env : Env).
#[local] Hint Extern 0 (ResourceNodeOps World) => exact (ResourceNodePool.nodes_ops env) : typeclass_instances.

Definition announced (u : load_trace) : Prop := Exists (λ e, announces (asked e) = true) u.

(** A step that does not make the framework less ready. *)
Definition told s s' (u : load_trace) : Prop :=
  (IsFwkReady s = true → IsFwkReady s' = true) ∧ (announced u → IsFwkReady s' = true) ∧
  (IsFwkReady s = false → IsFwkReady s' = true → Exists decisive u).
Definition tells s (m : loadk Framework) : Prop := leaves m (told s).

Lemma told_same s s' u : IsFwkReady s' = IsFwkReady s → Forall (λ e, discreet (asked e) = true) u → told s s' u.
Proof.
  intros E Hu. unfold told. rewrite E. split; [done|]. split.
  - intros (e & He & Ha)%Exists_exists. rewrite Forall_forall in Hu. specialize (Hu e He). unfold discreet in Hu. by rewrite Ha in Hu.
  - intros Hn Hr. by rewrite Hn in Hr.
Qed.

Lemma calm_ready s s' : calm s s' → IsFwkReady s' = IsFwkReady s.
Proof. intros [E _ _ _ _ _]. unfold IsFwkReady. by rewrite E. Qed.

Lemma tells_quiet s m : only discreet m → gives m (λ s', IsFwkReady s' = IsFwkReady s) → tells s m.
Proof.
  intros Hm Hg. eapply leaves_mono; [by apply (leaves_only_gives discreet)|]. cbv beta. intros s' u [E Hu]. by apply told_same.
Qed.

Lemma told_then s s1 s2 u v : told s s1 u → told s1 s2 v → told s s2 (u ++ v).
Proof.
  intros (A1 & A2 & A3) (B1 & B2 & B3). unfold told, announced in *. rewrite !Exists_app. split; [by auto|]. split; [intros [H|H]; auto|].
  intros Hn Hr. destruct (IsFwkReady s1) eqn:E; auto.
Qed.

Lemma tells_then s (m : loadk Framework) (k : Framework → loadk Framework) :
  tells s m → (∀ s', tells s' (k s')) → tells s (m ≫= k).
Proof.
  intros Hm Hk. eapply leaves_bind; [exact Hm|]. intros s1 u Hu. eapply leaves_mono; [apply Hk|]. cbv beta.
  intros s2 v Hv. by eapply told_then.
Qed.

Lemma tells_mret s s' : IsFwkReady s' = IsFwkReady s → tells s (mret s').
Proof. intros E. apply leaves_ret. by apply told_same. Qed.

(** The state changes, but not the flags. *)
Lemma tells_from s s' m : IsFwkReady s' = IsFwkReady s → tells s' m → tells s m.
Proof. intros E H. eapply leaves_mono; [exact H|]. intros s2 u. unfold told. by rewrite E. Qed.

Lemma tells_skip {A} s (m : loadk A) (k : A → loadk Framework) : only discreet m → (∀ a, tells s (k a)) → tells s (m ≫= k).
Proof.
  intros Hm Hk. eapply leaves_bind; [apply (leaves_only_gives discreet _ (λ _, True)); [done|apply gives_any]|].
  intros a u [_ Hu]. eapply leaves_mono; [apply Hk|]. cbv beta. intros s' v Hv. by apply (told_then s s s'), Hv; apply told_same.
Qed.

Lemma tells_handler op s f : (∀ s, f s = handler_step op s) → op ≠ OpFwkReady → tells s (on_handler f s).
Proof using Laws.
  intros Hf Hop. unfold on_handler. apply tells_then.
  - apply tells_quiet; [by apply (handler_discreet OpGetInstance)|]. eapply gives_mono; [apply (handler_calm OpGetInstance)|]. intros s'; apply calm_ready.
  - intros s1. rewrite Hf. apply tells_quiet; [by apply handler_discreet|]. eapply gives_mono; [apply handler_calm|]. intros s'; apply calm_ready.
Qed.

(** The flags are set, and the readiness that results is announced. *)
Lemma tells_Notify s s' : (IsFwkReady s = true → IsFwkReady s' = true) → tells s (NotifyFwkReady s').
Proof using Laws.
  intros Hmon. unfold NotifyFwkReady. destruct (IsFwkReady s') eqn:Hr.
  - unfold on_handler. eapply leaves_bind; [apply leaves_gives, (handler_calm OpGetInstance)|]. intros s1 u [E1 _ _ _ _ _].
    eapply leaves_mono; [apply leaves_and; [apply (handler_decides s1)|apply leaves_gives, (handler_calm OpFwkReady)]|].
    cbv beta. intros s2 v [Hv [E2 _ _ _ _ _]]. assert (IsFwkReady s2 = true) as Hr2 by (unfold IsFwkReady in *; by rewrite E2, E1).
    split; [done|]. split; [done|]. intros _ _. apply Exists_app. by right.
  - apply leaves_ret. split; [by rewrite Hr|]. split; [by intros []%Exists_nil|]. congruence.
Qed.

Lemma tells_OnEngineReady s : tells s (OnEngineReady s).
Proof using Laws.
  unfold OnEngineReady. case_decide as Hr; [by apply tells_mret|]. apply tells_skip; [by apply only_lift|].
  intros [udid|]; [|by apply tells_mret]. apply tells_skip; [by apply (@only_call load load_answer _ (EngineInit udid))|]. intros r.
  case_decide; [|by apply tells_mret]. apply tells_skip; [by apply (@only_call load load_answer _ (NewInstance _))|]. intros b.
  case_decide; [|by apply tells_mret]. apply tells_skip; [unfold OnEngineConnect; only_steps|]. intros _.
  apply tells_Notify. unfold IsFwkReady. simpl. destruct (isReady_ (coauth s)); [done|]. done.
Qed.

Lemma tells_ready_callback c s : c = HandlerReady ∨ c = CoAuthReady → tells s (run_callback env c s).
Proof using Laws.
  intros [-> | ->]; simpl; [by apply (tells_handler OpEngineReady)|].
  apply tells_skip; [by apply (@only_call load load_answer _ (NewInstance _))|].
  intros []; [apply tells_OnEngineReady|by apply tells_mret].
Qed.

Lemma tells_for_each s l : (∀ c, c ∈ l → c = HandlerReady ∨ c = CoAuthReady) →
  tells s (for_each (λ s c, run_callback env c s) s l).
Proof using Laws.
  revert s. induction l as [|c l IH]; intros s Hl; simpl; [by apply tells_mret|].
  apply tells_then; [apply tells_ready_callback, Hl; by left|]. intros s'. apply IH. intros c' Hc'. apply Hl. by right.
Qed.

(** What the engine state manager runs when the engine goes away is discreet. *)
Lemma discreet_stop_callback c s : c = HandlerUnavailable ∨ c = CoAuthUnavailable → only discreet (run_callback env c s).
Proof using Laws.
  intros [-> | ->]; simpl; [|only_steps]. unfold on_handler.
  apply only_bind; [by apply (handler_discreet OpGetInstance)|]. intros s'. by apply (handler_discreet OpEngineUnavailable).
Qed.

Lemma unready_callback c s : c = HandlerUnavailable ∨ c = CoAuthUnavailable →
  gives (run_callback env c s) (λ s', IsFwkReady s' = true → IsFwkReady s = true).
Proof using Laws.
  intros [-> | ->]; simpl.
  - unfold on_handler. eapply gives_bind; [apply (handler_calm OpGetInstance)|]. intros s1 H1.
    eapply gives_mono; [apply (handler_calm OpEngineUnavailable)|]. intros s2 H2. by rewrite (calm_ready _ _ H2), (calm_ready _ _ H1).
  - apply gives_skip. intros []; apply gives_ret; [|done].
    unfold OnEngineUnavailable. case_decide; [|done]. destruct (DeleteAll _). unfold IsFwkReady. simpl. done.
Qed.

Lemma only_for_each_in (C : load → bool) {A S} (f : S → A → loadk S) (z : S) l :
  (∀ z x, x ∈ l → only C (f z x)) → only C (for_each f z l).
Proof.
  revert z. induction l as [|x l IH]; intros z Hl; simpl; [apply only_ret|].
  apply only_bind; [apply Hl; by left|]. intros z'. apply IH. intros z0 y Hy. apply Hl. by right.
Qed.

(** One step of the framework: nothing is announced that does not hold, and
    nothing that begins to hold is kept quiet. *)
Definition fair s s' (u : load_trace) : Prop :=
  (announced u → IsFwkReady s' = true) ∧ (IsFwkReady s = false → IsFwkReady s' = true → Exists decisive u).

Lemma fair_told s s' u : told s s' u → fair s s' u.
Proof. by intros (_ & ? & ?). Qed.

Lemma fair_told_app s s1 s2 u v : fair s s1 u → told s1 s2 v → fair s s2 (u ++ v).
Proof.
  intros [A1 A2] (B1 & B2 & B3). unfold fair, announced in *. rewrite !Exists_app. split; [intros [E|E]; auto|].
  intros Hn Hr. destruct (IsFwkReady s1) eqn:E; auto.
Qed.

Lemma tells_Subscribe s : tells s (EngineStateManager.StartSubscribe s).
Proof.
  apply tells_quiet; unfold EngineStateManager.StartSubscribe; [only_steps|].
  case_decide; [by apply gives_ret|]. apply gives_skip. intros b. case_decide; by apply gives_ret.
Qed.

Lemma fair_tells s m : tells s m → leaves m (fair s).
Proof. intros H. eapply leaves_mono; [exact H|]. apply fair_told. Qed.

Lemma fair_silent s m : only discreet m → gives m (λ s', IsFwkReady s' = true → IsFwkReady s = true) → leaves m (fair s).
Proof.
  intros Hm Hg. eapply leaves_mono; [by apply (leaves_only_gives discreet)|]. cbv beta. intros s' u [E Hu]. split.
  - intros (e & He & Ha)%Exists_exists. rewrite Forall_forall in Hu. specialize (Hu e He). unfold discreet in Hu. by rewrite Ha in Hu.
  - intros Hn Hr. apply E in Hr. congruence.
Qed.

(** First a part that changes no readiness and announces nothing. *)
Lemma fair_bind {A} (f : A → Framework) s (m : loadk A) (k : A → loadk Framework) :
  only discreet m → gives m (λ a, IsFwkReady (f a) = IsFwkReady s) → (∀ a, leaves (k a) (fair (f a))) →
  leaves (m ≫= k) (fair s).
Proof.
  intros Hm Hg Hk. eapply leaves_bind; [by apply (leaves_only_gives discreet _ _ Hm Hg)|]. cbv beta. intros a u [E Hu].
  eapply leaves_mono; [by apply Hk|]. cbv beta. intros s2 v [B1 B2]. split.
  - unfold announced. rewrite Exists_app. intros [H|H]; [|by apply B1].
    apply Exists_exists in H as (e & He & Ha). rewrite Forall_forall in Hu. specialize (Hu e He). unfold discreet in Hu. by rewrite Ha in Hu.
  - intros Hn Hr. apply Exists_app. right. apply B2; [by rewrite E|done].
Qed.

Lemma fair_skip {A} s (m : loadk A) (k : A → loadk Framework) :
  only discreet m → (∀ a, leaves (k a) (fair s)) → leaves (m ≫= k) (fair s).
Proof. intros Hm Hk. apply (fair_bind (λ _, s)); [done| |done]. eapply gives_mono; [apply gives_any|done]. Qed.

Lemma fair_ret s s' : IsFwkReady s' = IsFwkReady s → leaves (mret s') (fair s).
Proof. intros E. by apply leaves_ret, fair_told, told_same. Qed.

Lemma running_OnEngineReady s : gives (OnEngineReady s) (λ s', isEngineRunning_ (engine s') = isEngineRunning_ (engine s)).
Proof using Laws.
  unfold OnEngineReady. case_decide; [by apply gives_ret|]. apply gives_skip. intros [udid|]; [|by apply gives_ret].
  apply gives_skip. intros r. case_decide; [|by apply gives_ret]. apply gives_skip. intros b.
  case_decide; [|by apply gives_ret]. apply gives_skip. intros _. unfold NotifyFwkReady.
  destruct (IsFwkReady _); [|by apply gives_ret]. unfold on_handler.
  eapply gives_bind; [apply (handler_calm OpGetInstance)|]. intros s1 [_ _ _ E1 _ _].
  eapply gives_mono; [apply (handler_calm OpFwkReady)|]. intros s2 [_ _ _ E2 _ _]. rewrite E2, E1. done.
Qed.

Lemma fair_register s : leaves (register_callbacks env s) (fair s).
Proof using Laws.
  unfold register_callbacks, EngineStateManager.RegisterEngineReadyCallback, EngineStateManager.RegisterEngineUnavailableCallback.
  cbv zeta. case_decide as Hrun.
  - apply fair_tells. eapply leaves_bind.
    + apply leaves_and; [refine (tells_from s _ _ _ (tells_ready_callback CoAuthReady _ (or_intror eq_refl))); reflexivity|].
      apply leaves_gives. simpl. apply gives_skip. intros []; [apply running_OnEngineReady|by apply gives_ret].
    + cbv beta. intros s1 u [Hu E]. simpl in E. eapply leaves_mono; [|cbv beta; intros s2 v Hv; eapply told_then; [exact Hu|exact Hv]].
      rewrite decide_False by (rewrite E, Hrun; done). by apply leaves_ret, told_same.
  - apply (fair_bind (λ s, s)); [by apply only_ret|by apply gives_ret|]. intros s1. case_decide.
    + apply fair_silent; [apply discreet_stop_callback; by right|]. exact (unready_callback CoAuthUnavailable (set_engine s1 _) (or_intror eq_refl)).
    + by apply leaves_ret, fair_told, told_same.
Qed.

Lemma quiet_handler op s f : (∀ s, f s = handler_step op s) → op ≠ OpFwkReady →
  only discreet (on_handler f s) ∧ gives (on_handler f s) (λ s', IsFwkReady s' = IsFwkReady s).
Proof using Laws.
  intros Hf Hop. unfold on_handler. split.
  - apply only_bind; [by apply (handler_discreet OpGetInstance)|]. intros s1. rewrite Hf. by apply handler_discreet.
  - eapply gives_bind; [apply (handler_calm OpGetInstance)|]. intros s1 H1. rewrite Hf.
    eapply gives_mono; [apply handler_calm|]. intros s2 H2. by rewrite (calm_ready _ _ H2), (calm_ready _ _ H1).
Qed.

Lemma fair_AllStart s : leaves (CheckAllServiceStart env s) (fair s).
Proof using Laws.
  unfold CheckAllServiceStart. cbv zeta.
  apply (fair_bind (λ s, s)); [by apply (quiet_handler OpSubscribe)..|]. intros s1.
  case_decide; [|by apply fair_tells, (tells_handler OpStartTimer)].
  apply (fair_bind (λ s, s)); [by apply (quiet_handler OpCancelTimer)..|]. intros s2.
  apply fair_skip; [by apply (@only_call load load_answer)|]. intros _.
  apply fair_skip; [by apply (@only_call load load_answer _ RemoteAuthStart)|]. intros b.
  apply fair_skip; [by apply (@only_call load load_answer _ (NewInstance _))|]. intros b'.
  case_decide; [|by apply fair_ret].
  apply (fair_bind fst).
  - unfold RegisterAccessTokenListener. only_steps.
  - unfold RegisterAccessTokenListener. case_decide; [by apply gives_ret|]. apply gives_skip. intros l. by apply gives_ret.
  - intros [s3 r]. do 3 (apply fair_skip; [by apply (@only_call load load_answer)|]; intros _).
    eapply leaves_bind; [apply fair_register|]. intros s4 u Hu. eapply leaves_mono; [apply tells_Subscribe|].
    cbv beta. intros s5 v Hv. by eapply fair_told_app.
Qed.

Lemma fair_AllStop s : leaves (CheckAllServiceStop s) (fair s).
Proof.
  apply fair_tells. unfold CheckAllServiceStop. cbv zeta. case_decide; [|by apply tells_mret].
  apply tells_quiet.
  - unfold UnRegisterAccessTokenListener, UnSubscribe. only_steps.
  - do 2 (apply gives_skip; intros ?). case_decide; [|by apply gives_ret].
    eapply (gives_bind _ _ (λ r, IsFwkReady r.1 = IsFwkReady s)); [|intros [s1 r] E; by apply gives_ret].
    unfold UnRegisterAccessTokenListener. case_decide; [|by apply gives_ret]. apply gives_skip. intros r. case_decide; by apply gives_ret.
Qed.

Lemma fair_engine n b s : fw_ok n s → leaves (engine_status env b s) (fair s).
Proof using Laws.
  intros [_ _ _ Hstart Hstop]. destruct b; simpl.
  - unfold EngineStateManager.OnEngineReady. case_decide; [by apply fair_ret|]. cbv zeta.
    apply fair_tells. eapply tells_from; [|by apply tells_for_each]. reflexivity.
  - unfold EngineStateManager.OnEngineUnavailable. case_decide; [|by apply fair_ret]. cbv zeta.
    do 2 (apply fair_skip; [by apply discreet_SetParam|]; intros _).
    apply fair_silent.
    + apply only_for_each_in. intros s1 c Hc. by apply discreet_stop_callback, Hstop.
    + apply (gives_for_each _ (λ s', IsFwkReady s' = true → IsFwkReady s = true)); [done|].
      intros s1 c Hc Hs1. eapply gives_mono; [by apply unready_callback, Hstop|]. auto.
Qed.

(** The managers of the dynamic mode only know their parameters. *)
Lemma quiet_param key value s : tells s (OnParamChange key value s).
Proof.
  apply tells_quiet; unfold OnParamChange.
  - apply only_for_each_in. intros s1 [k cb] _. simpl. case_decide; [|by apply only_ret].
    destruct cb; simpl; (apply only_bind; [|intros; by apply only_ret]).
    + apply (discreet_loader _ (LoaderLaws.LoStopping _)).
    + apply (discreet_unloader _ (UnloaderLaws.UoPin _)).
    + apply (discreet_unloader _ (UnloaderLaws.UoStart _)).
    + apply (discreet_unloader _ (UnloaderLaws.UoChecked _)).
  - apply (gives_for_each _ (λ s', IsFwkReady s' = IsFwkReady s)); [done|]. intros s1 [k cb] _ E. simpl.
    case_decide; [|by apply gives_ret]. destruct cb; simpl; apply gives_skip; intros x; by apply gives_ret.
Qed.

Lemma fair_fire t s : leaves (fire t s) (fair s).
Proof using Laws.
  apply fair_tells. destruct t; simpl; [| |by apply (tells_handler OpTrigger)];
    (apply tells_quiet; [|apply gives_skip; intros x; by apply gives_ret]); (apply only_bind; [|intros; by apply only_ret]).
  - apply (discreet_loader _ LoaderLaws.LoTimeout).
  - apply (discreet_unloader _ UnloaderLaws.UoTimeout).
Qed.

Lemma fair_ability own a s : leaves (OnAddSystemAbility own a s) (fair s) ∧ leaves (OnRemoveSystemAbility own a s) (fair s).
Proof using Laws.
  split; destruct own, a; simpl; try (by apply fair_ret).
  - by apply fair_tells, (tells_handler OpPinReady).
  - by apply fair_tells, (tells_handler OpCommonEvent).
  - apply fair_skip; [by apply (@only_call load load_answer _ (NewInstance _))|]. intros []; [|by apply fair_ret].
    apply fair_tells. unfold access_token_ready. apply tells_Notify. unfold IsFwkReady. simpl.
    destruct (isReady_ (coauth s)); [done|]. done.
  - by apply fair_tells, (tells_handler OpPinStop).
Qed.

Lemma fair_register_executor s c info cb : leaves ('(s, ret, index) ← ExecutorRegister env s c info cb; mret s) (fair s).
Proof.
  apply fair_tells, tells_quiet.
  - apply only_bind; [|by intros [[s1 r] i]; apply only_ret]. unfold ExecutorRegister. destruct cb as [cb|]; [|by apply only_ret].
    case_decide; [|by apply only_ret]. apply only_bind; [by apply only_lift|]. intros ok. case_decide; [|by apply only_ret]. cbv zeta.
    destruct (NodeImpl.MakeNewResource _ _ _ _ _) as [w [[[h' pk] tl]|]]; [|by apply only_ret].
    destruct (Insert _ _) as [[p ok'] notes]. case_decide; [|by apply only_ret].
    apply only_bind; [|by intros r; apply only_ret]. unfold ProcExecutorRegisterSuccess. only_steps.
  - eapply (gives_bind _ _ (λ r, IsFwkReady r.1.1 = IsFwkReady s)); [|by intros [[s1 r] i] E; apply gives_ret].
    unfold ExecutorRegister. destruct cb as [cb|]; [|by apply gives_ret].
    case_decide; [|by apply gives_ret]. apply gives_skip. intros ok. case_decide; [|by apply gives_ret]. cbv zeta.
    destruct (NodeImpl.MakeNewResource _ _ _ _ _) as [w [[[h' pk] tl]|]]; [|by apply gives_ret].
    destruct (Insert _ _) as [[p ok'] notes]. case_decide; [|by apply gives_ret]. apply gives_skip. intros r. by apply gives_ret.
Qed.

Lemma fair_unregister s c i : leaves ('(s, ret) ← ExecutorUnregister env s c i; mret s) (fair s).
Proof using Laws.
  apply fair_tells, tells_quiet.
  - apply only_bind; [|by intros [s1 r]; apply only_ret]. unfold ExecutorUnregister. case_decide; [|by apply only_ret].
    apply only_bind; [by apply only_lift|]. intros ok. case_decide; [|by apply only_ret].
    destruct (Select_lock _ _) as [h|]; [|by apply only_ret]. cbv zeta. apply only_bind; [by eapply (quiet_handler (OpUnregistered _ _))|].
    intros s1. destruct (Delete _ _) as [[p r] notes]. by apply only_ret.
  - eapply (gives_bind _ _ (λ r, IsFwkReady r.1 = IsFwkReady s)); [|by intros [s1 r] E; apply gives_ret].
    unfold ExecutorUnregister. case_decide; [|by apply gives_ret]. apply gives_skip. intros ok. case_decide; [|by apply gives_ret].
    destruct (Select_lock _ _) as [h|]; [|by apply gives_ret]. cbv zeta.
    eapply gives_bind; [by eapply (quiet_handler (OpUnregistered _ _))|].
    intros s1 E. destruct (Delete _ _) as [[p r] notes]. by apply gives_ret.
Qed.

Lemma fair_task s h i cb key templates : leaves (registered_task env s h i cb key templates) (fair s).
Proof using Laws.
  unfold registered_task. cbv zeta. case_decide; [|by apply fair_ret].
  apply fair_skip; [by apply (@only_call load load_answer _ (NewInstance _))|]. intros b. case_decide; [|by apply fair_ret].
  apply fair_skip; [by apply (@only_call load load_answer)|]. intros _. apply fair_tells.
  apply tells_then; [by eapply (tells_handler (OpRegistered _ _))|]. intros s1.
  apply tells_skip; [unfold AddExecutorDeathRecipient; only_steps|]. intros _.
  do 2 (apply tells_skip; [by apply (@only_call load load_answer)|]; intros _). by apply tells_mret.
Qed.

Lemma fair_died s i ty role : leaves (executor_died env s i ty role) (fair s).
Proof using Laws.
  apply fair_tells. unfold executor_died. cbv zeta. eapply tells_from; [|by apply (tells_handler (OpUnregistered ty role))].
  destruct (Select_lock _ _); [|done]. by destruct (Delete _ _) as [[p r] notes].
Qed.

Lemma fair_happens n s x : fw_ok n s → leaves (happens env s x) (fair s).
Proof using Laws.
  intros Hs. destruct x; simpl.
  - exact (fair_AllStart (start_idm s true)).
  - exact (fair_AllStop (start_idm s false)).
  - unfold OnStart. apply fair_skip; [by apply (@only_call load load_answer)|]. intros _.
    apply fair_skip; [by apply (@only_call load load_answer _ Publish)|]. intros b.
    case_decide; [exact (fair_AllStart (start_coauth s true))|by apply fair_ret].
  - exact (fair_AllStop (start_coauth s false)).
  - exact (fair_AllStart (start_userauth s true)).
  - exact (fair_AllStop (start_userauth s false)).
  - by eapply fair_engine.
  - apply fair_tells, quiet_param.
  - apply fair_fire.
  - apply fair_ability.
  - apply fair_ability.
  - by apply fair_tells, (tells_handler (OpUpdated authType)).
  - apply fair_register_executor.
  - apply fair_unregister.
  - apply fair_task.
  - apply fair_died.
  - unfold release_node. case_decide; by apply fair_ret.
Qed.

End Announcements.

(** ** What a registration needs and answers *)

Lemma wp_lift {A} (m : service A) t (Φ : A → trace → Prop) :
  wp (λ _ _, True) m (service_trace t) Φ → wp (λ _ _, True) (lift m) t (λ a t', Φ a (service_trace t')).
Proof.
  revert t. induction m as [a|q k IH]; intros t H; [exact H|].
  change (wp (λ _ _, True) (call (Service q : load) ≫= (λ r, lift (k r))) t (λ a t', Φ a (service_trace t'))).
  apply wp_bind, (@wp_call load load_answer _ (Service q)); [done|]. intros r. apply IH.
  unfold service_trace. rewrite omap_app. exact (proj2 H r).
Qed.

Section Registration.
Context (env : Env).
#[local] Hint Extern 0 (ResourceNodeOps World) => exact (ResourceNodePool.nodes_ops env) : typeclass_instances.
#[local] Arguments DeleteFromEngine : simpl never.
#[local] Arguments DetachFromEngine : simpl never.
#[local] Arguments GetExecutorIndex : simpl never.
#[local] Arguments Insert : simpl never.

(** The task that tells the executor was posted. *)
Definition posted (h index callback : Z) (t : load_trace) : Prop :=
  Exists (λ e, ∃ key templates, asked e = PostRegistered h index callback key templates) t.

Definition registration s (c : Caller) (cb : option Z) (r : Framework * Z * Z) (t : load_trace) : Prop :=
  let '(s', ret, index) := r in
  (pool s' ≠ pool s → IsFwkReady s = true ∧ granted c ACCESS_AUTH_RESPOOL (service_trace t)) ∧
  (ret = SUCCESS → ∃ callback, cb = Some callback ∧ Select (pool s') index = Some (next_node s) ∧
     posted (next_node s) index callback t) ∧
  (ret ≠ SUCCESS → index ≠ 0 → Select (pool s') index = Some (next_node s) ∧ ret = GENERAL_ERROR).

Lemma refused s c cb ret t : ret ≠ SUCCESS → registration s c cb (s, ret, 0) t.
Proof. done. Qed.

Lemma Insert_Select (p : Pool World) h : let '(p', ok, _) := Insert p (Some h) in
  ok = true → Select p' (GetExecutorIndex (world p) h) = Some h.
Proof.
  unfold Insert, Select. destruct (resourceNodeMap_ p !! _); [case_decide|]; [done| |];
    intros _; simpl; by rewrite lookup_insert_eq.
Qed.

Lemma Insert_index (p : Pool World) h : let '(p', ok, _) := Insert p (Some h) in
  GetExecutorIndex (world p') h = GetExecutorIndex (world p) h.
Proof.
  unfold Insert. destruct (resourceNodeMap_ p !! _) as [prm|]; [case_decide|]; [done| |done].
  simpl. unfold detach. destruct (node prm) as [h0|]; [|done]. apply (index_detach env).
Qed.

Lemma wp_ExecutorRegister s c info cb n : fw_ok n s → Z.of_nat n < UINT32_MAX →
  wp (λ _ _, True) (ExecutorRegister env s c info cb) [] (registration s c cb).
Proof.
  intros Hok Hn. unfold ExecutorRegister. destruct cb as [cb|]; [|by apply wp_ret, refused].
  case_decide as Hr; [|by apply wp_ret, refused]. apply wp_bind.
  eapply wp_wand; [apply (wp_lift _ [] (λ ok T, ok = true → granted c ACCESS_AUTH_RESPOOL T))|].
  { apply wp_CheckPermission; auto. }
  cbv beta. intros ok t Hg. case_decide as Hperm; [|by apply wp_ret, refused]. specialize (Hg Hperm). cbv zeta.
  assert (nodes (world (pool s)) !! next_node s = None) as Hf.
  { apply eq_None_not_Some. intros Hh%(ok_below _ _ Hok). lia. }
  pose proof (MakeNewResource_spec env (world (pool s)) (next_node s) (InitExecutorRegisterInfo info) true Hf) as Hm.
  destruct (NodeImpl.MakeNewResource _ _ _ _ _) as [w [[[h' pk] tl]|]].
  - destruct Hm as (-> & nd & Hw & Ha & Hreg). simpl.
    pose proof (inv_Insert env n (pool s) w (next_node s) nd (ok_pool _ _ Hok) Hn Hf Hw Ha Hreg) as Hi.
    pose proof (Insert_Select (with_world (pool s) w) (next_node s)) as Hsel.
    pose proof (Insert_index (with_world (pool s) w) (next_node s)) as Hidx.
    destruct (Insert _ _) as [[p' ok'] notes]. destruct Hi as [-> Hi]. simpl in *. rewrite <- Hidx in Hsel.
    apply wp_bind. unfold ProcExecutorRegisterSuccess. cbv zeta. simpl.
    apply wp_bind, (@wp_call load load_answer _ (Service GetSingleThreadInstance)); [done|]. intros b.
    case_decide.
    + apply wp_bind, (@wp_call load load_answer _ (PostRegistered _ _ _ _ _)); [done|]. intros r. apply wp_ret, wp_ret.
      split; [|split; [|done]].
      * intros _. split; [done|]. unfold service_trace in *. rewrite !omap_app. by apply granted_app, granted_app.
      * intros _. exists cb. split; [done|]. split; [by apply Hsel|]. apply Exists_app. right. constructor. by exists pk, tl.
    + apply wp_ret, wp_ret. split; [|split; [done|]].
      * intros _. split; [done|]. unfold service_trace in *. rewrite !omap_app. by apply granted_app.
      * intros _ _. split; [by apply Hsel|done].
  - apply wp_ret. split; [|done]. intros _. done.
Qed.

(** What a registration needs and answers. In every state that the
    framework can reach: the pool is touched only when the framework is ready
    and the trace shows the permission of the caller; SUCCESS means that the
    index leads to the new node and the task that tells the executor is posted; and
    with another code the index is invalid, unless the thread that tells the
    executor is missing: then the executor stays registered and nobody tells it. *)
Theorem executor_register (Mode : LoadModeHandler) (Laws : LoadModeHandlerLaws) (l : list happening) (c : Caller) (info : ExecutorRegisterInfo) (cb : option Z)
    (o : Interaction.env load_answer) :
  Z.of_nat (length l) < UINT32_MAX →
  let s := (run o (for_each (happens env) Framework_new l) []).1 in
  let '(s', ret, index, t) := run o (ExecutorRegister env s c info cb) [] in
  (pool s' ≠ pool s → IsFwkReady s = true ∧ granted c ACCESS_AUTH_RESPOOL (service_trace t)) ∧
  (ret = SUCCESS → ∃ callback, cb = Some callback ∧ Select (pool s') index = Some (next_node s) ∧
     posted (next_node s) index callback t) ∧
  (ret ≠ SUCCESS → index ≠ 0 → Select (pool s') index = Some (next_node s) ∧ ret = GENERAL_ERROR).
Proof.
  intros Hl s. assert (fw_ok (length l) s) as Hok by (apply (ok_run env 0 Framework_new l o [] fw_new); lia).
  pose proof (wp_post o _ _ _ _ (wp_ExecutorRegister s c info cb _ Hok Hl)) as K. unfold registration in K.
  destruct (run o (ExecutorRegister env s c info cb) []) as [[[s' ret] index] t]. exact K.
Qed.
End Registration.

(** ** Examples *)

Definition demo_caller : Caller := mkCaller 0 7 1000 7.
(** The services start, the engine comes up and the tokens are there; a PIN
    executor registers and is told, and its service comes up. *)
Definition demo_start : list happening :=
  [IdmStart; CoAuthStart; UserAuthStart; EngineStatus true; AbilityAdded AccessTokenService AccessTokenService].
Definition demo_register : list happening :=
  [ExecutorRegisters demo_caller (example_info PIN ALL_IN_ONE) (Some 77);
   RegisteredTask 1 PIN 77 [] []; AbilityAdded PinAuthService PinAuthService].
Definition demo_world : env load_answer := load_world (λ _, FALSE_STR).
Abbreviation demo_run dynamic l :=
  (run demo_world (for_each (happens (Mode := load_mode_handler dynamic) example_env) Framework_new l) []).

Lemma framework_registrations_witness :
  let s := (demo_run true (demo_start ++ demo_register)).1 in
  registered (calls (world (pool s))) = dom (resourceNodeMap_ (pool s)) ∧ dom (resourceNodeMap_ (pool s)) = {[PIN]}.
Proof.
  cbv zeta. split; [|vm_compute; reflexivity].
  refine (proj1 (framework_registrations (Laws := load_mode_laws true) example_env (demo_start ++ demo_register) demo_world _)).
  vm_compute. discriminate.
Defined.


Abbreviation demo_registration :=
  (run demo_world (ExecutorRegister example_env (demo_run false demo_start).1 demo_caller (example_info FACE ALL_IN_ONE) (Some 5)) []).
Lemma executor_register_witness :
  (let s := (demo_run false demo_start).1 in
   let '(s', ret, index, t) :=
     run demo_world (ExecutorRegister example_env s demo_caller (example_info FACE ALL_IN_ONE) (Some 5)) [] in
   (pool s' ≠ pool s → IsFwkReady s = true ∧ granted demo_caller ACCESS_AUTH_RESPOOL (service_trace t)) ∧
   (ret = SUCCESS → ∃ callback, Some 5 = Some callback ∧ Select (pool s') index = Some (next_node s) ∧
      posted (next_node s) index callback t) ∧
   (ret ≠ SUCCESS → index ≠ 0 → Select (pool s') index = Some (next_node s) ∧ ret = GENERAL_ERROR)) ∧
  demo_registration.1.1.2 = SUCCESS ∧ demo_registration.1.2 = FACE.
Proof.
  split; [|split; vm_compute; reflexivity].
  refine (executor_register example_env (load_mode_handler false) (load_mode_laws false) demo_start demo_caller
    (example_info FACE ALL_IN_ONE) (Some 5) demo_world _).
  vm_compute. reflexivity.
Defined.

(** The dynamic mode remembers that a PIN executor is registered when the engine
    goes away, although the pool forgets it; when the PIN service comes up
    again, the PIN function is reported ready with no executor in the pool. *)
Definition demo_stale : list happening :=
  [EngineStatus false; AbilityRemoved PinAuthService PinAuthService; AbilityAdded PinAuthService PinAuthService].

Lemma pin_function_stale :
  let r := demo_run true (demo_start ++ demo_register ++ demo_stale) in
  resourceNodeMap_ (pool r.1) = ∅ ∧ IsFwkReady r.1 = false ∧
  asked <$> last r.2 = Some (SetParameter IS_PIN_FUNCTION_READY_KEY TRUE_STR : load).
Proof. cbv zeta. split; [|split]; vm_compute; reflexivity. Qed.
