(* ===== verification/ScheduleNode.v ===== *)
(** * Schedule nodes

    Models services/core/src/schedule_node_impl.cpp: one use of a collector and
    a verifier, driven by a state machine on the service thread. The schedule
    begins the verifier, then the collector, waits for the result, and ends
    them; it can be stopped by its user, by its timer, and by the loss of an
    executor, and reports to its callback.

    The owner of the machine is [Node]: the members of [ScheduleNodeImpl], the
    rest of the program ([world_], of any type with the operations of
    [ResourceNodeOps] and [ScheduleServices]) and [log_], which records what
    the schedule was told and did and which no code reads. The object is
    [ScheduleNode]: a node and its machine. While a method or a task of the machine
    runs, a shared pointer keeps the object alive, so [weak_from_this().lock()]
    succeeds in every function below and [MakeAction] only binds the handler.
    The member functions that hand out fields of [info_] are [info_]'s
    projections. Tracing is left out. *)

From S2P Require Import Prelude Defines AttributesImpl Attributes Fsm ResourceNode.

(* @file N = src/services/core/src/schedule_node_impl.cpp *)
(* @file NH = src/services/core/src/schedule_node_impl.h *)
(* @file S = src/services/core/inc/schedule_node.h *)

(** ** States and events *)

(* @src S:37-37 ScheduleNode::State *)
Definition S_INIT : Z := 0.
(* @src S:38-38 ScheduleNode::State *)
Definition S_VERIFY_STARING : Z := 1.
(* @src S:39-39 ScheduleNode::State *)
Definition S_COLLECT_STARING : Z := 2.
(* @src S:40-40 ScheduleNode::State *)
Definition S_AUTH_PROCESSING : Z := 3.
(* @src S:41-41 ScheduleNode::State *)
Definition S_COLLECT_STOPPING : Z := 4.
(* @src S:42-42 ScheduleNode::State *)
Definition S_VERIFY_STOPPING : Z := 5.
(* @src S:43-43 ScheduleNode::State *)
Definition S_END : Z := 6.

(* @src S:46-46 ScheduleNode::Event *)
Definition E_START_AUTH : Z := 0.
(* @src S:47-47 ScheduleNode::Event *)
Definition E_VERIFY_STARTED_SUCCESS : Z := 1.
(* @src S:48-48 ScheduleNode::Event *)
Definition E_VERIFY_STARTED_FAILED : Z := 2.
(* @src S:49-49 ScheduleNode::Event *)
Definition E_COLLECT_STARTED_SUCCESS : Z := 3.
(* @src S:50-50 ScheduleNode::Event *)
Definition E_COLLECT_STARTED_FAILED : Z := 4.
(* @src S:51-51 ScheduleNode::Event *)
Definition E_SCHEDULE_RESULT_RECEIVED : Z := 5.
(* @src S:52-52 ScheduleNode::Event *)
Definition E_COLLECT_STOPPED_SUCCESS : Z := 6.
(* @src S:53-53 ScheduleNode::Event *)
Definition E_COLLECT_STOPPED_FAILED : Z := 7.
(* @src S:54-54 ScheduleNode::Event *)
Definition E_VERIFY_STOPPED_SUCCESS : Z := 8.
(* @src S:55-55 ScheduleNode::Event *)
Definition E_VERIFY_STOPPED_FAILED : Z := 9.
(* @src S:56-56 ScheduleNode::Event *)
Definition E_STOP_AUTH : Z := 10.
(* @src S:57-57 ScheduleNode::Event *)
Definition E_TIME_OUT : Z := 11.

(** ** The rest of the program, as a schedule sees it *)

Class ScheduleServices (W : Type) := {
(** [RelativeTimer::Register] for a number of milliseconds: the timer's id. *)
timer_Register : W → Z → W * Z;
timer_Unregister : W → Z → W;
(** [ResourceNodePool::RegisterResourceNodePoolListener] of a new listener. *)
pool_RegisterListener : W → W * bool;
(** [UserAuthEngine::SendMessage(scheduleId, srcRole, message)]. *)
engine_SendMessage : W → Z → Z → bytes → W * Z;
}.

(** ** Data *)

(* @src NH:40-63 ScheduleNodeImpl::ScheduleInfo *)
Record ScheduleInfo := mkScheduleInfo {
  scheduleId : Z;
  tokenId : option Z;
  collectorTokenId : Z;
  pinSubType : Z;
  contextId : Z;
  expiredTime : Z;
  templateIdList : list Z;
  si_authType : Z;
  si_executorMatcher : Z;
  scheduleMode : Z;
  collector : option Z;
  verifier : option Z;
  threadHandler : bool;
  callback : bool;
  endAfterFirstFail : bool;
  collectorMessage : bytes;
  verifierMessage : bytes;
  authIntent : Z;
  userId : Z;
  additionalInfo : bytes;
  title : bytes;
  authScene : Z;
}.

(** [std::shared_ptr<Attributes>]: null, or the attributes (whose [impl_] may
    itself be null). *)
Abbreviation AttributesPtr := (option Attributes).

(** What a schedule is told and does. *)
Inductive Act :=
  | AStop (errorCode : Z)
  | AContinue (resultCode : Z) (finalResult : AttributesPtr)
  | ATimeout
  | ANoResource
  | ABegin (isVerifier : bool) (node : Z) (command : Attributes) (result : Z)
  | AEnd (isVerifier : bool) (node : Z) (result : Z)
  | ACollectorReady (node : Z) (properties : Attributes)
  | AStarted
  | AProcessed (src authType : Z) (msg : bytes)
  | AStoped (resultCode : Z) (finalResult : AttributesPtr).

(* @src NH:114-124 ScheduleNodeImpl *)
Record Node (W : Type) := mkNode {
  timerId_ : Z;
  info_ : ScheduleInfo;
  executorResultCode_ : Z;
  fwkResultCode_ : option Z;
  scheduleResult_ : AttributesPtr;
  resourceNodePoolListener_ : bool;
  world_ : W;
  log_ : list Act;
}.
Arguments mkNode {W} _ _ _ _ _ _ _ _.
Arguments timerId_ {W} _.
Arguments info_ {W} _.
Arguments executorResultCode_ {W} _.
Arguments fwkResultCode_ {W} _.
Arguments scheduleResult_ {W} _.
Arguments resourceNodePoolListener_ {W} _.
Arguments world_ {W} _.
Arguments log_ {W} _.

Record ScheduleNode (W : Type) := mkScheduleNode {
  node : Node W;
  machine_ : option (Fsm (list Z));
}.
Arguments mkScheduleNode {W} _ _.
Arguments node {W} _.
Arguments machine_ {W} _.

Section Handlers.
Context {W : Type} `{ResourceNodeOps W} `{ScheduleServices W}.
Implicit Types (n : Node W) (s : ScheduleNode W) (event : Z).

Definition set_timerId n (id : Z) : Node W :=
  mkNode id (info_ n) (executorResultCode_ n) (fwkResultCode_ n) (scheduleResult_ n)
    (resourceNodePoolListener_ n) (world_ n) (log_ n).
Definition set_info n (i : ScheduleInfo) : Node W :=
  mkNode (timerId_ n) i (executorResultCode_ n) (fwkResultCode_ n) (scheduleResult_ n)
    (resourceNodePoolListener_ n) (world_ n) (log_ n).
Definition set_listener n (l : bool) : Node W :=
  mkNode (timerId_ n) (info_ n) (executorResultCode_ n) (fwkResultCode_ n) (scheduleResult_ n)
    l (world_ n) (log_ n).
Definition set_world n (w : W) : Node W :=
  mkNode (timerId_ n) (info_ n) (executorResultCode_ n) (fwkResultCode_ n) (scheduleResult_ n)
    (resourceNodePoolListener_ n) w (log_ n).
Definition log n (a : Act) : Node W :=
  mkNode (timerId_ n) (info_ n) (executorResultCode_ n) (fwkResultCode_ n) (scheduleResult_ n)
    (resourceNodePoolListener_ n) (world_ n) (log_ n ++ [a]).

(* @src N ScheduleNodeImpl::SetFwkResultCode *)
Definition SetFwkResultCode n (resultCode : Z) : Node W :=
  mkNode (timerId_ n) (info_ n) (executorResultCode_ n) (Some resultCode) (scheduleResult_ n)
    (resourceNodePoolListener_ n) (world_ n) (log_ n).

(* @src N ScheduleNodeImpl::SetExecutorResultCode *)
Definition SetExecutorResultCode n (resultCode : Z) : Node W :=
  mkNode (timerId_ n) (info_ n) resultCode (fwkResultCode_ n) (scheduleResult_ n)
    (resourceNodePoolListener_ n) (world_ n) (log_ n).

(* @src N ScheduleNodeImpl::SetScheduleResult *)
Definition SetScheduleResult n (scheduleResult : AttributesPtr) : Node W :=
  mkNode (timerId_ n) (info_ n) (executorResultCode_ n) (fwkResultCode_ n) scheduleResult
    (resourceNodePoolListener_ n) (world_ n) (log_ n).

(* @src N ScheduleNodeImpl::ClearScheduleCallback *)
Definition ClearScheduleCallback n : Node W :=
  let i := info_ n in
  set_info n (mkScheduleInfo (scheduleId i) (tokenId i) (collectorTokenId i) (pinSubType i)
    (contextId i) (expiredTime i) (templateIdList i) (si_authType i) (si_executorMatcher i)
    (scheduleMode i) (collector i) (verifier i) (threadHandler i) false (endAfterFirstFail i)
    (collectorMessage i) (verifierMessage i) (authIntent i) (userId i) (additionalInfo i)
    (title i) (authScene i)).

(* @src N ScheduleNodeImpl::GetScheduleCallback *)
Definition GetScheduleCallback n : bool := callback (info_ n).

(* @src N ScheduleNodeImpl::GetTemplateIdList *)
Definition GetTemplateIdList n : option (list Z) :=
  WHEN templateIdList (info_ n) = [] RETURN None ;; Some (templateIdList (info_ n)).

(** The results of the setters are ignored. *)
(* @src N ScheduleNodeImpl::GetScheduleAttribute *)
Definition GetScheduleAttribute n (isVerifier : bool) (attribute : Attributes) : Attributes :=
  let i := info_ n in
  let a := (SetInt32Value attribute ATTR_SCHEDULE_MODE (scheduleMode i)).1 in
  let a := match tokenId i with Some t => (SetUint32Value a ATTR_ACCESS_TOKEN_ID t).1 | None => a end in
  let a := if decide (pinSubType i ≠ 0) then (SetInt32Value a ATTR_PIN_SUB_TYPE (pinSubType i)).1 else a in
  let a := (SetUint32Value a ATTR_COLLECTOR_TOKEN_ID (collectorTokenId i)).1 in
  let a := (SetBoolValue a ATTR_END_AFTER_FIRST_FAIL (endAfterFirstFail i)).1 in
  let a := if isVerifier then
      let a := (SetInt32Value a ATTR_AUTH_INTENTION (authIntent i)).1 in
      let a := (SetInt32Value a ATTR_USER_ID (userId i)).1 in
      (SetUint8ArrayValue a ATTR_EXTRA_INFO (verifierMessage i)).1
    else (SetUint8ArrayValue a ATTR_EXTRA_INFO (collectorMessage i)).1 in
  let a := match templateIdList i with
    | [] => a
    | t :: ts =>
        let a := (SetUint64ArrayValue a ATTR_TEMPLATE_ID_LIST (t :: ts)).1 in
        match ts with [] => (SetUint64Value a ATTR_TEMPLATE_ID t).1 | _ => a end
    end in
  let a := if decide (additionalInfo i ≠ []) then
      (SetStringValue a ATTR_ADDITIONAL_INFO (additionalInfo i)).1 else a in
  let a := if decide (title i ≠ []) then (SetStringValue a ATTR_WIDGET_TITLE (title i)).1 else a in
  (SetInt32Value a ATTR_AUTH_SCENE (authScene i)).1.

(** [weak.lock()] on a weak pointer of the node. *)
Definition weak_lock n (weak : option Z) : option Z :=
  h ← weak; if lock (world_ n) h then Some h else None.

(** ** Timer *)

(* @src N ScheduleNodeImpl::StartTimer *)
Definition StartTimer n : Node W :=
  WHEN expiredTime (info_ n) = 0 ∨ timerId_ n ≠ 0 RETURN n ;;
  let '(w, id) := timer_Register (world_ n) (wrapU 32 (expiredTime (info_ n))) in
  set_timerId (set_world n w) id.

(* @src N ScheduleNodeImpl::StopTimer *)
Definition StopTimer n : Node W :=
  WHEN timerId_ n = 0 RETURN n ;;
  set_timerId (set_world n (timer_Unregister (world_ n) (timerId_ n))) 0.

(** ** Handlers of the machine *)

(* @src N ScheduleNodeImpl::ProcessBeginVerifier *)
Definition ProcessBeginVerifier n event : Node W * list kick :=
  match weak_lock n (collector (info_ n)), weak_lock n (verifier (info_ n)) with
  | Some collector, Some verifier =>
      let peerPk := GetExecutorPublicKey (world_ n) collector in
      let attr := GetScheduleAttribute n true Attributes_new in
      let '(w, result) := BeginExecute (world_ n) verifier (scheduleId (info_ n)) peerPk attr in
      let n := log (set_world n w) (ABegin true verifier attr result) in
      WHEN result ≠ SUCCESS RETURN (SetExecutorResultCode n result, [Inner E_VERIFY_STARTED_FAILED]) ;;
      (n, [Inner E_VERIFY_STARTED_SUCCESS])
  | _, _ => (SetFwkResultCode (log n ANoResource) GENERAL_ERROR, [Inner E_VERIFY_STARTED_FAILED])
  end.

(* @src N ScheduleNodeImpl::NotifyCollectorReady *)
Definition NotifyCollectorReady n : Node W :=
  match weak_lock n (verifier (info_ n)) with
  | None => n
  | Some verifier =>
      let '(attr, setPropertyModeRet) :=
        SetInt32Value Attributes_new ATTR_PROPERTY_MODE PROPERTY_MODE_NOTIFY_COLLECTOR_READY in
      CHECK setPropertyModeRet = true ELSE n ;;
      let '(attr, setScheduleIdRet) := SetUint64Value attr ATTR_SCHEDULE_ID (scheduleId (info_ n)) in
      CHECK setScheduleIdRet = true ELSE n ;;
      let '(w, ret) := SetProperty (world_ n) verifier attr in
      log (set_world n w) (ACollectorReady verifier attr)
  end.

(* @src N ScheduleNodeImpl::ProcessBeginCollector *)
Definition ProcessBeginCollector n event : Node W * list kick :=
  match weak_lock n (collector (info_ n)), weak_lock n (verifier (info_ n)) with
  | Some collector, Some verifier =>
      WHEN collector = verifier RETURN (n, [Inner E_COLLECT_STARTED_SUCCESS]) ;;
      let peerPk := GetExecutorPublicKey (world_ n) collector in
      let attr := GetScheduleAttribute n false Attributes_new in
      let '(w, result) := BeginExecute (world_ n) collector (scheduleId (info_ n)) peerPk attr in
      let n := log (set_world n w) (ABegin false collector attr result) in
      WHEN result ≠ SUCCESS RETURN (SetExecutorResultCode n result, [Inner E_COLLECT_STARTED_FAILED]) ;;
      (NotifyCollectorReady n, [Inner E_COLLECT_STARTED_SUCCESS])
  | _, _ => (SetFwkResultCode (log n ANoResource) GENERAL_ERROR, [Inner E_COLLECT_STARTED_FAILED])
  end.

(* @src N ScheduleNodeImpl::ProcessVerifierBeginFailed *)
Definition ProcessVerifierBeginFailed n event : Node W * list kick := (n, []).

(* @src N ScheduleNodeImpl::ProcessCollectorBeginFailed *)
Definition ProcessCollectorBeginFailed n event : Node W * list kick := (n, []).

(* @src N ScheduleNodeImpl::ProcessScheduleResultReceived *)
Definition ProcessScheduleResultReceived n event : Node W * list kick := (n, []).

(* @src N ScheduleNodeImpl::ProcessEndCollector *)
Definition ProcessEndCollector n event : Node W * list kick :=
  match weak_lock n (collector (info_ n)), weak_lock n (verifier (info_ n)) with
  | Some collector, Some verifier =>
      WHEN collector = verifier RETURN (n, [Inner E_COLLECT_STOPPED_SUCCESS]) ;;
      let '(w, result) := EndExecute (world_ n) collector (scheduleId (info_ n)) Attributes_new in
      let n := log (set_world n w) (AEnd false collector result) in
      WHEN result ≠ SUCCESS RETURN (SetExecutorResultCode n result, [Inner E_COLLECT_STOPPED_FAILED]) ;;
      (n, [Inner E_COLLECT_STOPPED_SUCCESS])
  | _, _ => (SetFwkResultCode (log n ANoResource) GENERAL_ERROR, [Inner E_COLLECT_STOPPED_FAILED])
  end.

(* @src N ScheduleNodeImpl::ProcessEndVerifier *)
Definition ProcessEndVerifier n event : Node W * list kick :=
  match weak_lock n (verifier (info_ n)) with
  | Some verifier =>
      let '(w, result) := EndExecute (world_ n) verifier (scheduleId (info_ n)) Attributes_new in
      let n := log (set_world n w) (AEnd true verifier result) in
      WHEN result ≠ SUCCESS RETURN (SetExecutorResultCode n result, [Inner E_VERIFY_STOPPED_FAILED]) ;;
      (n, [Inner E_VERIFY_STOPPED_SUCCESS])
  | None => (SetFwkResultCode (log n ANoResource) GENERAL_ERROR, [Inner E_VERIFY_STOPPED_FAILED])
  end.

(* @src N ScheduleNodeImpl::OnScheduleProcessing *)
Definition OnScheduleProcessing n event : Node W * list kick :=
  CHECK GetScheduleCallback n = true ELSE (n, []) ;;
  (log n AStarted, []).

(* @src N ScheduleNodeImpl::OnScheduleFinished *)
Definition OnScheduleFinished n event : Node W * list kick :=
  let n := StopTimer n in
  CHECK GetScheduleCallback n = true ELSE (n, []) ;;
  let result := default (executorResultCode_ n) (fwkResultCode_ n) in
  let n := log n (AStoped result (scheduleResult_ n)) in
  (ClearScheduleCallback n, []).

(* @src N ScheduleNodeImpl::MakeAction *)
Definition MakeAction (handler : Node W → Z → Node W * list kick) : Action (Node W) := Some handler.

(* @src N ScheduleNodeImpl::MakeFiniteStateMachine *)
Definition MakeFiniteStateMachine : option (Fsm (list Z) * FsmTable (Node W)) :=
  let builder := Builder_New S_INIT in
  let builder := MakeTransition builder S_INIT E_START_AUTH S_VERIFY_STARING
    (MakeAction ProcessBeginVerifier) in
  let builder := MakeTransition builder S_VERIFY_STARING E_VERIFY_STARTED_SUCCESS S_COLLECT_STARING
    (MakeAction ProcessBeginCollector) in
  let builder := MakeTransition builder S_VERIFY_STARING E_VERIFY_STARTED_FAILED S_END
    (MakeAction ProcessVerifierBeginFailed) in
  let builder := MakeTransition builder S_VERIFY_STARING E_SCHEDULE_RESULT_RECEIVED S_END None in
  let builder := MakeTransition builder S_VERIFY_STARING E_STOP_AUTH S_VERIFY_STOPPING
    (MakeAction ProcessEndVerifier) in
  let builder := MakeTransition builder S_VERIFY_STARING E_TIME_OUT S_VERIFY_STOPPING
    (MakeAction ProcessEndVerifier) in
  let builder := MakeTransition builder S_COLLECT_STARING E_COLLECT_STARTED_SUCCESS S_AUTH_PROCESSING None in
  let builder := MakeTransition builder S_COLLECT_STARING E_SCHEDULE_RESULT_RECEIVED S_END None in
  let builder := MakeTransition builder S_COLLECT_STARING E_STOP_AUTH S_COLLECT_STOPPING
    (MakeAction ProcessEndCollector) in
  let builder := MakeTransition builder S_AUTH_PROCESSING E_SCHEDULE_RESULT_RECEIVED S_END None in
  let builder := MakeTransition builder S_AUTH_PROCESSING E_STOP_AUTH S_COLLECT_STOPPING
    (MakeAction ProcessEndCollector) in
  let builder := MakeTransition builder S_AUTH_PROCESSING E_TIME_OUT S_COLLECT_STOPPING
    (MakeAction ProcessEndCollector) in
  let builder := MakeTransition builder S_COLLECT_STOPPING E_SCHEDULE_RESULT_RECEIVED S_END None in
  let builder := MakeTransition builder S_COLLECT_STOPPING E_COLLECT_STOPPED_SUCCESS S_VERIFY_STOPPING
    (MakeAction ProcessEndVerifier) in
  let builder := MakeTransition builder S_COLLECT_STOPPING E_COLLECT_STOPPED_FAILED S_VERIFY_STOPPING
    (MakeAction ProcessEndVerifier) in
  let builder := MakeTransition builder S_COLLECT_STOPPING E_TIME_OUT S_VERIFY_STOPPING
    (MakeAction ProcessEndVerifier) in
  let builder := MakeTransition builder S_VERIFY_STOPPING E_SCHEDULE_RESULT_RECEIVED S_END None in
  let builder := MakeTransition builder S_VERIFY_STOPPING E_VERIFY_STOPPED_SUCCESS S_END None in
  let builder := MakeTransition builder S_VERIFY_STOPPING E_VERIFY_STOPPED_FAILED S_END None in
  let builder := MakeTransition builder S_VERIFY_STOPPING E_TIME_OUT S_END None in
  let builder := MakeOnStateEnter builder S_AUTH_PROCESSING (MakeAction OnScheduleProcessing) in
  let builder := MakeOnStateEnter builder S_END (MakeAction OnScheduleFinished) in
  (Build builder).2.

(** The machine's tables. *)
Definition tables : FsmTable (Node W) :=
  match MakeFiniteStateMachine with Some (_, tbl) => tbl | None => mkTable ∅ ∅ ∅ end.

(** ** The object *)

Definition set_threadHandler (i : ScheduleInfo) (th : bool) : ScheduleInfo :=
  mkScheduleInfo (scheduleId i) (tokenId i) (collectorTokenId i) (pinSubType i)
    (contextId i) (expiredTime i) (templateIdList i) (si_authType i) (si_executorMatcher i)
    (scheduleMode i) (collector i) (verifier i) th (callback i) (endAfterFirstFail i)
    (collectorMessage i) (verifierMessage i) (authIntent i) (userId i) (additionalInfo i)
    (title i) (authScene i).

(** [singleThread]: the service thread's handler is there. *)
(* @src N ScheduleNodeImpl::Init *)
Definition Init n (info : ScheduleInfo) (singleThread : bool) : ScheduleNode W * bool :=
  let n := set_info n info in
  match MakeFiniteStateMachine with
  | None => (mkScheduleNode n None, false)
  | Some (machine, _) =>
      WHEN threadHandler info = false RETURN
        (mkScheduleNode (set_info n (set_threadHandler info singleThread))
           (Some (SetThreadHandler machine singleThread)), true) ;;
      (mkScheduleNode n (Some machine), true)
  end.

(* @src N ScheduleNodeImpl::Create *)
Definition Create (w : W) (info : ScheduleInfo) (singleThread : bool) : option (ScheduleNode W) :=
  let n := mkNode 0 info GENERAL_ERROR None None false w [] in
  let '(s, ok) := Init n info singleThread in
  CHECK ok = true ELSE None ;; Some s.

(** [self] names the object. *)
(* @src N ScheduleNodeImpl::TryKickMachine *)
Definition TryKickMachine s (self event : Z) : ScheduleNode W * bool :=
  match machine_ s with
  | None => (s, false)
  | Some machine =>
      let machine := AttachOwnerLifetime machine self in
      (mkScheduleNode (node s) (Some (Schedule machine event)), true)
  end.

(* @src N ScheduleNodeImpl::GetCurrentScheduleState *)
Definition GetCurrentScheduleState s : Z :=
  match machine_ s with None => S_INIT | Some machine => GetCurrentState machine end.

Definition on_s s (f : Node W → Node W) : ScheduleNode W := mkScheduleNode (f (node s)) (machine_ s).

(* @src N ScheduleNodeImpl::StartSchedule *)
Definition StartSchedule s (self : Z) : ScheduleNode W * bool :=
  let n := set_listener (node s) true in
  let '(w, registerRet) := pool_RegisterListener (world_ n) in
  let s := mkScheduleNode (set_world n w) (machine_ s) in
  CHECK registerRet = true ELSE (s, false) ;;
  let '(s, kicked) := TryKickMachine s self E_START_AUTH in
  CHECK kicked = true ELSE (s, false) ;;
  (on_s s StartTimer, true).

(* @src N:208-216 ScheduleNodeImpl::StopSchedule *)
Definition StopSchedule s (self errorCode : Z) : ScheduleNode W * bool :=
  let s := on_s s (λ n, SetFwkResultCode (log n (AStop errorCode)) errorCode) in
  TryKickMachine s self E_STOP_AUTH.

(* @src N:203-206 ScheduleNodeImpl::StopSchedule *)
Definition StopSchedule_default s (self : Z) : ScheduleNode W * bool := StopSchedule s self CANCELED.

(* @src N ScheduleNodeImpl::ContinueSchedule *)
Definition ContinueSchedule s (self resultCode : Z) (finalResult : AttributesPtr) : ScheduleNode W * bool :=
  let s := on_s s (λ n, SetExecutorResultCode (log n (AContinue resultCode finalResult)) resultCode) in
  let s := on_s s (λ n, SetScheduleResult n finalResult) in
  TryKickMachine s self E_SCHEDULE_RESULT_RECEIVED.

(** The callback that [StartTimer] registers, run while the node lives. *)
(* @src N:377-385 ScheduleNodeImpl::StartTimer *)
Definition timer_fires s (self : Z) : ScheduleNode W :=
  let s := on_s s (λ n, SetFwkResultCode (log n ATimeout) TIMEOUT) in
  (TryKickMachine s self E_TIME_OUT).1.

(* @src N ScheduleNodeImpl::SendMessage *)
Definition SendMessage n (dstRole : Z) (msg : bytes) : Node W * bool :=
  let attr := Attributes_of_raw msg in
  WHEN dstRole = SCHEDULER RETURN
    match GetInt32Value attr ATTR_TIP_INFO with
    | Some tip =>
        CHECK GetScheduleCallback n = true ELSE (n, false) ;;
        (log n (AProcessed dstRole (si_authType (info_ n)) msg), true)
    | None =>
        match GetInt32Value attr ATTR_SRC_ROLE with
        | None => (n, false)
        | Some srcRole =>
          match GetUint8ArrayValue attr ATTR_EXTRA_INFO with
          | None => (n, false)
          | Some message =>
              let '(w, sendMsgRet) := engine_SendMessage (world_ n) (scheduleId (info_ n)) srcRole message in
              (set_world n w, bool_decide (sendMsgRet = SUCCESS))
          end
        end
    end ;;
  let dst :=
    if decide (dstRole = ALL_IN_ONE ∨ dstRole = VERIFIER) then weak_lock n (verifier (info_ n))
    else if decide (dstRole = COLLECTOR) then weak_lock n (collector (info_ n))
    else None in
  match dst with
  | None => (n, false)
  | Some h => let '(w, _) := SendData (world_ n) h (scheduleId (info_ n)) attr in (set_world n w, true)
  end.

(** The machine's next task on the service thread. *)
Definition run_task s : ScheduleNode W * list round :=
  match machine_ s with
  | None => (s, [])
  | Some machine =>
      let '(machine, n, rounds) := run_posted (λ _, true) tables machine (node s) in
      (mkScheduleNode n (Some machine), rounds)
  end.
End Handlers.
