(* ===== verification/ScheduleNodeThm.v ===== *)
(** * Schedule nodes: what a schedule promises

    The theorems on the model of ScheduleNode.v. A schedule's life is a
    transition system ([step]) in which requests of the rest of the program,
    changes of the rest of the program, and single rounds of the machine's
    tasks interleave freely. *)

From S2P Require Import Prelude Defines AttributesImpl Attributes Fsm ResourceNode ScheduleNode.

(** ** The transition table *)

Inductive handler := HNone | HBeginVerifier | HBeginCollector | HBeginFailed | HEndCollector | HEndVerifier.

Definition transitions_list : list (Z * Z * Z * handler) :=
  [(S_INIT, E_START_AUTH, S_VERIFY_STARING, HBeginVerifier);
   (S_VERIFY_STARING, E_VERIFY_STARTED_SUCCESS, S_COLLECT_STARING, HBeginCollector);
   (S_VERIFY_STARING, E_VERIFY_STARTED_FAILED, S_END, HBeginFailed);
   (S_VERIFY_STARING, E_SCHEDULE_RESULT_RECEIVED, S_END, HNone);
   (S_VERIFY_STARING, E_STOP_AUTH, S_VERIFY_STOPPING, HEndVerifier);
   (S_VERIFY_STARING, E_TIME_OUT, S_VERIFY_STOPPING, HEndVerifier);
   (S_COLLECT_STARING, E_COLLECT_STARTED_SUCCESS, S_AUTH_PROCESSING, HNone);
   (S_COLLECT_STARING, E_SCHEDULE_RESULT_RECEIVED, S_END, HNone);
   (S_COLLECT_STARING, E_STOP_AUTH, S_COLLECT_STOPPING, HEndCollector);
   (S_AUTH_PROCESSING, E_SCHEDULE_RESULT_RECEIVED, S_END, HNone);
   (S_AUTH_PROCESSING, E_STOP_AUTH, S_COLLECT_STOPPING, HEndCollector);
   (S_AUTH_PROCESSING, E_TIME_OUT, S_COLLECT_STOPPING, HEndCollector);
   (S_COLLECT_STOPPING, E_SCHEDULE_RESULT_RECEIVED, S_END, HNone);
   (S_COLLECT_STOPPING, E_COLLECT_STOPPED_SUCCESS, S_VERIFY_STOPPING, HEndVerifier);
   (S_COLLECT_STOPPING, E_COLLECT_STOPPED_FAILED, S_VERIFY_STOPPING, HEndVerifier);
   (S_COLLECT_STOPPING, E_TIME_OUT, S_VERIFY_STOPPING, HEndVerifier);
   (S_VERIFY_STOPPING, E_SCHEDULE_RESULT_RECEIVED, S_END, HNone);
   (S_VERIFY_STOPPING, E_VERIFY_STOPPED_SUCCESS, S_END, HNone);
   (S_VERIFY_STOPPING, E_VERIFY_STOPPED_FAILED, S_END, HNone);
   (S_VERIFY_STOPPING, E_TIME_OUT, S_END, HNone)].

(** The table as a function; [None] where the machine ignores the event. *)
Fixpoint find_transition (l : list (Z * Z * Z * handler)) (state event : Z) : option (Z * handler) :=
  match l with
  | [] => None
  | (s, e, new, h) :: l =>
      if (s =? state) && (e =? event) then Some (new, h) else find_transition l state event
  end.
Definition delta (state event : Z) : option (Z * handler) := find_transition transitions_list state event.

Lemma find_transition_in l state event new h :
  find_transition l state event = Some (new, h) → (state, event, new, h) ∈ l.
Proof.
  induction l as [|[[[s e] n] h'] l IH]; simpl; [done|].
  destruct (s =? state) eqn:Hs, (e =? event) eqn:He; simpl; try (intros; right; by apply IH).
  apply Z.eqb_eq in Hs as ->, He as ->. intros [= <- <-]. left.
Qed.

Definition state_ok (st : Z) : Prop := 0 ≤ st ≤ 6.
Definition event_ok (e : Z) : Prop := 0 ≤ e ≤ 11.

Lemma state_cases st : state_ok st →
  st = 0 ∨ st = 1 ∨ st = 2 ∨ st = 3 ∨ st = 4 ∨ st = 5 ∨ st = 6.
Proof. unfold state_ok. lia. Qed.
Lemma event_cases e : event_ok e →
  e = 0 ∨ e = 1 ∨ e = 2 ∨ e = 3 ∨ e = 4 ∨ e = 5 ∨ e = 6 ∨ e = 7 ∨ e = 8 ∨ e = 9 ∨ e = 10 ∨ e = 11.
Proof. unfold event_ok. lia. Qed.

Section Rounds.
Context {W : Type} `{ResourceNodeOps W} `{ScheduleServices W}.
Implicit Types (n : Node W) (s : ScheduleNode W) (m : Fsm (list Z)).

Definition act_of (h : handler) : Action (Node W) :=
  match h with
  | HNone => None
  | HBeginVerifier => MakeAction ProcessBeginVerifier
  | HBeginCollector => MakeAction ProcessBeginCollector
  | HBeginFailed => MakeAction ProcessVerifierBeginFailed
  | HEndCollector => MakeAction ProcessEndCollector
  | HEndVerifier => MakeAction ProcessEndVerifier
  end.

Definition run_handler (h : handler) n (event : Z) : Node W * list kick :=
  match act_of h with None => (n, []) | Some f => f n event end.

(** The shape of the table does not depend on the handlers. *)
Ltac gen_actions :=
  generalize (MakeAction (W := W) ProcessBeginVerifier), (MakeAction (W := W) ProcessBeginCollector),
    (MakeAction (W := W) ProcessVerifierBeginFailed), (MakeAction (W := W) ProcessEndCollector),
    (MakeAction (W := W) ProcessEndVerifier), (MakeAction (W := W) OnScheduleProcessing),
    (MakeAction (W := W) OnScheduleFinished).

Lemma tables_transitions st e : state_ok st → event_ok e →
  transitionMap_ tables !! GetTransitionIndex st e =
  (λ '(new, h), (new, act_of h)) <$> delta st e.
Proof.
  unfold tables, MakeFiniteStateMachine, act_of.
  gen_actions.
  intros a1 a2 a3 a4 a5 a6 a7 Hs He.
  destruct (state_cases st Hs) as [->|[->|[->|[->|[->|[->| ->]]]]]];
    destruct (event_cases e He) as [->|[->|[->|[->|[->|[->|[->|[->|[->|[->|[->| ->]]]]]]]]]]];
    vm_compute; reflexivity.
Qed.

Lemma tables_enter st : state_ok st →
  enterMap_ tables !! st =
  (if decide (st = S_AUTH_PROCESSING) then Some (MakeAction OnScheduleProcessing)
   else if decide (st = S_END) then Some (MakeAction OnScheduleFinished) else None) ∧
  leaveMap_ (S := Node W) tables !! st = None.
Proof.
  unfold tables, MakeFiniteStateMachine.
  gen_actions.
  intros a1 a2 a3 a4 a5 a6 a7 Hs.
  destruct (state_cases st Hs) as [->|[->|[->|[->|[->|[->| ->]]]]]]; vm_compute; done.
Qed.

Lemma Create_spec (w : W) (info : ScheduleInfo) (th : bool) :
  ∃ i, Create w info th = Some (mkScheduleNode (mkNode 0 i GENERAL_ERROR None None false w [])
    (Some (mkFsm S_INIT [] (threadHandler info || th) None []))) ∧ callback i = callback info ∧
    collector i = collector info ∧ verifier i = verifier info ∧
    (i = info ∨ i = set_threadHandler info th).
Proof.
  unfold Create, Init.
  assert (∃ tbl, MakeFiniteStateMachine (W := W) = Some (mkFsm S_INIT [] true None [], tbl)) as [tbl ->].
  { unfold MakeFiniteStateMachine.
    gen_actions. intros. eexists. vm_compute. reflexivity. }
  destruct (threadHandler info) eqn:Hth; simpl; eexists; split_and!; try reflexivity; auto.
Qed.

(** ** What the history says

      The result codes are functions of the log: the framework's code is that
      of the last stop, timeout or missing executor, the executor's code that
      of the last result or failed call. *)

Fixpoint last_of {A} (f : Act → option A) (l : list Act) : option A :=
  match l with
  | [] => None
  | a :: l => match last_of f l with Some x => Some x | None => f a end
  end.

Definition fwk_act (a : Act) : option Z :=
  match a with
  | AStop c => Some c
  | ATimeout => Some TIMEOUT
  | ANoResource => Some GENERAL_ERROR
  | _ => None
  end.
Definition exec_act (a : Act) : option Z :=
  match a with
  | AContinue c _ => Some c
  | ABegin _ _ _ r | AEnd _ _ r => if decide (r = SUCCESS) then None else Some r
  | _ => None
  end.
Definition result_act (a : Act) : option AttributesPtr :=
  match a with AContinue _ r => Some r | _ => None end.

Definition fwk_code (l : list Act) : option Z := last_of fwk_act l.
Definition exec_code (l : list Act) : Z := default GENERAL_ERROR (last_of exec_act l).
Definition result_of (l : list Act) : AttributesPtr := default None (last_of result_act l).

Lemma last_of_snoc {A} (f : Act → option A) l a :
  last_of f (l ++ [a]) = match f a with Some x => Some x | None => last_of f l end.
Proof.
  induction l as [|b l IH]; simpl; [by destruct (f a)|]. rewrite IH. by destruct (f a).
Qed.

Lemma last_of_Some {A} (f : Act → option A) l x :
  last_of f l = Some x → ∃ a, a ∈ l ∧ f a = Some x.
Proof.
  induction l as [|a l IH]; simpl; [done|]. destruct (last_of f l) as [z|].
  - intros [= ->]. destruct IH as (a' & Hin & Hf); [done|]. exists a'. split; [by right|done].
  - intros Hf. exists a. split; [left|done].
Qed.

Lemma last_of_None {A} (f : Act → option A) l a : last_of f l = None → a ∈ l → f a = None.
Proof.
  induction l as [|b l IH]; simpl; [by intros _ ?%elem_of_nil|].
  destruct (last_of f l); [done|]. intros Hb [->|Ha]%elem_of_cons; [done|by apply IH].
Qed.

(** Only missing executors change the framework's code on the way. *)
Lemma fwk_code_after l acts c :
  fwk_code l = Some c → (∀ a, a ∈ acts → fwk_act a = None ∨ a = ANoResource) →
  fwk_code (l ++ acts) = Some c ∨ fwk_code (l ++ acts) = Some GENERAL_ERROR ∧ ANoResource ∈ acts.
Proof.
  intros Hc. induction acts as [|x acts IH] using rev_ind; intros Hacts; [left; by rewrite app_nil_r|].
  rewrite app_assoc. unfold fwk_code at 1 2. rewrite last_of_snoc.
  destruct (Hacts x) as [Hx| ->]; [apply elem_of_app; right; left| |right; split; [done|set_solver]].
  rewrite Hx. destruct IH as [IH|[IH Hin]]; [|by left|right; split; [done|set_solver]].
  intros y Hy. apply Hacts, elem_of_app. by left.
Qed.

Definition codes_ok n : Prop :=
  fwkResultCode_ n = fwk_code (log_ n) ∧ executorResultCode_ n = exec_code (log_ n) ∧
  scheduleResult_ n = result_of (log_ n).

(** What running a handler adds to the log, and the event it schedules. *)
Definition handler_acts (h : handler) n (acts : list Act) (es : list Z) : Prop :=
  match h with
  | HNone | HBeginFailed => acts = [] ∧ es = []
  | HBeginVerifier =>
      acts = [ANoResource] ∧ es = [E_VERIFY_STARTED_FAILED] ∨
      ∃ v attr r, verifier (info_ n) = Some v ∧ acts = [ABegin true v attr r] ∧
        es = [if decide (r = SUCCESS) then E_VERIFY_STARTED_SUCCESS else E_VERIFY_STARTED_FAILED]
  | HBeginCollector =>
      acts = [ANoResource] ∧ es = [E_COLLECT_STARTED_FAILED] ∨
      acts = [] ∧ collector (info_ n) = verifier (info_ n) ∧ es = [E_COLLECT_STARTED_SUCCESS] ∨
      ∃ c attr r, collector (info_ n) = Some c ∧ verifier (info_ n) ≠ Some c ∧
        (r ≠ SUCCESS ∧ acts = [ABegin false c attr r] ∧ es = [E_COLLECT_STARTED_FAILED] ∨
         r = SUCCESS ∧ es = [E_COLLECT_STARTED_SUCCESS] ∧
         (acts = [ABegin false c attr r] ∨ ∃ v p, acts = [ABegin false c attr r; ACollectorReady v p]))
  | HEndCollector =>
      acts = [ANoResource] ∧ es = [E_COLLECT_STOPPED_FAILED] ∨
      acts = [] ∧ collector (info_ n) = verifier (info_ n) ∧ es = [E_COLLECT_STOPPED_SUCCESS] ∨
      ∃ c r, collector (info_ n) = Some c ∧ verifier (info_ n) ≠ Some c ∧ acts = [AEnd false c r] ∧
        es = [if decide (r = SUCCESS) then E_COLLECT_STOPPED_SUCCESS else E_COLLECT_STOPPED_FAILED]
  | HEndVerifier =>
      acts = [ANoResource] ∧ es = [E_VERIFY_STOPPED_FAILED] ∨
      ∃ v r, verifier (info_ n) = Some v ∧ acts = [AEnd true v r] ∧
        es = [if decide (r = SUCCESS) then E_VERIFY_STOPPED_SUCCESS else E_VERIFY_STOPPED_FAILED]
  end.

Lemma weak_lock_Some n weak h : weak_lock n weak = Some h → weak = Some h.
Proof. unfold weak_lock. destruct weak as [k|]; simpl; [|done]. by destruct (lock (world_ n) k); intros [= ->]. Qed.

Lemma codes_ok_log n a n' :
  codes_ok n → log_ n' = log_ n ++ [a] →
  fwkResultCode_ n' = match fwk_act a with Some c => Some c | None => fwkResultCode_ n end →
  executorResultCode_ n' = match exec_act a with Some c => c | None => executorResultCode_ n end →
  scheduleResult_ n' = match result_act a with Some r => r | None => scheduleResult_ n end →
  codes_ok n'.
Proof.
  intros (H1 & H2 & H3) Hl Hf He Hr. unfold codes_ok, fwk_code, exec_code, result_of in *.
  rewrite Hl, !last_of_snoc, Hf, He, Hr.
  split_and!; [by destruct (fwk_act a)|by destruct (exec_act a)|by destruct (result_act a)].
Qed.

(** [n'] is [n] after the actions [acts], with its codes kept. *)
Definition advanced n (acts : list Act) n' : Prop :=
  log_ n' = log_ n ++ acts ∧ info_ n' = info_ n ∧ (codes_ok n → codes_ok n').

Lemma advanced_nil n n' :
  log_ n' = log_ n → info_ n' = info_ n → fwkResultCode_ n' = fwkResultCode_ n →
  executorResultCode_ n' = executorResultCode_ n → scheduleResult_ n' = scheduleResult_ n →
  advanced n [] n'.
Proof.
  intros Hl Hi Hf He Hr. split_and!; [by rewrite app_nil_r|done|].
  unfold codes_ok. by rewrite Hl, Hf, He, Hr.
Qed.

Lemma advanced_one n a n' :
  log_ n' = log_ n ++ [a] → info_ n' = info_ n →
  fwkResultCode_ n' = match fwk_act a with Some c => Some c | None => fwkResultCode_ n end →
  executorResultCode_ n' = match exec_act a with Some c => c | None => executorResultCode_ n end →
  scheduleResult_ n' = match result_act a with Some r => r | None => scheduleResult_ n end →
  advanced n [a] n'.
Proof. intros. split_and!; [done|done|]. intros Hc. by apply (codes_ok_log n a). Qed.

Lemma advanced_trans n1 a1 n2 a2 n3 :
  advanced n1 a1 n2 → advanced n2 a2 n3 → advanced n1 (a1 ++ a2) n3.
Proof. intros (H1 & H2 & H3) (H4 & H5 & H6). split_and!; [by rewrite H4, H1, app_assoc|congruence|auto]. Qed.

Lemma notify_ready_spec n :
  ∃ acts, advanced n acts (NotifyCollectorReady n) ∧
    (acts = [] ∨ ∃ v p, acts = [ACollectorReady v p]).
Proof.
  unfold NotifyCollectorReady. destruct (weak_lock n _) as [v|]; [|exists []; split; [by apply advanced_nil|by left]].
  destruct (SetInt32Value _ _ _) as [attr ok]. case_decide; [|exists []; split; [by apply advanced_nil|by left]].
  destruct (SetUint64Value _ _ _) as [attr' ok']. case_decide; [|exists []; split; [by apply advanced_nil|by left]].
  destruct (SetProperty _ _ _) as [w r]. exists [ACollectorReady v attr'].
  split; [by apply advanced_one|]. right. eauto.
Qed.

Lemma advanced_no_resource n :
  advanced n [ANoResource] (SetFwkResultCode (log n ANoResource) GENERAL_ERROR).
Proof. by apply advanced_one. Qed.

(** After a call of an executor that returned [r]. *)
Lemma advanced_call n w a r :
  fwk_act a = None → result_act a = None → exec_act a = (if decide (r = SUCCESS) then None else Some r) →
  advanced n [a]
    (if decide (r ≠ SUCCESS) then SetExecutorResultCode (log (set_world n w) a) r
     else log (set_world n w) a).
Proof. intros Hf Hr He. case_decide as Hd; apply advanced_one; rewrite ?Hf, ?Hr, ?He; simpl; by case_decide. Qed.

Lemma decide_not_if {A} (P : Prop) `{Decision P} (a b : A) :
  (if decide (¬ P) then a else b) = (if decide P then b else a).
Proof. by repeat case_decide. Qed.

(** A handler that calls an executor ends in one of two ways. *)
Lemma call_result n w a r (failed ok : Z) :
  (if decide (r ≠ SUCCESS) then (SetExecutorResultCode (log (set_world n w) a) r, [Inner failed])
   else (log (set_world n w) a, [Inner ok])) =
  ((if decide (r ≠ SUCCESS) then SetExecutorResultCode (log (set_world n w) a) r
    else log (set_world n w) a), Inner <$> [if decide (r = SUCCESS) then ok else failed]).
Proof. rewrite !decide_not_if. by case_decide. Qed.

Lemma run_handler_spec h n e :
  ∃ acts es n', run_handler h n e = (n', Inner <$> es) ∧ advanced n acts n' ∧ handler_acts h n acts es.
Proof.
  assert (∀ es, es = [] → ∃ acts es' n', (n, @nil kick) = (n', Inner <$> es') ∧ advanced n acts n' ∧
    acts = [] ∧ es' = es) as Hnil.
  { intros es ->. exists [], [], n. split_and!; try done. by apply advanced_nil. }
  destruct h; unfold run_handler; simpl; [by apply Hnil| | |by apply Hnil| |].
  - unfold ProcessBeginVerifier.
    destruct (weak_lock n (collector (info_ n))) as [c|] eqn:Hc;
      [destruct (weak_lock n (verifier (info_ n))) as [v|] eqn:Hv|].
    2,3: eexists _, [_], _; (split; [reflexivity|]); split; [apply advanced_no_resource|by left].
    apply weak_lock_Some in Hv. destruct (BeginExecute _ _ _ _ _) as [w r]. rewrite call_result.
    do 3 eexists. split; [reflexivity|]. split; [by apply advanced_call|]. right. eauto 10.
  - unfold ProcessBeginCollector.
    destruct (weak_lock n (collector (info_ n))) as [c|] eqn:Hc;
      [destruct (weak_lock n (verifier (info_ n))) as [v|] eqn:Hv|].
    2,3: eexists _, [_], _; (split; [reflexivity|]); split; [apply advanced_no_resource|by left].
    apply weak_lock_Some in Hv, Hc. case_decide as Hcv.
    { eexists [], [_], n. split; [reflexivity|]. split; [by apply advanced_nil|]. right. left. naive_solver congruence. }
    destruct (BeginExecute _ _ _ _ _) as [w r]. set (a := ABegin false c _ r).
    pose proof (advanced_call n w a r eq_refl eq_refl eq_refl) as Hcall.
    case_decide as Hr.
    + eexists [a], [_], _. split; [reflexivity|]. split; [done|]. right. right. exists c. do 2 eexists.
      split; [done|]. split; [congruence|]. left. split; [exact Hr|done].
    + destruct (notify_ready_spec (log (set_world n w) a)) as (acts & Hadv & Hacts).
      eexists (a :: acts), [_], _. split; [reflexivity|].
      split; [by apply (advanced_trans _ [a] _ acts _ Hcall Hadv)|]. right. right. exists c. do 2 eexists.
      split; [done|]. split; [congruence|]. right. split; [exact Hr|]. split; [done|].
      destruct Hacts as [->|(v' & p' & ->)]; eauto.
  - unfold ProcessEndCollector.
    destruct (weak_lock n (collector (info_ n))) as [c|] eqn:Hc;
      [destruct (weak_lock n (verifier (info_ n))) as [v|] eqn:Hv|].
    2,3: eexists _, [_], _; (split; [reflexivity|]); split; [apply advanced_no_resource|by left].
    apply weak_lock_Some in Hv, Hc. case_decide as Hcv.
    { eexists [], [_], n. split; [reflexivity|]. split; [by apply advanced_nil|]. right. left. naive_solver congruence. }
    destruct (EndExecute _ _ _ _) as [w r]. rewrite call_result.
    do 3 eexists. split; [reflexivity|]. split; [by apply advanced_call|]. right. right.
    exists c, r. split_and!; congruence.
  - unfold ProcessEndVerifier.
    destruct (weak_lock n (verifier (info_ n))) as [v|] eqn:Hv.
    2: eexists _, [_], _; (split; [reflexivity|]); split; [apply advanced_no_resource|by left].
    apply weak_lock_Some in Hv. destruct (EndExecute _ _ _ _) as [w r]. rewrite call_result.
    do 3 eexists. split; [reflexivity|]. split; [by apply advanced_call|]. right. eauto 10.
Qed.

(** ** Entering a state *)

Definition enter_node (new : Z) n : Node W :=
  if decide (new = S_AUTH_PROCESSING) then (OnScheduleProcessing n new).1
  else if decide (new = S_END) then (OnScheduleFinished n new).1 else n.

Definition enter_acts (new : Z) n : list Act :=
  if decide (new = S_AUTH_PROCESSING) then (if callback (info_ n) then [AStarted] else [])
  else if decide (new = S_END) then
    (if callback (info_ n) then [AStoped (default (executorResultCode_ n) (fwkResultCode_ n)) (scheduleResult_ n)]
     else [])
  else [].

Lemma enter_node_spec new n :
  let n' := enter_node new n in
  log_ n' = log_ n ++ enter_acts new n ∧
  collector (info_ n') = collector (info_ n) ∧ verifier (info_ n') = verifier (info_ n) ∧
  callback (info_ n') = (callback (info_ n) && bool_decide (new ≠ S_END)) ∧
  (codes_ok n → codes_ok n').
Proof.
  unfold enter_node, enter_acts, OnScheduleProcessing, OnScheduleFinished, GetScheduleCallback, StopTimer.
  destruct (decide (new = S_AUTH_PROCESSING)) as [->|Hp].
  { rewrite bool_decide_eq_true_2, andb_true_r by done.
    destruct (callback (info_ n)) eqn:Hcb; simpl; rewrite ?app_nil_r; (split_and!; [done..|]);
      intros Hc; [|done]. by apply (codes_ok_log n AStarted). }
  destruct (decide (new = S_END)) as [->|He].
  2: { rewrite app_nil_r, bool_decide_eq_true_2, andb_true_r by done. done. }
  rewrite bool_decide_eq_false_2, andb_false_r by naive_solver.
  destruct (decide (timerId_ n = 0)); simpl; destruct (callback (info_ n)) eqn:Hcb; simpl;
    rewrite ?app_nil_r; (split_and!; [done..|]); intros Hc; try done.
  all: by apply (codes_ok_log n (AStoped (default (executorResultCode_ n) (fwkResultCode_ n)) (scheduleResult_ n))).
Qed.

(** ** One round of the machine *)

Lemma delta_spec st e new h : delta st e = Some (new, h) →
  (st, e, new, h) ∈ transitions_list ∧ st < new ∧ state_ok new.
Proof.
  intros Hin%find_transition_in. split; [done|].
  unfold transitions_list in Hin. unfold state_ok.
  repeat (apply elem_of_cons in Hin as [[= -> -> -> ->]|Hin]; [by vm_compute|]).
  by apply elem_of_nil in Hin.
Qed.

  #[local] Opaque tables GetTransitionIndex delta.

Lemma inner_kicks es m :
  foldl apply_kick m (Inner <$> es) =
  mkFsm (currentState_ m) (pendingEvents_ m ++ es) (threadHandler_ m) (ownerLifetime_ m) (posted_ m).
Proof.
  revert m. induction es as [|e es IH]; intros m; simpl.
  - rewrite app_nil_r. by destruct m.
  - rewrite IH. simpl. by rewrite <- app_assoc.
Qed.

Definition machine_of (st : Z) (q : list Z) m : Fsm (list Z) :=
  mkFsm st q (threadHandler_ m) (ownerLifetime_ m) (posted_ m).

Lemma round_stay m n e q st :
  currentState_ m = st → state_ok st → event_ok e → delta st e = None →
  schedule_event tables (set_pending m q) n e = (machine_of st q m, n, (st, e, st)).
Proof.
  intros Hst Hs He Hd. unfold schedule_event. simpl. rewrite Hst.
  rewrite tables_transitions, Hd by done. simpl. unfold DealWithStateLeaveAndEnter.
  rewrite decide_True by done. unfold machine_of, set_pending. by rewrite Hst.
Qed.

Lemma round_move m n e q new h st :
  currentState_ m = st → state_ok st → event_ok e → delta st e = Some (new, h) →
  ∃ acts es n1, advanced n acts n1 ∧ handler_acts h n acts es ∧
    schedule_event tables (set_pending m q) n e =
    (machine_of new (q ++ es) m, enter_node new n1, (st, e, new)).
Proof.
  intros Hst Hs He Hd. destruct (run_handler_spec h n e) as (acts & es & n1 & Hrun & Hadv & Hacts).
  exists acts, es, n1. split; [done|]. split; [done|].
  unfold schedule_event. simpl. rewrite Hst, tables_transitions, Hd by done. simpl.
  destruct (delta_spec _ _ _ _ Hd) as (_ & Hlt & Hnew).
  assert (invoke (act_of h) (set_pending m q) n e = (machine_of st (q ++ es) m, n1)) as ->.
  { unfold run_handler in Hrun. unfold invoke. destruct (act_of h) as [f|].
    - rewrite Hrun, inner_kicks. simpl. by rewrite Hst.
    - injection Hrun as <- Hes. symmetry in Hes. apply fmap_nil_inv in Hes as ->. rewrite app_nil_r.
      unfold machine_of. by rewrite <- Hst. }
  unfold DealWithStateLeaveAndEnter. rewrite decide_False by lia.
  rewrite (proj2 (tables_enter _ Hs)), (proj1 (tables_enter _ Hnew)). simpl.
  unfold enter_node. destruct (decide (new = S_AUTH_PROCESSING)) as [->|].
  { unfold invoke_found, invoke, MakeAction, OnScheduleProcessing. by case_decide. }
  destruct (decide (new = S_END)) as [->|]; [|done].
  unfold invoke_found, invoke, MakeAction, OnScheduleFinished. by case_decide.
Qed.

(** ** The life of a schedule

      A system is the object and the rounds left to the running task, if a task
      is running. *)

Inductive request :=
  | RStart
  | RStop (errorCode : Z)
  | RContinue (resultCode : Z) (finalResult : AttributesPtr)
  | RTimer
  | RSend (dstRole : Z) (msg : bytes).

Definition serve (self : Z) s (r : request) : ScheduleNode W :=
  match r with
  | RStart => (StartSchedule s self).1
  | RStop c => (StopSchedule s self c).1
  | RContinue c r => (ContinueSchedule s self c r).1
  | RTimer => timer_fires s self
  | RSend role msg => mkScheduleNode (SendMessage (node s) role msg).1 (machine_ s)
  end.

Abbreviation System := (ScheduleNode W * option nat)%type.

Inductive step (self : Z) : System → System → Prop :=
  | step_request s b r : step self (s, b) (serve self s r, b)
  | step_world s b w : step self (s, b) (on_s s (λ n, set_world n w), b)
  | step_task s m t tasks :
      machine_ s = Some m → posted_ m = t :: tasks →
      step self (s, None) (mkScheduleNode (node s) (Some (set_posted m tasks)), Some MAX_SCHEDULE_TIMES)
  | step_round s m k e q m' n' r :
      machine_ s = Some m → pendingEvents_ m = e :: q →
      schedule_event tables (set_pending m q) (node s) e = (m', n', r) →
      step self (s, Some (Datatypes.S k)) (mkScheduleNode n' (Some m'), Some k)
  | step_done s m k :
      machine_ s = Some m → pendingEvents_ m = [] ∨ k = 0%nat →
      step self (s, Some k) (s, None).

(** ** The protocol: an abstract specification

      Only the state, the queued events, the number of posted tasks and the
      history are left of a schedule. *)

Record Params := mkParams {
  p_callback : bool;
  p_threadHandler : bool;
  p_collector : option Z;
  p_verifier : option Z;
}.

Record View := mkView {
  v_state : Z;
  v_queue : list Z;
  v_posted : nat;
  v_log : list Act;
  v_budget : option nat;
}.

Definition request_acts (pr : Params) (a : View) (acts : list Act) (event : option Z) : Prop :=
  match event with
  | None => acts = [] ∨ ∃ src t msg, acts = [AProcessed src t msg] ∧
      p_callback pr = true ∧ v_state a ≠ S_END
  | Some e => e = E_START_AUTH ∧ acts = [] ∨
      (∃ c, e = E_STOP_AUTH ∧ acts = [AStop c]) ∨
      (∃ c r, e = E_SCHEDULE_RESULT_RECEIVED ∧ acts = [AContinue c r]) ∨
      e = E_TIME_OUT ∧ acts = [ATimeout]
  end.

(** The handler's actions, with the collector and the verifier given. *)
Definition proto_acts (pr : Params) (h : handler) (acts : list Act) (es : list Z) : Prop :=
  ∃ n, collector (info_ n) = p_collector pr ∧ verifier (info_ n) = p_verifier pr ∧ handler_acts h n acts es.

Definition proto_enter (pr : Params) (new : Z) (l : list Act) : list Act :=
  if p_callback pr then
    if decide (new = S_AUTH_PROCESSING) then [AStarted]
    else if decide (new = S_END) then [AStoped (default (exec_code l) (fwk_code l)) (result_of l)]
    else []
  else [].

Inductive proto (pr : Params) (a : View) : View → Prop :=
  | proto_request acts event :
      request_acts pr a acts event →
      let q := if p_threadHandler pr then option_list event else [] in
      proto pr a (mkView (v_state a) (v_queue a ++ q) (v_posted a + length q) (v_log a ++ acts) (v_budget a))
  | proto_task k :
      v_budget a = None → v_posted a = Datatypes.S k →
      proto pr a (mkView (v_state a) (v_queue a) k (v_log a) (Some MAX_SCHEDULE_TIMES))
  | proto_ignore k e q :
      v_budget a = Some (Datatypes.S k) → v_queue a = e :: q → delta (v_state a) e = None →
      proto pr a (mkView (v_state a) q (v_posted a) (v_log a) (Some k))
  | proto_move k e q new h acts es :
      v_budget a = Some (Datatypes.S k) → v_queue a = e :: q → delta (v_state a) e = Some (new, h) →
      proto_acts pr h acts es →
      proto pr a (mkView new (q ++ es) (v_posted a)
        (v_log a ++ acts ++ proto_enter pr new (v_log a ++ acts)) (Some k))
  | proto_done k :
      v_budget a = Some k → v_queue a = [] ∨ k = 0%nat →
      proto pr a (mkView (v_state a) (v_queue a) (v_posted a) (v_log a) None).

Definition implements (pr : Params) (sb : System) (a : View) : Prop :=
  ∃ m, let n := node sb.1 in
    machine_ sb.1 = Some m ∧ threadHandler_ m = p_threadHandler pr ∧
    currentState_ m = v_state a ∧ pendingEvents_ m = v_queue a ∧ length (posted_ m) = v_posted a ∧
    log_ n = v_log a ∧ sb.2 = v_budget a ∧
    state_ok (v_state a) ∧ Forall event_ok (v_queue a) ∧ codes_ok n ∧
    collector (info_ n) = p_collector pr ∧ verifier (info_ n) = p_verifier pr ∧
    callback (info_ n) = p_callback pr && bool_decide (v_state a ≠ S_END).

(** Requests that kick the machine after changing the node. *)
Lemma implements_kick pr s b a self n acts e :
  implements pr (s, b) a → event_ok e → request_acts pr a acts (Some e) →
  log_ n = log_ (node s) ++ acts → info_ n = info_ (node s) → (codes_ok (node s) → codes_ok n) →
  ∃ a', proto pr a a' ∧
    implements pr ((TryKickMachine (mkScheduleNode n (machine_ s)) self e).1, b) a' ∧
    node (TryKickMachine (mkScheduleNode n (machine_ s)) self e).1 = n ∧
    (TryKickMachine (mkScheduleNode n (machine_ s)) self e).2 = true.
Proof.
  intros (m & Hm & Hth & Hst & Hq & Hp & Hl & Hb & Hok & Hqok & Hc & Hcol & Hver & Hcb) He Hacts Hln Hin Hcn.
  eexists. split; [by apply (proto_request pr a acts (Some e))|].
  unfold TryKickMachine. simpl in *. rewrite Hm. simpl. split; [|done].
  eexists. split; [reflexivity|]. simpl. unfold Fsm.Schedule. simpl. rewrite Hth.
  destruct (p_threadHandler pr) eqn:Hpt; simpl.
  - rewrite Hst, Hq, length_app, Hp, Hln, Hl, Hin. split_and!; auto; try by rewrite Hpt.
    apply Forall_app; by auto.
  - rewrite Hst, Hq, Hp, Hln, Hl, Hin, app_nil_r, Nat.add_0_r. split_and!; auto; try by rewrite Hpt.
Qed.

(** Changes that the protocol does not see. *)
Lemma implements_node pr s b a n :
  implements pr (s, b) a → log_ n = log_ (node s) → info_ n = info_ (node s) →
  (codes_ok (node s) → codes_ok n) → implements pr (mkScheduleNode n (machine_ s), b) a.
Proof.
  intros (m & Hm & Hth & Hst & Hq & Hp & Hl & Hb & Hok & Hqok & Hc & Hcol & Hver & Hcb) Hln Hin Hcn.
  exists m. simpl in *. rewrite Hln, Hin. split_and!; auto.
Qed.

Lemma StartTimer_same n :
  log_ (StartTimer n) = log_ n ∧ info_ (StartTimer n) = info_ n ∧ (codes_ok n → codes_ok (StartTimer n)).
Proof. unfold StartTimer. case_decide; [done|]. by destruct (timer_Register _ _). Qed.

Lemma send_message_acts n role msg :
  let n' := (SendMessage n role msg).1 in
  (log_ n' = log_ n ∨ ∃ t, callback (info_ n) = true ∧ log_ n' = log_ n ++ [AProcessed role t msg]) ∧
  info_ n' = info_ n ∧ (codes_ok n → codes_ok n').
Proof.
  unfold SendMessage, GetScheduleCallback. case_decide as Hr.
  - destruct (GetInt32Value _ ATTR_TIP_INFO).
    + case_decide as Hcb; simpl; [|by auto]. split_and!; [right; eauto|done|].
      intros Hc. by apply (codes_ok_log n (AProcessed role (si_authType (info_ n)) msg)).
    + destruct (GetInt32Value _ ATTR_SRC_ROLE); [|by auto].
      destruct (GetUint8ArrayValue _ _); [|by auto]. destruct (engine_SendMessage _ _ _ _). by auto.
  - set (dst := if decide _ then _ else _). destruct dst as [h|]; [|by auto].
    destruct (SendData _ _ _ _). by auto.
Qed.

Lemma serve_implements pr self s b a r :
  implements pr (s, b) a → ∃ a', rtc (proto pr) a a' ∧ implements pr (serve self s r, b) a'.
Proof.
  intros Himp. destruct r as [|c|c r| |role msg]; simpl.
  - unfold StartSchedule. destruct (pool_RegisterListener _) as [w reg].
    set (n1 := set_world (set_listener (node s) true) w).
    case_decide; [|exists a; split; [done|by apply (implements_node pr s b a n1)]].
    destruct (implements_kick pr s b a self n1 [] E_START_AUTH Himp) as (a' & Hproto & Himp' & Hn & Hk).
    { done. } { by left. } { by rewrite app_nil_r. } { done. } { done. }
    exists a'. split; [by apply rtc_once|].
    destruct (TryKickMachine _ self E_START_AUTH) as [s1 k]. simpl in *. subst.
    rewrite decide_True by done. simpl. destruct (StartTimer_same (node s1)) as (H1 & H2 & H3).
    by apply (implements_node pr s1 b a').
  - unfold StopSchedule, on_s. set (n1 := SetFwkResultCode _ c).
    destruct (implements_kick pr s b a self n1 [AStop c] E_STOP_AUTH Himp) as (a' & Hproto & Himp' & _ & _).
    { done. } { right; left; eauto. } { done. } { done. } { intros Hc; by apply (codes_ok_log (node s) (AStop c)). }
    exists a'. split; [by apply rtc_once|done].
  - unfold ContinueSchedule, on_s. simpl. set (n1 := SetScheduleResult _ r).
    destruct (implements_kick pr s b a self n1 [AContinue c r] E_SCHEDULE_RESULT_RECEIVED Himp) as (a' & Hproto & Himp' & _ & _).
    { done. } { right; right; left; eauto. } { done. } { done. } { intros Hc; by apply (codes_ok_log (node s) (AContinue c r)). }
    exists a'. split; [by apply rtc_once|done].
  - unfold timer_fires, on_s. set (n1 := SetFwkResultCode _ TIMEOUT).
    destruct (implements_kick pr s b a self n1 [ATimeout] E_TIME_OUT Himp) as (a' & Hproto & Himp' & _ & _).
    { done. } { by do 3 right. } { done. } { done. } { intros Hc; by apply (codes_ok_log (node s) ATimeout). }
    exists a'. split; [by apply rtc_once|done].
  - pose proof (send_message_acts (node s) role msg) as (Hl & Hi & Hc).
    destruct Hl as [Hl|(t & Hcb & Hl)]; [exists a; split; [done|by apply implements_node]|].
    destruct Himp as (m & Hm & Hth & Hst & Hq & Hp & Hlog & Hb & Hok & Hqok & Hco & Hcol & Hver & Hcb').
    simpl in *. rewrite Hcb in Hcb'. symmetry in Hcb'. apply andb_true_iff in Hcb' as [Hpcb Hend].
    eexists. split.
    { apply rtc_once, (proto_request pr a [AProcessed role t msg] None). right.
      do 3 eexists. split_and!; [done|done|]. by apply bool_decide_eq_true in Hend. }
    exists m. simpl. rewrite !Hi, Hl, Hlog. assert (∀ x : list Z, (if p_threadHandler pr then [] else []) = ([] : list Z)) as Hnil by (by destruct (p_threadHandler pr)).
    rewrite (Hnil []), app_nil_r, Nat.add_0_r. split_and!; auto. by rewrite Hcb, Hpcb, Hend.
Qed.

Lemma proto_enter_eq pr n new l :
  log_ n = l → codes_ok n → callback (info_ n) = p_callback pr →
  enter_acts new n = proto_enter pr new l.
Proof.
  intros <- (Hf & He & Hr) Hcb. unfold enter_acts, proto_enter. rewrite Hcb, Hf, He, Hr.
  by destruct (p_callback pr); repeat case_decide.
Qed.

Lemma handler_events_ok h n acts es : handler_acts h n acts es → Forall event_ok es.
Proof.
  assert (∀ r a b, event_ok a → event_ok b → event_ok (if decide (r = SUCCESS) then a else b)) as Hif
    by (intros; by case_decide).
  destruct h; simpl; intros Hh; destruct_or?; destruct_and?;
    repeat match goal with H : ∃ _, _ |- _ => destruct H | H : _ ∧ _ |- _ => destruct H end; subst;
    destruct_or?; destruct_and?; subst; repeat constructor; try apply Hif; by vm_compute.
Qed.

Lemma step_implements pr self sb sb' a :
  implements pr sb a → step self sb sb' → ∃ a', rtc (proto pr) a a' ∧ implements pr sb' a'.
Proof.
  intros Himp Hstep. destruct Hstep as [s b r|s b w|s m t tasks Hm Ht|s m k e q m' n' r Hm Hq Hev|s m k Hm Hk].
  - by apply serve_implements.
  - exists a. split; [done|]. by apply implements_node.
  - destruct Himp as (m0 & Hm0 & Hth & Hst & Hq & Hp & Hl & Hb & Hrest). simpl in *.
    assert (m0 = m) as -> by congruence. rewrite Ht in Hp. simpl in Hp.
    eexists. split; [by eapply rtc_once, (proto_task pr a (length tasks))|].
    exists (set_posted m tasks). simpl. split_and!; try done; apply Hrest.
  - destruct Himp as (m0 & Hm0 & Hth & Hst & Hq' & Hp & Hl & Hb & Hok & Hqok & Hc & Hcol & Hver & Hcb). simpl in *.
    assert (m0 = m) as -> by congruence. rewrite Hq in Hq'. rewrite <- Hq' in Hqok.
    apply Forall_cons in Hqok as [Heok Hqok].
    destruct (delta (v_state a) e) as [[new h]|] eqn:Hd.
    + destruct (round_move m (node s) e q new h (v_state a) Hst Hok Heok Hd)
        as (acts & es & n1 & (Hl1 & Hi1 & Hc1) & Hacts & Hev').
      rewrite Hev in Hev'. injection Hev' as -> -> _.
      destruct (delta_spec _ _ _ _ Hd) as (_ & Hlt & Hnew).
      assert (callback (info_ n1) = p_callback pr) as Hcb1.
      { rewrite Hi1, Hcb, bool_decide_eq_true_2, andb_true_r; [done|]. unfold state_ok, S_END in *. lia. }
      destruct (enter_node_spec new n1) as (Hl2 & Hcol2 & Hver2 & Hcb2 & Hc2).
      eexists. split.
      { eapply rtc_once, (proto_move pr a k e q new h acts es); [by symmetry|by symmetry|exact Hd|].
        exists (node s). split; [exact Hcol|]. split; [exact Hver|]. exact Hacts. }
      exists (machine_of new (q ++ es) m).
      split; [reflexivity|]. split; [exact Hth|]. split; [reflexivity|]. split; [reflexivity|].
      split; [exact Hp|]. cbn [fst snd node v_state v_queue v_log v_budget].
      rewrite Hl2, Hcol2, Hver2, Hcb2, Hcb1, Hl1, Hi1, Hl.
      rewrite (proto_enter_eq pr n1 new (v_log a ++ acts)), <- app_assoc; [|by rewrite Hl1, Hl|by auto|done].
      split; [reflexivity|]. split; [reflexivity|]. split; [exact Hnew|].
      split; [apply Forall_app; split; [exact Hqok|by eapply handler_events_ok]|].
      split; [by auto|]. split; [exact Hcol|]. split; [exact Hver|reflexivity].
    + rewrite (round_stay m (node s) e q (v_state a)) in Hev by done. injection Hev as <- <- _.
      eexists. split; [eapply rtc_once, (proto_ignore pr a k e q); [by symmetry|by symmetry|exact Hd]|].
      exists (machine_of (v_state a) q m). simpl. by split_and!.
  - destruct Himp as (m0 & Hm0 & Hth & Hst & Hq & Hp & Hl & Hb & Hrest). simpl in *.
    assert (m0 = m) as -> by congruence.
    eexists. split; [eapply rtc_once, (proto_done pr a k); [done|by rewrite <- Hq]|].
    exists m. simpl. split_and!; try done; apply Hrest.
Qed.

Definition initial_view : View := mkView S_INIT [] 0 [] None.

Lemma Create_implements w info th s :
  Create w info th = Some s →
  implements (mkParams (callback info) (threadHandler info || th) (collector info) (verifier info))
    (s, None) initial_view.
Proof.
  intros Hc. destruct (Create_spec w info th) as (i & Hs & Hcb & Hcol & Hver & _).
  rewrite Hc in Hs. injection Hs as ->. clear Hc. eexists.
  cbn [fst snd node info_]. do 7 (split; [reflexivity|]). split; [by vm_compute|].
  split; [constructor|]. split; [split_and!; reflexivity|]. split; [exact Hcol|]. split; [exact Hver|].
  rewrite Hcb. by destruct (callback info).
Qed.

Lemma reachable_implements pr self sb sb' a :
  implements pr sb a → rtc (step self) sb sb' → ∃ a', rtc (proto pr) a a' ∧ implements pr sb' a'.
Proof.
  intros Himp Hr. revert a Himp. induction Hr as [sb|sb1 sb2 sb3 Hs _ IH]; intros a Himp; [by exists a|].
  destruct (step_implements pr self sb1 sb2 a Himp Hs) as (a2 & Hp & Himp2).
  destruct (IH a2 Himp2) as (a3 & Hp3 & Himp3). exists a3. split; [by etrans|done].
Qed.

(** ** Invariants of the protocol *)

(** The place of an action in the life of a schedule: the state whose
    entry performs it. *)
Definition rank (a : Act) : option Z :=
  match a with
  | ABegin true _ _ _ => Some S_VERIFY_STARING
  | ABegin false _ _ _ => Some S_COLLECT_STARING
  | AStarted => Some S_AUTH_PROCESSING
  | AEnd false _ _ => Some S_COLLECT_STOPPING
  | AEnd true _ _ => Some S_VERIFY_STOPPING
  | AStoped _ _ => Some S_END
  | _ => None
  end.

Definition ordered (a : View) : Prop :=
  StronglySorted Z.lt (omap rank (v_log a)) ∧ Forall (λ r, r ≤ v_state a) (omap rank (v_log a)).

(** Case analysis on the transitions of the table. *)
Ltac transition_cases H :=
  apply delta_spec in H as (H & _ & _); unfold transitions_list in H;
  repeat (apply elem_of_cons in H as [[= -> -> -> ->]|H]); [..|by apply elem_of_nil in H].

Lemma request_ranks pr a acts event : request_acts pr a acts event → omap rank acts = [].
Proof. destruct event as [e|]; simpl; naive_solver. Qed.

Lemma move_ranks pr st e new h acts es l :
  delta st e = Some (new, h) → proto_acts pr h acts es →
  omap rank (acts ++ proto_enter pr new l) = [] ∨ omap rank (acts ++ proto_enter pr new l) = [new].
Proof.
  intros Hd (n & _ & _ & Hacts). rewrite omap_app. unfold proto_enter.
  transition_cases Hd; simpl in Hacts; destruct (p_callback pr);
    repeat (rewrite decide_True by done || rewrite decide_False by done); naive_solver.
Qed.

Lemma ordered_step pr a a' : ordered a → proto pr a a' → ordered a'.
Proof.
  intros [Hs Hf] Hp. destruct Hp as [acts event Hacts|k _ _|k e q _ _ _|k e q new h acts es _ _ Hd Hacts|k _ _];
    unfold ordered; simpl; try done.
  - rewrite omap_app, (request_ranks _ _ _ _ Hacts), app_nil_r. done.
  - destruct (delta_spec _ _ _ _ Hd) as (_ & Hlt & _). rewrite omap_app.
    assert (Forall (λ r, r ≤ new) (omap rank (v_log a))) as Hf'.
    { eapply Forall_impl; [exact Hf|]. simpl. lia. }
    destruct (move_ranks pr _ e new h acts es (v_log a ++ acts) Hd Hacts) as [-> | ->].
    + by rewrite app_nil_r.
    + split; [|apply Forall_app; split; [done|]; by constructor].
      apply StronglySorted_app. split_and!; [|done|by repeat constructor].
      intros x y Hx Hy. apply list_elem_of_singleton in Hy as ->.
      rewrite Forall_forall in Hf. specialize (Hf x Hx). lia.
Qed.

(** Actions that do not reach the callback. *)
Definition quiet (a : Act) : Prop :=
  match a with AStarted | AProcessed _ _ _ | AStoped _ _ => False | _ => True end.

Lemma handler_quiet pr h acts es : proto_acts pr h acts es → Forall quiet acts.
Proof.
  intros (n & _ & _ & Hacts).
  destruct h; simpl in Hacts; destruct_or?; destruct_and?;
    repeat match goal with H : ∃ _, _ |- _ => destruct H | H : _ ∧ _ |- _ => destruct H
      | H : _ ∨ _ |- _ => destruct H end; subst; repeat constructor.
Qed.

Lemma request_quiet pr a acts event :
  request_acts pr a acts event →
  Forall quiet acts ∨ (∃ src t msg, acts = [AProcessed src t msg]) ∧ v_state a ≠ S_END.
Proof.
  destruct event as [e|]; simpl; [|naive_solver].
  intros [[_ ->]|[(c & _ & ->)|[(c & r & _ & ->)|[_ ->]]]]; left; repeat constructor.
Qed.

Definition is_stoped (a : Act) : Prop := match a with AStoped _ _ => True | _ => False end.

Definition verdict_ok (pr : Params) (a : View) : Prop :=
  (∀ l1 c r l2, v_log a = l1 ++ AStoped c r :: l2 →
    c = default (exec_code l1) (fwk_code l1) ∧ r = result_of l1 ∧ Forall quiet l2) ∧
  (Exists is_stoped (v_log a) ↔ p_callback pr = true ∧ v_state a = S_END).

Lemma quiet_not_stoped l : Forall quiet l → ¬ Exists is_stoped l.
Proof. intros Hq [x [Hin Hx]]%Exists_exists. rewrite Forall_forall in Hq. specialize (Hq x Hin). by destruct x. Qed.

Lemma app_cases {A} (l acts l1 l2 : list A) x :
  l ++ acts = l1 ++ x :: l2 →
  (∃ k, l = l1 ++ x :: k ∧ l2 = k ++ acts) ∨ (∃ k, l1 = l ++ k ∧ acts = k ++ x :: l2).
Proof.
  intros [(k & -> & Hk)|(k & -> & Hk)]%app_eq_inv; [|right; eauto].
  destruct k as [|y k]; simplify_eq/=; [|left; eauto]. right. exists [].
  by rewrite !app_nil_r.
Qed.

Lemma no_stoped_split (l : list Act) l1 c r l2 : ¬ Exists is_stoped l → l = l1 ++ AStoped c r :: l2 → False.
Proof. intros Hn ->. apply Hn, Exists_app. right. by left. Qed.

Lemma verdict_step pr a a' : state_ok (v_state a) → verdict_ok pr a → proto pr a a' → verdict_ok pr a'.
Proof.
  intros Hok [Hv Hs] Hp. destruct Hp as [acts event Hacts q'|b _ _|b e q _ _ _|b e q new h acts es _ _ Hd Hacts|b _ _];
    unfold verdict_ok; simpl; try done.
  - assert (¬ Exists is_stoped acts) as Hns.
    { destruct (request_quiet _ _ _ _ Hacts) as [Hq|[(src & t & msg & ->) _]]; [by apply quiet_not_stoped|].
      by intros [[]|[]%Exists_nil]%Exists_cons. }
    split; [|rewrite Exists_app, <- Hs; naive_solver].
    intros l1 c r l2 [(k & Hl & ->)|(k & -> & Hk)]%app_cases; [|by destruct (no_stoped_split _ _ _ _ _ Hns Hk)].
    destruct (Hv _ _ _ _ Hl) as (? & ? & Hk). split_and!; [done|done|]. apply Forall_app. split; [done|].
    destruct (request_quiet _ _ _ _ Hacts) as [Hq|[_ Hne]]; [done|]. exfalso. apply Hne.
    apply Hs. rewrite Hl. apply Exists_app. right. by left.
  - destruct (delta_spec _ _ _ _ Hd) as (_ & Hlt & Hnew). unfold state_ok in Hnew.
    assert (¬ Exists is_stoped (v_log a)) as Hns.
    { intros [_ He]%Hs. unfold S_END in He. lia. }
    pose proof (quiet_not_stoped _ (handler_quiet _ _ _ _ Hacts)) as Hna. split.
    + intros l1 c r l2 [(k & Hl & _)|(k & -> & Hk)]%app_cases; [by destruct (no_stoped_split _ _ _ _ _ Hns Hl)|].
      symmetry in Hk. symmetry in Hk. apply app_cases in Hk as [(k' & Hl & _)|(k' & -> & Hk)];
        [by destruct (no_stoped_split _ _ _ _ _ Hna Hl)|].
      unfold proto_enter in Hk. destruct (p_callback pr); [|by destruct k'].
      case_decide; [destruct k' as [|? [|]]; simplify_eq/=|].
      case_decide; [|by destruct k'].
      destruct k' as [|? [|]]; simplify_eq/=. rewrite app_nil_r. done.
    + rewrite !Exists_app. unfold proto_enter. split.
      * intros [?|[?|He]]; [done|done|]. destruct (p_callback pr); [|by apply Exists_nil in He].
        case_decide; [by apply Exists_cons in He as [[]|[]%Exists_nil]|].
        case_decide; [done|by apply Exists_nil in He].
      * intros [-> ->]. right. right. rewrite decide_False by done. rewrite decide_True by done. by left.
Qed.

(** Executors begin in order: [AStarted] and the collector come after the
    verifier began successfully. *)
Definition verifier_began (l : list Act) : Prop := ∃ v attr, ABegin true v attr SUCCESS ∈ l.
Definition collector_began (pr : Params) (l : list Act) : Prop :=
  p_collector pr = p_verifier pr ∨ ∃ c attr, p_collector pr = Some c ∧ ABegin false c attr SUCCESS ∈ l.

Definition began (pr : Params) (a : View) : Prop :=
  (E_VERIFY_STARTED_SUCCESS ∈ v_queue a → verifier_began (v_log a)) ∧
  (E_COLLECT_STARTED_SUCCESS ∈ v_queue a → verifier_began (v_log a) ∧ collector_began pr (v_log a)) ∧
  ((∃ c attr r, ABegin false c attr r ∈ v_log a) → verifier_began (v_log a)) ∧
  (AStarted ∈ v_log a → verifier_began (v_log a) ∧ collector_began pr (v_log a)).

Lemma verifier_began_app l l' : verifier_began l → verifier_began (l ++ l').
Proof. intros (v & attr & Hin). exists v, attr. apply elem_of_app. by left. Qed.
Lemma collector_began_app pr l l' : collector_began pr l → collector_began pr (l ++ l').
Proof. intros [?|(c & attr & ? & Hin)]; [by left|]. right. exists c, attr. split; [done|]. apply elem_of_app. by left. Qed.


Lemma handler_events pr h acts es :
  proto_acts pr h acts es →
  (length es ≤ 1)%nat ∧
  match h with
  | HNone | HBeginFailed => es = []
  | HBeginVerifier => es = [E_VERIFY_STARTED_SUCCESS] ∧ verifier_began acts ∨ es = [E_VERIFY_STARTED_FAILED]
  | HBeginCollector => es = [E_COLLECT_STARTED_SUCCESS] ∧ collector_began pr acts ∨ es = [E_COLLECT_STARTED_FAILED]
  | HEndCollector => es = [E_COLLECT_STOPPED_SUCCESS] ∨ es = [E_COLLECT_STOPPED_FAILED]
  | HEndVerifier => es = [E_VERIFY_STOPPED_SUCCESS] ∨ es = [E_VERIFY_STOPPED_FAILED]
  end ∧
  (∀ c attr r, ABegin false c attr r ∈ acts → h = HBeginCollector).
Proof.
  intros (n & Hcol & Hver & Hh). destruct h; simpl in Hh.
  - destruct Hh as [-> ->]. split_and!; [simpl; lia|done|]. by intros ??? ?%elem_of_nil.
  - destruct Hh as [[-> ->]|(v & attr & r & _ & -> & ->)]; (split_and!; [simpl; lia| |intros; set_solver]); [by right|].
    case_decide as Hr; [left|by right]. split; [done|]. exists v, attr. rewrite Hr. by left.
  - destruct Hh as [[-> ->]|[(-> & Hcv & ->)|(c & attr & r & Hc & _ & Hr)]].
    + split_and!; [simpl; lia|by right|intros; set_solver].
    + split_and!; [simpl; lia|left; split; [done|left; congruence]|intros; set_solver].
    + destruct Hr as [(_ & -> & ->)|(-> & -> & Hr)]; [split_and!; [simpl; lia|by right|done]|].
      split_and!; [simpl; lia| |done]. left. split; [done|]. right. exists c, attr.
      split; [congruence|]. destruct Hr as [->|(v & p & ->)]; by left.
  - destruct Hh as [-> ->]. split_and!; [simpl; lia|done|]. by intros ??? ?%elem_of_nil.
  - destruct Hh as [[-> ->]|[(-> & _ & ->)|(c & r & _ & _ & -> & ->)]];
      (split_and!; [simpl; lia| |intros; set_solver]); [by right|by left|]. case_decide; by auto.
  - destruct Hh as [[-> ->]|(v & r & _ & -> & ->)];
      (split_and!; [simpl; lia| |intros; set_solver]); [by right|]. case_decide; by auto.
Qed.

Lemma move_into st e new h :
  delta st e = Some (new, h) →
  (new = S_VERIFY_STARING → h = HBeginVerifier) ∧ (new = S_COLLECT_STOPPING → h = HEndCollector) ∧
  (new = S_VERIFY_STOPPING → h = HEndVerifier) ∧
  (new = S_AUTH_PROCESSING → e = E_COLLECT_STARTED_SUCCESS) ∧
  (h = HBeginCollector → e = E_VERIFY_STARTED_SUCCESS).
Proof. intros Hd. transition_cases Hd; by vm_compute. Qed.

Lemma began_step pr a a' : began pr a → proto pr a a' → began pr a'.
Proof.
  intros (H1 & H2 & H3 & H4) Hp.
  destruct Hp as [acts event Hacts q'|b _ _|b e q _ Hq _|b e q new h acts es _ Hq Hd Hacts|b _ _];
    unfold began; simpl; try done.
  - assert (∀ e, e = E_VERIFY_STARTED_SUCCESS ∨ e = E_COLLECT_STARTED_SUCCESS → e ∉ q') as Hq.
    { intros e He. unfold q'. destruct (p_threadHandler pr), event as [e'|]; simpl; try apply not_elem_of_nil.
      intros ->%list_elem_of_singleton. simpl in Hacts. destruct He as [-> | ->]; naive_solver. }
    assert (∀ x, x ∈ acts → quiet x ∨ ∃ src ty msg, x = AProcessed src ty msg) as Hx.
    { intros x Hx. destruct (request_quiet _ _ _ _ Hacts) as [Hf|[(s & t & m & ->) _]].
      - left. rewrite Forall_forall in Hf. by apply Hf.
      - right. apply list_elem_of_singleton in Hx. eauto. }
    assert (∀ c attr r, ABegin false c attr r ∉ acts) as Hb.
    { intros c attr r Hin. destruct event as [e|]; simpl in Hacts;
        repeat match type of Hacts with
        | _ ∨ _ => destruct Hacts as [Hacts|Hacts] | ∃ _, _ => destruct Hacts as [? Hacts]
        | _ ∧ _ => destruct Hacts as [? Hacts] end; subst;
        (by apply elem_of_nil in Hin) || by apply list_elem_of_singleton in Hin. }
    split_and!.
    + intros [Hin|Hin]%elem_of_app; [by apply verifier_began_app, H1|]. destruct (Hq _ (or_introl eq_refl) Hin).
    + intros [Hin|Hin]%elem_of_app; [|destruct (Hq _ (or_intror eq_refl) Hin)].
      destruct (H2 Hin). split; [by apply verifier_began_app|by apply collector_began_app].
    + intros (c & attr & r & [Hin|Hin]%elem_of_app); [|by destruct (Hb c attr r)].
      apply verifier_began_app, H3. eauto.
    + intros [Hin|Hin]%elem_of_app; [|by destruct (Hx _ Hin) as [[]|(?&?&?&?)]].
      destruct (H4 Hin). split; [by apply verifier_began_app|by apply collector_began_app].
  - rewrite Hq in H1, H2. split_and!; auto; intros Hin; [apply H1|apply H2]; by right.
  - rewrite Hq in H1, H2. destruct (move_into _ _ _ _ Hd) as (_ & _ & _ & M1 & M2).
    destruct (handler_events _ _ _ _ Hacts) as (_ & Hes & Hbc).
    split_and!.
    + intros [Hin|Hin]%elem_of_app; [apply verifier_began_app, H1; by right|].
      assert (h = HBeginVerifier ∧ verifier_began acts) as [_ Hv].
      { destruct h; subst; try (by apply elem_of_nil in Hin); [|..];
          repeat match type of Hes with _ ∨ _ => destruct Hes as [Hes|Hes] | _ ∧ _ => destruct Hes as [Hes ?] end;
          subst; apply list_elem_of_singleton in Hin; done. }
      destruct Hv as (v & attr & Hv). exists v, attr. set_solver.
    + intros [Hin|Hin]%elem_of_app.
      { destruct H2 as [Ha Hb]; [by right|]. split; [by apply verifier_began_app|by apply collector_began_app]. }
      assert (h = HBeginCollector ∧ collector_began pr acts) as [-> Hc].
      { destruct h; subst; try (by apply elem_of_nil in Hin); [|..];
          repeat match type of Hes with _ ∨ _ => destruct Hes as [Hes|Hes] | _ ∧ _ => destruct Hes as [Hes ?] end;
          subst; apply list_elem_of_singleton in Hin; done. }
      split; [apply verifier_began_app, H1; rewrite M2 by done; left|].
      destruct Hc as [Hc|(c & attr & Hc & Hi)]; [by left|right]. exists c, attr. set_solver.
    + intros (c & attr & r & [Hin|[Hin|Hin]%elem_of_app]%elem_of_app); [by apply verifier_began_app, H3; eauto| |].
      * apply verifier_began_app, H1. rewrite M2; [left|by eapply Hbc].
      * exfalso. unfold proto_enter in Hin. destruct (p_callback pr); repeat case_decide; set_solver.
    + intros [Hin|[Hin|Hin]%elem_of_app]%elem_of_app.
      * destruct (H4 Hin). split; [by apply verifier_began_app|by apply collector_began_app].
      * exfalso. pose proof (handler_quiet _ _ _ _ Hacts) as Hf. rewrite Forall_forall in Hf. by apply (Hf _ Hin).
      * assert (new = S_AUTH_PROCESSING) as Hnew.
        { unfold proto_enter in Hin. destruct (p_callback pr); repeat case_decide; set_solver. }
        destruct H2 as [Ha Hb]; [rewrite M1 by done; left|].
        split; [by apply verifier_began_app|by apply collector_began_app].
Qed.

(** No event is stranded: every task can consume more events than the
    handlers add in the whole life of the schedule. *)
Definition flowing (a : View) : Prop :=
  let len := Z.of_nat (length (v_queue a)) in
  match v_budget a with
  | None => len ≤ Z.of_nat (v_posted a)
  | Some b => Z.of_nat b ≤ 100 ∧ len + (100 - Z.of_nat b) + (6 - v_state a) ≤ Z.of_nat (v_posted a) + 7
  end.

(** In the states that wait for a handler's own event, it is queued. *)
Definition waiting (a : View) : Prop :=
  (v_state a = S_VERIFY_STARING →
    E_VERIFY_STARTED_SUCCESS ∈ v_queue a ∨ E_VERIFY_STARTED_FAILED ∈ v_queue a) ∧
  (v_state a = S_COLLECT_STOPPING →
    E_COLLECT_STOPPED_SUCCESS ∈ v_queue a ∨ E_COLLECT_STOPPED_FAILED ∈ v_queue a) ∧
  (v_state a = S_VERIFY_STOPPING →
    E_VERIFY_STOPPED_SUCCESS ∈ v_queue a ∨ E_VERIFY_STOPPED_FAILED ∈ v_queue a).

Lemma state_ok_step pr a a' : state_ok (v_state a) → proto pr a a' → state_ok (v_state a') ∧ v_state a ≤ v_state a'.
Proof.
  intros Hok Hp. destruct Hp as [| | |b e q new h acts es _ _ Hd _|]; simpl; try (split; [done|lia]).
  destruct (delta_spec _ _ _ _ Hd) as (_ & Hlt & Hnew). split; [done|lia].
Qed.

Lemma flowing_step pr a a' : state_ok (v_state a) → flowing a → proto pr a a' → flowing a'.
Proof.
  unfold flowing, state_ok. intros Hok Hf Hp.
  destruct Hp as [acts event Hacts q'|b Hb Hk|b e q Hb Hq _|b e q new h acts es Hb Hq Hd Hacts|b Hb Hdone];
    simpl; rewrite ?Hb in Hf.
  - rewrite length_app. destruct (v_budget a); lia.
  - unfold MAX_SCHEDULE_TIMES. lia.
  - rewrite Hq in Hf. simpl in Hf. lia.
  - rewrite Hq in Hf. simpl in Hf. rewrite length_app.
    destruct (handler_events _ _ _ _ Hacts) as (Hlen & _).
    destruct (delta_spec _ _ _ _ Hd) as (_ & Hlt & Hnew). unfold state_ok in Hnew. lia.
  - destruct Hdone as [Hq| ->]; [rewrite Hq; simpl; lia|lia].
Qed.

Lemma waiting_step pr a a' : waiting a → proto pr a a' → waiting a'.
Proof.
  unfold waiting. intros (H1 & H2 & H3) Hp.
  destruct Hp as [acts event Hacts q'|b _ _|b e q _ Hq Hd|b e q new h acts es _ Hq Hd Hacts|b _ _]; simpl; try done.
  - setoid_rewrite elem_of_app. naive_solver.
  - rewrite Hq in H1, H2, H3. split_and!; intros Hst; rewrite Hst in Hd;
      [destruct (H1 Hst) as [Hin|Hin]|destruct (H2 Hst) as [Hin|Hin]|destruct (H3 Hst) as [Hin|Hin]];
      apply elem_of_cons in Hin as [<-|Hin]; try (by auto); by vm_compute in Hd.
  - destruct (move_into _ _ _ _ Hd) as (M1 & M2 & M3 & _). destruct (handler_events _ _ _ _ Hacts) as (_ & Hes & _).
    split_and!; intros Hst; [rewrite M1 in Hes by done|rewrite M2 in Hes by done|rewrite M3 in Hes by done];
      rewrite !elem_of_app;
      repeat match type of Hes with _ ∨ _ => destruct Hes as [Hes|Hes] | _ ∧ _ => destruct Hes as [Hes ?] end;
      rewrite Hes, !list_elem_of_singleton; auto.
Qed.

(** Everything at once, for the reachable views. *)
Record good (pr : Params) (a : View) : Prop := {
  good_state : state_ok (v_state a);
  good_ordered : ordered a;
  good_verdict : verdict_ok pr a;
  good_began : began pr a;
  good_flowing : flowing a;
  good_waiting : waiting a;
}.

Lemma good_initial pr : good pr initial_view.
Proof.
  split.
  - by vm_compute.
  - split; constructor.
  - split; [by intros [|??]|]. simpl. split; [by intros ?%Exists_nil|by intros [_ ?]].
  - split_and!; try by intros ?%elem_of_nil. by intros (? & ? & ? & ?%elem_of_nil).
  - by vm_compute.
  - split_and!; done.
Qed.

Lemma good_reachable pr a a' : good pr a → rtc (proto pr) a a' → good pr a'.
Proof.
  intros Hg Hr. induction Hr as [|a1 a2 a3 Hp _ IH]; [done|]. apply IH. destruct Hg. split.
  - by eapply state_ok_step.
  - by eapply ordered_step.
  - by eapply verdict_step.
  - by eapply began_step.
  - by eapply flowing_step.
  - by eapply waiting_step.
Qed.

Lemma created_good w info th self s sb :
  Create w info th = Some s → rtc (step self) (s, None) sb →
  ∃ a, let pr := mkParams (callback info) (threadHandler info || th) (collector info) (verifier info) in
    rtc (proto pr) initial_view a ∧ implements pr sb a ∧ good pr a.
Proof.
  intros Hc Hr. pose proof (Create_implements w info th s Hc) as Himp.
  destruct (reachable_implements _ self _ _ _ Himp Hr) as (a & Hp & Ha). exists a.
  split_and!; [done|done|]. eapply good_reachable; [apply good_initial|done].
Qed.

(** ** Running a task *)

Lemma loop_move k m n e q new h st :
  currentState_ m = st → pendingEvents_ m = e :: q → state_ok st → event_ok e → delta st e = Some (new, h) →
  ∃ acts es n1 rs, advanced n acts n1 ∧ handler_acts h n acts es ∧
    schedule_loop (Datatypes.S k) tables m n =
    (let '(m', n', rs') := schedule_loop k tables (machine_of new (q ++ es) m) (enter_node new n1) in
     (m', n', rs :: rs')).
Proof.
  intros Hst Hq Hs He Hd. destruct (round_move m n e q new h st Hst Hs He Hd) as (acts & es & n1 & H1 & H2 & H3).
  exists acts, es, n1, (st, e, new). split; [done|]. split; [done|]. simpl. by rewrite Hq, H3.
Qed.

Lemma loop_ignore k m n e st :
  currentState_ m = st → pendingEvents_ m = [e] → state_ok st → event_ok e → delta st e = None →
  schedule_loop (Datatypes.S k) tables m n =
  (machine_of st [] m, n, (st, e, st) :: []).
Proof.
  intros Hst Hq Hs He Hd. cbn [schedule_loop sq_pop list_queue]. rewrite Hq, (round_stay m n e [] st) by done.
  by destruct k.
Qed.

Lemma loop_done k m n : pendingEvents_ m = [] → schedule_loop (Datatypes.S k) tables m n = (m, n, []).
Proof. intros Hq. simpl. by rewrite Hq. Qed.

Lemma enter_other new n : new ≠ S_AUTH_PROCESSING → new ≠ S_END → enter_node new n = n.
Proof. intros. unfold enter_node. by rewrite !decide_False. Qed.

(** Ending both executors from a state in which they may be running. *)
Lemma run_stop m n st e :
  currentState_ m = st → pendingEvents_ m = [e] → state_ok st →
  event_ok e → delta st e = Some (S_COLLECT_STOPPING, HEndCollector) → callback (info_ n) = true → codes_ok n →
  ∃ n' rs acts r,
    ScheduleInner tables m n = (machine_of S_END [] m, n', rs) ∧
    log_ n' = log_ n ++ acts ++ [AStoped (default (exec_code (log_ n ++ acts)) (fwk_code (log_ n ++ acts))) r] ∧
    (∀ a, a ∈ acts → fwk_act a = None ∨ a = ANoResource).
Proof.
  intros Hst Hq Hok Hev Hd Hcb Hc. unfold ScheduleInner, MAX_SCHEDULE_TIMES.
  destruct (loop_move 99 m n e [] S_COLLECT_STOPPING HEndCollector st Hst Hq Hok Hev Hd) as (acts1 & es1 & n1 & r1 & (L1 & I1 & C1) & A1 & ->).
  rewrite enter_other by done.
  assert (∃ e1, es1 = [e1] ∧ event_ok e1 ∧ delta S_COLLECT_STOPPING e1 = Some (S_VERIFY_STOPPING, HEndVerifier)) as (e1 & -> & He1 & Hd1).
  { destruct A1 as [[_ ->]|[(_ & _ & ->)|(c & r & _ & _ & _ & ->)]]; [| |case_decide];
      eexists; (split; [reflexivity|]); by vm_compute. }
  destruct (loop_move 98 (machine_of S_COLLECT_STOPPING ([] ++ [e1]) m) n1 e1 [] S_VERIFY_STOPPING HEndVerifier S_COLLECT_STOPPING eq_refl eq_refl)
    as (acts2 & es2 & n2 & r2 & (L2 & I2 & C2) & A2 & ->); [by vm_compute|done|exact Hd1|].
  rewrite enter_other by done.
  assert (∃ e2, es2 = [e2] ∧ event_ok e2 ∧ delta S_VERIFY_STOPPING e2 = Some (S_END, HNone)) as (e2 & -> & He2 & Hd2).
  { destruct A2 as [[_ ->]|(v & r & _ & _ & ->)]; [|case_decide]; eexists; (split; [reflexivity|]); by vm_compute. }
  set (m2 := machine_of S_VERIFY_STOPPING ([] ++ [e2]) (machine_of S_COLLECT_STOPPING ([] ++ [e1]) m)).
  destruct (loop_move 97 m2 n2 e2 [] S_END HNone S_VERIFY_STOPPING eq_refl eq_refl)
    as (acts3 & es3 & n3 & r3 & (L3 & I3 & C3) & A3 & ->); [by vm_compute|done|exact Hd2|].
  destruct A3 as [-> ->]. rewrite loop_done by done.
  destruct (enter_node_spec S_END n3) as (L4 & _).
  assert (info_ n3 = info_ n) as Hi by congruence.
  destruct (C3 (C2 (C1 Hc))) as (F & E & R).
  exists (enter_node S_END n3), [r1; r2; r3], (acts1 ++ acts2), (scheduleResult_ n3). split; [done|].
  rewrite app_nil_r in L3. split.
  - rewrite L4. unfold enter_acts. rewrite decide_False by done. rewrite decide_True by done.
    rewrite Hi, Hcb, F, E, L3, L2, L1. by rewrite <- !app_assoc.
  - intros a [Hin|Hin]%elem_of_app.
    + destruct A1 as [[-> _]|[(-> & _)|(c & r & _ & _ & -> & _)]];
        [right|by apply elem_of_nil in Hin|left]; apply list_elem_of_singleton in Hin; by subst.
    + destruct A2 as [[-> _]|(v & r & _ & -> & _)]; [right|left]; apply list_elem_of_singleton in Hin; by subst.
Qed.
(** Kicking a resting machine and running its task. *)
Lemma kick_and_run s m self e :
  machine_ s = Some m → threadHandler_ m = true → pendingEvents_ m = [] → posted_ m = [] →
  run_task (TryKickMachine s self e).1 =
  (let '(m', n', rs) := ScheduleInner tables (mkFsm (currentState_ m) [e] true (Some self) []) (node s) in
   (mkScheduleNode n' (Some m'), rs)).
Proof.
  intros Hm Hth Hq Hp. unfold TryKickMachine. rewrite Hm. unfold AttachOwnerLifetime. rewrite Hth, Hq, Hp.
  unfold Fsm.Schedule. simpl. unfold run_task. simpl. unfold run_posted. simpl. done.
Qed.
(** A task run in one go is a sequence of steps. *)
Lemma loop_steps self k m n m' n' rs :
  schedule_loop k tables m n = (m', n', rs) →
  rtc (step self) (mkScheduleNode n (Some m), Some k) (mkScheduleNode n' (Some m'), None).
Proof.
  revert m n rs. induction k as [|k IH]; intros m n rs; cbn [schedule_loop].
  { intros [= <- <- <-]. by eapply rtc_once, step_done; [|right]. }
  cbn [sq_pop list_queue]. destruct (pendingEvents_ m) as [|e q] eqn:Hq.
  { intros [= <- <- <-]. by eapply rtc_once, step_done; [|left]. }
  destruct (schedule_event tables (set_pending m q) n e) as [[m1 n1] r] eqn:He.
  destruct (schedule_loop k tables m1 n1) as [[m2 n2] rs2] eqn:Hl. intros [= <- <- <-].
  eapply rtc_l; [|by eapply IH].
  eapply (step_round self (mkScheduleNode n (Some m)) m k e q); [reflexivity|exact Hq|exact He].
Qed.

Lemma run_task_steps self s : rtc (step self) (s, None) ((run_task s).1, None).
Proof.
  destruct s as [n [m|]]; unfold run_task; cbn [machine_ node]; [|apply rtc_refl].
  unfold run_posted. destruct (posted_ m) as [|o tasks] eqn:Hp; [apply rtc_refl|].
  destruct (ScheduleInner tables (set_posted m tasks) n) as [[m' n'] rs] eqn:Hr.
  assert (rtc (step self) (mkScheduleNode n (Some m), None) (mkScheduleNode n' (Some m'), None)) as Hs.
  { eapply rtc_l; [by eapply (step_task self (mkScheduleNode n (Some m)) m)|]. by eapply loop_steps. }
  destruct o; exact Hs.
Qed.

(** Requests served one after the other, each followed by its task. *)
Definition serve_all (self : Z) s (rs : list request) : ScheduleNode W :=
  foldl (λ s r, (run_task (serve self s r)).1) s rs.

Lemma serve_all_steps self s rs : rtc (step self) (s, None) (serve_all self s rs, None).
Proof.
  revert s. induction rs as [|r rs IH]; intros s; [apply rtc_refl|].
  eapply rtc_l; [apply (step_request self s None r)|]. etrans; [apply run_task_steps|apply IH].
Qed.
End Rounds.

(** ** The properties *)

Section Properties.
Context {W : Type} `{ResourceNodeOps W} `{ScheduleServices W}.
Implicit Types (s : ScheduleNode W) (info : ScheduleInfo).

(** C24: the object implements the protocol. Every execution of a created
    schedule, with requests, tasks and the rest of the program interleaved in
    any way, is an execution of the abstract protocol: the object's state,
    queue, tasks and history are those of a reachable protocol state, and its
    result codes and callback are functions of that history. *)
Theorem schedule_refines_protocol (w : W) info (th : bool) s (self : Z) (sb : ScheduleNode W * option nat) :
  Create w info th = Some s → rtc (step self) (s, None) sb →
  let pr := mkParams (callback info) (threadHandler info || th) (collector info) (verifier info) in
  ∃ a, rtc (proto (W := W) pr) initial_view a ∧ implements pr sb a.
Proof. intros Hc Hr pr. destruct (created_good w info th self s sb Hc Hr) as (a & H1 & H2 & _).
  exists a. split; [exact H1|exact H2].
Qed.

(** A schedule acts in order, and each action at most once: the verifier
    is begun, the collector is begun, the start is reported, the collector is
    ended, the verifier is ended, the result is reported; each action happens
    on entering its state, so none of a later state has happened yet. *)
Theorem schedule_acts_in_order (w : W) info (th : bool) s (self : Z) s1 (b : option nat) :
  Create w info th = Some s → rtc (step self) (s, None) (s1, b) →
  StronglySorted Z.lt (omap rank (log_ (node s1))) ∧
  Forall (λ r, r ≤ GetCurrentScheduleState s1) (omap rank (log_ (node s1))).
Proof.
  intros Hc Hr. destruct (created_good w info th self s _ Hc Hr) as (a & _ & Himp & Hg); clear Hc Hr.
  destruct Himp as (m & Hm & _ & Hst & _ & _ & Hl & _). simpl in *.
  unfold GetCurrentScheduleState, GetCurrentState. rewrite Hm, Hst, Hl. apply (good_ordered _ _ Hg).
Qed.

(** C25: the verdict. The result is reported exactly when the schedule has
    ended (if it has a callback). What is reported is determined by the history
    before it: the code of the last stop request, timeout or loss of an
    executor if there was one, otherwise the code of the last result received
    or of the last failed call of an executor, otherwise [GENERAL_ERROR]; with
    the last result received. Nothing reaches the callback afterwards. *)
Theorem schedule_verdict (w : W) info (th : bool) s (self : Z) s1 (b : option nat) :
  Create w info th = Some s → rtc (step self) (s, None) (s1, b) →
  (Exists is_stoped (log_ (node s1)) ↔ callback info = true ∧ GetCurrentScheduleState s1 = S_END) ∧
  ∀ before code res after, log_ (node s1) = before ++ AStoped code res :: after →
    code = default (exec_code before) (fwk_code before) ∧ res = result_of before ∧ Forall quiet after.
Proof.
  intros Hc Hr. destruct (created_good w info th self s _ Hc Hr) as (a & _ & Himp & Hg); clear Hc Hr.
  destruct Himp as (m & Hm & _ & Hst & _ & _ & Hl & _). simpl in *.
  unfold GetCurrentScheduleState, GetCurrentState. rewrite Hm, Hst, Hl.
  destruct (good_verdict _ _ Hg) as [H1 H2]. split; [exact H2|exact H1].
Qed.

(** C26: success is honest. If success is reported, an executor's result of
    success was received; and unless some user asked to stop with the code of
    success, the schedule had not been stopped or timed out before, and no
    executor was missing. *)
Theorem schedule_success_honest (w : W) info (th : bool) s (self : Z) s1 (b : option nat) before res after :
  Create w info th = Some s → rtc (step self) (s, None) (s1, b) →
  log_ (node s1) = before ++ AStoped SUCCESS res :: after →
  AStop SUCCESS ∈ before ∨
  ((∃ r, AContinue SUCCESS r ∈ before) ∧ (ATimeout ∉ before) ∧ (ANoResource ∉ before) ∧ ∀ c, AStop c ∉ before).
Proof.
  intros Hc Hr Hl. destruct (created_good w info th self s _ Hc Hr) as (a & _ & Himp & Hg); clear Hc Hr.
  destruct Himp as (m & _ & _ & _ & _ & _ & Hlog & _). simpl in *. rewrite Hlog in Hl.
  destruct (good_verdict _ _ Hg) as [Hv _]. destruct (Hv _ _ _ _ Hl) as (Hcode & _ & _).
  destruct (fwk_code before) as [c|] eqn:Hfwk; simpl in Hcode.
  - left. destruct (last_of_Some _ _ _ Hfwk) as ([] & Hin & Hact); simpl in Hact; try done; simplify_eq/=; done.
  - right. unfold exec_code in Hcode. destruct (last_of exec_act before) as [c|] eqn:He; [|done]. simpl in Hcode.
    destruct (last_of_Some _ _ _ He) as (x & Hin & Hact). split.
    + destruct x; simpl in Hact; try done; [simplify_eq/=; eauto| |]; case_decide; simplify_eq/=.
    + split_and!; [intros Hi|intros Hi|intros c' Hi]; by specialize (last_of_None _ _ _ Hfwk Hi).
Qed.

(** The start is reported only when the executors run: the verifier's
    [BeginExecute] succeeded, and so did the collector's unless the verifier is
    the collector too. The collector is never begun before the verifier's begin
    succeeded. *)
Theorem schedule_started_when_begun (w : W) info (th : bool) s (self : Z) s1 (b : option nat) :
  Create w info th = Some s → rtc (step self) (s, None) (s1, b) →
  let l := log_ (node s1) in
  (AStarted ∈ l → (∃ v attr, ABegin true v attr SUCCESS ∈ l) ∧
    (collector info = verifier info ∨ ∃ c attr, collector info = Some c ∧ ABegin false c attr SUCCESS ∈ l)) ∧
  ((∃ c attr r, ABegin false c attr r ∈ l) → ∃ v attr, ABegin true v attr SUCCESS ∈ l).
Proof.
  intros Hc Hr l. destruct (created_good w info th self s _ Hc Hr) as (a & _ & Himp & Hg); clear Hc Hr.
  destruct Himp as (m & _ & _ & _ & _ & _ & Hl & _). simpl in *. unfold l. rewrite Hl.
  destruct (good_began _ _ Hg) as (_ & _ & H3 & H4). split; [exact H4|exact H3].
Qed.


(** A stop request ends a waiting schedule, and so does its timer once the
    result is awaited. From rest, [StopSchedule] followed by its task leaves
    the schedule ended with no event left, and reports the code of the request
    (or [GENERAL_ERROR] if an executor was found missing on the way). *)
Theorem schedule_stop_ends (w : W) info (th : bool) s (self : Z) s1 (m : Fsm (list Z)) (c : Z) (timer : bool) :
  Create w info th = Some s → threadHandler info || th = true → callback info = true →
  rtc (step self) (s, None) (s1, None) → machine_ s1 = Some m → posted_ m = [] →
  GetCurrentScheduleState s1 = S_AUTH_PROCESSING ∨ GetCurrentScheduleState s1 = S_COLLECT_STARING ∧ timer = false →
  let s2 := (run_task (if timer then timer_fires s1 self else (StopSchedule s1 self c).1)).1 in
  let code := if timer then TIMEOUT else c in
  GetCurrentScheduleState s2 = S_END ∧
  (∃ m2, machine_ s2 = Some m2 ∧ pendingEvents_ m2 = [] ∧ posted_ m2 = []) ∧
  ∃ acts code' res, log_ (node s2) = log_ (node s1) ++ acts ++ [AStoped code' res] ∧
    (code' = code ∨ code' = GENERAL_ERROR ∧ ANoResource ∈ acts).
Proof.
  intros Hc Hth Hcb Hr Hm Hp Hst s2 code.
  destruct (created_good w info th self s _ Hc Hr) as (a & _ & Himp & Hg); clear Hc Hr.
  destruct Himp as (m' & Hm' & Hth' & Hst' & Hq & Hpost & Hl & Hb & Hok & _ & Hcodes & _ & _ & Hcb'). simpl in *.
  assert (m' = m) as -> by congruence. rewrite Hth in Hth'. clear Hm'.
  assert (pendingEvents_ m = []) as Hnil.
  { pose proof (good_flowing _ _ Hg) as Hf. unfold flowing in Hf.
    rewrite <- Hb, <- Hpost, <- Hq, Hp in Hf. simpl in Hf. apply nil_length_inv; lia. }
  unfold GetCurrentScheduleState, GetCurrentState in Hst. rewrite Hm in Hst.
  set (e := if timer then E_TIME_OUT else E_STOP_AUTH).
  set (act := if timer then ATimeout else AStop c).
  set (n1 := SetFwkResultCode (log (node s1) act) code).
  set (m1 := mkFsm (currentState_ m) [e] true (Some self) []).
  assert (callback (info_ n1) = true) as Hcb1.
  { change (callback (info_ (node s1)) = true). rewrite Hcb', Hcb. apply bool_decide_eq_true_2.
    rewrite <- Hst'. by destruct Hst as [-> | [-> _]]. }
  assert (codes_ok n1) as Hc1 by (by apply (codes_ok_log (node s1) act); destruct timer).
  destruct (run_stop m1 n1 (currentState_ m) e) as (n2 & rs & acts & r & Hrun & Hlog & Hacts);
    [done|done|by rewrite Hst'|by destruct timer| |done|done|].
  { destruct Hst as [-> | [-> ->]]; [destruct timer|]; reflexivity. }
  assert (s2 = mkScheduleNode n2 (Some (machine_of S_END [] m1))) as ->.
  {
    pose proof (kick_and_run (mkScheduleNode n1 (machine_ s1)) m self e Hm Hth' Hnil Hp) as Hk.
    assert ((if timer then timer_fires s1 self else (StopSchedule s1 self c).1) =
      (TryKickMachine (mkScheduleNode n1 (machine_ s1)) self e).1) as Hkick by (destruct timer; reflexivity).
    unfold s2. rewrite Hkick, Hk. cbn [node]. fold m1. rewrite Hrun. reflexivity. }
  clear Hrun. split; [reflexivity|]. split; [eexists; split_and!; reflexivity|]. cbn [node]. rewrite Hlog.
  exists (act :: acts), (default (exec_code (log_ n1 ++ acts)) (fwk_code (log_ n1 ++ acts))), r.
  split.
  { set (code' := default _ _). change (log_ n1) with (log_ (node s1) ++ [act]).
    rewrite <- app_assoc. reflexivity. }
  assert (fwk_code (log_ n1) = Some code) as Hf by (by destruct Hc1 as [<- _]).
  destruct (fwk_code_after _ acts code Hf Hacts) as [-> |[-> Hin]]; [by left|right].
  split; [done|by right].
Qed.

(** A collector that fails to start blocks the schedule. The event
    [E_COLLECT_STARTED_FAILED] does nothing in [S_COLLECT_STARING], and the
    timer does not help: however often it fires, the schedule stays in that
    state and nothing is reported, for the table has no transition for the
    failure nor for the timeout in that state. *)
Theorem collector_failure_blocks s (self : Z) (m : Fsm (list Z)) (k : nat) :
  machine_ s = Some m → currentState_ m = S_COLLECT_STARING →
  pendingEvents_ m = [] ∨ pendingEvents_ m = [E_COLLECT_STARTED_FAILED] →
  posted_ m = [] → ¬ Exists is_stoped (log_ (node s)) →
  let '(m1, n1, _) := ScheduleInner tables m (node s) in
  let s2 := serve_all self (mkScheduleNode n1 (Some m1)) (replicate k RTimer) in
  GetCurrentScheduleState s2 = S_COLLECT_STARING ∧ ¬ Exists is_stoped (log_ (node s2)).
Proof.
  intros Hm Hst Hq Hp Hns.
  assert (∃ rs, ScheduleInner tables m (node s) = (machine_of S_COLLECT_STARING [] m, node s, rs)) as [rs ->].
  { destruct Hq as [Hq|Hq]; eexists.
    - unfold ScheduleInner, MAX_SCHEDULE_TIMES. rewrite loop_done by done. unfold machine_of.
      rewrite <- Hst, <- Hq. by destruct m.
    - apply (loop_ignore 99 _ _ _ S_COLLECT_STARING Hst Hq); by vm_compute. }
  set (m1 := machine_of S_COLLECT_STARING [] m).
  assert (currentState_ m1 = S_COLLECT_STARING ∧ pendingEvents_ m1 = [] ∧ posted_ m1 = []) as Hm1 by (by split_and!).
  clearbody m1. clear Hm Hst Hq Hp. revert m1 Hm1 Hns. generalize (node s) as n.
  unfold serve_all. induction k as [|k IH]; intros n m1 (Hst & Hq & Hp) Hns; [done|].
  cbn [replicate foldl serve]. unfold timer_fires.
  set (n' := SetFwkResultCode (log n ATimeout) TIMEOUT).
  assert (¬ Exists is_stoped (log_ n')) as Hns'.
  { cbn [log_ n']. intros [?|[[]|[]%Exists_nil]%Exists_cons]%Exists_app. done. }
  change (on_s (mkScheduleNode n (Some m1)) _) with (mkScheduleNode n' (Some m1)).
  destruct (threadHandler_ m1) eqn:Hth.
  - rewrite (kick_and_run (mkScheduleNode n' (Some m1)) m1 self E_TIME_OUT eq_refl Hth Hq Hp).
    unfold ScheduleInner, MAX_SCHEDULE_TIMES.
    rewrite (loop_ignore 99 _ _ E_TIME_OUT S_COLLECT_STARING); [|exact Hst|done|by vm_compute..].
    cbn [node fst]. by apply IH.
  - unfold TryKickMachine. cbn [machine_]. unfold AttachOwnerLifetime. rewrite Hth, Hq, Hp, Hst.
    unfold Fsm.Schedule. cbn [threadHandler_]. rewrite decide_False by done.
    unfold run_task, run_posted. cbn [fst machine_ posted_ node]. by apply IH.
Qed.
End Properties.

(** ** The theorems at work

    Two nodes at the addresses 10 and 11; the executor of [failing] refuses to
    begin. *)

#[local] Instance example_services : ScheduleServices World := {
  timer_Register w _ := (w, 1);
  timer_Unregister w _ := w;
  pool_RegisterListener w := (w, true);
  engine_SendMessage w _ _ _ := (w, SUCCESS);
}.

Definition demo_env (failing : Z) : Env :=
  mkEnv (Some []) (λ _ info, (SUCCESS, authType info, [], [])) (λ _ _, SUCCESS)
    (λ _ h _, if decide (h = failing) then FAIL else SUCCESS) (λ _ _ _, SUCCESS) (λ _ _ _, SUCCESS)
    (λ _ _ _, (SUCCESS, [])) (λ _ _ _ _, SUCCESS).

Definition demo_node (role : Z) : ResourceNode :=
  ResourceNode.mkNode (mkRegisterInfo FACE role 0 0 0 0 [] [] []) true role true.

Definition demo_world : World := mkWorld {[10 := demo_node COLLECTOR; 11 := demo_node VERIFIER]} [].

Definition demo_info : ScheduleInfo :=
  mkScheduleInfo 7 None 0 0 1 3000 [] FACE 0 AUTH (Some 10) (Some 11) false true false [] [] 0 100 [] [] 0.

Section Demo.
Variable failing : Z.
#[local] Instance demo_ops : ResourceNodeOps World := NodeImpl.world_nodes (demo_env failing).

Definition demo_start : ScheduleNode World :=
  match Create demo_world demo_info true with
  | Some s => s
  | None => mkScheduleNode (mkNode 0 demo_info 0 None None false demo_world []) None
  end.

Lemma demo_created : Create demo_world demo_info true = Some demo_start.
Proof. vm_compute. reflexivity. Qed.

Definition demo (rs : list request) : ScheduleNode World := serve_all 5 demo_start rs.

Lemma demo_reached rs : rtc (step 5) (demo_start, None) (demo rs, None).
Proof. apply serve_all_steps. Qed.
End Demo.
#[local] Existing Instance demo_ops.

Lemma schedule_refines_protocol_witness :
  GetCurrentScheduleState (demo 0 [RStart]) = S_AUTH_PROCESSING ∧
  ∃ a, implements (mkParams true true (Some 10) (Some 11)) (demo 0 [RStart], None) a.
Proof.
  split; [vm_compute; reflexivity|].
  destruct (schedule_refines_protocol demo_world demo_info true (demo_start 0) 5 (demo 0 [RStart], None)
    (demo_created 0) (demo_reached 0 [RStart])) as (a & _ & Ha). exists a. exact Ha.
Defined.

Lemma schedule_acts_in_order_witness :
  omap rank (log_ (node (demo 0 [RStart; RStop CANCELED]))) = [1; 2; 3; 4; 5; 6] ∧
  StronglySorted Z.lt [1; 2; 3; 4; 5; 6].
Proof.
  split; [vm_compute; reflexivity|].
  destruct (schedule_acts_in_order demo_world demo_info true (demo_start 0) 5
    (demo 0 [RStart; RStop CANCELED]) None (demo_created 0) (demo_reached 0 _)) as [Hs _].
  vm_compute in Hs. exact Hs.
Defined.

Lemma schedule_verdict_witness :
  GetCurrentScheduleState (demo 0 [RStart; RContinue SUCCESS None]) = S_END ∧
  Exists is_stoped (log_ (node (demo 0 [RStart; RContinue SUCCESS None]))).
Proof.
  destruct (schedule_verdict demo_world demo_info true (demo_start 0) 5
    (demo 0 [RStart; RContinue SUCCESS None]) None (demo_created 0) (demo_reached 0 _)) as [[_ Hs] _].
  assert (GetCurrentScheduleState (demo 0 [RStart; RContinue SUCCESS None]) = S_END) as He
    by (vm_compute; reflexivity).
  split; [exact He|]. apply Hs. split; [reflexivity|exact He].
Defined.

Definition not_stop (a : Act) : bool := match a with AStop _ => false | _ => true end.
Definition before_success : list Act :=
  removelast (log_ (node (demo 0 [RStart; RContinue SUCCESS None]))).

Lemma schedule_success_honest_witness :
  (∃ r, AContinue SUCCESS r ∈ before_success) ∧ ATimeout ∉ before_success.
Proof.
  destruct (schedule_success_honest demo_world demo_info true (demo_start 0) 5
    (demo 0 [RStart; RContinue SUCCESS None]) None before_success None []
    (demo_created 0) (demo_reached 0 _)) as [Hs|(Hc & Ht & _)].
  - vm_compute. reflexivity.
  - exfalso. assert (forallb not_stop before_success = true) as Hf by (vm_compute; reflexivity).
    rewrite List.forallb_forall in Hf. apply list_elem_of_In in Hs. discriminate (Hf _ Hs).
  - split; [exact Hc|exact Ht].
Defined.

Definition is_started (a : Act) : bool := match a with AStarted => true | _ => false end.

Lemma schedule_started_when_begun_witness :
  ∃ c attr, Some 10 = Some c ∧ ABegin false c attr SUCCESS ∈ log_ (node (demo 0 [RStart])).
Proof.
  destruct (schedule_started_when_begun demo_world demo_info true (demo_start 0) 5
    (demo 0 [RStart]) None (demo_created 0) (demo_reached 0 _)) as [Hs _].
  destruct Hs as [_ [Heq|Hb]]; [|discriminate Heq|exact Hb].
  assert (existsb is_started (log_ (node (demo 0 [RStart]))) = true) as He by (vm_compute; reflexivity).
  apply existsb_exists in He as (a & Hin & Ha). destruct a; try discriminate Ha. by apply list_elem_of_In.
Defined.

Definition demo_machine (failing : Z) (rs : list request) : Fsm (list Z) :=
  default (Fsm_new 0) (machine_ (demo failing rs)).


Lemma schedule_stop_ends_witness :
  GetCurrentScheduleState (run_task (H := demo_ops 0) (timer_fires (demo 0 [RStart]) 5)).1 = S_END ∧
  GetCurrentScheduleState (run_task (H := demo_ops 10) (StopSchedule (demo 10 [RStart]) 5 CANCELED).1).1 = S_END.
Proof.
  split.
  - destruct (schedule_stop_ends demo_world demo_info true (demo_start 0) 5 (demo 0 [RStart])
      (demo_machine 0 [RStart]) 0 true (demo_created 0) eq_refl eq_refl (demo_reached 0 _)) as [Hs _];
      [vm_compute; reflexivity|vm_compute; reflexivity|left; vm_compute; reflexivity|].
    cbn beta iota in Hs. exact Hs.
  - destruct (schedule_stop_ends demo_world demo_info true (demo_start 10) 5 (demo 10 [RStart])
      (demo_machine 10 [RStart]) CANCELED false (demo_created 10) eq_refl eq_refl (demo_reached 10 _)) as [Hs _];
      [vm_compute; reflexivity|vm_compute; reflexivity|right; split; [vm_compute; reflexivity|reflexivity]|].
    cbn beta iota in Hs. exact Hs.
Defined.

Definition stoped (a : Act) : bool := match a with AStoped _ _ => true | _ => false end.

Lemma stoped_spec l : existsb stoped l = false → ¬ Exists is_stoped l.
Proof.
  intros Hf [a [Hin Ha]]%Exists_exists. rewrite <- not_true_iff_false in Hf. apply Hf, existsb_exists.
  exists a. split; [by apply list_elem_of_In|by destruct a].
Qed.

(** The collector at the address 10 refuses to begin: the schedule is reached
    from its creation, and three timeouts leave it waiting. *)
Lemma collector_failure_blocks_witness :
  GetCurrentScheduleState (demo 10 [RStart; RTimer; RTimer; RTimer]) = S_COLLECT_STARING ∧
  ¬ Exists is_stoped (log_ (node (serve_all (H := demo_ops 10) 5 (demo 10 [RStart]) (replicate 3 RTimer)))).
Proof.
  split; [vm_compute; reflexivity|].
  pose proof (collector_failure_blocks (H := demo_ops 10) (demo 10 [RStart]) 5 (demo_machine 10 [RStart]) 3) as Hb.
  assert (ScheduleInner (tables (H := demo_ops 10)) (demo_machine 10 [RStart]) (node (demo 10 [RStart])) =
    (demo_machine 10 [RStart], node (demo 10 [RStart]), [])) as Hr by (vm_compute; reflexivity).
  rewrite Hr in Hb.
  assert (machine_ (demo 10 [RStart]) = Some (demo_machine 10 [RStart])) as Hm by (vm_compute; reflexivity).
  assert (pendingEvents_ (demo_machine 10 [RStart]) = []) as Hq by (vm_compute; reflexivity).
  assert (demo 10 [RStart] = mkScheduleNode (node (demo 10 [RStart])) (Some (demo_machine 10 [RStart]))) as Hd.
  { rewrite <- Hm. destruct (demo 10 [RStart]). reflexivity. }
  rewrite <- Hd in Hb. apply Hb; [exact Hm|vm_compute; reflexivity|left; exact Hq|vm_compute; reflexivity|].
  apply stoped_spec. vm_compute. reflexivity.
Defined.
