(* ===== verification/ScheduleNodeBuilder.v ===== *)
(** * Building schedule nodes

    Models services/core/src/schedule_node_builder.cpp (a builder that checks
    the executors and collects the parameters of a schedule) and
    schedule_node_helper.cpp (which makes schedules of what the driver asks
    for, with the executors of the pool). A shared pointer to a node is its
    address; allocations are taken to succeed. *)

From S2P Require Import Prelude Defines ServiceTypes AttributesImpl Attributes Fsm ResourceNode ResourceNodePool ScheduleNode.
From S2P Require Import ScheduleNodeThm.

(* @file B = src/services/core/src/schedule_node_builder.cpp *)
(* @file BH = src/services/core/src/schedule_node_builder.h *)
(* @file S = src/services/core/src/schedule_node_helper.cpp *)
(* @file NH = src/services/core/src/schedule_node_impl.h *)

(** ** The builder *)

(* @src BH:61-63 ScheduleNodeBuilder *)
Record NodeBuilder := mkNodeBuilder {
  collector_ : option Z;
  verifier_ : option Z;
  b_info : ScheduleInfo;
}.

(** The default member initializers of [ScheduleInfo]. *)
(* @src NH:40-63 ScheduleNodeImpl::ScheduleInfo *)
Definition default_info : ScheduleInfo :=
  mkScheduleInfo 0 None 0 0 0 0 [] PIN 0 AUTH None None false false false [] [] 0 0 [] [] AUTH_SCENE_DEFAULT.

Section Builder.
Context {W : Type} `{ResourceNodeOps W} `{ScheduleServices W}.
Implicit Types (w : W) (b : NodeBuilder).

Definition with_info b (i : ScheduleInfo) : NodeBuilder := mkNodeBuilder (collector_ b) (verifier_ b) i.

(* @src B ScheduleNodeBuilder::SetScheduleId *)
Definition SetScheduleId b (value : Z) : NodeBuilder :=
  let i := b_info b in
  with_info b (mkScheduleInfo value (tokenId i) (collectorTokenId i) (pinSubType i) (contextId i)
    (expiredTime i) (templateIdList i) (si_authType i) (si_executorMatcher i) (scheduleMode i)
    (collector i) (verifier i) (threadHandler i) (callback i) (endAfterFirstFail i)
    (collectorMessage i) (verifierMessage i) (authIntent i) (userId i) (additionalInfo i) (title i)
    (authScene i)).

(* @src B ScheduleNodeBuilder::SetAccessTokenId *)
Definition SetAccessTokenId b (value : Z) : NodeBuilder :=
  let i := b_info b in
  with_info b (mkScheduleInfo (scheduleId i) (Some value) (collectorTokenId i) (pinSubType i)
    (contextId i) (expiredTime i) (templateIdList i) (si_authType i) (si_executorMatcher i)
    (scheduleMode i) (collector i) (verifier i) (threadHandler i) (callback i) (endAfterFirstFail i)
    (collectorMessage i) (verifierMessage i) (authIntent i) (userId i) (additionalInfo i) (title i)
    (authScene i)).

(* @src B ScheduleNodeBuilder::SetCollectorTokenId *)
Definition SetCollectorTokenId b (value : Z) : NodeBuilder :=
  let i := b_info b in
  with_info b (mkScheduleInfo (scheduleId i) (tokenId i) value (pinSubType i) (contextId i)
    (expiredTime i) (templateIdList i) (si_authType i) (si_executorMatcher i) (scheduleMode i)
    (collector i) (verifier i) (threadHandler i) (callback i) (endAfterFirstFail i)
    (collectorMessage i) (verifierMessage i) (authIntent i) (userId i) (additionalInfo i) (title i)
    (authScene i)).

(* @src B ScheduleNodeBuilder::SetPinSubType *)
Definition SetPinSubType b (value : Z) : NodeBuilder :=
  let i := b_info b in
  with_info b (mkScheduleInfo (scheduleId i) (tokenId i) (collectorTokenId i) value (contextId i)
    (expiredTime i) (templateIdList i) (si_authType i) (si_executorMatcher i) (scheduleMode i)
    (collector i) (verifier i) (threadHandler i) (callback i) (endAfterFirstFail i)
    (collectorMessage i) (verifierMessage i) (authIntent i) (userId i) (additionalInfo i) (title i)
    (authScene i)).

(* @src B ScheduleNodeBuilder::SetTemplateIdList *)
Definition SetTemplateIdList b (value : list Z) : NodeBuilder :=
  let i := b_info b in
  with_info b (mkScheduleInfo (scheduleId i) (tokenId i) (collectorTokenId i) (pinSubType i)
    (contextId i) (expiredTime i) value (si_authType i) (si_executorMatcher i) (scheduleMode i)
    (collector i) (verifier i) (threadHandler i) (callback i) (endAfterFirstFail i)
    (collectorMessage i) (verifierMessage i) (authIntent i) (userId i) (additionalInfo i) (title i)
    (authScene i)).

(* @src B ScheduleNodeBuilder::SetAuthType *)
Definition SetAuthType b (value : Z) : NodeBuilder :=
  let i := b_info b in
  with_info b (mkScheduleInfo (scheduleId i) (tokenId i) (collectorTokenId i) (pinSubType i)
    (contextId i) (expiredTime i) (templateIdList i) value (si_executorMatcher i) (scheduleMode i)
    (collector i) (verifier i) (threadHandler i) (callback i) (endAfterFirstFail i)
    (collectorMessage i) (verifierMessage i) (authIntent i) (userId i) (additionalInfo i) (title i)
    (authScene i)).

(* @src B ScheduleNodeBuilder::SetExecutorMatcher *)
Definition SetExecutorMatcher b (value : Z) : NodeBuilder :=
  let i := b_info b in
  with_info b (mkScheduleInfo (scheduleId i) (tokenId i) (collectorTokenId i) (pinSubType i)
    (contextId i) (expiredTime i) (templateIdList i) (si_authType i) value (scheduleMode i)
    (collector i) (verifier i) (threadHandler i) (callback i) (endAfterFirstFail i)
    (collectorMessage i) (verifierMessage i) (authIntent i) (userId i) (additionalInfo i) (title i)
    (authScene i)).

(* @src B ScheduleNodeBuilder::SetScheduleMode *)
Definition SetScheduleMode b (value : Z) : NodeBuilder :=
  let i := b_info b in
  with_info b (mkScheduleInfo (scheduleId i) (tokenId i) (collectorTokenId i) (pinSubType i)
    (contextId i) (expiredTime i) (templateIdList i) (si_authType i) (si_executorMatcher i) value
    (collector i) (verifier i) (threadHandler i) (callback i) (endAfterFirstFail i)
    (collectorMessage i) (verifierMessage i) (authIntent i) (userId i) (additionalInfo i) (title i)
    (authScene i)).

(* @src B ScheduleNodeBuilder::SetScheduleCallback *)
Definition SetScheduleCallback b (value : bool) : NodeBuilder :=
  let i := b_info b in
  with_info b (mkScheduleInfo (scheduleId i) (tokenId i) (collectorTokenId i) (pinSubType i)
    (contextId i) (expiredTime i) (templateIdList i) (si_authType i) (si_executorMatcher i)
    (scheduleMode i) (collector i) (verifier i) (threadHandler i) value (endAfterFirstFail i)
    (collectorMessage i) (verifierMessage i) (authIntent i) (userId i) (additionalInfo i) (title i)
    (authScene i)).

(* @src B ScheduleNodeBuilder::SetExpiredTime *)
Definition SetExpiredTime b (value : Z) : NodeBuilder :=
  let i := b_info b in
  with_info b (mkScheduleInfo (scheduleId i) (tokenId i) (collectorTokenId i) (pinSubType i)
    (contextId i) value (templateIdList i) (si_authType i) (si_executorMatcher i) (scheduleMode i)
    (collector i) (verifier i) (threadHandler i) (callback i) (endAfterFirstFail i)
    (collectorMessage i) (verifierMessage i) (authIntent i) (userId i) (additionalInfo i) (title i)
    (authScene i)).

(* @src B ScheduleNodeBuilder::SetThreadHandler *)
Definition SetThreadHandler b (value : bool) : NodeBuilder :=
  let i := b_info b in
  with_info b (mkScheduleInfo (scheduleId i) (tokenId i) (collectorTokenId i) (pinSubType i)
    (contextId i) (expiredTime i) (templateIdList i) (si_authType i) (si_executorMatcher i)
    (scheduleMode i) (collector i) (verifier i) value (callback i) (endAfterFirstFail i)
    (collectorMessage i) (verifierMessage i) (authIntent i) (userId i) (additionalInfo i) (title i)
    (authScene i)).

(* @src B ScheduleNodeBuilder::SetEndAfterFirstFail *)
Definition SetEndAfterFirstFail b (value : bool) : NodeBuilder :=
  let i := b_info b in
  with_info b (mkScheduleInfo (scheduleId i) (tokenId i) (collectorTokenId i) (pinSubType i)
    (contextId i) (expiredTime i) (templateIdList i) (si_authType i) (si_executorMatcher i)
    (scheduleMode i) (collector i) (verifier i) (threadHandler i) (callback i) value
    (collectorMessage i) (verifierMessage i) (authIntent i) (userId i) (additionalInfo i) (title i)
    (authScene i)).

(* @src B ScheduleNodeBuilder::SetCollectorMessage *)
Definition SetCollectorMessage b (value : bytes) : NodeBuilder :=
  let i := b_info b in
  with_info b (mkScheduleInfo (scheduleId i) (tokenId i) (collectorTokenId i) (pinSubType i)
    (contextId i) (expiredTime i) (templateIdList i) (si_authType i) (si_executorMatcher i)
    (scheduleMode i) (collector i) (verifier i) (threadHandler i) (callback i) (endAfterFirstFail i)
    value (verifierMessage i) (authIntent i) (userId i) (additionalInfo i) (title i) (authScene i)).

(* @src B ScheduleNodeBuilder::SetVerifierMessage *)
Definition SetVerifierMessage b (value : bytes) : NodeBuilder :=
  let i := b_info b in
  with_info b (mkScheduleInfo (scheduleId i) (tokenId i) (collectorTokenId i) (pinSubType i)
    (contextId i) (expiredTime i) (templateIdList i) (si_authType i) (si_executorMatcher i)
    (scheduleMode i) (collector i) (verifier i) (threadHandler i) (callback i) (endAfterFirstFail i)
    (collectorMessage i) value (authIntent i) (userId i) (additionalInfo i) (title i) (authScene i)).

(* @src B ScheduleNodeBuilder::SetAuthIntent *)
Definition SetAuthIntent b (value : Z) : NodeBuilder :=
  let i := b_info b in
  with_info b (mkScheduleInfo (scheduleId i) (tokenId i) (collectorTokenId i) (pinSubType i)
    (contextId i) (expiredTime i) (templateIdList i) (si_authType i) (si_executorMatcher i)
    (scheduleMode i) (collector i) (verifier i) (threadHandler i) (callback i) (endAfterFirstFail i)
    (collectorMessage i) (verifierMessage i) value (userId i) (additionalInfo i) (title i)
    (authScene i)).

(* @src B ScheduleNodeBuilder::SetUserId *)
Definition SetUserId b (value : Z) : NodeBuilder :=
  let i := b_info b in
  with_info b (mkScheduleInfo (scheduleId i) (tokenId i) (collectorTokenId i) (pinSubType i)
    (contextId i) (expiredTime i) (templateIdList i) (si_authType i) (si_executorMatcher i)
    (scheduleMode i) (collector i) (verifier i) (threadHandler i) (callback i) (endAfterFirstFail i)
    (collectorMessage i) (verifierMessage i) (authIntent i) value (additionalInfo i) (title i)
    (authScene i)).

(* @src B ScheduleNodeBuilder::SetAdditionalInfo *)
Definition SetAdditionalInfo b (value : bytes) : NodeBuilder :=
  let i := b_info b in
  with_info b (mkScheduleInfo (scheduleId i) (tokenId i) (collectorTokenId i) (pinSubType i)
    (contextId i) (expiredTime i) (templateIdList i) (si_authType i) (si_executorMatcher i)
    (scheduleMode i) (collector i) (verifier i) (threadHandler i) (callback i) (endAfterFirstFail i)
    (collectorMessage i) (verifierMessage i) (authIntent i) (userId i) value (title i) (authScene i)).

(* @src B ScheduleNodeBuilder::SetTitle *)
Definition SetTitle b (value : bytes) : NodeBuilder :=
  let i := b_info b in
  with_info b (mkScheduleInfo (scheduleId i) (tokenId i) (collectorTokenId i) (pinSubType i)
    (contextId i) (expiredTime i) (templateIdList i) (si_authType i) (si_executorMatcher i)
    (scheduleMode i) (collector i) (verifier i) (threadHandler i) (callback i) (endAfterFirstFail i)
    (collectorMessage i) (verifierMessage i) (authIntent i) (userId i) (additionalInfo i) value
    (authScene i)).

(* @src B ScheduleNodeBuilder::SetAuthScene *)
Definition SetAuthScene b (value : Z) : NodeBuilder :=
  let i := b_info b in
  with_info b (mkScheduleInfo (scheduleId i) (tokenId i) (collectorTokenId i) (pinSubType i)
    (contextId i) (expiredTime i) (templateIdList i) (si_authType i) (si_executorMatcher i)
    (scheduleMode i) (collector i) (verifier i) (threadHandler i) (callback i) (endAfterFirstFail i)
    (collectorMessage i) (verifierMessage i) (authIntent i) (userId i) (additionalInfo i) (title i)
    value).

(* @src B:33-42 ScheduleNodeBuilder::ScheduleNodeBuilder *)
Definition ScheduleNodeBuilder_new w (collector verifier : option Z) : NodeBuilder :=
  let b := mkNodeBuilder collector verifier default_info in
  let b := match collector with Some c => SetAuthType b (GetAuthType w c) | None => b end in
  SetEndAfterFirstFail b false.

(* @src B ScheduleNodeBuilder::CheckExecutors *)
Definition CheckExecutors w (collector verifier : option Z) : bool :=
  match collector, verifier with
  | None, _ => false
  | Some _, None => false
  | Some c, Some v =>
      WHEN GetAuthType w c ≠ GetAuthType w v RETURN false ;;
      WHEN GetExecutorMatcher w c ≠ GetExecutorMatcher w v RETURN false ;;
      WHEN c = v ∧ GetExecutorRole w c = ALL_IN_ONE RETURN true ;;
      WHEN GetExecutorRole w c = COLLECTOR ∧ GetExecutorRole w v = VERIFIER RETURN true ;;
      false
  end.

(* @src B Builder::New *)
Definition Builder_New w (collector verifier : option Z) : option NodeBuilder :=
  CHECK CheckExecutors w collector verifier = true ELSE None ;;
  Some (ScheduleNodeBuilder_new w collector verifier).

(* @src B ScheduleNodeBuilder::CheckParameters *)
Definition CheckParameters w b : bool :=
  match collector_ b with
  | Some c => WHEN GetAuthType w c ≠ si_authType (b_info b) RETURN false ;; true
  | None => true
  end.

Definition set_executors (i : ScheduleInfo) (c v : option Z) : ScheduleInfo :=
  mkScheduleInfo (scheduleId i) (tokenId i) (collectorTokenId i) (pinSubType i) (contextId i)
    (expiredTime i) (templateIdList i) (si_authType i) (si_executorMatcher i) (scheduleMode i) c v
    (threadHandler i) (callback i) (endAfterFirstFail i) (collectorMessage i) (verifierMessage i)
    (authIntent i) (userId i) (additionalInfo i) (title i) (authScene i).

(** [singleThread]: see [Create]. *)
(* @src B ScheduleNodeBuilder::Build *)
Definition Build w b (singleThread : bool) : option (ScheduleNode W) :=
  CHECK CheckParameters w b = true ELSE None ;;
  Create w (set_executors (b_info b) (collector_ b) (verifier_ b)) singleThread.

(** ** Making schedules of the driver's orders *)

(** The out parameters of [ScheduleInfoToExecutors]. *)
Record Executors := mkExecutors {
  x_collector : option Z;
  x_verifier : option Z;
  x_collectorMessage : bytes;
  x_verifierMessage : bytes;
}.

Definition no_executors : Executors := mkExecutors None None [] [].

(** One iteration of the loop, on an executor of the pool. *)
Definition add_executor w (x : Executors) (resource : Z) (message : bytes) : Executors :=
  let role := GetExecutorRole w resource in
  WHEN role = COLLECTOR RETURN
    mkExecutors (Some resource) (x_verifier x) message (x_verifierMessage x) ;;
  WHEN role = VERIFIER RETURN
    mkExecutors (x_collector x) (Some resource) (x_collectorMessage x) message ;;
  WHEN role = ALL_IN_ONE RETURN
    mkExecutors (Some resource) (Some resource) (x_collectorMessage x) message ;;
  x.

Fixpoint executors_loop (p : Pool W) (executors : list (Z * bytes)) (x : Executors) : option Executors :=
  match executors with
  | [] => Some x
  | (executorIndex, message) :: executors =>
      match Select_lock p executorIndex with
      | None => None
      | Some resource => executors_loop p executors (add_executor (world p) x resource message)
      end
  end.

(* @src S ScheduleNodeHelper::ScheduleInfoToExecutors *)
Definition ScheduleInfoToExecutors (p : Pool W) (info : EngScheduleInfo) : option Executors :=
  CHECK length (e_executorIndexes info) = length (e_executorMessages info) ELSE None ;;
  CHECK (0 < length (e_executorIndexes info))%nat ELSE None ;;
  match executors_loop p (zip (e_executorIndexes info) (e_executorMessages info)) no_executors with
  | None => None
  | Some x =>
      WHEN x_collector x = None RETURN None ;;
      WHEN x_verifier x = None RETURN None ;;
      Some x
  end.

(* @src S ScheduleNodeHelper::ScheduleInfoToScheduleNode *)
Definition ScheduleInfoToScheduleNode (p : Pool W) (info : EngScheduleInfo) (para : NodeOptionalPara)
    (callback singleThread : bool) : option (ScheduleNode W) :=
  WHEN e_executorIndexes info = [] RETURN None ;;
  match ScheduleInfoToExecutors p info with
  | None => None
  | Some x =>
    match Builder_New (world p) (x_collector x) (x_verifier x) with
    | None => None
    | Some builder =>
        let builder := match p_tokenId para with Some t => SetAccessTokenId builder t | None => builder end in
        let builder := SetAuthType builder (e_authType info) in
        let builder := SetExecutorMatcher builder (e_executorMatcher info) in
        let builder := SetScheduleId builder (e_scheduleId info) in
        let builder := SetTemplateIdList builder (e_templateIds info) in
        let builder := SetScheduleMode builder (e_scheduleMode info) in
        let builder := SetExpiredTime builder (default 0 (p_expire para)) in
        let builder := SetPinSubType builder (default PIN_MAX (p_pinSubType para)) in
        let builder := SetScheduleCallback builder callback in
        let builder := SetEndAfterFirstFail builder (default false (p_endAfterFirstFail para)) in
        let builder := SetCollectorTokenId builder (p_collectorTokenId para) in
        let builder := SetCollectorMessage builder (x_collectorMessage x) in
        let builder := SetVerifierMessage builder (x_verifierMessage x) in
        let builder := SetAuthIntent builder (p_authIntent para) in
        let builder := SetUserId builder (p_userId para) in
        let builder := SetAdditionalInfo builder (p_additionalInfo para) in
        let builder := SetTitle builder (p_title para) in
        let builder := SetAuthScene builder (p_authScene para) in
        Build (world p) builder singleThread
    end
  end.

(** [None] is a failure, which leaves the caller's [nodes] alone. *)
(* @src S:36-54 ScheduleNodeHelper::BuildFromHdi *)
Fixpoint BuildFromHdi (p : Pool W) (infos : list EngScheduleInfo) (callback : bool)
    (para : NodeOptionalPara) (singleThread : bool) : option (list (ScheduleNode W)) :=
  match infos with
  | [] => Some []
  | info :: infos =>
      match ScheduleInfoToScheduleNode p info para callback singleThread with
      | None => None
      | Some node => nodes ← BuildFromHdi p infos callback para singleThread; Some (node :: nodes)
      end
  end.
End Builder.

(** ** What is built *)

Section Correctness.
Context {W : Type} `{ResourceNodeOps W} `{ScheduleServices W}.
Implicit Types (p : Pool W).

(** The last of the nodes that plays one of the roles. *)
Definition last_with (w : W) (roles : list Z) (hs : list Z) : option Z :=
  last (filter (λ h, GetExecutorRole w h ∈ roles) hs).

Definition compatible (w : W) (c v : Z) : Prop :=
  GetAuthType w c = GetAuthType w v ∧ GetExecutorMatcher w c = GetExecutorMatcher w v ∧
  (c = v ∧ GetExecutorRole w c = ALL_IN_ONE ∨
   GetExecutorRole w c = COLLECTOR ∧ GetExecutorRole w v = VERIFIER).

(** The collector and the verifier for an order of the driver. *)
Definition orders p (info : EngScheduleInfo) (c v : Z) : Prop :=
  length (e_executorIndexes info) = length (e_executorMessages info) ∧
  ∃ hs, Forall2 (λ i h, Select_lock p i = Some h) (e_executorIndexes info) hs ∧
    last_with (world p) [COLLECTOR; ALL_IN_ONE] hs = Some c ∧
    last_with (world p) [VERIFIER; ALL_IN_ONE] hs = Some v ∧
    compatible (world p) c v ∧ GetAuthType (world p) c = e_authType info.

(** A new schedule for that order. *)
Definition built p (info : EngScheduleInfo) (para : NodeOptionalPara) (cb : bool) (s : ScheduleNode W) : Prop :=
  let i := info_ (node s) in
  (∃ c v, orders p info c v ∧ collector i = Some c ∧ verifier i = Some v) ∧
  scheduleId i = e_scheduleId info ∧ si_authType i = e_authType info ∧
  si_executorMatcher i = e_executorMatcher info ∧ scheduleMode i = e_scheduleMode info ∧
  templateIdList i = e_templateIds info ∧ tokenId i = p_tokenId para ∧
  expiredTime i = default 0 (p_expire para) ∧ pinSubType i = default PIN_MAX (p_pinSubType para) ∧
  callback i = cb ∧ userId i = p_userId para ∧ authIntent i = p_authIntent para ∧
  GetCurrentScheduleState s = S_INIT ∧ log_ (node s) = [].

Lemma last_with_snoc w roles hs h :
  last_with w roles (hs ++ [h]) = if decide (GetExecutorRole w h ∈ roles) then Some h else last_with w roles hs.
Proof.
  unfold last_with. rewrite filter_app. case_decide as Hr.
  - by rewrite filter_cons_True, filter_nil, last_snoc.
  - by rewrite filter_cons_False, filter_nil, app_nil_r.
Qed.

Lemma CheckExecutors_spec w c v : CheckExecutors w (Some c) (Some v) = true ↔ compatible w c v.
Proof. unfold CheckExecutors, compatible. repeat case_decide; naive_solver. Qed.

Lemma executors_loop_spec p ex hs0 x0 :
  x_collector x0 = last_with (world p) [COLLECTOR; ALL_IN_ONE] hs0 →
  x_verifier x0 = last_with (world p) [VERIFIER; ALL_IN_ONE] hs0 →
  match executors_loop p ex x0 with
  | Some x => ∃ hs, Forall2 (λ i h, Select_lock p i = Some h) ex.*1 hs ∧
      x_collector x = last_with (world p) [COLLECTOR; ALL_IN_ONE] (hs0 ++ hs) ∧
      x_verifier x = last_with (world p) [VERIFIER; ALL_IN_ONE] (hs0 ++ hs)
  | None => ¬ ∃ hs, Forall2 (λ i h, Select_lock p i = Some h) ex.*1 hs
  end.
Proof.
  revert hs0 x0. induction ex as [|[i msg] ex IH]; intros hs0 x0 Hc Hv; simpl.
  { exists []. by rewrite !app_nil_r. }
  destruct (Select_lock p i) as [h|] eqn:Hi.
  2: { intros (hs & Hf). inversion Hf; simplify_eq. }
  assert (x_collector (add_executor (world p) x0 h msg) = last_with (world p) [COLLECTOR; ALL_IN_ONE] (hs0 ++ [h]) ∧
    x_verifier (add_executor (world p) x0 h msg) = last_with (world p) [VERIFIER; ALL_IN_ONE] (hs0 ++ [h])) as [Hc1 Hv1].
  { rewrite !last_with_snoc. unfold add_executor.
    destruct (decide (GetExecutorRole (world p) h = COLLECTOR)) as [Hr|H1]; [rewrite Hr; by vm_compute|].
    destruct (decide (GetExecutorRole (world p) h = VERIFIER)) as [Hr|H2]; [rewrite Hr; by vm_compute|].
    destruct (decide (GetExecutorRole (world p) h = ALL_IN_ONE)) as [Hr|H3]; [rewrite Hr; by vm_compute|].
    by rewrite !decide_False by set_solver. }
  specialize (IH (hs0 ++ [h]) _ Hc1 Hv1).
  destruct (executors_loop p ex _) as [x|].
  - destruct IH as (hs & Hf & Hxc & Hxv). exists (h :: hs). rewrite <- app_assoc in Hxc, Hxv.
    split; [by constructor|done].
  - intros (hs & Hf). apply IH. inversion Hf; subst. eauto.
Qed.

Lemma to_executors_spec p info :
  match ScheduleInfoToExecutors p info with
  | Some x => ∃ c v, x_collector x = Some c ∧ x_verifier x = Some v ∧
      (compatible (world p) c v → GetAuthType (world p) c = e_authType info → orders p info c v) ∧
      (∀ c' v', orders p info c' v' → c' = c ∧ v' = v)
  | None => ∀ c v, ¬ orders p info c v
  end.
Proof.
  unfold ScheduleInfoToExecutors, orders.
  destruct (decide (length (e_executorIndexes info) = length (e_executorMessages info))) as [Hlen|]; [|naive_solver].
  pose proof (executors_loop_spec p (zip (e_executorIndexes info) (e_executorMessages info)) [] no_executors
    eq_refl eq_refl) as Hs. rewrite fst_zip in Hs by lia.
  destruct (decide (0 < length (e_executorIndexes info))%nat) as [Hpos|Hpos].
  2: { intros c v (_ & hs & Hf & Hc & _). assert (e_executorIndexes info = []) as He by (apply nil_length_inv; lia).
       rewrite He in Hf. by apply Forall2_nil_inv_l in Hf as ->. }
  destruct (executors_loop p _ no_executors) as [x|]; [|naive_solver].
  destruct Hs as (hs & Hf & Hc & Hv). simpl in Hc, Hv.
  assert (∀ hs', Forall2 (λ i h, Select_lock p i = Some h) (e_executorIndexes info) hs' → hs' = hs) as Huniq.
  { clear -Hf. revert Hf. generalize (e_executorIndexes info). intros l Hf. induction Hf; intros hs' Hf'; inversion Hf'; subst; [done|].
    f_equal; [congruence|by auto]. }
  destruct (x_collector x) as [c|] eqn:Hxc; rewrite ?decide_True, ?decide_False by done.
  2: { intros c' v' (_ & hs' & Hf' & Hc' & _). apply Huniq in Hf' as ->. congruence. }
  destruct (x_verifier x) as [v|] eqn:Hxv; rewrite ?decide_True, ?decide_False by done.
  2: { intros c' v' (_ & hs' & Hf' & _ & Hv' & _). apply Huniq in Hf' as ->. congruence. }
  exists c, v. split; [done|]. split; [done|]. split.
  - intros Hcomp Hty. split; [done|]. exists hs. by split_and!.
  - intros c' v' (_ & hs' & Hf' & Hc' & Hv' & _). apply Huniq in Hf' as ->. split; congruence.
Qed.

Lemma to_node_spec p info para cb th :
  match ScheduleInfoToScheduleNode p info para cb th with
  | Some s => built p info para cb s
  | None => ∀ c v, ¬ orders p info c v
  end.
Proof.
  unfold ScheduleInfoToScheduleNode. pose proof (to_executors_spec p info) as Hx.
  destruct (decide (e_executorIndexes info = [])) as [He|He].
  { intros c v (_ & hs & Hf & Hc & _). rewrite He in Hf. by apply Forall2_nil_inv_l in Hf as ->. }
  destruct (ScheduleInfoToExecutors p info) as [x|]; [|done].
  destruct Hx as (c & v & Hxc & Hxv & Hok & Huniq). rewrite Hxc, Hxv. unfold Builder_New.
  destruct (decide (CheckExecutors (world p) (Some c) (Some v) = true)) as [Hch|Hch].
  2: { intros c' v' Ho. destruct (Huniq _ _ Ho) as [-> ->]. apply Hch, CheckExecutors_spec.
       by destruct Ho as (_ & hs & _ & _ & _ & Hcomp & _). }
  apply CheckExecutors_spec in Hch.
  cbv zeta. set (b := SetAuthScene _ _).
  assert (collector_ b = Some c ∧ verifier_ b = Some v) as [Hbc Hbv] by (by destruct (p_tokenId para)).
  assert (si_authType (b_info b) = e_authType info) as Hty by (by destruct (p_tokenId para)).
  unfold Build, CheckParameters. rewrite Hbc, Hbv, Hty.
  destruct (decide (GetAuthType (world p) c ≠ e_authType info)) as [Hne|Heq].
  { rewrite decide_False by done. intros c' v' Ho. destruct (Huniq _ _ Ho) as [-> ->]. apply Hne.
    by destruct Ho as (_ & hs & _ & _ & _ & _ & Hcty). }
  rewrite decide_True by done. apply dec_stable in Heq.
  destruct (Create_spec (world p) (set_executors (b_info b) (Some c) (Some v)) th)
    as (i & -> & Hcb & Hcol & Hver & Hi).
  unfold built. simpl. rewrite Hcol, Hver, Hcb. clear Hcol Hver Hcb. simpl.
  assert (orders p info c v) as Ho by auto.
  split; [by exists c, v|].
  destruct Hi as [-> | ->]; simpl; unfold b; destruct (p_tokenId para); by split_and!.
Qed.

(** C28: schedules are built of matching executors, all of them or none. For
    every order of the driver, the schedule made has the collector and the
    verifier that the order names last among its executors, both in the pool,
    alive, of the order's authentication type, with the same matcher, and
    either one all-in-one executor or a collector and a verifier; it carries
    the parameters given and has not started. If any order cannot be met this
    way, no schedule is handed out. *)
Theorem build_from_hdi p (infos : list EngScheduleInfo) (cb : bool) (para : NodeOptionalPara) (th : bool) :
  match BuildFromHdi p infos cb para th with
  | Some nodes => Forall2 (λ info s, built p info para cb s) infos nodes
  | None => Exists (λ info, ∀ c v, ¬ orders p info c v) infos
  end.
Proof.
  induction infos as [|info infos IH]; simpl; [constructor|].
  pose proof (to_node_spec p info para cb th) as Hn.
  destruct (ScheduleInfoToScheduleNode p info para cb th) as [s|]; [|by left].
  destruct (BuildFromHdi p infos cb para th) as [nodes|]; simpl; [by constructor|by right].
Qed.
End Correctness.
