(* ===== verification/ContextPool.v ===== *)
(** * Contexts, their admission policy, and the context pool

    Models services/context: the life cycle that [BaseContext] gives every
    request (base_context.cpp), the policy that keeps two PIN authentications
    of a user apart when one of them is a sudo authentication
    (context_arbitration_policy.cpp, and the decisions of SudoAuthContext and
    WidgetContext that it meets), and the pool (context_pool_impl.cpp), which
    queues requests, admits them in order, supersedes older ones, and starts
    and stops them with tasks on the service thread.

    [Context] holds what the pool reads of a context, which never changes; its
    life cycle is an object behind the interface [ContextObject]. Every pointer
    in the pool is non-null ([Schedule] refuses null pointers), so the pool's
    checks for null members disappear. An [unordered_map] is walked in the
    order of [map_to_list]. *)

From S2P Require Import Prelude Defines.

(* @file B = src/services/context/src/base_context.cpp *)
(* @file BH = src/services/context/inc/base_context.h *)
(* @file CH = src/services/context/inc/context.h *)
(* @file A = src/services/context/src/context_arbitration_policy.cpp *)
(* @file SU = src/services/context/src/sudo_auth_context.cpp *)
(* @file WI = src/services/context/src/widget_context.cpp *)
(* @file SI = src/services/context/src/simple_auth_context.cpp *)
(* @file P = src/services/context/src/context_pool_impl.cpp *)
(* @file PH = src/services/context/inc/context_pool.h *)

(** ** The life cycle of a context *)

(** What a context does to the outside: begin its work, end it, report. *)
Inductive Effect :=
  | EOnStart
  | EOnStop
  | EResult (errorCode : Z).

(** [Start], [Stop] and [OnStartFailed] of the abstract class. The virtual
    [OnStart] and [OnStop] are not the pool's business: their answer (success,
    and an error code they may set, [SUCCESS] standing for none) is given. *)
(* @src CH:53-61 Context *)
Class ContextObject (O : Type) := {
  Start : O → bool * Z → O * bool * list Effect;
  Stop : O → bool * Z → O * bool * list Effect;
  OnStartFailed : O → Z → O * list Effect;
  GetLatestError : O → Z;
}.

(** What the pool relies on: there are objects that will never begin; an object
    begins only once; stopping an object that has not begun keeps it from
    beginning. *)
Class ContextObjectLaws (O : Type) `{ContextObject O} := {
  never_begins : O → Prop;
  begun : O → Prop;
  Start_law o r o' ret effs : Start o r = (o', ret, effs) →
    (EOnStart ∈ effs → ¬ begun o ∧ ¬ never_begins o ∧ begun o') ∧
    (never_begins o → never_begins o') ∧ (begun o → begun o') ∧
    (EOnStart ∉ effs → begun o' → begun o);
  Stop_law o r o' ret effs : Stop o r = (o', ret, effs) →
    (EOnStart ∉ effs) ∧ (¬ begun o → never_begins o') ∧
    (never_begins o → never_begins o') ∧ (begun o ↔ begun o');
  OnStartFailed_law o code o' effs : OnStartFailed o code = (o', effs) →
    (EOnStart ∉ effs) ∧ (never_begins o → never_begins o') ∧ (begun o ↔ begun o');
}.

(** [callback_] is whether the pointer is set. *)
(* @src BH:71-82 BaseContext *)
Record BaseContext := mkBase {
  callback_ : bool;
  hasStarted_ : bool;
  stopRequested_ : bool;
  startFailDelivered_ : bool;
  latestError_ : Z;
}.

Definition BaseContext_new (callback : bool) : BaseContext :=
  mkBase callback false false false GENERAL_ERROR.

(* @src B BaseContext::SetLatestError *)
Definition SetLatestError (c : BaseContext) (error : Z) : BaseContext :=
  WHEN error ≠ SUCCESS RETURN
    mkBase (callback_ c) (hasStarted_ c) (stopRequested_ c) (startFailDelivered_ c) error ;;
  c.

(* @src B BaseContext::Start *)
Definition Base_Start (c : BaseContext) (onStart : bool * Z) : BaseContext * bool * list Effect :=
  WHEN hasStarted_ c = true RETURN (c, false, []) ;;
  WHEN stopRequested_ c = true RETURN (SetLatestError c CANCELED, false, []) ;;
  let c := mkBase (callback_ c) true (stopRequested_ c) (startFailDelivered_ c) (latestError_ c) in
  (SetLatestError c onStart.2, onStart.1, [EOnStart]).

(* @src B BaseContext::OnStartFailed *)
Definition Base_OnStartFailed (c : BaseContext) (errorCode : Z) : BaseContext * list Effect :=
  WHEN startFailDelivered_ c = true RETURN (c, []) ;;
  let c := mkBase (callback_ c) (hasStarted_ c) (stopRequested_ c) true (latestError_ c) in
  CHECK callback_ c = true ELSE (c, []) ;;
  (c, [EResult errorCode]).

(* @src B BaseContext::Stop *)
Definition Base_Stop (c : BaseContext) (onStop : bool * Z) : BaseContext * bool * list Effect :=
  if decide (hasStarted_ c = false) then
    WHEN stopRequested_ c = true RETURN (c, true, []) ;;
    let c := mkBase (callback_ c) (hasStarted_ c) true (startFailDelivered_ c) (latestError_ c) in
    let '(c, effs) := Base_OnStartFailed c CANCELED in
    (c, true, effs)
  else (SetLatestError c onStop.2, onStop.1, [EOnStop]).

(* @src B BaseContext::GetLatestError *)
Definition Base_GetLatestError (c : BaseContext) : Z := latestError_ c.

#[export] Instance base_object : ContextObject BaseContext := {
  Start := Base_Start;
  Stop := Base_Stop;
  OnStartFailed := Base_OnStartFailed;
  GetLatestError := Base_GetLatestError;
}.

(** ** What the pool reads of a context *)

(* @src CH:37-37 ContextType *)
Definition CONTEXT_SIMPLE_AUTH : Z := 0.
(* @src CH:38-38 ContextType *)
Definition CONTEXT_ENROLL : Z := 1.
(* @src CH:39-39 ContextType *)
Definition CONTEXT_IDENTIFY : Z := 2.
(* @src CH:40-40 ContextType *)
Definition WIDGET_AUTH_CONTEXT : Z := 3.
(* @src CH:41-41 ContextType *)
Definition REMOTE_AUTH_CONTEXT : Z := 4.
(* @src CH:42-42 ContextType *)
Definition REMOTE_AUTH_INVOKER_CONTEXT : Z := 5.
(* @src CH:43-43 ContextType *)
Definition SCHEDULE_HOLDER_CONTEXT : Z := 6.
(* @src CH:44-44 ContextType *)
Definition CONTEXT_DELETE : Z := 7.
(* @src CH:45-45 ContextType *)
Definition LOCAL_REMOTE_AUTH_CONTEXT : Z := 8.
(* @src CH:46-46 ContextType *)
Definition SUDO_AUTH_CONTEXT : Z := 9.

(* @src CH:34-34 REUSE_AUTH_RESULT_CONTEXT_ID *)
Definition REUSE_AUTH_RESULT_CONTEXT_ID : Z := 1.

(** [c_object]: the address of the object; [c_authType] and [c_widgetTypes] are
    the types of a simple and of a widget context. *)
Record Context := mkContext {
  c_object : Z;
  c_id : Z;
  c_type : Z;
  c_createTime : Z;
  c_userId : Z;
  c_callerName : bytes;
  c_primary : bool;
  c_authType : Z;
  c_widgetTypes : list Z;
}.

(* @src SU SudoAuthContext::GetAuthType *)
Definition GetAuthType (c : Context) : Z :=
  if decide (c_type c = SUDO_AUTH_CONTEXT) then PIN
  else if decide (c_type c = WIDGET_AUTH_CONTEXT) then INVALID_AUTH_TYPE
  else c_authType c.

(* @src CH:79-82 Context::GetAuthTypeList *)
Definition GetAuthTypeList (c : Context) : list Z :=
  if decide (c_type c = SUDO_AUTH_CONTEXT) then [PIN]
  else if decide (c_type c = WIDGET_AUTH_CONTEXT) then c_widgetTypes c
  else [GetAuthType c].

(* @src SU SudoAuthContext::GetAuthIntent *)
Definition GetAuthIntent (c : Context) : Z :=
  if decide (c_type c = SUDO_AUTH_CONTEXT) then SUDO_PIN_AUTH else DEFAULT.

(** ** The admission policy *)

(* @src A ContextAdmissionPolicy::IsAuthContext *)
Definition IsAuthContext (type : Z) : bool :=
  bool_decide (type = CONTEXT_SIMPLE_AUTH ∨ type = WIDGET_AUTH_CONTEXT ∨ type = SUDO_AUTH_CONTEXT ∨
    type = REMOTE_AUTH_CONTEXT ∨ type = LOCAL_REMOTE_AUTH_CONTEXT).

(* @src A ContextAdmissionPolicy::BearsPin *)
Definition BearsPin (ctx : Context) : bool :=
  existsb (λ authType, bool_decide (authType = PIN)) (GetAuthTypeList ctx).

(* @src A BlockedBySudoPinContention *)
Definition BlockedBySudoPinContention (self predecessor : Context) : bool :=
  let userId := c_userId self in
  WHEN userId = INVALID_USER_ID ∨ userId ≠ c_userId predecessor RETURN false ;;
  WHEN BearsPin self = false ∨ BearsPin predecessor = false RETURN false ;;
  bool_decide (GetAuthIntent self = SUDO_PIN_AUTH ∨ GetAuthIntent predecessor = SUDO_PIN_AUTH).

(* @src A ContextAdmissionPolicy::CanStart *)
Definition Policy_CanStart (self : Context) (predecessors : list Context) : bool :=
  WHEN c_primary self = false ∨ IsAuthContext (c_type self) = false RETURN true ;;
  forallb (λ predecessor,
    WHEN c_primary predecessor = false ∨ IsAuthContext (c_type predecessor) = false RETURN true ;;
    negb (BlockedBySudoPinContention self predecessor)) predecessors.

(** The classes behind the five authentication types (SimpleAuthContext and its
    subclasses, SudoAuthContext, WidgetContext) ask the policy; the default of
    [Context] is to start. *)
(* @src SI SimpleAuthContext::CanStart *)
Definition CanStart (self : Context) (predecessors : list Context) : bool :=
  if IsAuthContext (c_type self) then Policy_CanStart self predecessors else true.

(* @src SU SudoAuthContext::GetPreemptDecision *)
Definition Sudo_GetPreemptDecision (self newRequest : Context) (dialogActive : bool) : bool :=
  WHEN dialogActive = false ∨ c_primary newRequest = false RETURN false ;;
  let newcomerType := c_type newRequest in
  let newcomerUserId := c_userId newRequest in
  let newcomerTakesOverWindow :=
    bool_decide (newcomerType = SUDO_AUTH_CONTEXT ∨ newcomerType = WIDGET_AUTH_CONTEXT) in
  let newcomerConflictsPinSlot :=
    bool_decide (newcomerUserId ≠ INVALID_USER_ID ∧ newcomerUserId = c_userId self) &&
    IsAuthContext newcomerType && BearsPin newRequest in
  newcomerTakesOverWindow || newcomerConflictsPinSlot.

(* @src WI WidgetContext::GetPreemptDecision *)
Definition Widget_GetPreemptDecision (newRequest : Context) : bool :=
  WHEN c_type newRequest ≠ WIDGET_AUTH_CONTEXT RETURN false ;; true.

(** [true] is [STOP_NOW]; [dialogActive] tells which sudo contexts show a
    dialog at the moment. *)
Definition GetPreemptDecision (dialogActive : Z → bool) (self newRequest : Context) : bool :=
  if decide (c_type self = SUDO_AUTH_CONTEXT) then
    Sudo_GetPreemptDecision self newRequest (dialogActive (c_id self))
  else if decide (c_type self = WIDGET_AUTH_CONTEXT) then Widget_GetPreemptDecision newRequest
  else false.

(* @src P IsSameCallerDuplicate *)
Definition IsSameCallerDuplicate (incoming existing : Context) : bool :=
  WHEN c_primary incoming = false ∨ c_primary existing = false ∨
    c_callerName incoming ≠ c_callerName existing ∨ c_type incoming ≠ c_type existing ∨
    GetAuthType incoming ≠ GetAuthType existing ∨ c_userId incoming ≠ c_userId existing
  RETURN false ;;
  true.

(** ** The pool *)

(* @src P:44-44 MAX_CONTEXT_NUM *)
Definition MAX_CONTEXT_NUM : Z := 100.

(** The tasks on the service thread: [StopIfPooled] and [StartIfPooled]. *)
Inductive Task :=
  | TStop (contextId : Z)
  | TStart (contextId : Z).

(** [posted_] is every task the pool ever posted, in order, and [executed_] how
    many of them have run: the thread runs them first in, first out.
    [objects_] are the contexts' objects by address, and [effects_] records
    what they did. *)
(* @src P:104-108 ContextPoolImpl *)
Record CtxPool (O : Type) := mkPool {
  runningContexts_ : gmap Z Context;
  waitingFifo_ : list Context;
  cancelRequestedIds_ : gset Z;
  posted_ : list Task;
  executed_ : nat;
  objects_ : Z → O;
  effects_ : list (Z * Effect);
}.
Arguments mkPool {O} _ _ _ _ _ _ _.
Arguments runningContexts_ {O} _.
Arguments waitingFifo_ {O} _.
Arguments cancelRequestedIds_ {O} _.
Arguments posted_ {O} _.
Arguments executed_ {O} _.
Arguments objects_ {O} _.
Arguments effects_ {O} _.

(* @src P:94-97 ContextPoolImpl::AdmissionPlan *)
Record AdmissionPlan := mkPlan {
  toStop : gset Z;
  toStart : list Context;
}.

Section Pool.
Context {O : Type} `{ContextObject O}.
Implicit Types (p : CtxPool O) (running : gmap Z Context) (plan : AdmissionPlan).

Definition contexts_of running : list Context := (map_to_list running).*2.

(** What the inner loop does with a member for a waiter. *)
Inductive Seen := SDuplicate | SVictim | SVisible.
Definition look (dialogActive : Z → bool) (waiter member : Context) : Seen :=
  let canCollect := bool_decide (c_createTime waiter > c_createTime member) in
  if canCollect && IsSameCallerDuplicate waiter member then SDuplicate
  else if canCollect && GetPreemptDecision dialogActive member waiter then SVictim
  else SVisible.

Definition is_visible dialogActive waiter member : bool :=
  match look dialogActive waiter member with SVisible => true | _ => false end.

(** Both loops over the members together: duplicates and victims go to
    [toStop], the others are visible. *)
Definition stops_of dialogActive waiter (predecessors : list Context) : gset Z :=
  list_to_set (c_id <$> List.filter (λ m, negb (is_visible dialogActive waiter m)) predecessors).

(* @src P:357-394 ContextPoolImpl::PromoteWaitingLocked *)
Fixpoint promote_loop (dialogActive : Z → bool) (waiting predecessors : list Context)
    running plan : gmap Z Context * list Context * AdmissionPlan :=
  match waiting with
  | [] => (running, [], plan)
  | waiter :: waiting =>
      let visible := List.filter (is_visible dialogActive waiter) predecessors in
      let plan := mkPlan (toStop plan ∪ stops_of dialogActive waiter predecessors) (toStart plan) in
      let predecessors := predecessors ++ [waiter] in
      if CanStart waiter visible then
        let plan := mkPlan (toStop plan) (toStart plan ++ [waiter]) in
        (* [emplace] does nothing if the key is there *)
        let running := match running !! c_id waiter with
          | Some _ => running
          | None => <[c_id waiter := waiter]> running
          end in
        promote_loop dialogActive waiting predecessors running plan
      else
        let '(running, still, plan) := promote_loop dialogActive waiting predecessors running plan in
        (running, waiter :: still, plan)
  end.

Definition with_contexts p running (waiting : list Context) : CtxPool O :=
  mkPool running waiting (cancelRequestedIds_ p) (posted_ p) (executed_ p) (objects_ p) (effects_ p).

(* @src P ContextPoolImpl::PromoteWaitingLocked *)
Definition PromoteWaitingLocked (dialogActive : Z → bool) p : CtxPool O * AdmissionPlan :=
  let plan := mkPlan ∅ [] in
  WHEN waitingFifo_ p = [] RETURN (p, plan) ;;
  let '(running, waiting, plan) :=
    promote_loop dialogActive (waitingFifo_ p) (contexts_of (runningContexts_ p)) (runningContexts_ p) plan in
  (with_contexts p running waiting, plan).

Definition post p (tasks : list Task) : CtxPool O :=
  mkPool (runningContexts_ p) (waitingFifo_ p) (cancelRequestedIds_ p) (posted_ p ++ tasks)
    (executed_ p) (objects_ p) (effects_ p).

(** The ids of [toStop], a [std::map], ascending. *)
Definition plan_tasks plan : list Task :=
  (TStop <$> merge_sort Z.le (elements (toStop plan))) ++ ((λ c, TStart (c_id c)) <$> toStart plan).

(** [handler]: the service thread is there. *)
(* @src P ContextPoolImpl::ExecutePlan *)
Definition ExecutePlan (handler : bool) p plan : CtxPool O :=
  WHEN toStop plan = ∅ ∧ toStart plan = [] RETURN p ;;
  CHECK handler = true ELSE p ;;
  post p (plan_tasks plan).

Definition promote_and_execute (dialogActive : Z → bool) (handler : bool) p : CtxPool O :=
  let '(p, plan) := PromoteWaitingLocked dialogActive p in ExecutePlan handler p plan.

(* @src P ContextPoolImpl::SelectLocked *)
Definition SelectLocked p (contextId : Z) : option Context :=
  match runningContexts_ p !! contextId with
  | Some c => Some c
  | None => List.find (λ c, bool_decide (c_id c = contextId)) (waitingFifo_ p)
  end.

(* @src P:264-268 ContextPoolImpl::Select *)
Definition Select p (contextId : Z) : option Context := SelectLocked p contextId.

(* @src P:270-292 ContextPoolImpl::Select *)
Definition Select_type p (contextType : Z) : list Context :=
  List.filter (λ c, bool_decide (c_type c = contextType)) (contexts_of (runningContexts_ p)) ++
  List.filter (λ c, bool_decide (c_type c = contextType)) (waitingFifo_ p).

(* @src P ContextPoolImpl::Schedule *)
Definition Schedule (dialogActive : Z → bool) (handler : bool) p (context : option Context) : CtxPool O * bool :=
  match context with
  | None => (p, false)
  | Some c =>
      CHECK handler = true ELSE (p, false) ;;
      WHEN Z.of_nat (size (runningContexts_ p)) + Z.of_nat (length (waitingFifo_ p)) >= MAX_CONTEXT_NUM
      RETURN (p, false) ;;
      WHEN SelectLocked p (c_id c) ≠ None RETURN (p, false) ;;
      let p := with_contexts p (runningContexts_ p) (waitingFifo_ p ++ [c]) in
      (promote_and_execute dialogActive handler p, true)
  end.

Definition with_cancel p (ids : gset Z) : CtxPool O :=
  mkPool (runningContexts_ p) (waitingFifo_ p) ids (posted_ p) (executed_ p) (objects_ p) (effects_ p).

(* @src P ContextPoolImpl::Cancel *)
Definition Cancel (handler : bool) p (contextId : Z) : CtxPool O :=
  CHECK handler = true ELSE p ;;
  post (with_cancel p ({[contextId]} ∪ cancelRequestedIds_ p)) [TStop contextId].

(** [waitingFifo_.erase(find_if(...))]. *)
Fixpoint remove_waiting (contextId : Z) (waiting : list Context) : list Context :=
  match waiting with
  | [] => []
  | c :: waiting => if decide (c_id c = contextId) then waiting else c :: remove_waiting contextId waiting
  end.

(* @src P ContextPoolImpl::Delete *)
Definition Delete (dialogActive : Z → bool) (handler : bool) p (contextId : Z) : CtxPool O * bool :=
  let removedFromWaiting := existsb (λ c, bool_decide (c_id c = contextId)) (waitingFifo_ p) in
  let waiting := remove_waiting contextId (waitingFifo_ p) in
  let removedFromRunning := bool_decide (is_Some (runningContexts_ p !! contextId)) in
  let running := delete contextId (runningContexts_ p) in
  WHEN removedFromWaiting = false ∧ removedFromRunning = false RETURN (p, false) ;;
  (promote_and_execute dialogActive handler (with_contexts p running waiting), true).

(* @src P ContextPoolImpl::CancelAll *)
Definition CancelAll (handler : bool) p : CtxPool O :=
  let contextIds := (map_to_list (runningContexts_ p)).*1 ++ (c_id <$> waitingFifo_ p) in
  foldl (Cancel handler) p contextIds.

(* @src P ContextPoolImpl::NotifyPreemptStateChanged *)
Definition NotifyPreemptStateChanged (dialogActive : Z → bool) (handler : bool) p : CtxPool O :=
  promote_and_execute dialogActive handler p.

Definition with_object p (h : Z) (o : O) (effs : list Effect) : CtxPool O :=
  mkPool (runningContexts_ p) (waitingFifo_ p) (cancelRequestedIds_ p) (posted_ p) (executed_ p)
    (λ k, if decide (k = h) then o else objects_ p k) (effects_ p ++ ((h,.) <$> effs)).

(* @src P ContextPoolImpl::StopIfPooled *)
Definition StopIfPooled (onStop : bool * Z) p (contextId : Z) : CtxPool O * bool :=
  let p := with_cancel p (cancelRequestedIds_ p ∖ {[contextId]}) in
  match Select p contextId with
  | None => (p, false)
  | Some c =>
      let '(o, ret, effs) := Stop (objects_ p (c_object c)) onStop in
      (with_object p (c_object c) o effs, ret)
  end.

(* @src P ContextPoolImpl::StartIfPooled *)
Definition StartIfPooled (onStart : bool * Z) p (contextId : Z) : CtxPool O :=
  match runningContexts_ p !! contextId with
  | None => p
  | Some c =>
      WHEN contextId ∈ cancelRequestedIds_ p RETURN p ;;
      let '(o, ret, effs) := Start (objects_ p (c_object c)) onStart in
      CHECK ret = true ELSE
        (let '(o, effs') := OnStartFailed o (GetLatestError o) in
         with_object p (c_object c) o (effs ++ effs')) ;;
      with_object p (c_object c) o effs
  end.

(** The service thread runs its next task. *)
(* @src P:191-194 ContextPoolImpl::Cancel *)
Definition run_next (answer : bool * Z) p : CtxPool O :=
  match posted_ p !! executed_ p with
  | None => p
  | Some task =>
      let p := mkPool (runningContexts_ p) (waitingFifo_ p) (cancelRequestedIds_ p) (posted_ p)
                 (S (executed_ p)) (objects_ p) (effects_ p) in
      match task with
      | TStop contextId => (StopIfPooled answer p contextId).1
      | TStart contextId => StartIfPooled answer p contextId
      end
  end.
End Pool.

(** ** Drawing an id *)

(** [draws] are the results of [GenerateRand], [None] where it fails. *)
Section NewId.
Context {O : Type} `{ContextObject O}.

Fixpoint new_id_loop (tries : nat) (p : CtxPool O) (draws : nat → option Z) (contextId : Z) : Z :=
  match tries with
  | 0%nat => contextId
  | S tries =>
      match draws tries with
      | None => 0
      | Some contextId =>
          WHEN contextId = 0 ∨ contextId = REUSE_AUTH_RESULT_CONTEXT_ID ∨ Select p contextId ≠ None
          RETURN new_id_loop tries p draws contextId ;;
          contextId
      end
  end.

(* @src P ContextPool::GetNewContextId *)
Definition GetNewContextId (p : CtxPool O) (draws : nat → option Z) : Z := new_id_loop 10 p draws 0.
End NewId.

(* @src P ContextPool::Cleaner::operator *)
Definition Cleaner {O} `{ContextObject O} (dialogActive : Z → bool) (handler : bool) (p : CtxPool O)
    (contextId : Z) : CtxPool O :=
  WHEN contextId = INVALID_CONTEXT_ID RETURN p ;;
  (Delete dialogActive handler p contextId).1.
