(* ===== verification/ContextPoolThm.v ===== *)
(** * The context pool: what it promises

    The theorems on the model of ContextPool.v, for pools that evolve by any
    sequence of requests, cancellations, deletions and tasks of the service
    thread. *)

From S2P Require Import Prelude Defines ContextPool.

(** ** Contention *)

(** Two primary authentications with the PIN of one user, one of them sudo. *)
Definition contends (a b : Context) : bool :=
  c_primary a && IsAuthContext (c_type a) && c_primary b && IsAuthContext (c_type b) &&
  BlockedBySudoPinContention a b.

Lemma blocked_sym a b : BlockedBySudoPinContention a b = BlockedBySudoPinContention b a.
Proof.
  unfold BlockedBySudoPinContention.
  destruct (decide (c_userId a = c_userId b)) as [Heq|Hne].
  - rewrite Heq. case_decide; [done|]. destruct (BearsPin a), (BearsPin b); simpl; try done.
    apply bool_decide_ext. tauto.
  - rewrite !decide_True by auto. done.
Qed.

Lemma contends_sym a b : contends a b = contends b a.
Proof.
  unfold contends. rewrite blocked_sym.
  by destruct (c_primary a), (IsAuthContext (c_type a)), (c_primary b), (IsAuthContext (c_type b)).
Qed.

Lemma CanStart_spec w ms : CanStart w ms = true ↔ ∀ m, m ∈ ms → contends w m = false.
Proof.
  unfold CanStart, Policy_CanStart, contends.
  destruct (IsAuthContext (c_type w)), (c_primary w); simpl; try (by split).
  rewrite List.forallb_forall. setoid_rewrite <- list_elem_of_In.
  assert (∀ m, (WHEN c_primary m = false ∨ IsAuthContext (c_type m) = false RETURN true ;;
      negb (BlockedBySudoPinContention w m)) =
    negb (c_primary m && IsAuthContext (c_type m) && BlockedBySudoPinContention w m)) as Heq.
  { intros m. destruct (c_primary m), (IsAuthContext (c_type m)); done. }
  setoid_rewrite Heq. setoid_rewrite negb_true_iff. done.
Qed.

(** ** The admission loop *)

(** [b] stands before the rest of the queue [w2]. *)
Definition stops_for (dialog : Z → bool) (preds waiting : list Context) (ids : gset Z) : Prop :=
  ∀ w1 b w2, waiting = w1 ++ b :: w2 →
    ∀ m, m ∈ preds ++ w1 → is_visible dialog b m = false → c_id m ∈ ids.

Lemma stops_of_spec dialog w ms id :
  id ∈ stops_of dialog w ms ↔ ∃ m, m ∈ ms ∧ is_visible dialog w m = false ∧ c_id m = id.
Proof.
  unfold stops_of. rewrite elem_of_list_to_set, list_elem_of_fmap. split.
  - intros (m & -> & Hm). apply list_elem_of_In, List.filter_In in Hm as [Hm Hv].
    exists m. split; [by apply list_elem_of_In|]. split; [by apply negb_true_iff|done].
  - intros (m & Hm & Hv & <-). exists m. split; [done|]. apply list_elem_of_In, List.filter_In.
    split; [by apply list_elem_of_In|by rewrite Hv].
Qed.

Lemma visible_spec dialog w ms m :
  m ∈ List.filter (is_visible dialog w) ms ↔ m ∈ ms ∧ is_visible dialog w m = true.
Proof. by rewrite !list_elem_of_In, List.filter_In. Qed.

(** What the loop makes of a queue: who is admitted and who still waits. *)
Record promoted (dialog : Z → bool) (preds waiting : list Context) (running : gmap Z Context)
    (plan : AdmissionPlan) (running' : gmap Z Context) (still : list Context) (plan' : AdmissionPlan)
    (started : list Context) : Prop := {
  pr_start : toStart plan' = toStart plan ++ started;
  pr_stop : toStop plan ⊆ toStop plan';
  pr_stops : stops_for dialog preds waiting (toStop plan');
  pr_only : ∀ id, id ∈ toStop plan' → id ∈ toStop plan ∨
    ∃ w1 b w2 m, waiting = w1 ++ b :: w2 ∧ m ∈ preds ++ w1 ∧ is_visible dialog b m = false ∧ c_id m = id;
  pr_perm : waiting ≡ₚ started ++ still;
  pr_still : still `sublist_of` waiting;
  pr_order : started `sublist_of` waiting;
  pr_running : running' = running ∪ list_to_map ((λ c, (c_id c, c)) <$> started);
  pr_admit : ∀ w1 b w2, waiting = w1 ++ b :: w2 →
    (b ∈ started ∧ ∀ m, m ∈ preds ++ w1 → contends b m = true → c_id m ∈ toStop plan') ∨
    (b ∈ still ∧ ∃ m, m ∈ preds ++ w1 ∧ is_visible dialog b m = true ∧ contends b m = true);
}.

Lemma cons_split {A} (x b : A) l w1 w2 : x :: l = w1 ++ b :: w2 →
  w1 = [] ∧ b = x ∧ w2 = l ∨ ∃ w1', w1 = x :: w1' ∧ l = w1' ++ b :: w2.
Proof. destruct w1 as [|y w1]; simpl; intros [= <- ->]; [by left|right; eauto]. Qed.

Lemma promote_loop_spec dialog waiting preds running plan :
  NoDup (c_id <$> waiting) → (∀ c, c ∈ waiting → running !! c_id c = None) →
  ∃ started, let '(running', still, plan') := promote_loop dialog waiting preds running plan in
    promoted dialog preds waiting running plan running' still plan' started.
Proof.
  revert preds running plan. induction waiting as [|w waiting IH]; intros preds running plan Hnd Hfresh; simpl.
  { exists []. split; simpl; try done; rewrite ?app_nil_r; try done; try (by intros [|]).
    - by left.
    - by rewrite map_union_empty. }
  apply NoDup_cons in Hnd as [Hw Hnd].
  set (stops := stops_of dialog w preds).
  assert (∀ id, id ∈ stops ↔ ∃ m, m ∈ preds ∧ is_visible dialog w m = false ∧ c_id m = id) as Hstops
    by (intros; apply stops_of_spec).
  pose proof (CanStart_spec w (List.filter (is_visible dialog w) preds)) as Hcan.
  destruct (CanStart w _) eqn:Hc.
  - rewrite (Hfresh w) by left.
    destruct (IH (preds ++ [w]) (<[c_id w := w]> running)
      (mkPlan (toStop plan ∪ stops) (toStart plan ++ [w]))) as [started Hp].
    { done. } { intros c Hin. rewrite lookup_insert_ne; [apply Hfresh; by right|].
      intros Heq. apply Hw. rewrite Heq. by apply list_elem_of_fmap_2. }
    destruct (promote_loop _ _ _ _ _) as [[running' still] plan']. exists (w :: started).
    destruct Hp as [H1 H2 H3 H4 H5 H6 H7 H8 H9]. simpl in *. split.
    + by rewrite H1, <- app_assoc.
    + set_solver.
    + intros w1 b w2 [(-> & -> & ->)|(w1' & -> & ->)]%cons_split m Hm Hv.
      * rewrite app_nil_r in Hm. apply H2, elem_of_union_r, Hstops. eauto.
      * apply (H3 w1' b w2 eq_refl m); [|done]. by rewrite <- app_assoc.
    + intros id [[Hid|Hid]%elem_of_union|(w1 & b & w2 & m & -> & Hm & Hv & <-)]%H4; [by left| |].
      * apply Hstops in Hid as (m & Hm & Hv & <-). right. exists [], w, waiting, m. by rewrite app_nil_r.
      * right. exists (w :: w1), b, w2, m. rewrite <- app_assoc in Hm. done.
    + simpl. by constructor.
    + by constructor.
    + by constructor.
    + rewrite H8. simpl. rewrite <- insert_union_l, <- insert_union_r; [done|]. apply Hfresh. by left.
    + intros w1 b w2 [(-> & -> & ->)|(w1' & -> & ->)]%cons_split.
      * left. split; [by left|]. intros m Hm Hcon. rewrite app_nil_r in Hm.
        apply H2, elem_of_union_r, Hstops. exists m. split; [done|]. split; [|done].
        destruct (is_visible dialog w m) eqn:Hv; [|done].
        rewrite (proj1 Hcan eq_refl m) in Hcon; [done|]. by apply visible_spec.
      * destruct (H9 w1' b w2 eq_refl) as [[Hs Hm]|[Hs Hm]]; rewrite <- app_assoc in Hm; simpl in Hm.
        -- left. split; [by right|done].
        -- right. split; [done|done].
  - destruct (IH (preds ++ [w]) running (mkPlan (toStop plan ∪ stops) (toStart plan))) as [started Hp].
    { done. } { intros c Hin. apply Hfresh. by right. }
    destruct (promote_loop _ _ _ _ _) as [[running' still] plan']. exists started.
    destruct Hp as [H1 H2 H3 H4 H5 H6 H7 H8 H9]. simpl in *. split.
    + done.
    + set_solver.
    + intros w1 b w2 [(-> & -> & ->)|(w1' & -> & ->)]%cons_split m Hm Hv.
      * rewrite app_nil_r in Hm. apply H2, elem_of_union_r, Hstops. eauto.
      * apply (H3 w1' b w2 eq_refl m); [|done]. by rewrite <- app_assoc.
    + intros id [[Hid|Hid]%elem_of_union|(w1 & b & w2 & m & -> & Hm & Hv & <-)]%H4; [by left| |].
      * apply Hstops in Hid as (m & Hm & Hv & <-). right. exists [], w, waiting, m. by rewrite app_nil_r.
      * right. exists (w :: w1), b, w2, m. rewrite <- app_assoc in Hm. done.
    + rewrite H5. apply Permutation_middle.
    + by constructor.
    + by constructor.
    + done.
    + intros w1 b w2 [(-> & -> & ->)|(w1' & -> & ->)]%cons_split.
      * right. split; [by left|]. rewrite app_nil_r.
        destruct (List.existsb (contends w) (List.filter (is_visible dialog w) preds)) eqn:He.
        { apply existsb_exists in He as (m & Hm%list_elem_of_In & Hcm). apply visible_spec in Hm as [Hm Hv]. eauto. }
        exfalso. assert (false = true) as Hf; [|done]. apply Hcan. intros m Hm.
        destruct (contends w m) eqn:Hcm; [|done]. rewrite <- He. symmetry. apply existsb_exists.
        exists m. split; [by apply list_elem_of_In|done].
      * destruct (H9 w1' b w2 eq_refl) as [[Hs Hm]|[Hs Hm]]; rewrite <- app_assoc in Hm; simpl in Hm.
        -- left. by split.
        -- right. split; [by right|done].
Qed.

(** ** Runs of the pool *)

Inductive pool_op :=
  | OSchedule (context : option Context)
  | OCancel (contextId : Z)
  | ODelete (contextId : Z)
  | OCancelAll
  | ONotify
  | ORun (answer : bool * Z).

Section Runs.
Context {O : Type} `{ContextObjectLaws O}.
Implicit Types (p : CtxPool O) (plan : AdmissionPlan) (dialog : Z → bool).

(** An operation, with the sudo dialogs shown at that moment. *)
Definition pool_step p (op : (Z → bool) * pool_op) : CtxPool O :=
  match op.2 with
  | OSchedule context => (Schedule op.1 true p context).1
  | OCancel contextId => Cancel true p contextId
  | ODelete contextId => (Delete op.1 true p contextId).1
  | OCancelAll => CancelAll true p
  | ONotify => NotifyPreemptStateChanged op.1 true p
  | ORun answer => run_next answer p
  end.

Definition pool_run p (ops : list ((Z → bool) * pool_op)) : CtxPool O := foldl pool_step p ops.

(** The contexts offered to the pool. *)
Definition offered (op : (Z → bool) * pool_op) : option Context :=
  match op.2 with OSchedule c => c | _ => None end.

Definition start_id (t : Task) : option Z := match t with TStart i => Some i | _ => None end.
Definition starts (ts : list Task) : list Z := omap start_id ts.

Definition sep (ts : list Task) (a b : Z) : Prop :=
  ∃ l1 l2, ts = l1 ++ l2 ∧ TStop a ∈ l1 ∧ b ∉ starts l1.

(** What holds whatever is offered: a context is filed once, under its id. *)
Record pool_wf p : Prop := {
  ok_keys : ∀ i c, runningContexts_ p !! i = Some c → c_id c = i;
  ok_waiting : NoDup (c_id <$> waitingFifo_ p);
  ok_disjoint : ∀ c, c ∈ waitingFifo_ p → runningContexts_ p !! c_id c = None;
  ok_bound : Z.of_nat (size (runningContexts_ p)) + Z.of_nat (length (waitingFifo_ p)) ≤ MAX_CONTEXT_NUM;
  ok_blocked : ∀ w1 b w2, waitingFifo_ p = w1 ++ b :: w2 →
    ∃ m, m ∈ contexts_of (runningContexts_ p) ++ w1 ∧ contends b m = true;
}.

(** What holds besides when no id is offered twice; [seen] are the ids
    offered so far. *)
Record pool_ok (seen : gset Z) p : Prop := {
  ok_seen_running : ∀ i, is_Some (runningContexts_ p !! i) → i ∈ seen;
  ok_seen_waiting : ∀ c, c ∈ waitingFifo_ p → c_id c ∈ seen;
  ok_starts : NoDup (starts (posted_ p));
  ok_started_seen : ∀ i, i ∈ starts (posted_ p) → i ∈ seen;
  ok_started_waiting : ∀ c, c ∈ waitingFifo_ p → c_id c ∉ starts (posted_ p);
  ok_apart : ∀ i j a b, runningContexts_ p !! i = Some a → runningContexts_ p !! j = Some b →
    i ≠ j → contends a b = true → sep (posted_ p) i j ∨ sep (posted_ p) j i;
}.

Lemma starts_app l1 l2 : starts (l1 ++ l2) = starts l1 ++ starts l2.
Proof. apply omap_app. Qed.

Lemma sep_app ts ts' a b : sep ts a b → sep (ts ++ ts') a b.
Proof. intros (l1 & l2 & -> & H1 & H2). exists l1, (l2 ++ ts'). by rewrite <- app_assoc. Qed.

Lemma starts_plan plan : starts (plan_tasks plan) = c_id <$> toStart plan.
Proof.
  unfold plan_tasks. rewrite starts_app.
  assert (∀ l, starts (TStop <$> l) = []) as -> by (induction l; done).
  simpl. induction (toStart plan) as [|c l IH]; [done|]. simpl. by f_equal.
Qed.

Lemma stop_in_plan plan i : TStop i ∈ (TStop <$> merge_sort Z.le (elements (toStop plan))) ↔ i ∈ toStop plan.
Proof.
  rewrite list_elem_of_fmap. rewrite <- elem_of_elements. split.
  - intros (j & [= <-] & Hj). by rewrite merge_sort_Permutation in Hj.
  - intros Hi. exists i. split; [done|]. by rewrite merge_sort_Permutation.
Qed.

Lemma contexts_of_elem (running : gmap Z Context) c :
  c ∈ contexts_of running ↔ ∃ i, running !! i = Some c.
Proof.
  unfold contexts_of. rewrite list_elem_of_fmap. split.
  - intros ([i c'] & -> & Hin%elem_of_map_to_list). eauto.
  - intros [i Hi]. exists (i, c). by rewrite elem_of_map_to_list.
Qed.

(** Admission, as the rest of the pool sees it. *)
Record admitted dialog p p' (started : list Context) : Prop := {
  ad_waiting : waitingFifo_ p ≡ₚ started ++ waitingFifo_ p';
  ad_order : started `sublist_of` waitingFifo_ p;
  ad_still : waitingFifo_ p' `sublist_of` waitingFifo_ p;
  ad_running : runningContexts_ p' = runningContexts_ p ∪ list_to_map ((λ c, (c_id c, c)) <$> started);
  ad_posted : ∃ stops, posted_ p' = posted_ p ++ stops ++ ((λ c, TStart (c_id c)) <$> started) ∧
    starts stops = [] ∧
    ∀ w1 b w2, waitingFifo_ p = w1 ++ b :: w2 →
      (b ∈ started ∧ ∀ m, m ∈ contexts_of (runningContexts_ p) ++ w1 → contends b m = true →
         TStop (c_id m) ∈ stops) ∨
      (b ∈ waitingFifo_ p' ∧ ∃ m, m ∈ contexts_of (runningContexts_ p) ++ w1 ∧
         is_visible dialog b m = true ∧ contends b m = true);
  ad_rest : cancelRequestedIds_ p' = cancelRequestedIds_ p ∧ executed_ p' = executed_ p ∧
    objects_ p' = objects_ p ∧ effects_ p' = effects_ p;
}.

Lemma promote_admits dialog p :
  NoDup (c_id <$> waitingFifo_ p) → (∀ c, c ∈ waitingFifo_ p → runningContexts_ p !! c_id c = None) →
  ∃ started, admitted dialog p (promote_and_execute dialog true p) started.
Proof.
  intros Hnd Hdis. unfold promote_and_execute, PromoteWaitingLocked.
  destruct (decide (waitingFifo_ p = [])) as [Hw|Hw].
  { exists []. unfold ExecutePlan. simpl. rewrite decide_True by done.
    split; [done|apply sublist_nil_l|done|symmetry; apply map_union_empty| |done].
    exists []. simpl. rewrite app_nil_r. split; [done|]. split; [done|]. rewrite Hw. by intros [|]. }
  destruct (promote_loop_spec dialog (waitingFifo_ p) (contexts_of (runningContexts_ p)) (runningContexts_ p)
    (mkPlan ∅ []) Hnd Hdis) as [started Hp].
  destruct (promote_loop _ _ _ _ _) as [[running still] plan]. exists started.
  destruct Hp as [H1 H2 H3 H4 H5 H6 H7 H8 H9]. simpl in H1.
  assert (posted_ (ExecutePlan true (with_contexts p running still) plan) = posted_ p ++ plan_tasks plan ∧
    runningContexts_ (ExecutePlan true (with_contexts p running still) plan) = running ∧
    waitingFifo_ (ExecutePlan true (with_contexts p running still) plan) = still ∧
    cancelRequestedIds_ (ExecutePlan true (with_contexts p running still) plan) = cancelRequestedIds_ p ∧
    executed_ (ExecutePlan true (with_contexts p running still) plan) = executed_ p ∧
    objects_ (ExecutePlan true (with_contexts p running still) plan) = objects_ p ∧
    effects_ (ExecutePlan true (with_contexts p running still) plan) = effects_ p)
    as (E1 & E2 & E3 & E4 & E5 & E6 & E7).
  { unfold ExecutePlan. case_decide as He; [|done]. destruct He as [He1 He2]. simpl.
    split; [|done]. unfold plan_tasks. rewrite He1, He2, elements_empty. simpl. by rewrite app_nil_r. }
  split; rewrite ?E1, ?E2, ?E3; try done.
  exists (TStop <$> merge_sort Z.le (elements (toStop plan))). unfold plan_tasks. rewrite H1. split; [done|].
  split; [induction (merge_sort Z.le _); done|].
  intros w1 b w2 Hsplit. destruct (H9 w1 b w2 Hsplit) as [[Hs Hm]|[Hs Hm]]; [left|by right].
  split; [done|]. intros m Hin Hcon. apply stop_in_plan. by apply Hm.
Qed.

Lemma admitted_lookup dialog p p' started i c :
  NoDup (c_id <$> waitingFifo_ p) → (∀ c, c ∈ waitingFifo_ p → runningContexts_ p !! c_id c = None) →
  admitted dialog p p' started →
  runningContexts_ p' !! i = Some c ↔ runningContexts_ p !! i = Some c ∨ c ∈ started ∧ c_id c = i.
Proof.
  intros Hnd Hdis Had. rewrite (ad_running _ _ _ _ Had), lookup_union_Some_raw.
  assert (NoDup ((λ c, (c_id c, c)) <$> started).*1) as Hnds.
  { rewrite <- list_fmap_compose. simpl. eapply sublist_NoDup; [exact Hnd|].
    apply fmap_sublist. apply (ad_order _ _ _ _ Had). }
  assert ((list_to_map ((λ c, (c_id c, c)) <$> started) : gmap Z Context) !! i = Some c ↔ c ∈ started ∧ c_id c = i) as Hl.
  { rewrite <- elem_of_list_to_map by done. rewrite list_elem_of_fmap. naive_solver. }
  rewrite Hl. split; [tauto|]. intros [Hr|[Hin Hi]]; [by left|]. right. split; [|done].
  rewrite <- Hi. apply Hdis. rewrite (ad_waiting _ _ _ _ Had). apply elem_of_app. by left.
Qed.

Lemma size_admitted dialog p p' started :
  NoDup (c_id <$> waitingFifo_ p) → (∀ c, c ∈ waitingFifo_ p → runningContexts_ p !! c_id c = None) →
  admitted dialog p p' started →
  (size (runningContexts_ p') + length (waitingFifo_ p') =
   size (runningContexts_ p) + length (waitingFifo_ p))%nat.
Proof.
  intros Hnd Hdis Had. rewrite (ad_running _ _ _ _ Had), (ad_waiting _ _ _ _ Had), length_app.
  assert (NoDup ((λ c, (c_id c, c)) <$> started).*1) as Hnds.
  { rewrite <- list_fmap_compose. simpl. eapply sublist_NoDup; [exact Hnd|].
    apply fmap_sublist. apply (ad_order _ _ _ _ Had). }
  rewrite map_size_disj_union.
  - rewrite map_size_list_to_map by done. rewrite length_fmap. lia.
  - apply map_disjoint_spec. intros i a b Ha Hb.
    apply elem_of_list_to_map in Hb; [|done]. apply list_elem_of_fmap in Hb as (c & [= -> ->] & Hin).
    rewrite Hdis in Ha; [done|]. rewrite (ad_waiting _ _ _ _ Had). apply elem_of_app. by left.
Qed.

(** A context waiting before another one. *)
Lemma order_cases (l : list Context) a b :
  a ∈ l → b ∈ l → a ≠ b → (∃ w1 w2, l = w1 ++ b :: w2 ∧ a ∈ w1) ∨ (∃ w1 w2, l = w1 ++ a :: w2 ∧ b ∈ w1).
Proof.
  intros (l1 & l2 & ->)%list_elem_of_split Hb Hne.
  apply elem_of_app in Hb as [Hb|Hb]; [right; eauto|]. apply elem_of_cons in Hb as [->|Hb]; [done|].
  apply list_elem_of_split in Hb as (l3 & l4 & ->). left. exists (l1 ++ a :: l3), l4.
  split; [by rewrite <- app_assoc|]. set_solver.
Qed.

Lemma sublist_order (l w1 w2 : list Context) b m :
  NoDup l → l = w1 ++ b :: w2 → m ∈ w1 → ¬ [b; m] `sublist_of` l.
Proof.
  intros Hnd -> Hm (k1 & k2 & Hk & H1 & H2)%sublist_app_r. apply NoDup_app in Hnd as (_ & Hd & _).
  destruct k1 as [|x k1]; simpl in Hk.
  - subst k2. apply (Hd m Hm). eapply elem_of_sublist; [|exact H2]. simpl. set_solver.
  - injection Hk as <- _. apply (Hd b); [|by left].
    eapply elem_of_sublist; [|exact H1]. by left.
Qed.

(** The pool before its queue is looked at again. *)
Record pool_pre p : Prop := {
  pre_keys : ∀ i c, runningContexts_ p !! i = Some c → c_id c = i;
  pre_waiting : NoDup (c_id <$> waitingFifo_ p);
  pre_disjoint : ∀ c, c ∈ waitingFifo_ p → runningContexts_ p !! c_id c = None;
  pre_bound : Z.of_nat (size (runningContexts_ p)) + Z.of_nat (length (waitingFifo_ p)) ≤ MAX_CONTEXT_NUM;
}.

Lemma promote_wf dialog p : pool_pre p → pool_wf (promote_and_execute dialog true p).
Proof.
  intros [K1 K2 K3 K4]. destruct (promote_admits dialog p K2 K3) as [started Had].
  pose proof (admitted_lookup dialog p (promote_and_execute dialog true p) started) as Hrun.
  pose proof (size_admitted dialog p (promote_and_execute dialog true p) started K2 K3 Had) as Hsize.
  set (p' := promote_and_execute dialog true p) in *.
  specialize (λ i c, Hrun i c K2 K3 Had).
  destruct Had as [Hperm Hord Hstill _ (stops & _ & _ & Hadmit) _].
  pose proof K2 as Hnd. rewrite Hperm, fmap_app in Hnd. apply NoDup_app in Hnd as (_ & Hdisj & Hnd2). split.
  - intros i c [Hi|[_ Hi]]%Hrun; [by apply K1|done].
  - done.
  - intros c Hc. apply eq_None_not_Some. intros [c' [Hc'|[Hc' Heq]]%Hrun].
    + rewrite K3 in Hc'; [done|]. rewrite Hperm. apply elem_of_app. by right.
    + apply (Hdisj (c_id c)); [rewrite <- Heq; by apply list_elem_of_fmap_2|by apply list_elem_of_fmap_2].
  - lia.
  - intros w1 b w2 Hw.
    assert (b ∈ waitingFifo_ p) as (v1 & v2 & Hv)%list_elem_of_split.
    { rewrite Hperm, Hw. set_solver. }
    destruct (Hadmit v1 b v2 Hv) as [[Hb _]|(_ & m & Hm & _ & Hcon)].
    { exfalso. apply (Hdisj (c_id b)); apply list_elem_of_fmap_2; [done|]. rewrite Hw. set_solver. }
    exists m. split; [|done]. apply elem_of_app. apply elem_of_app in Hm as [Hm|Hm].
    { left. apply contexts_of_elem in Hm as [i Hi]. apply contexts_of_elem. exists i. apply Hrun. by left. }
    assert (m ∈ waitingFifo_ p) as Hin by (rewrite Hv; set_solver).
    rewrite Hperm in Hin. apply elem_of_app in Hin as [Hin|Hin].
    { left. apply contexts_of_elem. exists (c_id m). apply Hrun. by right. }
    right. rewrite Hw in Hin. apply elem_of_app in Hin as [Hin|Hin]; [done|]. exfalso.
    apply NoDup_fmap_1 in K2. apply elem_of_cons in Hin as [->|Hin].
    + rewrite Hv in K2. apply NoDup_app in K2 as (_ & Hd & _). apply (Hd b Hm). by left.
    + apply (sublist_order _ v1 v2 b m K2 Hv Hm). etrans; [|exact Hstill]. rewrite Hw.
      apply sublist_inserts_l, sublist_skip. apply list_elem_of_split in Hin as (k1 & k2 & ->).
      apply sublist_inserts_l, sublist_skip, sublist_nil_l.
Qed.

Lemma promote_ok dialog seen p :
  pool_pre p → pool_ok seen p → pool_ok seen (promote_and_execute dialog true p).
Proof.
  intros [K1 K2 K3 _] Hok. destruct (promote_admits dialog p K2 K3) as [started Had].
  pose proof (admitted_lookup dialog p (promote_and_execute dialog true p) started) as Hlk.
  set (p' := promote_and_execute dialog true p) in *.
  assert (∀ i c, runningContexts_ p' !! i = Some c ↔ runningContexts_ p !! i = Some c ∨ c ∈ started ∧ c_id c = i)
    as Hrun by (intros; by apply Hlk). clear Hlk.
  pose proof (ad_waiting _ _ _ _ Had) as Hperm.
  assert (∀ c, c ∈ started → c ∈ waitingFifo_ p) as Hst.
  { intros c Hc. rewrite Hperm. apply elem_of_app. by left. }
  assert (∀ c, c ∈ waitingFifo_ p' → c ∈ waitingFifo_ p) as Hstill.
  { intros c Hc. rewrite Hperm. apply elem_of_app. by right. }
  pose proof K2 as Hnd. rewrite Hperm, fmap_app in Hnd.
  apply NoDup_app in Hnd as (Hnd1 & Hdisj & Hnd2).
  destruct (ad_posted _ _ _ _ Had) as (stops & Hposted & Hstops & Hadmit).
  assert (starts (posted_ p') = starts (posted_ p) ++ (c_id <$> started)) as Hstarts.
  { rewrite Hposted, !starts_app, Hstops. simpl. f_equal. clear. induction started as [|c l IH]; [done|].
    simpl. by f_equal. }
  destruct Hok as [K5 K6 K7 K8 K9 K10]. split.
  - intros i [c [Hi|[Hc <-]]%Hrun]; [by apply K5|by apply K6, Hst].
  - auto.
  - rewrite Hstarts. apply NoDup_app. split_and!; [done| |done].
    intros i Hi (c & -> & Hc)%list_elem_of_fmap. by apply (K9 c); [apply Hst|].
  - rewrite Hstarts. intros i [Hi|(c & -> & Hc)%list_elem_of_fmap]%elem_of_app; [by apply K8|by apply K6, Hst].
  - rewrite Hstarts. intros c Hc [Hi|Hi]%elem_of_app; [by apply (K9 c); [apply Hstill|]|].
    by apply (Hdisj (c_id c)); [|apply list_elem_of_fmap_2].
  - assert (∀ a b, b ∈ started → (a ∈ contexts_of (runningContexts_ p) ∨
        ∃ w1 w2, waitingFifo_ p = w1 ++ b :: w2 ∧ a ∈ w1) → contends b a = true →
        sep (posted_ p') (c_id a) (c_id b)) as Hsep.
    { intros a b Hb Ha Hcon.
      assert (∃ w1 w2, waitingFifo_ p = w1 ++ b :: w2 ∧ a ∈ contexts_of (runningContexts_ p) ++ w1) as (w1 & w2 & Hw & Hin).
      { destruct Ha as [Ha|(w1 & w2 & Hw & Ha)].
        - apply Hst, list_elem_of_split in Hb as (w1 & w2 & ->). exists w1, w2. set_solver.
        - exists w1, w2. set_solver. }
      destruct (Hadmit w1 b w2 Hw) as [[_ Hm]|[Hb' _]].
      - exists (posted_ p ++ stops), ((λ c, TStart (c_id c)) <$> started).
        split; [by rewrite Hposted, app_assoc|]. split; [apply elem_of_app; right; by apply Hm|].
        rewrite starts_app, Hstops, app_nil_r. by apply K9, Hst.
      - exfalso. apply (Hdisj (c_id b)); by apply list_elem_of_fmap_2. }
    intros i j a b [Ha|[Ha <-]]%Hrun [Hb|[Hb <-]]%Hrun Hne Hcon.
    + rewrite Hposted. destruct (K10 i j a b Ha Hb Hne Hcon); [left|right]; by apply sep_app.
    + left. rewrite <- (K1 i a Ha). apply Hsep; [done| |by rewrite contends_sym].
      left. apply contexts_of_elem. eauto.
    + right. rewrite <- (K1 j b Hb). apply Hsep; [done| |done]. left. apply contexts_of_elem. eauto.
    + destruct (order_cases (waitingFifo_ p) a b) as [Ho|Ho]; [by apply Hst|by apply Hst|congruence| |].
      * left. apply Hsep; [done|by right|by rewrite contends_sym].
      * right. apply Hsep; [done|by right|done].
Qed.

(** ** Every operation *)

Lemma wf_pre p : pool_wf p → pool_pre p.
Proof. by intros []. Qed.

(** Operations that touch neither the members nor the queue, and post only
    stops. *)
Definition same_members p p' : Prop :=
  runningContexts_ p' = runningContexts_ p ∧ waitingFifo_ p' = waitingFifo_ p ∧
  ∃ stops, posted_ p' = posted_ p ++ stops ∧ starts stops = [].

Lemma same_intro p p' : runningContexts_ p' = runningContexts_ p → waitingFifo_ p' = waitingFifo_ p →
  posted_ p' = posted_ p → same_members p p'.
Proof. intros H1 H2 H3. split; [done|]. split; [done|]. exists []. by rewrite app_nil_r. Qed.

Lemma same_refl p : same_members p p.
Proof. by apply same_intro. Qed.

Lemma same_trans p1 p2 p3 : same_members p1 p2 → same_members p2 p3 → same_members p1 p3.
Proof.
  intros (H1 & H2 & s1 & H3 & H4) (H5 & H6 & s2 & H7 & H8). split; [congruence|]. split; [congruence|].
  exists (s1 ++ s2). rewrite H7, H3, app_assoc, starts_app, H4. by rewrite H8.
Qed.

Lemma same_wf p p' : same_members p p' → pool_wf p → pool_wf p'.
Proof. intros (H1 & H2 & _) [K1 K2 K3 K4 K5]. split; rewrite ?H1, ?H2; done. Qed.

Lemma same_ok seen p p' : same_members p p' → pool_ok seen p → pool_ok seen p'.
Proof.
  intros (H1 & H2 & s & H3 & H4) [K1 K2 K3 K4 K5 K6].
  split; rewrite ?H1, ?H2, ?H3, ?starts_app, ?H4, ?app_nil_r; try done.
  intros i j a b Ha Hb Hne Hc. destruct (K6 i j a b Ha Hb Hne Hc); [left|right]; by apply sep_app.
Qed.

Lemma same_cancel p i : same_members p (Cancel true p i).
Proof. split; [done|]. split; [done|]. by exists [TStop i]. Qed.

Lemma same_cancel_all p : same_members p (CancelAll true p).
Proof.
  unfold CancelAll. generalize ((map_to_list (runningContexts_ p)).*1 ++ (c_id <$> waitingFifo_ p)).
  intros ids. revert p. induction ids as [|i ids IH]; intros p; [apply same_refl|].
  eapply same_trans; [apply (same_cancel p i)|]. apply IH.
Qed.

Lemma same_run_next answer p : same_members p (run_next answer p).
Proof.
  unfold run_next. destruct (posted_ p !! executed_ p) as [[i|i]|]; [| |by apply same_intro].
  - unfold StopIfPooled. destruct (Select _ i) as [c|]; [|by apply same_intro].
    destruct (Stop _ _) as [[? ?] ?]. simpl. by apply same_intro.
  - unfold StartIfPooled. simpl. destruct (runningContexts_ p !! i) as [c|]; [|by apply same_intro].
    case_decide; [by apply same_intro|]. destruct (Start _ _) as [[? ?] ?].
    case_decide; [|destruct (OnStartFailed _ _)]; by apply same_intro.
Qed.

(** Taking a context out. *)
Lemma remove_waiting_sublist i ws : remove_waiting i ws `sublist_of` ws.
Proof.
  induction ws as [|c ws IH]; simpl; [done|]. case_decide; [by apply sublist_cons|by apply sublist_skip].
Qed.

Lemma shrink_pre p running waiting :
  pool_pre p → running ⊆ runningContexts_ p → waiting `sublist_of` waitingFifo_ p →
  pool_pre (with_contexts p running waiting).
Proof.
  intros [K1 K2 K3 K4] Hr Hw. split; simpl.
  - intros i c Hi. apply K1. by eapply lookup_weaken.
  - eapply sublist_NoDup; [exact K2|by apply fmap_sublist].
  - intros c Hc. eapply lookup_weaken_None; [|exact Hr]. apply K3. by eapply elem_of_sublist.
  - apply map_subseteq_size in Hr. apply sublist_length in Hw. lia.
Qed.

Lemma shrink_ok seen p running waiting :
  pool_ok seen p → running ⊆ runningContexts_ p → waiting `sublist_of` waitingFifo_ p →
  pool_ok seen (with_contexts p running waiting).
Proof.
  intros [K1 K2 K3 K4 K5 K6] Hr Hw. split; simpl; try done.
  - intros i [c Hi]. apply K1. exists c. by eapply lookup_weaken.
  - intros c Hc. apply K2. by eapply elem_of_sublist.
  - intros c Hc. apply K5. by eapply elem_of_sublist.
  - intros i j a b Ha Hb. apply K6; by eapply lookup_weaken.
Qed.

(** Filing a request. *)
Lemma SelectLocked_None p i : SelectLocked p i = None →
  runningContexts_ p !! i = None ∧ ∀ c, c ∈ waitingFifo_ p → c_id c ≠ i.
Proof.
  unfold SelectLocked. destruct (runningContexts_ p !! i); [done|]. intros Hf. split; [done|].
  intros c Hc Hi. apply list_elem_of_In in Hc. pose proof (find_none _ _ Hf c Hc) as Hn. simpl in Hn.
  by apply bool_decide_eq_false in Hn.
Qed.

Lemma enqueue_pre p c :
  pool_pre p → SelectLocked p (c_id c) = None →
  Z.of_nat (size (runningContexts_ p)) + Z.of_nat (length (waitingFifo_ p)) < MAX_CONTEXT_NUM →
  pool_pre (with_contexts p (runningContexts_ p) (waitingFifo_ p ++ [c])).
Proof.
  intros [K1 K2 K3 K4] [Hr Hw]%SelectLocked_None Hlt. split; simpl.
  - done.
  - rewrite fmap_app. apply NoDup_app. split; [done|]. split; [|apply NoDup_singleton].
    intros i (c' & -> & Hc')%list_elem_of_fmap Hin. simpl in Hin. apply list_elem_of_singleton in Hin.
    by apply (Hw c' Hc').
  - intros c' [Hc'| ->%list_elem_of_singleton]%elem_of_app; [by apply K3|done].
  - rewrite length_app. simpl. lia.
Qed.

Lemma enqueue_ok seen p c :
  pool_ok seen p → c_id c ∉ seen →
  pool_ok ({[c_id c]} ∪ seen) (with_contexts p (runningContexts_ p) (waitingFifo_ p ++ [c])).
Proof.
  intros [K1 K2 K3 K4 K5 K6] Hfresh. split; simpl; try done.
  - intros i Hi. apply elem_of_union_r. by apply K1.
  - intros c' [Hc'| ->%list_elem_of_singleton]%elem_of_app; [|set_solver]. apply elem_of_union_r. by apply K2.
  - intros i Hi. apply elem_of_union_r. by apply K4.
  - intros c' [Hc'| ->%list_elem_of_singleton]%elem_of_app; [by apply K5|]. intros Hin. by apply Hfresh, K4.
Qed.

Lemma ok_mono seen seen' p : seen ⊆ seen' → pool_ok seen p → pool_ok seen' p.
Proof. intros Hs [K1 K2 K3 K4 K5 K6]. split; auto. Qed.

Lemma step_wf p op : pool_wf p → pool_wf (pool_step p op).
Proof.
  intros Hwf. pose proof (wf_pre p Hwf) as Hpre. destruct op as [dialog [[c|]|i|i| | |answer]]; simpl.
  - unfold pool_step, Schedule. simpl. case_decide as Hb; [done|]. case_decide as Hs; [done|]. simpl.
    apply promote_wf, enqueue_pre; [done| |lia]. destruct (SelectLocked p (c_id c)); [by destruct Hs|done].
  - done.
  - apply (same_wf p); [apply same_cancel|done].
  - unfold pool_step, Delete. simpl. case_decide; [done|]. simpl.
    apply promote_wf, shrink_pre; [done|apply delete_subseteq|apply remove_waiting_sublist].
  - apply (same_wf p); [apply same_cancel_all|done].
  - by apply promote_wf.
  - apply (same_wf p); [apply same_run_next|done].
Qed.

Lemma step_ok seen p op :
  pool_wf p → pool_ok seen p → (∀ c, offered op = Some c → c_id c ∉ seen) →
  pool_ok (match offered op with Some c => {[c_id c]} ∪ seen | None => seen end) (pool_step p op).
Proof.
  intros Hwf Hok Hfresh. pose proof (wf_pre p Hwf) as Hpre.
  destruct op as [dialog [[c|]|i|i| | |answer]]; simpl.
  - unfold pool_step, Schedule. simpl. assert (pool_ok ({[c_id c]} ∪ seen) p) as Hmono.
    { eapply ok_mono; [|done]. set_solver. }
    case_decide as Hb; [done|]. case_decide as Hs; [done|]. simpl. specialize (Hfresh c eq_refl).
    apply promote_ok; [|by apply enqueue_ok].
    apply enqueue_pre; [done| |lia]. destruct (SelectLocked p (c_id c)); [by destruct Hs|done].
  - done.
  - apply (same_ok seen p); [apply same_cancel|done].
  - unfold pool_step, Delete. simpl. case_decide; [done|]. simpl.
    apply promote_ok; [apply shrink_pre|apply shrink_ok]; try done;
      first [apply delete_subseteq|apply remove_waiting_sublist].
  - apply (same_ok seen p); [apply same_cancel_all|done].
  - by apply promote_ok.
  - apply (same_ok seen p); [apply same_run_next|done].
Qed.

Definition pool_new (objects : Z → O) : CtxPool O := mkPool ∅ [] ∅ [] 0 objects [].

Lemma new_wf objects : pool_wf (pool_new objects).
Proof. split; simpl; try done; [by apply NoDup_nil|by intros [|]]. Qed.

Lemma run_wf p ops : pool_wf p → pool_wf (pool_run p ops).
Proof. revert p. induction ops as [|op ops IH]; intros p Hp; [done|]. by apply IH, step_wf. Qed.

Lemma new_ok objects : pool_ok ∅ (pool_new objects).
Proof.
  split; simpl; try done; try apply NoDup_nil_2; try by intros ? ?%not_elem_of_nil.
  by intros i [c Hc].
Qed.

(** The ids offered by a sequence of operations. *)
Definition ids_of (ops : list ((Z → bool) * pool_op)) : list Z := c_id <$> omap offered ops.

Lemma run_ok seen p ops :
  pool_wf p → pool_ok seen p → NoDup (ids_of ops) → (∀ i, i ∈ ids_of ops → i ∉ seen) →
  pool_ok (list_to_set (ids_of ops) ∪ seen) (pool_run p ops).
Proof.
  revert seen p. induction ops as [|op ops IH]; intros seen p Hwf Hok Hnd Hfresh.
  { eapply ok_mono; [|exact Hok]. set_solver. }
  pose proof (step_ok seen p op Hwf Hok) as Hstep. unfold ids_of in *. simpl in *.
  destruct (offered op) as [c|] eqn:Ho; simpl in *.
  - apply NoDup_cons in Hnd as [Hc Hnd].
    eapply ok_mono; [|apply (IH ({[c_id c]} ∪ seen))]; [set_solver|by apply step_wf| |done|].
    + apply Hstep. intros c' [= <-]. apply Hfresh. by left.
    + intros i Hi. rewrite not_elem_of_union, not_elem_of_singleton.
      split; [by intros ->|]. apply Hfresh. by right.
  - apply IH; [by apply step_wf| |done|done]. by apply Hstep.
Qed.

(** ** Who is in the pool, and what happens to their objects *)

Definition pooled p (c : Context) : Prop := c ∈ contexts_of (runningContexts_ p) ∨ c ∈ waitingFifo_ p.

Lemma SelectLocked_Some p i c : pool_wf p → SelectLocked p i = Some c → pooled p c ∧ c_id c = i.
Proof.
  intros Hwf. unfold SelectLocked. destruct (runningContexts_ p !! i) as [c'|] eqn:Hi.
  - intros [= ->]. split; [left; apply contexts_of_elem; eauto|by apply (ok_keys _ Hwf)].
  - intros Hf. apply find_some in Hf as [Hin Hc]. apply bool_decide_eq_true in Hc.
    split; [right; by apply list_elem_of_In|done].
Qed.

Lemma promote_pooled dialog p c :
  pool_pre p → pooled (promote_and_execute dialog true p) c ↔ pooled p c.
Proof.
  intros [K1 K2 K3 K4]. destruct (promote_admits dialog p K2 K3) as [started Had].
  unfold pooled. rewrite !contexts_of_elem. rewrite (ad_waiting _ _ _ _ Had), elem_of_app.
  setoid_rewrite (admitted_lookup dialog p _ started _ _ K2 K3 Had). naive_solver.
Qed.

Lemma promote_rest dialog p : pool_pre p →
  let p' := promote_and_execute dialog true p in
  cancelRequestedIds_ p' = cancelRequestedIds_ p ∧ objects_ p' = objects_ p ∧ effects_ p' = effects_ p.
Proof.
  intros [K1 K2 K3 K4]. destruct (promote_admits dialog p K2 K3) as [started Had].
  destruct (ad_rest _ _ _ _ Had) as (H1 & _ & H2 & H3). done.
Qed.

Lemma cancel_all_rest p : let p' := CancelAll true p in
  cancelRequestedIds_ p ⊆ cancelRequestedIds_ p' ∧ objects_ p' = objects_ p ∧ effects_ p' = effects_ p.
Proof.
  unfold CancelAll. generalize ((map_to_list (runningContexts_ p)).*1 ++ (c_id <$> waitingFifo_ p)).
  intros ids. revert p. induction ids as [|i ids IH]; intros p; simpl; [done|].
  destruct (IH (Cancel true p i)) as (H1 & H2 & H3). simpl in *. split; [|done].
  etrans; [|exact H1]. set_solver.
Qed.

Lemma same_pooled p p' c : same_members p p' → pooled p' c ↔ pooled p c.
Proof. intros (H1 & H2 & _). unfold pooled. by rewrite H1, H2. Qed.

Lemma NoDup_fmap_elem {A B} (f : A → B) (l : list A) x y :
  NoDup (f <$> l) → x ∈ l → y ∈ l → f x = f y → x = y.
Proof.
  intros Hnd [i Hi]%list_elem_of_lookup [j Hj]%list_elem_of_lookup Heq.
  assert (i = j) as <-; [|congruence]. eapply NoDup_lookup; [exact Hnd|by rewrite list_lookup_fmap, Hi|].
  by rewrite list_lookup_fmap, Hj, Heq.
Qed.

(** Every member was offered. *)
Lemma step_pooled p op c :
  pool_wf p → pooled (pool_step p op) c → pooled p c ∨ offered op = Some c.
Proof.
  intros Hwf. pose proof (wf_pre p Hwf) as Hpre. destruct op as [dialog [[c'|]|i|i| | |answer]]; simpl.
  - unfold pool_step, Schedule. simpl. case_decide as Hb; [by left|]. case_decide as Hs; [by left|]. simpl.
    rewrite promote_pooled.
    + unfold pooled. simpl. set_solver.
    + apply enqueue_pre; [done| |lia]. destruct (SelectLocked p (c_id c')); [by destruct Hs|done].
  - by left.
  - rewrite (same_pooled p); [by left|apply same_cancel].
  - unfold pool_step, Delete. simpl. case_decide; [by left|]. simpl. rewrite promote_pooled.
    + unfold pooled. rewrite !contexts_of_elem. simpl. intros [[j Hj]|Hj]; left.
      * left. apply lookup_delete_Some in Hj as [_ Hj]. eauto.
      * right. eapply elem_of_sublist; [exact Hj|apply remove_waiting_sublist].
    + apply shrink_pre; [done|apply delete_subseteq|apply remove_waiting_sublist].
  - rewrite (same_pooled p); [by left|apply same_cancel_all].
  - unfold pool_step, NotifyPreemptStateChanged. simpl. rewrite promote_pooled by done. by left.
  - rewrite (same_pooled p); [by left|apply same_run_next].
Qed.

Lemma run_pooled p ops c :
  pool_wf p → pooled (pool_run p ops) c → pooled p c ∨ c ∈ omap offered ops.
Proof.
  revert p. induction ops as [|op ops IH]; intros p Hwf Hc; [by left|].
  destruct (IH (pool_step p op) (step_wf p op Hwf) Hc) as [Hs|Hs].
  - destruct (step_pooled p op c Hwf Hs) as [Hp|Hp]; [by left|right]. simpl. rewrite Hp. by left.
  - right. simpl. destruct (offered op); [by right|done].
Qed.

(** Object [h] belongs to the context of id [i] alone, and will not begin:
    it never can, its context is gone, or a cancellation of it is recorded. *)
Record quiet (h i : Z) p : Prop := {
  q_own : ∀ c, pooled p c → c_id c = i ↔ c_object c = h;
  q_why : never_begins (objects_ p h) ∨ (∀ c, pooled p c → c_id c ≠ i) ∨
    i ∈ cancelRequestedIds_ p ∧ ¬ begun (objects_ p h);
}.

Definition silent (h : Z) p p' : Prop :=
  ∃ l, effects_ p' = effects_ p ++ l ∧ (h, EOnStart) ∉ l.

Lemma silent_same h p p' : effects_ p' = effects_ p → silent h p p'.
Proof. intros Heq. exists []. rewrite app_nil_r. split; [done|apply not_elem_of_nil]. Qed.

Lemma quiet_weaken h i p p' :
  quiet h i p → (∀ c, pooled p' c → pooled p c ∨ c_id c ≠ i ∧ c_object c ≠ h) →
  cancelRequestedIds_ p ⊆ cancelRequestedIds_ p' → objects_ p' h = objects_ p h → quiet h i p'.
Proof.
  intros [Q1 Q2] Hc Hs Ho. split.
  - intros c [Hp|[H1 H2]]%Hc; [by apply Q1|tauto].
  - rewrite Ho. destruct Q2 as [Q2|[Q2|[Q2 Q3]]]; [by left| |].
    + right; left. intros c [Hp|[H1 H2]]%Hc; [by apply Q2|done].
    + right; right. split; [by apply Hs|done].
Qed.

(** A task that works on another object leaves [h] alone. *)
Lemma with_object_other h k p o effs : k ≠ h →
  objects_ (with_object p k o effs) h = objects_ p h ∧ silent h p (with_object p k o effs).
Proof.
  intros Hne. simpl. rewrite decide_False by done. split; [done|]. exists ((k,.) <$> effs). split; [done|].
  intros (e & [= Heq _] & _)%list_elem_of_fmap. done.
Qed.

Lemma with_object_silent h p o effs : EOnStart ∉ effs → silent h p (with_object p h o effs).
Proof.
  intros Hn. exists ((h,.) <$> effs). split; [done|]. intros (e & [= <-] & Hin)%list_elem_of_fmap. done.
Qed.

Lemma stop_quiet h i answer p j :
  pool_wf p → quiet h i p → let p' := (StopIfPooled answer p j).1 in quiet h i p' ∧ silent h p p'.
Proof.
  intros Hwf [Q1 Q2]. unfold StopIfPooled.
  set (p1 := with_cancel p (cancelRequestedIds_ p ∖ {[j]})).
  assert (∀ c, Select p1 j = Some c → pooled p c ∧ c_id c = j) as Hsel
    by exact (λ c, SelectLocked_Some p j c Hwf).
  assert (Select p1 j = None → ∀ c, pooled p c → c_id c ≠ j) as Hnone.
  { intros [Hr Hw]%SelectLocked_None c [[k Hk]%contexts_of_elem|Hc] Hid; [|by apply (Hw c)].
    simpl in Hr. rewrite (ok_keys _ Hwf k c Hk) in Hid. congruence. }
  destruct (Select p1 j) as [c|].
  - destruct (Hsel c eq_refl) as [Hc Hid]. destruct (Stop _ _) as [[o ret] effs] eqn:Hstop. simpl.
    apply Stop_law in Hstop as (L1 & L2 & L3 & L4). simpl in *.
    destruct (decide (c_object c = h)) as [Heq|Hne].
    + rewrite Heq in *. split; [|by apply (with_object_silent h p1)].
      split; [exact Q1|]. left. simpl. rewrite decide_True by done.
      destruct Q2 as [Q2|[Q2|[_ Q2]]]; [by apply L3| |by apply L2].
      exfalso. apply (Q2 c Hc), Q1; done.
    + destruct (with_object_other h (c_object c) p1 o effs Hne) as [Ho Hs]. split; [|exact Hs].
      split; [exact Q1|]. rewrite Ho. destruct Q2 as [Q2|[Q2|[Q2 Q3]]]; [by left|right; by left|].
      right; right. split; [|done]. simpl. apply elem_of_difference. split; [done|].
      rewrite elem_of_singleton. intros ->. apply Hne, Q1; done.
  - split; [|by apply silent_same]. specialize (Hnone eq_refl). split; [exact Q1|].
    destruct (decide (j = i)) as [->|Hne]; [right; left; exact Hnone|].
    destruct Q2 as [Q2|[Q2|[Q2 Q3]]]; [by left|right; by left|]. right; right. simpl. set_solver.
Qed.

Lemma start_quiet h i answer p j :
  pool_wf p → quiet h i p → let p' := StartIfPooled answer p j in quiet h i p' ∧ silent h p p'.
Proof.
  intros Hwf Hq. unfold StartIfPooled.
  destruct (runningContexts_ p !! j) as [c|] eqn:Hj; [|split; [done|by apply silent_same]].
  case_decide as Hcan; [split; [done|by apply silent_same]|]. destruct Hq as [Q1 Q2].
  assert (pooled p c) as Hc by (left; apply contexts_of_elem; eauto).
  pose proof (ok_keys _ Hwf j c Hj) as Hid.
  destruct (Start _ _) as [[o ret] effs] eqn:Hstart. apply Start_law in Hstart as (L1 & L2 & L3 & L4).
  assert (∃ o' effs', (if decide (ret = true) then with_object p (c_object c) o effs else
      (let '(o, effs') := OnStartFailed o (GetLatestError o) in with_object p (c_object c) o (effs ++ effs'))) =
      with_object p (c_object c) o' effs' ∧ (EOnStart ∈ effs' → EOnStart ∈ effs) ∧
      (never_begins o → never_begins o') ∧ (begun o ↔ begun o')) as (o' & effs' & Heq & E1 & E2 & E3).
  { case_decide; [by exists o, effs|]. destruct (OnStartFailed o (GetLatestError o)) as [o' effs'] eqn:Hf.
    apply OnStartFailed_law in Hf as (F1 & F2 & F3). exists o', (effs ++ effs'). split; [done|].
    split; [|done]. by intros [|]%elem_of_app. }
  simpl. rewrite Heq. clear Heq. destruct (decide (c_object c = h)) as [Hh|Hne].
  - rewrite Hh in *. assert (never_begins (objects_ p h)) as Hn.
    { destruct Q2 as [Q2|[Q2|[Q2 _]]]; [done| |].
      - exfalso. apply (Q2 c Hc), Q1; done.
      - exfalso. apply Hcan. assert (c_id c = i) by (by apply Q1). congruence. }
    split; [|apply with_object_silent; intros Hin%E1%L1; tauto].
    split; [exact Q1|]. left. simpl. rewrite decide_True by done. by apply E2, L2.
  - destruct (with_object_other h (c_object c) p o' effs' Hne) as [Ho Hs]. split; [|exact Hs].
    split; [exact Q1|]. rewrite Ho. exact Q2.
Qed.

Lemma step_quiet h i p op :
  pool_wf p → quiet h i p → (∀ c, offered op = Some c → c_id c ≠ i ∧ c_object c ≠ h) →
  quiet h i (pool_step p op) ∧ silent h p (pool_step p op).
Proof.
  intros Hwf Hq Hnew. pose proof (wf_pre p Hwf) as Hpre.
  assert (∀ c, pooled (pool_step p op) c → pooled p c ∨ c_id c ≠ i ∧ c_object c ≠ h) as Hin.
  { intros c [Hc|Hc]%step_pooled; [by left|right; by apply Hnew|done]. }
  assert (cancelRequestedIds_ p ⊆ cancelRequestedIds_ (pool_step p op) →
    objects_ (pool_step p op) = objects_ p → effects_ (pool_step p op) = effects_ p →
    quiet h i (pool_step p op) ∧ silent h p (pool_step p op)) as Hdone.
  { intros H1 H2 H3. split; [|by apply silent_same]. eapply quiet_weaken; [exact Hq|done..|by rewrite H2]. }
  destruct op as [dialog [[c|]|j|j| | |answer]].
  - revert Hdone. unfold pool_step, Schedule. simpl. case_decide as Hb; [auto|]. case_decide as Hs; [auto|]. simpl.
    destruct (promote_rest dialog (with_contexts p (runningContexts_ p) (waitingFifo_ p ++ [c]))) as (-> & -> & ->).
    { apply enqueue_pre; [done| |lia]. destruct (SelectLocked p (c_id c)); [by destruct Hs|done]. }
    auto.
  - by apply Hdone.
  - apply Hdone; [|done..]. simpl. set_solver.
  - revert Hdone. unfold pool_step, Delete. simpl. case_decide; [auto|]. simpl.
    destruct (promote_rest dialog (with_contexts p (delete j (runningContexts_ p)) (remove_waiting j (waitingFifo_ p))))
      as (-> & -> & ->).
    { apply shrink_pre; [done|apply delete_subseteq|apply remove_waiting_sublist]. }
    auto.
  - apply Hdone; apply cancel_all_rest.
  - destruct (promote_rest dialog p Hpre) as (H1 & H2 & H3). apply Hdone; [|done..].
    change (cancelRequestedIds_ p ⊆ cancelRequestedIds_ (promote_and_execute dialog true p)). by rewrite H1.
  - clear Hdone Hin. unfold pool_step, run_next. simpl.
    destruct (posted_ p !! executed_ p) as [[j|j]|]; [| |split; [done|by apply silent_same]].
    + apply (stop_quiet h i answer (mkPool (runningContexts_ p) (waitingFifo_ p) (cancelRequestedIds_ p)
        (posted_ p) (S (executed_ p)) (objects_ p) (effects_ p)) j); [|by destruct Hq].
      apply (same_wf p); [by apply same_intro|done].
    + apply (start_quiet h i answer (mkPool (runningContexts_ p) (waitingFifo_ p) (cancelRequestedIds_ p)
        (posted_ p) (S (executed_ p)) (objects_ p) (effects_ p)) j); [|by destruct Hq].
      apply (same_wf p); [by apply same_intro|done].
Qed.

Lemma run_quiet h i p ops :
  pool_wf p → quiet h i p → (∀ c, c ∈ omap offered ops → c_id c ≠ i ∧ c_object c ≠ h) →
  silent h p (pool_run p ops).
Proof.
  revert p. induction ops as [|op ops IH]; intros p Hwf Hq Hnew; [by apply silent_same|].
  destruct (step_quiet h i p op Hwf Hq) as [Hq' (l1 & He1 & Hl1)].
  { intros c Hc. apply Hnew. simpl. rewrite Hc. by left. }
  destruct (IH (pool_step p op)) as (l2 & He2 & Hl2); [by apply step_wf|done| |].
  { intros c Hc. apply Hnew. simpl. destruct (offered op); [by right|done]. }
  exists (l1 ++ l2). split; [change (pool_run p (op :: ops)) with (pool_run (pool_step p op) ops)|].
  - by rewrite He2, He1, app_assoc.
  - rewrite elem_of_app. tauto.
Qed.
End Runs.

(** ** The promises of the pool *)

Section Promises.
Context {O : Type} `{ContextObjectLaws O}.

(** C29: Whatever is asked of the pool, it never holds more than 100 contexts,
    each is filed once, under its own id, and is either running or waiting. *)
Theorem pool_bounded (objects : Z → O) (ops : list ((Z → bool) * pool_op)) :
  let p := pool_run (pool_new objects) ops in
  Z.of_nat (size (runningContexts_ p)) + Z.of_nat (length (waitingFifo_ p)) ≤ MAX_CONTEXT_NUM ∧
  (∀ i c, runningContexts_ p !! i = Some c → c_id c = i) ∧
  NoDup (c_id <$> contexts_of (runningContexts_ p) ++ waitingFifo_ p).
Proof.
  intros p. assert (pool_wf p) as [K1 K2 K3 K4 _] by apply run_wf, new_wf.
  split; [done|]. split; [done|]. rewrite fmap_app. apply NoDup_app. split; [|split; [|done]].
  - assert (c_id <$> contexts_of (runningContexts_ p) = (map_to_list (runningContexts_ p)).*1) as ->.
    { unfold contexts_of. rewrite <- list_fmap_compose. apply list_fmap_ext. intros k [i c] Hk. simpl.
      apply K1. apply elem_of_map_to_list. by eapply list_elem_of_lookup_2. }
    apply NoDup_fst_map_to_list.
  - intros i (c & -> & [j Hj]%contexts_of_elem)%list_elem_of_fmap (c' & Heq & Hc')%list_elem_of_fmap.
    rewrite (K1 j c Hj) in Heq. rewrite <- (K1 j c Hj) in Heq. specialize (K3 c' Hc').
    rewrite <- Heq, (K1 j c Hj) in K3. congruence.
Qed.

(** C30: The pool never leaves a request waiting for nothing: each one in the
    queue contends, as a PIN authentication of the same user with a sudo
    authentication involved, with a running context or with one before it in
    the queue. In particular the head of the queue waits for a running
    context, and an idle pool has an empty queue. *)
Theorem pool_work_conserving (objects : Z → O) (ops : list ((Z → bool) * pool_op)) w1 b w2 :
  let p := pool_run (pool_new objects) ops in
  waitingFifo_ p = w1 ++ b :: w2 →
  ∃ m, m ∈ contexts_of (runningContexts_ p) ++ w1 ∧ contends b m = true.
Proof. intros p. apply ok_blocked, run_wf, new_wf. Qed.

(** C31: As long as no id is offered twice: no context is started twice, a
    waiting one has not been started, and two running contexts that contend
    for the PIN of a user are kept apart, since the service thread was told
    to stop one of them before it was told to start the other. *)
Theorem pool_sudo_pin_exclusion (objects : Z → O) (ops : list ((Z → bool) * pool_op)) :
  NoDup (ids_of ops) →
  let p := pool_run (pool_new objects) ops in
  NoDup (starts (posted_ p)) ∧
  (∀ c, c ∈ waitingFifo_ p → c_id c ∉ starts (posted_ p)) ∧
  ∀ i j a b, runningContexts_ p !! i = Some a → runningContexts_ p !! j = Some b → i ≠ j →
    contends a b = true → sep (posted_ p) i j ∨ sep (posted_ p) j i.
Proof.
  intros Hnd p. assert (pool_ok (list_to_set (ids_of ops) ∪ ∅) p) as [_ _ K3 _ K5 K6]; [|done].
  apply run_ok; [apply new_wf|apply new_ok|done|set_solver].
Qed.

(** C32: A cancellation that comes while a context is in the pool and has not
    begun is never lost: whatever happens afterwards, in whatever order the
    tasks of the thread run, the work of that context never begins. *)
Theorem pool_cancel_effective (objects : Z → O) (before after : list ((Z → bool) * pool_op)) c :
  NoDup (ids_of (before ++ after)) → NoDup (c_object <$> omap offered (before ++ after)) →
  let p := pool_run (pool_new objects) before in
  pooled p c → ¬ begun (objects_ p (c_object c)) →
  let p' := pool_run (Cancel true p (c_id c)) after in
  ∃ l, effects_ p' = effects_ p ++ l ∧ (c_object c, EOnStart) ∉ l.
Proof.
  intros Hids Hobj p Hc Hnb p'.
  assert (∀ c, pooled p c → c ∈ omap offered before) as Hin.
  { intros c' [Hp|Hp]%run_pooled; [|done|apply new_wf].
    destruct Hp as [[j Hj]%contexts_of_elem|Hp]; [done|by apply not_elem_of_nil in Hp]. }
  unfold ids_of in Hids. rewrite omap_app, fmap_app in Hids, Hobj.
  apply NoDup_app in Hids as (Hids & Hids' & _). apply NoDup_app in Hobj as (Hobj & Hobj' & _).
  apply (run_quiet (c_object c) (c_id c) (Cancel true p (c_id c)) after).
  - apply (same_wf p); [apply same_cancel|apply run_wf, new_wf].
  - split.
    + intros c' Hc'. rewrite (same_pooled p) in Hc' by apply same_cancel.
      split; intros Heq; (assert (c' = c) as ->; [|done]);
        [apply (NoDup_fmap_elem c_id _ _ _ Hids)|apply (NoDup_fmap_elem c_object _ _ _ Hobj)]; auto.
    + right; right. simpl. split; [set_solver|done].
  - intros c' Hc'. split; intros Heq.
    + apply (Hids' (c_id c)); [|rewrite <- Heq]; apply list_elem_of_fmap_2; auto.
    + apply (Hobj' (c_object c)); [|rewrite <- Heq]; apply list_elem_of_fmap_2; auto.
Qed.
End Promises.

(** ** The base life cycle *)

(** [BaseContext] keeps the promises that the pool builds on: it has begun when
    it has started, and a stop request before that is final. *)
#[export] Program Instance base_laws : ContextObjectLaws BaseContext := {
  never_begins := λ c, hasStarted_ c = false ∧ stopRequested_ c = true ∨ hasStarted_ c = true;
  begun := λ c, hasStarted_ c = true;
}.
Next Obligation.
  intros c r c' ret effs. simpl. unfold Base_Start, SetLatestError.
  repeat case_decide; intros [= <- <- <-]; simpl in *; rewrite ?not_elem_of_nil, ?elem_of_nil;
    destruct (hasStarted_ c), (stopRequested_ c); set_solver.
Qed.
Next Obligation.
  intros c r c' ret effs. simpl. unfold Base_Stop, Base_OnStartFailed, SetLatestError.
  repeat case_decide; intros [= <- <- <-]; simpl in *; destruct (hasStarted_ c) eqn:?, (stopRequested_ c) eqn:?; set_solver.
Qed.
Next Obligation.
  intros c code c' effs. simpl. unfold Base_OnStartFailed.
  repeat case_decide; intros [= <- <-]; simpl in *; set_solver.
Qed.

Inductive base_op :=
  | BStart (onStart : bool * Z)
  | BStop (onStop : bool * Z)
  | BStartFailed (errorCode : Z).

Definition base_step (c : BaseContext) (op : base_op) : BaseContext * list Effect :=
  match op with
  | BStart r => let '(c, _, effs) := Base_Start c r in (c, effs)
  | BStop r => let '(c, _, effs) := Base_Stop c r in (c, effs)
  | BStartFailed code => Base_OnStartFailed c code
  end.

Fixpoint base_run (c : BaseContext) (ops : list base_op) : BaseContext * list Effect :=
  match ops with
  | [] => (c, [])
  | op :: ops =>
      let '(c, effs) := base_step c op in
      let '(c, effs') := base_run c ops in
      (c, effs ++ effs')
  end.

Definition is_start (e : Effect) : bool := match e with EOnStart => true | _ => false end.
Definition is_result (e : Effect) : bool := match e with EResult _ => true | _ => false end.

(** The promises of one context, from the state [c] on. *)
Record base_ok (c : BaseContext) (effs : list Effect) : Prop := {
  base_starts : (length (List.filter is_start effs) ≤ if hasStarted_ c then 0 else 1)%nat;
  base_results : (length (List.filter is_result effs) ≤ if startFailDelivered_ c then 0 else 1)%nat;
  base_stops : ∀ l1 l2, effs = l1 ++ EOnStop :: l2 → hasStarted_ c = true ∨ EOnStart ∈ l1;
}.

Lemma base_step_ok c op effs' : let '(c', effs) := base_step c op in
  base_ok c' effs' → base_ok c (effs ++ effs').
Proof.
  destruct op as [[ok e]|[ok e]|code]; simpl;
    unfold Base_Start, Base_Stop, Base_OnStartFailed, SetLatestError; repeat case_decide; simpl in *;
    try done; intros [K1 K2 K3]; simpl in *;
    destruct (hasStarted_ c) eqn:Hs, (startFailDelivered_ c) eqn:Hf; simpl in *; try done;
    (split; rewrite ?Hs, ?Hf; simpl; [lia|lia|]); try (by left);
    intros l1 l2 Heq; try exact (K3 l1 l2 Heq); destruct l1 as [|x l1]; simplify_eq/=;
    try (by right; left); edestruct (K3 l1 l2 eq_refl); try done; right; by right.
Qed.

(** In any sequence of starts, stops and start failures, a context begins
    its work at most once, reports a failed start at most once (a stop before
    the start included), and ends only work that it began. *)
Theorem base_lifecycle (callback : bool) (ops : list base_op) :
  let effs := (base_run (BaseContext_new callback) ops).2 in
  (length (List.filter is_start effs) ≤ 1)%nat ∧ (length (List.filter is_result effs) ≤ 1)%nat ∧
  ∀ l1 l2, effs = l1 ++ EOnStop :: l2 → EOnStart ∈ l1.
Proof.
  assert (∀ c, base_ok c (base_run c ops).2) as Hall.
  { induction ops as [|op ops IH]; intros c; simpl.
    - split; simpl; try lia. by intros [|].
    - pose proof (base_step_ok c op (base_run (base_step c op).1 ops).2) as Hstep.
      destruct (base_step c op) as [c' effs]. simpl in *. specialize (IH c').
      destruct (base_run c' ops) as [c'' effs']. simpl in *. auto. }
  intros effs. destruct (Hall (BaseContext_new callback)) as [H1 H2 H3]. split; [done|]. split; [done|].
  intros l1 l2 Heq. by destruct (H3 l1 l2 Heq).
Qed.

(** ** Ids *)

Definition acceptable_id {O} `{ContextObject O} (p : CtxPool O) (contextId : Z) : Prop :=
  contextId ≠ 0 ∧ contextId ≠ REUSE_AUTH_RESULT_CONTEXT_ID ∧ Select p contextId = None.

(** A new context id is 0 when the random source failed, and otherwise
    neither 0 nor the id reserved for reused results nor the id of a context in
    the pool, with one exception: when all ten draws are unacceptable, the last
    of them is returned all the same. *)
Theorem context_id_draw {O} `{ContextObject O} (p : CtxPool O) (draws : nat → option Z) :
  let contextId := GetNewContextId p draws in
  (contextId = 0 ∧ ∃ k, (k < 10)%nat ∧ draws k = None) ∨
  acceptable_id p contextId ∨
  (draws 0%nat = Some contextId ∧
   ∀ k, (k < 10)%nat → ∃ d, draws k = Some d ∧ ¬ acceptable_id p d).
Proof.
  assert (∀ n c0, let id := new_id_loop n p draws c0 in
    (id = 0 ∧ ∃ k, (k < n)%nat ∧ draws k = None) ∨ acceptable_id p id ∨
    ((n = 0%nat ∧ id = c0 ∨ draws 0%nat = Some id) ∧
      ∀ k, (k < n)%nat → ∃ d, draws k = Some d ∧ ¬ acceptable_id p d)) as Hall.
  { induction n as [|n IH]; intros c0; simpl.
    { right; right. split; [by left|]. intros k Hk. lia. }
    destruct (draws n) as [d|] eqn:Hd; [|left; split; [done|exists n; split; [lia|done]]].
    case_decide as Hbad.
    - destruct (IH d) as [(H1 & k & H2 & H3)|[H1|[H1 H2]]].
      + left. split; [done|]. exists k. split; [lia|done].
      + by right; left.
      + right; right. split.
        * right. destruct H1 as [[-> H1]|H1]; [by rewrite H1|done].
        * intros k Hk. destruct (decide (k = n)) as [->|Hne]; [|apply H2; lia].
          exists d. split; [done|]. unfold acceptable_id. tauto.
    - right; left. unfold acceptable_id. destruct (Select p d); [|tauto]. exfalso. apply Hbad. by right; right. }
  destruct (Hall 10%nat 0) as [H1|[H1|[[[H1 _]|H1] H2]]]; [by left|by right; left|done|].
  by right; right.
Qed.

(** ** Concrete pools *)

Definition demo_context (id type time : Z) (caller : bytes) : Context :=
  mkContext id id type time 100 caller true PIN [PIN].
Definition demo_objects (h : Z) : BaseContext := BaseContext_new true.

(** A PIN authentication runs; a sudo authentication of the same user waits. *)
Definition demo_blocked : list ((Z → bool) * pool_op) :=
  [((λ _, false), OSchedule (Some (demo_context 5 CONTEXT_SIMPLE_AUTH 1 [Byte.x01])));
   ((λ _, false), OSchedule (Some (demo_context 6 SUDO_AUTH_CONTEXT 2 [Byte.x02])))].

Lemma pool_work_conserving_witness :
  ∃ m, m ∈ contexts_of (runningContexts_ (pool_run (pool_new demo_objects) demo_blocked)) ++ [] ∧
    contends (demo_context 6 SUDO_AUTH_CONTEXT 2 [Byte.x02]) m = true.
Proof.
  apply (pool_work_conserving demo_objects demo_blocked [] (demo_context 6 SUDO_AUTH_CONTEXT 2 [Byte.x02]) []).
  vm_compute. reflexivity.
Defined.

(** A sudo authentication shows its dialog; a widget of the same user takes
    over, and both are members until the first one is gone. *)
Definition demo_preempted : list ((Z → bool) * pool_op) :=
  [((λ _, true), OSchedule (Some (demo_context 5 SUDO_AUTH_CONTEXT 1 [Byte.x01])));
   ((λ _, true), OSchedule (Some (demo_context 6 WIDGET_AUTH_CONTEXT 2 [Byte.x02])))].

Lemma demo_preempted_posted :
  posted_ (pool_run (pool_new demo_objects) demo_preempted) = [TStart 5; TStop 5; TStart 6].
Proof. vm_compute. reflexivity. Qed.

Lemma pool_sudo_pin_exclusion_witness :
  let p := pool_run (pool_new demo_objects) demo_preempted in
  contends (demo_context 5 SUDO_AUTH_CONTEXT 1 [Byte.x01]) (demo_context 6 WIDGET_AUTH_CONTEXT 2 [Byte.x02]) = true ∧
  (sep (posted_ p) 5 6 ∨ sep (posted_ p) 6 5).
Proof.
  split; [vm_compute; reflexivity|].
  apply (pool_sudo_pin_exclusion demo_objects demo_preempted) with
    (a := demo_context 5 SUDO_AUTH_CONTEXT 1 [Byte.x01]) (b := demo_context 6 WIDGET_AUTH_CONTEXT 2 [Byte.x02]).
  - apply (bool_decide_unpack (NoDup (ids_of demo_preempted))). vm_compute. exact I.
  - vm_compute. reflexivity.
  - vm_compute. reflexivity.
  - done.
  - vm_compute. reflexivity.
Defined.

(** The context is cancelled after its start was posted and before it ran; then
    the thread runs both tasks. *)
Definition demo_thread : list ((Z → bool) * pool_op) :=
  [((λ _, false), ORun (true, SUCCESS)); ((λ _, false), ORun (true, SUCCESS));
   ((λ _, false), ORun (true, SUCCESS))].

Lemma pool_cancel_effective_witness :
  let c := demo_context 6 WIDGET_AUTH_CONTEXT 2 [Byte.x02] in
  let p := pool_run (pool_new demo_objects) demo_preempted in
  let p' := pool_run (Cancel true p (c_id c)) demo_thread in
  ∃ l, effects_ p' = effects_ p ++ l ∧ (c_object c, EOnStart) ∉ l.
Proof.
  intros c p p'. refine (pool_cancel_effective demo_objects demo_preempted demo_thread c _ _ _ _).
  - apply (bool_decide_unpack (NoDup (ids_of (demo_preempted ++ demo_thread)))). vm_compute. exact I.
  - apply (bool_decide_unpack (NoDup (c_object <$> omap offered (demo_preempted ++ demo_thread)))).
    vm_compute. exact I.
  - left. apply contexts_of_elem. exists 6. vm_compute. reflexivity.
  - apply (bool_decide_unpack (¬ hasStarted_ (objects_ p (c_object c)) = true)). vm_compute. exact I.
Defined.
