(* ===== verification/WidgetScheduleNode.v ===== *)
(** * Widget schedule nodes

    Models services/core/src/widget_schedule_node_impl.cpp: the state machine
    of one authentication widget. The widget (through the widget client) and
    the widget context send it requests; its handlers, on the service thread,
    call the context back through the interface [WidgetScheduleNodeCallback].

    A callback may call the schedule again while the machine is running: it
    returns these requests, in order, and they join the queue of the machine.
    [callback_] is the weak pointer to the context: [Some] as long as it locks.
    [calls_] records the callbacks made; no code reads it. A shared pointer
    keeps the object alive while a method or a task runs, so its own
    [weak_from_this().lock()] succeeds. Log lines and traces are dropped. *)

From S2P Require Import Prelude Defines Fsm.

(* @file N = src/services/core/src/widget_schedule_node_impl.cpp *)
(* @file NH = src/services/core/src/widget_schedule_node_impl.h *)
(* @file S = src/services/core/inc/widget_schedule_node.h *)
(* @file C = src/services/core/inc/widget_schedule_node_callback.h *)

(** ** States and events *)

(* @src S:37-37 WidgetScheduleNode::State *)
Definition S_WIDGET_INIT : Z := 0.
(* @src S:38-38 WidgetScheduleNode::State *)
Definition S_WIDGET_WAITING : Z := 1.
(* @src S:39-39 WidgetScheduleNode::State *)
Definition S_WIDGET_AUTH_RUNNING : Z := 2.
(* @src S:40-40 WidgetScheduleNode::State *)
Definition S_WIDGET_AUTH_FINISHED : Z := 3.
(* @src S:41-41 WidgetScheduleNode::State *)
Definition S_WIDGET_RELOAD_WAITING : Z := 4.
(* @src S:42-42 WidgetScheduleNode::State *)
Definition S_WIDGET_RELEASED : Z := 5.
(* @src S:43-43 WidgetScheduleNode::State *)
Definition S_WIDGET_PARAM_WAITING : Z := 6.

(* @src S:47-47 WidgetScheduleNode::Event *)
Definition E_START_WIDGET : Z := 0.
(* @src S:48-48 WidgetScheduleNode::Event *)
Definition E_START_AUTH : Z := 1.
(* @src S:49-49 WidgetScheduleNode::Event *)
Definition E_UPDATE_AUTH : Z := 2.
(* @src S:50-50 WidgetScheduleNode::Event *)
Definition E_CANCEL_AUTH : Z := 3.
(* @src S:51-51 WidgetScheduleNode::Event *)
Definition E_COMPLETE_AUTH : Z := 4.
(* @src S:52-52 WidgetScheduleNode::Event *)
Definition E_NAVI_PIN_AUTH : Z := 5.
(* @src S:53-53 WidgetScheduleNode::Event *)
Definition E_WIDGET_PARA_INVALID : Z := 6.
(* @src S:54-54 WidgetScheduleNode::Event *)
Definition E_WIDGET_RELOAD : Z := 7.
(* @src S:55-55 WidgetScheduleNode::Event *)
Definition E_STOP_AUTH : Z := 8.
(* @src S:56-56 WidgetScheduleNode::Event *)
Definition E_WIDGET_RELEASE : Z := 9.
(* @src S:57-57 WidgetScheduleNode::Event *)
Definition E_START_DIRECT_AUTH : Z := 10.
(* @src S:58-58 WidgetScheduleNode::Event *)
Definition E_GET_REMOTE_AUTH_PARAM : Z := 11.
(* @src S:59-59 WidgetScheduleNode::Event *)
Definition E_NOTICE_COMPLETE_AUTH : Z := 12.

(** ** Requests and callbacks *)

(** The calls of the schedule's interface. *)
(* @src S:62-79 WidgetScheduleNode *)
Inductive WidgetRequest :=
  | RStartSchedule
  | RStartDirectAuth
  | RStopSchedule
  | RClearSchedule
  | RStartAuthList (authTypeList : list Z) (endAfterFirstFail : bool) (authIntent : Z)
  | RStopAuthList (authTypeList : list Z)
  | RNotifyAuthSuccess (authType : Z)
  | RNotifyAuthFail (authType : Z)
  | RNaviPinAuth
  | RWidgetParaInvalid
  | RWidgetReload (orientation needRotate alreadyLoad rotateAuthType : Z)
  | ROnWidgetResult (resultCode authType : Z) (token : bytes)
  | RGetRemoteAuthParam.

(** The calls that a schedule makes to its callback. *)
(* @src C:30-50 WidgetScheduleNodeCallback *)
Inductive WidgetCall :=
  | CLaunchWidget
  | CExecuteAuthList (authTypeList : gset Z) (endAfterFirstFail : bool) (authIntent : Z)
  | CEndAuthAsCancel
  | CEndAuthAsNaviPin
  | CEndAuthAsWidgetParaInvalid
  | CStopAuthList (authTypeList : list Z)
  | COnAuthSuccess (authType : Z)
  | COnAuthFail (authType : Z)
  | CAuthWidgetReload (orientation needRotate alreadyLoad rotateAuthType : Z)
  | CAuthWidgetReloadInit
  | COnScheduleAuthTip (authType tipInfo : Z)
  | COnScheduleAuthResult (resultCode authType : Z) (token : bytes)
  | CClearSchedule
  | CGetRemoteAuthParam.

(** An object that can be called back: its state afterwards, the requests it
    made to the schedule meanwhile, and the result ([true] for [void]). *)
Class WidgetScheduleNodeCallback (C : Type) := {
  call_back : C → WidgetCall → C * list WidgetRequest * bool;
}.

(** ** Data *)

(* @src NH:87-106 WidgetScheduleNodeImpl *)
Record WNode (C : Type) := mkWNode {
  callback_ : option C;
  successAuthType_ : Z;
  failAuthType_ : Z;
  startAuthTypeList_ : list Z;
  endAfterFirstFail_ : bool;
  stopAuthTypeList_ : list Z;
  runningAuthTypeSet_ : gset Z;
  orientation_ : Z;
  needRotate_ : Z;
  alreadyLoad_ : Z;
  rotateAuthType_ : Z;
  authIntent_ : Z;
  resultCode_ : Z;
  authToken_ : bytes;
  calls_ : list WidgetCall;
}.
Arguments mkWNode {C} _ _ _ _ _ _ _ _ _ _ _ _ _ _ _.
Arguments callback_ {C} _.
Arguments successAuthType_ {C} _.
Arguments failAuthType_ {C} _.
Arguments startAuthTypeList_ {C} _.
Arguments endAfterFirstFail_ {C} _.
Arguments stopAuthTypeList_ {C} _.
Arguments runningAuthTypeSet_ {C} _.
Arguments orientation_ {C} _.
Arguments needRotate_ {C} _.
Arguments alreadyLoad_ {C} _.
Arguments rotateAuthType_ {C} _.
Arguments authIntent_ {C} _.
Arguments resultCode_ {C} _.
Arguments authToken_ {C} _.
Arguments calls_ {C} _.

Record WidgetScheduleNode (C : Type) := mkWidgetScheduleNode {
  wnode : WNode C;
  machine_ : option (Fsm (list Z));
}.
Arguments mkWidgetScheduleNode {C} _ _.
Arguments wnode {C} _.
Arguments machine_ {C} _.

Section WidgetSchedule.
Context {C : Type} `{WidgetScheduleNodeCallback C}.
Implicit Types (n : WNode C) (s : WidgetScheduleNode C) (event : Z).

Definition set_callback n (c : option C) : WNode C :=
  mkWNode c (successAuthType_ n) (failAuthType_ n) (startAuthTypeList_ n) (endAfterFirstFail_ n)
    (stopAuthTypeList_ n) (runningAuthTypeSet_ n) (orientation_ n) (needRotate_ n) (alreadyLoad_ n)
    (rotateAuthType_ n) (authIntent_ n) (resultCode_ n) (authToken_ n) (calls_ n).
Definition set_success n (authType : Z) : WNode C :=
  mkWNode (callback_ n) authType (failAuthType_ n) (startAuthTypeList_ n) (endAfterFirstFail_ n)
    (stopAuthTypeList_ n) (runningAuthTypeSet_ n) (orientation_ n) (needRotate_ n) (alreadyLoad_ n)
    (rotateAuthType_ n) (authIntent_ n) (resultCode_ n) (authToken_ n) (calls_ n).
Definition set_fail n (authType : Z) : WNode C :=
  mkWNode (callback_ n) (successAuthType_ n) authType (startAuthTypeList_ n) (endAfterFirstFail_ n)
    (stopAuthTypeList_ n) (runningAuthTypeSet_ n) (orientation_ n) (needRotate_ n) (alreadyLoad_ n)
    (rotateAuthType_ n) (authIntent_ n) (resultCode_ n) (authToken_ n) (calls_ n).
Definition set_start n (types : list Z) (first : bool) (intent : Z) : WNode C :=
  mkWNode (callback_ n) (successAuthType_ n) (failAuthType_ n) types first (stopAuthTypeList_ n)
    (runningAuthTypeSet_ n) (orientation_ n) (needRotate_ n) (alreadyLoad_ n) (rotateAuthType_ n) intent
    (resultCode_ n) (authToken_ n) (calls_ n).
Definition set_stop n (types : list Z) : WNode C :=
  mkWNode (callback_ n) (successAuthType_ n) (failAuthType_ n) (startAuthTypeList_ n) (endAfterFirstFail_
    n) types (runningAuthTypeSet_ n) (orientation_ n) (needRotate_ n) (alreadyLoad_ n) (rotateAuthType_ n)
    (authIntent_ n) (resultCode_ n) (authToken_ n) (calls_ n).
Definition set_running n (types : gset Z) : WNode C :=
  mkWNode (callback_ n) (successAuthType_ n) (failAuthType_ n) (startAuthTypeList_ n) (endAfterFirstFail_
    n) (stopAuthTypeList_ n) types (orientation_ n) (needRotate_ n) (alreadyLoad_ n) (rotateAuthType_ n)
    (authIntent_ n) (resultCode_ n) (authToken_ n) (calls_ n).
Definition set_reload n (orientation needRotate alreadyLoad rotateAuthType : Z) : WNode C :=
  mkWNode (callback_ n) (successAuthType_ n) (failAuthType_ n) (startAuthTypeList_ n) (endAfterFirstFail_
    n) (stopAuthTypeList_ n) (runningAuthTypeSet_ n) orientation needRotate alreadyLoad rotateAuthType
    (authIntent_ n) (resultCode_ n) (authToken_ n) (calls_ n).
Definition set_result n (resultCode : Z) (token : bytes) : WNode C :=
  mkWNode (callback_ n) (successAuthType_ n) (failAuthType_ n) (startAuthTypeList_ n) (endAfterFirstFail_
    n) (stopAuthTypeList_ n) (runningAuthTypeSet_ n) (orientation_ n) (needRotate_ n) (alreadyLoad_ n)
    (rotateAuthType_ n) (authIntent_ n) resultCode token (calls_ n).
Definition record n (call : WidgetCall) : WNode C :=
  mkWNode (callback_ n) (successAuthType_ n) (failAuthType_ n) (startAuthTypeList_ n) (endAfterFirstFail_
    n) (stopAuthTypeList_ n) (runningAuthTypeSet_ n) (orientation_ n) (needRotate_ n) (alreadyLoad_ n)
    (rotateAuthType_ n) (authIntent_ n) (resultCode_ n) (authToken_ n) (calls_ n ++ [call]).

(** What a request leaves in the members, and the event it sends. *)
Definition request_members n (r : WidgetRequest) : WNode C :=
  match r with
  | RStartAuthList types first intent => set_start n types first intent
  | RStopAuthList types => set_stop n types
  | RNotifyAuthSuccess authType => set_success n authType
  | RNotifyAuthFail authType => set_fail n authType
  | RWidgetReload o r a t => set_reload n o r a t
  | ROnWidgetResult resultCode authType token =>
      let n := set_result n resultCode token in
      if decide (resultCode = SUCCESS) then set_success n authType else set_fail n authType
  | _ => n
  end.

Definition request_event (r : WidgetRequest) : Z :=
  match r with
  | RStartSchedule => E_START_WIDGET
  | RStartDirectAuth => E_START_DIRECT_AUTH
  | RStopSchedule => E_CANCEL_AUTH
  | RClearSchedule => E_WIDGET_RELEASE
  | RStartAuthList _ _ _ => E_START_AUTH
  | RStopAuthList _ => E_UPDATE_AUTH
  | RNotifyAuthSuccess _ => E_COMPLETE_AUTH
  | RNotifyAuthFail _ => E_STOP_AUTH
  | RNaviPinAuth => E_NAVI_PIN_AUTH
  | RWidgetParaInvalid => E_WIDGET_PARA_INVALID
  | RWidgetReload _ _ _ _ => E_WIDGET_RELOAD
  | ROnWidgetResult _ _ _ => E_NOTICE_COMPLETE_AUTH
  | RGetRemoteAuthParam => E_GET_REMOTE_AUTH_PARAM
  end.

(** A callback made by a handler: the requests that come back while the machine
    runs change the members and join its queue. *)
Definition call n (c : C) (k : WidgetCall) : WNode C * list kick * bool :=
  let '(c, requests, ret) := call_back c k in
  (foldl request_members (set_callback (record n k) (Some c)) requests,
   (λ r, Outer (request_event r)) <$> requests, ret).

(** A handler that only makes a callback. *)
Definition just_call n (k : WidgetCall) : WNode C * list kick :=
  match callback_ n with
  | None => (n, [])
  | Some c => let '(n, ks, _) := call n c k in (n, ks)
  end.

(** ** Handlers *)

(* @src N WidgetScheduleNodeImpl::OnGetRemoteAuthParam *)
Definition OnGetRemoteAuthParam n event : WNode C * list kick := just_call n CGetRemoteAuthParam.

(* @src N WidgetScheduleNodeImpl::OnStartSchedule *)
Definition OnStartSchedule n event : WNode C * list kick :=
  match callback_ n with
  | None => (n, [])
  | Some c =>
      let '(n, ks, launched) := call n c CLaunchWidget in
      CHECK launched = true ELSE (n, ks ++ [Outer E_CANCEL_AUTH]) ;;
      (n, ks)
  end.

(* @src N WidgetScheduleNodeImpl::OnStopSchedule *)
Definition OnStopSchedule n event : WNode C * list kick := just_call n CEndAuthAsCancel.

(** The loop of [OnStartDirectAuth] and [OnStartAuth]: the types that do not run
    yet, which run from now on. *)
Definition fresh_types (running : gset Z) (types : list Z) : gset Z := list_to_set types ∖ running.

(* @src N WidgetScheduleNodeImpl::OnStartDirectAuth *)
Definition OnStartDirectAuth n event : WNode C * list kick :=
  CHECK is_Some (callback_ n) ELSE (n, []) ;;
  let startAuthTypeSet := fresh_types (runningAuthTypeSet_ n) (startAuthTypeList_ n) in
  just_call (set_running n (runningAuthTypeSet_ n ∪ startAuthTypeSet))
    (CExecuteAuthList startAuthTypeSet (endAfterFirstFail_ n) (authIntent_ n)).

(* @src N WidgetScheduleNodeImpl::OnStartAuth *)
Definition OnStartAuth n event : WNode C * list kick :=
  CHECK is_Some (callback_ n) ELSE (n, []) ;;
  let startAuthTypeSet := fresh_types (runningAuthTypeSet_ n) (startAuthTypeList_ n) in
  just_call (set_running n (runningAuthTypeSet_ n ∪ startAuthTypeSet))
    (CExecuteAuthList startAuthTypeSet (endAfterFirstFail_ n) (authIntent_ n)).

(* @src N WidgetScheduleNodeImpl::OnStopAuthList *)
Definition OnStopAuthList n event : WNode C * list kick :=
  CHECK is_Some (callback_ n) ELSE (n, []) ;;
  just_call (set_running n (runningAuthTypeSet_ n ∖ list_to_set (stopAuthTypeList_ n)))
    (CStopAuthList (stopAuthTypeList_ n)).

(* @src N WidgetScheduleNodeImpl::OnSuccessAuth *)
Definition OnSuccessAuth n event : WNode C * list kick :=
  CHECK is_Some (callback_ n) ELSE (n, []) ;;
  just_call (set_running n (runningAuthTypeSet_ n ∖ {[successAuthType_ n]})) (COnAuthSuccess (successAuthType_ n)).

(* @src N WidgetScheduleNodeImpl::OnFailAuth *)
Definition OnFailAuth n event : WNode C * list kick :=
  CHECK is_Some (callback_ n) ELSE (n, []) ;;
  just_call (set_running n (runningAuthTypeSet_ n ∖ {[failAuthType_ n]})) (COnAuthFail (failAuthType_ n)).

(* @src N WidgetScheduleNodeImpl::OnNaviPinAuth *)
Definition OnNaviPinAuth n event : WNode C * list kick := just_call n CEndAuthAsNaviPin.

(* @src N WidgetScheduleNodeImpl::OnWidgetParaInvalid *)
Definition OnWidgetParaInvalid n event : WNode C * list kick := just_call n CEndAuthAsWidgetParaInvalid.

(* @src N WidgetScheduleNodeImpl::OnWidgetReloadInit *)
Definition OnWidgetReloadInit n event : WNode C * list kick := just_call n CAuthWidgetReloadInit.

(* @src N WidgetScheduleNodeImpl::OnWidgetReload *)
Definition OnWidgetReload n event : WNode C * list kick :=
  match callback_ n with
  | None => (n, [])
  | Some c =>
      let '(n, ks, reloaded) :=
        call n c (CAuthWidgetReload (orientation_ n) (needRotate_ n) (alreadyLoad_ n) (rotateAuthType_ n)) in
      CHECK reloaded = true ELSE (n, ks ++ [Outer E_CANCEL_AUTH]) ;;
      (n, ks)
  end.

(* @src N WidgetScheduleNodeImpl::OnWidgetRelease *)
Definition OnWidgetRelease n event : WNode C * list kick := just_call n CClearSchedule.

(* @src N WidgetScheduleNodeImpl::OnSendAuthResult *)
Definition OnSendAuthResult n event : WNode C * list kick :=
  if decide (resultCode_ n = SUCCESS) then
    just_call n (COnScheduleAuthResult (resultCode_ n) (successAuthType_ n) (authToken_ n))
  else just_call n (COnScheduleAuthResult (resultCode_ n) (failAuthType_ n) (authToken_ n)).

(** ** The machine *)

(* @src N WidgetScheduleNodeImpl::MakeAction *)
Definition MakeAction (handler : WNode C → Z → WNode C * list kick) : Action (WNode C) := Some handler.

(* @src N WidgetScheduleNodeImpl::BuildInitStateTransitions *)
Definition BuildInitStateTransitions (builder : Builder (WNode C)) : Builder (WNode C) :=
  let builder := MakeTransition builder S_WIDGET_INIT E_GET_REMOTE_AUTH_PARAM S_WIDGET_PARAM_WAITING (MakeAction OnGetRemoteAuthParam) in
  let builder := MakeTransition builder S_WIDGET_INIT E_START_WIDGET S_WIDGET_WAITING (MakeAction OnStartSchedule) in
  let builder := MakeTransition builder S_WIDGET_INIT E_START_DIRECT_AUTH S_WIDGET_AUTH_RUNNING (MakeAction OnStartDirectAuth) in
  let builder := MakeTransition builder S_WIDGET_INIT E_WIDGET_RELEASE S_WIDGET_RELEASED (MakeAction OnWidgetRelease) in
  builder.

(* @src N WidgetScheduleNodeImpl::BuildWaitingStateTransitions *)
Definition BuildWaitingStateTransitions (builder : Builder (WNode C)) : Builder (WNode C) :=
  let builder := MakeTransition builder S_WIDGET_WAITING E_START_AUTH S_WIDGET_AUTH_RUNNING (MakeAction OnStartAuth) in
  let builder := MakeTransition builder S_WIDGET_WAITING E_CANCEL_AUTH S_WIDGET_AUTH_FINISHED (MakeAction OnStopSchedule) in
  let builder := MakeTransition builder S_WIDGET_WAITING E_NAVI_PIN_AUTH S_WIDGET_AUTH_FINISHED (MakeAction OnNaviPinAuth) in
  let builder := MakeTransition builder S_WIDGET_WAITING E_NOTICE_COMPLETE_AUTH S_WIDGET_AUTH_FINISHED (MakeAction OnSendAuthResult) in
  let builder := MakeTransition builder S_WIDGET_WAITING E_WIDGET_PARA_INVALID S_WIDGET_AUTH_FINISHED (MakeAction OnWidgetParaInvalid) in
  let builder := MakeTransition builder S_WIDGET_WAITING E_WIDGET_RELOAD S_WIDGET_RELOAD_WAITING (MakeAction OnWidgetReloadInit) in
  let builder := MakeTransition builder S_WIDGET_WAITING E_WIDGET_RELEASE S_WIDGET_RELEASED (MakeAction OnWidgetRelease) in
  builder.

(* @src N WidgetScheduleNodeImpl::BuildAuthRunningStateTransitions *)
Definition BuildAuthRunningStateTransitions (builder : Builder (WNode C)) : Builder (WNode C) :=
  let builder := MakeTransition builder S_WIDGET_AUTH_RUNNING E_COMPLETE_AUTH S_WIDGET_AUTH_FINISHED (MakeAction OnSuccessAuth) in
  let builder := MakeTransition builder S_WIDGET_AUTH_RUNNING E_NOTICE_COMPLETE_AUTH S_WIDGET_AUTH_FINISHED (MakeAction OnSendAuthResult) in
  let builder := MakeTransition builder S_WIDGET_AUTH_RUNNING E_STOP_AUTH S_WIDGET_AUTH_FINISHED (MakeAction OnFailAuth) in
  let builder := MakeTransition builder S_WIDGET_AUTH_RUNNING E_CANCEL_AUTH S_WIDGET_AUTH_FINISHED (MakeAction OnStopSchedule) in
  let builder := MakeTransition builder S_WIDGET_AUTH_RUNNING E_NAVI_PIN_AUTH S_WIDGET_AUTH_FINISHED (MakeAction OnNaviPinAuth) in
  let builder := MakeTransition builder S_WIDGET_AUTH_RUNNING E_START_AUTH S_WIDGET_AUTH_RUNNING (MakeAction OnStartAuth) in
  let builder := MakeTransition builder S_WIDGET_AUTH_RUNNING E_UPDATE_AUTH S_WIDGET_AUTH_RUNNING (MakeAction OnStopAuthList) in
  let builder := MakeTransition builder S_WIDGET_AUTH_RUNNING E_WIDGET_PARA_INVALID S_WIDGET_AUTH_FINISHED (MakeAction OnWidgetParaInvalid) in
  let builder := MakeTransition builder S_WIDGET_AUTH_RUNNING E_WIDGET_RELOAD S_WIDGET_RELOAD_WAITING (MakeAction OnWidgetReloadInit) in
  let builder := MakeTransition builder S_WIDGET_AUTH_RUNNING E_WIDGET_RELEASE S_WIDGET_RELEASED (MakeAction OnWidgetRelease) in
  builder.

(* @src N WidgetScheduleNodeImpl::BuildReloadWaitingStateTransitions *)
Definition BuildReloadWaitingStateTransitions (builder : Builder (WNode C)) : Builder (WNode C) :=
  let builder := MakeTransition builder S_WIDGET_RELOAD_WAITING E_CANCEL_AUTH S_WIDGET_WAITING (MakeAction OnWidgetReload) in
  let builder := MakeTransition builder S_WIDGET_RELOAD_WAITING E_WIDGET_RELEASE S_WIDGET_RELEASED (MakeAction OnWidgetRelease) in
  builder.

(* @src N WidgetScheduleNodeImpl::BuildParamWaitingStateTransitions *)
Definition BuildParamWaitingStateTransitions (builder : Builder (WNode C)) : Builder (WNode C) :=
  let builder := MakeTransition builder S_WIDGET_PARAM_WAITING E_START_WIDGET S_WIDGET_WAITING (MakeAction OnStartSchedule) in
  let builder := MakeTransition builder S_WIDGET_PARAM_WAITING E_CANCEL_AUTH S_WIDGET_RELEASED (MakeAction OnStopSchedule) in
  builder.

(* @src N WidgetScheduleNodeImpl::BuildAuthFinishedStateTransitions *)
Definition BuildAuthFinishedStateTransitions (builder : Builder (WNode C)) : Builder (WNode C) :=
  let builder := MakeTransition builder S_WIDGET_AUTH_FINISHED E_WIDGET_RELEASE S_WIDGET_RELEASED (MakeAction OnWidgetRelease) in
  builder.

(* @src N WidgetScheduleNodeImpl::MakeFiniteStateMachine *)
Definition MakeFiniteStateMachine : option (Fsm (list Z) * FsmTable (WNode C)) :=
  let builder := Builder_New S_WIDGET_INIT in
  let builder := BuildInitStateTransitions builder in
  let builder := BuildWaitingStateTransitions builder in
  let builder := BuildAuthRunningStateTransitions builder in
  let builder := BuildReloadWaitingStateTransitions builder in
  let builder := BuildParamWaitingStateTransitions builder in
  let builder := BuildAuthFinishedStateTransitions builder in
  (Build builder).2.

(** The machine's tables. *)
Definition tables : FsmTable (WNode C) :=
  match MakeFiniteStateMachine with Some (_, tbl) => tbl | None => mkTable ∅ ∅ ∅ end.

(** ** The object *)

(** [singleThread]: the service thread's handler is there. *)
(* @src N WidgetScheduleNodeImpl::Init *)
Definition Init n (callback : C) (singleThread : bool) : WidgetScheduleNode C * bool :=
  let n := set_callback n (Some callback) in
  match MakeFiniteStateMachine with
  | None => (mkWidgetScheduleNode n None, false)
  | Some (machine, _) => (mkWidgetScheduleNode n (Some (SetThreadHandler machine singleThread)), true)
  end.

(* @src N WidgetScheduleNodeImpl::Create *)
Definition Create (callback : C) (singleThread : bool) : option (WidgetScheduleNode C) :=
  let n := mkWNode None 0 0 [] false [] ∅ 0 0 0 0 DEFAULT GENERAL_ERROR [] [] in
  let '(s, ok) := Init n callback singleThread in
  CHECK ok = true ELSE None ;; Some s.

(** [self] names the object. *)
(* @src N WidgetScheduleNodeImpl::TryKickMachine *)
Definition TryKickMachine s (self event : Z) : WidgetScheduleNode C * bool :=
  match machine_ s with
  | None => (s, false)
  | Some machine =>
      let machine := AttachOwnerLifetime machine self in
      (mkWidgetScheduleNode (wnode s) (Some (Schedule machine event)), true)
  end.

Definition on_s s (f : WNode C → WNode C) : WidgetScheduleNode C := mkWidgetScheduleNode (f (wnode s)) (machine_ s).

(* @src N WidgetScheduleNodeImpl::GetRemoteAuthParam *)
Definition GetRemoteAuthParam s self : WidgetScheduleNode C * bool := TryKickMachine s self E_GET_REMOTE_AUTH_PARAM.

(* @src N WidgetScheduleNodeImpl::StartSchedule *)
Definition StartSchedule s self : WidgetScheduleNode C * bool := TryKickMachine s self E_START_WIDGET.

(* @src N WidgetScheduleNodeImpl::StartDirectAuth *)
Definition StartDirectAuth s self : WidgetScheduleNode C * bool := TryKickMachine s self E_START_DIRECT_AUTH.

(* @src N WidgetScheduleNodeImpl::StopSchedule *)
Definition StopSchedule s self : WidgetScheduleNode C * bool := TryKickMachine s self E_CANCEL_AUTH.

(* @src N WidgetScheduleNodeImpl::ClearSchedule *)
Definition ClearSchedule s self : WidgetScheduleNode C * bool := TryKickMachine s self E_WIDGET_RELEASE.

(* @src N WidgetScheduleNodeImpl::StartAuthList *)
Definition StartAuthList s self (authTypeList : list Z) (endAfterFirstFail : bool) (authIntent : Z) :
    WidgetScheduleNode C * bool :=
  let s := on_s s (λ n, set_start n authTypeList endAfterFirstFail authIntent) in
  TryKickMachine s self E_START_AUTH.

(* @src N WidgetScheduleNodeImpl::StopAuthList *)
Definition StopAuthList s self (authTypeList : list Z) : WidgetScheduleNode C * bool :=
  let s := on_s s (λ n, set_stop n authTypeList) in
  TryKickMachine s self E_UPDATE_AUTH.

(* @src N WidgetScheduleNodeImpl::NotifyAuthSuccess *)
Definition NotifyAuthSuccess s self (authType : Z) : WidgetScheduleNode C * bool :=
  let s := on_s s (λ n, set_success n authType) in
  TryKickMachine s self E_COMPLETE_AUTH.

(* @src N WidgetScheduleNodeImpl::NotifyAuthFail *)
Definition NotifyAuthFail s self (authType : Z) : WidgetScheduleNode C * bool :=
  let s := on_s s (λ n, set_fail n authType) in
  TryKickMachine s self E_STOP_AUTH.

(* @src N WidgetScheduleNodeImpl::NaviPinAuth *)
Definition NaviPinAuth s self : WidgetScheduleNode C * bool := TryKickMachine s self E_NAVI_PIN_AUTH.

(* @src N WidgetScheduleNodeImpl::WidgetParaInvalid *)
Definition WidgetParaInvalid s self : WidgetScheduleNode C * bool := TryKickMachine s self E_WIDGET_PARA_INVALID.

(* @src N WidgetScheduleNodeImpl::WidgetReload *)
Definition WidgetReload s self (orientation needRotate alreadyLoad rotateAuthType : Z) : WidgetScheduleNode C * bool :=
  let s := on_s s (λ n, set_reload n orientation needRotate alreadyLoad rotateAuthType) in
  TryKickMachine s self E_WIDGET_RELOAD.

(* @src N WidgetScheduleNodeImpl::OnWidgetResult *)
Definition OnWidgetResult s self (resultCode authType : Z) (token : bytes) : WidgetScheduleNode C :=
  let s := on_s s (λ n, set_result n resultCode token) in
  let s := if decide (resultCode = SUCCESS) then on_s s (λ n, set_success n authType)
           else on_s s (λ n, set_fail n authType) in
  (TryKickMachine s self E_NOTICE_COMPLETE_AUTH).1.

Definition serve (self : Z) s (r : WidgetRequest) : WidgetScheduleNode C :=
  match r with
  | RStartSchedule => (StartSchedule s self).1
  | RStartDirectAuth => (StartDirectAuth s self).1
  | RStopSchedule => (StopSchedule s self).1
  | RClearSchedule => (ClearSchedule s self).1
  | RStartAuthList types first intent => (StartAuthList s self types first intent).1
  | RStopAuthList types => (StopAuthList s self types).1
  | RNotifyAuthSuccess authType => (NotifyAuthSuccess s self authType).1
  | RNotifyAuthFail authType => (NotifyAuthFail s self authType).1
  | RNaviPinAuth => (NaviPinAuth s self).1
  | RWidgetParaInvalid => (WidgetParaInvalid s self).1
  | RWidgetReload o r a t => (WidgetReload s self o r a t).1
  | ROnWidgetResult resultCode authType token => OnWidgetResult s self resultCode authType token
  | RGetRemoteAuthParam => (GetRemoteAuthParam s self).1
  end.

(** A callback made outside the machine: the requests are served at once. *)
Definition call_outside (self : Z) s (k : WidgetCall) : WidgetScheduleNode C :=
  match callback_ (wnode s) with
  | None => s
  | Some c =>
      let '(c, requests, _) := call_back c k in
      foldl (serve self) (on_s s (λ n, set_callback (record n k) (Some c))) requests
  end.

(* @src N WidgetScheduleNodeImpl::OnWidgetTip *)
Definition OnWidgetTip s self (authTypeList : list Z) (tipCode : Z) : WidgetScheduleNode C :=
  CHECK is_Some (callback_ (wnode s)) ELSE s ;;
  foldl (λ s authType, call_outside self s (COnScheduleAuthTip authType tipCode)) s authTypeList.

(** The machine's next posted task. *)
Definition run_task s : WidgetScheduleNode C * list round :=
  match machine_ s with
  | None => (s, [])
  | Some m =>
      let '(m, n, rs) := run_posted (λ _, true) tables m (wnode s) in
      (mkWidgetScheduleNode n (Some m), rs)
  end.
End WidgetSchedule.
