(* ===== verification/WidgetClient.v ===== *)
(** * The widget client

    Models services/context/src/widget_client.cpp (what the dialog says to the
    contexts and gets from them), ui_extension_ability_connection.cpp (the
    connection to the dialog) and set_widget_param_callback_service.cpp.

    Every operation runs under the lock of the client. The schedules that it
    calls are handles; their calls, which post events, are the output [Out]. *)

From S2P Require Import Prelude Defines ServiceTypes WidgetJson WidgetScheduleNode.

(* @file C = src/services/context/src/widget_client.cpp *)
(* @file CH = src/services/context/inc/widget_client.h *)
(* @file U = src/services/context/src/ui_extension_ability_connection.cpp *)
(* @file UH = src/services/context/inc/ui_extension_ability_connection.h *)
(* @file P = src/services/context/src/set_widget_param_callback_service.cpp *)
(* @file AC = src/frameworks/common/inc/auth_common.h *)
(* @file CD = src/frameworks/native/ipc/common_defines/user_auth_common_defines.h *)

(** ** Names *)

(* @src CD:51-51 WIDGET_NOTICE *)
Definition WIDGET_NOTICE : Z := 1.
(* @src AC:136-136 TIP_CODE_WIDGET_LOADED *)
Definition TIP_CODE_WIDGET_LOADED : Z := 5.
(* @src AC:137-137 TIP_CODE_WIDGET_RELEASED *)
Definition TIP_CODE_WIDGET_RELEASED : Z := 6.
(* @src AC:const NOTICE_EVENT_AUTH_READY *)
Definition NOTICE_EVENT_AUTH_READY : bytes := str "EVENT_AUTH_TYPE_READY".
(* @src AC:const NOTICE_EVENT_CANCEL_AUTH *)
Definition NOTICE_EVENT_CANCEL_AUTH : bytes := str "EVENT_AUTH_USER_CANCEL".
(* @src AC:const NOTICE_EVENT_USER_NAVIGATION *)
Definition NOTICE_EVENT_USER_NAVIGATION : bytes := str "EVENT_AUTH_USER_NAVIGATION".
(* @src AC:const NOTICE_EVENT_WIDGET_PARA_INVALID *)
Definition NOTICE_EVENT_WIDGET_PARA_INVALID : bytes := str "EVENT_AUTH_WIDGET_PARA_INVALID".
(* @src AC:const NOTICE_EVENT_END *)
Definition NOTICE_EVENT_END : bytes := str "EVENT_AUTH_END".
(* @src AC:const NOTICE_EVENT_RELOAD *)
Definition NOTICE_EVENT_RELOAD : bytes := str "EVENT_AUTH_RELOAD".
(* @src AC:const NOTICE_EVENT_AUTH_WIDGET_LOADED *)
Definition NOTICE_EVENT_AUTH_WIDGET_LOADED : bytes := str "EVENT_AUTH_WIDGET_LOADED".
(* @src AC:const NOTICE_EVENT_AUTH_WIDGET_RELEASED *)
Definition NOTICE_EVENT_AUTH_WIDGET_RELEASED : bytes := str "EVENT_AUTH_WIDGET_RELEASED".
(* @src AC:const NOTICE_EVENT_PROCESS_TERMINATE *)
Definition NOTICE_EVENT_PROCESS_TERMINATE : bytes := str "EVENT_AUTH_PROCESS_TERMINATE".
(* @src AC:const NOTICE_EVENT_AUTH_SEND_TIP *)
Definition NOTICE_EVENT_AUTH_SEND_TIP : bytes := str "EVENT_AUTH_SEND_TIP".
(* @src AC:const NOTICE_EVENT_COMPLETE_AUTH *)
Definition NOTICE_EVENT_COMPLETE_AUTH : bytes := str "NOTICE_EVENT_COMPLETE_AUTH".
(* @src C:const PIN_SUB_TYPE_NUMBER *)
Definition PIN_SUB_TYPE_NUMBER : bytes := str "PIN_NUMBER".
(* @src C:const PIN_SUB_TYPE_MIXED *)
Definition PIN_SUB_TYPE_MIXED : bytes := str "PIN_MIXED".

(** ** The client *)

(* @src CH:79-92 WidgetClient *)
Record Client := mkClient {
  schedule_ : option Z;
  widgetContextId_ : Z;
  widgetParam_ : WidgetParamInner;
  authTypeList_ : list Z;
  widgetCallback_ : option Z;
  pinSubType_ : bytes;
  sensorInfo_ : bytes;
  authTokenId_ : Z;
  challenge_ : bytes;
  callingBundleName_ : bytes;
  scheduleMap_ : gmap Z Z;
  loadedAuthTypeList_ : list Z;
}.

(** Calls of schedules and of the callback of the dialog. *)
Inductive Out :=
  | ORequest (schedule : Z) (r : WidgetRequest)
  | OWidgetTip (schedule : Z) (authTypeList : list Z) (tipCode : Z)
  | OSendCommand (callback : Z) (cmdData : bytes).

Definition no_param : WidgetParamInner := mkWidgetParam [] [] 0 false.
Definition Client_new : Client := mkClient None 0 no_param [] None [] [] 0 [] [] ∅ [].

Section Client.
(** The JSON library: [None] is a discarded document, or an exception. *)
Context (parse : bytes → option json) (dump : json → option bytes) (float_to : Number → Z → Z).
Implicit Types (c : Client) (n : WidgetNotice).

(** ** Members *)

Definition set_map c (m : gmap Z Z) : Client :=
  mkClient (schedule_ c) (widgetContextId_ c) (widgetParam_ c) (authTypeList_ c) (widgetCallback_ c) (pinSubType_ c)
    (sensorInfo_ c) (authTokenId_ c) (challenge_ c) (callingBundleName_ c) m (loadedAuthTypeList_ c).
Definition set_loaded c (types : list Z) : Client :=
  mkClient (schedule_ c) (widgetContextId_ c) (widgetParam_ c) (authTypeList_ c) (widgetCallback_ c) (pinSubType_ c)
    (sensorInfo_ c) (authTokenId_ c) (challenge_ c) (callingBundleName_ c) (scheduleMap_ c) types.
Definition set_pin c (pin : bytes) : Client :=
  mkClient (schedule_ c) (widgetContextId_ c) (widgetParam_ c) (authTypeList_ c) (widgetCallback_ c) pin
    (sensorInfo_ c) (authTokenId_ c) (challenge_ c) (callingBundleName_ c) (scheduleMap_ c) (loadedAuthTypeList_ c).

(* @src C WidgetClient::SetWidgetParam *)
Definition SetWidgetParam c (param : WidgetParamInner) : Client :=
  mkClient (schedule_ c) (widgetContextId_ c) param (authTypeList_ c) (widgetCallback_ c) (pinSubType_ c)
    (sensorInfo_ c) (authTokenId_ c) (challenge_ c) (callingBundleName_ c) (scheduleMap_ c) (loadedAuthTypeList_ c).

(* @src C WidgetClient::SetAuthTypeList *)
Definition SetAuthTypeList c (types : list Z) : Client :=
  mkClient (schedule_ c) (widgetContextId_ c) (widgetParam_ c) types (widgetCallback_ c) (pinSubType_ c)
    (sensorInfo_ c) (authTokenId_ c) (challenge_ c) (callingBundleName_ c) (scheduleMap_ c) (loadedAuthTypeList_ c).

(* @src C WidgetClient::SetWidgetCallback *)
Definition SetWidgetCallback c (callback : option Z) : Client :=
  mkClient (schedule_ c) (widgetContextId_ c) (widgetParam_ c) (authTypeList_ c) callback (pinSubType_ c)
    (sensorInfo_ c) (authTokenId_ c) (challenge_ c) (callingBundleName_ c) (scheduleMap_ c) (loadedAuthTypeList_ c).

(* @src C WidgetClient::SetAuthTokenId *)
Definition SetAuthTokenId c (tokenId : Z) : Client :=
  mkClient (schedule_ c) (widgetContextId_ c) (widgetParam_ c) (authTypeList_ c) (widgetCallback_ c) (pinSubType_ c)
    (sensorInfo_ c) tokenId (challenge_ c) (callingBundleName_ c) (scheduleMap_ c) (loadedAuthTypeList_ c).

(* @src C WidgetClient::GetAuthTokenId *)
Definition GetAuthTokenId c : Z := authTokenId_ c.

(* @src C WidgetClient::SetSensorInfo *)
Definition SetSensorInfo c (info : bytes) : Client :=
  mkClient (schedule_ c) (widgetContextId_ c) (widgetParam_ c) (authTypeList_ c) (widgetCallback_ c) (pinSubType_ c)
    info (authTokenId_ c) (challenge_ c) (callingBundleName_ c) (scheduleMap_ c) (loadedAuthTypeList_ c).

(* @src C WidgetClient::SetChallenge *)
Definition SetChallenge c (challenge : bytes) : Client :=
  mkClient (schedule_ c) (widgetContextId_ c) (widgetParam_ c) (authTypeList_ c) (widgetCallback_ c) (pinSubType_ c)
    (sensorInfo_ c) (authTokenId_ c) challenge (callingBundleName_ c) (scheduleMap_ c) (loadedAuthTypeList_ c).

(* @src C WidgetClient::SetCallingBundleName *)
Definition SetCallingBundleName c (name : bytes) : Client :=
  mkClient (schedule_ c) (widgetContextId_ c) (widgetParam_ c) (authTypeList_ c) (widgetCallback_ c) (pinSubType_ c)
    (sensorInfo_ c) (authTokenId_ c) (challenge_ c) name (scheduleMap_ c) (loadedAuthTypeList_ c).

(* @src C WidgetClient::SetPinSubType *)
Definition SetPinSubType c (subType : Z) : Client :=
  set_pin c
    (if decide (subType = PIN_NUMBER) then PIN_SUB_TYPE_NUMBER
     else if decide (subType = PIN_MIXED) then PIN_SUB_TYPE_MIXED
     else if decide (subType = PIN_MAX) then PIN_SUB_TYPE_MAX
     else if decide (subType = PIN_FOUR) then PIN_SUB_TYPE_FOUR
     else if decide (subType = PIN_PATTERN) then PIN_SUB_TYPE_PATTERN
     else PIN_SUB_TYPE_SIX).

(** The types of the last context, the loaded types, the challenge and the name
    of the caller stay. *)
(* @src C WidgetClient::Reset *)
Definition Reset c : Client :=
  mkClient None 0 (mkWidgetParam [] [] DIALOG_BOX (wi_hasContext (widgetParam_ c))) (authTypeList_ c) None [] []
    0 (challenge_ c) (callingBundleName_ c) (scheduleMap_ c) (loadedAuthTypeList_ c).

(** ** Schedules *)

(** [std::map::insert] keeps an entry. *)
(* @src C WidgetClient::InsertScheduleNode *)
Definition InsertScheduleNode c (contextId scheduleNode : Z) : Client :=
  match scheduleMap_ c !! contextId with
  | Some _ => c
  | None => set_map c (<[contextId := scheduleNode]> (scheduleMap_ c))
  end.

(* @src C WidgetClient::RemoveScheduleNode *)
Definition RemoveScheduleNode c (contextId : Z) : Client := set_map c (delete contextId (scheduleMap_ c)).

(* @src C WidgetClient::GetScheduleNode *)
Definition GetScheduleNode c (contextId : Z) : option Z := scheduleMap_ c !! contextId.

(* @src C WidgetClient::SetWidgetSchedule *)
Definition SetWidgetSchedule c (contextId : Z) (schedule : option Z) : Client :=
  match schedule with
  | None => c
  | Some s =>
    InsertScheduleNode
      (mkClient (Some s) contextId (widgetParam_ c) (authTypeList_ c) (widgetCallback_ c) (pinSubType_ c)
        (sensorInfo_ c) (authTokenId_ c) (challenge_ c) (callingBundleName_ c) (scheduleMap_ c) (loadedAuthTypeList_ c))
      contextId s
  end.

(* @src C WidgetClient::ClearSchedule *)
Definition ClearSchedule c (contextId : Z) : Client * list Out :=
  match GetScheduleNode c contextId with
  | None => (c, [])
  | Some schedule =>
    let '(c, tips) :=
      if decide (contextId = widgetContextId_ c) then
        let c := Reset c in
        if decide (loadedAuthTypeList_ c ≠ [])
        then (set_loaded c [], [OWidgetTip schedule (loadedAuthTypeList_ c) TIP_CODE_WIDGET_RELEASED])
        else (c, [])
      else (c, []) in
    (RemoveScheduleNode c contextId, tips ++ [ORequest schedule RStopSchedule; ORequest schedule RClearSchedule])
  end.

(* @src C:281-289 WidgetClient::ForceStopAuth *)
Definition ForceStopAuth c : Client * list Out :=
  let stopped := match schedule_ c with Some s => [ORequest s RStopSchedule] | None => [] end in
  let '(c, out) := ClearSchedule c (widgetContextId_ c) in (c, stopped ++ out).

(* @src C:291-296 WidgetClient::ForceStopAuth *)
Definition ForceStopAuth_of c (contextId : Z) : Client * list Out := ClearSchedule c contextId.

(* @src C WidgetClient::~WidgetClient *)
Definition Client_destroy c : Client * list Out := ForceStopAuth c.

(* @src C WidgetClient::WidgetLoad *)
Definition WidgetLoad c (contextId : Z) (authTypeList : list Z) : Client * list Out :=
  match GetScheduleNode c contextId with
  | None => (c, [])
  | Some schedule =>
    WHEN contextId ≠ widgetContextId_ c RETURN (c, []) ;;
    (set_loaded c authTypeList, [OWidgetTip schedule authTypeList TIP_CODE_WIDGET_LOADED])
  end.

(* @src C WidgetClient::WidgetRelease *)
Definition WidgetRelease c (contextId : Z) (authTypeList : list Z) : Client * list Out :=
  match GetScheduleNode c contextId with
  | None => (c, [])
  | Some schedule =>
    let tip := [OWidgetTip schedule authTypeList TIP_CODE_WIDGET_RELEASED] in
    WHEN contextId ≠ widgetContextId_ c RETURN (c, tip) ;;
    (set_loaded c [], tip)
  end.

(* @src C WidgetClient::WidgetCompleteAuth *)
Definition WidgetCompleteAuth c n (authTypeList : list Z) : Client * list Out :=
  match authTypeList with
  | [] => (c, [])
  | authType :: _ =>
    match GetScheduleNode c (no_widgetContextId n) with
    | None => (c, [])
    | Some schedule => (c, [ORequest schedule (ROnWidgetResult (no_resultCode n) authType (no_authToken n))])
    end
  end.

(** ** Notices of the dialog *)

(* @src C WidgetClient::IsValidNoticeType *)
Definition IsValidNoticeType n : bool :=
  bool_decide (no_event n ∈ [NOTICE_EVENT_AUTH_READY; NOTICE_EVENT_CANCEL_AUTH; NOTICE_EVENT_USER_NAVIGATION;
    NOTICE_EVENT_WIDGET_PARA_INVALID; NOTICE_EVENT_RELOAD; NOTICE_EVENT_END; NOTICE_EVENT_AUTH_WIDGET_LOADED;
    NOTICE_EVENT_AUTH_WIDGET_RELEASED; NOTICE_EVENT_PROCESS_TERMINATE; NOTICE_EVENT_AUTH_SEND_TIP;
    NOTICE_EVENT_COMPLETE_AUTH]).

(** Into an empty list; [None] is [false]. *)
(* @src C WidgetClient::GetAuthTypeList *)
Definition GetAuthTypeList c n : option (list Z) :=
  WHEN authTypeList_ c = [] RETURN None ;;
  let tempList := AuthTypeList n in
  WHEN tempList = [] RETURN None ;;
  if decide (tempList = [ALL]) then
    WHEN no_event n ≠ NOTICE_EVENT_CANCEL_AUTH ∧ no_event n ≠ NOTICE_EVENT_PROCESS_TERMINATE RETURN None ;;
    Some [ALL]
  else
    WHEN length tempList = length (authTypeList_ c) ∧ no_event n = NOTICE_EVENT_CANCEL_AUTH RETURN Some [ALL] ;;
    Some tempList.

(* @src C WidgetClient::ProcessNotice *)
Definition ProcessNotice c n (authTypeList : list Z) : Client * list Out :=
  match GetScheduleNode c (no_widgetContextId n) with
  | None => (c, [])
  | Some schedule =>
    let request r := (c, [ORequest schedule r]) in
    let event e := no_event n = e in
    if decide (event NOTICE_EVENT_AUTH_READY) then
      request (RStartAuthList authTypeList (no_endAfterFirstFail n) (no_authIntent n))
    else if decide (event NOTICE_EVENT_CANCEL_AUTH) then
      if decide (authTypeList = [ALL]) then request RStopSchedule else request (RStopAuthList authTypeList)
    else if decide (event NOTICE_EVENT_USER_NAVIGATION) then request RNaviPinAuth
    else if decide (event NOTICE_EVENT_WIDGET_PARA_INVALID) then request RWidgetParaInvalid
    else if decide (event NOTICE_EVENT_END) then request (RStopAuthList authTypeList)
    else if decide (event NOTICE_EVENT_RELOAD) then
      match authTypeList with
      | [authType] =>
        if decide (authType = ALL) then request RWidgetParaInvalid
        else request (RWidgetReload (no_orientation n) (no_needRotate n) (no_alreadyLoad n) authType)
      | _ => request RWidgetParaInvalid
      end
    else if decide (event NOTICE_EVENT_AUTH_WIDGET_LOADED) then WidgetLoad c (no_widgetContextId n) authTypeList
    else if decide (event NOTICE_EVENT_AUTH_WIDGET_RELEASED) then WidgetRelease c (no_widgetContextId n) authTypeList
    else if decide (event NOTICE_EVENT_PROCESS_TERMINATE) then ClearSchedule c (no_widgetContextId n)
    else if decide (event NOTICE_EVENT_AUTH_SEND_TIP) then (c, [OWidgetTip schedule authTypeList (no_tipCode n)])
    else if decide (event NOTICE_EVENT_COMPLETE_AUTH) then WidgetCompleteAuth c n authTypeList
    else (c, [])
  end.

(** The text ends at a zero byte. *)
(* @src C WidgetClient::OnNotice *)
Definition OnNotice c (type : Z) (eventData : bytes) : Client * list Out * Z :=
  CHECK type = WIDGET_NOTICE ELSE (c, [], INVALID_PARAMETERS) ;;
  WHEN eventData = [] RETURN (c, [], INVALID_PARAMETERS) ;;
  match parse (c_str eventData) with
  | None => (c, [], INVALID_PARAMETERS)
  | Some root =>
    CHECK is_object root = true ELSE (c, [], INVALID_PARAMETERS) ;;
    match from_json float_to root with
    | None => (c, [], INVALID_PARAMETERS)
    | Some notice =>
      WHEN no_widgetContextId notice = 0 RETURN (c, [], INVALID_PARAMETERS) ;;
      CHECK IsValidNoticeType notice = true ELSE (c, [], INVALID_PARAMETERS) ;;
      CHECK is_Some (schedule_ c) ELSE (c, [], GENERAL_ERROR) ;;
      match GetAuthTypeList c notice with
      | None => (c, [], INVALID_PARAMETERS)
      | Some authTypeList => let '(c, out) := ProcessNotice c notice authTypeList in (c, out, SUCCESS)
      end
    end
  end.

(** ** Commands for the dialog *)

(* @src C WidgetClient::SendCommand *)
Definition SendCommand c (command : WidgetCommand) : list Out :=
  match widgetCallback_ c with
  | None => []
  | Some callback => match dump (command_to_json command) with Some cmdData => [OSendCommand callback cmdData] | None => [] end
  end.

Definition no_extra : ExtraInfo := mkExtra [] [].

(* @src C WidgetClient::ReportWidgetResult *)
Definition ReportWidgetResult c (result authType lockoutDuration remainAttempts : Z) (skipLockedBiometricAuth : bool)
    (widgetContextId : Z) (challenge : bytes) : list Out :=
  let sensorInfo := if decide (authType = FINGERPRINT ∧ sensorInfo_ c ≠ []) then sensorInfo_ c else [] in
  let cmd := mkCmd CMD_NOTIFY_AUTH_RESULT NOTICE_VERSION_STR (AuthType2Str authType) result lockoutDuration
    remainAttempts sensorInfo (-1) [] (mkExtra (callingBundleName_ c) challenge) in
  SendCommand c (mkCommand widgetContextId (map AuthType2Str (authTypeList_ c)) (wi_title (widgetParam_ c))
    (pinSubType_ c) (WinModeType2Str (wi_windowMode (widgetParam_ c))) (wi_navigationButtonText (widgetParam_ c))
    [cmd] 0 [] [] [] [] (-1) skipLockedBiometricAuth).

(* @src C WidgetClient::ReportWidgetTip *)
Definition ReportWidgetTip c (tipType authType : Z) (tipInfo : bytes) (skipLockedBiometricAuth : bool)
    (widgetContextId : Z) : list Out :=
  let cmd := mkCmd CMD_NOTIFY_AUTH_TIP NOTICE_VERSION_STR (AuthType2Str authType) (-1) (-1) (-1) [] tipType tipInfo no_extra in
  SendCommand c (mkCommand widgetContextId [] [] [] [] [] [cmd] 0 [] [] [] [] (-1) skipLockedBiometricAuth).

End Client.

(** ** The connection to the dialog *)

Module UIExtensionAbilityConnection.

(* @src U:const SIGNAL_NUM *)
Definition SIGNAL_NUM : Z := 3.

(* @src UH:54-60 UIExtensionAbilityConnection *)
Record Connection := mkConnection {
  commandStr_ : bytes;
  con_widgetContextId_ : Z;
  extRemoteObject_ : option Z;
  isConnectionRelease_ : bool;
  isNormalEnd_ : bool;
}.

(** Requests to the remote object, reports, and what the client is asked. *)
Inductive ConOut :=
  | OnConnectDone (object signal : Z) (parameters : list bytes)
  | OnRemoteStateChanged (object : Z)
  | ReportSystemFault
  | ForceStop (contextId : Z).

Implicit Types (k : Connection).

(** The member is true until the connection is released. *)
(* @src UH:35-40 UIExtensionAbilityConnection *)
Definition Connection_new (commandStr : bytes) (widgetContextId : Z) : Connection :=
  mkConnection commandStr widgetContextId None true false.

(* @src U UIExtensionAbilityConnection::ReleaseUIExtensionComponentInner *)
Definition ReleaseUIExtensionComponentInner k : Connection * list ConOut :=
  (mkConnection (commandStr_ k) (con_widgetContextId_ k) None false (isNormalEnd_ k),
   match extRemoteObject_ k with Some o => [OnRemoteStateChanged o] | None => [] end).

(** [answer] is what [SendRequest] returns. *)
(* @src U UIExtensionAbilityConnection::OnAbilityConnectDone *)
Definition OnAbilityConnectDone k (remoteObject : option Z) (answer : Z) : Connection * list ConOut :=
  CHECK isConnectionRelease_ k = true ELSE (k, []) ;;
  match remoteObject with
  | None => (k, [ForceStop (con_widgetContextId_ k)])
  | Some o =>
    let k := mkConnection (commandStr_ k) (con_widgetContextId_ k) (Some o) (isConnectionRelease_ k) (isNormalEnd_ k) in
    let sent := [OnConnectDone o SIGNAL_NUM [str "bundleName"; str "com.ohos.useriam.authwidget"; str "abilityName";
      str "userauthuiextensionability"; str "parameters"; commandStr_ k]] in
    WHEN answer = SUCCESS RETURN (k, sent) ;;
    let '(k, released) := ReleaseUIExtensionComponentInner k in
    (k, sent ++ released ++ [ForceStop (con_widgetContextId_ k)])
  end.

(* @src U UIExtensionAbilityConnection::OnAbilityDisconnectDone *)
Definition OnAbilityDisconnectDone k : Connection * list ConOut :=
  let fault := if isNormalEnd_ k then [] else [ReportSystemFault] in
  CHECK isConnectionRelease_ k = true ELSE (k, fault) ;;
  (k, fault ++ [ForceStop (con_widgetContextId_ k)]).

(* @src U UIExtensionAbilityConnection::ReleaseUIExtensionComponent *)
Definition ReleaseUIExtensionComponent k : Connection * list ConOut := ReleaseUIExtensionComponentInner k.

(* @src U UIExtensionAbilityConnection::setIsNormalEnd *)
Definition setIsNormalEnd k (isNormalEnd : bool) : Connection :=
  mkConnection (commandStr_ k) (con_widgetContextId_ k) (extRemoteObject_ k) (isConnectionRelease_ k) isNormalEnd.

(* @src U UIExtensionAbilityConnection::GetOnResultEnd *)
Definition GetOnResultEnd k : bool := isNormalEnd_ k.

(** ** Runs of a connection *)

Inductive Event :=
  | Connected (remoteObject : option Z) (answer : Z)
  | Disconnected
  | Released
  | NormalEnd (isNormalEnd : bool).

Definition happens k (e : Event) : Connection * list ConOut :=
  match e with
  | Connected o answer => OnAbilityConnectDone k o answer
  | Disconnected => OnAbilityDisconnectDone k
  | Released => ReleaseUIExtensionComponent k
  | NormalEnd b => (setIsNormalEnd k b, [])
  end.

Fixpoint run k (es : list Event) : Connection * list ConOut :=
  match es with
  | [] => (k, [])
  | e :: es => let '(k, out) := happens k e in let '(k, outs) := run k es in (k, out ++ outs)
  end.

End UIExtensionAbilityConnection.

(** ** The parameters of a remote authentication *)

Section SetWidgetParam.

(** The pool: the context of a number. *)
Context (Select : Z → option Z).

(** The context that is given the parameters. *)
(* @src P SetWidgetParamCallbackService::OnSetRemoteAuthWidgetParam *)
Definition OnSetRemoteAuthWidgetParam (contextId : Z) (ipc : IpcWidgetParamInner) (modalCallback : option Z) :
    Z * option (Z * WidgetParamInner * option Z) :=
  match Select contextId with
  | None => (GENERAL_ERROR, None)
  | Some context =>
    let windowMode := if decide (iw_windowMode ipc = UNKNOWN_WINDOW_MODE) then DIALOG_BOX else iw_windowMode ipc in
    (SUCCESS, Some (context,
      mkWidgetParam (iw_title ipc) (iw_navigationButtonText ipc) windowMode (iw_hasContext ipc), modalCallback))
  end.

End SetWidgetParam.

(** * Theorems *)

(** ** What a notice may do *)

(** Membership of a list of known elements. *)
Ltac one_of H := repeat (apply elem_of_cons in H as [H|H]); first [by apply not_elem_of_nil in H | simplify_eq/=].

(** Two events at once, or one of the others. *)
Ltac clash :=
  exfalso;
  match goal with
  | H1 : no_event ?n = ?A, H2 : no_event ?n = ?B |- _ => rewrite H1 in H2; vm_compute in H2; discriminate
  | H1 : no_event ?n = ?A, H2 : no_event ?n ∈ _ |- _ =>
    rewrite H1 in H2; apply (bool_decide_pack _) in H2; vm_compute in H2; contradiction
  end.

Section Notice.
Context (parse : bytes → option json) (float_to : Number → Z → Z).
Implicit Types (c : Client) (n : WidgetNotice).

Definition target (o : Out) : option Z :=
  match o with ORequest s _ | OWidgetTip s _ _ => Some s | OSendCommand _ _ => None end.

(** The notice that a text says, if the client accepts it. *)
Record accepted c (type : Z) (data : bytes) n : Prop := {
  acc_type : type = WIDGET_NOTICE;
  acc_data : data ≠ [];
  acc_text : ∃ root, parse (c_str data) = Some root ∧ is_object root = true ∧ from_json float_to root = Some n;
  acc_id : no_widgetContextId n ≠ 0;
  acc_event : IsValidNoticeType n = true;
  acc_schedule : is_Some (schedule_ c);
  acc_known : authTypeList_ c ≠ [];
  acc_types : AuthTypeList n ≠ [];
  acc_all : AuthTypeList n = [ALL] → no_event n ∈ [NOTICE_EVENT_CANCEL_AUTH; NOTICE_EVENT_PROCESS_TERMINATE];
}.

(** A request that the notice justifies. *)
Definition justified c n (r : WidgetRequest) : Prop :=
  match r with
  | RStartAuthList types first intent =>
    no_event n = NOTICE_EVENT_AUTH_READY ∧ types = AuthTypeList n ∧ types ≠ [ALL] ∧
    first = no_endAfterFirstFail n ∧ intent = no_authIntent n
  | RStopSchedule =>
    no_event n = NOTICE_EVENT_PROCESS_TERMINATE ∨
    no_event n = NOTICE_EVENT_CANCEL_AUTH ∧
      (AuthTypeList n = [ALL] ∨ length (AuthTypeList n) = length (authTypeList_ c))
  | RStopAuthList types =>
    (no_event n = NOTICE_EVENT_CANCEL_AUTH ∨ no_event n = NOTICE_EVENT_END) ∧ types = AuthTypeList n
  | RClearSchedule => no_event n = NOTICE_EVENT_PROCESS_TERMINATE
  | RNaviPinAuth => no_event n = NOTICE_EVENT_USER_NAVIGATION
  | RWidgetParaInvalid =>
    no_event n = NOTICE_EVENT_WIDGET_PARA_INVALID ∨ no_event n = NOTICE_EVENT_RELOAD ∧ length (AuthTypeList n) ≠ 1%nat
  | RWidgetReload o r a t => no_event n = NOTICE_EVENT_RELOAD ∧ AuthTypeList n = [t] ∧ t ≠ ALL
  | ROnWidgetResult resultCode authType token =>
    no_event n = NOTICE_EVENT_COMPLETE_AUTH ∧ head (AuthTypeList n) = Some authType ∧
    resultCode = no_resultCode n ∧ token = no_authToken n
  | _ => False
  end.

Definition allowed c n (o : Out) : Prop :=
  is_Some (target o) ∧ target o = scheduleMap_ c !! no_widgetContextId n ∧
  match o with ORequest _ r => justified c n r | _ => True end.

Lemma types_all c n types :
  GetAuthTypeList c n = Some types →
  (types = AuthTypeList n ∧ (types = [ALL] → no_event n ∈ [NOTICE_EVENT_CANCEL_AUTH; NOTICE_EVENT_PROCESS_TERMINATE])) ∨
  types = [ALL] ∧ no_event n = NOTICE_EVENT_CANCEL_AUTH ∧ length (AuthTypeList n) = length (authTypeList_ c).
Proof.
  unfold GetAuthTypeList. intros E. repeat case_decide; simplify_eq/=; try naive_solver.
  left. split; [done|]. intros _. destruct (decide (no_event n = NOTICE_EVENT_CANCEL_AUTH)) as [->|]; [by left|].
  destruct (decide (no_event n = NOTICE_EVENT_PROCESS_TERMINATE)) as [->|]; [by right; left|]. naive_solver.
Qed.

(** Clearing calls only the schedule that is registered, and removes it. *)
Lemma clear_calls c id :
  (∀ o, o ∈ (ClearSchedule c id).2 → is_Some (target o) ∧ target o = scheduleMap_ c !! id ∧
    match o with ORequest _ r => r = RStopSchedule ∨ r = RClearSchedule | _ => True end) ∧
  scheduleMap_ (ClearSchedule c id).1 = delete id (scheduleMap_ c).
Proof.
  unfold ClearSchedule, GetScheduleNode. destruct (scheduleMap_ c !! id) as [s|] eqn:E.
  - repeat case_decide; simpl; (split; [|done]); intros o Ho; one_of Ho; split_and?; eauto.
  - simpl. split; [by intros o ?%not_elem_of_nil|]. by rewrite delete_id.
Qed.

Lemma process_allowed c n types o :
  GetAuthTypeList c n = Some types → o ∈ (ProcessNotice c n types).2 → allowed c n o.
Proof.
  intros Ht%types_all. unfold ProcessNotice, GetScheduleNode, allowed.
  destruct (scheduleMap_ c !! no_widgetContextId n) as [s|] eqn:Es; [|by intros ?%not_elem_of_nil].
  assert (types = [ALL] → no_event n ∈ [NOTICE_EVENT_CANCEL_AUTH; NOTICE_EVENT_PROCESS_TERMINATE]) as Hall.
  { intros ->. destruct Ht as [[_ H]|(_ & -> & _)]; [by apply H|by left]. }
  assert (no_event n ≠ NOTICE_EVENT_CANCEL_AUTH → types = AuthTypeList n) as Hty by naive_solver.
  destruct (decide (_ = NOTICE_EVENT_AUTH_READY)) as [He|_].
  { intros Ho. one_of Ho. split_and!; eauto; [apply Hty; intros ?; clash|intros H; specialize (Hall H); clash]. }
  destruct (decide (_ = NOTICE_EVENT_CANCEL_AUTH)) as [He|_].
  { intros Ho. case_decide as Ha; one_of Ho; (split; [eauto|split; [done|]]); simpl; naive_solver. }
  destruct (decide (_ = NOTICE_EVENT_USER_NAVIGATION)) as [He|_]; [intros Ho; one_of Ho; eauto|].
  destruct (decide (_ = NOTICE_EVENT_WIDGET_PARA_INVALID)) as [He|_]; [intros Ho; one_of Ho; eauto 6|].
  destruct (decide (_ = NOTICE_EVENT_END)) as [He|_].
  { intros Ho. one_of Ho. split_and!; eauto. apply Hty. intros ?. clash. }
  destruct (decide (_ = NOTICE_EVENT_RELOAD)) as [He|_].
  { assert (no_event n ≠ NOTICE_EVENT_CANCEL_AUTH) as Hc by (intros ?; clash). specialize (Hty Hc).
    destruct types as [|t [|t' types]]; [|case_decide as Ha|]; intros Ho; one_of Ho;
      (split; [eauto|split; [done|]]); simpl; rewrite <-?Hty; simpl; auto.
    specialize (Hall eq_refl). clash. }
  destruct (decide (_ = NOTICE_EVENT_AUTH_WIDGET_LOADED)) as [He|_].
  { unfold WidgetLoad, GetScheduleNode. rewrite Es. case_decide; intros Ho; one_of Ho; eauto. }
  destruct (decide (_ = NOTICE_EVENT_AUTH_WIDGET_RELEASED)) as [He|_].
  { unfold WidgetRelease, GetScheduleNode. rewrite Es. case_decide; intros Ho; one_of Ho; eauto. }
  destruct (decide (_ = NOTICE_EVENT_PROCESS_TERMINATE)) as [He|_].
  { intros (H1 & H2 & H3)%(proj1 (clear_calls c _)). rewrite <-Es. split_and!; [done|done|].
    destruct o; [|done|done]. destruct H3 as [->| ->]; simpl; auto. }
  destruct (decide (_ = NOTICE_EVENT_AUTH_SEND_TIP)) as [He|_]; [intros Ho; one_of Ho; eauto|].
  destruct (decide (_ = NOTICE_EVENT_COMPLETE_AUTH)) as [He|_]; [|by intros ?%not_elem_of_nil].
  unfold WidgetCompleteAuth, GetScheduleNode. rewrite Es. destruct types as [|t types]; intros Ho; one_of Ho.
  split_and!; eauto. rewrite <-Hty; [done|]. intros ?. clash.
Qed.

(** A notice keeps the registered schedules, but for one that ends its own. *)
Lemma process_map c n types :
  scheduleMap_ (ProcessNotice c n types).1 =
  (if decide (no_event n = NOTICE_EVENT_PROCESS_TERMINATE) then delete (no_widgetContextId n) (scheduleMap_ c)
   else scheduleMap_ c).
Proof.
  unfold ProcessNotice, GetScheduleNode.
  destruct (scheduleMap_ c !! no_widgetContextId n) as [s|] eqn:Es; simpl.
  2:{ case_decide; [by rewrite delete_id|done]. }
  destruct (decide (_ = NOTICE_EVENT_PROCESS_TERMINATE)) as [He|He].
  - repeat (rewrite decide_False by (intros ?; clash)). apply clear_calls.
  - unfold WidgetLoad, WidgetRelease, WidgetCompleteAuth, GetScheduleNode. rewrite Es.
    case_decide; [done|]. case_decide; [by case_decide|]. do 3 (case_decide; [done|]).
    case_decide; [by destruct types as [|? []]; [|case_decide|]|]. do 2 (case_decide; [by case_decide|]).
    case_decide; [done|]. case_decide; [by destruct types|done].
Qed.

Lemma accepted_types c type data n : accepted c type data n → is_Some (GetAuthTypeList c n).
Proof.
  intros [? ? ? ? ? ? Hk Ht Hl]. unfold GetAuthTypeList. rewrite decide_False by done. rewrite decide_False by done.
  destruct (decide (_ = [ALL])) as [Ha|]; [|by case_decide]. pose proof (Hl Ha) as He. rewrite decide_False; [done|]. intros [H1 H2]. one_of He.
Qed.

Lemma notice_accepted c type data n :
  accepted c type data n →
  ∃ types, GetAuthTypeList c n = Some types ∧
    OnNotice parse float_to c type data = (let '(c', out) := ProcessNotice c n types in (c', out, SUCCESS)).
Proof.
  intros H. destruct (accepted_types _ _ _ _ H) as [types Ht]. exists types. split; [done|].
  destruct H as [H1 H2 (root & Hp & Ho & Hn) H3 H4 H5 H6 H7 H8]. unfold OnNotice.
  rewrite decide_True by done. rewrite decide_False by done. rewrite Hp, decide_True by done.
  rewrite Hn, decide_False by done. rewrite decide_True by done. rewrite decide_True by done. by rewrite Ht.
Qed.

Ltac refuse := right; eexists; split; cycle 1; [reflexivity|done].

Lemma notice_rejected c type data :
  (∃ n, accepted c type data n) ∨
  ∃ code, code ≠ SUCCESS ∧ OnNotice parse float_to c type data = (c, [], code).
Proof.
  unfold OnNotice.
  destruct (decide (type = _)); [|refuse]. destruct (decide (data = _)); [refuse|].
  destruct (parse _) as [root|] eqn:Hp; [|refuse]. destruct (decide (_ = true)) as [Ho|]; [|refuse].
  destruct (from_json _ root) as [m|] eqn:Hn; [|refuse]. destruct (decide (_ = 0)); [refuse|].
  destruct (decide (_ = true)); [|refuse]. destruct (decide (is_Some _)); [|refuse].
  destruct (GetAuthTypeList c m) as [types|] eqn:Ht; [|refuse]. left. exists m.
  unfold GetAuthTypeList in Ht. destruct (decide (_ = [])); [done|]. destruct (decide (_ = [])); [done|].
  split; eauto. intros Ha. rewrite decide_True in Ht by done. case_decide as Hc; [done|].
  destruct (decide (no_event m = NOTICE_EVENT_CANCEL_AUTH)) as [->|]; [by left|].
  destruct (decide (no_event m = NOTICE_EVENT_PROCESS_TERMINATE)) as [->|]; [by right; left|]. by destruct Hc.
Qed.


End Notice.

(** ** Every schedule is cleared once *)

Section Histories.
Context (parse : bytes → option json) (dump : json → option bytes) (float_to : Number → Z → Z).
Implicit Types (c : Client).

(** What contexts, dialogs and connections do with the client. *)
Inductive Op :=
  | OpSchedule (contextId schedule : Z)
  | OpNotice (type : Z) (eventData : bytes)
  | OpClear (contextId : Z)
  | OpForceStop
  | OpReset
  | OpBegin (param : WidgetParamInner) (types : list Z) (callback : option Z) (tokenId : Z)
  | OpResult (result authType lockoutDuration remainAttempts : Z) (skip : bool) (contextId : Z) (challenge : bytes)
  | OpTip (tipType authType : Z) (tipInfo : bytes) (skip : bool) (contextId : Z).

Definition step c (op : Op) : Client * list Out :=
  match op with
  | OpSchedule id s => (SetWidgetSchedule c id (Some s), [])
  | OpNotice type data => (OnNotice parse float_to c type data).1
  | OpClear id => ClearSchedule c id
  | OpForceStop => ForceStopAuth c
  | OpReset => (Reset c, [])
  | OpBegin param types callback tokenId =>
    (SetAuthTokenId (SetWidgetCallback (SetAuthTypeList (SetWidgetParam c param) types) callback) tokenId, [])
  | OpResult r ty l a skip id ch => (c, ReportWidgetResult dump c r ty l a skip id ch)
  | OpTip tip ty info skip id => (c, ReportWidgetTip dump c tip ty info skip id)
  end.

Definition run (ops : list Op) : Client * list Out :=
  foldl (λ '(c, out) op, let '(c, more) := step c op in (c, out ++ more)) (Client_new, []) ops.

Definition scheduled (op : Op) : option (Z * Z) := match op with OpSchedule id s => Some (id, s) | _ => None end.

Definition is_clear (s : Z) (o : Out) : Prop := o = ORequest s RClearSchedule.
#[local] Instance is_clear_dec s o : Decision (is_clear s o).
Proof. unfold is_clear. destruct o as [s' r| |]; [|by right|by right]. destruct r; try (by right; intros [=]).
  destruct (decide (s' = s)) as [->|]; [by left|by right; intros [=]]. Defined.

Definition clears (s : Z) (out : list Out) : nat := length (filter (is_clear s) out).

Lemma clears_app s out out' : clears s (out ++ out') = (clears s out + clears s out')%nat.
Proof. unfold clears. by rewrite filter_app, length_app. Qed.

(** What an operation does to the map and says of clearing: nothing, or it
    removes one schedule and clears that. *)
Definition quiet c c' (out : list Out) : Prop := scheduleMap_ c' = scheduleMap_ c ∧ ∀ s, clears s out = 0%nat.
Definition clears_one c c' (out : list Out) : Prop :=
  ∃ id s, scheduleMap_ c !! id = Some s ∧ scheduleMap_ c' = delete id (scheduleMap_ c) ∧
    ∀ s', clears s' out = if decide (s' = s) then 1%nat else 0%nat.

Lemma clears_none s out : (∀ o, o ∈ out → ¬ is_clear s o) → clears s out = 0%nat.
Proof.
  unfold clears. induction out as [|o out IH]; intros H; [done|]. rewrite filter_cons, decide_False by (apply H; by left).
  apply IH. intros o' Ho'. apply H. by right.
Qed.

Lemma ClearSchedule_step c id : quiet c (ClearSchedule c id).1 (ClearSchedule c id).2 ∨
  clears_one c (ClearSchedule c id).1 (ClearSchedule c id).2.
Proof.
  unfold ClearSchedule, GetScheduleNode. destruct (scheduleMap_ c !! id) as [s|] eqn:E; [|by left].
  right. exists id, s. split; [done|]. repeat case_decide; simpl; (split; [done|]); intros s'; unfold clears;
    rewrite ?filter_cons, filter_nil; repeat (case_decide; simplify_eq/=); unfold is_clear in *; naive_solver.
Qed.

Lemma ForceStop_step c : quiet c (ForceStopAuth c).1 (ForceStopAuth c).2 ∨ clears_one c (ForceStopAuth c).1 (ForceStopAuth c).2.
Proof.
  unfold ForceStopAuth. pose proof (ClearSchedule_step c (widgetContextId_ c)) as H.
  destruct (ClearSchedule c (widgetContextId_ c)) as [c' out]. simpl in *.
  assert (∀ s, clears s (match schedule_ c with Some s => [ORequest s RStopSchedule] | None => [] end) = 0%nat) as H0.
  { intros s. destruct (schedule_ c); [|done]. apply clears_none. intros o Ho. by one_of Ho. }
  destruct H as [[Hm Hc]|(id & s & H1 & H2 & Hc)]; [left|right].
  - split; [done|]. intros s. by rewrite clears_app, H0, Hc.
  - exists id, s. split_and!; [done|done|]. intros s'. by rewrite clears_app, H0, Hc.
Qed.

Lemma OnNotice_step c type data : let '(c', out) := (OnNotice parse float_to c type data).1 in
  quiet c c' out ∨ clears_one c c' out.
Proof.
  destruct (notice_rejected parse float_to c type data) as [[n Hn]|(code & _ & ->)]; [|by left].
  destruct (notice_accepted parse float_to c type data n Hn) as (types & Ht & ->).
  destruct (decide (no_event n = NOTICE_EVENT_PROCESS_TERMINATE)) as [He|He].
  - assert (ProcessNotice c n types = ClearSchedule c (no_widgetContextId n)) as ->.
    { unfold ProcessNotice. destruct (GetScheduleNode c _) eqn:E; [|unfold ClearSchedule; by rewrite E].
      do 8 (rewrite decide_False by (intros ?; clash)). by rewrite decide_True. }
    pose proof (ClearSchedule_step c (no_widgetContextId n)). by destruct (ClearSchedule c _).
  - pose proof (process_map c n types) as Hm. pose proof (process_allowed c n types) as Hp.
    rewrite decide_False in Hm by done. destruct (ProcessNotice c n types) as [c' out]. left. split; [done|].
    intros s. apply clears_none. intros o Ho ->. by destruct (Hp _ Ht Ho) as (_ & _ & He').
Qed.

Lemma SendCommand_quiet c command s : clears s (SendCommand dump c command) = 0%nat.
Proof. unfold SendCommand. apply clears_none. intros o Ho ->. repeat case_match; one_of Ho. Qed.

Lemma step_cases c op :
  let '(c', out) := step c op in
  (∃ id s, op = OpSchedule id s ∧ (∀ s, clears s out = 0%nat) ∧
    scheduleMap_ c' = match scheduleMap_ c !! id with Some _ => scheduleMap_ c | None => <[id := s]> (scheduleMap_ c) end) ∨
  scheduled op = None ∧ (quiet c c' out ∨ clears_one c c' out).
Proof.
  destruct op as [id s|type data|id| | |param types callback tokenId|r ty l a skip id ch|tip ty info skip id]; simpl.
  - left. exists id, s. split_and!; [done|done|]. unfold InsertScheduleNode. simpl. by destruct (scheduleMap_ c !! id).
  - pose proof (OnNotice_step c type data). destruct ((OnNotice parse float_to c type data).1). by right.
  - pose proof (ClearSchedule_step c id). destruct (ClearSchedule c id). by right.
  - pose proof (ForceStop_step c). destruct (ForceStopAuth c). by right.
  - by right; split; [|left].
  - by right; split; [|left].
  - right. split; [done|left; split; [done|]]. intros s. apply SendCommand_quiet.
  - right. split; [done|left; split; [done|]]. intros s. apply SendCommand_quiet.
Qed.

(** Every registered schedule is of the history, and not cleared; every other of
    the history was cleared once. *)
Record history_ok (ops : list Op) c (out : list Out) : Prop := {
  ho_map : ∀ id s, scheduleMap_ c !! id = Some s → (id, s) ∈ omap scheduled ops;
  ho_fate : ∀ id s, (id, s) ∈ omap scheduled ops →
    (scheduleMap_ c !! id = Some s ∧ clears s out = 0%nat) ∨ (scheduleMap_ c !! id = None ∧ clears s out = 1%nat);
  ho_other : ∀ s, s ∉ (omap scheduled ops).*2 → clears s out = 0%nat;
}.

Lemma snd_once (l : list (Z * Z)) a b s : NoDup l.*2 → (a, s) ∈ l → (b, s) ∈ l → a = b.
Proof.
  induction l as [|[i t] l IH]; simpl; [by intros _ ?%not_elem_of_nil|]. intros [Hn Hl]%NoDup_cons.
  intros [[= <- <-]|Ha]%elem_of_cons [[= <-]|Hb]%elem_of_cons; [done| | |by apply IH].
  - destruct Hn. apply list_elem_of_fmap. by exists (b, s).
  - subst. destruct Hn. apply list_elem_of_fmap. by exists (a, t).
Qed.

Lemma history_step ops c out op :
  NoDup (omap scheduled (ops ++ [op])).*1 → NoDup (omap scheduled (ops ++ [op])).*2 → history_ok ops c out →
  let '(c', more) := step c op in history_ok (ops ++ [op]) c' (out ++ more).
Proof.
  intros Hn1 Hn2 [H1 H2 H3]. pose proof (step_cases c op) as Hs. destruct (step c op) as [c' more].
  destruct Hs as [(id & s & -> & Hc & Hm)|(Hop & Hs)].
  - rewrite omap_app in *. simpl in *. rewrite !fmap_app in Hn1, Hn2. simpl in *.
    assert (id ∉ (omap scheduled ops).*1) as Hid by (apply NoDup_app in Hn1 as (_ & Hd & _); intros Hi; apply (Hd _ Hi); by left).
    assert (s ∉ (omap scheduled ops).*2) as Hs by (apply NoDup_app in Hn2 as (_ & Hd & _); intros Hi; apply (Hd _ Hi); by left).
    assert (scheduleMap_ c !! id = None) as Hid'.
    { destruct (scheduleMap_ c !! id) as [s'|] eqn:E; [|done]. destruct Hid. apply list_elem_of_fmap. by exists (id, s'); auto. }
    rewrite Hid' in Hm. split.
    + rewrite Hm, omap_app. intros id' s' [[<- <-]|[_ E]]%lookup_insert_Some; apply elem_of_app; [right; by left|left; auto].
    + rewrite Hm, omap_app. intros id' s' [E|[[= -> ->]|?%not_elem_of_nil]%elem_of_cons]%elem_of_app; [| |done].
      * rewrite lookup_insert_ne, clears_app, Hc, Nat.add_0_r; [by apply H2|].
        intros <-. destruct Hid. apply list_elem_of_fmap. by exists (id, s').
      * left. rewrite lookup_insert_eq, clears_app, Hc, H3 by done. done.
    + rewrite omap_app, fmap_app. intros s' Hs'. rewrite clears_app, Hc, H3; [done|]. set_solver.
  - assert (omap scheduled (ops ++ [op]) = omap scheduled ops) as E by (rewrite omap_app; simpl; by rewrite Hop, app_nil_r).
    rewrite E in Hn1, Hn2. destruct Hs as [[Hm Hc]|(id0 & s0 & H0 & Hm & Hc)].
    + split; rewrite ?E; rewrite ?Hm; [done| |].
      * intros id s Hs. rewrite clears_app, Hc, Nat.add_0_r. by apply H2.
      * intros s Hs. rewrite clears_app, Hc, Nat.add_0_r. by apply H3.
    + split; rewrite ?E; rewrite ?Hm.
      * intros id s [_ Hs]%lookup_delete_Some. auto.
      * intros id s Hs. rewrite clears_app, Hc. destruct (decide (id = id0)) as [->|Hne].
        { rewrite lookup_delete_eq. destruct (H2 _ _ Hs) as [[H0' Hz]|[H0' _]]; [|congruence].
          rewrite H0 in H0'. injection H0' as <-. right. rewrite Hz, decide_True by done. done. }
        rewrite lookup_delete_ne, decide_False, Nat.add_0_r by (try done; intros ->; destruct Hne; eauto using snd_once).
        by apply H2.
      * intros s Hs. rewrite clears_app, Hc, H3 by done. rewrite decide_False; [done|]. intros ->.
        apply Hs, list_elem_of_fmap. by exists (id0, s0); auto.
Qed.

(** Contexts have numbers and schedules of their own. Whatever else happens, in
    whatever order: the schedule of a context is registered and not cleared, or
    it was cleared once and is registered no more. *)
Theorem schedules_cleared_once ops :
  NoDup (omap scheduled ops).*1 → NoDup (omap scheduled ops).*2 →
  let '(c, out) := run ops in
  ∀ id s, (id, s) ∈ omap scheduled ops →
    (scheduleMap_ c !! id = Some s ∧ clears s out = 0%nat) ∨ (scheduleMap_ c !! id = None ∧ clears s out = 1%nat).
Proof.
  intros Hn1 Hn2. assert (let '(c, out) := run ops in history_ok ops c out) as H.
  { induction ops as [|op ops IH] using rev_ind; [by split; [intros ?? [=]|intros ?? ?%not_elem_of_nil|]|].
    unfold run in *. rewrite foldl_app. pose proof (history_step ops) as Hs.
    assert (NoDup (omap scheduled ops).*1 ∧ NoDup (omap scheduled ops).*2) as [Hn1' Hn2'].
    { rewrite omap_app, !fmap_app in Hn1, Hn2. by split; [apply NoDup_app in Hn1 as [? _]|apply NoDup_app in Hn2 as [? _]]. }
    specialize (IH Hn1' Hn2').
    destruct (foldl _ (Client_new, []) ops) as [c out]. specialize (Hs c out op Hn1 Hn2 IH). simpl. by destruct (step c op). }
  destruct (run ops) as [c out]. apply H.
Qed.

End Histories.

(** ** Instances *)

(** A parser that knows a few notices. *)
Definition ex_notice (event : bytes) (id : Z) (types : list bytes) : WidgetNotice :=
  mkNotice id event 0 0 0 [] types false 0 0 GENERAL_ERROR [].
Definition ex_parse (text : bytes) : option json :=
  if decide (text = str "ready1") then Some (notice_to_json (ex_notice NOTICE_EVENT_AUTH_READY 1 [AUTH_TYPE_PIN]))
  else if decide (text = str "loaded1") then Some (notice_to_json (ex_notice NOTICE_EVENT_AUTH_WIDGET_LOADED 1 [AUTH_TYPE_PIN]))
  else if decide (text = str "end1") then Some (notice_to_json (ex_notice NOTICE_EVENT_PROCESS_TERMINATE 1 [AUTH_TYPE_ALL]))
  else None.
Definition ex_dump (j : json) : option bytes := None.
Definition ex_begin : Op := OpBegin no_param [PIN; FACE] (Some 7) 100.


Lemma schedules_cleared_once_witness :
  let ops := [OpSchedule 1 11; ex_begin; OpNotice WIDGET_NOTICE (str "end1"); OpClear 1; OpSchedule 2 12] in
  let '(c, out) := run ex_parse ex_dump ex_float_to ops in
  ∀ id s, (id, s) ∈ omap scheduled ops →
    (scheduleMap_ c !! id = Some s ∧ clears s out = 0%nat) ∨ (scheduleMap_ c !! id = None ∧ clears s out = 1%nat).
Proof.
  apply (schedules_cleared_once ex_parse ex_dump ex_float_to); apply (bool_decide_unpack _); by vm_compute.
Defined.

(** The dialog of context 1 is loaded, context 2 begins, context 1 ends: the
    caller of 1 is not told that its dialog was released, and when context 2 ends
    its caller is told so of types that it never loaded. *)
Example loaded_types_kept :
  (run ex_parse ex_dump ex_float_to
    [OpSchedule 1 11; ex_begin; OpNotice WIDGET_NOTICE (str "loaded1"); OpSchedule 2 12; OpClear 1; OpClear 2]).2 =
  [OWidgetTip 11 [PIN] TIP_CODE_WIDGET_LOADED; ORequest 11 RStopSchedule; ORequest 11 RClearSchedule;
   OWidgetTip 12 [PIN] TIP_CODE_WIDGET_RELEASED; ORequest 12 RStopSchedule; ORequest 12 RClearSchedule].
Proof. by vm_compute. Qed.

(** When the last context has ended, an older one that still has its schedule is
    heard no more. *)
Example older_context_unheard :
  (OnNotice ex_parse ex_float_to
    (run ex_parse ex_dump ex_float_to [OpSchedule 1 11; OpSchedule 2 12; ex_begin; OpClear 2]).1
    WIDGET_NOTICE (str "ready1")).2 = GENERAL_ERROR.
Proof. by vm_compute. Qed.

(** A type that the context does not have is started all the same. *)
Example other_types_started :
  (OnNotice ex_parse ex_float_to
    (SetAuthTypeList (run ex_parse ex_dump ex_float_to [OpSchedule 1 11]).1 [FACE]) WIDGET_NOTICE (str "ready1")).1.2 =
  [ORequest 11 (RStartAuthList [PIN] false 0)].
Proof. by vm_compute. Qed.

(** ** The connection *)

Module ConnectionThm.
Import UIExtensionAbilityConnection.

(** A connection that was released asks nothing of the client or the dialog any
    more, and before that it stops its own context only. *)
Lemma connection_quiet k es :
  (∀ id, ForceStop id ∈ (run k es).2 → id = con_widgetContextId_ k) ∧
  (isConnectionRelease_ k = false → extRemoteObject_ k = None → ∀ o, o ∈ (run k es).2 → o = ReportSystemFault).
Proof.
  revert k. induction es as [|e es IH]; intros k; simpl; [by split; [intros ? ?%not_elem_of_nil|intros _ _ ? ?%not_elem_of_nil]|].
  assert (∀ k1 out1, happens k e = (k1, out1) → con_widgetContextId_ k1 = con_widgetContextId_ k ∧
    (∀ id, ForceStop id ∈ out1 → id = con_widgetContextId_ k) ∧
    (isConnectionRelease_ k = false → extRemoteObject_ k = None → isConnectionRelease_ k1 = false ∧
      extRemoteObject_ k1 = None ∧ ∀ o, o ∈ out1 → o = ReportSystemFault)) as H.
  { intros k1 out1. destruct e as [[o|] answer| | |b]; simpl; unfold OnAbilityConnectDone, OnAbilityDisconnectDone,
      ReleaseUIExtensionComponent, ReleaseUIExtensionComponentInner; intros E; repeat case_decide; repeat case_match;
      simplify_eq/=; (split; [done|]); split; try done; intros; simplify_eq/=; try (split_and!; [done|done|]; intros);
      repeat match goal with Hx : _ ∈ _ :: _ |- _ => apply elem_of_cons in Hx as [Hx|Hx] end; simplify_eq/=; try done;
      first [congruence | by match goal with Hx : _ ∈ [] |- _ => apply not_elem_of_nil in Hx end]. }
  destruct (happens k e) as [k1 out1]. destruct (H k1 out1 eq_refl) as (Hid & Hf & Hr).
  specialize (IH k1). destruct (run k1 es) as [k2 out2]. simpl in *. destruct IH as [IH1 IH2]. split.
  - intros id [?|?]%elem_of_app; [by apply Hf|]. rewrite <-Hid. by apply IH1.
  - intros H1 H2 o. destruct (Hr H1 H2) as (? & ? & ?). intros [?|?]%elem_of_app; auto.
Qed.

End ConnectionThm.
