(* ===== verification/WidgetScheduleThm.v ===== *)
(** * Widget schedules: what they promise

    The theorems on the model of WidgetScheduleNode.v. The life of a schedule
    is a transition system ([wstep]) in which requests, single rounds of the
    machine, and changes of the object behind the callback interleave freely. *)

From S2P Require Import Prelude Defines Fsm WidgetScheduleNode.

(** ** The protocol of the callbacks

    What a schedule may call, in which order: the abstract automaton. It starts
    authentications of types that do not run, stops some of them, ends once,
    is released once, and then only passes on tips. *)

Inductive phase :=
  | PRun (running : gset Z)
  | PEnded
  | PReleased.

Definition protocol_step (p : phase) (k : WidgetCall) : option phase :=
  match k, p with
  | COnScheduleAuthTip _ _, _ => Some p
  | CExecuteAuthList types _ _, PRun running =>
      if decide (types ## running) then Some (PRun (running ∪ types)) else None
  | CStopAuthList types, PRun running => Some (PRun (running ∖ list_to_set types))
  | (CLaunchWidget | CAuthWidgetReload _ _ _ _ | CAuthWidgetReloadInit | CGetRemoteAuthParam), PRun _ => Some p
  | (CEndAuthAsCancel | CEndAuthAsNaviPin | CEndAuthAsWidgetParaInvalid | COnAuthSuccess _ | COnAuthFail _ |
     COnScheduleAuthResult _ _ _), PRun _ => Some PEnded
  | CClearSchedule, (PRun _ | PEnded) => Some PReleased
  | _, _ => None
  end.

Fixpoint protocol (p : phase) (calls : list WidgetCall) : option phase :=
  match calls with
  | [] => Some p
  | k :: calls => match protocol_step p k with Some p => protocol p calls | None => None end
  end.

Lemma protocol_snoc p calls k :
  protocol p (calls ++ [k]) = match protocol p calls with Some p => protocol_step p k | None => None end.
Proof.
  revert p. induction calls as [|k' calls IH]; intros p; simpl; [by destruct (protocol_step p k)|].
  destruct (protocol_step p k'); [apply IH|done].
Qed.

(** ** The transition table *)

Definition wstate_ok (st : Z) : Prop := 0 ≤ st ≤ 6.
Definition wevent_ok (e : Z) : Prop := 0 ≤ e ≤ 12.

Section Rounds.
Context {C : Type} `{WidgetScheduleNodeCallback C}.
Implicit Types (n : WNode C) (s : WidgetScheduleNode C) (m : Fsm (list Z)).

Definition wtransitions : list (Z * Z * Z * (WNode C → Z → WNode C * list kick)) :=
  [(S_WIDGET_INIT, E_GET_REMOTE_AUTH_PARAM, S_WIDGET_PARAM_WAITING, OnGetRemoteAuthParam);
   (S_WIDGET_INIT, E_START_WIDGET, S_WIDGET_WAITING, OnStartSchedule);
   (S_WIDGET_INIT, E_START_DIRECT_AUTH, S_WIDGET_AUTH_RUNNING, OnStartDirectAuth);
   (S_WIDGET_INIT, E_WIDGET_RELEASE, S_WIDGET_RELEASED, OnWidgetRelease);
   (S_WIDGET_WAITING, E_START_AUTH, S_WIDGET_AUTH_RUNNING, OnStartAuth);
   (S_WIDGET_WAITING, E_CANCEL_AUTH, S_WIDGET_AUTH_FINISHED, OnStopSchedule);
   (S_WIDGET_WAITING, E_NAVI_PIN_AUTH, S_WIDGET_AUTH_FINISHED, OnNaviPinAuth);
   (S_WIDGET_WAITING, E_NOTICE_COMPLETE_AUTH, S_WIDGET_AUTH_FINISHED, OnSendAuthResult);
   (S_WIDGET_WAITING, E_WIDGET_PARA_INVALID, S_WIDGET_AUTH_FINISHED, OnWidgetParaInvalid);
   (S_WIDGET_WAITING, E_WIDGET_RELOAD, S_WIDGET_RELOAD_WAITING, OnWidgetReloadInit);
   (S_WIDGET_WAITING, E_WIDGET_RELEASE, S_WIDGET_RELEASED, OnWidgetRelease);
   (S_WIDGET_AUTH_RUNNING, E_COMPLETE_AUTH, S_WIDGET_AUTH_FINISHED, OnSuccessAuth);
   (S_WIDGET_AUTH_RUNNING, E_NOTICE_COMPLETE_AUTH, S_WIDGET_AUTH_FINISHED, OnSendAuthResult);
   (S_WIDGET_AUTH_RUNNING, E_STOP_AUTH, S_WIDGET_AUTH_FINISHED, OnFailAuth);
   (S_WIDGET_AUTH_RUNNING, E_CANCEL_AUTH, S_WIDGET_AUTH_FINISHED, OnStopSchedule);
   (S_WIDGET_AUTH_RUNNING, E_NAVI_PIN_AUTH, S_WIDGET_AUTH_FINISHED, OnNaviPinAuth);
   (S_WIDGET_AUTH_RUNNING, E_START_AUTH, S_WIDGET_AUTH_RUNNING, OnStartAuth);
   (S_WIDGET_AUTH_RUNNING, E_UPDATE_AUTH, S_WIDGET_AUTH_RUNNING, OnStopAuthList);
   (S_WIDGET_AUTH_RUNNING, E_WIDGET_PARA_INVALID, S_WIDGET_AUTH_FINISHED, OnWidgetParaInvalid);
   (S_WIDGET_AUTH_RUNNING, E_WIDGET_RELOAD, S_WIDGET_RELOAD_WAITING, OnWidgetReloadInit);
   (S_WIDGET_AUTH_RUNNING, E_WIDGET_RELEASE, S_WIDGET_RELEASED, OnWidgetRelease);
   (S_WIDGET_RELOAD_WAITING, E_CANCEL_AUTH, S_WIDGET_WAITING, OnWidgetReload);
   (S_WIDGET_RELOAD_WAITING, E_WIDGET_RELEASE, S_WIDGET_RELEASED, OnWidgetRelease);
   (S_WIDGET_PARAM_WAITING, E_START_WIDGET, S_WIDGET_WAITING, OnStartSchedule);
   (S_WIDGET_PARAM_WAITING, E_CANCEL_AUTH, S_WIDGET_RELEASED, OnStopSchedule);
   (S_WIDGET_AUTH_FINISHED, E_WIDGET_RELEASE, S_WIDGET_RELEASED, OnWidgetRelease)].

(** The table as a function; [None] where the machine ignores the event. *)
Fixpoint wfind (l : list (Z * Z * Z * (WNode C → Z → WNode C * list kick))) (state event : Z) :
    option (Z * (WNode C → Z → WNode C * list kick)) :=
  match l with
  | [] => None
  | (s, e, new, h) :: l => if (s =? state) && (e =? event) then Some (new, h) else wfind l state event
  end.
Definition wdelta (state event : Z) := wfind wtransitions state event.

Lemma wfind_in l state event new h : wfind l state event = Some (new, h) → (state, event, new, h) ∈ l.
Proof.
  induction l as [|[[[s e] n'] h'] l IH]; simpl; [done|].
  destruct (s =? state) eqn:Hs, (e =? event) eqn:He; simpl; try (intros; right; by apply IH).
  apply Z.eqb_eq in Hs as ->, He as ->. intros [= <- <-]. left.
Qed.

(** The shape of the table does not depend on the handlers. *)
Ltac gen_handlers :=
  generalize (OnFailAuth (C := C));
  generalize (OnGetRemoteAuthParam (C := C));
  generalize (OnNaviPinAuth (C := C));
  generalize (OnSendAuthResult (C := C));
  generalize (OnStartAuth (C := C));
  generalize (OnStartDirectAuth (C := C));
  generalize (OnStartSchedule (C := C));
  generalize (OnStopAuthList (C := C));
  generalize (OnStopSchedule (C := C));
  generalize (OnSuccessAuth (C := C));
  generalize (OnWidgetParaInvalid (C := C));
  generalize (OnWidgetRelease (C := C));
  generalize (OnWidgetReload (C := C));
  generalize (OnWidgetReloadInit (C := C)).

Lemma wtables_find st e : wstate_ok st → wevent_ok e →
  transitionMap_ tables !! GetTransitionIndex st e = (λ '(new, h), (new, MakeAction h)) <$> wdelta st e.
Proof.
  unfold tables, MakeFiniteStateMachine, BuildInitStateTransitions, BuildWaitingStateTransitions,
    BuildAuthRunningStateTransitions, BuildReloadWaitingStateTransitions, BuildParamWaitingStateTransitions,
    BuildAuthFinishedStateTransitions, wdelta, wtransitions, wstate_ok, wevent_ok.
  gen_handlers. intros h0 h1 h2 h3 h4 h5 h6 h7 h8 h9 h10 h11 h12 h13 Hs He.
  assert (st ∈ [0; 1; 2; 3; 4; 5; 6]) as Hst by (rewrite !elem_of_cons; lia).
  assert (e ∈ [0; 1; 2; 3; 4; 5; 6; 7; 8; 9; 10; 11; 12]) as Hev by (rewrite !elem_of_cons; lia).
  clear Hs He. rewrite !elem_of_cons, elem_of_nil in Hst. rewrite !elem_of_cons, elem_of_nil in Hev.
  repeat (destruct Hst as [-> |Hst]; [clear -Hev; repeat (destruct Hev as [-> |Hev]; [vm_compute; reflexivity|]); done|]).
  done.
Qed.

Lemma wtables_plain st : enterMap_ (S := WNode C) tables !! st = None ∧ leaveMap_ (S := WNode C) tables !! st = None.
Proof.
  assert (enterMap_ (S := WNode C) tables = ∅ ∧ leaveMap_ (S := WNode C) tables = ∅) as [-> ->];
    [|by rewrite !lookup_empty].
  unfold tables, MakeFiniteStateMachine, BuildInitStateTransitions, BuildWaitingStateTransitions,
    BuildAuthRunningStateTransitions, BuildReloadWaitingStateTransitions, BuildParamWaitingStateTransitions,
    BuildAuthFinishedStateTransitions.
  gen_handlers. intros. vm_compute. done.
Qed.

Lemma widget_Create_spec (c : C) (th : bool) :
  Create c th = Some (mkWidgetScheduleNode
    (mkWNode (Some c) 0 0 [] false [] ∅ 0 0 0 0 DEFAULT GENERAL_ERROR [] [])
    (Some (mkFsm S_WIDGET_INIT [] th None []))).
Proof.
  unfold Create, Init.
  assert (∃ tbl, MakeFiniteStateMachine (C := C) = Some (mkFsm S_WIDGET_INIT [] true None [], tbl)) as [tbl ->].
  { unfold MakeFiniteStateMachine, BuildInitStateTransitions, BuildWaitingStateTransitions,
      BuildAuthRunningStateTransitions, BuildReloadWaitingStateTransitions, BuildParamWaitingStateTransitions,
      BuildAuthFinishedStateTransitions.
    gen_handlers. intros. eexists. vm_compute. reflexivity. }
  reflexivity.
Qed.

(** One round: the handler's node, the table's state, and the kicks queued. *)
Lemma wround m n e : wstate_ok (currentState_ m) → wevent_ok e →
  schedule_event tables m n e =
  match wdelta (currentState_ m) e with
  | None => (m, n, (currentState_ m, e, currentState_ m))
  | Some (new, h) =>
      let '(n', ks) := h n e in
      (set_state (foldl apply_kick m ks) new, n', (currentState_ m, e, new))
  end.
Proof.
  intros Hs He. unfold schedule_event. rewrite wtables_find by done.
  destruct (wdelta (currentState_ m) e) as [[new h]|]; simpl.
  - destruct (h n e) as [n' ks]. unfold DealWithStateLeaveAndEnter. case_decide as Hsame; [done|].
    by destruct (wtables_plain (currentState_ m)) as [_ ->], (wtables_plain new) as [-> _].
  - unfold DealWithStateLeaveAndEnter. by rewrite decide_True by done.
Qed.

Lemma kicks_state ks m : currentState_ (foldl apply_kick m ks) = currentState_ m.
Proof.
  revert m. induction ks as [|[e|e] ks IH]; intros m; simpl; [done|..]; rewrite IH; [done|].
  unfold Schedule. by case_decide.
Qed.

Definition kick_event (k : kick) : Z := match k with Inner e => e | Outer e => e end.

Lemma kicks_pending ks m :
  ∃ es, pendingEvents_ (foldl apply_kick m ks) = pendingEvents_ m ++ es ∧ es `sublist_of` (kick_event <$> ks).
Proof.
  revert m. induction ks as [|k ks IH]; intros m; simpl; [exists []; by rewrite app_nil_r|].
  destruct (IH (apply_kick m k)) as (es & -> & Hs).
  destruct k as [e|e]; simpl; [exists (e :: es); rewrite <- app_assoc; by split; [|constructor]|].
  unfold Schedule. case_decide; simpl; [exists (e :: es); rewrite <- app_assoc; by split; [|constructor]|].
  exists es. by split; [|constructor].
Qed.

(** ** What a handler does to the node *)

Lemma requests_members rs n : let n' := foldl request_members n rs in
  callback_ n' = callback_ n ∧ runningAuthTypeSet_ n' = runningAuthTypeSet_ n ∧ calls_ n' = calls_ n ∧
  (resultCode_ n' = resultCode_ n ∨ ∃ code t tok, ROnWidgetResult code t tok ∈ rs).
Proof.
  revert n. induction rs as [|r rs IH]; intros n; simpl; [split_and!; try done; by left|].
  destruct (IH (request_members n r)) as (-> & -> & -> & Hr).
  assert (callback_ (request_members n r) = callback_ n ∧ runningAuthTypeSet_ (request_members n r) = runningAuthTypeSet_ n ∧
    calls_ (request_members n r) = calls_ n) as (-> & -> & ->) by (destruct r; simpl; try done; by case_decide).
  split; [done|]. split; [done|]. split; [done|].
  destruct Hr as [Hr|(code & t & tok & Hin)]; [|right; exists code, t, tok; by right].
  rewrite Hr. destruct r; try by left. right. eexists _, _, _. by left.
Qed.

Lemma request_event_ok r : wevent_ok (request_event r).
Proof. destruct r; by vm_compute. Qed.

(** The call [k] was made if the callback was alive, and nothing otherwise. The
    callback's requests are in the queue, maybe followed by a cancellation. *)
Definition called (k : WidgetCall) n (n' : WNode C) (ks : list kick) : Prop :=
  Forall wevent_ok (kick_event <$> ks) ∧
  match callback_ n with
  | None => n' = n ∧ ks = []
  | Some c => calls_ n' = calls_ n ++ [k] ∧ ∃ c' rs ret, call_back c k = (c', rs, ret) ∧ callback_ n' = Some c' ∧
      (∀ e, e ∈ kick_event <$> ks → e ∈ request_event <$> rs ∨ e = E_CANCEL_AUTH) ∧
      (resultCode_ n' = resultCode_ n ∨ ∃ code t tok, ROnWidgetResult code t tok ∈ rs)
  end.

Lemma call_spec n c k : callback_ n = Some c → let '(n', ks, _) := call n c k in
  called k n n' ks ∧ runningAuthTypeSet_ n' = runningAuthTypeSet_ n.
Proof.
  intros Hc. unfold call, called. destruct (call_back c k) as [[c' rs] ret] eqn:Hcb. rewrite Hc.
  destruct (requests_members rs (set_callback (record n k) (Some c'))) as (H1 & H2 & H3 & H4). simpl in *.
  split; [|by rewrite H2]. split.
  { rewrite <- list_fmap_compose. apply Forall_fmap, Forall_true. intros r. apply request_event_ok. }
  split; [by rewrite H3|]. exists c', rs, ret. split; [done|]. split; [by rewrite H1|]. split; [|done].
  intros e He. left. by rewrite <- list_fmap_compose in He.
Qed.

Lemma just_call_spec n k : let '(n', ks) := just_call n k in
  called k n n' ks ∧ runningAuthTypeSet_ n' = runningAuthTypeSet_ n.
Proof.
  unfold just_call, called. destruct (callback_ n) as [c|] eqn:Hc.
  - pose proof (call_spec n c k Hc) as Hs. destruct (call n c k) as [[n' ks] ret].
    unfold called in Hs. by rewrite Hc in Hs.
  - split; [|done]. split; [constructor|done].
Qed.

(** The handler [h] makes the call [k], and leaves the types [run] running. *)
Definition handles (h : WNode C → Z → WNode C * list kick) (k : WNode C → WidgetCall) (run : WNode C → gset Z) : Prop :=
  ∀ n e, let '(n', ks) := h n e in
    called (k n) n n' ks ∧ (callback_ n ≠ None → runningAuthTypeSet_ n' = run n).

Lemma handles_just h k :
  (∀ n e, h n e = just_call n (k n)) → handles h k (λ n, runningAuthTypeSet_ n).
Proof.
  intros Hh n e. rewrite Hh. pose proof (just_call_spec n (k n)) as Hs. destruct (just_call n (k n)) as [n' ks].
  by destruct Hs.
Qed.

Lemma handles_running h k run :
  (∀ n e, h n e = if decide (is_Some (callback_ n)) then just_call (set_running n (run n)) (k n) else (n, [])) →
  handles h k run.
Proof.
  intros Hh n e. rewrite Hh. case_decide as Hc.
  - pose proof (just_call_spec (set_running n (run n)) (k n)) as Hs.
    destruct (just_call (set_running n (run n)) (k n)) as [n' ks]. destruct Hs as [[H1 H2] H3].
    split; [|done]. split; [done|]. simpl in H2. destruct Hc as [c Hc]. rewrite Hc in H2 |- *. done.
  - unfold called. apply eq_None_not_Some in Hc. rewrite Hc. split; [by split; [constructor|]|done].
Qed.

Lemma handles_launch h k :
  (∀ n e, h n e = match callback_ n with
    | None => (n, [])
    | Some c => let '(n, ks, ok) := call n c (k n) in if decide (ok = true) then (n, ks) else (n, ks ++ [Outer E_CANCEL_AUTH])
    end) →
  handles h k (λ n, runningAuthTypeSet_ n).
Proof.
  intros Hh n e. rewrite Hh. destruct (callback_ n) as [c|] eqn:Hc.
  - pose proof (call_spec n c (k n) Hc) as Hs. destruct (call n c (k n)) as [[n' ks] ok].
    destruct Hs as [[H1 H2] H3]. case_decide; (split; [|done]); [done|]. split.
    { rewrite fmap_app. apply Forall_app. split; [done|]. by apply Forall_singleton. }
    rewrite Hc in H2 |- *. destruct H2 as (K1 & c' & rs & ret & K2 & K3 & K4 & K5). split; [done|].
    exists c', rs, ret. split; [done|]. split; [done|]. split; [|done]. intros e'. rewrite fmap_app.
    intros [He|He]%elem_of_app; [by apply K4|right]. by apply list_elem_of_singleton in He.
  - unfold called. rewrite Hc. split; [by split; [constructor|]|done].
Qed.

Lemma handles_result : handles OnSendAuthResult
  (λ n, COnScheduleAuthResult (resultCode_ n) (if decide (resultCode_ n = SUCCESS) then successAuthType_ n else failAuthType_ n)
    (authToken_ n)) (λ n, runningAuthTypeSet_ n).
Proof. apply handles_just. intros n e. unfold OnSendAuthResult. by case_decide. Qed.

(** The state of the machine, the node and the phase of the protocol belong together. *)
Definition agree (st : Z) n (p : phase) : Prop :=
  if decide (st = S_WIDGET_AUTH_FINISHED) then p = PEnded ∨ callback_ n = None
  else st = S_WIDGET_RELEASED ∨ p = PRun (runningAuthTypeSet_ n).

Definition in_protocol (st : Z) n : Prop := ∃ p, protocol (PRun ∅) (calls_ n) = Some p ∧ agree st n p.

(** What a transition from [st] to [new] may call. *)
Definition fits (st e new : Z) (k : WNode C → WidgetCall) (run : WNode C → gset Z) : Prop :=
  wstate_ok new ∧ st ≠ S_WIDGET_RELEASED ∧
  (∀ n p, agree st n p → callback_ n ≠ None → ∃ p', protocol_step p (k n) = Some p' ∧
    if decide (new = S_WIDGET_AUTH_FINISHED) then p' = PEnded
    else new = S_WIDGET_RELEASED ∨ p' = PRun (run n)) ∧
  (new = S_WIDGET_AUTH_FINISHED ∨ new = S_WIDGET_RELEASED ∨ st ≠ S_WIDGET_AUTH_FINISHED) ∧
  ∀ n, match k n with
    | COnAuthSuccess _ => e = E_COMPLETE_AUTH
    | COnScheduleAuthResult code _ _ => code = resultCode_ n
    | _ => True
    end.

Lemma handler_fits st e new h : (st, e, new, h) ∈ wtransitions → ∃ k run, handles h k run ∧ fits st e new k run.
Proof.
  assert (∀ st e new k run, wstate_ok new → st ≠ S_WIDGET_RELEASED → st ≠ S_WIDGET_AUTH_FINISHED →
    (∀ n, ∃ p', protocol_step (PRun (runningAuthTypeSet_ n)) (k n) = Some p' ∧
      if decide (new = S_WIDGET_AUTH_FINISHED) then p' = PEnded
      else new = S_WIDGET_RELEASED ∨ p' = PRun (run n)) →
    (∀ n, match k n with
      | COnAuthSuccess _ => e = E_COMPLETE_AUTH
      | COnScheduleAuthResult code _ _ => code = resultCode_ n
      | _ => True
      end) → fits st e new k run) as Hrun.
  { intros st' e' new' k run Hok Hr Hf Hk Hs. split; [done|]. split; [done|]. split; [|split; [by right; right|done]].
    intros n p Ha _. unfold agree in Ha. rewrite decide_False in Ha by done. destruct Ha as [? | ->]; [done|apply Hk]. }
  assert (fits S_WIDGET_AUTH_FINISHED E_WIDGET_RELEASE S_WIDGET_RELEASED (λ _, CClearSchedule)
    (λ n, runningAuthTypeSet_ n)) as Hend.
  { split; [by vm_compute|]. split; [done|]. split; [|split; [by right; left|done]]. intros n p Ha Hc. unfold agree in Ha.
    rewrite decide_True in Ha by done. destruct Ha as [-> |Ha]; [|done]. exists PReleased. split; [done|]. by left. }
  assert (∀ running types, fresh_types running types ## running) as Hfresh by (unfold fresh_types; set_solver).
  unfold wtransitions. intros Hin.
  repeat (apply elem_of_cons in Hin as [[= -> -> -> ->]|Hin]; [clear -Hrun Hend Hfresh|]);
    [..|by apply elem_of_nil in Hin];
    (eexists _, _; split; [first [apply handles_result | by apply handles_just | by apply handles_running | by apply handles_launch]|];
     first [exact Hend|apply Hrun; [by vm_compute|by vm_compute|by vm_compute| |by intros]; intros n; eexists; simpl;
       rewrite ?decide_True by apply Hfresh; split; [reflexivity|]; simpl; first [done|by left|by right]]).
Qed.

(** ** The life of a schedule *)

Inductive wstep (self : Z) : WidgetScheduleNode C → WidgetScheduleNode C → Prop :=
  | wstep_serve s r : wstep self s (serve self s r)
  | wstep_tip s types code : wstep self s (OnWidgetTip s self types code)
  | wstep_round s m e q m' n' r :
      machine_ s = Some m → pendingEvents_ m = e :: q →
      schedule_event tables (set_pending m q) (wnode s) e = (m', n', r) →
      wstep self s (mkWidgetScheduleNode n' (Some m'))
  | wstep_posted s m tasks :
      machine_ s = Some m → wstep self s (mkWidgetScheduleNode (wnode s) (Some (set_posted m tasks)))
  | wstep_callback s c c' :
      callback_ (wnode s) = Some c → wstep self s (on_s s (λ n, set_callback n (Some c')))
  | wstep_gone s : wstep self s (on_s s (λ n, set_callback n None)).

Record wok s : Prop := {
  wok_machine : is_Some (machine_ s);
  wok_state : ∀ m, machine_ s = Some m → wstate_ok (currentState_ m) ∧ Forall wevent_ok (pendingEvents_ m) ∧
    in_protocol (currentState_ m) (wnode s);
}.

Lemma in_protocol_same st n n' :
  calls_ n' = calls_ n → runningAuthTypeSet_ n' = runningAuthTypeSet_ n →
  (callback_ n = None → callback_ n' = None) → in_protocol st n → in_protocol st n'.
Proof.
  intros H1 H2 H3 (p & Hp & Ha). exists p. rewrite H1. split; [done|]. unfold agree in *. rewrite H2.
  case_decide; [|done]. destruct Ha as [Ha|Ha]; [by left|right; auto].
Qed.

Lemma wok_kick s self e n' : wevent_ok e → wok s →
  calls_ n' = calls_ (wnode s) → runningAuthTypeSet_ n' = runningAuthTypeSet_ (wnode s) →
  callback_ n' = callback_ (wnode s) →
  wok (TryKickMachine (mkWidgetScheduleNode n' (machine_ s)) self e).1.
Proof.
  intros He [[m Hm] Hok] H1 H2 H3. destruct (Hok m Hm) as (K1 & K2 & K3).
  unfold TryKickMachine. simpl. rewrite Hm. simpl. split; [done|]. intros m' [= <-]. simpl.
  unfold Schedule, AttachOwnerLifetime. simpl.
  assert (in_protocol (currentState_ m) n') as Hin by (eapply in_protocol_same; [exact H1|exact H2|by rewrite H3|done]).
  case_decide; simpl; [|done]. split; [done|]. split; [|done]. apply Forall_app. split; [done|by apply Forall_singleton].
Qed.

Lemma wok_serve self s r : wok s → wok (serve self s r).
Proof.
  intros Hok. pose proof (request_event_ok r) as He. destruct s as [n mm].
  destruct r; try (apply (wok_kick (mkWidgetScheduleNode n mm) self); done).
  simpl. unfold OnWidgetResult. case_decide; by apply (wok_kick (mkWidgetScheduleNode n mm) self).
Qed.

Lemma wok_outside self s k : (∀ p, protocol_step p k = Some p) → wok s → wok (call_outside self s k).
Proof.
  intros Hk Hok. unfold call_outside. destruct (callback_ (wnode s)) as [c|] eqn:Hc; [|done].
  destruct (call_back c k) as [[c' rs] ret].
  assert (wok (on_s s (λ n, set_callback (record n k) (Some c')))) as H0.
  { destruct Hok as [Hm Hok]. split; [done|]. intros m Hm'. destruct (Hok m Hm') as (K1 & K2 & p & Hp & Ha).
    split; [done|]. split; [done|]. exists p. simpl. rewrite protocol_snoc, Hp, Hk. split; [done|].
    unfold agree in *. simpl. case_decide; [|done]. destruct Ha as [Ha|Ha]; [by left|congruence]. }
  revert H0. generalize (on_s s (λ n, set_callback (record n k) (Some c'))). clear.
  induction rs as [|r rs IH]; intros s Hok; simpl; [done|]. by apply IH, wok_serve.
Qed.

Lemma wok_step self s s' : wok s → wstep self s s' → wok s'.
Proof.
  intros Hok Hstep. destruct Hstep as [s r|s types code|s m e q m' n' r Hm Hq Hr|s m tasks Hm|s c c' Hc|s].
  - by apply wok_serve.
  - unfold OnWidgetTip. case_decide; [|done]. revert s Hok H0. induction types as [|t types IH]; intros s Hok Hc; simpl; [done|].
    assert (wok (call_outside self s (COnScheduleAuthTip t code))) as H1 by (apply wok_outside; [by destruct p|done]).
    clear -IH H1. revert H1. generalize (call_outside self s (COnScheduleAuthTip t code)). clear s.
    intros s Hok. assert (∀ ts s, wok s → wok (foldl (λ s t, call_outside self s (COnScheduleAuthTip t code)) s ts)) as Hall.
    { clear. induction ts as [|t ts IH]; intros s Hok; simpl; [done|]. apply IH, wok_outside; [by destruct p|done]. }
    by apply Hall.
  - destruct Hok as [_ Hok]. destruct (Hok m Hm) as (K1 & K2 & K3). rewrite Hq in K2. apply Forall_cons in K2 as [He Hqs].
    rewrite (wround (set_pending m q) (wnode s) e K1 He) in Hr. simpl in Hr.
    destruct (wdelta (currentState_ m) e) as [[new h]|] eqn:Hd.
    2: { injection Hr as <- <- <-. split; [done|]. by intros m' [= <-]. }
    apply wfind_in, handler_fits in Hd as (k & run & Hh & Hnew & Hst & Hfit & Hend & _).
    pose proof (Hh (wnode s) e) as Hs. destruct (h (wnode s) e) as [n1 ks]. destruct Hs as [[Hks Hcall] Hrun].
    injection Hr as <- <- <-. split; [done|]. intros m' [= <-]. simpl. split; [done|]. split.
    + destruct (kicks_pending ks (set_pending m q)) as (es & -> & Hsub). simpl. apply Forall_app. split; [done|].
      apply Forall_forall. intros x Hx. rewrite Forall_forall in Hks. apply Hks. by eapply elem_of_sublist.
    + destruct K3 as (p & Hp & Ha). destruct (callback_ (wnode s)) as [c|] eqn:Hc.
      * destruct Hcall as [Hcalls _]. destruct (Hfit (wnode s) p Ha) as (p' & Hp' & Hag); [congruence|].
        exists p'. rewrite Hcalls, protocol_snoc, Hp. split; [done|]. unfold agree. rewrite Hrun by done.
        case_decide; [by left|done].
      * destruct Hcall as [-> _]. exists p. split; [done|]. unfold agree in *.
        destruct (decide (new = S_WIDGET_AUTH_FINISHED)) as [Hnf|Hnf]; [by right|].
        destruct Hend as [Hend|[Hend|Hend]]; [done|by left|]. rewrite decide_False in Ha by done.
        destruct Ha as [Ha|Ha]; [done|by right].
  - destruct Hok as [_ Hok]. split; [done|]. intros m' [= <-]. by apply (Hok m).
  - destruct Hok as [Hm Hok]. split; [done|]. intros m Hm'. destruct (Hok m Hm') as (K1 & K2 & K3).
    split; [done|]. split; [done|]. simpl. eapply in_protocol_same; [..|exact K3]; try done. congruence.
  - destruct Hok as [Hm Hok]. split; [done|]. intros m Hm'. destruct (Hok m Hm') as (K1 & K2 & K3).
    split; [done|]. split; [done|]. by eapply in_protocol_same; [..|exact K3].
Qed.

Lemma wok_created self (c : C) th s s' : Create c th = Some s → rtc (wstep self) s s' → wok s'.
Proof.
  rewrite widget_Create_spec. intros [= <-]. assert (wok (mkWidgetScheduleNode
    (mkWNode (Some c) 0 0 [] false [] ∅ 0 0 0 0 DEFAULT GENERAL_ERROR [] []) (Some (mkFsm S_WIDGET_INIT [] th None [])))) as H0.
  { split; [done|]. intros m [= <-]. split; [by vm_compute|]. split; [constructor|]. exists (PRun ∅).
    split; [done|]. unfold agree. rewrite decide_False by done. by right. }
  intros Hsteps. induction Hsteps as [|s1 s2 s3 H1 _ IH]; [done|]. apply IH. by eapply wok_step.
Qed.

(** In every interleaving of requests, tips, rounds of the machine and
    changes or death of the object behind the callback, the calls of a widget
    schedule follow the protocol: it never starts an authentication of a type
    that already runs (what runs is what was started and not stopped since),
    it ends at most once, it is released at most once, and nothing but tips
    comes after. While the machine is not finished it has not ended, and once
    it is finished the object behind a live callback has been told. *)
Theorem widget_schedule_protocol (self : Z) (c : C) (singleThread : bool) s s' m :
  Create c singleThread = Some s → rtc (wstep self) s s' → machine_ s' = Some m →
  ∃ p, protocol (PRun ∅) (calls_ (wnode s')) = Some p ∧
    (currentState_ m = S_WIDGET_AUTH_FINISHED → is_Some (callback_ (wnode s')) → p = PEnded) ∧
    (currentState_ m ≠ S_WIDGET_AUTH_FINISHED → currentState_ m ≠ S_WIDGET_RELEASED →
      p = PRun (runningAuthTypeSet_ (wnode s'))).
Proof.
  intros Hc Hs Hm. destruct (wok_created self c singleThread s s' Hc Hs) as [_ Hok]. clear Hc Hs.
  destruct (Hok m Hm) as (_ & _ & p & Hp & Ha). clear Hok Hm. exists p. split; [done|]. unfold agree in Ha. split.
  - intros Hst Hcb. rewrite decide_True in Ha by done. destruct Ha as [Ha|Ha]; [done|]. by apply eq_None_not_Some in Ha.
  - intros Hst Hr. rewrite decide_False in Ha by done. by destruct Ha.
Qed.

(** The tasks of the code are such steps. *)
Lemma loop_wsteps self k m n m' n' rs :
  schedule_loop k tables m n = (m', n', rs) →
  rtc (wstep self) (mkWidgetScheduleNode n (Some m)) (mkWidgetScheduleNode n' (Some m')).
Proof.
  revert m n rs. induction k as [|k IH]; intros m n rs; cbn [schedule_loop].
  { intros [= <- <- <-]. apply rtc_refl. }
  cbn [sq_pop list_queue]. destruct (pendingEvents_ m) as [|e q] eqn:Hq; [intros [= <- <- <-]; apply rtc_refl|].
  destruct (schedule_event tables (set_pending m q) n e) as [[m1 n1] r] eqn:He.
  destruct (schedule_loop k tables m1 n1) as [[m2 n2] rs'] eqn:Hl. intros [= <- <- <-].
  eapply rtc_l; [|by eapply IH].
  eapply (wstep_round self (mkWidgetScheduleNode n (Some m)) m e q); [reflexivity|exact Hq|exact He].
Qed.

Lemma run_task_wsteps self s : rtc (wstep self) s (run_task s).1.
Proof.
  destruct s as [n [m|]]; unfold run_task; cbn [machine_ wnode]; [|apply rtc_refl].
  unfold run_posted. destruct (posted_ m) as [|owner tasks] eqn:Hp; [apply rtc_refl|].
  destruct (ScheduleInner tables (set_posted m tasks) n) as [[m2 n2] rs] eqn:Hr.
  assert (rtc (wstep self) (mkWidgetScheduleNode n (Some m)) (mkWidgetScheduleNode n2 (Some m2))) as Hs.
  { eapply rtc_l; [by apply (wstep_posted self (mkWidgetScheduleNode n (Some m)) m tasks)|]. by eapply loop_wsteps. }
  destruct owner; exact Hs.
Qed.
End Rounds.

(** A callback that accepts every call. *)
#[local] Instance silent_callback : WidgetScheduleNodeCallback unit := {| call_back c _ := (c, [], true) |}.

Definition silent_widget : WidgetScheduleNode unit :=
  default (mkWidgetScheduleNode (mkWNode None 0 0 [] false [] ∅ 0 0 0 0 0 0 [] []) None) (Create tt true).

(** The widget is started, then two authentications, each handled by a round. *)
Definition silent_run : WidgetScheduleNode unit :=
  (run_task (serve 1 (run_task (serve 1 silent_widget RStartSchedule)).1
    (RStartAuthList [PIN; FACE] false DEFAULT))).1.

Lemma widget_schedule_protocol_witness :
  length (calls_ (wnode silent_run)) = 2%nat ∧ ∃ p, protocol (PRun ∅) (calls_ (wnode silent_run)) = Some p.
Proof.
  split; [vm_compute; reflexivity|].
  assert (H : is_Some (machine_ silent_run)) by (vm_compute; eexists; reflexivity).
  destruct H as [m Hm].
  assert (Hc : Create tt true = Some silent_widget) by (vm_compute; reflexivity).
  assert (Hs : rtc (wstep 1) silent_widget silent_run).
  { unfold silent_run. eapply rtc_l; [apply wstep_serve|]. etrans; [apply run_task_wsteps|].
    eapply rtc_l; [apply wstep_serve|]. apply run_task_wsteps. }
  destruct (widget_schedule_protocol 1 tt true silent_widget silent_run m Hc Hs Hm) as (p & Hp & _).
  exists p. exact Hp.
Defined.
