(* ===== verification/WidgetContext.v ===== *)
(** * The widget context

    Models services/context/src/widget_context.cpp: one authentication through
    the system's authentication widget. The context launches the widget, starts
    an authentication (a child context) for every type the widget asks for,
    turns their results into requests to its schedule, reports one result to
    the caller, and leaves the pool when the widget is gone, all children have
    ended, or its timer runs out.

    [phase_] is the enumeration [Phase]. [effects_] is everything the context
    did to the outside, in order; no code reads it. What the outside answers is
    a function of the effects so far ([WidgetEnv]): the engine's profiles, the
    screen, the configuration, the connection, the timers, the outcome of
    creating and scheduling children, and the JSON library. [connection_] is
    the flag [isNormalEnd_] of the connection while there is one. Nested
    callbacks of failing children run synchronously, as in the code, whose
    mutex is recursive. The command that is sent to the widget
    ([BuildStartCommand]) is JSON: only whether it is empty is used here. Log
    lines and traces are dropped. *)

From S2P Require Import Prelude Defines AttributesImpl Attributes WidgetScheduleNode.

(* @file W = src/services/context/src/widget_context.cpp *)
(* @file WH = src/services/context/inc/widget_context.h *)
(* @file CB = src/services/context/src/context_callback_impl.cpp *)
(* @file WCB = src/services/context/src/widget_context_callback_impl.cpp *)
(* @file CF = src/services/context/inc/context_factory.h *)
(* @file CL = src/services/context/src/widget_client.cpp *)
(* @file P = src/services/context/src/context_pool_impl.cpp *)
(* @file AC = src/frameworks/common/inc/auth_common.h *)
(* @file D = src/interfaces/inner_api/iam_common_defines.h *)

(** ** Enumerators *)

(* @src WH:184-184 WidgetContext::Phase *)
Definition NOT_STARTED : Z := 0.
(* @src WH:185-185 WidgetContext::Phase *)
Definition RUNNING : Z := 1.
(* @src WH:186-186 WidgetContext::Phase *)
Definition STOPPING : Z := 2.
(* @src WH:187-187 WidgetContext::Phase *)
Definition RESULT_DELIVERED : Z := 3.
(* @src WH:188-188 WidgetContext::Phase *)
Definition RELEASED : Z := 4.

(* @src AC:132-132 UserAuthTipCode *)
Definition TIP_CODE_FAIL : Z := 1.
(* @src AC:133-133 UserAuthTipCode *)
Definition TIP_CODE_TIMEOUT : Z := 2.
(* @src AC:134-134 UserAuthTipCode *)
Definition TIP_CODE_TEMPORARILY_LOCKED : Z := 3.
(* @src AC:135-135 UserAuthTipCode *)
Definition TIP_CODE_PERMANENTLY_LOCKED : Z := 4.
(* @src AC:137-137 UserAuthTipCode *)
Definition TIP_CODE_WIDGET_RELEASED : Z := 6.
(* @src AC:138-138 UserAuthTipCode *)
Definition TIP_CODE_COMPARE_FAIL_WITH_FROZEN : Z := 7.
(* @src D:35-35 USER_AUTH_TIP_AUTH_SUCC *)
Definition USER_AUTH_TIP_AUTH_SUCC : Z := 9998.
(* @src D:36-36 USER_AUTH_TIP_SINGLE_AUTH_RESULT *)
Definition USER_AUTH_TIP_SINGLE_AUTH_RESULT : Z := 9999.

(** ** Data *)

(* @src CF:42-49 ContextFactory::AuthProfile *)
Record AuthProfile := mkProfile {
  pr_pinSubType : Z;
  pr_sensorInfo : bytes;
  pr_remainTimes : Z;
  pr_freezingTime : Z;
}.
Definition no_profile : AuthProfile := mkProfile 0 [] 0 0.

(** The parameters that the life of the context depends on. *)
(* @src CF:51-71 ContextFactory::AuthWidgetContextPara *)
Record WidgetPara := mkPara {
  p_userId : Z;
  p_challenge : bytes;
  p_authTypeList : list Z;
  p_hasContext : bool;
  p_navigationButtonText : bytes;
  p_authProfileMap : gmap Z AuthProfile;
  p_callerName : bytes;
  p_callerType : Z;
  p_remoteCallerName : bytes;
  p_isBackgroundApplication : bool;
  p_skipLockedBiometricAuth : bool;
}.

(* @src WH:168-169 WidgetContext::WidgetAuthResultInfo *)
Record WidgetAuthResultInfo := mkResultInfo {
  token : bytes;
  authType : Z;
  credentialDigest : Z;
  credentialCount : Z;
  resultUserId : Z;
}.

(** Calls to [WidgetClient]. *)
Inductive ClientCall :=
  | SetWidgetParam
  | SetAuthTypeList (authTypeList : list Z)
  | SetWidgetSchedule (contextId : Z)
  | SetChallenge (challenge : bytes)
  | SetCallingBundleName (name : bytes)
  | SetPinSubType (subType : Z)
  | SetSensorInfo (info : bytes)
  | ReportWidgetResult (result authType lockoutDuration remainAttempts : Z)
  | ReportWidgetTip (tipType authType : Z) (tipInfo : bytes)
  | ClientClearSchedule (contextId : Z).

(** What a context does. *)
Inductive WEffect :=
  | WResult (resultCode : Z) (finalResult : Attributes)
  | WRemoteResult (resultCode : Z) (extraInfo : bytes)
  | WTip (authType : Z) (extraInfo : bytes)
  | WRequest (r : WidgetRequest)
  | WClient (call : ClientCall)
  | WCreateChild (authType : Z) (child : option Z)
  | WScheduleChild (child : Z) (scheduled : bool)
  | WCancelChild (child : Z)
  | WCleanChild (child : Z)
  | WDelete (contextId : Z)
  | WTimer (id : Z)
  | WTimerOff (id : Z)
  | WProfile (authType ret : Z)
  | WModal (commandData : bytes)
  | WConnect (commandData : bytes) (ret : Z)
  | WDisconnect (ret : Z)
  | WUnSubscribeAppState
  | WFaceAlgo
  | WGetRemoteParam
  | WSystemFault.

(* @src WH:193-215 WidgetContext *)
Record WidgetContext := mkWidgetContext {
  contextId_ : Z;
  callerCallback_ : bool;
  useModalApplication_ : bool;
  phase_ : Z;
  activeChildCount_ : Z;
  scheduleReleased_ : bool;
  latestError_ : Z;
  para_ : WidgetPara;
  isDirectAuth_ : bool;
  schedule_ : bool;
  modalCallback_ : bool;
  remoteAuthCallback_ : bool;
  runTaskInfoList_ : list (Z * Z);
  connection_ : option bool;
  authResultInfo_ : WidgetAuthResultInfo;
  faceReload_ : Z;
  widgetAlreadyLoad_ : Z;
  onTerminateTimerId_ : Z;
  effects_ : list WEffect;
}.

(** The answers of the outside, as functions of the effects so far. *)
Record WidgetEnv := mkWidgetEnv {
  e_GetUserAuthProfile : list WEffect → Z → Z * AuthProfile;
  e_GetEnrolledState : list WEffect → Z → Z * Z * Z;     (** code, digest, count *)
  e_IsScreenLocked : list WEffect → bool;
  e_IsWidgetCallerAllowedOnLockScreen : list WEffect → bool;
  e_supportFollowCallerUi : bool;                        (** the system parameter *)
  e_alwaysSupportFollowCallerUi : list bytes;            (** from the configuration *)
  e_followCallerList : option (list bytes);              (** from the configuration *)
  e_folded : list WEffect → bool;
  e_productName : bytes;
  e_BuildStartCommand : list WEffect → bytes;
  e_ConnectAbility : list WEffect → Z;
  e_DisconnectAbility : list WEffect → Z;
  e_RegisterTimer : list WEffect → Z;
  e_CreateSimpleAuthContext : list WEffect → Z → option Z;
  e_PoolSchedule : list WEffect → Z → bool;
  (** what [WidgetClient] has registered for this context: the loaded types *)
  e_ClientSchedule : list WEffect → option (list Z);
  (** [nlohmann::json]: the numbers [authResult] and [lockoutDuration] of a
      non-null document *)
  e_ParseTip : bytes → option (option Z * option Z);
}.

Section Life.
Context (env : WidgetEnv).
Implicit Types (c : WidgetContext).

Definition eff c (e : WEffect) : WidgetContext :=
  mkWidgetContext (contextId_ c) (callerCallback_ c) (useModalApplication_ c) (phase_ c) (activeChildCount_
    c) (scheduleReleased_ c) (latestError_ c) (para_ c) (isDirectAuth_ c) (schedule_ c) (modalCallback_ c)
    (remoteAuthCallback_ c) (runTaskInfoList_ c) (connection_ c) (authResultInfo_ c) (faceReload_ c)
    (widgetAlreadyLoad_ c) (onTerminateTimerId_ c) (effects_ c ++ [e]).
Definition set_phase c (phase : Z) : WidgetContext :=
  mkWidgetContext (contextId_ c) (callerCallback_ c) (useModalApplication_ c) phase (activeChildCount_ c)
    (scheduleReleased_ c) (latestError_ c) (para_ c) (isDirectAuth_ c) (schedule_ c) (modalCallback_ c)
    (remoteAuthCallback_ c) (runTaskInfoList_ c) (connection_ c) (authResultInfo_ c) (faceReload_ c)
    (widgetAlreadyLoad_ c) (onTerminateTimerId_ c) (effects_ c).
Definition set_activeChildCount c (count : Z) : WidgetContext :=
  mkWidgetContext (contextId_ c) (callerCallback_ c) (useModalApplication_ c) (phase_ c) count
    (scheduleReleased_ c) (latestError_ c) (para_ c) (isDirectAuth_ c) (schedule_ c) (modalCallback_ c)
    (remoteAuthCallback_ c) (runTaskInfoList_ c) (connection_ c) (authResultInfo_ c) (faceReload_ c)
    (widgetAlreadyLoad_ c) (onTerminateTimerId_ c) (effects_ c).
Definition set_scheduleReleased c (released : bool) : WidgetContext :=
  mkWidgetContext (contextId_ c) (callerCallback_ c) (useModalApplication_ c) (phase_ c) (activeChildCount_
    c) released (latestError_ c) (para_ c) (isDirectAuth_ c) (schedule_ c) (modalCallback_ c)
    (remoteAuthCallback_ c) (runTaskInfoList_ c) (connection_ c) (authResultInfo_ c) (faceReload_ c)
    (widgetAlreadyLoad_ c) (onTerminateTimerId_ c) (effects_ c).
Definition set_latestError c (error : Z) : WidgetContext :=
  mkWidgetContext (contextId_ c) (callerCallback_ c) (useModalApplication_ c) (phase_ c) (activeChildCount_
    c) (scheduleReleased_ c) error (para_ c) (isDirectAuth_ c) (schedule_ c) (modalCallback_ c)
    (remoteAuthCallback_ c) (runTaskInfoList_ c) (connection_ c) (authResultInfo_ c) (faceReload_ c)
    (widgetAlreadyLoad_ c) (onTerminateTimerId_ c) (effects_ c).
Definition set_para c (para : WidgetPara) : WidgetContext :=
  mkWidgetContext (contextId_ c) (callerCallback_ c) (useModalApplication_ c) (phase_ c) (activeChildCount_
    c) (scheduleReleased_ c) (latestError_ c) para (isDirectAuth_ c) (schedule_ c) (modalCallback_ c)
    (remoteAuthCallback_ c) (runTaskInfoList_ c) (connection_ c) (authResultInfo_ c) (faceReload_ c)
    (widgetAlreadyLoad_ c) (onTerminateTimerId_ c) (effects_ c).
Definition set_isDirectAuth c (direct : bool) : WidgetContext :=
  mkWidgetContext (contextId_ c) (callerCallback_ c) (useModalApplication_ c) (phase_ c) (activeChildCount_
    c) (scheduleReleased_ c) (latestError_ c) (para_ c) direct (schedule_ c) (modalCallback_ c)
    (remoteAuthCallback_ c) (runTaskInfoList_ c) (connection_ c) (authResultInfo_ c) (faceReload_ c)
    (widgetAlreadyLoad_ c) (onTerminateTimerId_ c) (effects_ c).
Definition set_schedule c (schedule : bool) : WidgetContext :=
  mkWidgetContext (contextId_ c) (callerCallback_ c) (useModalApplication_ c) (phase_ c) (activeChildCount_
    c) (scheduleReleased_ c) (latestError_ c) (para_ c) (isDirectAuth_ c) schedule (modalCallback_ c)
    (remoteAuthCallback_ c) (runTaskInfoList_ c) (connection_ c) (authResultInfo_ c) (faceReload_ c)
    (widgetAlreadyLoad_ c) (onTerminateTimerId_ c) (effects_ c).
Definition set_modalCallback c (modal : bool) : WidgetContext :=
  mkWidgetContext (contextId_ c) (callerCallback_ c) (useModalApplication_ c) (phase_ c) (activeChildCount_
    c) (scheduleReleased_ c) (latestError_ c) (para_ c) (isDirectAuth_ c) (schedule_ c) modal
    (remoteAuthCallback_ c) (runTaskInfoList_ c) (connection_ c) (authResultInfo_ c) (faceReload_ c)
    (widgetAlreadyLoad_ c) (onTerminateTimerId_ c) (effects_ c).
Definition set_runTaskInfoList c (tasks : list (Z * Z)) : WidgetContext :=
  mkWidgetContext (contextId_ c) (callerCallback_ c) (useModalApplication_ c) (phase_ c) (activeChildCount_
    c) (scheduleReleased_ c) (latestError_ c) (para_ c) (isDirectAuth_ c) (schedule_ c) (modalCallback_ c)
    (remoteAuthCallback_ c) tasks (connection_ c) (authResultInfo_ c) (faceReload_ c) (widgetAlreadyLoad_ c)
    (onTerminateTimerId_ c) (effects_ c).
Definition set_connection c (connection : option bool) : WidgetContext :=
  mkWidgetContext (contextId_ c) (callerCallback_ c) (useModalApplication_ c) (phase_ c) (activeChildCount_
    c) (scheduleReleased_ c) (latestError_ c) (para_ c) (isDirectAuth_ c) (schedule_ c) (modalCallback_ c)
    (remoteAuthCallback_ c) (runTaskInfoList_ c) connection (authResultInfo_ c) (faceReload_ c)
    (widgetAlreadyLoad_ c) (onTerminateTimerId_ c) (effects_ c).
Definition set_authResultInfo c (info : WidgetAuthResultInfo) : WidgetContext :=
  mkWidgetContext (contextId_ c) (callerCallback_ c) (useModalApplication_ c) (phase_ c) (activeChildCount_
    c) (scheduleReleased_ c) (latestError_ c) (para_ c) (isDirectAuth_ c) (schedule_ c) (modalCallback_ c)
    (remoteAuthCallback_ c) (runTaskInfoList_ c) (connection_ c) info (faceReload_ c) (widgetAlreadyLoad_ c)
    (onTerminateTimerId_ c) (effects_ c).
Definition set_faceReload c (reload : Z) : WidgetContext :=
  mkWidgetContext (contextId_ c) (callerCallback_ c) (useModalApplication_ c) (phase_ c) (activeChildCount_
    c) (scheduleReleased_ c) (latestError_ c) (para_ c) (isDirectAuth_ c) (schedule_ c) (modalCallback_ c)
    (remoteAuthCallback_ c) (runTaskInfoList_ c) (connection_ c) (authResultInfo_ c) reload
    (widgetAlreadyLoad_ c) (onTerminateTimerId_ c) (effects_ c).
Definition set_widgetAlreadyLoad c (load : Z) : WidgetContext :=
  mkWidgetContext (contextId_ c) (callerCallback_ c) (useModalApplication_ c) (phase_ c) (activeChildCount_
    c) (scheduleReleased_ c) (latestError_ c) (para_ c) (isDirectAuth_ c) (schedule_ c) (modalCallback_ c)
    (remoteAuthCallback_ c) (runTaskInfoList_ c) (connection_ c) (authResultInfo_ c) (faceReload_ c) load
    (onTerminateTimerId_ c) (effects_ c).
Definition set_onTerminateTimerId c (id : Z) : WidgetContext :=
  mkWidgetContext (contextId_ c) (callerCallback_ c) (useModalApplication_ c) (phase_ c) (activeChildCount_
    c) (scheduleReleased_ c) (latestError_ c) (para_ c) (isDirectAuth_ c) (schedule_ c) (modalCallback_ c)
    (remoteAuthCallback_ c) (runTaskInfoList_ c) (connection_ c) (authResultInfo_ c) (faceReload_ c)
    (widgetAlreadyLoad_ c) id (effects_ c).
Definition set_useModalApplication c (modal : bool) : WidgetContext :=
  mkWidgetContext (contextId_ c) (callerCallback_ c) modal (phase_ c) (activeChildCount_ c)
    (scheduleReleased_ c) (latestError_ c) (para_ c) (isDirectAuth_ c) (schedule_ c) (modalCallback_ c)
    (remoteAuthCallback_ c) (runTaskInfoList_ c) (connection_ c) (authResultInfo_ c) (faceReload_ c)
    (widgetAlreadyLoad_ c) (onTerminateTimerId_ c) (effects_ c).
Definition set_profile (para : WidgetPara) (authType : Z) (profile : AuthProfile) : WidgetPara :=
  mkPara (p_userId para) (p_challenge para) (p_authTypeList para) (p_hasContext para)
    (p_navigationButtonText para) (<[authType := profile]> (p_authProfileMap para)) (p_callerName para)
    (p_callerType para) (p_remoteCallerName para) (p_isBackgroundApplication para) (p_skipLockedBiometricAuth
    para).

(* @src W WidgetContext::SetLatestError *)
Definition SetLatestError c (error : Z) : WidgetContext :=
  if decide (error ≠ SUCCESS) then set_latestError c error else c.

(* @src W WidgetContext::AdvancePhaseLocked *)
Definition AdvancePhaseLocked c (next : Z) : WidgetContext * bool :=
  WHEN next <= phase_ c RETURN (c, false) ;;
  (set_phase c next, true).

(** ** Reports *)

(* @src W WidgetContext::DeliverResultLocked *)
Definition DeliverResultLocked c (resultCode : Z) (attr : Attributes) : WidgetContext :=
  let c := if callerCallback_ c then eff c (WResult resultCode attr) else c in
  if remoteAuthCallback_ c then eff c (WRemoteResult resultCode (Serialize attr)) else c.

(* @src W WidgetContext::OnScheduleAuthTip *)
Definition OnScheduleAuthTip c (authType tipCode : Z) : WidgetContext :=
  let '(attr, setTipInfoRet) := SetInt32Value Attributes_new ATTR_TIP_INFO tipCode in
  CHECK setTipInfoRet = true ELSE c ;;
  CHECK callerCallback_ c = true ELSE c ;;
  eff c (WTip authType (Serialize attr)).

(** [WidgetClient::ClearSchedule], with what the client has registered. *)
(* @src CL WidgetClient::ClearSchedule *)
Definition client_ClearSchedule c : WidgetContext :=
  let registered := e_ClientSchedule env (effects_ c) in
  let c := eff c (WClient (ClientClearSchedule (contextId_ c))) in
  match registered with
  | None => c
  | Some loadedAuthTypeList =>
      let c := foldl (λ c authType, OnScheduleAuthTip c authType TIP_CODE_WIDGET_RELEASED) c loadedAuthTypeList in
      eff (eff c (WRequest RStopSchedule)) (WRequest RClearSchedule)
  end.

(** [schedule_->...], after a check of the pointer. *)
Definition request c (r : WidgetRequest) : WidgetContext :=
  if schedule_ c then eff c (WRequest r) else c.

(** ** The end *)

(* @src W WidgetContext::StartOnTerminateTimer *)
Definition StartOnTerminateTimer c : WidgetContext :=
  WHEN onTerminateTimerId_ c ≠ 0 RETURN c ;;
  let id := e_RegisterTimer env (effects_ c) in
  set_onTerminateTimerId (eff c (WTimer id)) id.

(* @src W WidgetContext::StopOnTerminateTimer *)
Definition StopOnTerminateTimer c : WidgetContext :=
  WHEN onTerminateTimerId_ c = 0 RETURN c ;;
  set_onTerminateTimerId (eff c (WTimerOff (onTerminateTimerId_ c))) 0.

(* @src W WidgetContext::EndLocked *)
Definition EndLocked c : WidgetContext :=
  let reportWithoutResult := bool_decide (phase_ c < RESULT_DELIVERED) && callerCallback_ c in
  let '(c, advanced) := AdvancePhaseLocked c RELEASED in
  CHECK advanced = true ELSE c ;;
  let c := StopOnTerminateTimer c in
  let c := client_ClearSchedule c in
  let c := if reportWithoutResult then DeliverResultLocked (eff c WSystemFault) CANCELED Attributes_new else c in
  eff c (WDelete (contextId_ c)).

(* @src W WidgetContext::TryEndLocked *)
Definition TryEndLocked c : WidgetContext :=
  WHEN phase_ c = RELEASED ∨ scheduleReleased_ c = false RETURN c ;;
  WHEN activeChildCount_ c > 0 ∧ phase_ c < RESULT_DELIVERED RETURN StartOnTerminateTimer c ;;
  EndLocked c.

(* @src W WidgetContext::OnTerminateTimerTimeOut *)
Definition OnTerminateTimerTimeOut c : WidgetContext :=
  WHEN phase_ c = RELEASED RETURN c ;;
  let c := set_onTerminateTimerId c 0 in
  let c := eff c WSystemFault in
  let c := set_activeChildCount c 0 in
  EndLocked c.

(* @src W WidgetContext::OnChildTerminated *)
Definition OnChildTerminated c : WidgetContext :=
  let c := if decide (activeChildCount_ c > 0) then set_activeChildCount c (activeChildCount_ c - 1) else c in
  WHEN activeChildCount_ c ≠ 0 RETURN c ;;
  TryEndLocked c.

(* @src W WidgetContext::ClearSchedule *)
Definition ClearSchedule c : WidgetContext :=
  WHEN phase_ c = RELEASED RETURN c ;;
  TryEndLocked (set_scheduleReleased c true).

(* @src W WidgetContext::IsInFollowCallerList *)
Definition IsInFollowCallerList c : bool :=
  WHEN p_remoteCallerName (para_ c) ∈ e_alwaysSupportFollowCallerUi env RETURN true ;;
  CHECK e_folded env (effects_ c) = true ELSE false ;;
  match e_followCallerList env with
  | None => false
  | Some processName => bool_decide (e_productName env ++ str "-" ∈ processName)
  end.

(* @src W WidgetContext::IsSupportFollowCallerUi *)
Definition IsSupportFollowCallerUi c : bool := e_supportFollowCallerUi env || IsInFollowCallerList c.

(* @src W WidgetContext::DisconnectExtension *)
Definition DisconnectExtension c : WidgetContext * bool :=
  if (p_hasContext (para_ c) && IsSupportFollowCallerUi c) || useModalApplication_ c then
    let c := request c RStopSchedule in
    (if modalCallback_ c then eff c (WModal []) else c, true)
  else
    let c := request c RStopSchedule in
    match connection_ c with
    | None => (c, false)
    | Some _ =>
        let ret := e_DisconnectAbility env (effects_ c) in
        let c := set_connection (eff c (WDisconnect ret)) None in
        (c, bool_decide (ret = 0))
    end.

(* @src W WidgetContext::StopAllRunTask *)
Definition StopAllRunTask c (resultCode : Z) : WidgetContext :=
  let taskInfoList := runTaskInfoList_ c in
  let c := foldl (λ c taskInfo, eff c (WCancelChild taskInfo.2)) (set_runTaskInfoList c []) taskInfoList in
  if decide (resultCode ≠ SUCCESS) then (DisconnectExtension c).1 else c.

(** [goto EXIT] when an attribute cannot be set. *)
(* @src W WidgetContext::HandleAuthSuccessResult *)
Definition HandleAuthSuccessResult c (attr : Attributes) : WidgetContext * Attributes * bool :=
  let EXIT c attr :=
    (DeliverResultLocked (AdvancePhaseLocked c RESULT_DELIVERED).1 GENERAL_ERROR attr, attr, false) in
  let info := authResultInfo_ c in
  let '(attr, ok) := SetInt32Value attr ATTR_AUTH_TYPE (authType info) in
  CHECK ok = true ELSE EXIT c attr ;;
  let '(attr, ok) :=
    if decide (token info ≠ []) then SetUint8ArrayValue attr ATTR_SIGNATURE (token info) else (attr, true) in
  CHECK ok = true ELSE EXIT c attr ;;
  let '(attr, ok) := SetUint64Value attr ATTR_CREDENTIAL_DIGEST (credentialDigest info) in
  CHECK ok = true ELSE EXIT c attr ;;
  let '(attr, ok) := SetUint16Value attr ATTR_CREDENTIAL_COUNT (credentialCount info) in
  CHECK ok = true ELSE EXIT c attr ;;
  let '(attr, ok) := SetInt32Value attr ATTR_USER_ID (resultUserId info) in
  CHECK ok = true ELSE EXIT c attr ;;
  (c, attr, true).

(* @src W WidgetContext::DeliverEndLocked *)
Definition DeliverEndLocked c (resultCode : Z) : WidgetContext :=
  CHECK callerCallback_ c = true ELSE c ;;
  let '(c, advanced) := AdvancePhaseLocked c RESULT_DELIVERED in
  CHECK advanced = true ELSE c ;;
  let '(c, attr, handled) :=
    if decide (resultCode = SUCCESS ∨ token (authResultInfo_ c) ≠ []) then HandleAuthSuccessResult c Attributes_new
    else (c, Attributes_new, true) in
  CHECK handled = true ELSE eff (StartOnTerminateTimer c) WUnSubscribeAppState ;;
  let c := DeliverResultLocked c resultCode attr in
  let c := match connection_ c with Some _ => set_connection c (Some true) | None => c end in
  eff (StartOnTerminateTimer c) WUnSubscribeAppState.

(* @src W WidgetContext::End *)
Definition End c (resultCode : Z) : WidgetContext :=
  let '(c, advanced) := AdvancePhaseLocked c STOPPING in
  CHECK advanced = true ELSE c ;;
  let c := StopAllRunTask c resultCode in
  let c := DeliverEndLocked c resultCode in
  TryEndLocked c.

(* @src W WidgetContext::OnStop *)
Definition OnStop c : WidgetContext * bool := (client_ClearSchedule (End c CANCELED), true).

(* @src W WidgetContext::OnStartFailed *)
Definition OnStartFailed c (errorCode : Z) : WidgetContext :=
  let '(c, advanced) := AdvancePhaseLocked c RESULT_DELIVERED in
  CHECK advanced = true ELSE c ;;
  EndLocked (DeliverResultLocked c errorCode Attributes_new).

(* @src W WidgetContext::Stop *)
Definition Stop c : WidgetContext * bool :=
  let '(c, stoppedBeforeStart) :=
    if decide (phase_ c = NOT_STARTED) then AdvancePhaseLocked c STOPPING else (c, false) in
  WHEN stoppedBeforeStart = true RETURN (OnStartFailed c CANCELED, true) ;;
  OnStop c.

(** ** Launching the widget *)

Fixpoint refresh c (types : list Z) : WidgetContext * bool :=
  match types with
  | [] => (c, true)
  | authType :: types =>
      let '(ret, profile) := e_GetUserAuthProfile env (effects_ c) authType in
      let c := eff c (WProfile authType ret) in
      WHEN ret ≠ SUCCESS ∧ ret ≠ NOT_ENROLLED RETURN (c, false) ;;
      refresh (set_para c (set_profile (para_ c) authType profile)) types
  end.

(* @src W WidgetContext::RefreshAuthProfiles *)
Definition RefreshAuthProfiles c : WidgetContext * bool := refresh c (p_authTypeList (para_ c)).

(* @src W WidgetContext::IsSingleFaceOrFingerPrintAuth *)
Definition IsSingleFaceOrFingerPrintAuth c : bool :=
  WHEN p_navigationButtonText (para_ c) ≠ [] RETURN false ;;
  match p_authTypeList (para_ c) with
  | [t] => bool_decide (t = FACE ∨ t = FINGERPRINT)
  | _ => false
  end.

(* @src W WidgetContext::IsNavigationAuth *)
Definition IsNavigationAuth c : bool :=
  WHEN p_navigationButtonText (para_ c) = [] RETURN false ;; true.

(* @src W WidgetContext::IsSingleCompanionDeviceAuth *)
Definition IsSingleCompanionDeviceAuth c : bool :=
  match p_authTypeList (para_ c) with
  | [t] => bool_decide (t = COMPANION_DEVICE)
  | _ => false
  end.

(* @src W WidgetContext::IsWidgetLaunchAllowed *)
Definition IsWidgetLaunchAllowed c : bool :=
  WHEN e_IsScreenLocked env (effects_ c) = false RETURN true ;;
  e_IsWidgetCallerAllowedOnLockScreen env (effects_ c).

(** [para_.authProfileMap[authType]], which inserts a default profile. *)
Definition profile_at c (authType : Z) : WidgetContext * AuthProfile :=
  match p_authProfileMap (para_ c) !! authType with
  | Some profile => (c, profile)
  | None => (set_para c (set_profile (para_ c) authType no_profile), no_profile)
  end.

(* @src W WidgetContext::ConnectExtensionAbility *)
Definition ConnectExtensionAbility c (commandStr : bytes) : WidgetContext * Z :=
  WHEN connection_ c ≠ None RETURN (c, 1) ;;
  let c := set_connection c (Some false) in
  let ret := e_ConnectAbility env (effects_ c) in
  (eff c (WConnect commandStr ret), ret).

(* @src W WidgetContext::ConnectExtension *)
Definition ConnectExtension c (isReload : bool) : WidgetContext * bool :=
  let '(c, refreshed) := if isReload then RefreshAuthProfiles c else (c, true) in
  CHECK refreshed = true ELSE (c, false) ;;
  let '(c, exhausted) :=
    if IsSingleFaceOrFingerPrintAuth c && p_skipLockedBiometricAuth (para_ c) then
      match p_authTypeList (para_ c) with
      | t :: _ => let '(c, profile) := profile_at c t in (c, bool_decide (pr_remainTimes profile = 0))
      | [] => (c, false)
      end
    else (c, false) in
  WHEN exhausted = true RETURN (End c LOCKED, true) ;;
  CHECK IsWidgetLaunchAllowed c = true ELSE (End c CANCELED, true) ;;
  let commandData := e_BuildStartCommand env (effects_ c) in
  WHEN commandData = [] RETURN (c, false) ;;
  WHEN p_hasContext (para_ c) && IsSupportFollowCallerUi c = true RETURN
    (let c := set_useModalApplication c true in
     (if modalCallback_ c then eff c (WModal commandData) else c, true)) ;;
  let '(c, ret) := ConnectExtensionAbility c commandData in
  CHECK ret = 0 ELSE (eff c WSystemFault, false) ;;
  (c, true).

(* @src W WidgetContext::LaunchWidget *)
Definition LaunchWidget c : WidgetContext * bool :=
  WHEN phase_ c >= STOPPING RETURN (c, false) ;;
  let c := if decide (FACE ∈ p_authTypeList (para_ c)) then eff c WFaceAlgo else c in
  ConnectExtension c false.

(* @src W WidgetContext::AuthWidgetReloadInit *)
Definition AuthWidgetReloadInit c : WidgetContext := (DisconnectExtension c).1.

(** [IsValidRotate] is always true. *)
(* @src W WidgetContext::AuthWidgetReload *)
Definition AuthWidgetReload c (alreadyLoad : Z) : WidgetContext * bool :=
  let c := if decide (alreadyLoad ≠ 0) then set_widgetAlreadyLoad c 1 else c in
  ConnectExtension c true.

(* @src W WidgetContext::InitSessionProfiles *)
Definition InitSessionProfiles c : WidgetContext :=
  let profiles := p_authProfileMap (para_ c) in
  let pinIt := match profiles !! PIN with Some p => Some p | None => profiles !! PRIVATE_PIN end in
  let c := match pinIt with Some p => eff c (WClient (SetPinSubType (pr_pinSubType p))) | None => c end in
  match profiles !! FINGERPRINT with Some p => eff c (WClient (SetSensorInfo (pr_sensorInfo p))) | None => c end.

(* @src W WidgetContext::GetCallingBundleName *)
Definition GetCallingBundleName c : bytes :=
  if decide (p_callerType (para_ c) = 0) then p_callerName (para_ c) else [].

(** A schedule node is created (WidgetScheduleNode.Create); the requests that
    [TryKickMachine] answers with [true] always succeed then. *)
(* @src W WidgetContext::BuildSchedule *)
Definition BuildSchedule c : WidgetContext * bool := (set_schedule c true, true).

(* @src W WidgetContext::OnStart *)
Definition OnStart c : WidgetContext * bool :=
  let '(c, refreshed) := RefreshAuthProfiles c in
  CHECK refreshed = true ELSE (SetLatestError c GENERAL_ERROR, false) ;;
  let '(c, built) := BuildSchedule c in
  CHECK built = true ELSE (c, false) ;;
  let c := set_isDirectAuth c (IsSingleCompanionDeviceAuth c) in
  let c := eff c (WClient SetWidgetParam) in
  let c := eff c (WClient (SetAuthTypeList (p_authTypeList (para_ c)))) in
  let c := eff c (WClient (SetWidgetSchedule (contextId_ c))) in
  let c := eff c (WClient (SetChallenge (p_challenge (para_ c)))) in
  let c := eff c (WClient (SetCallingBundleName (GetCallingBundleName c))) in
  let c := InitSessionProfiles c in
  if isDirectAuth_ c then
    let c := request c (RStartAuthList (p_authTypeList (para_ c)) false DEFAULT) in
    (request c RStartDirectAuth, true)
  else if remoteAuthCallback_ c then (request c RGetRemoteAuthParam, true)
  else (request c RStartSchedule, true).

(* @src W WidgetContext::Start *)
Definition Start c : WidgetContext * bool :=
  WHEN phase_ c ≠ NOT_STARTED RETURN
    (if decide (phase_ c >= STOPPING) then (c, true) else (SetLatestError c GENERAL_ERROR, false)) ;;
  let '(c, advanced) := AdvancePhaseLocked c RUNNING in
  CHECK advanced = true ELSE (c, false) ;;
  OnStart c.

(** ** Children *)

(* @src W WidgetContext::GetAuthTipCode *)
Definition GetAuthTipCode (authResult freezingTime : Z) : Z :=
  if decide (authResult = TIMEOUT) then TIP_CODE_TIMEOUT
  else if decide (authResult = LOCKED) then
    (if decide (freezingTime = 2 ^ 31 - 1) then TIP_CODE_PERMANENTLY_LOCKED else TIP_CODE_TEMPORARILY_LOCKED)
  else if decide (freezingTime > 0) then TIP_CODE_COMPARE_FAIL_WITH_FROZEN
  else TIP_CODE_FAIL.

(** The getters leave a member alone when they fail. *)
Definition store_result c (authType : Z) (finalResult : Attributes) : WidgetContext :=
  let info := authResultInfo_ c in
  set_authResultInfo c (mkResultInfo
    (default (token info) (GetUint8ArrayValue finalResult ATTR_SIGNATURE)) authType
    (default (credentialDigest info) (GetUint64Value finalResult ATTR_CREDENTIAL_DIGEST))
    (default (credentialCount info) (GetUint16Value finalResult ATTR_CREDENTIAL_COUNT))
    (p_userId (para_ c))).

(* @src W WidgetContext::ProcAuthResult *)
Definition ProcAuthResult c (resultCode authType freezingTime : Z) (finalResult : Attributes) : WidgetContext :=
  CHECK schedule_ c = true ELSE c ;;
  if decide (resultCode = SUCCESS ∨ resultCode = COMPLEXITY_CHECK_FAILED) then
    let c := store_result c authType finalResult in
    let c := if decide (resultCode ≠ SUCCESS) then SetLatestError c resultCode else c in
    let c := request c (RNotifyAuthSuccess authType) in
    if isDirectAuth_ c then request c RClearSchedule else c
  else
    let c := SetLatestError c resultCode in
    WHEN isDirectAuth_ c = true RETURN request (request c (RNotifyAuthFail authType)) RClearSchedule ;;
    let c := if decide (resultCode ≠ CANCELED) then
      OnScheduleAuthTip c authType (GetAuthTipCode resultCode freezingTime) else c in
    if decide (p_skipLockedBiometricAuth (para_ c) = true ∧ freezingTime > 0) then
      if IsSingleFaceOrFingerPrintAuth c then request (SetLatestError c LOCKED) (RNotifyAuthFail authType)
      else if IsNavigationAuth c then request c RNaviPinAuth
      else request c (RStopAuthList [authType])
    else request c (RStopAuthList [authType]).

(** [OnChildTerminated] runs on every way out. *)
(* @src W WidgetContext::OnChildAuthResult *)
Definition OnChildAuthResult c (resultCode authType : Z) (finalResult : Attributes) : WidgetContext :=
  WHEN phase_ c = RELEASED RETURN OnChildTerminated c ;;
  let remainTimes := default (-1) (GetInt32Value finalResult ATTR_REMAIN_TIMES) in
  let freezingTime := default (-1) (GetInt32Value finalResult ATTR_FREEZING_TIME) in
  let c := eff c (WClient (ReportWidgetResult resultCode authType freezingTime remainTimes)) in
  CHECK callerCallback_ c = true ELSE OnChildTerminated c ;;
  OnChildTerminated (ProcAuthResult c resultCode authType freezingTime finalResult).

(* @src WCB WidgetContextCallbackImpl::OnResult *)
Definition child_OnResult c (authType resultCode : Z) (extraInfo : bytes) : WidgetContext :=
  OnChildAuthResult c resultCode authType (Attributes_of_raw extraInfo).

(* @src W WidgetContext::ReportChildError *)
Definition ReportChildError c (widgetCallback : bool) (authType : Z) : WidgetContext :=
  if widgetCallback then child_OnResult c authType GENERAL_ERROR (Serialize Attributes_new)
  else OnChildTerminated c.

(** The cleaner of a child that could not be scheduled. *)
Definition clean_child c (child : Z) : WidgetContext :=
  if decide (child = INVALID_CONTEXT_ID) then c else eff c (WCleanChild child).

(* @src W WidgetContext::BuildTask *)
Definition BuildTask c (authType : Z) : WidgetContext * option Z :=
  CHECK callerCallback_ c = true ELSE (ReportChildError c false authType, None) ;;
  let child := e_CreateSimpleAuthContext env (effects_ c) authType in
  let c := eff c (WCreateChild authType child) in
  match child with
  | None => (ReportChildError c true authType, None)
  | Some child =>
      let scheduled := e_PoolSchedule env (effects_ c) child in
      let c := eff c (WScheduleChild child scheduled) in
      CHECK scheduled = true ELSE (clean_child (ReportChildError c true authType) child, None) ;;
      (c, Some child)
  end.

Definition execute_one c (authType : Z) : WidgetContext :=
  let c := set_activeChildCount c (wrapU 32 (activeChildCount_ c + 1)) in
  let '(c, task) := BuildTask c authType in
  match task with
  | None => c
  | Some taskId =>
      let c := if decide (authType = FACE) then set_faceReload c 1 else c in
      set_runTaskInfoList c (runTaskInfoList_ c ++ [(authType, taskId)])
  end.

(** A [std::set] is walked in ascending order. *)
(* @src W WidgetContext::ExecuteAuthList *)
Definition ExecuteAuthList c (authTypeList : gset Z) : WidgetContext :=
  WHEN phase_ c >= STOPPING RETURN c ;;
  foldl execute_one c (merge_sort Z.le (elements authTypeList)).

Fixpoint remove_task (authType : Z) (tasks : list (Z * Z)) : option (Z * list (Z * Z)) :=
  match tasks with
  | [] => None
  | task :: tasks =>
      if decide (task.1 = authType) then Some (task.2, tasks)
      else '(id, rest) ← remove_task authType tasks; Some (id, task :: rest)
  end.

(* @src W WidgetContext::StopAuthList *)
Definition StopAuthList c (authTypeList : list Z) : WidgetContext :=
  foldl (λ c authType,
    match remove_task authType (runTaskInfoList_ c) with
    | None => c
    | Some (taskId, tasks) => eff (set_runTaskInfoList c tasks) (WCancelChild taskId)
    end) c authTypeList.

(** ** Ends that the schedule asks for *)

(* @src W WidgetContext::EndAuthAsCancel *)
Definition EndAuthAsCancel c : WidgetContext :=
  WHEN latestError_ c = COMPLEXITY_CHECK_FAILED RETURN End c TRUST_LEVEL_NOT_SUPPORT ;;
  WHEN connection_ c = Some true RETURN c ;;
  End c CANCELED.

(* @src W WidgetContext::EndAuthAsNaviPin *)
Definition EndAuthAsNaviPin c : WidgetContext := End c CANCELED_FROM_WIDGET.

(* @src W WidgetContext::EndAuthAsWidgetParaInvalid *)
Definition EndAuthAsWidgetParaInvalid c : WidgetContext := End c INVALID_PARAMETERS.

(* @src W WidgetContext::OnAuthSuccess *)
Definition OnAuthSuccess c (authType : Z) : WidgetContext :=
  WHEN latestError_ c = COMPLEXITY_CHECK_FAILED RETURN End c TRUST_LEVEL_NOT_SUPPORT ;;
  End c SUCCESS.

(* @src W WidgetContext::OnAuthFail *)
Definition OnAuthFail c (authType : Z) : WidgetContext := End c (latestError_ c).

(* @src W WidgetContext::OnScheduleAuthResult *)
Definition OnScheduleAuthResult c (resultCode authType : Z) (token : bytes) : WidgetContext :=
  WHEN resultCode ≠ SUCCESS RETURN End c resultCode ;;
  let info := authResultInfo_ c in
  let c := set_authResultInfo c
    (mkResultInfo token authType (credentialDigest info) (credentialCount info) (p_userId (para_ c))) in
  let '(resultCode, digest, count) := e_GetEnrolledState env (effects_ c) authType in
  WHEN resultCode ≠ SUCCESS RETURN End c resultCode ;;
  let info := authResultInfo_ c in
  let c := set_authResultInfo c (mkResultInfo (WidgetContext.token info) (WidgetContext.authType info)
    (Z.land digest (2 ^ 16 - 1)) count (resultUserId info)) in
  End c resultCode.

(** ** Tips *)

(* @src CB ContextCallbackImpl::ParseAuthTipInfo *)
Definition ParseAuthTipInfo (tip : Z) (extraInfo : bytes) : Z * option Z * option Z :=
  WHEN tip ≠ USER_AUTH_TIP_SINGLE_AUTH_RESULT ∨ extraInfo = [] RETURN (GENERAL_ERROR, None, None) ;;
  match e_ParseTip env extraInfo with
  | None => (GENERAL_ERROR, None, None)
  | Some (None, _) => (GENERAL_ERROR, None, None)
  | Some (Some authResult, lockoutDuration) =>
      WHEN authResult = SUCCESS RETURN (SUCCESS, Some authResult, None) ;;
      match lockoutDuration with
      | None => (GENERAL_ERROR, Some authResult, None)
      | Some freezingTime => (SUCCESS, Some authResult, Some freezingTime)
      end
  end.

(* @src W WidgetContext::ProcAuthTipInfo *)
Definition ProcAuthTipInfo c (tip authType : Z) (extraInfo : bytes) : WidgetContext :=
  CHECK schedule_ c = true ELSE c ;;
  CHECK callerCallback_ c = true ELSE c ;;
  let '(ret, resultCode, freezingTime) := ParseAuthTipInfo tip extraInfo in
  let resultCode := default GENERAL_ERROR resultCode in
  let freezingTime := default (-1) freezingTime in
  WHEN ret ≠ SUCCESS RETURN c ;;
  WHEN resultCode = SUCCESS RETURN c ;;
  let c := if decide (resultCode ≠ CANCELED) then
    OnScheduleAuthTip c authType (GetAuthTipCode resultCode freezingTime) else c in
  if decide (p_skipLockedBiometricAuth (para_ c) = true ∧ freezingTime > 0) then
    if IsSingleFaceOrFingerPrintAuth c then request (SetLatestError c LOCKED) (RNotifyAuthFail authType)
    else if IsNavigationAuth c then request c RNaviPinAuth
    else c
  else c.

(* @src W WidgetContext::OnChildAuthTip *)
Definition OnChildAuthTip c (tipType authType : Z) (extraInfo : Attributes) : WidgetContext :=
  match GetUint8ArrayValue extraInfo ATTR_EXTRA_INFO with
  | None => c
  | Some tipInfo =>
      let c := eff c (WClient (ReportWidgetTip tipType authType tipInfo)) in
      ProcAuthTipInfo c tipType authType tipInfo
  end.

(** ** The remote caller *)

(* @src W WidgetContext::GetRemoteAuthParam *)
Definition GetRemoteAuthParam c : WidgetContext * bool :=
  CHECK remoteAuthCallback_ c = true ELSE (c, false) ;;
  (eff c WGetRemoteParam, true).

(** The parts of [widgetParam] that matter here. *)
(* @src W WidgetContext::SetRemoteAuthParam *)
Definition SetRemoteAuthParam c (hasContext : bool) (navigationButtonText : bytes) (modalCallback : bool) :
    WidgetContext :=
  let p := para_ c in
  let c := set_para c (mkPara (p_userId p) (p_challenge p) (p_authTypeList p) hasContext navigationButtonText
    (p_authProfileMap p) (p_callerName p) (p_callerType p) (p_remoteCallerName p)
    (p_isBackgroundApplication p) (p_skipLockedBiometricAuth p)) in
  request (set_modalCallback c modalCallback) RStartSchedule.

(** ** Creation, and what the schedule calls *)

(* @src W WidgetContext::WidgetContext *)
Definition WidgetContext_new (contextId : Z) (para : WidgetPara) (modalCallback remoteAuthCallback : bool) :
    WidgetContext :=
  mkWidgetContext contextId true false NOT_STARTED 0 false GENERAL_ERROR para false false modalCallback
    remoteAuthCallback [] None (mkResultInfo [] 0 0 0 0) 0 0 0 [].

Definition call_back_context c (k : WidgetCall) : WidgetContext * bool :=
  match k with
  | CLaunchWidget => LaunchWidget c
  | CExecuteAuthList types _ _ => (ExecuteAuthList c types, true)
  | CEndAuthAsCancel => (EndAuthAsCancel c, true)
  | CEndAuthAsNaviPin => (EndAuthAsNaviPin c, true)
  | CEndAuthAsWidgetParaInvalid => (EndAuthAsWidgetParaInvalid c, true)
  | CStopAuthList types => (StopAuthList c types, true)
  | COnAuthSuccess authType => (OnAuthSuccess c authType, true)
  | COnAuthFail authType => (OnAuthFail c authType, true)
  | CAuthWidgetReload _ _ alreadyLoad _ => AuthWidgetReload c alreadyLoad
  | CAuthWidgetReloadInit => (AuthWidgetReloadInit c, true)
  | COnScheduleAuthTip authType tipInfo => (OnScheduleAuthTip c authType tipInfo, true)
  | COnScheduleAuthResult resultCode authType token => (OnScheduleAuthResult c resultCode authType token, true)
  | CClearSchedule => (ClearSchedule c, true)
  | CGetRemoteAuthParam => GetRemoteAuthParam c
  end.

Definition requests_of (l : list WEffect) : list WidgetRequest :=
  omap (λ e, match e with WRequest r => Some r | _ => None end) l.

(** The requests a context made since it was [c]. *)
Definition new_requests c (c' : WidgetContext) : list WidgetRequest :=
  requests_of (drop (length (effects_ c)) (effects_ c')).

(** The widget context is a callback of widget schedules. *)
#[export] Instance widget_callback : WidgetScheduleNodeCallback WidgetContext := {
  call_back c k := let '(c', ret) := call_back_context c k in (c', new_requests c c', ret);
}.
End Life.
