(* ===== verification/WidgetContextThm.v ===== *)
(** * The widget context: what it promises

    The theorems on the model of WidgetContext.v, for contexts that evolve by
    any sequence of calls of the pool, of the schedule, of the children, of the
    remote caller and of the timer. *)

From S2P Require Import Prelude Defines AttributesImpl Attributes WidgetScheduleNode WidgetContext.

(** ** Counting what was done *)

Definition is_result (e : WEffect) : bool := match e with WResult _ _ => true | _ => false end.
Definition is_delete (e : WEffect) : bool := match e with WDelete _ => true | _ => false end.
Definition count (f : WEffect → bool) (l : list WEffect) : nat := length (List.filter f l).

Lemma count_app f l1 l2 : count f (l1 ++ l2) = (count f l1 + count f l2)%nat.
Proof. unfold count. by rewrite List.filter_app, length_app. Qed.

Lemma count_none f l : Forall (λ e, f e = false) l → count f l = 0%nat.
Proof. unfold count. induction 1 as [|e l He _ IH]; [done|]. simpl. by rewrite He. Qed.

(** Effects of which one may say: results have a code that [R] allows, and a
    success of a child is announced to the schedule only if [N] holds; results
    of the widget come from the widget only. *)
Definition allowed (R : Z → Prop) (N : Prop) (e : WEffect) : Prop :=
  match e with
  | WResult code _ => R code
  | WRequest (RNotifyAuthSuccess _) => N
  | WRequest (ROnWidgetResult _ _ _) => False
  | _ => True
  end.

(** Effects that are neither a result nor the end of the context. *)
Definition mild (N : Prop) (e : WEffect) : Prop :=
  is_result e = false ∧ is_delete e = false ∧ allowed (λ _, False) N e.

Section Promises.
Context (env : WidgetEnv).
Implicit Types (c : WidgetContext) (R : Z → Prop) (N : Prop).

(** ** Quiet steps *)

Record quiet N c c' : Prop := {
  q_phase : phase_ c' = phase_ c;
  q_callback : callerCallback_ c' = callerCallback_ c;
  q_id : contextId_ c' = contextId_ c;
  q_timer : onTerminateTimerId_ c' = onTerminateTimerId_ c;
  q_error : latestError_ c ≠ SUCCESS → latestError_ c' ≠ SUCCESS;
  q_log : ∃ l, effects_ c' = effects_ c ++ l ∧ Forall (mild N) l;
}.

#[export] Instance quiet_refl N : Reflexive (quiet N).
Proof. intros c. split; try done. exists []. by rewrite app_nil_r. Qed.

#[export] Instance quiet_trans N : Transitive (quiet N).
Proof.
  intros c1 c2 c3 [A1 A2 A3 A4 A5 (l1 & A6 & A7)] [B1 B2 B3 B4 B5 (l2 & B6 & B7)].
  split; [congruence..|auto|]. exists (l1 ++ l2). rewrite B6, A6, app_assoc. split; [done|]. by apply Forall_app.
Qed.

Lemma quiet_same N c c' :
  phase_ c' = phase_ c → callerCallback_ c' = callerCallback_ c → contextId_ c' = contextId_ c →
  onTerminateTimerId_ c' = onTerminateTimerId_ c → (latestError_ c ≠ SUCCESS → latestError_ c' ≠ SUCCESS) →
  effects_ c' = effects_ c → quiet N c c'.
Proof. intros. split; try done. exists []. by rewrite app_nil_r. Qed.

Lemma quiet_eff N c e : mild N e → quiet N c (eff c e).
Proof. intros He. split; try done. exists [e]. split; [done|by apply Forall_singleton]. Qed.

Lemma quiet_mono N (N' : Prop) c c' : (N → N') → quiet N c c' → quiet N' c c'.
Proof.
  intros Hn [A1 A2 A3 A4 A5 (l & A6 & A7)]. split; try done. exists l. split; [done|].
  eapply Forall_impl; [exact A7|]. intros e (H1 & H2 & H3). split; [done|]. split; [done|].
  destruct e as [| | |[]| | | | | | | | | | | | | | | |]; simpl in *; auto.
Qed.

Lemma quiet_foldl {A} N (f : WidgetContext → A → WidgetContext) (l : list A) c :
  (∀ c x, quiet N c (f c x)) → quiet N c (foldl f c l).
Proof. intros Hf. revert c. induction l as [|x l IH]; intros c; simpl; [done|]. etrans; [apply Hf|apply IH]. Qed.
End Promises.

(** [quiet] chains: through assignments, effects, and known calls. *)
Create HintDb widget.
#[export] Hint Resolve quiet_refl : widget.

Ltac quiet_assign := apply quiet_same; first [reflexivity | intros ?; simpl; (done || discriminate || assumption)].
Ltac quiet_effect := apply quiet_eff; split; [done|split; [done|simpl; first [exact I | done | assumption]]].

(** Peels one assignment or effect off the new state. *)
Ltac quiet_back :=
  lazymatch goal with
  | |- quiet _ _ (?f ?y _) => transitivity y; [|first [quiet_effect | quiet_assign]]
  end.

Section Quiet.
Context (env : WidgetEnv).
Implicit Types (c : WidgetContext) (N : Prop).

Lemma quiet_SetLatestError N c e : quiet N c (SetLatestError c e).
Proof. unfold SetLatestError. case_decide; [|done]. quiet_assign. Qed.

Lemma quiet_request N c r : allowed (λ _, False) N (WRequest r) → quiet N c (request c r).
Proof. intros Hr. unfold request. destruct (schedule_ c); [|done]. by apply quiet_eff. Qed.

Lemma quiet_tip N c t code : quiet N c (OnScheduleAuthTip c t code).
Proof.
  unfold OnScheduleAuthTip. destruct (SetInt32Value _ _ _) as [attr ok].
  case_decide; [|done]. case_decide; [|done]. quiet_effect.
Qed.

Lemma quiet_client N c : quiet N c (client_ClearSchedule env c).
Proof.
  unfold client_ClearSchedule. destruct (e_ClientSchedule _ _) as [types|]; [|quiet_effect].
  do 2 quiet_back. etrans; [|apply quiet_foldl; intros; apply quiet_tip]. quiet_effect.
Qed.

Lemma quiet_disconnect N c : quiet N c (DisconnectExtension env c).1.
Proof.
  unfold DisconnectExtension. case_match; simpl.
  - etrans; [by apply (quiet_request _ _ RStopSchedule)|]. case_match; [quiet_effect|done].
  - etrans; [by apply (quiet_request _ _ RStopSchedule)|]. case_match; [|done]. simpl.
    repeat quiet_back. done.
Qed.

Lemma quiet_stop_all N c code : quiet N c (StopAllRunTask env c code).
Proof.
  unfold StopAllRunTask.
  assert (quiet N c (foldl (λ c taskInfo, eff c (WCancelChild taskInfo.2)) (set_runTaskInfoList c [])
    (runTaskInfoList_ c))) as Hq.
  { etrans; [|apply quiet_foldl; intros; quiet_effect]. quiet_assign. }
  case_decide; [|done]. etrans; [exact Hq|]. apply quiet_disconnect.
Qed.

Lemma quiet_refresh N c types : quiet N c (refresh env c types).1.
Proof.
  revert c. induction types as [|t types IH]; intros c; simpl; [done|].
  destruct (e_GetUserAuthProfile _ _ _) as [ret profile]. case_decide; simpl; [quiet_effect|].
  etrans; [|apply IH]. by repeat quiet_back.
Qed.

Lemma quiet_profile N c t : quiet N c (profile_at c t).1.
Proof. unfold profile_at. case_match; [done|]. simpl. quiet_assign. Qed.

Lemma quiet_proc N c code t freezing attr :
  (code = SUCCESS ∨ code = COMPLEXITY_CHECK_FAILED → N) → quiet N c (ProcAuthResult c code t freezing attr).
Proof.
  intros Hn. unfold ProcAuthResult. case_decide; [|done]. case_decide as Hcode.
  - set (c1 := store_result c t attr). assert (quiet N c c1) as Hq1 by quiet_assign.
    set (c2 := if decide (code ≠ SUCCESS) then SetLatestError c1 code else c1).
    assert (quiet N c c2) as Hq2.
    { etrans; [exact Hq1|]. unfold c2. case_decide; [apply quiet_SetLatestError|done]. }
    assert (quiet N c (request c2 (RNotifyAuthSuccess t))) as Hq3.
    { etrans; [exact Hq2|]. apply quiet_request. simpl. auto. }
    case_match; [|done]. etrans; [exact Hq3|]. by apply quiet_request.
  - set (c1 := SetLatestError c code). assert (quiet N c c1) as Hq1 by apply quiet_SetLatestError.
    case_decide.
    { etrans; [exact Hq1|]. etrans; [|by apply quiet_request]. by apply quiet_request. }
    match goal with |- context [if decide (p_skipLockedBiometricAuth (para_ ?x) = true ∧ _) then _ else _] => set (c2 := x) end.
    assert (quiet N c c2) as Hq2.
    { etrans; [exact Hq1|]. unfold c2. case_decide; [apply quiet_tip|done]. }
    repeat case_match; (etrans; [exact Hq2|]); try by apply quiet_request.
    etrans; [apply quiet_SetLatestError|]. by apply quiet_request.
Qed.

Lemma quiet_proc_tip N c tip t extra : quiet N c (ProcAuthTipInfo env c tip t extra).
Proof.
  unfold ProcAuthTipInfo. case_decide; [|done]. case_decide; [|done].
  destruct (ParseAuthTipInfo env tip extra) as [[ret code] freezing].
  case_decide; [done|]. case_decide; [done|].
  match goal with |- context [if decide (p_skipLockedBiometricAuth (para_ ?x) = true ∧ _) then _ else _] => set (c1 := x) end.
  assert (quiet N c c1) as Hq1. { unfold c1. case_decide; [apply quiet_tip|done]. }
  repeat case_match; (etrans; [exact Hq1|]); try done; try by apply quiet_request.
  etrans; [apply quiet_SetLatestError|]. by apply quiet_request.
Qed.

Lemma quiet_child_tip N c tip t extra : quiet N c (OnChildAuthTip env c tip t extra).
Proof.
  unfold OnChildAuthTip. destruct (GetUint8ArrayValue _ _); [|done].
  etrans; [|apply quiet_proc_tip]. quiet_effect.
Qed.

Lemma quiet_stop_list N c types : quiet N c (StopAuthList c types).
Proof.
  unfold StopAuthList. apply quiet_foldl. intros c' t. destruct (remove_task _ _) as [[id tasks]|]; [|done].
  by repeat quiet_back.
Qed.

Lemma quiet_profiles N c : quiet N c (InitSessionProfiles c).
Proof.
  assert (∀ (o : option AuthProfile) (f : AuthProfile → WEffect) c', (∀ p, mild N (f p)) →
    quiet N c' (match o with Some p => eff c' (f p) | None => c' end)) as Hq.
  { intros [p|] f c' Hf; [by apply quiet_eff|done]. }
  unfold InitSessionProfiles.
  etrans; [|apply (Hq _ (λ p, WClient (SetSensorInfo (pr_sensorInfo p)))); by intros].
  apply (Hq _ (λ p, WClient (SetPinSubType (pr_pinSubType p)))). by intros.
Qed.

Lemma quiet_OnStart N c : quiet N c (OnStart env c).1.
Proof.
  unfold OnStart. assert (quiet N c (RefreshAuthProfiles env c).1) as Hr by apply quiet_refresh.
  destruct (RefreshAuthProfiles env c) as [c1 ok]. simpl in Hr. case_decide; [|simpl].
  2: { etrans; [exact Hr|apply quiet_SetLatestError]. }
  simpl. match goal with |- quiet _ _ (if isDirectAuth_ ?x then _ else _).1 => set (c2 := x) end.
  assert (quiet N c c2) as H2.
  { etrans; [exact Hr|]. unfold c2. etrans; [|apply quiet_profiles].
    by repeat quiet_back. }
  etrans; [exact H2|]. clearbody c2. destruct (isDirectAuth_ c2); simpl.
  - etrans; [|by apply quiet_request]. by apply quiet_request.
  - destruct (remoteAuthCallback_ c2); by apply quiet_request.
Qed.
End Quiet.

(** ** Steps that report and end *)

Ltac phases := unfold NOT_STARTED, RUNNING, STOPPING, RESULT_DELIVERED, RELEASED in *; lia.

Section Ending.
Context (env : WidgetEnv).
Implicit Types (c : WidgetContext) (R : Z → Prop) (N : Prop).

(** [nr] results and [nd] ends. *)
Record did R N (nr nd : nat) c c' : Prop := {
  d_callback : callerCallback_ c' = callerCallback_ c;
  d_error : latestError_ c ≠ SUCCESS → latestError_ c' ≠ SUCCESS;
  d_log : ∃ l, effects_ c' = effects_ c ++ l ∧ Forall (allowed R N) l ∧ count is_result l = nr ∧ count is_delete l = nd;
}.

Lemma did_trans R N nr1 nd1 nr2 nd2 c1 c2 c3 :
  did R N nr1 nd1 c1 c2 → did R N nr2 nd2 c2 c3 → did R N (nr1 + nr2) (nd1 + nd2) c1 c3.
Proof.
  intros [A1 A2 (l1 & A3 & A4 & A5 & A6)] [B1 B2 (l2 & B3 & B4 & B5 & B6)].
  split; [congruence|auto|]. exists (l1 ++ l2). rewrite B3, A3, app_assoc, !count_app, Forall_app.
  split_and!; (done || lia).
Qed.

Lemma did_refl R N c : did R N 0 0 c c.
Proof. split; [done..|]. exists []. by rewrite app_nil_r. Qed.

Lemma did_quiet R N c c' : quiet N c c' → did R N 0 0 c c'.
Proof.
  intros [Q1 Q2 Q3 Q4 Q5 (l & Q6 & Q7)]. split; [done..|]. exists l. split; [done|]. split_and!.
  - eapply Forall_impl; [exact Q7|]. intros e (H1 & H2 & H3). by destruct e.
  - apply count_none. eapply Forall_impl; [exact Q7|]. by intros e (H1 & H2 & H3).
  - apply count_none. eapply Forall_impl; [exact Q7|]. by intros e (H1 & H2 & H3).
Qed.

Lemma did_assign R N c c' : callerCallback_ c' = callerCallback_ c → latestError_ c' = latestError_ c →
  effects_ c' = effects_ c → did R N 0 0 c c'.
Proof. intros H1 H2 H3. split; [done|congruence|]. exists []. by rewrite app_nil_r. Qed.

Lemma did_mono R (R' : Z → Prop) N (N' : Prop) nr nd c c' :
  (∀ code, R code → R' code) → (N → N') → did R N nr nd c c' → did R' N' nr nd c c'.
Proof.
  intros HR HN [A1 A2 (l & A3 & A4 & A5)]. split; [done..|]. exists l. split; [done|]. split; [|done].
  eapply Forall_impl; [exact A4|]. intros [| | |[]| | | | | | | | | | | | | | | |]; simpl; auto.
Qed.

Lemma did_effect R N c e : allowed R N e →
  did R N (count is_result [e]) (count is_delete [e]) c (eff c e).
Proof. intros He. split; [done..|]. exists [e]. split; [done|]. split; [|done]. by apply Forall_singleton. Qed.

Lemma deliver_did R N c code attr : callerCallback_ c = true → R code →
  did R N 1 0 c (DeliverResultLocked c code attr) ∧
  phase_ (DeliverResultLocked c code attr) = phase_ c ∧
  onTerminateTimerId_ (DeliverResultLocked c code attr) = onTerminateTimerId_ c.
Proof.
  intros Hcb HR. unfold DeliverResultLocked. rewrite Hcb.
  assert (did R N 1 0 c (eff c (WResult code attr))) as H1 by (apply (did_effect R N c (WResult code attr)); done).
  simpl. destruct (remoteAuthCallback_ c); [|done]. split; [|done].
  apply (did_trans R N 1 0 0 0 _ _ _ H1).
  by apply (did_effect R N _ (WRemoteResult code (Serialize attr))).
Qed.

Lemma end_locked_did N c : callerCallback_ c = true → phase_ c < RELEASED →
  did (λ code, code = CANCELED) N (if decide (phase_ c < RESULT_DELIVERED) then 1 else 0) 1 c (EndLocked env c) ∧
  phase_ (EndLocked env c) = RELEASED.
Proof.
  intros Hcb Hp. set (R := λ code, code = CANCELED). unfold EndLocked, AdvancePhaseLocked.
  rewrite (decide_False (P := RELEASED <= phase_ c)) by phases. cbn beta iota zeta.
  rewrite (decide_True (P := true = true)) by done.
  set (c1 := StopOnTerminateTimer (set_phase c RELEASED)).
  assert (did R N 0 0 c c1 ∧ phase_ c1 = RELEASED ∧ callerCallback_ c1 = true) as (D1 & P1 & C1).
  { unfold c1, StopOnTerminateTimer. case_decide; simpl.
    - split; [by apply did_assign|done].
    - split; [|done]. apply (did_trans R N 0 0 0 0 _ (eff c (WTimerOff (onTerminateTimerId_ c)))).
      + by apply (did_effect R N _ (WTimerOff (onTerminateTimerId_ c))).
      + by apply did_assign. }
  pose proof (quiet_client env N c1) as Hq. set (c2 := client_ClearSchedule env c1) in *.
  assert (did R N 0 0 c c2) as D2 by (apply (did_trans R N 0 0 0 0 _ _ _ D1), did_quiet, Hq).
  pose proof (q_phase _ _ _ Hq) as P2. pose proof (q_callback _ _ _ Hq) as C2. rewrite C1 in C2.
  destruct (decide (phase_ c < RESULT_DELIVERED)) as [Hlt|Hge].
  - rewrite bool_decide_eq_true_2, Hcb by done. cbn beta iota.
    destruct (deliver_did R N (eff c2 WSystemFault) CANCELED Attributes_new C2 eq_refl) as (D3 & P3 & _).
    split; [|simpl; rewrite P3; simpl; congruence].
    apply (did_trans R N 1 0 0 1 _ (DeliverResultLocked (eff c2 WSystemFault) CANCELED Attributes_new)).
    + apply (did_trans R N 0 0 1 0 _ (eff c2 WSystemFault)); [|done].
      apply (did_trans R N 0 0 0 0 _ _ _ D2). by apply (did_effect R N _ WSystemFault).
    + by apply (did_effect R N _ (WDelete _)).
  - rewrite bool_decide_eq_false_2 by done. simpl. split; [|congruence].
    apply (did_trans R N 0 0 0 1 _ _ _ D2). by apply (did_effect R N _ (WDelete _)).
Qed.
(** The invariant between two steps. *)
Definition delivered_by (phase : Z) : nat := if decide (RESULT_DELIVERED <= phase) then 1 else 0.
Definition deleted_by (phase : Z) : nat := if decide (RELEASED <= phase) then 1 else 0.

Record winv c : Prop := {
  w_callback : callerCallback_ c = true;
  w_phase : phase_ c = NOT_STARTED ∨ phase_ c = RUNNING ∨ phase_ c = RESULT_DELIVERED ∨ phase_ c = RELEASED;
  w_error : latestError_ c ≠ SUCCESS;
  w_results : count is_result (effects_ c) = delivered_by (phase_ c);
  w_deletes : count is_delete (effects_ c) = deleted_by (phase_ c);
  w_timer : (∀ l, e_RegisterTimer env l ≠ 0) → phase_ c = RESULT_DELIVERED → onTerminateTimerId_ c ≠ 0;
}.

(** A step keeps the invariant, reports codes in [R] only, and goes forward. *)
Record evolves R N c c' : Prop := {
  ev_inv : winv c → winv c';
  ev_phase : winv c → phase_ c <= phase_ c';
  ev_did : winv c → ∃ nr nd, did R N nr nd c c';
}.

Lemma evolves_refl R N c : evolves R N c c.
Proof. split; [done|done|]. intros _. exists 0%nat, 0%nat. apply did_refl. Qed.

Lemma evolves_trans R N c1 c2 c3 : evolves R N c1 c2 → evolves R N c2 c3 → evolves R N c1 c3.
Proof.
  intros [A1 A2 A3] [B1 B2 B3]. split; [auto| |].
  - intros H. pose proof (A2 H). pose proof (B2 (A1 H)). lia.
  - intros H. destruct (A3 H) as (n1 & d1 & H1). destruct (B3 (A1 H)) as (n2 & d2 & H2).
    exists (n1 + n2)%nat, (d1 + d2)%nat. by eapply did_trans.
Qed.

Lemma evolves_mono R (R' : Z → Prop) N (N' : Prop) c c' :
  (∀ code, R code → R' code) → (N → N') → evolves R N c c' → evolves R' N' c c'.
Proof.
  intros HR HN [A1 A2 A3]. split; [done..|]. intros H. destruct (A3 H) as (n & d & Hd).
  exists n, d. by eapply did_mono.
Qed.

(** A step of which the counts and the new phase are known. *)
Lemma evolves_did R N nr nd c c' :
  (winv c → did R N nr nd c c' ∧
    (phase_ c' = NOT_STARTED ∨ phase_ c' = RUNNING ∨ phase_ c' = RESULT_DELIVERED ∨ phase_ c' = RELEASED) ∧
    phase_ c <= phase_ c' ∧
    (delivered_by (phase_ c) + nr)%nat = delivered_by (phase_ c') ∧
    (deleted_by (phase_ c) + nd)%nat = deleted_by (phase_ c') ∧
    ((∀ l, e_RegisterTimer env l ≠ 0) → phase_ c' = RESULT_DELIVERED → onTerminateTimerId_ c' ≠ 0)) →
  evolves R N c c'.
Proof.
  intros Hd. split; intros Hw; destruct (Hd Hw) as (D & P & L & Hr & Hdel & T); [|done|eauto].
  destruct D as [D1 D2 (l & D3 & D4 & D5 & D6)], Hw as [W1 W2 W3 W4 W5 W6].
  split; [congruence|done|auto| | |done]; rewrite D3, count_app; lia.
Qed.

Lemma evolves_quiet R N c c' : quiet N c c' → evolves R N c c'.
Proof.
  intros Hq. pose proof Hq as [Q1 Q2 Q3 Q4 Q5 Q6]. apply (evolves_did R N 0 0). intros [W1 W2 W3 W4 W5 W6].
  rewrite Q1, Q4. split; [by apply did_quiet|]. split; [done|]. split; [lia|]. split; [lia|]. split; [lia|auto].
Qed.

Lemma evolves_foldl {A} R N (f : WidgetContext → A → WidgetContext) (l : list A) c :
  (∀ c x, evolves R N c (f c x)) → evolves R N c (foldl f c l).
Proof.
  intros Hf. revert c. induction l as [|x l IH]; intros c; simpl; [apply evolves_refl|].
  eapply evolves_trans; [apply Hf|apply IH].
Qed.

Lemma phase_bounds c : winv c → 0 <= phase_ c <= 4.
Proof. intros [_ Hp _ _ _ _]. destruct Hp as [Hp|[Hp|[Hp|Hp]]]; phases. Qed.

Lemma evolves_end_locked N c : evolves (λ code, code = CANCELED) N c (EndLocked env c).
Proof.
  destruct (decide (phase_ c < RELEASED)) as [Hlt|Hge].
  - apply (evolves_did _ N (if decide (phase_ c < RESULT_DELIVERED) then 1 else 0) 1). intros Hw.
    destruct (end_locked_did N c (w_callback _ Hw) Hlt) as [D P]. split; [done|]. rewrite P.
    unfold delivered_by, deleted_by. repeat case_decide; try phases; split_and!; try phases; try by right; right; right.
    all: intros _ Hx; phases.
  - unfold EndLocked, AdvancePhaseLocked. rewrite decide_True by phases. cbn beta iota zeta.
    rewrite decide_False by done. apply evolves_refl.
Qed.

Lemma start_timer_spec N c : let c' := StartOnTerminateTimer env c in
  did (λ _, False) N 0 0 c c' ∧ phase_ c' = phase_ c ∧
  ((∀ l, e_RegisterTimer env l ≠ 0) → onTerminateTimerId_ c' ≠ 0).
Proof.
  unfold StartOnTerminateTimer. case_decide as Ht; [split; [apply did_refl|done]|].
  split; [|split; [done|intros Hreg; apply Hreg]].
  apply (did_trans _ N 0 0 0 0 _ (eff c (WTimer (e_RegisterTimer env (effects_ c))))); [|by apply did_assign].
  by apply (did_effect _ N _ (WTimer _)).
Qed.

Lemma evolves_start_timer R N c : evolves R N c (StartOnTerminateTimer env c).
Proof.
  destruct (start_timer_spec N c) as (D & P & T). apply (evolves_did R N 0 0). intros Hw. rewrite P.
  split; [eapply did_mono; [..|exact D]; [by intros|done]|]. split; [apply (w_phase _ Hw)|].
  split; [lia|]. split; [lia|]. split; [lia|auto].
Qed.

Lemma evolves_try_end N c : evolves (λ code, code = CANCELED) N c (TryEndLocked env c).
Proof.
  unfold TryEndLocked. case_decide; [apply evolves_refl|].
  case_decide; [apply evolves_start_timer|apply evolves_end_locked].
Qed.

Lemma evolves_terminated N c : evolves (λ code, code = CANCELED) N c (OnChildTerminated env c).
Proof.
  unfold OnChildTerminated.
  match goal with |- context [TryEndLocked env ?x] => set (c1 := x) end.
  assert (evolves (λ code, code = CANCELED) N c c1) as H1.
  { apply evolves_quiet. unfold c1. case_decide; [quiet_assign|done]. }
  case_decide; [done|]. eapply evolves_trans; [exact H1|apply evolves_try_end].
Qed.

Lemma evolves_timeout N c : evolves (λ code, code = CANCELED) N c (OnTerminateTimerTimeOut env c).
Proof.
  unfold OnTerminateTimerTimeOut. case_decide as Hp; [apply evolves_refl|].
  set (c1 := set_activeChildCount (eff (set_onTerminateTimerId c 0) WSystemFault) 0).
  apply (evolves_did _ N (if decide (phase_ c < RESULT_DELIVERED) then 1 else 0) 1). intros Hw.
  pose proof (phase_bounds c Hw).
  destruct (end_locked_did N c1) as [D P]; [apply (w_callback _ Hw)|simpl; phases|].
  rewrite P. split.
  - apply (did_trans _ N 0 0 _ _ _ c1); [|exact D].
    apply (did_trans _ N 0 0 0 0 _ (set_onTerminateTimerId c 0)); [by apply did_assign|].
    apply (did_trans _ N 0 0 0 0 _ (eff (set_onTerminateTimerId c 0) WSystemFault)); [|by apply did_assign].
    by apply (did_effect _ N _ WSystemFault).
  - unfold delivered_by, deleted_by. repeat case_decide; try phases; split_and!; try phases; try by right; right; right.
    all: intros _ Hx; phases.
Qed.

Lemma evolves_clear N c : evolves (λ code, code = CANCELED) N c (ClearSchedule env c).
Proof.
  unfold ClearSchedule. case_decide; [apply evolves_refl|].
  eapply evolves_trans; [|apply evolves_try_end]. apply evolves_quiet. quiet_assign.
Qed.
(** [HandleAuthSuccessResult] leaves the context alone or reports a general error. *)
Lemma handle_success_spec c attr : phase_ c = RESULT_DELIVERED →
  let '(c', attr', ok) := HandleAuthSuccessResult c attr in
  if ok : bool then c' = c else c' = DeliverResultLocked c GENERAL_ERROR attr'.
Proof.
  intros Hp. unfold HandleAuthSuccessResult, AdvancePhaseLocked. cbv zeta. rewrite Hp.
  rewrite (decide_True (P := RESULT_DELIVERED <= RESULT_DELIVERED)) by lia.
  do 5 (match goal with |- context [let '(_, _) := ?x in if decide _ then _ else _] => destruct x as [? []] end;
    [rewrite (decide_True (P := true = true)) by done|rewrite (decide_False (P := false = true)) by done; done]). done.
Qed.

(** [End] reports its code, or a general error if the result cannot be packed. *)
Lemma evolves_end N c code : evolves (λ x, x = code ∨ x = GENERAL_ERROR ∨ x = CANCELED) N c (End env c code).
Proof.
  set (R := λ x, x = code ∨ x = GENERAL_ERROR ∨ x = CANCELED).
  unfold End, AdvancePhaseLocked. case_decide as Hp; cbn beta iota zeta; [apply evolves_refl|].
  rewrite (decide_True (P := true = true)) by done.
  eapply evolves_trans; [|eapply evolves_mono; [..|apply evolves_try_end]; [by right; right|done]].
  set (c1 := StopAllRunTask env (set_phase c STOPPING) code).
  assert (quiet N (set_phase c STOPPING) c1) as Hq by apply quiet_stop_all.
  assert (did R N 0 0 c c1) as D1.
  { apply (did_trans _ N 0 0 0 0 _ (set_phase c STOPPING)); [by apply did_assign|by apply did_quiet]. }
  apply (evolves_did R N 1 0). intros Hw.
  pose proof (phase_bounds c Hw) as Hb. pose proof (q_phase _ _ _ Hq) as P1. simpl in P1.
  pose proof (q_callback _ _ _ Hq) as C1. simpl in C1. rewrite (w_callback _ Hw) in C1.
  unfold DeliverEndLocked, AdvancePhaseLocked. rewrite (decide_True (P := callerCallback_ c1 = true)) by done.
  rewrite P1, (decide_False (P := RESULT_DELIVERED <= STOPPING)) by phases. cbn beta iota zeta.
  rewrite (decide_True (P := true = true)) by done.
  set (c2 := set_phase c1 RESULT_DELIVERED).
  assert (did R N 0 0 c c2) as D2 by (apply (did_trans _ N 0 0 0 0 _ _ _ D1); by apply did_assign).
  assert (∀ c3, did R N 1 0 c c3 → phase_ c3 = RESULT_DELIVERED →
    let c' := eff (StartOnTerminateTimer env c3) WUnSubscribeAppState in
    did R N 1 0 c c' ∧
    (phase_ c' = NOT_STARTED ∨ phase_ c' = RUNNING ∨ phase_ c' = RESULT_DELIVERED ∨ phase_ c' = RELEASED) ∧
    phase_ c <= phase_ c' ∧ (delivered_by (phase_ c) + 1)%nat = delivered_by (phase_ c') ∧
    (deleted_by (phase_ c) + 0)%nat = deleted_by (phase_ c') ∧
    ((∀ l, e_RegisterTimer env l ≠ 0) → phase_ c' = RESULT_DELIVERED → onTerminateTimerId_ c' ≠ 0)) as Hfinish.
  { intros c3 D3 P3. destruct (start_timer_spec N c3) as (D4 & P4 & T4). simpl. rewrite P4, P3.
    split.
    { apply (did_trans R N 1 0 0 0 _ (StartOnTerminateTimer env c3)).
      - apply (did_trans R N 1 0 0 0 _ c3 _ D3). eapply did_mono; [..|exact D4]; done.
      - by apply (did_effect _ N _ WUnSubscribeAppState). }
    split; [by right; right; left|]. split; [phases|].
    unfold delivered_by, deleted_by. repeat case_decide; try phases. split; [done|]. split; [done|auto]. }
  pose proof (handle_success_spec c2 Attributes_new eq_refl) as Hh.
  assert (∀ x attr, R x → did R N 1 0 c (DeliverResultLocked c2 x attr) ∧
    phase_ (DeliverResultLocked c2 x attr) = RESULT_DELIVERED) as Hdel.
  { intros x attr Hx. destruct (deliver_did R N c2 x attr C1 Hx) as (D3 & P3 & _). split; [|by rewrite P3].
    by apply (did_trans R N 0 0 1 0 _ c2). }
  assert (R GENERAL_ERROR) as Rg by (right; by left). assert (R code) as Rc by (by left).
  destruct (decide (code = SUCCESS ∨ token (authResultInfo_ c2) ≠ [])) as [Hs|Hs].
  - destruct (HandleAuthSuccessResult c2 Attributes_new) as [[c3 attr] []]; rewrite Hh; cbn beta iota zeta.
    + rewrite (decide_True (P := true = true)) by done. destruct (Hdel code attr Rc) as [D3 P3].
      destruct (connection_ (DeliverResultLocked c2 code attr)); apply Hfinish; try exact P3; try exact D3.
      apply (did_trans R N 1 0 0 0 _ _ _ D3). by apply did_assign.
    + rewrite (decide_False (P := false = true)) by done. by apply Hfinish; apply Hdel.
  - rewrite (decide_True (P := true = true)) by done. destruct (Hdel code Attributes_new Rc) as [D3 P3].
    destruct (connection_ (DeliverResultLocked c2 code Attributes_new)); apply Hfinish; try exact P3; try exact D3.
    apply (did_trans R N 1 0 0 0 _ _ _ D3). by apply did_assign.
Qed.
(** ** Every operation *)

Definition honest (code : Z) : Prop := code ≠ SUCCESS.

Lemma evolves_winv R N c c' : (winv c → evolves R N c c') → evolves R N c c'.
Proof. intros Hw. split; intros H; by apply (Hw H). Qed.

Lemma honest_canceled R N c c' : evolves (λ code, code = CANCELED) False c c' → (∀ x, honest x → R x) → evolves R N c c'.
Proof. intros He HR. eapply evolves_mono; [..|exact He]; [|done]. intros x ->. by apply HR. Qed.

Lemma evolves_end_honest N c code : honest code → evolves honest N c (End env c code).
Proof.
  intros Hc. eapply evolves_mono; [| |apply (evolves_end N)]; [|done]. by intros x [-> |[-> | ->]].
Qed.

Lemma evolves_connect N c reload : evolves honest N c (ConnectExtension env c reload).1.
Proof.
  unfold ConnectExtension.
  match goal with |- context [let '(_, _) := ?x in _] => set (r1 := x) end.
  assert (quiet N c r1.1) as H1. { unfold r1. destruct reload; [apply quiet_refresh|done]. }
  destruct r1 as [c1 refreshed]. simpl in H1. case_decide; [|by apply evolves_quiet].
  match goal with |- context [let '(_, _) := ?x in _] => set (r2 := x) end.
  assert (quiet N c1 r2.1) as H2.
  { unfold r2. case_match; [|done]. destruct (p_authTypeList _) as [|t ts]; [done|].
    pose proof (quiet_profile N c1 t). by destruct (profile_at c1 t). }
  destruct r2 as [c2 exhausted]. simpl in H2. assert (quiet N c c2) as Hq by (by etrans).
  case_decide. { eapply evolves_trans; [by apply evolves_quiet|]. by apply evolves_end_honest. }
  case_decide; [|simpl; eapply evolves_trans; [by apply evolves_quiet|]; by apply evolves_end_honest].
  case_decide; [by apply evolves_quiet|]. case_decide; apply evolves_quiet; (etrans; [exact Hq|]).
  - simpl. case_match; [quiet_back|]; quiet_assign.
  - unfold ConnectExtensionAbility. repeat (case_decide; simpl); by repeat quiet_back.
Qed.

Lemma evolves_child_result N c code t attr : (code = SUCCESS ∨ code = COMPLEXITY_CHECK_FAILED → N) →
  evolves honest N c (OnChildAuthResult env c code t attr).
Proof.
  intros Hn. unfold OnChildAuthResult.
  assert (∀ c, evolves honest N c (OnChildTerminated env c)) as Hend.
  { intros c'. apply honest_canceled; [apply evolves_terminated|done]. }
  case_decide; [apply Hend|]. case_decide.
  - eapply evolves_trans; [|apply Hend]. apply evolves_quiet. etrans; [|by apply quiet_proc]. quiet_effect.
  - eapply evolves_trans; [|apply Hend]. apply evolves_quiet. quiet_effect.
Qed.

Lemma evolves_report_error c child t : evolves honest False c (ReportChildError env c child t).
Proof.
  unfold ReportChildError. destruct child.
  - apply evolves_child_result. by intros [|].
  - apply honest_canceled; [apply evolves_terminated|done].
Qed.

Lemma evolves_execute_one c t : evolves honest False c (execute_one env c t).
Proof.
  unfold execute_one. set (c1 := set_activeChildCount c _).
  assert (quiet False c c1) as H1 by quiet_assign.
  assert (evolves honest False c1 (BuildTask env c1 t).1) as H2.
  { unfold BuildTask. case_decide; [|apply evolves_report_error].
    cbv zeta. destruct (e_CreateSimpleAuthContext _ _ _) as [child|]; cbv zeta.
    - case_decide; cbn [fst]; [apply evolves_quiet; by repeat quiet_back|].
      eapply evolves_trans; [|apply evolves_quiet; unfold clean_child; case_decide; [done|quiet_effect]].
      eapply evolves_trans; [|apply evolves_report_error]. apply evolves_quiet. by repeat quiet_back.
    - eapply evolves_trans; [|apply evolves_report_error]. apply evolves_quiet. quiet_effect. }
  destruct (BuildTask env c1 t) as [c2 task]. simpl in H2.
  eapply evolves_trans; [by apply evolves_quiet|]. eapply evolves_trans; [exact H2|]. clear.
  destruct task; [|apply evolves_refl]. apply evolves_quiet. quiet_back. case_decide; [quiet_assign|done].
Qed.

Lemma evolves_execute N c types : evolves honest N c (ExecuteAuthList env c types).
Proof.
  eapply (evolves_mono honest _ False); [done|done|]. unfold ExecuteAuthList. case_decide; [apply evolves_refl|].
  apply evolves_foldl. apply evolves_execute_one.
Qed.

(** The callbacks that may report a success. *)
Definition reports_success (k : WidgetCall) : Prop :=
  match k with
  | COnAuthSuccess _ => True
  | COnScheduleAuthResult code _ _ => code = SUCCESS
  | _ => False
  end.

Lemma evolves_callback c k :
  evolves (λ code, honest code ∨ reports_success k) False c (call_back_context env c k).1.
Proof.
  set (R := λ code, honest code ∨ reports_success k).
  assert (∀ c c', evolves honest False c c' → evolves R False c c') as Hh.
  { intros c1 c2. apply evolves_mono; [by left|done]. }
  destruct k; simpl;
    lazymatch goal with
    | |- context [OnAuthSuccess] => idtac
    | |- context [OnScheduleAuthResult] => idtac
    | _ => apply Hh
    end.
  - unfold LaunchWidget. case_decide; [apply evolves_refl|].
    eapply evolves_trans; [|apply evolves_connect]. apply evolves_quiet. case_decide; [quiet_effect|done].
  - apply evolves_execute.
  - unfold EndAuthAsCancel. case_decide; [by apply evolves_end_honest|].
    case_decide; [apply evolves_refl|by apply evolves_end_honest].
  - by apply evolves_end_honest.
  - by apply evolves_end_honest.
  - apply evolves_quiet, quiet_stop_list.
  - unfold OnAuthSuccess. case_decide; [by apply Hh, evolves_end_honest|].
    eapply evolves_mono; [| |apply (evolves_end False)]; [|done]. intros x _. by right.
  - unfold OnAuthFail. apply evolves_winv. intros Hw. apply evolves_end_honest, Hw.
  - unfold AuthWidgetReload. eapply evolves_trans; [|apply evolves_connect]. apply evolves_quiet.
    case_decide; [quiet_assign|done].
  - apply evolves_quiet, quiet_disconnect.
  - apply evolves_quiet, quiet_tip.
  - unfold OnScheduleAuthResult. case_decide as Hc; [by apply Hh, evolves_end_honest|].
    destruct (e_GetEnrolledState _ _ _) as [[code digest] cnt].
    assert (∀ c' code', quiet False c c' → evolves R False c (End env c' code')) as Hend.
    { intros c' code' Hq. eapply evolves_trans; [by apply evolves_quiet|].
      eapply evolves_mono; [| |apply (evolves_end False)]; [|done]. intros x _. right.
      simpl. by destruct (decide (resultCode = SUCCESS)). }
    case_decide; apply Hend; quiet_assign.
  - apply honest_canceled; [apply evolves_clear|done].
  - unfold GetRemoteAuthParam. case_decide; [apply evolves_quiet; quiet_effect|apply evolves_refl].
Qed.

Lemma evolves_start_failed N c code : honest code → evolves honest N c (OnStartFailed env c code).
Proof.
  intros Hcode. unfold OnStartFailed, AdvancePhaseLocked. case_decide as Hp; cbn beta iota zeta; [apply evolves_refl|].
  rewrite (decide_True (P := true = true)) by done.
  set (c1 := set_phase c RESULT_DELIVERED). apply (evolves_did honest N 1 1). intros Hw.
  destruct (deliver_did honest N c1 code Attributes_new (w_callback _ Hw) Hcode) as (D2 & P2 & _).
  set (c2 := DeliverResultLocked c1 code Attributes_new) in *.
  destruct (end_locked_did N c2) as [D3 P3].
  { rewrite (d_callback _ _ _ _ _ _ D2). apply (w_callback _ Hw). } { rewrite P2. by vm_compute. }
  rewrite decide_False in D3 by (rewrite P2; by vm_compute). rewrite P3. split.
  - apply (did_trans honest N 1 0 0 1 _ c2).
    + apply (did_trans honest N 0 0 1 0 _ c1); [by apply did_assign|done].
    + eapply did_mono; [..|exact D3]; [|done]. by intros x ->.
  - pose proof (phase_bounds c Hw). unfold delivered_by, deleted_by.
    repeat case_decide; phases.
Qed.

Lemma evolves_stop N c : evolves honest N c (Stop env c).1.
Proof.
  unfold Stop, AdvancePhaseLocked. case_decide as Hp.
  - rewrite Hp, (decide_False (P := STOPPING <= NOT_STARTED)) by phases. cbn beta iota zeta.
    rewrite (decide_True (P := true = true)) by done. cbn [fst].
    pose proof (evolves_start_failed N c CANCELED) as Hf. revert Hf.
    unfold OnStartFailed, AdvancePhaseLocked. simpl phase_. rewrite Hp.
    rewrite !decide_False by phases. cbn beta iota zeta. intros Hf. by apply Hf.
  - cbn beta iota zeta. rewrite (decide_False (P := false = true)) by done. simpl.
    eapply evolves_trans; [|apply evolves_quiet, quiet_client]. by apply evolves_end_honest.
Qed.

Lemma evolves_start N c : evolves honest N c (Start env c).1.
Proof.
  unfold Start, AdvancePhaseLocked. case_decide as Hp; simpl.
  { case_decide; [apply evolves_refl|]. apply evolves_quiet, quiet_SetLatestError. }
  rewrite Hp. rewrite (decide_False (P := RUNNING <= NOT_STARTED)) by phases.
  cbn beta iota zeta. rewrite (decide_True (P := true = true)) by done.
  eapply evolves_trans; [|apply evolves_quiet, quiet_OnStart].
  apply (evolves_did honest N 0 0). intros Hw. simpl. split; [by apply did_assign|].
  unfold delivered_by, deleted_by. rewrite Hp. split_and!; try done; by right; left.
Qed.
End Ending.

(** ** Runs of a context *)

(** A call from outside. The pool reports a failed start with the context's
    latest error. *)
Inductive context_op :=
  | OpStart
  | OpStop
  | OpStartFailed
  | OpCallback (k : WidgetCall)
  | OpChildResult (authType resultCode : Z) (extraInfo : bytes)
  | OpChildTip (authType tipType : Z) (extraInfo : bytes)
  | OpSetRemoteAuthParam (hasContext : bool) (navigationButtonText : bytes) (modalCallback : bool)
  | OpTimeout.

Definition context_step (env : WidgetEnv) (c : WidgetContext) (op : context_op) : WidgetContext :=
  match op with
  | OpStart => (Start env c).1
  | OpStop => (Stop env c).1
  | OpStartFailed => OnStartFailed env c (latestError_ c)
  | OpCallback k => (call_back_context env c k).1
  | OpChildResult t code extra => child_OnResult env c t code extra
  | OpChildTip t tip extra => OnChildAuthTip env c tip t (Attributes_of_raw extra)
  | OpSetRemoteAuthParam h b m => SetRemoteAuthParam c h b m
  | OpTimeout => OnTerminateTimerTimeOut env c
  end.

Definition context_run (env : WidgetEnv) (c : WidgetContext) (ops : list context_op) : WidgetContext :=
  foldl (context_step env) c ops.

(** The operations that may report a success, and those that announce one. *)
Definition op_reports (op : context_op) : Prop :=
  match op with OpCallback k => reports_success k | _ => False end.
Definition op_announces (op : context_op) : Prop :=
  match op with
  | OpChildResult _ code _ => code = SUCCESS ∨ code = COMPLEXITY_CHECK_FAILED
  | _ => False
  end.

Lemma evolves_step env c op :
  evolves env (λ code, honest code ∨ op_reports op) (op_announces op) c (context_step env c op).
Proof.
  assert (∀ N c1 c2, evolves env honest N c1 c2 → evolves env (λ code, honest code ∨ op_reports op) N c1 c2) as Hh.
  { intros N c1 c2. apply evolves_mono; [by left|done]. }
  destruct op; simpl; lazymatch goal with |- context [call_back_context] => idtac | _ => apply Hh end.
  - apply evolves_start.
  - apply evolves_stop.
  - apply evolves_winv. intros Hw. apply evolves_start_failed, Hw.
  - apply evolves_callback.
  - by apply evolves_child_result.
  - apply evolves_quiet, quiet_child_tip.
  - apply evolves_quiet. unfold SetRemoteAuthParam. etrans; [|by apply quiet_request]. by repeat quiet_back.
  - apply honest_canceled; [apply evolves_timeout|done].
Qed.

Lemma winv_new env id para modal remote : winv env (WidgetContext_new id para modal remote).
Proof. split; simpl; try done. by left. Qed.

Lemma winv_run env c ops : winv env c → winv env (context_run env c ops).
Proof.
  revert c. induction ops as [|op ops IH]; intros c Hw; [done|]. apply IH. by eapply ev_inv; [apply evolves_step|].
Qed.

(** C38: Whatever the pool, the schedule, the children, the remote caller and
    the timer do, and in whatever order: the caller gets at most one result,
    and gets it by the time the context has moved to [RESULT_DELIVERED]; the
    context is taken out of the pool once, when it is released; no context
    rests in the phase [STOPPING], half ended. *)
Theorem widget_result_once (env : WidgetEnv) (id : Z) (para : WidgetPara) (modal remote : bool)
    (ops : list context_op) :
  let c := context_run env (WidgetContext_new id para modal remote) ops in
  count is_result (effects_ c) = (if decide (RESULT_DELIVERED <= phase_ c) then 1%nat else 0%nat) ∧
  count is_delete (effects_ c) = (if decide (RELEASED <= phase_ c) then 1%nat else 0%nat) ∧
  phase_ c ≠ STOPPING.
Proof.
  intros c. assert (winv env c) as [_ Hp _ Hr Hd _] by apply winv_run, winv_new.
  split; [exact Hr|]. split; [exact Hd|]. destruct Hp as [-> |[-> |[-> | ->]]]; by vm_compute.
Qed.

(** C39: If the timers work (no registered timer has the id 0), a widget context
    is never stranded: once its result is delivered, the termination timer is
    pending or the context is released; and whenever that timer fires the
    context is released, with its one result delivered. *)
Theorem widget_always_ends (env : WidgetEnv) (id : Z) (para : WidgetPara) (modal remote : bool)
    (ops : list context_op) :
  (∀ l, e_RegisterTimer env l ≠ 0) →
  let c := context_run env (WidgetContext_new id para modal remote) ops in
  (phase_ c = RESULT_DELIVERED → onTerminateTimerId_ c ≠ 0) ∧
  let c' := OnTerminateTimerTimeOut env c in
  phase_ c' = RELEASED ∧ count is_result (effects_ c') = 1%nat ∧ count is_delete (effects_ c') = 1%nat.
Proof.
  intros Ht c. assert (winv env c) as Hw by apply winv_run, winv_new. split; [by apply Hw|].
  intros c'. assert (winv env c') as Hw' by (by eapply ev_inv; [apply (evolves_timeout env False)|]).
  assert (phase_ c' = RELEASED) as Hp.
  { unfold c', OnTerminateTimerTimeOut. case_decide as Hp; [done|]. pose proof (phase_bounds env c Hw).
    apply (end_locked_did env False); [apply (w_callback _ _ Hw)|simpl; phases]. }
  split; [done|]. rewrite (w_results _ _ Hw'), (w_deletes _ _ Hw'), Hp. done.
Qed.

(** Everything outside answers with a failure, but the timers work. *)
Definition quiet_env : WidgetEnv := mkWidgetEnv
  (λ _ _, (FAIL, mkProfile 0 [] 0 0)) (λ _ _, (FAIL, 0, 0)) (λ _, false) (λ _, false) false [] None (λ _, false) []
  (λ _, []) (λ _, 0) (λ _, 0) (λ l, Z.of_nat (length l) + 1) (λ _ _, None) (λ _ _, false) (λ _, None) (λ _, None).

Lemma widget_always_ends_witness :
  let c' := OnTerminateTimerTimeOut quiet_env
    (WidgetContext_new 9 (mkPara 100 [] [PIN] false [] ∅ [] 0 [] false false) false false) in
  phase_ c' = RELEASED ∧ count is_result (effects_ c') = 1%nat.
Proof.
  refine (let H := widget_always_ends quiet_env 9 (mkPara 100 [] [PIN] false [] ∅ [] 0 [] false false) false false []
    _ in conj (proj1 (proj2 H)) (proj1 (proj2 (proj2 H)))).
  intros l. simpl. lia.
Defined.
