(* ===== verification/WidgetSystem.v ===== *)
(** * A widget context and its schedule together

    The schedule of WidgetScheduleNode.v with the context of WidgetContext.v
    behind its callback: what a widget authentication as a whole promises to
    the caller. An execution is a sequence of events from outside: calls of the
    pool, results and tips of the children, notices of the widget, the timer,
    the remote caller, and rounds of the machine's tasks. *)

From S2P Require Import Prelude Defines AttributesImpl Attributes Fsm WidgetScheduleNode WidgetScheduleThm.
From S2P Require Import WidgetContext WidgetContextThm.

(** What the widget client passes on of the widget's notices. *)
Inductive notice :=
  | NStartAuthList (types : list Z) (endAfterFirstFail : bool) (authIntent : Z)
  | NStopSchedule
  | NStopAuthList (types : list Z)
  | NNaviPinAuth
  | NWidgetParaInvalid
  | NWidgetReload (orientation needRotate alreadyLoad rotateAuthType : Z)
  | NClearSchedule
  | NWidgetResult (resultCode authType : Z) (token : bytes).

Definition notice_request (n : notice) : WidgetRequest :=
  match n with
  | NStartAuthList types first intent => RStartAuthList types first intent
  | NStopSchedule => RStopSchedule
  | NStopAuthList types => RStopAuthList types
  | NNaviPinAuth => RNaviPinAuth
  | NWidgetParaInvalid => RWidgetParaInvalid
  | NWidgetReload o r a t => RWidgetReload o r a t
  | NClearSchedule => RClearSchedule
  | NWidgetResult code t token => ROnWidgetResult code t token
  end.

Inductive sys_event :=
  | EvStart
  | EvStop
  | EvStartFailed
  | EvChildResult (authType resultCode : Z) (extraInfo : bytes)
  | EvChildTip (authType tipType : Z) (extraInfo : bytes)
  | EvSetRemoteAuthParam (hasContext : bool) (navigationButtonText : bytes) (modalCallback : bool)
  | EvTimeout
  | EvNotice (n : notice)
  | EvWidgetTip (types : list Z) (tipCode : Z)
  | EvRound
  | EvGone.

(** The calls that go to the context. *)
Definition context_event (ev : sys_event) : option context_op :=
  match ev with
  | EvStart => Some OpStart
  | EvStop => Some OpStop
  | EvStartFailed => Some OpStartFailed
  | EvChildResult t code extra => Some (OpChildResult t code extra)
  | EvChildTip t tip extra => Some (OpChildTip t tip extra)
  | EvSetRemoteAuthParam h b m => Some (OpSetRemoteAuthParam h b m)
  | EvTimeout => Some OpTimeout
  | _ => None
  end.

Section System.
Context (env : WidgetEnv) (self : Z).
Abbreviation System := (WidgetScheduleNode WidgetContext).
#[local] Instance callback_instance : WidgetScheduleNodeCallback WidgetContext := widget_callback env.
Implicit Types (s : System).

(** A call to the context; its requests to the schedule are served in order. *)
Definition sys_context s (op : context_op) : System :=
  match callback_ (wnode s) with
  | None => s
  | Some c =>
      let c' := context_step env c op in
      foldl (serve self) (on_s s (λ n, set_callback n (Some c'))) (new_requests c c')
  end.

(** One round of the machine. *)
Definition sys_round s : System :=
  match machine_ s with
  | None => s
  | Some m =>
      match pendingEvents_ m with
      | [] => s
      | e :: q =>
          let '(m', n', _) := schedule_event tables (set_pending m q) (wnode s) e in
          mkWidgetScheduleNode n' (Some m')
      end
  end.

Definition sys_step s (ev : sys_event) : System :=
  match ev with
  | EvNotice n => serve self s (notice_request n)
  | EvWidgetTip types tipCode => OnWidgetTip s self types tipCode
  | EvRound => sys_round s
  | EvGone => on_s s (λ n, set_callback n None)
  | _ => match context_event ev with Some op => sys_context s op | None => s end
  end.

Definition sys_run s (evs : list sys_event) : System := foldl sys_step s evs.

(** ** Evidence of a success *)

(** A child authenticated the user (its credential may be too weak), or the
    widget said so. *)
Definition evidence (ev : sys_event) : Prop :=
  match ev with
  | EvChildResult _ code _ => code = SUCCESS ∨ code = COMPLEXITY_CHECK_FAILED
  | EvNotice (NWidgetResult code _ _) => code = SUCCESS
  | _ => False
  end.

Definition seen (E : Prop) (c : WidgetContext) : Prop :=
  winv env c ∧ ∀ attr, WResult SUCCESS attr ∈ effects_ c → E.

(** Whatever could lead to a reported success has evidence behind it. *)
Record backed (E : Prop) s : Prop := {
  b_context : ∀ c, callback_ (wnode s) = Some c → seen E c;
  b_result : resultCode_ (wnode s) = SUCCESS → E;
  b_machine : ∀ m, machine_ s = Some m → wstate_ok (currentState_ m) ∧ Forall wevent_ok (pendingEvents_ m) ∧
    (E_COMPLETE_AUTH ∈ pendingEvents_ m → E);
}.

Lemma backed_mono (E E' : Prop) s : (E → E') → backed E s → backed E' s.
Proof.
  intros HE [B1 B2 B3]. split; [|auto|].
  - intros c Hc. destruct (B1 c Hc) as [W S]. split; [done|]. intros attr Ha. by eapply HE, S.
  - intros m Hm. destruct (B3 m Hm) as (K1 & K2 & K3). auto.
Qed.

Lemma requests_app l1 l2 : requests_of (l1 ++ l2) = requests_of l1 ++ requests_of l2.
Proof. apply omap_app. Qed.

(** What a step of the context adds. *)
Lemma evolves_seen (E : Prop) R N c c' :
  evolves env R N c c' → (R SUCCESS → E) → seen E c →
  seen E c' ∧ ∀ r, r ∈ new_requests c c' →
    (∀ code t tok, r ≠ ROnWidgetResult code t tok) ∧ (request_event r = E_COMPLETE_AUTH → N).
Proof.
  intros [E1 E2 E3] HR [Hw Hs]. destruct (E3 Hw) as (nr & nd & [_ _ (l & Hl & Hall & _)]). split.
  - split; [by apply E1|]. intros attr. rewrite Hl. intros [Ha|Ha]%elem_of_app; [by eapply Hs|].
    rewrite Forall_forall in Hall. by apply HR, (Hall _ Ha).
  - intros r. unfold new_requests. rewrite Hl, drop_app_length. unfold requests_of.
    intros (e & He & Hr)%list_elem_of_omap. rewrite Forall_forall in Hall. specialize (Hall _ He).
    destruct e as [| | |r'| | | | | | | | | | | | | | | |]; simpl in Hr; try done. injection Hr as ->.
    destruct r; simpl in *; (split; [intros; by intros [=]|]); try (intros; by vm_compute in *); tauto.
Qed.

(** A request that brings no success. *)
Definition harmless (E : Prop) (r : WidgetRequest) : Prop :=
  (∀ code t tok, r = ROnWidgetResult code t tok → code = SUCCESS → E) ∧
  (request_event r = E_COMPLETE_AUTH → E).

Lemma backed_serve (E : Prop) s r : harmless E r → backed E s → backed E (serve self s r).
Proof.
  intros [Hr1 Hr2] [B1 B2 B3]. destruct s as [n mm].
  assert (∀ n', callback_ n' = callback_ n → (resultCode_ n' = SUCCESS → E) →
    backed E (TryKickMachine (mkWidgetScheduleNode n' mm) self (request_event r)).1) as Hk.
  { intros n' Hc Hres. unfold TryKickMachine. simpl. destruct mm as [m|]; simpl.
    - destruct (B3 m eq_refl) as (K1 & K2 & K3). split; simpl; [by rewrite Hc|done|].
      intros m' [= <-]. unfold Schedule, AttachOwnerLifetime. simpl. case_decide; simpl; [|done].
      split; [done|]. split.
      + apply Forall_app. split; [done|]. apply Forall_singleton, request_event_ok.
      + intros [Hin|Hin]%elem_of_app; [by apply K3|]. apply list_elem_of_singleton in Hin. by apply Hr2.
    - split; simpl; [by rewrite Hc|done|done]. }
  destruct r; try (apply Hk; [done|exact B2]).
  simpl. unfold OnWidgetResult. case_decide as Hcode; (apply Hk; [done|]); simpl; [|done].
  intros _. by eapply Hr1.
Qed.

Lemma backed_serves (E : Prop) rs s : Forall (harmless E) rs → backed E s → backed E (foldl (serve self) s rs).
Proof.
  intros Hall. revert s. induction Hall as [|r rs Hr _ IH]; intros s Hb; simpl; [done|].
  by apply IH, backed_serve.
Qed.

Lemma backed_callback (E : Prop) s c : seen E c → backed E s → backed E (on_s s (λ n, set_callback n (Some c))).
Proof. intros Hc [B1 B2 B3]. split; simpl; [|done|done]. by intros c' [= <-]. Qed.

Lemma backed_round (E : Prop) s : backed E s → backed E (sys_round s).
Proof.
  intros Hb. unfold sys_round. destruct (machine_ s) as [m|] eqn:Hm; [|done].
  destruct (pendingEvents_ m) as [|e q] eqn:Hq; [done|]. destruct Hb as [B1 B2 B3].
  destruct (B3 m Hm) as (K1 & K2 & K3). rewrite Hq in K2, K3. apply Forall_cons in K2 as [He Hqs].
  rewrite (wround (set_pending m q) (wnode s) e K1 He). simpl.
  destruct (wdelta (currentState_ m) e) as [[new h]|] eqn:Hd.
  2: { split; [done|done|]. intros m' [= <-]. simpl. split; [done|]. split; [done|]. intros Hin. apply K3. by right. }
  apply wfind_in, handler_fits in Hd as (k & run & Hh & Hnew & _ & _ & _ & Hk).
  pose proof (Hh (wnode s) e) as Hs. destruct (h (wnode s) e) as [n' ks]. destruct Hs as [[Hks Hcall] _].
  specialize (Hk (wnode s)).
  destruct (kicks_pending ks (set_pending m q)) as (es & Hes & Hsub). simpl in Hes.
  assert (∀ m', set_state (foldl apply_kick (set_pending m q) ks) new = m' →
    wstate_ok (currentState_ m') ∧ Forall wevent_ok (pendingEvents_ m') ∧
    ((E_COMPLETE_AUTH ∈ kick_event <$> ks → E) → E_COMPLETE_AUTH ∈ pendingEvents_ m' → E)) as Hm'.
  { intros m' <-. simpl. rewrite Hes. split; [done|]. split.
    - apply Forall_app. split; [done|]. apply Forall_forall. intros x Hx. rewrite Forall_forall in Hks.
      apply Hks. by eapply elem_of_sublist.
    - intros Hke [Hin|Hin]%elem_of_app; [apply K3; by right|]. apply Hke. by eapply elem_of_sublist. }
  destruct (callback_ (wnode s)) as [c|] eqn:Hc.
  - destruct Hcall as (_ & c' & rs & ret & Hcb & Hc' & Hreq & Hres).
    pose proof (evolves_callback env c (k (wnode s))) as Hev. simpl in Hcb.
    destruct (call_back_context env c (k (wnode s))) as [c1 ret1]. injection Hcb as <- <- <-. simpl in Hev.
    destruct (evolves_seen E _ _ c c1 Hev) as [Hseen Hnew'].
    { intros [Hbad|Hrep]; [done|]. destruct (k (wnode s)); try done; simpl in Hrep.
      - apply K3. rewrite <- Hk. by left.
      - apply B2. congruence. }
    { by apply B1. }
    split; simpl.
    + rewrite Hc'. by intros c2 [= <-].
    + intros Hcode. destruct Hres as [Hres|(code & t & tok & Hin)]; [apply B2; congruence|].
      by destruct (proj1 (Hnew' _ Hin) code t tok).
    + intros m' [= Hmm]. destruct (Hm' m' Hmm) as (A1 & A2 & A3). split; [done|]. split; [done|]. apply A3.
      intros [Hin|Hin]%Hreq; [|done]. apply list_elem_of_fmap in Hin as (r & Hr & Hin).
      by destruct (proj2 (Hnew' r Hin) (eq_sym Hr)).
  - destruct Hcall as [-> ->]. split; simpl; [by rewrite Hc|done|].
    intros m' [= Hmm]. destruct (Hm' m' Hmm) as (A1 & A2 & A3). split; [done|]. split; [done|]. apply A3.
    by intros ?%elem_of_nil.
Qed.

Lemma backed_context (E : Prop) s op : (op_reports op → False) → (op_announces op → E) →
  backed E s → backed E (sys_context s op).
Proof.
  intros Hr Ha Hb. unfold sys_context. destruct (callback_ (wnode s)) as [c|] eqn:Hc; [|done].
  destruct (evolves_seen E _ _ c _ (evolves_step env c op)) as [Hseen Hnew].
  { intros [Hbad|Hrep]; [done|by destruct (Hr Hrep)]. } { by apply (b_context _ _ Hb). }
  apply backed_serves; [|by apply backed_callback].
  apply Forall_forall. intros r Hin. destruct (Hnew r Hin) as [H1 H2]. split; [|auto].
  intros code t tok ->. by destruct (H1 code t tok).
Qed.

Lemma backed_tips (E : Prop) types code s :
  backed E s → backed E (foldl (λ s t, call_outside self s (COnScheduleAuthTip t code)) s types).
Proof.
  revert s. induction types as [|t types IH]; intros s Hb; simpl; [done|]. apply IH.
  unfold call_outside. destruct (callback_ (wnode s)) as [c|] eqn:Hc; [|done].
  pose proof (evolves_callback env c (COnScheduleAuthTip t code)) as Hev. simpl in *.
  destruct (evolves_seen E _ _ c _ Hev) as [Hseen Hnew]; [by intros [?|?]|by apply (b_context _ _ Hb)|].
  apply backed_serves.
  - apply Forall_forall. intros r Hin. destruct (Hnew r Hin) as [H1 H2]. split; [|by intros ?%H2].
    intros code' t' tok ->. by destruct (H1 code' t' tok).
  - destruct Hb as [B1 B2 B3]. split; simpl; [|done|done]. by intros c' [= <-].
Qed.

Lemma backed_step (E : Prop) s ev : (evidence ev → E) → backed E s → backed E (sys_step s ev).
Proof.
  intros He Hb. destruct ev; simpl in *; try (apply backed_context; simpl; try done; tauto).
  - apply backed_serve; [|done]. destruct n; (split; [intros code t tok [= -> -> ->]|]); try done; auto.
  - unfold OnWidgetTip. case_decide; [|done]. by apply backed_tips.
  - by apply backed_round.
  - destruct Hb as [B1 B2 B3]. by split.
Qed.

Lemma backed_run (E : Prop) s evs : (∀ ev, ev ∈ evs → evidence ev → E) → backed E s → backed E (sys_run s evs).
Proof.
  revert s. induction evs as [|ev evs IH]; intros s He Hb; [done|]. apply IH.
  - intros ev' Hin. apply He. by right.
  - apply backed_step; [|done]. apply He. by left.
Qed.

(** The system when the context has been created and put into the pool. *)
Definition sys_new (id : Z) (para : WidgetPara) (modal remote : bool) : option System :=
  Create (WidgetContext_new id para modal remote) true.

Lemma backed_new (E : Prop) id para modal remote s :
  sys_new id para modal remote = Some s → backed E s.
Proof.
  unfold sys_new. rewrite widget_Create_spec. generalize (winv_new env id para modal remote).
  assert (Hl : effects_ (WidgetContext_new id para modal remote) = []) by reflexivity.
  revert Hl. generalize (WidgetContext_new id para modal remote). intros c Hl Hw [= <-]. split; simpl.
  - intros c' [= <-]. split; [done|]. rewrite Hl. by intros attr ?%elem_of_nil.
  - done.
  - intros m [= <-]. split; [by vm_compute|]. split; [constructor|]. by intros ?%elem_of_nil.
Qed.
End System.

(** C40: A widget context reports SUCCESS to the caller only if a child
    authenticated the user, or the widget itself notified a success: in every
    interleaving of the pool, the children, the widget's notices, the timer,
    the remote caller and the machine's tasks. *)
Theorem widget_success_honest (env : WidgetEnv) (self id : Z) (para : WidgetPara) (modal remote : bool)
    (evs : list sys_event) s c attr :
  sys_new env id para modal remote = Some s →
  callback_ (wnode (sys_run env self s evs)) = Some c → WResult SUCCESS attr ∈ effects_ c →
  ∃ ev, ev ∈ evs ∧ evidence ev.
Proof.
  intros Hnew Hc Hin.
  pose proof (backed_run env self (∃ ev, ev ∈ evs ∧ evidence ev) s evs
    (λ ev H1 H2, ex_intro _ ev (conj H1 H2)) (backed_new env _ id para modal remote s Hnew)) as Hb. clear Hnew.
  destruct (b_context _ _ _ Hb c Hc) as [_ Hs]. exact (Hs attr Hin).
Qed.

(** ** A concrete widget *)

(** A caller that asks for the PIN or the face; everything outside works, and
    the pool accepts children 11, 12, ... *)
Definition demo_env : WidgetEnv := mkWidgetEnv
  (λ _ _, (SUCCESS, mkProfile 0 [] 5 0)) (λ _ _, (SUCCESS, 7, 1)) (λ _, false) (λ _, true) false [] None (λ _, false) []
  (λ _, [Byte.x7b]) (λ _, 0) (λ _, 0) (λ l, Z.of_nat (length l) + 1) (λ l _, Some (Z.of_nat (length l) + 11))
  (λ _ _, true) (λ _, None) (λ _, None).

Definition demo_para : WidgetPara := mkPara 100 [Byte.x01] [PIN; FACE] false [] ∅ [] 0 [] false false.

Definition demo_system : WidgetScheduleNode WidgetContext :=
  default (mkWidgetScheduleNode (mkWNode None 0 0 [] false [] ∅ 0 0 0 0 0 0 [] []) None)
    (sys_new demo_env 9 demo_para false false).

Lemma demo_system_new : sys_new demo_env 9 demo_para false false = Some demo_system.
Proof. vm_compute. reflexivity. Qed.

(** Launch the widget, and start both authentications. *)
Definition demo_launch : list sys_event :=
  [EvStart; EvRound; EvNotice (NStartAuthList [PIN; FACE] false DEFAULT); EvRound].

(** The results a caller of this widget saw after some events. *)
Definition demo_results (evs : list sys_event) : list Z :=
  match callback_ (wnode (sys_run demo_env 1 demo_system evs)) with
  | Some c => omap (λ e, match e with WResult code _ => Some code | _ => None end) (effects_ c)
  | None => []
  end.

(** A credential that authenticates the user but is too weak
    (COMPLEXITY_CHECK_FAILED) is meant to be reported as TRUST_LEVEL_NOT_SUPPORT,
    and is if nothing intervenes. But when the result of another child arrives
    before the schedule has handled the first one, it overwrites
    [latestError_], and the caller is told SUCCESS although no child ever
    reported a success. *)
Theorem weak_credential_reported_as_success :
  let weak := EvChildResult PIN COMPLEXITY_CHECK_FAILED [] in
  let failed := EvChildResult FACE FAIL [] in
  demo_results (demo_launch ++ [weak; EvRound; failed; EvRound]) = [TRUST_LEVEL_NOT_SUPPORT] ∧
  demo_results (demo_launch ++ [weak; failed; EvRound; EvRound]) = [SUCCESS].
Proof. vm_compute. split; reflexivity. Qed.

(** The context after some events. *)
Definition demo_context (evs : list sys_event) : WidgetContext :=
  default (WidgetContext_new 9 demo_para false false) (callback_ (wnode (sys_run demo_env 1 demo_system evs))).

Definition demo_success : list sys_event := demo_launch ++ [EvChildResult PIN SUCCESS []; EvRound].

Lemma widget_success_honest_witness : ∃ ev, ev ∈ demo_success ∧ evidence ev.
Proof.
  assert (H : ∃ attr, WResult SUCCESS attr ∈ effects_ (demo_context demo_success)).
  { eexists. apply (list_elem_of_lookup_2 _ 19). vm_compute. reflexivity. }
  destruct H as [attr H].
  refine (widget_success_honest demo_env 1 9 demo_para false false demo_success demo_system
    (demo_context demo_success) attr demo_system_new _ H).
  vm_compute. reflexivity.
Defined.
